(* ===== verification/_CoqProject ===== *)
-Q . S2P
Prelude.v
CLib.v
Mem.v
Plist.v
Amap.v
Pmap.v
Pqueue.v
Sbuf.v
Log.v
Pvalue.v
Props.v
Filter.v
FilterParse.v
Slist.v
Double.v
Rounding.v
Util.v
Service.v
Sub.v
Json.v
JsonTree.v
ProtoTa.v
ProtoTaSpec.v
ProtoTaResp.v
ProtoTaSafe.v
Heap.v
Cells.v
FilterMem.v
FilterParseMem.v
PropsMem.v
ServiceMem.v
Client.v
Sd.v
SdWp.v
SdTimer.v
SdInv.v
SdOps.v
SdRemove.v
SdSubs.v
SdDisconnect.v
SdRun.v
SdTeardown.v
SdSpec.v
SdAbs.v
SdRefine.v
SdOut.v
SdCalls.v
SdGrow.v
ProtoConn.v
Server.v
ServerOut.v
ServerInv.v
ServerSteps.v
ServerReq.v
ServerRun.v
ServerLive.v
ServerSpec.v
ServerTold.v
ServerRead.v
ServerDir.v
Daemon.v
DaemonSpec.v
