(* ===== verification/Prelude.v ===== *)
(** * tpafd: a verified model of the Pathfinder service discovery server

    tpafd is the server of the Pathfinder service discovery protocol: clients
    connect, publish services (an identifier, a generation number, properties
    and a time to live), and subscribe with filters over the properties; a
    service whose publisher disconnects becomes an orphan, and is purged when
    its time to live is over.  This library models the program's core as
    executable Rocq functions and proves what makes it correct.

    ** The program

    src/src/util holds containers (plist, slist, pmap, pqueue, sbuf), time and
    logging; src/src/sd the service discovery core (pvalue, props, filter,
    generation, service, sub, conn, client, db, sd); src/src/proto the
    protocol (message encoding, transactions, connections, the listening
    server); src/src/daemon the process.  The protocol calls the functions of
    sd.c for each request; sd.c calls client.c, which changes services,
    connections and the database; each committed change of a service calls
    back sd.c ([service_changed]), which notifies the subscriptions and starts
    or stops orphan timers; libevent calls [orphan_timeout_cb].

    ** The files

    - Prelude.v: outcomes of C code (a value, a failed assertion, undefined
      behaviour, fuel), the state monad [M], weakest preconditions [wp],
      machine integers, lists.
    - CLib.v: the C string functions and integer printing and parsing that the
      program uses.
    - Mem.v, Plist.v, Amap.v, Pmap.v: arrays with uninitialised slots, plist.c
      over them, the contract of identifier maps (a class with laws), and
      pmap.c as an implementation of it.
    - Pqueue.v, Sbuf.v: pqueue.c and sbuf.c over arrays.
    - Pvalue.v, Props.v: property values, and the property multimap.
    - Filter.v, FilterParse.v: filters, their matching and printing, and the
      recursive descent parser.
    - Double.v: doubles as IEEE 754 binary64, and the conversions of times.
      Rounding.v: their exact values, and bounds on what rounding adds.
    - Service.v: generations, services, change transactions.
    - Sub.v: subscriptions, and what a change means to them.
    - Json.v, JsonTree.v: the contract of the JSON library (a class of the
      functions that the protocol calls, and one of their laws), and JSON trees
      as an instance of it, for concrete messages.
    - ProtoTa.v: proto_ta.c; the tables of message fields and transaction
      types, the parsing of requests, the building of responses, and the
      state machine of a transaction.  ProtoTaSpec.v: its properties;
      ProtoTaResp.v, ProtoTaSafe.v: the responses as a server sends them.
    - Cells.v: the memory of values, object by object, and a separation logic
      over it (an instance of Iris' interface, for its proof mode).
    - FilterMem.v, FilterParseMem.v, PropsMem.v, ServiceMem.v: filters, their
      parser, property sets, generations, services and subscriptions as
      objects in that memory, with every allocation and release.
    - Heap.v: the memory of the core; the objects with reference counts, the
      maps of db.c and conn.c, and the operations of conn.c and db.c on them.
    - Client.v, Sd.v: the operations of client.c and sd.c.
    - SdWp.v, SdInv.v: symbolic execution rules for the heap, and the invariant
      of the core with the lemmas about its parts.
    - SdTimer.v: the times that orphan timers are set for.
    - SdOps.v, SdRemove.v, SdSubs.v, SdDisconnect.v: for each operation of the
      core, that it keeps the invariant and what it does.
    - SdRun.v, SdSpec.v: sequences of requests and timeouts, the subscribers'
      view, and the properties of the core in reachable states.
    - SdAbs.v, SdRefine.v: a service directory as an abstract specification
      (what is offered, by whom, who wants to hear of it, and what they hear),
      and that the core implements it step by step.
    - SdTeardown.v: what each object owes to its holders, and [sd_destroy].
    - SdOut.v, SdCalls.v: what holds of every service that the core hands out;
      which match calls an operation makes; what its caller may rely on.
    - SdGrow.v: what no operation of the core takes back: outputs are appended,
      locations not used again, subscriptions not changed.
    - ProtoConn.v, Server.v: proto_conn.c and server.c over the core.  The
      state is a [world]: the core, the transactions and connections in memory
      with their queues of messages, and the two lists of the server.
    - ServerInv.v, ServerSteps.v, ServerReq.v, ServerRun.v: the invariant of a
      world, that each function of the layer keeps it, that each request of a
      client is handled as a whole, and sequences of events of the world.
    - ServerLive.v, ServerSpec.v: the sending loop, a concrete story, and the
      properties of the server in reachable worlds.
    - ServerOut.v, ServerTold.v: which messages each function of the layer adds
      to the streams of the connections, with their contents.  ServerRead.v: a
      client that reads those messages, and what it knows.
    - ServerDir.v: the server as a directory: which step of the directory a
      message asks for, and what the response says of it.
    - Daemon.v, DaemonSpec.v: main.c; options, several servers in one event
      loop, and that they run as if each were alone.
    - Log.v, Slist.v, Util.v: log contexts and destinations; the typed lists
      that the macros of plist.h make; the remaining functions of util.c.

    ** How the model corresponds to the code

    A definition has the name of the C function it models, and its steps are
    that function's steps, early returns and assertions included.  Structs are
    records, enums and unions inductive types, [int64_t] is [Z] with its
    bounds where they matter, strings are lists of characters without the
    terminating zero.  An operation that may fail an assertion or be undefined
    returns an [outcome]; one that changes the heap is a computation in
    [M state], where pointers are locations, [malloc] yields new ones and using
    a freed one is a fault; one of the protocol layer is a computation in
    [M world], which runs the operations of the core on the world's core.
    Callbacks of foreach loops are function arguments.

    Values that have one owner (strings, filters, properties, generations) are
    modelled twice.  The core uses them as immutable values of Rocq; the files
    named Mem have the same functions over a memory of objects, where a pointer
    is a location and [free] takes the object away, and show that the former is
    what the latter compute.  Such a function has the same name in both.

    The array level and the core meet at the identifier maps: Pmap.v proves
    that pmap.c over plist.c keeps the contract of Amap.v, and the core is
    written with the maps of that contract.  [ut_malloc] never returns a null
    pointer (it aborts the process instead); the plain [malloc] of pvalue.c,
    whose result the code does not check, is taken to succeed.  Reference counts
    are [int]s in the code and unbounded in the model: no object is shared 2^31
    times.

    The core and the protocol meet at the match callbacks: the core lists its
    outputs (callbacks, [event_add], [event_del]) in order, and the protocol
    layer takes the callbacks from that list when the call of the core
    returns.  The callbacks only queue messages on connections and do not call
    the core, so that this is what calling them at once does.  libevent's
    timeouts are inputs, which may come for any pending timer; so are the
    results of the calls of the XCM library (accepting, receiving, sending);
    the address of a peer is a parameter.  The clock is an arbitrary sequence
    of readings (need not be monotonic).  The JSON library (jansson) is a
    parameter with laws, so that the theorems hold of every library that does
    what its documentation says.

    ** What is shown

    - SdSpec.v: no sequence of admissible requests and timeouts makes the core
      fault ([sd_runs_safely]); each subscriber's notifications, with their
      contents, add up to the services that its filter selects, in their current
      generations ([subscribers_up_to_date]); orphans and timers correspond; what
      each request does, on every branch.  And where the code does not do what it
      means to: the timer of an orphan whose owner has connected again aborts the
      server ([timeout_after_reconnect]), a service that its owner republishes is
      not orphaned by the owner's next disconnection ([republished_not_orphaned]),
      and a client that loses its last service stays known.
    - SdTimer.v: the timer of an orphan is set for the exact time that is left
      and about a millisecond more, so that rounding never makes it early
      ([orphan_timers_precise]).
    - SdRefine.v: a sequence of such requests and of timeouts of any pending
      timers has the results of an abstract directory, the core represents its
      state, and each subscription is told the directory's news, no more and no
      less, up to the first timeout of an orphan whose owner has connected again,
      where the core aborts ([sd_refines_directory]).
    - ServerSpec.v, ServerLive.v: the same for the whole server.  A sequence of
      connections, messages (well formed or not), disconnections and timeouts of
      any pending timers is processed to its end without a fault, up to such a
      timeout ([server_runs_safely]), and the protocol connections, the core's
      clients and the timers stay consistent ([server_state_consistent]).  Each
      message that is handled is answered, refused or closes the connection
      ([message_answered]); nothing but hello is served before the handshake
      ([refused_before_hello]), which has a deadline ([handshake_deadline]).
      Queued messages are sent in order, also when the event first receives a
      message, and when the socket fails ([messages_sent_in_order]); connections
      go on listening; destroying the server frees every object
      ([server_destroy_frees_all]).  Beyond the limits on requests below, one
      client can bring the server to undefined behaviour ([limits_needed], two
      runs).
    - ServerTold.v, ServerRead.v: from the core to the sockets: what is on the
      socket of a connection and in its queue is one notification for each match
      call, in order, among messages that notify of no match; and a client that
      reads the notifications of its subscription with the protocol's tables,
      keeping the last one of each service, has exactly the services that its
      filter selects, with the generation, properties, time to live, owner and
      orphan time that the core has ([subscriber_reads]).  When its socket takes
      what it is given, the client has read all of that after finitely many calls
      ([subscriber_catches_up]).
    - ServerDir.v: what a server holds is what that directory holds after some
      steps, and each request on a connection is answered with the result of the
      step that it asks for, with the reason when it fails
      ([server_refines_directory]).
    - ProtoTaSpec.v, ProtoTaResp.v, ProtoTaSafe.v: requests are parsed as the
      tables say and rejected otherwise; responses carry the fields they are
      given; a transaction only makes the responses that its type and state
      allow.
    - Pmap.v, Pqueue.v: refinement of finite maps and of FIFO queues; Sbuf.v:
      what is appended is what is in the string.
    - Props.v, Filter.v, FilterParse.v: the property queries, matching against
      the meaning of filters, termination and safety of the parser on all
      inputs, the parse/print round trip; how patterns with two parts between
      wildcards are matched, which is wrong ([substring_matches_wrong]), and two
      more defects.
    - Service.v, Sub.v: changes are transactions; notifications are right.
    - FilterParseMem.v, PropsMem.v, ServiceMem.v: values have one owner each.
      The functions that make, copy, change and free them do in memory what
      the functions of Filter.v, Props.v, Service.v and Sub.v do on values,
      touch nothing else, and leak nothing, on no path
      ([filter_parse_owns_result], [props_ops_owned], [service_ops_owned]).
    - DaemonSpec.v: with which status the process ends, and when it does not;
      whatever the order of the events of its servers, each gets to the state it
      would get to alone; a signal destroys all of them and leaves nothing
      ([daemon_correct]).
    - Log.v: an event is written where and when the settings say, with the
      prefixes of its context's ancestors ([log_event_written]), as long as
      contexts are destroyed before their parents.
    - Slist.v: calls on lists of strings give what plain lists give.

    ** Fuel and bounds

    Loops that are not structural have fuel, which callers compute from the
    data (the length of the input for the filter parser, the number of contexts
    made so far for a log prefix, the number of objects in memory for the
    functions that recurse over filters in memory, [with_depth]); the theorems
    show that it never runs out.
    Times to live are assumed to be at most 2^32 seconds and the clock to be
    between 1970 and 2242 (2^33 seconds), which keeps the conversion of a time
    left to a [struct timeval] in range.  Matching is shown correct for filters
    without a pattern part behind a wildcard in the middle ([Filter.simple]),
    because there the code is wrong.  The theorems on the server take received
    requests that are within these limits ([ServerReq.within_limits]) and at
    most 65535 bytes long, the size of the receive buffer; and the states they
    speak of ([reachable], [served]) are those before any timer of an orphan whose
    owner has connected again has fired, since there the server aborts.  What a
    client reads is what is on its socket if the sockets that the server accepts
    are told apart.  The program does not check the limits on requests, and [limits_needed] shows requests beyond them that
    it accepts, and by which its behaviour becomes undefined.

    ** What is not modelled

    The text of JSON (jansson's parser and printer), the transport (XCM), the
    event loop (libevent), formatting ([printf]) and [getopt], which are
    libraries: the model has what they return as inputs or parameters.  The log
    lines that the protocol layer and the servers write: Log.v models the log
    module by itself, and the daemon's own lines.  The memory of values in
    client.c and above, which pass filters and properties on to the functions
    of the Mem files but keep none themselves.  Matching and printing filters
    in memory: they read only, and are functions on filters in Filter.v.  The
    tests and the release scripts. *)

From stdpp Require Export base list gmap strings fin_maps.
From Stdlib Require Export Ascii ZArith Lia.

#[global] Set Default Goal Selector "!".
#[global] Set Warnings "-clear-no-such-hyp".

(** ** Outcomes of C code *)

(** Why an execution has no result: a failed [ut_assert]/[assert]
    ([abort()]), behaviour C leaves undefined (a null or dangling pointer, an
    access out of bounds, an uninitialised read), or the fuel of a loop
    having run out. *)
Inductive fault := AssertFailed | Undefined | OutOfFuel.

Inductive outcome (A : Type) : Type :=
  | Ok (a : A)
  | Fail (e : fault).
Arguments Ok {A} _.
Arguments Fail {A} _.

#[export] Instance fault_eq_dec : EqDecision fault.
Proof. solve_decision. Defined.

#[export] Instance outcome_eq_dec `{EqDecision A} : EqDecision (outcome A).
Proof. solve_decision. Defined.

#[export] Instance outcome_ret : MRet outcome := λ A a, Ok a.

#[export] Instance outcome_bind : MBind outcome := λ A B f m,
  match m with Ok a => f a | Fail e => Fail e end.

#[export] Instance outcome_fmap : FMap outcome := λ A B f m,
  match m with Ok a => Ok (f a) | Fail e => Fail e end.

(** [ut_assert (b)] of util.h. *)
Definition ut_assert (b : bool) : outcome unit :=
  if b then Ok tt else Fail AssertFailed.

(** Dereferencing a pointer: [None] is [NULL] or a dangling pointer. *)
Definition deref {A} (p : option A) : outcome A :=
  match p with Some a => Ok a | None => Fail Undefined end.

(** ** State-passing computations *)

Definition M (S A : Type) : Type := S → outcome (A * S).

#[export] Instance M_ret {S} : MRet (M S) := λ A a s, Ok (a, s).

#[export] Instance M_bind {S} : MBind (M S) := λ A B f m s,
  match m s with Ok (a, s') => f a s' | Fail e => Fail e end.

#[export] Instance M_fmap {S} : FMap (M S) := λ A B f m s,
  match m s with Ok (a, s') => Ok (f a, s') | Fail e => Fail e end.

Definition lift {S A} (o : outcome A) : M S A := λ s,
  match o with Ok a => Ok (a, s) | Fail e => Fail e end.

Definition gets {S A} (f : S → A) : M S A := λ s, Ok (f s, s).

Definition modify {S} (f : S → S) : M S unit := λ s, Ok (tt, f s).

Definition fault_with {S A} (e : fault) : M S A := λ _, Fail e.

(** Weakest precondition of a computation: it ends without a fault, in a
    result and a state that satisfy the postcondition. *)
Definition wp {S A} (m : M S A) (Q : A → S → Prop) (s : S) : Prop :=
  match m s with Ok (a, s') => Q a s' | Fail _ => False end.

(** Calling [f] on each element of a list in order (a [foreach] whose
    callback always returns true). *)
Fixpoint mforeach {S A} (f : A → M S unit) (l : list A) : M S unit :=
  match l with
  | [] => mret tt
  | x :: l => _ ← f x; mforeach f l
  end.

(** ** Machine integers *)

Definition int64_min : Z := (-9223372036854775808)%Z.
Definition int64_max : Z := 9223372036854775807%Z.
Definition is_int64 (z : Z) : bool :=
  bool_decide (int64_min ≤ z)%Z && bool_decide (z ≤ int64_max)%Z.

(** Conversion to [uint64_t] and [size_t] (64 bits). *)
Definition u64 (z : Z) : Z := (z mod 18446744073709551616)%Z.

(** Conversion of a 64-bit pattern to [int64_t]. *)
Definition s64 (z : Z) : Z :=
  let m := u64 z in
  if bool_decide (m ≤ int64_max)%Z then m else (m - 18446744073709551616)%Z.

(** ** Rules for [wp] *)

Section wp.
Context {S : Type}.

Lemma wp_ret {A} (a : A) Q (s : S) : Q a s → wp (mret a) Q s.
Proof. done. Qed.

Lemma wp_bind {A B} (m : M S A) (f : A → M S B) Q s :
  wp m (λ a, wp (f a) Q) s → wp (m ≫= f) Q s.
Proof. unfold wp, mbind, M_bind. by destruct (m s) as [[a s']|]. Qed.

Lemma wp_fmap {A B} (g : A → B) (m : M S A) Q s :
  wp m (λ a, Q (g a)) s → wp (g <$> m) Q s.
Proof. unfold wp, fmap, M_fmap. by destruct (m s) as [[a s']|]. Qed.

Lemma wp_mono {A} (m : M S A) (P Q : A → S → Prop) s :
  wp m P s → (∀ a s', P a s' → Q a s') → wp m Q s.
Proof. unfold wp. destruct (m s) as [[a s']|]; eauto. Qed.

Lemma wp_lift {A} (o : outcome A) a Q (s : S) :
  o = Ok a → Q a s → wp (lift o) Q s.
Proof. intros -> ?. done. Qed.

Lemma wp_gets {A} (f : S → A) Q s : Q (f s) s → wp (gets f) Q s.
Proof. done. Qed.

Lemma wp_modify (f : S → S) Q s : Q tt (f s) → wp (modify f) Q s.
Proof. done. Qed.

(** A loop whose body keeps an invariant indexed by the part already
    visited. *)
Lemma wp_mforeach {A} (f : A → M S unit) (I : list A → S → Prop) l s :
  I [] s →
  (∀ done x rest s', l = done ++ x :: rest → I done s' →
     wp (f x) (λ _ s'', I (done ++ [x]) s'') s') →
  wp (mforeach f l) (λ _ s', I l s') s.
Proof.
  intros HI Hstep.
  cut (∀ rest done s', l = done ++ rest → I done s' →
         wp (mforeach f rest) (λ _ s'', I l s'') s').
  { intros Hc. by apply (Hc l []). }
  intros rest. induction rest as [|x rest IH]; intros done0 s' Hl HI'; simpl.
  - apply wp_ret. by rewrite Hl, app_nil_r.
  - apply wp_bind. eapply wp_mono; [by eapply Hstep|].
    intros [] s'' HI''. apply (IH (done0 ++ [x])); [|done].
    by rewrite <-app_assoc.
Qed.
End wp.

(** The database that steps through monadic code. *)
Create HintDb tpaf discriminated.
#[export] Hint Resolve wp_ret wp_gets wp_modify : tpaf.

(** One step of symbolic execution. *)
Ltac wp_step :=
  match goal with
  | |- wp (mbind _ _) _ _ => apply wp_bind
  | |- wp (fmap _ _) _ _ => apply wp_fmap
  | |- wp (mret _) _ _ => apply wp_ret
  | |- wp (gets _) _ _ => apply wp_gets
  | |- wp (modify _) _ _ => apply wp_modify
  end.
Ltac wp_steps := repeat (wp_step; cbn beta).

(** ** Outcomes: inversion *)

Lemma outcome_bind_Ok {A B} (m : outcome A) (f : A → outcome B) b :
  m ≫= f = Ok b → ∃ a, m = Ok a ∧ f a = Ok b.
Proof. destruct m; simpl; [eauto|done]. Qed.

Lemma M_bind_Ok {S A B} (m : M S A) (f : A → M S B) s b s'' :
  (m ≫= f) s = Ok (b, s'') → ∃ a s', m s = Ok (a, s') ∧ f a s' = Ok (b, s'').
Proof. unfold mbind, M_bind. destruct (m s) as [[a s']|]; [eauto|done]. Qed.

(** Executing the first of two computations. *)
Lemma bind_run {S A B} (m : M S A) (f : A → M S B) s a s' :
  m s = Ok (a, s') → (m ≫= f) s = f a s'.
Proof. intros H. unfold mbind, M_bind. by rewrite H. Qed.

Ltac run_with H := rewrite (bind_run _ _ _ _ _ H); cbn beta iota.

(** ** Lists *)

(** Right-nested appends on both sides. *)
Ltac app_norm := repeat progress (rewrite <-?app_assoc; cbn [app]).


Lemma take_app_length_eq {A} (l k : list A) n :
  n = length l → take n (l ++ k) = l.
Proof. intros ->. apply take_app_length. Qed.

Lemma drop_app_length_eq {A} (l k : list A) n :
  n = length l → drop n (l ++ k) = k.
Proof. intros ->. apply drop_app_length. Qed.

Lemma lookup_drop_hd {A} (l : list A) n : l !! n = head (drop n l).
Proof. revert n. induction l as [|x l IH]; intros [|n]; simpl; auto. Qed.

Lemma drop_S_tail {A} (l : list A) n : drop (S n) l = tail (drop n l).
Proof. revert n. induction l as [|x l IH]; intros [|n]; simpl; auto. Qed.

Lemma omap_cons_eq {A B} (f : A → option B) x (l : list A) :
  omap f (x :: l) = match f x with Some y => y :: omap f l | None => omap f l end.
Proof. done. Qed.

Lemma mapM_cons_eq {A B} (f : A → option B) x (l : list A) :
  mapM f (x :: l) = y ← f x; k ← mapM f l; Some (y :: k).
Proof. done. Qed.

Lemma omap_omap {A B D} (f : A → option B) (g : B → option D) (l : list A) :
  omap g (omap f l) = omap (λ x, f x ≫= g) l.
Proof.
  induction l as [|x l IH]; [done|]. rewrite !omap_cons_eq.
  destruct (f x) as [y|]; [|exact IH]. by rewrite omap_cons_eq, IH.
Qed.

Lemma omap_ext_eq {A B} (f g : A → option B) (l : list A) : (∀ x, f x = g x) → omap f l = omap g l.
Proof.
  intros H. induction l as [|x l IH]; [done|]. by rewrite !omap_cons_eq, H, IH.
Qed.

Lemma u64_small z : (0 ≤ z < 18446744073709551616)%Z → u64 z = z.
Proof. apply Z.mod_small. Qed.

Lemma s64_u64 z : is_int64 z = true → s64 (u64 z) = z.
Proof.
  unfold is_int64, int64_min, int64_max. intros [H1 H2]%andb_true_iff.
  apply bool_decide_eq_true in H1, H2.
  unfold s64, u64, int64_max. rewrite Z.mod_mod by lia.
  case_bool_decide as H; Z.div_mod_to_equations; lia.
Qed.

Lemma u64_inj a b : is_int64 a = true → is_int64 b = true → u64 a = u64 b → a = b.
Proof. intros Ha Hb E. by rewrite <-(s64_u64 a), <-(s64_u64 b), E. Qed.
