(* ===== verification/CLib.v ===== *)
(** * The C library functions the program relies on

    C strings are lists of characters: the characters before the terminating
    NUL.  A list that contains NUL is no C string; [nul_free] says so where a
    statement needs it. *)

From S2P Require Import Prelude.

Abbreviation cstr := (list ascii).

(** A string literal. *)
Definition C (s : string) : cstr := String.list_ascii_of_string s.

Definition NUL : ascii := Ascii.zero.

Definition nul_free (s : cstr) : Prop := NUL ∉ s.

#[export] Instance nul_free_dec s : Decision (nul_free s).
Proof. unfold nul_free. apply _. Defined.

(** The value of an [unsigned char]. *)
Definition code (c : ascii) : Z := Z.of_nat (nat_of_ascii c).

(** ** string.h *)

Definition strlen (s : cstr) : nat := length s.

Fixpoint strcmp (a b : cstr) : Z :=
  match a, b with
  | [], [] => 0
  | [], y :: _ => - code y
  | x :: _, [] => code x
  | x :: a', y :: b' => if decide (x = y) then strcmp a' b' else code x - code y
  end%Z.

Fixpoint strncmp (a b : cstr) (n : nat) : Z :=
  match n, a, b with
  | O, _, _ => 0
  | _, [], [] => 0
  | _, [], y :: _ => - code y
  | _, x :: _, [] => code x
  | S n', x :: a', y :: b' =>
      if decide (x = y) then strncmp a' b' n' else code x - code y
  end%Z.

(** [strstr]: the offset of the first occurrence. *)
Fixpoint strstr (haystack needle : cstr) : option nat :=
  if bool_decide (needle `prefix_of` haystack) then Some O
  else match haystack with
       | [] => None
       | _ :: h => S <$> strstr h needle
       end.

(** [strchr (s, c) != NULL]; the terminating NUL belongs to the string. *)
Definition strchr_has (s : cstr) (c : ascii) : bool :=
  bool_decide (c ∈ s ++ [NUL]).

(** ** ctype.h, in the "C" locale (the program never calls [setlocale]) *)

Definition isspace (c : ascii) : bool :=
  bool_decide (code c = 32)%Z || (bool_decide (9 ≤ code c)%Z && bool_decide (code c ≤ 13)%Z).

Definition isdigit (c : ascii) : bool :=
  bool_decide (48 ≤ code c)%Z && bool_decide (code c ≤ 57)%Z.

Definition digit_val (c : ascii) : Z := (code c - 48)%Z.

(** ** stdlib.h: [strtoll (s, &endptr, 10)] *)

Fixpoint span (p : ascii → bool) (s : cstr) : cstr * cstr :=
  match s with
  | [] => ([], [])
  | c :: s' => if p c then let '(a, b) := span p s' in (c :: a, b) else ([], s)
  end.

Definition digits_value (ds : cstr) : Z :=
  foldl (λ acc c, 10 * acc + digit_val c)%Z 0%Z ds.

(** Out of range values saturate. *)
Definition clamp_int64 (z : Z) : Z := Z.max int64_min (Z.min int64_max z).

Definition strtoll_sign (s : cstr) : bool * cstr :=
  match s with
  | c :: s' => if decide (c = "-"%char) then (true, s')
               else if decide (c = "+"%char) then (false, s')
               else (false, s)
  | [] => (false, [])
  end.

(** The value and the string [endptr] points to. *)
Definition strtoll (s : cstr) : Z * cstr :=
  let '(neg, s1) := strtoll_sign (snd (span isspace s)) in
  let '(ds, rest) := span isdigit s1 in
  match ds with
  | [] => (0%Z, s)
  | _ => let v := digits_value ds in
         (clamp_int64 (if neg then - v else v)%Z, rest)
  end.

(** ** stdio.h: [snprintf (buf, 64, "%ld", value)] *)

Definition digit_char (d : Z) : ascii := ascii_of_nat (48 + Z.to_nat d).

Fixpoint print_digits (fuel : nat) (n : Z) (acc : cstr) : cstr :=
  match fuel with
  | O => acc
  | S fuel' =>
      let acc' := digit_char (n mod 10) :: acc in
      if bool_decide (n < 10)%Z then acc' else print_digits fuel' (n / 10)%Z acc'
  end.

(** Twenty digits are enough for every 64-bit integer. *)
Definition print_int64 (z : Z) : cstr :=
  if bool_decide (z < 0)%Z then "-"%char :: print_digits 20 (- z) []
  else print_digits 20 z [].

(** ** Comparison of strings *)

Lemma code_inj a b : code a = code b → a = b.
Proof.
  unfold code. intros H%Nat2Z.inj.
  by rewrite <-(ascii_nat_embedding a), <-(ascii_nat_embedding b), H.
Qed.

Lemma code_range c : (0 ≤ code c < 256)%Z.
Proof. unfold code. pose proof (nat_ascii_bounded c). lia. Qed.

Lemma code_NUL c : code c = 0%Z ↔ c = NUL.
Proof. split; [intros H; by apply code_inj|by intros ->]. Qed.

(** [strcmp] decides equality of C strings. *)
Lemma strcmp_eq a b : nul_free a → nul_free b → strcmp a b = 0%Z ↔ a = b.
Proof.
  unfold nul_free. revert b.
  induction a as [|x a IH]; intros [|y b]; simpl; rewrite ?not_elem_of_cons; intros Ha Hb.
  - done.
  - split; [|done]. intros H. destruct Hb as [Hb _].
    exfalso. apply Hb. symmetry. apply code_NUL. lia.
  - split; [|done]. intros H. destruct Ha as [Ha _].
    exfalso. apply Ha. symmetry. by apply code_NUL.
  - case_decide as Hxy.
    + subst. destruct Ha as [_ Ha], Hb as [_ Hb]. rewrite IH by done.
      split; [by intros ->|by intros [=]].
    + split; [|by intros [= ->]]. intros H. exfalso. apply Hxy, code_inj. lia.
Qed.

Lemma strcmp_refl a : strcmp a a = 0%Z.
Proof. induction a as [|x a IH]; simpl; [done|]. by rewrite decide_True. Qed.

Lemma strcmp_neq a b : nul_free a → nul_free b → a ≠ b → strcmp a b ≠ 0%Z.
Proof. intros Ha Hb Hab. by rewrite strcmp_eq. Qed.

(** [strncmp (p, s, strlen (p)) == 0] is the prefix test. *)
Lemma strncmp_prefix a b : nul_free a → nul_free b →
  strncmp a b (strlen a) = 0%Z ↔ a `prefix_of` b.
Proof.
  unfold nul_free, strlen. revert b.
  induction a as [|x a IH]; intros b; simpl.
  - split; intros; [apply prefix_nil|done].
  - intros [Ha1 Ha2]%not_elem_of_cons. destruct b as [|y b]; intros Hb.
    + split; intros H; [|by apply prefix_nil_inv in H].
      exfalso. apply Ha1. symmetry. by apply code_NUL.
    + apply not_elem_of_cons in Hb as [Hb1 Hb2]. case_decide as Hxy.
      * subst. rewrite IH by done. split; [apply prefix_cons|apply prefix_cons_inv_2].
      * split; intros H.
        -- exfalso. apply Hxy, code_inj. lia.
        -- by apply prefix_cons_inv_1 in H.
Qed.

Lemma strstr_Some h n i : strstr h n = Some i →
  ∃ k, h = take i h ++ n ++ k ∧ i ≤ length h.
Proof.
  revert i. induction h as [|x h IH]; intros i; simpl.
  - case_bool_decide as Hp; [|done]. intros [= <-].
    destruct Hp as [k Hk]. exists k. simpl. split; [done|lia].
  - case_bool_decide as Hp.
    + intros [= <-]. destruct Hp as [k Hk]. exists k. simpl. split; [done|lia].
    + intros (j & Hj & ->)%fmap_Some. destruct (IH j Hj) as (k & Hk & Hl).
      exists k. simpl. split; [by f_equal|lia].
Qed.

Lemma strstr_None h n : strstr h n = None → ∀ a b, h ≠ a ++ n ++ b.
Proof.
  induction h as [|x h IH]; simpl.
  - case_bool_decide as Hp; [done|]. intros _ [|??] b H; [|done].
    apply Hp. by exists b.
  - case_bool_decide as Hp; [done|]. intros H%fmap_None a b Heq.
    destruct a as [|y a]; simpl in Heq.
    + apply Hp. by exists b.
    + injection Heq as -> Heq. by eapply IH.
Qed.

(** [strstr] finds the first occurrence. *)
Lemma strstr_min a n b : ∃ i, strstr (a ++ n ++ b) n = Some i ∧ i ≤ length a.
Proof.
  induction a as [|x a (i & IH & Hi)]; simpl.
  - exists 0. split; [|lia]. destruct (n ++ b) eqn:E; simpl.
    + apply app_nil in E as [-> _]. done.
    + rewrite bool_decide_eq_true_2; [done|]. rewrite <-E. by exists b.
  - case_bool_decide; [exists 0; split; [done|lia]|].
    exists (S i). rewrite IH. split; [done|lia].
Qed.

(** ** Printing and reading integers *)

Lemma code_digit_char d : (0 ≤ d < 10)%Z → code (digit_char d) = (48 + d)%Z.
Proof.
  intros H. unfold code, digit_char. rewrite nat_ascii_embedding by lia. lia.
Qed.

Lemma isdigit_digit_char d : (0 ≤ d < 10)%Z → isdigit (digit_char d) = true.
Proof.
  intros H. unfold isdigit. rewrite code_digit_char by done.
  by rewrite !bool_decide_eq_true_2 by lia.
Qed.

Lemma digits_value_snoc ds c :
  digits_value (ds ++ [c]) = (10 * digits_value ds + digit_val c)%Z.
Proof. unfold digits_value. by rewrite foldl_app. Qed.

(** What printing produces: digits, at least one of them, of the right value. *)
Lemma print_digits_spec fuel n acc : (0 ≤ n < 10 ^ Z.of_nat (S fuel))%Z →
  ∃ ds, print_digits (S fuel) n acc = ds ++ acc ∧ ds ≠ [] ∧
        Forall (λ c, isdigit c = true) ds ∧ digits_value ds = n.
Proof.
  revert n acc. induction fuel as [|fuel IH]; intros n acc Hn.
  - exists [digit_char (n mod 10)]. cbn [print_digits].
    assert (n < 10)%Z by (simpl in Hn; lia).
    rewrite bool_decide_eq_true_2 by done. rewrite Z.mod_small by lia.
    split_and!; [done|done| |].
    + constructor; [apply isdigit_digit_char; lia|constructor].
    + unfold digits_value, digit_val. simpl. rewrite code_digit_char by lia. lia.
  - set (d := digit_char (n mod 10)).
    assert (Hd : (0 ≤ n mod 10 < 10)%Z) by (apply Z.mod_pos_bound; lia).
    assert (E : print_digits (S (S fuel)) n acc =
      if bool_decide (n < 10)%Z then d :: acc
      else print_digits (S fuel) (n / 10) (d :: acc)) by done.
    rewrite E. clear E. case_bool_decide as Hlt.
    + exists [d]. split_and!; [done|done| |].
      * constructor; [by apply isdigit_digit_char|constructor].
      * unfold digits_value, digit_val, d. simpl. rewrite code_digit_char by done.
        rewrite Z.mod_small by lia. lia.
    + destruct (IH (n / 10)%Z (d :: acc)) as (ds & E & Hne & Hf & Hv).
      { rewrite Nat2Z.inj_succ, Z.pow_succ_r in Hn by lia.
        split; [apply Z.div_pos; lia|]. apply Z.div_lt_upper_bound; lia. }
      exists (ds ++ [d]). split_and!.
      * by rewrite E, <-app_assoc.
      * by destruct ds.
      * apply Forall_app_2; [done|]. constructor; [by apply isdigit_digit_char|constructor].
      * rewrite digits_value_snoc, Hv. unfold digit_val, d.
        rewrite code_digit_char by done. pose proof (Z.div_mod n 10). lia.
Qed.

Lemma span_all p s : Forall (λ c, p c = true) s → span p s = (s, []).
Proof. induction 1 as [|c s Hc _ IH]; simpl; [done|]. by rewrite Hc, IH. Qed.

Lemma isdigit_not_space c : isdigit c = true → isspace c = false.
Proof.
  unfold isdigit, isspace. intros [H1 H2]%andb_true_iff.
  apply bool_decide_eq_true in H1, H2.
  rewrite (bool_decide_eq_false_2 (code c = 32)%Z) by lia.
  rewrite (bool_decide_eq_false_2 (code c ≤ 13)%Z) by lia.
  by rewrite andb_false_r.
Qed.

Lemma isdigit_not_sign c : isdigit c = true → c ≠ "-"%char ∧ c ≠ "+"%char.
Proof. by split; intros ->. Qed.

Lemma print_int64_spec z : is_int64 z = true →
  ∃ ds, print_int64 z = (if bool_decide (z < 0)%Z then "-"%char :: ds else ds) ∧
    ds ≠ [] ∧ Forall (λ c, isdigit c = true) ds ∧ digits_value ds = Z.abs z.
Proof.
  unfold is_int64, int64_min, int64_max. intros [H1 H2]%andb_true_iff.
  apply bool_decide_eq_true in H1, H2.
  destruct (print_digits_spec 19 (Z.abs z) []) as (ds & E & Hne & Hf & Hv); [lia|].
  exists ds. split; [|done]. rewrite app_nil_r in E. unfold print_int64.
  case_bool_decide as Hz.
  - rewrite Z.abs_neq in E by lia. by rewrite E.
  - rewrite Z.abs_eq in E by lia. by rewrite E.
Qed.

Lemma strtoll_digits ds : ds ≠ [] → Forall (λ c, isdigit c = true) ds →
  strtoll ds = (clamp_int64 (digits_value ds), []) ∧
  strtoll ("-"%char :: ds) = (clamp_int64 (- digits_value ds), []).
Proof.
  intros Hne Hf. split.
  - destruct ds as [|c ds]; [done|]. pose proof Hf as Hf'.
    apply Forall_cons in Hf as [Hc Hf]. unfold strtoll.
    assert (E : span isspace (c :: ds) = ([], c :: ds)).
    { simpl. by rewrite isdigit_not_space. }
    rewrite E. cbn [snd strtoll_sign]. destruct (isdigit_not_sign c Hc) as [N1 N2].
    rewrite !decide_False by done. by rewrite span_all by done.
  - unfold strtoll.
    change (span isspace ("-"%char :: ds)) with (@nil ascii, "-"%char :: ds).
    cbn [snd strtoll_sign]. rewrite decide_True by done. rewrite span_all by done.
    by destruct ds.
Qed.

Lemma clamp_int64_id z : is_int64 z = true → clamp_int64 z = z.
Proof.
  unfold is_int64, clamp_int64. intros [H1 H2]%andb_true_iff.
  apply bool_decide_eq_true in H1, H2. lia.
Qed.

Lemma clamp_int64_range z : is_int64 (clamp_int64 z) = true.
Proof.
  unfold is_int64, clamp_int64, int64_min, int64_max.
  by rewrite !bool_decide_eq_true_2 by lia.
Qed.

(** Reading back what was printed. *)
Lemma strtoll_print z : is_int64 z = true → strtoll (print_int64 z) = (z, []).
Proof.
  intros Hz. destruct (print_int64_spec z Hz) as (ds & -> & Hne & Hf & Hv).
  destruct (strtoll_digits ds Hne Hf) as [E1 E2]. rewrite Hv in E1, E2.
  case_bool_decide.
  - rewrite E2. rewrite Z.abs_neq, Z.opp_involutive by lia. by rewrite clamp_int64_id.
  - rewrite E1. rewrite Z.abs_eq by lia. by rewrite clamp_int64_id.
Qed.

(** The characters of a printed integer are digits, but for the sign. *)
Lemma print_int64_chars z : is_int64 z = true →
  Forall (λ c, isdigit c = true ∨ c = "-"%char) (print_int64 z).
Proof.
  intros Hz. destruct (print_int64_spec z Hz) as (ds & -> & _ & Hf & _).
  assert (Forall (λ c, isdigit c = true ∨ c = "-"%char) ds).
  { eapply Forall_impl; [exact Hf|]. auto. }
  case_bool_decide; [|done]. constructor; auto.
Qed.

Lemma print_int64_nul_free z : is_int64 z = true → nul_free (print_int64 z).
Proof.
  intros Hz Hin. pose proof (print_int64_chars z Hz) as Hf.
  rewrite Forall_forall in Hf. destruct (Hf NUL Hin) as [H|H]; by vm_compute in H.
Qed.

Lemma print_int64_cons z : is_int64 z = true →
  ∃ c s, print_int64 z = c :: s ∧ isspace c = false.
Proof.
  intros Hz. destruct (print_int64_spec z Hz) as (ds & -> & Hne & Hf & _).
  case_bool_decide; [by eexists _, _|]. destruct ds as [|d ds]; [done|].
  apply Forall_cons in Hf as [Hd _]. exists d, ds. split; [done|].
  by apply isdigit_not_space.
Qed.

Lemma print_int64_inj a b : is_int64 a = true → is_int64 b = true →
  print_int64 a = print_int64 b → a = b.
Proof.
  intros Ha Hb E. pose proof (strtoll_print a Ha) as H1.
  rewrite E, (strtoll_print b Hb) in H1. congruence.
Qed.

Lemma strtoll_range s : is_int64 (strtoll s).1 = true.
Proof.
  unfold strtoll. destruct (strtoll_sign _) as [neg s1].
  destruct (span isdigit s1) as [[|d ds] rest]; simpl; [done|]. apply clamp_int64_range.
Qed.
