(* ===== verification/Mem.v ===== *)
(** * Heap blocks and loops

    A block of memory that holds an array is the list of its slots; a slot
    that was never written is [None].  Reading such a slot, or any access out
    of the block, is undefined behaviour.  The allocation wrappers of util.c
    end the process when memory is exhausted, so in the model allocation
    succeeds. *)

From S2P Require Import Prelude.

(** ** Blocks *)

Abbreviation block A := (list (option A)).

(** [ut_malloc (n * sizeof (elem))] *)
Definition ut_malloc {A} (n : nat) : block A := replicate n None.

(** [ut_realloc]: the old contents up to the smaller size, then fresh slots. *)
Definition ut_realloc {A} (b : block A) (n : nat) : block A :=
  take n b ++ replicate (n - length b) None.

Definition slot_read {A} (b : block A) (i : nat) : outcome A :=
  match b !! i with Some (Some a) => Ok a | _ => Fail Undefined end.

Definition slot_write {A} (b : block A) (i : nat) (a : A) : outcome (block A) :=
  if bool_decide (i < length b) then Ok (<[i := Some a]> b) else Fail Undefined.

(** [memmove (&b[dst], &b[src], n)]; [n] is a [size_t], it may be huge. *)
Definition memmove {A} (b : block A) (dst src : nat) (n : Z) : outcome (block A) :=
  if bool_decide (Z.of_nat dst + n ≤ Z.of_nat (length b))%Z &&
     bool_decide (Z.of_nat src + n ≤ Z.of_nat (length b))%Z
  then let n := Z.to_nat n in
       Ok (take dst b ++ take n (drop src b) ++ drop (dst + n) b)
  else Fail Undefined.

(** [memcpy (&dst[at], src, n)] between two blocks. *)
Definition memcpy {A} (dst : block A) (at_ : nat) (src : block A) (n : nat)
    : outcome (block A) :=
  if bool_decide (at_ + n ≤ length dst) && bool_decide (n ≤ length src)
  then Ok (take at_ dst ++ take n src ++ drop (at_ + n) dst)
  else Fail Undefined.

(** ** Loops over an index *)

(** [for (; n more iterations; i++) x = body (i, x);] *)
Fixpoint for_range {S X} (n i : nat) (body : nat → X → M S X) (x : X) : M S X :=
  match n with
  | O => mret x
  | Datatypes.S n' => x' ← body i x; for_range n' (i + 1) body x'
  end.

(** [for (cont = true; cont && n more iterations; i++) cont = body (i);] *)
Fixpoint for_while {S} (n i : nat) (body : nat → M S bool) : M S unit :=
  match n with
  | O => mret tt
  | Datatypes.S n' => cont ← body i;
                      if (cont : bool) then for_while n' (i + 1) body else mret tt
  end.

(** The same loops over the elements of a list. *)
Fixpoint mfold {S A X} (f : A → X → M S X) (l : list A) (x : X) : M S X :=
  match l with
  | [] => mret x
  | a :: l' => x' ← f a x; mfold f l' x'
  end.

Fixpoint mwhile {S A} (f : A → M S bool) (l : list A) : M S unit :=
  match l with
  | [] => mret tt
  | a :: l' => cont ← f a; if (cont : bool) then mwhile f l' else mret tt
  end.

(** ** Lemmas *)

Lemma length_ut_realloc {A} (b : block A) n : length (ut_realloc b n) = n.
Proof. unfold ut_realloc. rewrite length_app, length_take, length_replicate. lia. Qed.

Lemma take_ut_realloc {A} (b : block A) n k :
  k ≤ length b → k ≤ n → take k (ut_realloc b n) = take k b.
Proof.
  intros H1 H2. unfold ut_realloc. rewrite take_app_le by (rewrite length_take; lia).
  by rewrite take_take, Nat.min_l by lia.
Qed.

Lemma slot_read_Ok {A} (b : block A) (l : list A) n i x :
  take n b = Some <$> l → l !! i = Some x → slot_read b i = Ok x.
Proof.
  intros Ht Hi. unfold slot_read.
  assert (Hx : take n b !! i = Some (Some x)) by (rewrite Ht, list_lookup_fmap, Hi; done).
  apply lookup_take_Some in Hx as [-> _]. done.
Qed.

Lemma slot_write_Ok {A} (b : block A) i a :
  i < length b → slot_write b i a = Ok (<[i := Some a]> b).
Proof. intros H. unfold slot_write. by rewrite bool_decide_eq_true_2. Qed.

Lemma slot_write_oob {A} (b : block A) i a :
  length b ≤ i → slot_write b i a = Fail Undefined.
Proof. intros H. unfold slot_write. by rewrite bool_decide_eq_false_2 by lia. Qed.

(** Writing just behind the part in use extends it. *)
Lemma take_insert_snoc {A} (b : block A) (l : list A) a n :
  n < length b → take n b = Some <$> l →
  take (S n) (<[n := Some a]> b) = Some <$> (l ++ [a]).
Proof.
  intros Hn Ht. rewrite fmap_app, <-Ht. simpl.
  rewrite (take_S_r _ _ (Some a)) by (by apply list_lookup_insert_eq).
  by rewrite take_insert_ge by lia.
Qed.

Section loops.
Context {St A : Type}.

(** An index loop over an array visits the list the array represents. *)
Lemma for_range_mfold {X} (get : nat → outcome A) (f : A → X → M St X) l k x s :
  (∀ i a, l !! i = Some a → get (k + i) = Ok a) →
  for_range (length l) k (λ i x, a ← lift (get i); f a x) x s = mfold f l x s.
Proof.
  revert k x s. induction l as [|a l IH]; intros k x s Hget; simpl; [done|].
  assert (E : get k = Ok a).
  { specialize (Hget 0 a eq_refl). by rewrite Nat.add_0_r in Hget. }
  unfold mbind, M_bind, lift. rewrite E. destruct (f a x s) as [[x' s']|]; [|done].
  apply IH. intros i b Hi. rewrite <-Nat.add_assoc. by apply (Hget (S i)).
Qed.

Lemma for_while_mwhile (get : nat → outcome A) (f : A → M St bool) l k s :
  (∀ i a, l !! i = Some a → get (k + i) = Ok a) →
  for_while (length l) k (λ i, a ← lift (get i); f a) s = mwhile f l s.
Proof.
  revert k s. induction l as [|a l IH]; intros k s Hget; simpl; [done|].
  assert (E : get k = Ok a).
  { specialize (Hget 0 a eq_refl). by rewrite Nat.add_0_r in Hget. }
  unfold mbind, M_bind, lift. rewrite E. destruct (f a s) as [[[] s']|]; [|done|done].
  apply IH. intros i b Hi. rewrite <-Nat.add_assoc. by apply (Hget (S i)).
Qed.

(** A callback that never stops the loop. *)
Lemma mwhile_mforeach (f : A → M St unit) l s :
  mwhile (λ a, _ ← f a; mret true) l s = mforeach f l s.
Proof.
  revert s. induction l as [|a l IH]; intros s; simpl; [done|].
  unfold mbind, M_bind. destruct (f a s) as [[[] s']|]; [apply IH|done].
Qed.
End loops.
