(* ===== verification/Plist.v ===== *)
(** * plist: the growing array of pointers (src/util/plist.c)

    [struct plist] with its block of slots, its capacity and its length; every
    operation, with the callbacks (clone, destroy, reference counting) as
    computations over an arbitrary state.  [plist_repr] relates a plist to the
    list it stands for; the theorems show that each operation implements the
    list operation and stays within the block. *)

From S2P Require Import Prelude Mem.

Record plist (A : Type) := Plist {
  elems : block A;
  capacity : nat;
  len : nat
}.
Arguments Plist {A} _ _ _.
Arguments elems {A} _.
Arguments capacity {A} _.
Arguments len {A} _.

Definition plist_create {A} : plist A := Plist [] 0 0.

Definition plist_len {A} (p : plist A) : nat := len p.

Definition plist_clone {A} (original : plist A) : outcome (plist A) :=
  if bool_decide (0 < len original) then
    elems' ← memcpy (ut_malloc (len original)) 0 (elems original) (len original);
    Ok (Plist elems' (len original) (len original))
  else Ok plist_create.

Definition CAPACITY_ASK_FACTOR : nat := 2.

Definition assure_capacity {A} (p : plist A) (cap : nat) : plist A :=
  if bool_decide (capacity p < cap) then
    let cap' := CAPACITY_ASK_FACTOR * cap in
    Plist (ut_realloc (elems p) cap') cap' (len p)
  else p.

Definition plist_append {A} (p : plist A) (elem : A) : outcome (plist A) :=
  let new_len := len p + 1 in
  let p := assure_capacity p new_len in
  elems' ← slot_write (elems p) (len p) elem;
  Ok (Plist elems' (capacity p) new_len).

Definition plist_get {A} (p : plist A) (idx : nat) : outcome A :=
  _ ← ut_assert (bool_decide (idx < len p));
  slot_read (elems p) idx.

Definition plist_del {A} (p : plist A) (idx : nat) : outcome (plist A) :=
  let last_idx := u64 (Z.of_nat (len p) - 1) in
  let num_higher := u64 (last_idx - Z.of_nat idx) in
  elems' ← (if bool_decide (0 < num_higher)%Z
            then memmove (elems p) idx (idx + 1) num_higher
            else Ok (elems p));
  Ok (Plist elems' (capacity p) (len p - 1)).

Definition plist_clear {A} (p : plist A) : plist A :=
  if bool_decide (0 < len p) then Plist [] 0 0 else p.

(** The index, or -1. *)
Fixpoint index_of_loop {A} (equal : A → A → bool) (b : block A) (elem : A)
    (n i : nat) : outcome Z :=
  match n with
  | O => Ok (-1)%Z
  | S n' => list_elem ← slot_read b i;
            if equal list_elem elem then Ok (Z.of_nat i)
            else index_of_loop equal b elem n' (i + 1)
  end.

Definition plist_index_of {A} (p : plist A) (equal : A → A → bool) (elem : A)
    : outcome Z := index_of_loop equal (elems p) elem (len p) 0.

Definition plist_has {A} (p : plist A) (equal : A → A → bool) (elem : A)
    : outcome bool :=
  idx ← plist_index_of p equal elem;
  Ok (if bool_decide (idx < 0)%Z then false else true).

(** The operations that call back run in the caller's state [St]. *)
Section callbacks.
Context {St A : Type}.

Definition plist_append_deep (p : plist A) (elem_clone : A → M St A) (elem : A)
    : M St (plist A) :=
  list_elem ← elem_clone elem;
  lift (plist_append p list_elem).

Definition plist_append_cnted (p : plist A) (elem_inc_ref : A → M St unit)
    (elem : A) : M St (plist A) :=
  _ ← elem_inc_ref elem;
  lift (plist_append p elem).

Definition plist_clone_deep (original : plist A) (elem_clone : A → M St A)
    : M St (plist A) :=
  for_range (plist_len original) 0 (λ i copy,
    elem ← lift (plist_get original i);
    plist_append_deep copy elem_clone elem) plist_create.

Definition plist_clone_cnted (original : plist A) (elem_inc_ref : A → M St unit)
    : M St (plist A) :=
  for_range (plist_len original) 0 (λ i copy,
    elem ← lift (plist_get original i);
    plist_append_cnted copy elem_inc_ref elem) plist_create.

Definition plist_clone_non_null_deep (p : option (plist A))
    (elem_clone : A → M St A) : M St (option (plist A)) :=
  match p with
  | Some p => Some <$> plist_clone_deep p elem_clone
  | None => mret None
  end.

Definition plist_destroy_deep (p : option (plist A)) (elem_destroy : A → M St unit)
    : M St unit :=
  match p with
  | Some p => for_range (plist_len p) 0 (λ i _,
                elem ← lift (plist_get p i); elem_destroy elem) tt
  | None => mret tt
  end.

Definition plist_del_deep (p : plist A) (elem_destroy : A → M St unit) (idx : nat)
    : M St (plist A) :=
  ptr ← lift (plist_get p idx);
  p' ← lift (plist_del p idx);
  _ ← elem_destroy ptr;
  mret p'.

Definition plist_clear_deep (p : plist A) (elem_destroy : A → M St unit)
    : M St (plist A) :=
  _ ← for_range (len p) 0 (λ i _,
        elem ← lift (slot_read (elems p) i); elem_destroy elem) tt;
  mret (plist_clear p).

(** Null pointers are passed on; the counted variants are the deep ones. *)
Definition plist_clone_non_null (original : option (plist A)) : outcome (option (plist A)) :=
  match original with
  | Some original => Some <$> plist_clone original
  | None => mret None
  end.

Definition plist_clone_non_null_cnted (p : option (plist A)) (elem_dec_ref : A → M St unit)
    : M St (option (plist A)) :=
  match p with
  | Some p => Some <$> plist_clone_cnted p elem_dec_ref
  | None => mret None
  end.

Definition plist_destroy_cnted (p : option (plist A)) (elem_dec_ref : A → M St unit) : M St unit :=
  plist_destroy_deep p elem_dec_ref.

Definition plist_del_cnted (p : plist A) (elem_dec_ref : A → M St unit) (idx : nat)
    : M St (plist A) :=
  plist_del_deep p elem_dec_ref idx.

Definition plist_clear_cnted (p : plist A) (elem_dec_ref : A → M St unit) : M St (plist A) :=
  plist_clear_deep p elem_dec_ref.

Definition plist_foreach (p : plist A) (cb : A → M St bool) : M St unit :=
  for_while (len p) 0 (λ i,
    list_elem ← lift (slot_read (elems p) i); cb list_elem).
End callbacks.

(** ** The list a plist represents *)

Definition plist_repr {A} (p : plist A) (l : list A) : Prop :=
  length (elems p) = capacity p ∧ len p = length l ∧
  take (len p) (elems p) = Some <$> l.

Section repr.
Context {A : Type}.
Implicit Types (p : plist A) (l : list A).

Lemma plist_repr_le p l : plist_repr p l → len p ≤ length (elems p).
Proof.
  intros (_ & Hl & Ht). apply (f_equal length) in Ht.
  rewrite length_take, length_fmap in Ht. lia.
Qed.

Lemma plist_create_repr : plist_repr plist_create ([] : list A).
Proof. done. Qed.

Lemma plist_assure_capacity_repr p l n : plist_repr p l →
  plist_repr (assure_capacity p n) l ∧ n ≤ length (elems (assure_capacity p n)) ∧
  len (assure_capacity p n) = len p.
Proof.
  intros Hp. pose proof (plist_repr_le p l Hp) as Hle. destruct Hp as (Hc & Hl & Ht).
  unfold assure_capacity, CAPACITY_ASK_FACTOR. case_bool_decide as Hn; simpl.
  - rewrite length_ut_realloc. split_and!; simpl; [|lia|done].
    split_and!; simpl; [apply length_ut_realloc|done|].
    by rewrite take_ut_realloc by lia.
  - split_and!; [by split_and!|lia|done].
Qed.

(** The slot reads of a represented plist succeed. *)
Lemma plist_read p l i x : plist_repr p l → l !! i = Some x →
  slot_read (elems p) i = Ok x.
Proof. intros (_ & _ & Ht). by apply slot_read_Ok with (n := len p). Qed.

Lemma plist_get_lookup p l i x : plist_repr p l → l !! i = Some x →
  plist_get p i = Ok x.
Proof.
  intros Hp Hi. unfold plist_get. destruct Hp as (Hc & Hl & Ht).
  rewrite bool_decide_eq_true_2.
  - by apply slot_read_Ok with (n := len p) (l := l).
  - rewrite Hl. by eapply lookup_lt_Some.
Qed.

Lemma plist_append_repr p l x : plist_repr p l →
  ∃ p', plist_append p x = Ok p' ∧ plist_repr p' (l ++ [x]).
Proof.
  intros Hp. unfold plist_append.
  destruct (plist_assure_capacity_repr p l (len p + 1) Hp) as ((Hc & Hl & Ht) & Hn & Hle).
  set (q := assure_capacity p (len p + 1)) in *.
  rewrite slot_write_Ok by lia. eexists. split; [done|].
  split_and!; simpl.
  - by rewrite length_insert.
  - rewrite length_app. simpl. lia.
  - rewrite <-Hle, Nat.add_1_r. apply take_insert_snoc; [lia|done].
Qed.

Lemma plist_del_repr p l i : plist_repr p l → i < length l →
  (Z.of_nat (length l) < 2 ^ 64)%Z →
  ∃ p', plist_del p i = Ok p' ∧ plist_repr p' (delete i l).
Proof.
  intros Hp Hi Hmax. pose proof (plist_repr_le p l Hp) as Hle.
  destruct Hp as (Hc & Hl & Ht). unfold plist_del.
  rewrite (u64_small (Z.of_nat (len p) - 1)) by lia. rewrite u64_small by lia.
  assert (Hd : delete i (Some <$> l) = Some <$> delete i l).
  { by rewrite list_fmap_delete. }
  case_bool_decide as Hh.
  - unfold memmove. rewrite !bool_decide_eq_true_2 by lia. simpl.
    eexists. split; [done|]. split_and!; simpl.
    + rewrite !length_app, !length_take, !length_drop. lia.
    + rewrite length_delete by (by apply lookup_lt_is_Some). lia.
    + rewrite <-Hd, <-Ht, delete_take_drop.
      replace (Z.to_nat (Z.of_nat (len p) - 1 - Z.of_nat i)) with (len p - 1 - i) by lia.
      rewrite app_assoc, take_app_le by (rewrite length_app, !length_take, length_drop; lia).
      rewrite take_take, Nat.min_l by lia. rewrite Nat.add_1_r.
      rewrite take_ge; [|rewrite length_app, !length_take, length_drop; lia].
      f_equal. rewrite take_drop_commute. f_equal. f_equal. lia.
  - assert (i = len p - 1) by lia. subst i. eexists. split; [done|].
    split_and!; simpl; [done| |].
    + rewrite length_delete by (by apply lookup_lt_is_Some). lia.
    + rewrite <-Hd, <-Ht, delete_take_drop, drop_ge, app_nil_r.
      * by rewrite take_take, Nat.min_l by lia.
      * rewrite length_take. lia.
Qed.

(** Deleting beyond the end moves memory out of the block. *)
Lemma plist_del_oob p l i : plist_repr p l → length l ≤ i →
  (Z.of_nat i < 2 ^ 64 - 1)%Z → (Z.of_nat (length (elems p)) < 2 ^ 63)%Z →
  plist_del p i = Fail Undefined.
Proof.
  intros Hp Hi H64 Hb. pose proof (plist_repr_le p l Hp) as Hle.
  destruct Hp as (Hc & Hl & Ht). unfold plist_del.
  assert (Hu : ∃ n, (u64 (u64 (Z.of_nat (len p) - 1) - Z.of_nat i) = n ∧ 0 < n ∧
                Z.of_nat (length (elems p)) < Z.of_nat i + 1 + n)%Z).
  { eexists. split; [done|]. unfold u64. Z.div_mod_to_equations. lia. }
  destruct Hu as (n & -> & Hn & Hn'). rewrite bool_decide_eq_true_2 by done.
  unfold memmove. by rewrite andb_comm, bool_decide_eq_false_2 by lia.
Qed.

Lemma plist_clone_repr p l : plist_repr p l →
  ∃ p', plist_clone p = Ok p' ∧ plist_repr p' l.
Proof.
  intros Hp. pose proof (plist_repr_le p l Hp) as Hle. destruct Hp as (Hc & Hl & Ht).
  unfold plist_clone. case_bool_decide as Hn.
  - unfold memcpy, ut_malloc. rewrite length_replicate, !bool_decide_eq_true_2 by lia.
    simpl. eexists. split; [done|]. rewrite drop_replicate, Nat.sub_diag, app_nil_r.
    split_and!; simpl; [rewrite length_take; lia|done|].
    by rewrite take_take, Nat.min_id.
  - eexists. split; [done|]. destruct l; simpl in *; [done|lia].
Qed.

Lemma plist_clear_repr p l : plist_repr p l → plist_repr (plist_clear p) [].
Proof.
  intros (Hc & Hl & Ht). unfold plist_clear. case_bool_decide; [done|].
  assert (len p = 0) as H0 by lia. split_and!; [done|by rewrite H0|by rewrite H0].
Qed.

Lemma index_of_loop_spec equal (x : A) p l k : plist_repr p l → k ≤ length l →
  index_of_loop equal (elems p) x (length l - k) k =
  Ok (match list_find (λ y, equal y x = true) (drop k l) with
      | Some (i, _) => Z.of_nat (k + i) | None => -1 end)%Z.
Proof.
  intros Hp. remember (length l - k) as n eqn:En. revert k En.
  induction n as [|n IH]; intros k En Hk; simpl.
  - by rewrite drop_ge by lia.
  - destruct (lookup_lt_is_Some_2 l k) as [y Hy]; [lia|].
    rewrite (plist_read p l k y) by done. simpl.
    rewrite (drop_S l y k) by done. simpl. destruct (equal y x) eqn:E.
    + rewrite decide_True by done. by rewrite Nat.add_0_r.
    + rewrite decide_False by congruence. rewrite IH by lia.
      rewrite Nat.add_1_r. destruct (list_find _ (drop (S k) l)) as [[i z]|]; simpl; [|done].
      do 2 f_equal. lia.
Qed.

Lemma plist_index_of_spec equal (x : A) p l : plist_repr p l →
  plist_index_of p equal x =
  Ok (match list_find (λ y, equal y x = true) l with
      | Some (i, _) => Z.of_nat i | None => -1 end)%Z.
Proof.
  intros Hp. unfold plist_index_of. destruct (Hp) as (_ & -> & _).
  pose proof (index_of_loop_spec equal x p l 0 Hp) as E.
  rewrite Nat.sub_0_r in E. apply E. lia.
Qed.

Lemma plist_has_spec equal (x : A) p l : plist_repr p l →
  plist_has p equal x = Ok (bool_decide (Exists (λ y, equal y x = true) l)).
Proof.
  intros Hp. unfold plist_has. rewrite (plist_index_of_spec equal x p l) by done.
  simpl. destruct (list_find _ l) as [[i y]|] eqn:E.
  - apply list_find_Some in E as (Hi & Hy & _).
    rewrite bool_decide_eq_false_2 by lia. rewrite bool_decide_eq_true_2; [done|].
    apply Exists_exists. exists y. split; [|done]. by eapply list_elem_of_lookup_2.
  - apply list_find_None in E. rewrite bool_decide_eq_true_2 by lia.
    rewrite bool_decide_eq_false_2; [done|]. intros [y [Hy1 Hy2]]%Exists_exists.
    rewrite Forall_forall in E. by apply (E y).
Qed.
End repr.

Section callbacks_spec.
Context {St A : Type}.
Implicit Types (p : plist A) (l : list A).

Lemma plist_foreach_spec p l (cb : A → M St bool) s : plist_repr p l →
  plist_foreach p cb s = mwhile cb l s.
Proof.
  intros Hp. unfold plist_foreach. destruct (Hp) as (_ & -> & _).
  apply for_while_mwhile. intros i a Hi. by eapply plist_read.
Qed.

Lemma plist_destroy_deep_spec p l (f : A → M St unit) s : plist_repr p l →
  plist_destroy_deep (Some p) f s = mfold (λ a _, f a) l tt s.
Proof.
  intros Hp. unfold plist_destroy_deep, plist_len.
  destruct (Hp) as (_ & -> & _).
  apply (for_range_mfold (plist_get p) (λ a _, f a)).
  intros i a Hi. by eapply plist_get_lookup.
Qed.

Lemma plist_clear_deep_spec p l (f : A → M St unit) s : plist_repr p l →
  plist_clear_deep p f s = (_ ← mfold (λ a _, f a) l tt; mret (plist_clear p)) s.
Proof.
  intros Hp. unfold plist_clear_deep. destruct (Hp) as (_ & El & _).
  unfold mbind, M_bind at 1. rewrite El.
  rewrite (for_range_mfold (slot_read (elems p)) (λ a _, f a) l); [done|].
  intros i a Hi. by eapply plist_read.
Qed.

Lemma plist_clone_deep_loop l (elem_clone : A → M St A) (Q : list A → St → Prop) :
  ∀ s q acc, plist_repr q acc →
  wp (mfold (λ a acc, a' ← elem_clone a; mret (acc ++ [a'])) l acc) Q s →
  wp (mfold (λ a c, plist_append_deep c elem_clone a) l q)
     (λ p' s', ∃ l', plist_repr p' l' ∧ Q l' s') s.
Proof.
  induction l as [|a l IH]; intros s q acc Hq Hwp; simpl.
  - apply wp_ret. exists acc. split; [done|exact Hwp].
  - simpl in Hwp. unfold plist_append_deep.
    unfold wp, mbind, M_bind in Hwp |- *.
    destruct (elem_clone a s) as [[a' s']|] eqn:Ea; [|done].
    destruct (plist_append_repr q acc a' Hq) as (q' & E' & Hq').
    unfold lift. rewrite E'. exact (IH s' q' _ Hq' Hwp).
Qed.

(** A deep clone holds the clones of the elements, made in order. *)
Lemma plist_clone_deep_repr p l (elem_clone : A → M St A) (s : St) (Q : list A → St → Prop) :
  plist_repr p l →
  wp (mfold (λ a acc, a' ← elem_clone a; mret (acc ++ [a'])) l []) Q s →
  wp (plist_clone_deep p elem_clone) (λ p' s', ∃ l', plist_repr p' l' ∧ Q l' s') s.
Proof.
  intros Hp Hwp. unfold plist_clone_deep, plist_len. destruct (Hp) as (_ & El & _).
  unfold wp. rewrite El.
  rewrite (for_range_mfold (plist_get p) (λ a c, plist_append_deep c elem_clone a) l).
  2: { intros i a Hi. by apply (plist_get_lookup p l). }
  exact (plist_clone_deep_loop l elem_clone Q s _ _ plist_create_repr Hwp).
Qed.
End callbacks_spec.
