(* ===== verification/Amap.v ===== *)
(** * Identifier maps: the contract of src/util/pmap.h

    The service discovery core keeps its clients, services, subscriptions and
    orphan timers in maps from identifiers to objects.  A map is specified by
    the list of its entries in insertion order ([amap]); [IdMap] lists the
    operations and [IdMapLaws] what they promise in terms of that list.  The
    client code ([Conn], [Db], [Sd]) is written against the [amap]
    operations; Pmap.v proves that the array-based map keeps the contract. *)

From S2P Require Import Prelude.

Abbreviation amap V := (list (Z * V)).

(** ** The specification *)

Section amap.
Context {V : Type}.
Implicit Types (l : amap V) (k : Z) (v : V).

Fixpoint amap_get l k : option V :=
  match l with
  | [] => None
  | (k', v) :: l' => if decide (k' = k) then Some v else amap_get l' k
  end.

Definition amap_has l k : bool :=
  match amap_get l k with Some _ => true | None => false end.

(** [pmap_add]: asserts that the key is new, then appends. *)
Definition amap_add l k v : outcome (amap V) :=
  _ ← ut_assert (negb (amap_has l k));
  Ok (l ++ [(k, v)]).

Fixpoint amap_remove l k : amap V :=
  match l with
  | [] => []
  | (k', v) :: l' => if decide (k' = k) then l' else (k', v) :: amap_remove l' k
  end.

(** [pmap_del]: asserts that the key is there. *)
Definition amap_del l k : outcome (amap V) :=
  _ ← ut_assert (amap_has l k);
  Ok (amap_remove l k).

Definition amap_size l : nat := length l.

Definition amap_keys l : list Z := fst <$> l.
End amap.

(** ** The interface *)

Class IdMap (Mp : Type → Type) := {
  im_create : ∀ {V}, Mp V;
  im_add : ∀ {V}, Mp V → Z → V → outcome (Mp V);
  im_has_key : ∀ {V}, Mp V → Z → outcome bool;
  im_get : ∀ {V}, Mp V → Z → outcome (option V);
  im_del : ∀ {V}, Mp V → Z → outcome (Mp V);
  im_size : ∀ {V}, Mp V → nat
}.

Class IdMapLaws (Mp : Type → Type) `{!IdMap Mp} := {
  (** the map stands for these entries *)
  im_repr : ∀ {V}, Mp V → amap V → Prop;
  im_repr_nodup : ∀ {V} (m : Mp V) l, im_repr m l → NoDup (amap_keys l);
  im_create_repr : ∀ {V}, im_repr (im_create : Mp V) [];
  im_has_key_repr : ∀ {V} (m : Mp V) l k, im_repr m l →
    im_has_key m k = Ok (amap_has l k);
  im_get_repr : ∀ {V} (m : Mp V) l k, im_repr m l →
    im_get m k = Ok (amap_get l k);
  im_add_repr : ∀ {V} (m : Mp V) l k (v : V), im_repr m l →
    match amap_add l k v with
    | Ok l' => ∃ m', im_add m k v = Ok m' ∧ im_repr m' l'
    | Fail e => im_add m k v = Fail e
    end;
  im_del_repr : ∀ {V} (m : Mp V) l k, im_repr m l →
    (Z.of_nat (length l) < 2 ^ 64)%Z →
    match amap_del l k with
    | Ok l' => ∃ m', im_del m k = Ok m' ∧ im_repr m' l'
    | Fail e => im_del m k = Fail e
    end;
  im_size_repr : ∀ {V} (m : Mp V) l, im_repr m l → im_size m = length l
}.

(** ** Programs that use a map, and what they observe *)

Inductive map_op (V : Type) :=
  | OpAdd (k : Z) (v : V)
  | OpDel (k : Z)
  | OpHas (k : Z)
  | OpGet (k : Z)
  | OpSize.
Arguments OpAdd {V} _ _.
Arguments OpDel {V} _.
Arguments OpHas {V} _.
Arguments OpGet {V} _.
Arguments OpSize {V}.

Inductive map_obs (V : Type) :=
  | ObsUnit
  | ObsBool (b : bool)
  | ObsGet (o : option V)
  | ObsSize (n : nat).
Arguments ObsUnit {V}.
Arguments ObsBool {V} _.
Arguments ObsGet {V} _.
Arguments ObsSize {V} _.

Definition map_step {Mp} `{!IdMap Mp} {V} (op : map_op V) (m : Mp V)
    : outcome (map_obs V * Mp V) :=
  match op with
  | OpAdd k v => m' ← im_add m k v; Ok (ObsUnit, m')
  | OpDel k => m' ← im_del m k; Ok (ObsUnit, m')
  | OpHas k => b ← im_has_key m k; Ok (ObsBool b, m)
  | OpGet k => o ← im_get m k; Ok (ObsGet o, m)
  | OpSize => Ok (ObsSize (im_size m), m)
  end.

(** The observations up to the first failed assertion, and whether one failed. *)
Fixpoint map_run {Mp} `{!IdMap Mp} {V} (ops : list (map_op V)) (m : Mp V)
    : list (map_obs V) * option fault :=
  match ops with
  | [] => ([], None)
  | op :: ops' =>
      match map_step op m with
      | Ok (o, m') => let '(os, f) := map_run ops' m' in (o :: os, f)
      | Fail e => ([], Some e)
      end
  end.

(** Two specifications as instances: the list of entries, and the finite map. *)
#[export] Instance amap_IdMap : IdMap (λ V, amap V) := {|
  im_create V := [];
  im_add V := amap_add;
  im_has_key V l k := Ok (amap_has l k);
  im_get V l k := Ok (amap_get l k);
  im_del V := amap_del;
  im_size V := amap_size
|}.

#[export] Instance gmap_IdMap : IdMap (gmap Z) := {|
  im_create V := ∅;
  im_add V m k v := _ ← ut_assert (bool_decide (m !! k = None)); Ok (<[k := v]> m);
  im_has_key V m k := Ok (bool_decide (is_Some (m !! k)));
  im_get V m k := Ok (m !! k);
  im_del V m k := _ ← ut_assert (bool_decide (is_Some (m !! k))); Ok (delete k m);
  im_size V m := size m
|}.

(** ** Lemmas on entry lists *)

Section amap_lemmas.
Context {V : Type}.
Implicit Types (l : amap V) (k : Z) (v : V).

Lemma amap_get_Some_elem l k v : amap_get l k = Some v → (k, v) ∈ l.
Proof.
  induction l as [|[k' v'] l IH]; simpl; [done|].
  case_decide; [|set_solver]. intros [= ->]. subst. left.
Qed.

Lemma amap_get_elem l k v : NoDup (amap_keys l) → (k, v) ∈ l → amap_get l k = Some v.
Proof.
  unfold amap_keys.
  induction l as [|[k' v'] l IH]; simpl; [intros _ H; by apply not_elem_of_nil in H|].
  intros [Hk Hn]%NoDup_cons [[= -> ->]|Hin]%elem_of_cons.
  - by rewrite decide_True.
  - rewrite decide_False; [by apply IH|]. intros ->. apply Hk.
    apply list_elem_of_fmap. by exists (k, v).
Qed.

Lemma amap_get_None l k : amap_get l k = None ↔ k ∉ amap_keys l.
Proof.
  unfold amap_keys. induction l as [|[k' v'] l IH]; simpl; [set_solver|].
  rewrite not_elem_of_cons. case_decide; [naive_solver|]. rewrite IH. naive_solver.
Qed.

Lemma amap_has_get l k : amap_has l k = true ↔ ∃ v, amap_get l k = Some v.
Proof. unfold amap_has. destruct (amap_get l k); naive_solver. Qed.

Lemma amap_has_false l k : amap_has l k = false ↔ amap_get l k = None.
Proof. unfold amap_has. destruct (amap_get l k); naive_solver. Qed.

Lemma amap_get_app l1 l2 k :
  amap_get (l1 ++ l2) k =
  match amap_get l1 k with Some v => Some v | None => amap_get l2 k end.
Proof. induction l1 as [|[k' v'] l1 IH]; simpl; [done|]. by case_decide. Qed.

Lemma amap_get_add l k v k' :
  amap_get l k = None →
  amap_get (l ++ [(k, v)]) k' = if decide (k = k') then Some v else amap_get l k'.
Proof.
  intros Hk. rewrite amap_get_app. simpl.
  case_decide; subst; [by rewrite Hk|]. by destruct (amap_get l k').
Qed.

Lemma amap_add_None l k v : amap_get l k = None → amap_add l k v = Ok (l ++ [(k, v)]).
Proof. intros H%amap_has_false. unfold amap_add. by rewrite H. Qed.

Lemma amap_del_Some l k v : amap_get l k = Some v → amap_del l k = Ok (amap_remove l k).
Proof.
  intros H. unfold amap_del. assert (amap_has l k = true) as ->; [|done].
  apply amap_has_get. eauto.
Qed.

Lemma amap_add_Ok l k v l' : amap_add l k v = Ok l' → amap_get l k = None ∧ l' = l ++ [(k, v)].
Proof.
  unfold amap_add. destruct (amap_has l k) eqn:H; [done|]. intros [= <-].
  by apply amap_has_false in H.
Qed.

Lemma amap_del_Ok l k l' : amap_del l k = Ok l' → l' = amap_remove l k.
Proof. unfold amap_del. destruct (amap_has l k); [by intros [= <-]|done]. Qed.

Lemma amap_remove_notin l k : amap_get l k = None → amap_remove l k = l.
Proof.
  induction l as [|[k' v'] l IH]; simpl; [done|].
  case_decide; [done|]. intros Hn. by rewrite IH.
Qed.

Lemma amap_get_remove l k k' : NoDup (amap_keys l) →
  amap_get (amap_remove l k) k' = if decide (k = k') then None else amap_get l k'.
Proof.
  unfold amap_keys. induction l as [|[j w] l IH]; simpl; [by case_decide|].
  intros [Hj Hn]%NoDup_cons. destruct (decide (j = k)) as [->|E1]; simpl.
  - destruct (decide (k = k')) as [->|]; [by apply amap_get_None|done].
  - rewrite IH by done. repeat case_decide; congruence.
Qed.

Lemma amap_keys_remove l k : amap_keys (amap_remove l k) `sublist_of` amap_keys l.
Proof.
  unfold amap_keys. induction l as [|[j w] l IH]; simpl; [done|].
  case_decide; simpl; by constructor.
Qed.

Lemma amap_remove_nodup l k : NoDup (amap_keys l) → NoDup (amap_keys (amap_remove l k)).
Proof. intros H. eapply sublist_NoDup; [exact H|]. apply amap_keys_remove. Qed.

Lemma amap_add_nodup l k v : amap_get l k = None → NoDup (amap_keys l) →
  NoDup (amap_keys (l ++ [(k, v)])).
Proof.
  intros Hk%amap_get_None Hn. unfold amap_keys in *. rewrite fmap_app. simpl.
  apply NoDup_app. split_and!; [done| |apply NoDup_singleton].
  intros j Hj ->%list_elem_of_singleton. done.
Qed.

Lemma amap_length_remove l k v : amap_get l k = Some v →
  length l = S (length (amap_remove l k)).
Proof.
  induction l as [|[j w] l IH]; simpl; [done|]. case_decide; simpl; [done|].
  intros Hg. by rewrite IH.
Qed.

Lemma amap_get_list_to_map l k : amap_get l k = (list_to_map l : gmap Z V) !! k.
Proof.
  induction l as [|[j w] l IH]; simpl; [by rewrite lookup_empty|].
  rewrite lookup_insert. by repeat case_decide.
Qed.
End amap_lemmas.

#[export] Hint Resolve amap_remove_nodup amap_add_nodup : tpaf.

(** ** Implementations of the contract are observationally the finite map *)

Section simulation.
Context `{IdMapLaws Mp} {V : Type}.
Implicit Types (m : Mp V) (l : amap V) (g : gmap Z V).

(** An entry list and a finite map with the same content. *)
Definition amap_agrees l g : Prop := NoDup (amap_keys l) ∧ g = list_to_map l.

Lemma amap_agrees_get l g k : amap_agrees l g → g !! k = amap_get l k.
Proof. intros [_ ->]. by rewrite amap_get_list_to_map. Qed.

Lemma amap_agrees_size l g : amap_agrees l g → size g = length l.
Proof.
  intros [Hn ->]. rewrite <-length_map_to_list.
  by rewrite map_to_list_to_map by done.
Qed.

Lemma amap_agrees_add l g k v : amap_agrees l g → amap_get l k = None →
  amap_agrees (l ++ [(k, v)]) (<[k := v]> g).
Proof.
  intros [Hn ->] Hk. split; [by apply amap_add_nodup|].
  apply map_eq. intros j. rewrite <-amap_get_list_to_map, amap_get_add by done.
  rewrite lookup_insert, <-amap_get_list_to_map. done.
Qed.

Lemma amap_agrees_del l g k : amap_agrees l g →
  amap_agrees (amap_remove l k) (delete k g).
Proof.
  intros [Hn ->]. split; [by apply amap_remove_nodup|].
  apply map_eq. intros j. rewrite <-amap_get_list_to_map, amap_get_remove by done.
  rewrite lookup_delete, <-amap_get_list_to_map. done.
Qed.

Lemma map_step_refines (op : map_op V) m l g :
  im_repr m l → amap_agrees l g → (Z.of_nat (length l) < 2 ^ 64)%Z →
  match map_step op g with
  | Ok (o, g') => ∃ m' l', map_step op m = Ok (o, m') ∧ im_repr m' l' ∧
                    amap_agrees l' g' ∧ length l' ≤ S (length l)
  | Fail e => map_step op m = Fail e
  end.
Proof.
  intros Hm Hg Hlen. pose proof (λ k, amap_agrees_get l g k Hg) as Hget.
  destruct op as [k v|k|k|k|]; simpl.
  - pose proof (im_add_repr m l k v Hm) as Hadd. rewrite Hget.
    unfold amap_add, amap_has in Hadd. destruct (amap_get l k) eqn:Ek; simpl in *.
    + by rewrite Hadd.
    + destruct Hadd as (m' & -> & Hm'). exists m', (l ++ [(k, v)]).
      rewrite length_app. simpl.
      split_and!; [done|done|by apply amap_agrees_add|lia].
  - pose proof (im_del_repr m l k Hm Hlen) as Hdel. rewrite Hget.
    unfold amap_del, amap_has in Hdel. destruct (amap_get l k) eqn:Ek; simpl in *.
    + destruct Hdel as (m' & -> & Hm'). exists m', (amap_remove l k).
      apply amap_length_remove in Ek.
      split_and!; [done|done|by apply amap_agrees_del|lia].
    + by rewrite Hdel.
  - rewrite (im_has_key_repr m l k) by done. exists m, l. rewrite Hget.
    unfold amap_has. destruct (amap_get l k); simpl; by eauto with lia.
  - rewrite (im_get_repr m l k) by done. exists m, l. rewrite Hget. by eauto with lia.
  - exists m, l. rewrite (im_size_repr m l), (amap_agrees_size l g) by done.
    by eauto with lia.
Qed.

Lemma map_run_refines (ops : list (map_op V)) m l g :
  im_repr m l → amap_agrees l g →
  (Z.of_nat (length l + length ops) < 2 ^ 64)%Z →
  map_run ops m = map_run ops g.
Proof.
  revert m l g. induction ops as [|op ops IH]; intros m l g Hm Hg Hlen; simpl; [done|].
  simpl in Hlen. pose proof (map_step_refines op m l g Hm Hg) as Hs.
  destruct (map_step op g) as [[o g']|e].
  - destruct Hs as (m' & l' & -> & Hm' & Hg' & Hl'); [lia|].
    by rewrite (IH m' l' g') by (done || lia).
  - by rewrite Hs by lia.
Qed.
End simulation.
