(* ===== verification/Pmap.v ===== *)
(** * pmap: the map from 64-bit keys to pointers (src/util/pmap.c)

    A pmap is a plist of entries, searched linearly.  The operations below are
    written over the array-level plist of Plist.v; [pmap_IdMapLaws] shows that
    the typed wrappers of pmap.h (which convert [int64_t] keys to [uint64_t]
    and back) keep the contract of Amap.v. *)

From S2P Require Import Prelude Mem Plist Amap.

(** The value is a [void *]: [None] is [NULL]. *)
Record entry (V : Type) := Entry {
  key : Z;
  value : option V
}.
Arguments Entry {V} _ _.
Arguments key {V} _.
Arguments value {V} _.

(** ** elist: a plist of entries, held by value *)

Definition elist_elem_clone {V} (original : entry V) : entry V :=
  Entry (key original) (value original).

Definition elist_elem_equal {V} (a b : entry V) : bool :=
  bool_decide (key a = key b).

Definition elist_append {V} (l : plist (entry V)) (e : entry V)
    : outcome (plist (entry V)) := plist_append l (elist_elem_clone e).

Definition elist_get {V} (l : plist (entry V)) (idx : nat) : outcome (entry V) :=
  plist_get l idx.

Definition elist_del {V} (l : plist (entry V)) (idx : nat)
    : outcome (plist (entry V)) :=
  _ ← plist_get l idx; plist_del l idx.

Definition elist_has {V} (l : plist (entry V)) (e : entry V) : outcome bool :=
  plist_has l elist_elem_equal e.

Definition elist_index_of {V} (l : plist (entry V)) (e : entry V) : outcome Z :=
  plist_index_of l elist_elem_equal e.

(** ** pmap *)

Record pmap (V : Type) := Pmap {
  entries : plist (entry V)
}.
Arguments Pmap {V} _.
Arguments entries {V} _.

Definition pmap_create {V} : pmap V := Pmap plist_create.

Definition pmap_has_key {V} (map : pmap V) (k : Z) : outcome bool :=
  elist_has (entries map) (Entry k None).

Definition pmap_add {V} (map : pmap V) (k : Z) (v : option V) : outcome (pmap V) :=
  has ← pmap_has_key map k;
  _ ← ut_assert (negb has);
  entries' ← elist_append (entries map) (Entry k v);
  Ok (Pmap entries').

Definition index_of {V} (map : pmap V) (k : Z) : outcome Z :=
  elist_index_of (entries map) (Entry k None).

Definition pmap_get {V} (map : pmap V) (k : Z) : outcome (option V) :=
  idx ← index_of map k;
  if bool_decide (idx < 0)%Z then Ok None
  else e ← elist_get (entries map) (Z.to_nat idx); Ok (value e).

Definition pmap_del {V} (map : pmap V) (k : Z) : outcome (pmap V) :=
  idx ← index_of map k;
  _ ← ut_assert (bool_decide (0 ≤ idx)%Z);
  entries' ← elist_del (entries map) (Z.to_nat idx);
  Ok (Pmap entries').

Definition pmap_clear {V} (map : pmap V) : pmap V := Pmap (plist_clear (entries map)).

Definition pmap_size {V} (map : pmap V) : nat := plist_len (entries map).

Section counted.
Context {St V : Type}.

Definition pmap_add_cnted (map : pmap V) (value_inc_ref : option V → M St unit)
    (k : Z) (v : option V) : M St (pmap V) :=
  _ ← value_inc_ref v;
  lift (pmap_add map k v).

Definition pmap_del_cnted (map : pmap V) (value_dec_ref : option V → M St unit)
    (k : Z) : M St (pmap V) :=
  v ← lift (pmap_get map k);
  map' ← lift (pmap_del map k);
  _ ← value_dec_ref v;
  mret map'.

Definition value_dec_ref_cb (value_dec_ref : option V → M St unit) (e : entry V)
    : M St bool :=
  _ ← value_dec_ref (value e); mret true.

Definition pmap_clear_cnted (map : pmap V) (value_dec_ref : option V → M St unit)
    : M St (pmap V) :=
  _ ← plist_foreach (entries map) (value_dec_ref_cb value_dec_ref);
  mret (Pmap (plist_clear (entries map))).

Definition pmap_destroy_cnted (map : option (pmap V))
    (value_dec_ref : option V → M St unit) : M St unit :=
  match map with
  | Some map => _ ← pmap_clear_cnted map value_dec_ref; mret tt
  | None => mret tt
  end.

Definition pmap_foreach (map : pmap V) (cb : Z → option V → M St bool) : M St unit :=
  plist_foreach (entries map) (λ e, cb (key e) (value e)).
End counted.

(** ** The typed wrappers: [int64_t] keys, non-null values *)

Definition map_add {V} (map : pmap V) (k : Z) (v : V) : outcome (pmap V) :=
  pmap_add map (u64 k) (Some v).

Definition map_has_key {V} (map : pmap V) (k : Z) : outcome bool :=
  pmap_has_key map (u64 k).

Definition map_get {V} (map : pmap V) (k : Z) : outcome (option V) :=
  pmap_get map (u64 k).

Definition map_del {V} (map : pmap V) (k : Z) : outcome (pmap V) :=
  pmap_del map (u64 k).

Definition map_foreach {St V} (map : pmap V) (cb : Z → option V → M St bool) : M St unit :=
  pmap_foreach map (λ k v, cb (s64 k) v).

(** ** What a pmap represents *)

Definition to_entry {V} (kv : Z * V) : entry V := Entry kv.1 (Some kv.2).

Definition pmap_repr {V} (m : pmap V) (l : amap V) : Prop :=
  plist_repr (entries m) (to_entry <$> l) ∧ NoDup (amap_keys l).

Section repr.
Context {V : Type}.
Implicit Types (m : pmap V) (l : amap V).

(** The linear search finds the entry of the specification, at the index
    that [amap_remove] deletes. *)
Lemma find_entry l k :
  match amap_get l k with
  | Some v => ∃ i, i < length l ∧ delete i l = amap_remove l k ∧
      l !! i = Some (k, v) ∧
      list_find (λ y, elist_elem_equal y (Entry k None) = true) (to_entry <$> l) =
      Some (i, Entry k (Some v))
  | None =>
      list_find (λ y, elist_elem_equal y (Entry k None) = true) (to_entry <$> l) = None
  end.
Proof.
  assert (Heq : ∀ k' v', elist_elem_equal (to_entry (k', v')) (Entry (V := V) k None) = true
                         ↔ k' = k).
  { intros k' v'. unfold elist_elem_equal. by rewrite bool_decide_eq_true. }
  induction l as [|[k' v'] l IH]; csimpl; [done|].
  destruct (decide (k' = k)) as [->|Hk].
  - exists 0. rewrite decide_True by (by apply Heq). split_and!; [lia|done..].
  - rewrite decide_False by (by rewrite Heq). destruct (amap_get l k) as [v|].
    + destruct IH as (i & Hi & Hd & Hl & ->). exists (S i). simpl.
      split_and!; [lia|by rewrite Hd|done|done].
    + by rewrite IH.
Qed.

Lemma index_of_spec m l k : pmap_repr m l →
  match amap_get l k with
  | Some v => ∃ i, i < length l ∧ delete i l = amap_remove l k ∧
      l !! i = Some (k, v) ∧ index_of m k = Ok (Z.of_nat i)
  | None => index_of m k = Ok (-1)%Z
  end.
Proof.
  intros [Hp _]. unfold index_of, elist_index_of.
  rewrite (plist_index_of_spec _ _ _ _ Hp). pose proof (find_entry l k) as Hf.
  destruct (amap_get l k) as [v|].
  - destruct Hf as (i & Hi & Hd & Hl & ->). by exists i.
  - by rewrite Hf.
Qed.

Lemma pmap_has_key_repr m l k : pmap_repr m l →
  pmap_has_key m k = Ok (amap_has l k).
Proof.
  intros Hm. pose proof (index_of_spec m l k Hm) as Hi.
  unfold pmap_has_key, elist_has, plist_has, amap_has.
  unfold index_of, elist_index_of in Hi. destruct (amap_get l k).
  - destruct Hi as (i & _ & _ & _ & ->). simpl. by rewrite bool_decide_eq_false_2 by lia.
  - by rewrite Hi.
Qed.

Lemma pmap_get_repr m l k : pmap_repr m l → pmap_get m k = Ok (amap_get l k).
Proof.
  intros Hm. pose proof (index_of_spec m l k Hm) as Hi. unfold pmap_get.
  destruct (amap_get l k) as [v|].
  - destruct Hi as (i & Hlt & _ & Hl & ->). simpl.
    rewrite bool_decide_eq_false_2, Nat2Z.id by lia. destruct Hm as [Hp _].
    unfold elist_get. rewrite (plist_get_lookup _ _ i (to_entry (k, v)) Hp); [done|].
    by rewrite list_lookup_fmap, Hl.
  - by rewrite Hi.
Qed.

Lemma pmap_create_repr : pmap_repr (pmap_create : pmap V) [].
Proof. split; [apply plist_create_repr|apply NoDup_nil_2]. Qed.

Lemma pmap_add_repr m l k v : pmap_repr m l →
  match amap_add l k v with
  | Ok l' => ∃ m', pmap_add m k (Some v) = Ok m' ∧ pmap_repr m' l'
  | Fail e => pmap_add m k (Some v) = Fail e
  end.
Proof.
  intros Hm. unfold pmap_add. rewrite (pmap_has_key_repr m l) by done. simpl.
  unfold amap_add. destruct (amap_has l k) eqn:Ek; simpl; [done|].
  destruct Hm as [Hp Hn].
  destruct (plist_append_repr (entries m) (to_entry <$> l) (Entry k (Some v)) Hp)
    as (p' & E & Hp').
  unfold elist_append, elist_elem_clone. simpl. rewrite E. simpl.
  eexists. split; [done|]. split; simpl.
  - by rewrite fmap_app.
  - apply amap_add_nodup; [by apply amap_has_false|done].
Qed.

Lemma pmap_del_repr m l k : pmap_repr m l → (Z.of_nat (length l) < 2 ^ 64)%Z →
  match amap_del l k with
  | Ok l' => ∃ m', pmap_del m k = Ok m' ∧ pmap_repr m' l'
  | Fail e => pmap_del m k = Fail e
  end.
Proof.
  intros Hm Hlen. pose proof (index_of_spec m l k Hm) as Hi. unfold pmap_del, amap_del, amap_has.
  destruct (amap_get l k) as [v|]; simpl.
  - destruct Hi as (i & Hlt & Hd & Hl & ->). simpl.
    rewrite bool_decide_eq_true_2 by lia. simpl. rewrite Nat2Z.id.
    destruct Hm as [Hp Hn]. unfold elist_del.
    rewrite (plist_get_lookup _ _ i (to_entry (k, v)) Hp)
      by (by rewrite list_lookup_fmap, Hl).
    destruct (plist_del_repr _ _ i Hp) as (p' & E & Hp'); [by rewrite length_fmap..|].
    simpl. rewrite E. simpl. eexists. split; [done|]. split; simpl.
    + by rewrite <-Hd, list_fmap_delete.
    + by apply amap_remove_nodup.
  - by rewrite Hi.
Qed.

(** A loop over the map visits the entries in insertion order, until the
    callback returns false. *)
Lemma pmap_foreach_repr {St} m l (cb : Z → option V → M St bool) s : pmap_repr m l →
  pmap_foreach m cb s = mwhile (λ kv, cb kv.1 (Some kv.2)) l s.
Proof.
  intros [Hp _]. unfold pmap_foreach. rewrite (plist_foreach_spec _ _ _ s Hp).
  clear Hp. revert s. induction l as [|[k v] l IH]; intros s; simpl; [done|].
  unfold mbind, M_bind. destruct (cb k (Some v) s) as [[[] s']|]; [apply IH|done..].
Qed.

(** Clearing a counted map drops one reference per entry. *)
Lemma pmap_clear_cnted_repr {St} m l (dec : option V → M St unit) s : pmap_repr m l →
  pmap_clear_cnted m dec s =
  (_ ← mforeach (λ kv, dec (Some kv.2)) l; mret (Pmap (plist_clear (entries m)))) s.
Proof.
  intros [Hp _]. unfold pmap_clear_cnted, mbind, M_bind.
  rewrite (plist_foreach_spec _ _ _ s Hp). clear Hp.
  assert (E : mwhile (value_dec_ref_cb dec) (to_entry <$> l) s =
              mforeach (λ kv, dec (Some kv.2)) l s).
  { rewrite <-mwhile_mforeach. revert s.
    induction l as [|[k v] l IH]; intros s; simpl; [done|].
    unfold value_dec_ref_cb, mbind, M_bind. simpl.
    destruct (dec (Some v) s) as [[u s']|]; [apply IH|done]. }
  by rewrite E.
Qed.
End repr.

(** ** The contract *)

#[export] Instance pmap_IdMap : IdMap pmap := {|
  im_create V := pmap_create;
  im_add V m k v := pmap_add m k (Some v);
  im_has_key V := pmap_has_key;
  im_get V := pmap_get;
  im_del V := pmap_del;
  im_size V := pmap_size
|}.

#[export] Program Instance pmap_IdMapLaws : IdMapLaws pmap := {|
  im_repr V := pmap_repr
|}.
Next Obligation. by intros V m l [_ Hn]. Qed.
Next Obligation. intros V. apply pmap_create_repr. Qed.
Next Obligation. intros V m l k Hm. by apply pmap_has_key_repr. Qed.
Next Obligation. intros V m l k Hm. by apply pmap_get_repr. Qed.
Next Obligation. intros V m l k v Hm. by apply pmap_add_repr. Qed.
Next Obligation. intros V m l k Hm Hlen. by apply pmap_del_repr. Qed.
Next Obligation.
  intros V m l [(_ & Hl & _) _]. simpl. unfold pmap_size, plist_len.
  by rewrite Hl, length_fmap.
Qed.

(** The typed wrappers keep signed identifiers apart: a map built with
    [int64_t] keys stands for the entries with those keys. *)
Definition key_u64 {V} (l : amap V) : amap V := (λ kv, (u64 kv.1, kv.2)) <$> l.

Definition map_repr {V} (m : pmap V) (l : amap V) : Prop :=
  Forall (λ k, is_int64 k = true) (amap_keys l) ∧ pmap_repr m (key_u64 l).

Section typed.
Context {V : Type}.
Implicit Types (m : pmap V) (l : amap V).

Lemma amap_get_u64 l k : Forall (λ k, is_int64 k = true) (amap_keys l) →
  is_int64 k = true → amap_get (key_u64 l) (u64 k) = amap_get l k.
Proof.
  intros Hl Hk. induction l as [|[j v] l IH]; simpl; [done|].
  apply Forall_cons in Hl as [Hj Hl]. simpl in Hj.
  destruct (decide (j = k)) as [->|Hne].
  - by rewrite decide_True.
  - rewrite decide_False; [by apply IH|].
    intros E. apply Hne. by apply u64_inj.
Qed.

Lemma map_get_repr m l k : map_repr m l → is_int64 k = true →
  map_get m k = Ok (amap_get l k).
Proof.
  intros [Hl Hm] Hk. unfold map_get.
  by rewrite (pmap_get_repr _ _ _ Hm), amap_get_u64.
Qed.

Lemma map_add_repr m l k v : map_repr m l → is_int64 k = true →
  match amap_add l k v with
  | Ok l' => ∃ m', map_add m k v = Ok m' ∧ map_repr m' l'
  | Fail e => map_add m k v = Fail e
  end.
Proof.
  intros [Hl Hm] Hk. pose proof (pmap_add_repr _ _ (u64 k) v Hm) as Ha.
  unfold amap_add, amap_has in *. rewrite amap_get_u64 in Ha by done.
  destruct (amap_get l k); simpl in *; [done|].
  destruct Ha as (m' & E & Hm'). exists m'. split; [done|]. split.
  - unfold amap_keys in *. rewrite fmap_app. apply Forall_app_2; [done|].
    by constructor.
  - unfold key_u64 in *. by rewrite fmap_app.
Qed.

(** The callback of a loop sees the signed identifiers again. *)
Lemma map_foreach_repr {St} m l (cb : Z → option V → M St bool) s : map_repr m l →
  map_foreach m cb s = mwhile (λ kv, cb kv.1 (Some kv.2)) l s.
Proof.
  intros [Hl Hm]. unfold map_foreach. rewrite (pmap_foreach_repr _ _ _ _ Hm).
  clear Hm. revert s. unfold amap_keys in Hl.
  induction l as [|[k v] l IH]; intros s; csimpl; [done|].
  apply Forall_cons in Hl as [Hk Hl]. simpl in Hk. rewrite s64_u64 by done.
  unfold mbind, M_bind. destruct (cb k (Some v) s) as [[[] s']|]; [|done..].
  exact (IH Hl s').
Qed.
End typed.

(** ** Properties *)

(** C31: whatever sequence of additions, deletions, lookups and size queries a
    caller performs on a fresh pmap, it sees exactly what it would see with a
    mathematical finite map from keys to values, including the point at which
    an assertion (adding a present key, deleting an absent one) stops it. *)
Theorem pmap_refines_finite_map {V} (ops : list (map_op V)) :
  (Z.of_nat (length ops) < 2 ^ 64)%Z →
  map_run ops (pmap_create : pmap V) = map_run ops (∅ : gmap Z V).
Proof.
  intros Hlen. apply (map_run_refines ops _ []); [apply pmap_create_repr| |done].
  split; [apply NoDup_nil_2|done].
Qed.

Lemma pmap_refines_finite_map_witness :
  map_run [OpAdd 3 10; OpAdd 7 11; OpGet 7; OpDel 3; OpHas 3; OpSize; OpAdd 7 12]%Z
    (pmap_create : pmap Z) =
  ([ObsUnit; ObsUnit; ObsGet (Some 11%Z); ObsUnit; ObsBool false; ObsSize 1],
   Some AssertFailed).
Proof.
  rewrite pmap_refines_finite_map by (simpl; lia). vm_compute. reflexivity.
Defined.
