(* ===== verification/Pqueue.v ===== *)
(** * pqueue: the circular queue of pointers (src/util/pqueue.c)

    The queue of outgoing messages of a protocol connection.  [pqueue_repr]
    relates the circular buffer to the list of queued elements, oldest first;
    the theorems show that push, pop, peek and len are those of a FIFO
    queue, through growth, wrap-around and compaction. *)

From S2P Require Import Prelude Mem.

Record pqueue (A : Type) := Pqueue {
  elems : block A;
  capacity : nat;
  start_idx : nat;
  len : nat
}.
Arguments Pqueue {A} _ _ _ _.
Arguments elems {A} _.
Arguments capacity {A} _.
Arguments start_idx {A} _.
Arguments len {A} _.

Definition CAPACITY_INCREASE_FACTOR : nat := 2.
Definition MAX_SPARE_CAPACITY : nat := 128.

(** The loop that copies the elements to the start of the new block. *)
Fixpoint copy_loop {A} (q : pqueue A) (n new_idx : nat) (new_elems : block A)
    : outcome (block A) :=
  match n with
  | O => Ok new_elems
  | S n' =>
      let old_idx := (start_idx q + new_idx) mod capacity q in
      x ← slot_read (elems q) old_idx;
      new_elems ← slot_write new_elems new_idx x;
      copy_loop q n' (new_idx + 1) new_elems
  end.

Definition assure_capacity {A} (q : pqueue A) (min_capacity : nat) : outcome (pqueue A) :=
  if bool_decide (min_capacity ≤ capacity q) then Ok q
  else
    let new_capacity := min_capacity * CAPACITY_INCREASE_FACTOR in
    new_elems ← copy_loop q (len q) 0 (ut_malloc new_capacity);
    Ok (Pqueue new_elems new_capacity 0 (len q)).

Definition pqueue_create {A} : pqueue A := Pqueue [] 0 0 0.

Definition pqueue_push {A} (q : pqueue A) (elem : A) : outcome (pqueue A) :=
  q ← assure_capacity q (len q + 1);
  let last_idx := (start_idx q + len q) mod capacity q in
  elems' ← slot_write (elems q) last_idx elem;
  Ok (Pqueue elems' (capacity q) (start_idx q) (len q + 1)).

Definition consider_compacting {A} (q : pqueue A) : pqueue A :=
  if bool_decide (len q = 0) && bool_decide (MAX_SPARE_CAPACITY < capacity q)
  then Pqueue [] 0 0 (len q)
  else q.

(** [None] is the [NULL] an empty queue returns. *)
Definition pqueue_pop {A} (q : pqueue A) : outcome (option A * pqueue A) :=
  if bool_decide (len q = 0) then Ok (None, q)
  else
    elem ← slot_read (elems q) (start_idx q);
    let q := Pqueue (elems q) (capacity q) ((start_idx q + 1) mod capacity q) (len q - 1) in
    Ok (Some elem, consider_compacting q).

Definition pqueue_peek {A} (q : pqueue A) : outcome (option A) :=
  if bool_decide (len q = 0) then Ok None
  else elem ← slot_read (elems q) (start_idx q); Ok (Some elem).

Definition pqueue_len {A} (q : pqueue A) : nat := len q.

(** Operation sequences, for the queue and for a list. *)
Inductive queue_op (A : Type) := QPush (x : A) | QPop | QPeek | QLen.
Arguments QPush {A} _.
Arguments QPop {A}.
Arguments QPeek {A}.
Arguments QLen {A}.

Inductive queue_obs (A : Type) := QUnit | QElem (o : option A) | QSize (n : nat).
Arguments QUnit {A}.
Arguments QElem {A} _.
Arguments QSize {A} _.

Definition pqueue_step {A} (op : queue_op A) (q : pqueue A)
    : outcome (queue_obs A * pqueue A) :=
  match op with
  | QPush x => q' ← pqueue_push q x; Ok (QUnit, q')
  | QPop => '(o, q') ← pqueue_pop q; Ok (QElem o, q')
  | QPeek => o ← pqueue_peek q; Ok (QElem o, q)
  | QLen => Ok (QSize (pqueue_len q), q)
  end.

Definition fifo_step {A} (op : queue_op A) (l : list A) : queue_obs A * list A :=
  match op with
  | QPush x => (QUnit, l ++ [x])
  | QPop => (QElem (head l), tail l)
  | QPeek => (QElem (head l), l)
  | QLen => (QSize (length l), l)
  end.

Fixpoint pqueue_run {A} (ops : list (queue_op A)) (q : pqueue A)
    : outcome (list (queue_obs A)) :=
  match ops with
  | [] => Ok []
  | op :: ops' => '(o, q') ← pqueue_step op q; os ← pqueue_run ops' q'; Ok (o :: os)
  end.

Fixpoint fifo_run {A} (ops : list (queue_op A)) (l : list A) : list (queue_obs A) :=
  match ops with
  | [] => []
  | op :: ops' => let '(o, l') := fifo_step op l in o :: fifo_run ops' l'
  end.

(** ** Representation *)

Definition pqueue_repr {A} (q : pqueue A) (l : list A) : Prop :=
  length (elems q) = capacity q ∧ len q = length l ∧ length l ≤ capacity q ∧
  (capacity q = 0 ∨ start_idx q < capacity q) ∧
  (∀ i x, l !! i = Some x →
     elems q !! ((start_idx q + i) mod capacity q) = Some (Some x)).

Section repr.
Context {A : Type}.
Implicit Types (q : pqueue A) (l : list A).

Lemma pqueue_create_repr : pqueue_repr (pqueue_create : pqueue A) [].
Proof. split_and!; simpl; [done|done|lia|by left|done]. Qed.

(** Distinct positions of the queue are distinct slots. *)
Lemma mod_add_ne s i j c : i < j → j < c → (s + i) mod c ≠ (s + j) mod c.
Proof.
  intros Hij Hj E. pose proof (Nat.div_mod_eq (s + i) c) as Hi'.
  pose proof (Nat.div_mod_eq (s + j) c) as Hj'. rewrite E in Hi'.
  set (a := (s + i) / c) in *. set (b := (s + j) / c) in *.
  clearbody a b. assert (a < b) by nia. nia.
Qed.

Lemma copy_loop_spec q l : pqueue_repr q l →
  ∀ n k b, n + k = length l → length l ≤ length b →
    (∀ i x, i < k → l !! i = Some x → b !! i = Some (Some x)) →
    ∃ b', copy_loop q n k b = Ok b' ∧ length b' = length b ∧
      (∀ i x, l !! i = Some x → b' !! i = Some (Some x)).
Proof.
  intros (_ & _ & _ & _ & Hel). induction n as [|n IH]; intros k b Hn Hb Hk; simpl.
  - exists b. split_and!; [done|done|]. intros i x Hi. apply Hk; [|done].
    apply lookup_lt_Some in Hi. lia.
  - destruct (lookup_lt_is_Some_2 l k) as [x Hx]; [lia|].
    unfold slot_read. rewrite (Hel k x Hx). simpl. rewrite slot_write_Ok by lia. simpl.
    destruct (IH (k + 1) (<[k:=Some x]> b)) as (b' & E & Hlb & Hb'); [lia| | |].
    + by rewrite length_insert.
    + intros i y Hi Hy. destruct (decide (i = k)) as [->|].
      * rewrite list_lookup_insert_eq by lia. congruence.
      * rewrite list_lookup_insert_ne by done. apply Hk; [lia|done].
    + exists b'. rewrite length_insert in Hlb. done.
Qed.

Lemma pqueue_assure_capacity_repr q l n : pqueue_repr q l → length l ≤ n →
  ∃ q', assure_capacity q n = Ok q' ∧ pqueue_repr q' l ∧ n ≤ capacity q' ∧ len q' = len q.
Proof.
  intros Hq Hn. unfold assure_capacity, CAPACITY_INCREASE_FACTOR. case_bool_decide as Hc.
  - exists q. done.
  - destruct (copy_loop_spec q l Hq (len q) 0 (ut_malloc (n * 2))) as (b & E & Hlb & Hb).
    + destruct Hq as (_ & -> & _). lia.
    + unfold ut_malloc. rewrite length_replicate. lia.
    + lia.
    + rewrite E. simpl. eexists. split; [done|]. unfold ut_malloc in Hlb.
      rewrite length_replicate in Hlb. destruct Hq as (_ & Hl & _).
      split_and!; simpl; [|lia|done]. split_and!; simpl; [done|done|lia| |].
      * destruct n; lia.
      * intros i x Hi. rewrite Nat.mod_small; [by apply Hb|].
        apply lookup_lt_Some in Hi. lia.
Qed.

Lemma pqueue_push_repr q l x : pqueue_repr q l →
  ∃ q', pqueue_push q x = Ok q' ∧ pqueue_repr q' (l ++ [x]).
Proof.
  intros Hq. unfold pqueue_push.
  assert (len q = length l) as Hl by apply Hq.
  destruct (pqueue_assure_capacity_repr q l (len q + 1) Hq) as (q1 & -> & Hq1 & Hc & Hl1); [lia|].
  simpl. destruct Hq1 as (H1 & H2 & H3 & H4 & H5).
  rewrite slot_write_Ok by (rewrite H1; apply Nat.mod_upper_bound; lia).
  simpl. eexists. split; [done|]. split_and!; simpl.
  - by rewrite length_insert.
  - rewrite length_app. simpl. lia.
  - rewrite length_app. simpl. lia.
  - done.
  - intros i y [Hi|[Hi Hy]]%lookup_app_Some.
    + rewrite list_lookup_insert_ne; [by apply H5|]. apply lookup_lt_Some in Hi.
      apply not_eq_sym, mod_add_ne; lia.
    + apply list_lookup_singleton_Some in Hy as [Hz <-].
      replace (start_idx q1 + i) with (start_idx q1 + len q1) by lia.
      apply list_lookup_insert_eq. rewrite H1. apply Nat.mod_upper_bound. lia.
Qed.

Lemma consider_compacting_repr q l : pqueue_repr q l →
  pqueue_repr (consider_compacting q) l.
Proof.
  intros Hq. unfold consider_compacting. case_bool_decide as H0; [|done]. simpl.
  case_bool_decide; [|done]. destruct Hq as (_ & Hl & _).
  destruct l as [|y l]; simpl in *; [|lia]. split_and!; simpl; [done|done|lia|by left|done].
Qed.

Lemma pqueue_read_start q l x : pqueue_repr q (x :: l) →
  slot_read (elems q) (start_idx q) = Ok x.
Proof.
  intros (H1 & H2 & H3 & H4 & H5). unfold slot_read. specialize (H5 0 x eq_refl).
  simpl in H3. rewrite Nat.add_0_r, Nat.mod_small in H5 by lia. by rewrite H5.
Qed.

Lemma pqueue_pop_repr q l : pqueue_repr q l →
  ∃ q', pqueue_pop q = Ok (head l, q') ∧ pqueue_repr q' (tail l).
Proof.
  intros Hq. unfold pqueue_pop. case_bool_decide as H0.
  - exists q. destruct l; [done|]. destruct Hq as (_ & Hl & _). simpl in *. lia.
  - destruct l as [|x l]; [by destruct Hq as (_ & Hl & _)|].
    rewrite (pqueue_read_start q l x) by done. simpl. eexists. split; [done|].
    apply consider_compacting_repr. destruct Hq as (H1 & H2 & H3 & H4 & H5).
    simpl in *. split_and!; simpl; [done|lia|lia| |].
    + destruct H4; [by left|right]. apply Nat.mod_upper_bound. lia.
    + intros i y Hi. rewrite Nat.Div0.add_mod_idemp_l. specialize (H5 (S i) y Hi).
      replace (start_idx q + 1 + i) with (start_idx q + S i) by lia. done.
Qed.

Lemma pqueue_peek_repr q l : pqueue_repr q l → pqueue_peek q = Ok (head l).
Proof.
  intros Hq. unfold pqueue_peek. destruct l as [|x l].
  - rewrite bool_decide_eq_true_2; [done|]. by destruct Hq as (_ & Hl & _).
  - rewrite bool_decide_eq_false_2; [by rewrite (pqueue_read_start q l x)|].
    destruct Hq as (_ & Hl & _). simpl in Hl. lia.
Qed.

Lemma pqueue_step_repr op q l : pqueue_repr q l →
  ∃ q', pqueue_step op q = Ok ((fifo_step op l).1, q') ∧
        pqueue_repr q' (fifo_step op l).2.
Proof.
  intros Hq. destruct op as [x| | |]; simpl.
  - destruct (pqueue_push_repr q l x Hq) as (q' & -> & ?). by exists q'.
  - destruct (pqueue_pop_repr q l Hq) as (q' & -> & ?). by exists q'.
  - rewrite (pqueue_peek_repr q l) by done. by exists q.
  - exists q. unfold pqueue_len. destruct (Hq) as (_ & -> & _). done.
Qed.

Lemma pqueue_run_repr ops q l : pqueue_repr q l →
  pqueue_run ops q = Ok (fifo_run ops l).
Proof.
  revert q l. induction ops as [|op ops IH]; intros q l Hq; simpl; [done|].
  destruct (pqueue_step_repr op q l Hq) as (q' & -> & Hq'). simpl.
  rewrite (IH q' _ Hq'). simpl. by destruct (fifo_step op l).
Qed.
End repr.

(** ** Properties *)

(** C32: a pqueue is a FIFO queue: any sequence of push, pop, peek and len
    operations on a fresh queue succeeds (no access leaves the buffer, whatever
    the growth, wrap-around and compaction on the way) and returns what the
    list of queued elements returns. *)
Theorem pqueue_is_fifo {A} (ops : list (queue_op A)) :
  pqueue_run ops pqueue_create = Ok (fifo_run ops []).
Proof. apply pqueue_run_repr, pqueue_create_repr. Qed.
