(* ===== verification/Sbuf.v ===== *)
(** * sbuf: the string builder (src/util/sbuf.c)

    [sbuf_repr] relates a builder to the characters appended so far.  The
    filter printer (Filter.v) appends to that list of characters; the theorem
    here shows that the buffer does the same and that [sbuf_morph] returns it
    as a NUL-terminated string. *)

From S2P Require Import Prelude CLib Mem.

Record sbuf := Sbuf {
  buf : block ascii;
  capacity : nat;
  len : nat
}.

Definition sbuf_create : sbuf := Sbuf [] 0 0.

Definition CAPACITY_INCREASE_FACTOR : nat := 2.

Definition assure_capacity (sb : sbuf) (cap : nat) : sbuf :=
  if bool_decide (capacity sb < cap) then
    let cap' := CAPACITY_INCREASE_FACTOR * cap in
    Sbuf (ut_realloc (buf sb) cap') cap' (len sb)
  else sb.

Definition append (sb : sbuf) (data : block ascii) (data_len : nat) : outcome sbuf :=
  let new_len := len sb + data_len in
  let sb := assure_capacity sb new_len in
  buf' ← memcpy (buf sb) (len sb) data data_len;
  Ok (Sbuf buf' (capacity sb) new_len).

Definition sbuf_append (sb : sbuf) (s : cstr) : outcome sbuf :=
  append sb (Some <$> s) (strlen s).

Definition sbuf_append_c (sb : sbuf) (c : ascii) : outcome sbuf :=
  append sb [Some c] 1.

(** The string that starts a block: the characters before the first NUL. *)
Fixpoint cstr_at (b : block ascii) : outcome cstr :=
  match b with
  | Some c :: b' => if decide (c = NUL) then Ok []
                    else s ← cstr_at b'; Ok (c :: s)
  | _ => Fail Undefined
  end.

Definition sbuf_morph (sb : sbuf) : outcome cstr :=
  let sb := assure_capacity sb (len sb + 1) in
  str ← slot_write (buf sb) (len sb) NUL;
  cstr_at str.

(** A sequence of appended pieces. *)
Fixpoint sbuf_append_all (sb : sbuf) (pieces : list cstr) : outcome sbuf :=
  match pieces with
  | [] => Ok sb
  | s :: pieces' => sb' ← sbuf_append sb s; sbuf_append_all sb' pieces'
  end.

Definition sbuf_repr (sb : sbuf) (s : cstr) : Prop :=
  length (buf sb) = capacity sb ∧ len sb = length s ∧
  take (len sb) (buf sb) = Some <$> s.

Lemma sbuf_create_repr : sbuf_repr sbuf_create [].
Proof. done. Qed.

Lemma sbuf_repr_le sb s : sbuf_repr sb s → len sb ≤ length (buf sb).
Proof.
  intros (_ & Hl & Ht). apply (f_equal length) in Ht.
  rewrite length_take, length_fmap in Ht. lia.
Qed.

Lemma sbuf_assure_capacity_repr sb s n : sbuf_repr sb s →
  sbuf_repr (assure_capacity sb n) s ∧ n ≤ length (buf (assure_capacity sb n)) ∧
  len (assure_capacity sb n) = len sb.
Proof.
  intros Hs. pose proof (sbuf_repr_le sb s Hs) as Hle. destruct Hs as (Hc & Hl & Ht).
  unfold assure_capacity, CAPACITY_INCREASE_FACTOR. case_bool_decide as Hn; simpl.
  - rewrite length_ut_realloc. split_and!; simpl; [|lia|done].
    split_and!; simpl; [apply length_ut_realloc|done|].
    by rewrite take_ut_realloc by lia.
  - split_and!; [by split_and!|lia|done].
Qed.

Lemma append_repr sb s t : sbuf_repr sb s →
  ∃ sb', append sb (Some <$> t) (length t) = Ok sb' ∧ sbuf_repr sb' (s ++ t).
Proof.
  intros Hs. unfold append.
  destruct (sbuf_assure_capacity_repr sb s (len sb + length t) Hs) as ((Hc & Hl & Ht) & Hn & El).
  set (q := assure_capacity sb (len sb + length t)) in *.
  unfold memcpy. rewrite !bool_decide_eq_true_2 by (rewrite ?length_fmap; lia). simpl.
  eexists. split; [done|]. split_and!; simpl.
  - rewrite !length_app, !length_take, length_fmap, length_drop. lia.
  - rewrite length_app. lia.
  - rewrite (take_ge (Some <$> t)) by (by rewrite length_fmap).
    rewrite app_assoc, take_app_length_eq.
    + by rewrite fmap_app, Ht.
    + rewrite length_app, length_take, length_fmap. lia.
Qed.

Lemma sbuf_append_repr sb s t : sbuf_repr sb s →
  ∃ sb', sbuf_append sb t = Ok sb' ∧ sbuf_repr sb' (s ++ t).
Proof. apply append_repr. Qed.

Lemma sbuf_append_c_repr sb s c : sbuf_repr sb s →
  ∃ sb', sbuf_append_c sb c = Ok sb' ∧ sbuf_repr sb' (s ++ [c]).
Proof. apply (append_repr sb s [c]). Qed.

Lemma cstr_at_terminated s b : nul_free s →
  cstr_at ((Some <$> s) ++ Some NUL :: b) = Ok s.
Proof.
  unfold nul_free. induction s as [|c s IH]; csimpl; intros Hs.
  - done.
  - apply not_elem_of_cons in Hs as [Hc Hs].
    rewrite decide_False by congruence. by rewrite IH.
Qed.

Lemma sbuf_morph_repr sb s : sbuf_repr sb s → nul_free s → sbuf_morph sb = Ok s.
Proof.
  intros Hs Hnul. unfold sbuf_morph.
  destruct (sbuf_assure_capacity_repr sb s (len sb + 1) Hs) as ((Hc & Hl & Ht) & Hn & El).
  set (q := assure_capacity sb (len sb + 1)) in *.
  rewrite slot_write_Ok by lia. simpl.
  rewrite insert_take_drop by lia. rewrite Ht. by apply cstr_at_terminated.
Qed.

Lemma sbuf_append_all_repr sb s ps : sbuf_repr sb s →
  ∃ sb', sbuf_append_all sb ps = Ok sb' ∧ sbuf_repr sb' (s ++ concat ps).
Proof.
  revert sb s. induction ps as [|p ps IH]; intros sb s Hs; simpl.
  - exists sb. by rewrite app_nil_r.
  - destruct (sbuf_append_repr sb s p Hs) as (sb1 & -> & Hs1). simpl.
    rewrite app_assoc. by apply IH.
Qed.

(** ** Properties *)

(** Appending any sequence of NUL-free strings to a fresh string builder
    and turning it into a string never leaves the buffer and gives their
    concatenation. *)
Theorem sbuf_builds_concatenation (pieces : list cstr) :
  Forall nul_free pieces →
  (sb ← sbuf_append_all sbuf_create pieces; sbuf_morph sb) = Ok (concat pieces).
Proof.
  intros Hp. destruct (sbuf_append_all_repr sbuf_create [] pieces sbuf_create_repr)
    as (sb & -> & Hs). simpl. apply sbuf_morph_repr; [done|]. clear sb Hs.
  unfold nul_free. induction Hp as [|p ps Hp _ IH]; simpl; [apply not_elem_of_nil|].
  by intros [?|?]%elem_of_app.
Qed.

Lemma sbuf_builds_concatenation_witness :
  (sb ← sbuf_append_all sbuf_create [C "(a"; C "="; C "b)"]; sbuf_morph sb)
  = Ok (C "(a=b)").
Proof.
  rewrite (sbuf_builds_concatenation [C "(a"; C "="; C "b)"]); [reflexivity|].
  apply (bool_decide_eq_true_1 _). reflexivity.
Defined.
