(* ===== verification/Log.v ===== *)
(** * Logging (src/util/log.c)

    Log contexts are heap objects that form chains: each has a prefix and
    possibly a parent, and a log line begins with the prefixes from the root of
    the chain on.  Formatting is the C library's: a function that takes a format
    and its arguments takes the text here that [vasprintf] makes of them.  What
    reaches syslog and standard error is listed in order. *)

From S2P Require Import Prelude CLib.

(** ** syslog.h *)

Definition LOG_ERR : Z := 3.
Definition LOG_WARNING : Z := 4.
Definition LOG_NOTICE : Z := 5.
Definition LOG_INFO : Z := 6.
Definition LOG_DEBUG : Z := 7.

Definition LOG_KERN : Z := Z.shiftl 0 3.
Definition LOG_USER : Z := Z.shiftl 1 3.
Definition LOG_MAIL : Z := Z.shiftl 2 3.
Definition LOG_DAEMON : Z := Z.shiftl 3 3.
Definition LOG_AUTH : Z := Z.shiftl 4 3.
Definition LOG_SYSLOG : Z := Z.shiftl 5 3.
Definition LOG_LPR : Z := Z.shiftl 6 3.
Definition LOG_NEWS : Z := Z.shiftl 7 3.
Definition LOG_UUCP : Z := Z.shiftl 8 3.
Definition LOG_CRON : Z := Z.shiftl 9 3.
Definition LOG_AUTHPRIV : Z := Z.shiftl 10 3.
Definition LOG_FTP : Z := Z.shiftl 11 3.
Definition LOG_LOCAL (n : Z) : Z := Z.shiftl (16 + n) 3.

(** The mask of all priorities up to one. *)
Definition LOG_UPTO (pri : Z) : Z := (Z.shiftl 1 (pri + 1) - 1)%Z.

(** ** The state *)

Definition LOG_USE_SYSLOG : Z := Z.shiftl 1 0.
Definition LOG_USE_STDERR : Z := Z.shiftl 1 1.

Abbreviation ctx_ref := positive.

Record log_ctx := LogCtx { parent_ctx : option ctx_ref; prefix : cstr }.

Inductive log_output :=
  | Openlog (ident : cstr) (facility : Z)
  | Syslog (priority : Z) (msg : cstr)
  | Stderr (line : cstr).

(** The pointer [log_ident]: null, to a string, or to one that was freed. *)
Inductive ident_ptr := IdentNull | IdentFreed | Ident (s : cstr).

(** The variables of log.c, the contexts in memory, and what has been put out. *)
Record log_state := LogState {
  log_ident_ptr : ident_ptr;
  log_flags : Z;
  log_filter_level : Z;
  log_ctxs : gmap ctx_ref log_ctx;
  next_ctx : ctx_ref;
  log_outputs : list log_output
}.

(** The string, if it is there. *)
Definition log_ident (st : log_state) : option cstr :=
  match log_ident_ptr st with Ident s => Some s | _ => None end.

Definition set_log_vars (ident : ident_ptr) (flags level : Z) (st : log_state) : log_state :=
  LogState ident flags level (log_ctxs st) (next_ctx st) (log_outputs st).
Definition set_log_ctxs (f : gmap ctx_ref log_ctx → gmap ctx_ref log_ctx) (st : log_state)
    : log_state :=
  LogState (log_ident_ptr st) (log_flags st) (log_filter_level st) (f (log_ctxs st)) (next_ctx st)
    (log_outputs st).
Definition set_next_ctx (l : ctx_ref) (st : log_state) : log_state :=
  LogState (log_ident_ptr st) (log_flags st) (log_filter_level st) (log_ctxs st) l (log_outputs st).
Definition log_put (o : log_output) (st : log_state) : log_state :=
  LogState (log_ident_ptr st) (log_flags st) (log_filter_level st) (log_ctxs st) (next_ctx st)
    (log_outputs st ++ [o]).

(** ** Contexts *)

Definition load_ctx (l : ctx_ref) : M log_state log_ctx := λ st,
  match log_ctxs st !! l with Some c => Ok (c, st) | None => Fail Undefined end.

Definition log_ctx_create_prefix (parent : option ctx_ref) (text : cstr) : M log_state ctx_ref :=
  l ← gets next_ctx;
  _ ← modify (set_log_ctxs <[l := LogCtx parent text]>);
  _ ← modify (set_next_ctx (Pos.succ l));
  mret l.

Definition log_ctx_create (parent : option ctx_ref) : M log_state ctx_ref :=
  log_ctx_create_prefix parent [].

Definition log_ctx_destroy (l : option ctx_ref) : M log_state unit :=
  match l with
  | Some l => _ ← load_ctx l; modify (set_log_ctxs (delete l))
  | None => mret tt
  end.

Definition log_ctx_set_prefix (l : ctx_ref) (text : cstr) : M log_state unit :=
  c ← load_ctx l;
  modify (set_log_ctxs <[l := LogCtx (parent_ctx c) text]>).

Fixpoint ctx_get_full_prefix (fuel : nat) (ctxs : gmap ctx_ref log_ctx) (l : ctx_ref)
    : outcome cstr :=
  match fuel with
  | O => Fail OutOfFuel
  | S n =>
      c ← deref (ctxs !! l);
      match parent_ctx c with
      | Some p => parent_prefix ← ctx_get_full_prefix n ctxs p; mret (parent_prefix ++ prefix c)
      | None => mret (prefix c)
      end
  end.

(** ** Events *)

(** Whether a bit of the flags is set. *)
Definition has_flag (flags bit : Z) : bool := negb (bool_decide (Z.land flags bit = 0)%Z).

(** Printing [log_ident], or the logger's use of it, needs the string there. *)
Definition vlog_event (getpid : Z) (priority : Z) (ctx : option ctx_ref) (text : cstr)
    : M log_state unit :=
  st ← gets id;
  let has_destination := has_flag (log_flags st) (Z.lor LOG_USE_SYSLOG LOG_USE_STDERR) in
  if negb has_destination || bool_decide (log_filter_level st < priority)%Z then mret tt
  else
    prefix ← match ctx with
             | Some l => lift (ctx_get_full_prefix (Pos.to_nat (next_ctx st)) (log_ctxs st) l)
             | None => mret []
             end;
    let msg := prefix ++ text in
    ident ← lift (deref (log_ident st));
    _ ← (if has_flag (log_flags st) LOG_USE_SYSLOG then modify (log_put (Syslog priority msg))
         else mret tt);
    if has_flag (log_flags st) LOG_USE_STDERR then
      modify (log_put (Stderr (ident ++ C "[" ++ print_int64 getpid ++ C "]: " ++ msg ++ ["010"%char])))
    else mret tt.

Section log_fun.
Context (getpid : Z).

Definition log_debug := vlog_event getpid LOG_DEBUG None.
Definition log_info := vlog_event getpid LOG_INFO None.
Definition log_warn := vlog_event getpid LOG_WARNING None.
Definition log_error := vlog_event getpid LOG_ERR None.

Definition log_debug_c (ctx : option ctx_ref) := vlog_event getpid LOG_DEBUG ctx.
Definition log_info_c (ctx : option ctx_ref) := vlog_event getpid LOG_INFO ctx.
Definition log_warn_c (ctx : option ctx_ref) := vlog_event getpid LOG_WARNING ctx.
Definition log_error_c (ctx : option ctx_ref) := vlog_event getpid LOG_ERR ctx.
End log_fun.

Definition log_init (ident : cstr) (filter_level facility flags : Z) : M log_state unit :=
  _ ← modify (set_log_vars (Ident ident) flags filter_level);
  if has_flag flags LOG_USE_SYSLOG then modify (log_put (Openlog ident facility)) else mret tt.

(** The pointer is left as it is. *)
Definition log_deinit : M log_state unit := λ st,
  match log_ident_ptr st with
  | IdentNull => Ok (tt, st)
  | IdentFreed => Fail Undefined
  | Ident _ => Ok (tt, set_log_vars IdentFreed (log_flags st) (log_filter_level st) st)
  end.

(** ** Names of facilities and levels *)

Definition named_value : Type := Z * cstr.

Definition facilities : list named_value :=
  [(LOG_AUTH, C "auth"); (LOG_AUTHPRIV, C "authpriv"); (LOG_CRON, C "cron");
   (LOG_DAEMON, C "daemon"); (LOG_FTP, C "ftp"); (LOG_KERN, C "kern");
   (LOG_LOCAL 0, C "local0"); (LOG_LOCAL 1, C "local1"); (LOG_LOCAL 2, C "local2");
   (LOG_LOCAL 3, C "local3"); (LOG_LOCAL 4, C "local4"); (LOG_LOCAL 5, C "local5");
   (LOG_LOCAL 6, C "local6"); (LOG_LOCAL 7, C "local7"); (LOG_LPR, C "lpr");
   (LOG_MAIL, C "mail"); (LOG_NEWS, C "news"); (LOG_SYSLOG, C "syslog");
   (LOG_USER, C "user"); (LOG_UUCP, C "uucp")].

Definition levels : list named_value :=
  [(LOG_DEBUG, C "debug"); (LOG_INFO, C "info"); (LOG_NOTICE, C "notice");
   (LOG_WARNING, C "warning"); (LOG_ERR, C "error")].

Definition named_values_foreach {St} (values : list named_value) (cb : Z → cstr → M St unit)
    : M St unit :=
  mforeach (λ nv, cb nv.1 nv.2) values.

Record search_state := SearchState { search_name : option cstr; search_value : Z }.

Definition name_lookup_cb (value : Z) (name : cstr) : M search_state unit := λ state,
  Ok (tt, if bool_decide (search_value state = value)
          then SearchState (Some name) (search_value state) else state).

(** The state that a search ends in. *)
Definition searched (r : outcome (unit * search_state)) : outcome search_state := snd <$> r.

Definition name_lookup (values : list named_value) (needle_value : Z) : outcome (option cstr) :=
  search_name <$> searched (named_values_foreach values name_lookup_cb (SearchState None needle_value)).

Definition value_lookup_cb (value : Z) (name : cstr) : M search_state unit := λ state,
  needle ← deref (search_name state);
  Ok (tt, if bool_decide (strcmp needle name = 0)%Z
          then SearchState (search_name state) value else state).

Definition value_lookup (values : list named_value) (needle_name : cstr) : outcome Z :=
  search_value <$>
    searched (named_values_foreach values value_lookup_cb (SearchState (Some needle_name) (-1))).

Definition log_str_to_facility := value_lookup facilities.
Definition log_facility_to_str := name_lookup facilities.
Definition log_facility_foreach {St} (cb : Z → cstr → M St unit) : M St unit :=
  named_values_foreach facilities cb.

Definition log_str_to_level := value_lookup levels.
Definition log_level_to_str := name_lookup levels.
Definition log_level_foreach {St} (cb : Z → cstr → M St unit) : M St unit :=
  named_values_foreach levels cb.

(** With the process's mask, which [setlogmask (0)] returns. *)
Definition log_is_debug_enabled (mask : Z) : bool := has_flag mask LOG_DEBUG.

(** ** Contexts form chains *)

(** The prefixes from the root of the chain of [l] to [l]. *)
Inductive chain (ctxs : gmap ctx_ref log_ctx) : ctx_ref → list cstr → Prop :=
  | chain_root l p : ctxs !! l = Some (LogCtx None p) → chain ctxs l [p]
  | chain_child l l' p ps : ctxs !! l = Some (LogCtx (Some l') p) → chain ctxs l' ps →
      chain ctxs l (ps ++ [p]).

(** A context is created after its parent, and outlived by it. *)
Record ctxs_ok (st : log_state) : Prop := {
  ctx_below l : is_Some (log_ctxs st !! l) → (l < next_ctx st)%positive;
  ctx_parent l c p : log_ctxs st !! l = Some c → parent_ctx c = Some p →
    (p < l)%positive ∧ is_Some (log_ctxs st !! p)
}.

Lemma full_prefix_chain st : ctxs_ok st → ∀ n l, (Pos.to_nat l ≤ n)%nat →
  is_Some (log_ctxs st !! l) →
  ∃ ps, chain (log_ctxs st) l ps ∧ ctx_get_full_prefix n (log_ctxs st) l = Ok (concat ps).
Proof.
  intros H. induction n as [|n IH]; intros l Hn [[[p|] s] Hl]; [lia|lia| |].
  - destruct (ctx_parent _ H _ _ _ Hl eq_refl) as [Hlt Hp].
    destruct (IH p) as (ps & Hc & E); [lia|done|]. exists (ps ++ [s]).
    split; [by eapply chain_child|]. simpl. rewrite Hl. cbn. rewrite E. cbn.
    by rewrite concat_app, concat_cons, app_nil_r.
  - exists [s]. split; [by apply chain_root|]. simpl. rewrite Hl. cbn. by rewrite app_nil_r.
Qed.

Lemma chain_fun ctxs l ps ps' : chain ctxs l ps → chain ctxs l ps' → ps = ps'.
Proof.
  intros Hc. revert ps'. induction Hc as [l p Hl|l l' p ps Hl Hc IH]; intros ps' Hc';
    inversion Hc' as [? ? Hl'|? l2 ? ps2 Hl' Hc2]; simplify_eq; [done|].
  by rewrite (IH ps2).
Qed.

(** ** Calls of the module *)

Inductive log_call :=
  | CtxCreate (parent : option ctx_ref) (text : cstr)
  | CtxDestroy (l : option ctx_ref)
  | CtxSetPrefix (l : ctx_ref) (text : cstr)
  | LogEvent (priority : Z) (ctx : option ctx_ref) (text : cstr)
  | LogInit (ident : cstr) (filter_level facility flags : Z)
  | LogDeinit.

Section runs.
Context (getpid : Z).

Definition run_log_call (c : log_call) : M log_state unit :=
  match c with
  | CtxCreate parent text => _ ← log_ctx_create_prefix parent text; mret tt
  | CtxDestroy l => log_ctx_destroy l
  | CtxSetPrefix l text => log_ctx_set_prefix l text
  | LogEvent priority ctx text => vlog_event getpid priority ctx text
  | LogInit ident filter_level facility flags => log_init ident filter_level facility flags
  | LogDeinit => log_deinit
  end.

Fixpoint run_log (cs : list log_call) : M log_state unit :=
  match cs with
  | [] => mret tt
  | c :: cs' => _ ← run_log_call c; run_log cs'
  end.

Definition live_ctx (st : log_state) (l : option ctx_ref) : Prop :=
  match l with Some l => is_Some (log_ctxs st !! l) | None => True end.

#[export] Instance live_ctx_dec st l : Decision (live_ctx st l).
Proof. destruct l; apply _. Defined.

(** Nothing is put out, or [log_ident] is there. *)
Definition can_log (st : log_state) : Prop :=
  has_flag (log_flags st) (Z.lor LOG_USE_SYSLOG LOG_USE_STDERR) = true → is_Some (log_ident st).

#[export] Instance can_log_dec st : Decision (can_log st).
Proof. unfold can_log. apply _. Defined.

(** What callers must see to: contexts they give are there, a context is
    destroyed after its children, and logging stops with [log_deinit], which
    is not called again before [log_init]. *)
Definition log_allowed (st : log_state) (c : log_call) : Prop :=
  match c with
  | CtxCreate parent _ => live_ctx st parent
  | CtxDestroy l => live_ctx st l ∧
      map_Forall (λ _ c, l = None ∨ parent_ctx c ≠ l) (log_ctxs st)
  | CtxSetPrefix l _ => live_ctx st (Some l)
  | LogEvent _ ctx _ => live_ctx st ctx ∧ can_log st
  | LogInit _ _ _ _ => True
  | LogDeinit => log_ident_ptr st ≠ IdentFreed
  end.

#[export] Instance ident_ptr_eq_dec : EqDecision ident_ptr.
Proof. solve_decision. Defined.

#[export] Instance log_allowed_dec st c : Decision (log_allowed st c).
Proof. destruct c; apply _. Defined.

Fixpoint log_admissible (st : log_state) (cs : list log_call) : bool :=
  match cs with
  | [] => true
  | c :: cs' =>
      bool_decide (log_allowed st c) &&
      match run_log_call c st with Ok (_, st') => log_admissible st' cs' | Fail _ => true end
  end.

(** The lines of an event: to syslog, to standard error, both or none. *)
Definition event_lines (st : log_state) (ident : cstr) (priority : Z) (msg : cstr)
    : list log_output :=
  if bool_decide (log_filter_level st < priority)%Z then [] else
    (if has_flag (log_flags st) LOG_USE_SYSLOG then [Syslog priority msg] else []) ++
    (if has_flag (log_flags st) LOG_USE_STDERR
     then [Stderr (ident ++ C "[" ++ print_int64 getpid ++ C "]: " ++ msg ++ ["010"%char])] else []).

(** The prefixes of a context and its ancestors, in one. *)
Definition full_prefix (st : log_state) (ctx : option ctx_ref) (s : cstr) : Prop :=
  match ctx with
  | Some l => ∃ ps, chain (log_ctxs st) l ps ∧ s = concat ps
  | None => s = []
  end.

Lemma has_flag_lor flags a b : has_flag flags (Z.lor a b) = has_flag flags a || has_flag flags b.
Proof.
  unfold has_flag. rewrite <-negb_andb. f_equal. rewrite Z.land_lor_distr_r.
  pose proof (Z.lor_eq_0_iff (Z.land flags a) (Z.land flags b)).
  repeat case_bool_decide; naive_solver.
Qed.

Definition with_outputs (os : list log_output) (st : log_state) : log_state :=
  LogState (log_ident_ptr st) (log_flags st) (log_filter_level st) (log_ctxs st) (next_ctx st)
    (log_outputs st ++ os).

Lemma with_no_outputs st : with_outputs [] st = st.
Proof. destruct st. unfold with_outputs. simpl. by rewrite app_nil_r. Qed.

Lemma vlog_event_ok st priority ctx text : ctxs_ok st → live_ctx st ctx → can_log st →
  ∃ s, full_prefix st ctx s ∧
    vlog_event getpid priority ctx text st =
      Ok (tt, with_outputs (event_lines st (default [] (log_ident st)) priority (s ++ text)) st).
Proof.
  intros H Hl Hi.
  assert (∃ s, full_prefix st ctx s ∧
    match ctx with
    | Some l => ctx_get_full_prefix (Pos.to_nat (next_ctx st)) (log_ctxs st) l
    | None => Ok []
    end = Ok s) as (s & Hs & E).
  { destruct ctx as [l|]; [|by exists []]. pose proof (ctx_below _ H _ Hl) as Hlt.
    destruct (full_prefix_chain st H (Pos.to_nat (next_ctx st)) l) as (ps & Hc & E);
      [lia|done|]. exists (concat ps). split; [by exists ps|done]. }
  exists s. split; [done|]. unfold vlog_event, event_lines, mbind, M_bind, gets. cbn [id].
  unfold can_log in Hi. rewrite has_flag_lor in Hi |- *.
  destruct (bool_decide (log_filter_level st < priority)%Z) eqn:Hp.
  { rewrite orb_true_r. cbn. by rewrite with_no_outputs. }
  rewrite orb_false_r. destruct (has_flag _ LOG_USE_SYSLOG || _) eqn:Hd; cbn [negb].
  2: { apply orb_false_iff in Hd as [-> ->]. cbn. by rewrite with_no_outputs. }
  destruct (Hi eq_refl) as [ident Hident]. rewrite Hident.
  assert (E' : match ctx with
    | Some l => lift (ctx_get_full_prefix (Pos.to_nat (next_ctx st)) (log_ctxs st) l)
    | None => mret []
    end st = Ok (s, st)).
  { destruct ctx; [unfold lift; by rewrite E|by injection E as <-]. }
  rewrite E'. cbn [deref lift default]. unfold with_outputs.
  destruct (has_flag _ LOG_USE_SYSLOG), (has_flag _ LOG_USE_STDERR); cbn;
    unfold log_put, modify; simpl; rewrite ?Hident;
    try discriminate Hd; rewrite <-?app_assoc; reflexivity.
Qed.

(** ** Every sequence of calls *)

Definition log_0 : log_state := LogState IdentNull 0 0 ∅ 1 [].

Lemma ctxs_ok_0 : ctxs_ok log_0.
Proof. split; simpl; [intros l [c Hc]|intros l c p Hc]; by rewrite lookup_empty in Hc. Qed.

Lemma ctxs_ok_same st st' : log_ctxs st' = log_ctxs st → next_ctx st' = next_ctx st →
  ctxs_ok st → ctxs_ok st'.
Proof. intros E1 E2 [H1 H2]. split; rewrite E1, ?E2; [exact H1|exact H2]. Qed.

Lemma ctxs_ok_create st parent text : ctxs_ok st → live_ctx st parent →
  ctxs_ok (set_next_ctx (Pos.succ (next_ctx st))
    (set_log_ctxs <[next_ctx st := LogCtx parent text]> st)).
Proof.
  intros H Hp. split; simpl.
  - intros l [<-|[_ Hl%(ctx_below _ H)]]%lookup_insert_is_Some; lia.
  - intros l c p [[<- <-]|[Hne Hl]]%lookup_insert_Some Hc; simpl in *.
    + subst parent. simpl in Hp. pose proof (ctx_below _ H _ Hp).
      split; [lia|]. rewrite lookup_insert_ne; [done|lia].
    + destruct (ctx_parent _ H _ _ _ Hl Hc) as [? Hlive]. split; [done|].
      apply lookup_insert_is_Some'. by right.
Qed.

Lemma ctxs_ok_prefix st l c text : ctxs_ok st → log_ctxs st !! l = Some c →
  ctxs_ok (set_log_ctxs <[l := LogCtx (parent_ctx c) text]> st).
Proof.
  intros H Hc. split; simpl.
  - intros l' [<-|[_ Hl]]%lookup_insert_is_Some; apply (ctx_below _ H); [by exists c|done].
  - intros l' c' p Hl' Hp. assert (∃ c0, log_ctxs st !! l' = Some c0 ∧ parent_ctx c0 = Some p)
      as (c0 & Hl0 & Hp0).
    { apply lookup_insert_Some in Hl' as [[<- <-]|[_ Hl']]; [by exists c|by exists c']. }
    destruct (ctx_parent _ H _ _ _ Hl0 Hp0) as [? Hlive]. split; [done|].
    apply lookup_insert_is_Some'. by right.
Qed.

Lemma ctxs_ok_delete st l : ctxs_ok st →
  map_Forall (λ _ c, Some l = None ∨ parent_ctx c ≠ Some l) (log_ctxs st) →
  ctxs_ok (set_log_ctxs (delete l) st).
Proof.
  intros H Hall. split; simpl.
  - intros l' [_ Hl]%lookup_delete_is_Some. by apply (ctx_below _ H).
  - intros l' c' p [_ Hl]%lookup_delete_Some Hp.
    destruct (ctx_parent _ H _ _ _ Hl Hp) as [? Hlive]. split; [done|].
    apply lookup_delete_is_Some. split; [|done]. intros ->.
    destruct (Hall _ _ Hl) as [|Hne]; [done|by apply Hne].
Qed.

Lemma log_call_ok c st : ctxs_ok st → log_allowed st c →
  wp (run_log_call c) (λ _ st', ctxs_ok st') st.
Proof.
  intros H Ha. destruct c as [parent text|[l|]|l text|priority ctx text|ident level fac flags|]; simpl.
  - by apply (ctxs_ok_create st parent text).
  - destruct Ha as [[c Hc] Hall]. apply wp_bind. unfold load_ctx, wp at 1. rewrite Hc.
    by apply wp_modify, ctxs_ok_delete.
  - by apply wp_ret.
  - destruct Ha as [c Hc]. apply wp_bind. unfold load_ctx, wp at 1. rewrite Hc.
    by apply wp_modify, ctxs_ok_prefix.
  - destruct Ha as [Hl Hi]. destruct (vlog_event_ok st priority ctx text H Hl Hi) as (s & _ & E).
    unfold wp. rewrite E. by apply (ctxs_ok_same st).
  - unfold log_init. apply wp_bind, wp_modify. destruct (has_flag _ _); [apply wp_modify|apply wp_ret];
      by apply (ctxs_ok_same st).
  - simpl in Ha. unfold wp, log_deinit. destruct (log_ident_ptr st); [done..|by apply (ctxs_ok_same st)].
Qed.

Lemma run_log_ok cs : ∀ st, ctxs_ok st → log_admissible st cs = true →
  wp (run_log cs) (λ _ st', ctxs_ok st') st.
Proof.
  induction cs as [|c cs IH]; intros st H Ha; [by apply wp_ret|].
  simpl in Ha. apply andb_true_iff in Ha as [Ha%bool_decide_eq_true_1 Hr]. simpl. apply wp_bind.
  pose proof (log_call_ok c st H Ha) as Hw. unfold wp in Hw |- *.
  destruct (run_log_call c st) as [[[] st']|]; [|done]. by apply IH.
Qed.
End runs.

(** ** Tables of names *)

(** The searches visit the whole table: the last match counts. *)
Lemma name_lookup_run values v : ∀ o,
  named_values_foreach values name_lookup_cb (SearchState o v) =
  Ok (tt, SearchState (foldl (λ o nv, if bool_decide (v = nv.1) then Some nv.2 else o) o values) v).
Proof.
  induction values as [|nv values IH]; intros o; [done|].
  unfold named_values_foreach in *. cbn [mforeach foldl]. unfold mbind, M_bind, name_lookup_cb at 1.
  simpl. case_bool_decide; by rewrite IH.
Qed.

Lemma value_lookup_run values s : ∀ v,
  named_values_foreach values value_lookup_cb (SearchState (Some s) v) =
  Ok (tt, SearchState (Some s)
    (foldl (λ v nv, if bool_decide (strcmp s nv.2 = 0)%Z then nv.1 else v) v values)).
Proof.
  induction values as [|nv values IH]; intros v; [done|].
  unfold named_values_foreach in *. cbn [mforeach foldl]. unfold mbind, M_bind, value_lookup_cb at 1.
  simpl. case_bool_decide; by rewrite IH.
Qed.

(** Values and names occur once each, and are values and C strings. *)
Definition table_ok (values : list named_value) : Prop :=
  NoDup values.*1 ∧ NoDup values.*2 ∧ Forall (λ nv, (0 ≤ nv.1)%Z ∧ nul_free nv.2) values.

#[export] Instance table_ok_dec values : Decision (table_ok values).
Proof. unfold table_ok. apply _. Defined.

Lemma name_lookup_ok values v : NoDup values.*1 →
  ∃ o, name_lookup values v = Ok o ∧ ∀ s, o = Some s ↔ (v, s) ∈ values.
Proof.
  intros Hnd. unfold name_lookup. rewrite name_lookup_run. eexists. split; [reflexivity|].
  simpl. cut (∀ o s, foldl (λ o nv, if bool_decide (v = nv.1) then Some nv.2 else o) o values = Some s
    ↔ (v, s) ∈ values ∨ (v ∉ values.*1) ∧ o = Some s).
  { intros Hc s. rewrite Hc. naive_solver. }
  induction values as [|[v' s'] values IH]; intros o s; csimpl.
  { rewrite !elem_of_nil. naive_solver. }
  apply NoDup_cons in Hnd as [Hv Hnd]. rewrite (IH Hnd), !elem_of_cons.
  assert (∀ x, (v, x) ∈ values → v ∈ values.*1) by (intros x Hx; apply list_elem_of_fmap; by exists (v, x)).
  case_bool_decide; naive_solver.
Qed.

Lemma value_lookup_ok values s : table_ok values → nul_free s →
  ∃ v, value_lookup values s = Ok v ∧
    ((v, s) ∈ values ∨ v = (-1)%Z ∧ s ∉ values.*2).
Proof.
  intros (_ & Hnd & Hall) Hs. unfold value_lookup. rewrite value_lookup_run.
  eexists. split; [reflexivity|]. simpl.
  cut (∀ d, (foldl (λ v nv, if bool_decide (strcmp s nv.2 = 0)%Z then nv.1 else v) d values, s) ∈ values
    ∨ foldl (λ v nv, if bool_decide (strcmp s nv.2 = 0)%Z then nv.1 else v) d values = d ∧ s ∉ values.*2);
    [intros Hc; apply Hc|].
  induction values as [|[v' s'] values IH]; intros d; csimpl.
  { right. split; [done|]. apply not_elem_of_nil. }
  apply NoDup_cons in Hnd as [Hv Hnd]. apply Forall_cons in Hall as [[_ Hs'] Hall].
  rewrite not_elem_of_cons, elem_of_cons.
  assert (Hcmp : bool_decide (strcmp s s' = 0)%Z = bool_decide (s = s')).
  { apply bool_decide_ext. by apply strcmp_eq. }
  simpl in *. rewrite Hcmp. destruct (IH Hnd Hall (if bool_decide (s = s') then v' else d)) as [|[-> Hn]].
  - by left; right.
  - clear Hcmp. case_bool_decide as E; [subst; left; by left|]. right. split; [done|]. by split.
Qed.

(** Names and values translate to each other, and back. *)
Definition names_of_values (values : list named_value) : Prop :=
  ∀ s, nul_free s → ∃ v, value_lookup values s = Ok v ∧
    (if decide (s ∈ values.*2) then (0 ≤ v)%Z ∧ name_lookup values v = Ok (Some s)
     else v = (-1)%Z ∧ name_lookup values v = Ok None).

Lemma table_roundtrip values : table_ok values → names_of_values values.
Proof.
  intros Hok s Hs. destruct (value_lookup_ok values s Hok Hs) as (v & E & Hv).
  exists v. split; [done|]. destruct Hok as (Hnd & _ & Hall).
  destruct (name_lookup_ok values v Hnd) as (o & Eo & Ho). rewrite Eo. rewrite Forall_forall in Hall.
  destruct Hv as [Hin|[-> Hn]].
  - rewrite decide_True by (apply list_elem_of_fmap; by exists (v, s)).
    split; [apply (Hall _ Hin)|]. by apply Ho in Hin as ->.
  - rewrite decide_False by done. split; [done|]. destruct o as [s'|]; [|done].
    destruct (Hall _ (proj1 (Ho s') eq_refl)) as [? _]. simpl in *. lia.
Qed.

(** ** Properties *)

Section logged.
Context (getpid : Z).

(** The states that sequences of calls lead to. *)
Definition logged (st : log_state) : Prop := ∃ cs,
  log_admissible getpid log_0 cs = true ∧ run_log getpid cs log_0 = Ok (tt, st).

Lemma logged_ok st : logged st → ctxs_ok st.
Proof.
  intros (cs & Ha & E). pose proof (run_log_ok getpid cs log_0 ctxs_ok_0 Ha) as Hw.
  unfold wp in Hw. by rewrite E in Hw.
Qed.

(** C40: in every state that calls of the log functions lead to, an event for a
    context that is there is written to the destinations of the flags if its
    priority is within the filter level, and to none otherwise; its line begins
    with the prefixes of the context's ancestors, from the root to the context,
    and nothing else changes. *)
Theorem log_event_written st priority ctx text : logged st → live_ctx st ctx → can_log st →
  ∃ s, full_prefix st ctx s ∧
    vlog_event getpid priority ctx text st =
      Ok (tt, with_outputs (event_lines getpid st (default [] (log_ident st)) priority (s ++ text)) st).
Proof. intros H%logged_ok. by apply vlog_event_ok. Qed.
End logged.

(** The names of the facilities and of the levels translate to values and
    back; any other name is -1, which has no name. *)
Lemma names_roundtrip : names_of_values facilities ∧ names_of_values levels.
Proof. split; apply table_roundtrip; apply (bool_decide_unpack _); vm_compute; exact I. Qed.

(** With the mask of any priority as the highest one, [log_is_debug_enabled]
    says that debugging is on: it takes the priority [LOG_DEBUG] for a bit of
    the mask. *)
Lemma debug_always_enabled pri : (0 ≤ pri)%Z → log_is_debug_enabled (LOG_UPTO pri) = true.
Proof.
  intros Hp. unfold log_is_debug_enabled, has_flag. apply negb_true_iff, bool_decide_eq_false_2.
  intros E. assert (Hb : Z.testbit (Z.land (LOG_UPTO pri) LOG_DEBUG) 0 = true).
  { rewrite Z.land_spec. apply andb_true_iff. split; [|done].
    change (LOG_UPTO pri) with (Z.pred (Z.shiftl 1 (pri + 1))).
    apply (Z.ones_spec_low (pri + 1) 0). lia. }
  by rewrite E, Z.bits_0 in Hb.
Qed.

(** ** Witnesses *)

(** A connection's context within its server's, logging to both destinations. *)
Definition log_story : list log_call :=
  [LogInit (C "tpafd") LOG_INFO LOG_DAEMON (Z.lor LOG_USE_SYSLOG LOG_USE_STDERR);
   CtxCreate None (C "<domain: a> "); CtxCreate (Some 1%positive) (C "<client: ?> ");
   CtxSetPrefix 2 (C "<client: 1f> "); LogEvent LOG_DEBUG (Some 2%positive) (C "not written")].

Definition after_log_story : log_state :=
  match run_log 17 log_story log_0 with Ok (_, st) => st | Fail _ => log_0 end.

Lemma log_event_written_witness :
  ∃ s, full_prefix after_log_story (Some 2%positive) s ∧
    vlog_event 17 LOG_INFO (Some 2%positive) (C "Hi.") after_log_story =
      Ok (tt, with_outputs (event_lines 17 after_log_story (C "tpafd") LOG_INFO (s ++ C "Hi."))
        after_log_story).
Proof.
  apply (log_event_written 17 after_log_story LOG_INFO (Some 2%positive) (C "Hi.")).
  - exists log_story. split; [vm_compute; reflexivity|vm_compute; reflexivity].
  - vm_compute. eexists. reflexivity.
  - intros _. vm_compute. eexists. reflexivity.
Defined.
