(* ===== verification/Pvalue.v ===== *)
(** * pvalue: property values (src/sd/pvalue.c)

    The tagged union of an integer and a string.  Reading the wrong member is
    an assertion failure. *)

From S2P Require Import Prelude CLib.

Inductive pvalue :=
  | value_int64 (v : Z)
  | value_str (s : cstr).

#[export] Instance pvalue_eq_dec : EqDecision pvalue.
Proof. solve_decision. Defined.

Definition pvalue_is_int64 (value : pvalue) : bool :=
  match value with value_int64 _ => true | value_str _ => false end.

Definition pvalue_is_str (value : pvalue) : bool :=
  match value with value_int64 _ => false | value_str _ => true end.

Definition pvalue_int64_create (v : Z) : pvalue := value_int64 v.

Definition pvalue_str_create (str : cstr) : pvalue := value_str str.

Definition pvalue_int64 (value : pvalue) : outcome Z :=
  match value with value_int64 v => Ok v | value_str _ => Fail AssertFailed end.

Definition pvalue_str (value : pvalue) : outcome cstr :=
  match value with value_str s => Ok s | value_int64 _ => Fail AssertFailed end.

Definition pvalue_equal (a b : pvalue) : bool :=
  match a, b with
  | value_int64 x, value_int64 y => bool_decide (x = y)
  | value_str s, value_str t => bool_decide (strcmp s t = 0)%Z
  | _, _ => false
  end.

Definition pvalue_clone (orig : pvalue) : pvalue :=
  match orig with
  | value_int64 v => pvalue_int64_create v
  | value_str s => pvalue_str_create s
  end.

(** ** Well-formed values: 64-bit integers and C strings *)

Definition pvalue_ok (v : pvalue) : Prop :=
  match v with
  | value_int64 z => is_int64 z = true
  | value_str s => nul_free s
  end.

#[export] Instance pvalue_ok_dec v : Decision (pvalue_ok v).
Proof. destruct v; apply _. Defined.

Lemma pvalue_equal_refl a : pvalue_equal a a = true.
Proof.
  destruct a; simpl; apply bool_decide_eq_true_2; [done|]. apply strcmp_refl.
Qed.

Lemma pvalue_equal_spec a b : pvalue_ok a → pvalue_ok b →
  pvalue_equal a b = true ↔ a = b.
Proof.
  destruct a as [x|s], b as [y|t]; simpl; intros Ha Hb.
  - rewrite bool_decide_eq_true. split; [by intros ->|by intros [=]].
  - done.
  - done.
  - rewrite bool_decide_eq_true, strcmp_eq by done. split; [by intros ->|by intros [=]].
Qed.

Lemma pvalue_clone_id v : pvalue_clone v = v.
Proof. by destruct v. Qed.
