(* ===== verification/Props.v ===== *)
(** * props: the properties of a service (src/sd/props.c)

    A multi-map from names to values.  The arrays [names] and [values] of the
    source always grow and shrink together; they are modelled as one list of
    (name, value) pairs in array order, whose length is [num]. *)

From S2P Require Import Prelude CLib Mem Pvalue.

Abbreviation props := (list (cstr * pvalue)).

Definition props_create : props := [].

Definition add (p : props) (name : cstr) (v : pvalue) : props := p ++ [(name, v)].

Definition props_add (p : props) (name : cstr) (v : pvalue) : props :=
  add p name (pvalue_clone v).

Definition props_add_int64 (p : props) (name : cstr) (v : Z) : props :=
  add p name (pvalue_int64_create v).

Definition props_add_str (p : props) (name v : cstr) : props :=
  add p name (pvalue_str_create v).

(** [strcmp (a, b) == 0] *)
Definition streq (a b : cstr) : bool := bool_decide (strcmp a b = 0)%Z.

Fixpoint has_pair (p : props) (prop_name : cstr) (prop_value : pvalue) : bool :=
  match p with
  | [] => false
  | (n, v) :: p' => if streq n prop_name && pvalue_equal v prop_value then true
                    else has_pair p' prop_name prop_value
  end.

Fixpoint props_equal_loop (b a : props) : bool :=
  match a with
  | [] => true
  | (n, v) :: a' => if negb (has_pair b n v) then false else props_equal_loop b a'
  end.

Definition props_equal (a b : props) : bool :=
  if bool_decide (length a ≠ length b) then false else props_equal_loop b a.

Definition props_num_values (p : props) : nat := length p.

(** Does one of the names before index [i] equal this one? *)
Fixpoint name_seen (before : props) (name : cstr) : bool :=
  match before with
  | [] => false
  | (n, _) :: before' => if streq n name then true else name_seen before' name
  end.

Fixpoint num_names_loop (p before : props) (count : nat) : nat :=
  match p with
  | [] => count
  | (n, v) :: p' =>
      let duplicate := name_seen before n in
      num_names_loop p' (before ++ [(n, v)]) (if duplicate then count else count + 1)
  end.

Definition props_num_names (p : props) : nat := num_names_loop p [] 0.

Fixpoint props_clone_loop (orig copy : props) : props :=
  match orig with
  | [] => copy
  | (n, v) :: orig' => props_clone_loop orig' (props_add copy n v)
  end.

Definition props_clone (orig : props) : props := props_clone_loop orig props_create.

(** [props_get]: the values written to the caller's array of [capacity]
    pointers, and the number of values there are. *)
Fixpoint props_get_loop (p : props) (prop_name : cstr) (capacity : nat)
    (values : list pvalue) (len : nat) : list pvalue * nat :=
  match p with
  | [] => (values, len)
  | (n, v) :: p' =>
      if streq n prop_name
      then props_get_loop p' prop_name capacity
             (if bool_decide (len < capacity) then values ++ [v] else values) (len + 1)
      else props_get_loop p' prop_name capacity values len
  end.

Definition props_get (p : props) (prop_name : cstr) (capacity : nat)
    : list pvalue * nat := props_get_loop p prop_name capacity [] 0.

Fixpoint props_get_one (p : props) (prop_name : cstr) : option pvalue :=
  match p with
  | [] => None
  | (n, v) :: p' => if streq n prop_name then Some v else props_get_one p' prop_name
  end.

Fixpoint props_del_one (p : props) (prop_name : cstr) : outcome props :=
  match p with
  | [] => Fail AssertFailed
  | (n, v) :: p' => if streq n prop_name then Ok p'
                    else p'' ← props_del_one p' prop_name; Ok ((n, v) :: p'')
  end.

Definition props_foreach {St} (p : props) (cb : cstr → pvalue → M St bool) : M St unit :=
  mwhile (λ nv, cb nv.1 nv.2) p.

Fixpoint props_has (p : props) (prop_name : cstr) : bool :=
  match p with
  | [] => false
  | (n, _) :: p' => if streq n prop_name then true else props_has p' prop_name
  end.

(** ** Well-formed properties *)

Definition props_ok (p : props) : Prop :=
  Forall (λ nv, nul_free nv.1 ∧ pvalue_ok nv.2) p.

#[export] Instance props_ok_dec p : Decision (props_ok p).
Proof. unfold props_ok. apply _. Defined.

Lemma streq_refl s : streq s s = true.
Proof. apply bool_decide_eq_true_2, strcmp_refl. Qed.

Lemma streq_spec a b : nul_free a → nul_free b → streq a b = true ↔ a = b.
Proof. intros. unfold streq. by rewrite bool_decide_eq_true, strcmp_eq. Qed.

Lemma streq_decide a b : nul_free a → nul_free b → streq a b = bool_decide (a = b).
Proof.
  intros Ha Hb. apply eq_true_iff_eq. rewrite streq_spec by done.
  by rewrite bool_decide_eq_true.
Qed.

Lemma has_pair_spec p n v : props_ok p → nul_free n → pvalue_ok v →
  has_pair p n v = true ↔ (n, v) ∈ p.
Proof.
  intros Hp Hn Hv. induction Hp as [|[n' v'] p [Hn' Hv'] Hp IH]; simpl.
  - by rewrite elem_of_nil.
  - rewrite elem_of_cons. simpl in *. destruct (streq n' n && pvalue_equal v' v) eqn:E.
    + apply andb_true_iff in E as [E1%streq_spec E2%pvalue_equal_spec]; [|done..].
      subst. tauto.
    + rewrite IH. split; [by right|]. intros [[= -> ->]|?]; [|done].
      by rewrite streq_refl, pvalue_equal_refl in E.
Qed.

Lemma props_equal_loop_spec a b : props_ok a → props_ok b →
  props_equal_loop b a = true ↔ a ⊆ b.
Proof.
  intros Ha Hb. induction Ha as [|[n v] a [Hn Hv] Ha IH]; simpl.
  - split; [set_solver|done].
  - simpl in *. destruct (has_pair b n v) eqn:E; simpl.
    + apply has_pair_spec in E; [|done..]. rewrite IH. set_solver.
    + split; [done|]. intros Hsub.
      assert (has_pair b n v = true) as E'; [|congruence].
      apply has_pair_spec; [done..|]. set_solver.
Qed.

(** What the comparison decides: the same number of pairs, and inclusion. *)
Lemma props_equal_spec a b : props_ok a → props_ok b →
  props_equal a b = true ↔ length a = length b ∧ a ⊆ b.
Proof.
  intros Ha Hb. unfold props_equal. case_bool_decide as Hl.
  - naive_solver.
  - rewrite props_equal_loop_spec by done. tauto.
Qed.

Lemma props_clone_loop_spec orig copy : props_clone_loop orig copy = copy ++ orig.
Proof.
  revert copy. induction orig as [|[n v] orig IH]; intros copy; simpl.
  - by rewrite app_nil_r.
  - rewrite IH. unfold props_add, add. by rewrite pvalue_clone_id, <-app_assoc.
Qed.

Lemma props_clone_id p : props_clone p = p.
Proof. apply props_clone_loop_spec. Qed.

Lemma props_has_spec p n : props_ok p → nul_free n →
  props_has p n = true ↔ ∃ v, (n, v) ∈ p.
Proof.
  intros Hp Hn. induction Hp as [|[n' v'] p [Hn' Hv'] Hp IH]; simpl.
  - split; [done|]. intros [v H%elem_of_nil]. done.
  - simpl in *. destruct (streq n' n) eqn:E.
    + apply streq_spec in E as ->; [|done..]. split; [|done]. intros _. exists v'. left.
    + rewrite IH. split; intros [v H].
      * exists v. by right.
      * apply elem_of_cons in H as [[= -> ->]|H]; [by rewrite streq_refl in E|eauto].
Qed.

(** The values of a name, in order. *)
Definition values_of (p : props) (n : cstr) : list pvalue :=
  snd <$> filter (λ nv, nv.1 = n) p.

Lemma props_get_loop_spec p n cap vs len : props_ok p → nul_free n →
  length vs = min len cap →
  props_get_loop p n cap vs len =
  (vs ++ take (cap - len) (values_of p n), len + length (values_of p n)).
Proof.
  intros Hp Hn. revert vs len.
  induction Hp as [|[n' v'] p [Hn' Hv'] Hp IH]; intros vs len Hvs; simpl in *.
  - change (values_of [] n) with (@nil pvalue).
    rewrite take_nil, app_nil_r. simpl. f_equal. lia.
  - rewrite streq_decide by done. unfold values_of in *. rewrite filter_cons. simpl.
    case_bool_decide as E.
    + rewrite decide_True by done. csimpl. case_bool_decide as Hlt.
      * rewrite IH by (rewrite length_app; simpl; lia).
        replace (cap - len) with (S (cap - (len + 1))) by lia. simpl.
        rewrite <-app_assoc. f_equal. lia.
      * rewrite IH by lia. replace (cap - (len + 1)) with 0 by lia.
        replace (cap - len) with 0 by lia. simpl. f_equal. lia.
    + rewrite decide_False by done. apply IH. lia.
Qed.

Lemma props_get_one_spec p n : props_ok p → nul_free n →
  props_get_one p n = head (values_of p n).
Proof.
  intros Hp Hn. unfold values_of.
  induction Hp as [|[n' v'] p [Hn' Hv'] Hp IH]; simpl in *; [done|].
  rewrite streq_decide by done. rewrite filter_cons. simpl.
  case_bool_decide as E; [by rewrite decide_True|by rewrite decide_False].
Qed.

(** Deleting one value of a name drops the first and keeps the rest. *)
Lemma props_del_one_spec p n : props_ok p → nul_free n →
  match props_del_one p n with
  | Ok p' => ∃ p1 v p2, p = p1 ++ (n, v) :: p2 ∧ p' = p1 ++ p2 ∧ values_of p1 n = []
  | Fail e => e = AssertFailed ∧ props_has p n = false
  end.
Proof.
  intros Hp Hn. unfold values_of.
  induction Hp as [|[n' v'] p [Hn' Hv'] Hp IH]; simpl in *; [done|].
  destruct (streq n' n) eqn:E.
  - apply streq_spec in E as ->; [|done..]. by exists [], v', p.
  - destruct (props_del_one p n) as [p'|e]; simpl.
    + destruct IH as (p1 & v & p2 & -> & -> & Hv). exists ((n', v') :: p1), v, p2.
      split_and!; [done|done|]. rewrite filter_cons. simpl.
      rewrite decide_False; [done|]. intros ->. by rewrite streq_refl in E.
    + done.
Qed.

Lemma name_seen_spec p n : props_ok p → nul_free n →
  name_seen p n = bool_decide (n ∈ p.*1).
Proof.
  intros Hp Hn. induction Hp as [|[n' v'] p [Hn' Hv'] Hp IH]; csimpl; [done|].
  simpl in *. rewrite streq_decide by done. rewrite IH.
  case_bool_decide; case_bool_decide; case_bool_decide; set_solver.
Qed.

(** The set of names. *)
Definition names_of (p : props) : gset cstr := list_to_set (p.*1).

Lemma num_names_loop_spec p before count : props_ok p → props_ok before →
  num_names_loop p before count = count + size (names_of p ∖ names_of before).
Proof.
  unfold names_of. intros Hp. revert before count.
  induction Hp as [|[n v] p [Hn Hv] Hp IH]; intros before count Hb; csimpl.
  - replace (∅ ∖ list_to_set before.*1 : gset cstr) with (∅ : gset cstr) by set_solver.
    rewrite size_empty. lia.
  - simpl in Hn, Hv. rewrite name_seen_spec by done.
    assert (Hb' : props_ok (before ++ [(n, v)])).
    { apply Forall_app_2; [done|]. by constructor. }
    rewrite IH by done. rewrite fmap_app, list_to_set_app_L. csimpl.
    rewrite union_empty_r_L.
    case_bool_decide as E.
    + do 2 f_equal. set_solver.
    + set (X := list_to_set p.*1 : gset cstr).
      set (Y := list_to_set before.*1 : gset cstr).
      assert (n ∉ Y) by set_solver.
      replace (({[n]} ∪ X) ∖ Y) with ({[n]} ∪ (X ∖ (Y ∪ {[n]}))).
      2: { apply set_eq. intros x. destruct (decide (x = n)); set_solver. }
      pose proof (size_union {[n]} (X ∖ (Y ∪ {[n]}))) as ->; [|set_solver].
      rewrite size_singleton. lia.
Qed.

(** ** Properties *)

(** The comparison of two property sets decides exactly "same number of
    pairs, and every pair of the first occurs in the second": it accepts every
    reordering, and when the first set has no repeated pair it accepts only
    reorderings. *)
Theorem props_equal_correct (a b : props) : props_ok a → props_ok b →
  (props_equal a b = true ↔ length a = length b ∧ ∀ nv, nv ∈ a → nv ∈ b) ∧
  (a ≡ₚ b → props_equal a b = true) ∧
  (NoDup a → props_equal a b = true → a ≡ₚ b).
Proof.
  intros Ha Hb. split_and!.
  - by apply props_equal_spec.
  - intros Hab. apply props_equal_spec; [done..|].
    split; [by apply Permutation_length|]. intros nv. by rewrite Hab.
  - intros Hn [Hl Hs]%props_equal_spec; [|done..].
    apply submseteq_length_Permutation; [|lia]. by apply NoDup_submseteq.
Qed.

Lemma props_equal_correct_witness :
  let a := [(C "x", value_int64 17); (C "y", value_str (C "z"))] in
  let b := [(C "y", value_str (C "z")); (C "x", value_int64 17)] in
  a ≡ₚ b.
Proof.
  intros a b. apply (props_equal_correct a b).
  - apply (bool_decide_eq_true_1 _). reflexivity.
  - apply (bool_decide_eq_true_1 _). reflexivity.
  - apply (bool_decide_eq_true_1 _). reflexivity.
  - reflexivity.
Defined.

(** With repeated pairs the comparison is neither symmetric nor equality
    of multi-maps: {x=1, x=1} is "equal" to {x=1, y=2}, but not conversely.
    A publish request can therefore pass as a re-publication of different
    data. *)
Lemma props_equal_asymmetric :
  let a := [(C "x", value_int64 1); (C "x", value_int64 1)] in
  let b := [(C "x", value_int64 1); (C "y", value_int64 2)] in
  props_equal a b = true ∧ props_equal b a = false.
Proof. split; reflexivity. Qed.

(** C34: reading a property set: the number of values and of distinct names,
    presence, the first value, the (possibly truncated) array of values of a
    name, and a clone equal to the original. *)
Theorem props_queries_correct (p : props) (n : cstr) (cap : nat) :
  props_ok p → nul_free n →
  props_num_values p = length p ∧
  props_num_names p = size (names_of p) ∧
  (props_has p n = true ↔ n ∈ names_of p) ∧
  props_get_one p n = head (values_of p n) ∧
  props_get p n cap = (take cap (values_of p n), length (values_of p n)) ∧
  props_clone p = p.
Proof.
  intros Hp Hn. split_and!.
  - done.
  - unfold props_num_names. rewrite num_names_loop_spec by (done || constructor).
    change (names_of []) with (∅ : gset cstr). by rewrite difference_empty_L.
  - rewrite props_has_spec by done. unfold names_of.
    rewrite elem_of_list_to_set, list_elem_of_fmap.
    split; [intros [v H]; by exists (n, v)|intros [[n' v] [-> H]]; by exists v].
  - by apply props_get_one_spec.
  - unfold props_get. rewrite props_get_loop_spec by done. by rewrite Nat.sub_0_r.
  - apply props_clone_id.
Qed.

Lemma props_queries_correct_witness :
  props_num_names [(C "a", value_int64 1); (C "b", value_int64 2); (C "a", value_int64 3)] = 2.
Proof.
  destruct (props_queries_correct
    [(C "a", value_int64 1); (C "b", value_int64 2); (C "a", value_int64 3)] (C "a") 1)
    as (_ & -> & _).
  - apply (bool_decide_eq_true_1 _). reflexivity.
  - apply (bool_decide_eq_true_1 _). reflexivity.
  - vm_compute. reflexivity.
Defined.
