(* ===== verification/Filter.v ===== *)
(** * Subscription filters: data, matching and printing (src/sd/filter.c)

    The five kinds of filter, each with the functions its [struct filter_ops]
    names.  Matching a property set runs over the properties with a callback
    and a search state, as in the source; a substring filter computes offsets
    into the property value in [size_t] arithmetic, and reads outside the
    value are undefined behaviour.  [fsat] is the intended meaning of a filter;
    the theorems relate the two. *)

From S2P Require Import Prelude CLib Mem Pvalue Props.

Definition BEGIN_EXPR : ascii := "("%char.
Definition END_EXPR : ascii := ")"%char.
Definition ANY : ascii := "*"%char.
Definition ESCAPE : ascii := "\"%char.
Definition NOT : ascii := "!"%char.
Definition AND : ascii := "&"%char.
Definition OR : ascii := "|"%char.
Definition EQUAL : ascii := "="%char.
Definition GREATER_THAN : ascii := ">"%char.
Definition LESS_THAN : ascii := "<"%char.

Definition SPECIAL_CHARS : cstr := C "()*\!&|=<>".

Definition is_special (c : ascii) : bool := strchr_has SPECIAL_CHARS c.

(** The structs [comparison], [present], [substring], [not] and [composite];
    an optional string is a pointer that may be [NULL]. *)
Inductive filter_t :=
  | FComparison (op : ascii) (key value : cstr)
  | FPresent (key : cstr)
  | FSubstring (key : cstr) (initial_value : option cstr)
      (intermediate_values : option (list cstr)) (final_value : option cstr)
  | FNot (operand : filter_t)
  | FComposite (op : ascii) (operands : list filter_t).

(** ** clone *)

Definition comparison_create (op : ascii) (key value : cstr) : filter_t :=
  FComparison op key value.

Definition equal_create (key value : cstr) : filter_t := comparison_create EQUAL key value.

Definition greater_than_create (key : cstr) (value : Z) : filter_t :=
  comparison_create GREATER_THAN key (print_int64 value).

Definition less_than_create (key : cstr) (value : Z) : filter_t :=
  comparison_create LESS_THAN key (print_int64 value).

Definition present_create (key : cstr) : filter_t := FPresent key.

Definition substring_create (key : cstr) (initial : option cstr)
    (intermediate : option (list cstr)) (final : option cstr) : filter_t :=
  FSubstring key initial intermediate final.

(** The five clone functions; the last two are given the clones of the
    operands, which [not_create] and [composite_create] make. *)
Definition comparison_clone (op : ascii) (key value : cstr) : filter_t :=
  comparison_create op key value.

Definition present_clone (key : cstr) : filter_t := present_create key.

Definition substring_clone (key : cstr) (initial : option cstr)
    (intermediate : option (list cstr)) (final : option cstr) : filter_t :=
  substring_create key initial intermediate final.

Definition not_clone (operand_clone : filter_t) : filter_t := FNot operand_clone.

Definition composite_clone (op : ascii) (operand_clones : list filter_t) : filter_t :=
  FComposite op operand_clones.

(** [filter_clone], dispatching to them. *)
Fixpoint filter_clone (f : filter_t) : filter_t :=
  match f with
  | FComparison op key value => comparison_clone op key value
  | FPresent key => present_clone key
  | FSubstring key i m fin => substring_clone key i m fin
  | FNot operand => not_clone (filter_clone operand)
  | FComposite op operands => composite_clone op (map filter_clone operands)
  end.

Definition not_create (operand : filter_t) : filter_t := FNot (filter_clone operand).

Definition composite_create (op : ascii) (operands : list filter_t) : filter_t :=
  FComposite op (map filter_clone operands).

Definition and_create (operands : list filter_t) : filter_t := composite_create AND operands.

Definition or_create (operands : list filter_t) : filter_t := composite_create OR operands.

(** ** str *)

Fixpoint filter_escape (s : cstr) : cstr :=
  match s with
  | [] => []
  | c :: s' => (if is_special c then [ESCAPE] else []) ++ c :: filter_escape s'
  end.

Definition append_c (output : cstr) (c : ascii) : cstr := output ++ [c].

Definition append_escaped (output s : cstr) : cstr := output ++ filter_escape s.

Definition comparison_str (op : ascii) (key value output : cstr) : cstr :=
  let output := append_c output BEGIN_EXPR in
  let output := append_escaped output key in
  let output := append_c output op in
  let output := append_escaped output value in
  append_c output END_EXPR.

Definition present_str (key output : cstr) : cstr :=
  let output := append_c output BEGIN_EXPR in
  let output := append_escaped output key in
  let output := append_c output EQUAL in
  let output := append_c output ANY in
  append_c output END_EXPR.

Definition substring_str (key : cstr) (initial : option cstr)
    (intermediate : option (list cstr)) (final : option cstr) (output : cstr) : cstr :=
  let output := append_c output BEGIN_EXPR in
  let output := append_escaped output key in
  let output := append_c output EQUAL in
  let output := match initial with Some s => append_escaped output s | None => output end in
  let output := append_c output ANY in
  let output := match intermediate with
                | Some l => foldl (λ out s, append_c (append_escaped out s) ANY) output l
                | None => output
                end in
  let output := match final with Some s => append_escaped output s | None => output end in
  append_c output END_EXPR.

(** [append_filter_str], given the printed filter. *)
Definition append_filter_str (output filter_s : cstr) : cstr := output ++ filter_s.

(** The printing functions of the filters with operands are given the printed
    operands. *)
Definition not_str (operand_s output : cstr) : cstr :=
  let output := append_c output BEGIN_EXPR in
  let output := append_c output NOT in
  let output := append_filter_str output operand_s in
  append_c output END_EXPR.

Definition composite_str (op : ascii) (operands_s : list cstr) (output : cstr) : cstr :=
  let output := append_c output BEGIN_EXPR in
  let output := append_c output op in
  let output := foldl append_filter_str output operands_s in
  append_c output END_EXPR.

(** [filter_str], dispatching to the five printing functions. *)
Fixpoint filter_str (f : filter_t) : cstr :=
  match f with
  | FComparison op key value => comparison_str op key value []
  | FPresent key => present_str key []
  | FSubstring key i m fin => substring_str key i m fin []
  | FNot operand => not_str (filter_str operand) []
  | FComposite op operands => composite_str op (map filter_str operands) []
  end.

Definition filter_equal (filter_a filter_b : filter_t) : bool :=
  bool_decide (strcmp (filter_str filter_a) (filter_str filter_b) = 0)%Z.

(** ** matches *)

(** The callbacks run in the search state [match_found]. *)
Definition comparison_matches_cb (op : ascii) (key value : cstr)
    (prop_name : cstr) (prop_value : pvalue) : M bool bool := λ match_found,
  if bool_decide (strcmp key prop_name ≠ 0)%Z then Ok (true, match_found)
  else
    found ← (
      if bool_decide (op = EQUAL) then
        value_s ← (if pvalue_is_str prop_value then pvalue_str prop_value
                   else n ← pvalue_int64 prop_value; Ok (print_int64 n));
        Ok (if bool_decide (strcmp value_s value = 0)%Z then true else match_found)
      else if pvalue_is_int64 prop_value then
        let v := (strtoll value).1 in
        n ← pvalue_int64 prop_value;
        Ok (if bool_decide (op = GREATER_THAN) && bool_decide (v < n)%Z then true
            else if bool_decide (op = LESS_THAN) && bool_decide (n < v)%Z then true
            else match_found)
      else Ok match_found);
    Ok (negb found, found).

(** Running a search over the properties. *)
Definition search (p : props) (cb : cstr → pvalue → M bool bool) : outcome bool :=
  '(_, found) ← props_foreach p cb false; Ok found.

Definition comparison_matches (op : ascii) (key value : cstr) (p : props) : outcome bool :=
  search p (comparison_matches_cb op key value).

Definition present_matches (key : cstr) (p : props) : outcome bool :=
  Ok (props_has p key).

(** [&value[offset]], for reading. *)
Definition cstr_from (value : cstr) (offset : Z) : outcome cstr :=
  if bool_decide (offset ≤ Z.of_nat (strlen value))%Z
  then Ok (drop (Z.to_nat offset) value)
  else Fail Undefined.

(** The loop over the intermediate values.  [None]: one was not found, and the
    callback returns.  The subtraction [value - start] is the source's. *)
Fixpoint intermediates_loop (value : cstr) (ivs : list cstr) (offset : Z)
    : outcome (option Z) :=
  match ivs with
  | [] => Ok (Some offset)
  | iv :: ivs' =>
      rest ← cstr_from value offset;
      match strstr rest iv with
      | None => Ok None
      | Some i =>
          let start := (offset + Z.of_nat i)%Z in
          let value_minus_start := (0 - start)%Z in
          intermediates_loop value ivs' (u64 (value_minus_start + Z.of_nat (strlen iv)))
      end
  end.

(** The tests after the loop, from the offset it ended with. *)
Definition final_matches (value : cstr) (final : option cstr) (offset : Z)
    : outcome bool :=
  match final with
  | None => Ok true
  | Some final_value =>
      let final_len := strlen final_value in
      rest ← cstr_from value offset;
      let offset_len := strlen rest in
      if bool_decide (offset_len < final_len) then Ok false
      else
        let offset := u64 (offset + Z.of_nat (offset_len - final_len)) in
        tail ← cstr_from value offset;
        Ok (bool_decide (strcmp final_value tail = 0)%Z)
  end.

Definition value_matches_substring (initial : option cstr)
    (intermediate : option (list cstr)) (final : option cstr) (value : cstr)
    : outcome bool :=
  let initial_ok := match initial with
                    | Some s => bool_decide (strncmp s value (strlen s) = 0)%Z
                    | None => true
                    end in
  let offset := match initial with Some s => Z.of_nat (strlen s) | None => 0%Z end in
  if negb initial_ok then Ok false
  else
    o ← (match intermediate with
         | Some ivs => intermediates_loop value ivs offset
         | None => Ok (Some offset)
         end);
    match o with
    | None => Ok false
    | Some offset => final_matches value final offset
    end.

Definition substring_matches_cb (key : cstr) (initial : option cstr)
    (intermediate : option (list cstr)) (final : option cstr)
    (prop_name : cstr) (prop_value : pvalue) : M bool bool := λ match_found,
  if bool_decide (strcmp prop_name key ≠ 0)%Z then Ok (true, match_found)
  else if negb (pvalue_is_str prop_value) then Ok (true, match_found)
  else
    value ← pvalue_str prop_value;
    matched ← value_matches_substring initial intermediate final value;
    if (matched : bool) then Ok (false, true) else Ok (true, match_found).

Definition substring_matches (key : cstr) (initial : option cstr)
    (intermediate : option (list cstr)) (final : option cstr) (p : props)
    : outcome bool :=
  search p (substring_matches_cb key initial intermediate final).

(** [and_matches] and [or_matches], given how the operands match. *)
Fixpoint and_matches (results : list (outcome bool)) : outcome bool :=
  match results with
  | [] => Ok true
  | r :: results' => m ← r; if negb m then Ok false else and_matches results'
  end.

Fixpoint or_matches (results : list (outcome bool)) : outcome bool :=
  match results with
  | [] => Ok false
  | r :: results' => m ← r; if (m : bool) then Ok true else or_matches results'
  end.

Definition not_matches (result : outcome bool) : outcome bool :=
  m ← result; Ok (negb m).

Definition composite_matches (op : ascii) (results : list (outcome bool)) : outcome bool :=
  if bool_decide (op = AND) then and_matches results else or_matches results.

(** [filter_matches], dispatching to the five matching functions. *)
Fixpoint filter_matches (f : filter_t) (p : props) : outcome bool :=
  match f with
  | FComparison op key value => comparison_matches op key value p
  | FPresent key => present_matches key p
  | FSubstring key i m fin => substring_matches key i m fin p
  | FNot operand => not_matches (filter_matches operand p)
  | FComposite op operands =>
      composite_matches op (map (λ g, filter_matches g p) operands)
  end.

(** ** The intended meaning *)

Definition value_string (v : pvalue) : cstr :=
  match v with value_int64 n => print_int64 n | value_str s => s end.

Definition value_sat (op : ascii) (s : cstr) (v : pvalue) : bool :=
  if bool_decide (op = EQUAL) then bool_decide (value_string v = s)
  else match v with
       | value_int64 n =>
           (bool_decide (op = GREATER_THAN) && bool_decide ((strtoll s).1 < n)%Z) ||
           (bool_decide (op = LESS_THAN) && bool_decide (n < (strtoll s).1)%Z)
       | value_str _ => false
       end.

(** A string matches a pattern with wildcards: the pieces occur in order,
    without overlap. *)
Fixpoint glob_rest (ivs : list cstr) (final v : cstr) : Prop :=
  match ivs with
  | [] => ∃ a, v = a ++ final
  | iv :: ivs' => ∃ a r, v = a ++ iv ++ r ∧ glob_rest ivs' final r
  end.

Definition glob (initial : option cstr) (intermediate : option (list cstr))
    (final : option cstr) (v : cstr) : Prop :=
  ∃ r, v = default [] initial ++ r ∧
       glob_rest (default [] intermediate) (default [] final) r.

(** The decision procedure for [glob]: leftmost matches. *)
Fixpoint glob_rest_b (ivs : list cstr) (final v : cstr) : bool :=
  match ivs with
  | [] => bool_decide (final `suffix_of` v)
  | iv :: ivs' => match strstr v iv with
                  | Some i => glob_rest_b ivs' final (drop (i + length iv) v)
                  | None => false
                  end
  end.

Definition glob_b (initial : option cstr) (intermediate : option (list cstr))
    (final : option cstr) (v : cstr) : bool :=
  bool_decide (default [] initial `prefix_of` v) &&
  glob_rest_b (default [] intermediate) (default [] final)
    (drop (length (default [] initial)) v).

Definition substring_sat (i : option cstr) (m : option (list cstr)) (fin : option cstr)
    (v : pvalue) : bool :=
  match v with value_str s => glob_b i m fin s | value_int64 _ => false end.

Fixpoint fsat (f : filter_t) (p : props) : bool :=
  match f with
  | FComparison op key s => existsb (λ nv, bool_decide (nv.1 = key) && value_sat op s nv.2) p
  | FPresent key => existsb (λ nv, bool_decide (nv.1 = key)) p
  | FSubstring key i m fin =>
      existsb (λ nv, bool_decide (nv.1 = key) && substring_sat i m fin nv.2) p
  | FNot g => negb (fsat g p)
  | FComposite op gs => if bool_decide (op = AND) then forallb (λ g, fsat g p) gs
                        else existsb (λ g, fsat g p) gs
  end.

(** The same meaning as a proposition, in terms of values and wildcards. *)
Definition value_means (op : ascii) (s : cstr) (v : pvalue) : Prop :=
  (op = EQUAL ∧ value_string v = s) ∨
  (op = GREATER_THAN ∧ ∃ n, v = value_int64 n ∧ ((strtoll s).1 < n)%Z) ∨
  (op = LESS_THAN ∧ ∃ n, v = value_int64 n ∧ (n < (strtoll s).1)%Z).

Fixpoint means (f : filter_t) (p : props) : Prop :=
  match f with
  | FComparison op key s => ∃ v, (key, v) ∈ p ∧ value_means op s v
  | FPresent key => ∃ v, (key, v) ∈ p
  | FSubstring key i m fin => ∃ v, (key, value_str v) ∈ p ∧ glob i m fin v
  | FNot g => ¬ means g p
  | FComposite op gs => if bool_decide (op = AND) then foldr (λ g P, means g p ∧ P) True gs
                        else foldr (λ g P, means g p ∨ P) False gs
  end.

(** Filters whose strings are C strings. *)
Fixpoint strings_ok (f : filter_t) : Prop :=
  match f with
  | FComparison op key s => nul_free key ∧ nul_free s
  | FPresent key => nul_free key
  | FSubstring key i m fin =>
      nul_free key ∧ nul_free (default [] i) ∧ Forall nul_free (default [] m) ∧
      nul_free (default [] fin)
  | FNot g => strings_ok g
  | FComposite _ gs => foldr (λ g P, strings_ok g ∧ P) True gs
  end.

(** Filters whose substring patterns have no part to be searched for behind
    an intermediate value. *)
Fixpoint simple (f : filter_t) : Prop :=
  match f with
  | FSubstring _ _ m fin =>
      match default [] m with
      | [] => True
      | [_] => fin = None
      | _ => False
      end
  | FNot g => simple g
  | FComposite _ gs => foldr (λ g P, simple g ∧ P) True gs
  | _ => True
  end.

(** ** Induction over filters *)

Section filter_ind.
Context (P : filter_t → Prop).
Context (Hcmp : ∀ op key s, P (FComparison op key s)).
Context (Hpres : ∀ key, P (FPresent key)).
Context (Hsub : ∀ key i m fin, P (FSubstring key i m fin)).
Context (Hnot : ∀ g, P g → P (FNot g)).
Context (Hcomp : ∀ op gs, Forall P gs → P (FComposite op gs)).

Fixpoint filter_nested_ind (f : filter_t) : P f :=
  match f with
  | FComparison op key s => Hcmp op key s
  | FPresent key => Hpres key
  | FSubstring key i m fin => Hsub key i m fin
  | FNot g => Hnot g (filter_nested_ind g)
  | FComposite op gs =>
      Hcomp op gs ((fix go gs : Forall P gs :=
        match gs with
        | [] => Forall_nil_2 P
        | g :: gs' => Forall_cons_2 P g gs' (filter_nested_ind g) (go gs')
        end) gs)
  end.
End filter_ind.

Lemma filter_clone_id f : filter_clone f = f.
Proof.
  induction f as [| | |g IH|op gs IH] using filter_nested_ind; simpl; try done.
  - unfold not_clone. by rewrite IH.
  - unfold composite_clone. f_equal. induction IH as [|g gs Hg _ IH]; simpl; [done|]. by rewrite Hg, IH.
Qed.

Lemma map_filter_clone_id gs : map filter_clone gs = gs.
Proof. induction gs as [|g gs IH]; simpl; [done|]. by rewrite filter_clone_id, IH. Qed.

Lemma foldr_and_Forall {A} (P : A → Prop) l :
  foldr (λ x Q, P x ∧ Q) True l ↔ Forall P l.
Proof.
  induction l as [|x l IH]; simpl; [by split; [constructor|]|].
  rewrite Forall_cons, IH. done.
Qed.

(** ** Searching the properties *)

(** When the callback decides [sat] for each pair, the search decides whether
    some pair satisfies it. *)
Lemma search_existsb p cb (sat : cstr * pvalue → bool) :
  Forall (λ nv, cb nv.1 nv.2 false = Ok (negb (sat nv), sat nv)) p →
  search p cb = Ok (existsb sat p).
Proof.
  unfold search, props_foreach. intros Hp.
  cut (∃ u, mwhile (λ nv, cb nv.1 nv.2) p false = Ok (u, existsb sat p)).
  { by intros [u ->]. }
  induction Hp as [|[n v] p Hnv _ IH]; simpl; [by eexists|].
  unfold mbind, M_bind. simpl in Hnv. rewrite Hnv.
  destruct (sat (n, v)); simpl; [by eexists|]. apply IH.
Qed.

Lemma comparison_matches_spec op key s p :
  nul_free key → nul_free s → props_ok p →
  comparison_matches op key s p =
  Ok (existsb (λ nv, bool_decide (nv.1 = key) && value_sat op s nv.2) p).
Proof.
  intros Hkey Hs Hp. apply search_existsb.
  eapply Forall_impl; [exact Hp|]. intros [n v] [Hn Hv]. simpl in *.
  unfold comparison_matches_cb, value_sat. case_bool_decide as E1.
  - rewrite strcmp_eq in E1 by done.
    by rewrite (bool_decide_eq_false_2 (n = key)) by congruence.
  - apply strcmp_eq in E1 as <-; [|done..].
    rewrite (bool_decide_eq_true_2 (key = key)) by done. simpl. case_bool_decide as E2.
    + assert (Hvs : nul_free (value_string v)).
      { destruct v as [z|t]; simpl in *; [by apply print_int64_nul_free|done]. }
      assert (Ev : bool_decide (strcmp (value_string v) s = 0)%Z =
                   bool_decide (value_string v = s)).
      { apply bool_decide_ext. by apply strcmp_eq. }
      destruct v as [z|t]; simpl in *; rewrite Ev; by destruct (bool_decide (_ = s)).
    + destruct v as [z|t]; simpl; [|done].
      destruct (bool_decide (op = GREATER_THAN) && _); simpl; [done|].
      by destruct (bool_decide (op = LESS_THAN) && _).
Qed.

Lemma present_matches_spec key p : nul_free key → props_ok p →
  present_matches key p = Ok (existsb (λ nv, bool_decide (nv.1 = key)) p).
Proof.
  intros Hkey Hp. unfold present_matches. f_equal.
  induction Hp as [|[n v] p [Hn Hv] _ IH]; simpl in *; [done|].
  rewrite streq_decide by done. by case_bool_decide.
Qed.

(** ** Wildcards *)

Lemma glob_rest_extend ivs fin x v : glob_rest ivs fin v → glob_rest ivs fin (x ++ v).
Proof.
  destruct ivs as [|iv ivs]; simpl.
  - intros [a ->]. exists (x ++ a). by rewrite app_assoc.
  - intros (a & r & -> & Hr). exists (x ++ a), r. by rewrite <-app_assoc.
Qed.

(** Matching leftmost first decides the pattern. *)
Lemma glob_rest_b_spec ivs fin v : glob_rest_b ivs fin v = true ↔ glob_rest ivs fin v.
Proof.
  revert v. induction ivs as [|iv ivs IH]; intros v; simpl.
  - by rewrite bool_decide_eq_true.
  - split.
    + destruct (strstr v iv) as [i|] eqn:E; [|done].
      apply strstr_Some in E as (k & Hk & Hi). intros Hr%IH.
      exists (take i v), k. split; [done|].
      rewrite Hk, app_assoc, drop_app_length_eq in Hr; [done|].
      rewrite length_app, length_take. lia.
    + intros (a & r & -> & Hr). destruct (strstr_min a iv r) as (i & E & Hi).
      rewrite E. apply IH.
      assert (Hd : drop (i + length iv) (a ++ iv ++ r) =
                   drop (i + length iv) (a ++ iv) ++ r).
      { rewrite app_assoc, drop_app_le; [done|]. rewrite length_app. lia. }
      rewrite Hd. by apply glob_rest_extend.
Qed.

Lemma glob_b_spec i m fin v : glob_b i m fin v = true ↔ glob i m fin v.
Proof.
  unfold glob_b, glob. rewrite andb_true_iff, bool_decide_eq_true, glob_rest_b_spec.
  split.
  - intros [[r ->] Hr]. exists r. rewrite drop_app_length in Hr. done.
  - intros (r & -> & Hr). split; [by exists r|]. by rewrite drop_app_length.
Qed.

(** The value is small enough for its offsets not to wrap around. *)
Definition fits (v : pvalue) : Prop :=
  match v with value_str s => (Z.of_nat (length s) < 2 ^ 63)%Z | _ => True end.

#[export] Instance fits_dec v : Decision (fits v).
Proof. destruct v; apply _. Defined.

Lemma cstr_from_Ok v n : n ≤ length v → cstr_from v (Z.of_nat n) = Ok (drop n v).
Proof.
  intros H. unfold cstr_from, strlen. rewrite bool_decide_eq_true_2 by lia.
  by rewrite Nat2Z.id.
Qed.

(** The tests behind the loop are right wherever the offset is. *)
Lemma final_matches_spec v fin n : n ≤ length v → (Z.of_nat (length v) < 2 ^ 63)%Z →
  nul_free v → nul_free (default [] fin) →
  final_matches v fin (Z.of_nat n) = Ok (glob_rest_b [] (default [] fin) (drop n v)).
Proof.
  intros Hn Hfit Hv Hf. destruct fin as [fin|]; simpl.
  - rewrite cstr_from_Ok by done. simpl. unfold strlen. rewrite length_drop.
    case_bool_decide as Hlt.
    + rewrite bool_decide_eq_false_2; [done|]. intros H%suffix_length.
      rewrite length_drop in H. lia.
    + rewrite u64_small by lia. rewrite <-Nat2Z.inj_add.
      replace (n + (length v - n - length fin)) with (length v - length fin) by lia.
      rewrite cstr_from_Ok by lia. simpl. f_equal. apply bool_decide_ext.
      assert (Hd : drop (length v - length fin) v =
                   drop (length v - n - length fin) (drop n v)).
      { rewrite drop_drop. f_equal. lia. }
      rewrite strcmp_eq; [|done|].
      2: { intros Hin. apply Hv. rewrite <-(take_drop (length v - length fin) v).
           apply elem_of_app. by right. }
      rewrite Hd. set (w := drop n v).
      assert (Hw : length w = length v - n) by apply length_drop. split.
      * intros ->. exists (take (length v - n - length fin) w). by rewrite take_drop.
      * intros [a Ha]. rewrite Ha in Hw |- *. rewrite length_app in Hw.
        rewrite drop_app_length_eq; [done|]. lia.
  - done.
Qed.

Definition simple_substring (m : option (list cstr)) (fin : option cstr) : Prop :=
  match default [] m with [] => True | [_] => fin = None | _ => False end.

Lemma value_matches_substring_spec i m fin v :
  nul_free v → (Z.of_nat (length v) < 2 ^ 63)%Z →
  nul_free (default [] i) → nul_free (default [] fin) → simple_substring m fin →
  value_matches_substring i m fin v = Ok (glob_b i m fin v).
Proof.
  intros Hv Hfit Hi Hf Hs. unfold value_matches_substring, glob_b.
  assert (Hini : (match i with Some s => bool_decide (strncmp s v (strlen s) = 0)%Z
                  | None => true end) = bool_decide (default [] i `prefix_of` v)).
  { destruct i as [s|]; simpl.
    - apply bool_decide_ext. by apply strncmp_prefix.
    - done. }
  assert (Hoff : (match i with Some s => Z.of_nat (strlen s) | None => 0%Z end) =
                 Z.of_nat (length (default [] i))) by (by destruct i).
  rewrite Hini, Hoff. clear Hini Hoff. case_bool_decide as Hp; simpl; [|done].
  apply prefix_length in Hp.
  unfold simple_substring in Hs. destruct (default [] m) as [|iv [|iv' ivs]] eqn:Em.
  - assert (E : (match m with
                 | Some ivs => intermediates_loop v ivs (Z.of_nat (length (default [] i)))
                 | None => Ok (Some (Z.of_nat (length (default [] i)))) end)
                = Ok (Some (Z.of_nat (length (default [] i))))).
    { destruct m as [m|]; simpl in *; [by subst|done]. }
    rewrite E. simpl. by apply final_matches_spec.
  - destruct m as [m|]; [|done]. simpl in Em. subst. simpl.
    rewrite cstr_from_Ok by done. simpl.
    by destruct (strstr _ iv) as [k|].
  - done.
Qed.

Lemma substring_matches_spec key i m fin p :
  nul_free key → nul_free (default [] i) → nul_free (default [] fin) →
  simple_substring m fin → props_ok p → Forall (λ nv, fits nv.2) p →
  substring_matches key i m fin p =
  Ok (existsb (λ nv, bool_decide (nv.1 = key) && substring_sat i m fin nv.2) p).
Proof.
  intros Hkey Hi Hf Hs Hp Hfit. apply search_existsb.
  rewrite Forall_forall in Hfit. unfold props_ok in Hp. rewrite Forall_forall in Hp |- *.
  intros [n v] Hin. destruct (Hp _ Hin) as [Hn Hv]. specialize (Hfit _ Hin). simpl in *.
  unfold substring_matches_cb. case_bool_decide as E1.
  - rewrite strcmp_eq in E1 by done. by rewrite bool_decide_eq_false_2.
  - apply strcmp_eq in E1 as ->; [|done..]. rewrite bool_decide_eq_true_2 by done.
    destruct v as [z|t]; simpl in *; [done|].
    rewrite value_matches_substring_spec by done. simpl. by destruct (glob_b i m fin t).
Qed.

(** ** Composite filters *)

Lemma and_matches_spec (bs : list bool) :
  and_matches (Ok <$> bs) = Ok (forallb (λ b, b) bs).
Proof. induction bs as [|[] bs IH]; csimpl; auto. Qed.

Lemma or_matches_spec (bs : list bool) :
  or_matches (Ok <$> bs) = Ok (existsb (λ b, b) bs).
Proof. induction bs as [|[] bs IH]; csimpl; auto. Qed.

Lemma map_matches gs p :
  Forall (λ g, filter_matches g p = Ok (fsat g p)) gs →
  map (λ g, filter_matches g p) gs = Ok <$> map (λ g, fsat g p) gs.
Proof. induction 1 as [|g gs Hg _ IH]; csimpl; [done|]. by rewrite Hg, IH. Qed.

Lemma forallb_map_id {A} (f : A → bool) l : forallb (λ b, b) (map f l) = forallb f l.
Proof. induction l as [|x l IH]; simpl; [done|]. by rewrite IH. Qed.

Lemma existsb_map_id {A} (f : A → bool) l : existsb (λ b, b) (map f l) = existsb f l.
Proof. induction l as [|x l IH]; simpl; [done|]. by rewrite IH. Qed.

(** ** The two forms of the meaning *)

Lemma value_sat_means op s v : value_sat op s v = true ↔ value_means op s v.
Proof.
  unfold value_sat, value_means. case_bool_decide as E.
  - rewrite bool_decide_eq_true. subst. naive_solver.
  - destruct v as [n|t]; [|naive_solver].
    rewrite orb_true_iff, !andb_true_iff, !bool_decide_eq_true. naive_solver.
Qed.

Lemma existsb_elem {A} (f : A → bool) l : existsb f l = true ↔ ∃ x, x ∈ l ∧ f x = true.
Proof.
  rewrite existsb_exists. split; intros (x & H1 & H2); exists x; (split; [|done]);
    by apply list_elem_of_In.
Qed.

Lemma existsb_key (key : cstr) (g : pvalue → bool) (p : props) :
  existsb (λ nv, bool_decide (nv.1 = key) && g nv.2) p = true ↔
  ∃ v, (key, v) ∈ p ∧ g v = true.
Proof.
  rewrite existsb_elem. split.
  - intros ([n v] & Hin & [E%bool_decide_eq_true Hg]%andb_true_iff). simpl in *. subst.
    by exists v.
  - intros (v & Hin & Hg). exists (key, v). split; [done|]. simpl.
    by rewrite bool_decide_eq_true_2.
Qed.

Lemma fsat_means f p : fsat f p = true ↔ means f p.
Proof.
  induction f as [op key s|key|key i m fin|g IH|op gs IH] using filter_nested_ind; simpl.
  - rewrite existsb_key. by setoid_rewrite value_sat_means.
  - rewrite existsb_elem. split.
    + intros ([n v] & Hin & E%bool_decide_eq_true). simpl in E. subst. by exists v.
    + intros [v Hin]. exists (key, v). split; [done|]. by apply bool_decide_eq_true.
  - rewrite existsb_key. split.
    + intros ([z|v] & Hin & Hv); [done|]. exists v. split; [done|]. by apply glob_b_spec.
    + intros (v & Hin & Hv). exists (value_str v). split; [done|]. by apply glob_b_spec.
  - rewrite <-IH. by destruct (fsat g p).
  - case_bool_decide.
    + induction IH as [|g gs Hg _ IHgs]; simpl; [done|]. by rewrite andb_true_iff, Hg, IHgs.
    + induction IH as [|g gs Hg _ IHgs]; simpl; [done|]. by rewrite orb_true_iff, Hg, IHgs.
Qed.

(** ** Properties *)

Lemma filter_matches_fsat (f : filter_t) (p : props) :
  simple f → strings_ok f → props_ok p → Forall (λ nv, fits nv.2) p →
  filter_matches f p = Ok (fsat f p).
Proof.
  intros Hs Hf Hp Hfit. revert Hs Hf.
  induction f as [op key s|key|key i m fin|g IH|op gs IH] using filter_nested_ind;
    simpl; intros Hs Hf.
  - destruct Hf. by apply comparison_matches_spec.
  - by apply present_matches_spec.
  - destruct Hf as (? & ? & ? & ?). by apply substring_matches_spec.
  - unfold not_matches. by rewrite IH.
  - unfold composite_matches. apply foldr_and_Forall in Hs, Hf.
    assert (Hall : Forall (λ g, filter_matches g p = Ok (fsat g p)) gs).
    { rewrite Forall_forall in IH, Hs, Hf |- *. auto. }
    rewrite map_matches by done. case_bool_decide.
    + by rewrite and_matches_spec, forallb_map_id.
    + by rewrite or_matches_spec, existsb_map_id.
Qed.

(** C35: matching decides the meaning of the filter: for a filter whose
    substring patterns search for nothing behind an intermediate value, and
    any well-formed property set, [filter_matches] neither fails an assertion
    nor reads out of bounds, and returns true exactly when the filter holds of
    the properties (some value of the key compares, is present, or consists of
    the initial part, the intermediate parts in order with anything between
    them and the final part; negation, conjunction, disjunction). *)
Theorem filter_matches_correct (f : filter_t) (p : props) :
  simple f → strings_ok f → props_ok p → Forall (λ nv, fits nv.2) p →
  ∃ b, filter_matches f p = Ok b ∧ (b = true ↔ means f p).
Proof.
  intros. exists (fsat f p). split; [by apply filter_matches_fsat|apply fsat_means].
Qed.

Lemma filter_matches_correct_witness :
  means
    (FComposite AND [FSubstring (C "key") (Some (C "v")) None (Some (C "e"));
                     FNot (FComparison GREATER_THAN (C "n") (C "41"))])
    [(C "key", value_str (C "value")); (C "n", value_int64 41)].
Proof.
  destruct (filter_matches_correct
    (FComposite AND [FSubstring (C "key") (Some (C "v")) None (Some (C "e"));
                     FNot (FComparison GREATER_THAN (C "n") (C "41"))])
    [(C "key", value_str (C "value")); (C "n", value_int64 41)]) as (b & E & Hb).
  - simpl. done.
  - simpl. split_and!; apply (bool_decide_eq_true_1 _); reflexivity.
  - apply (bool_decide_eq_true_1 _). reflexivity.
  - apply (bool_decide_eq_true_1 _). reflexivity.
  - apply Hb. vm_compute in E. congruence.
Defined.

(** ** Two intermediate values *)

Lemma substring_matches_one key i m fin v : nul_free key →
  substring_matches key i m fin [(key, value_str v)] = value_matches_substring i m fin v.
Proof.
  intros Hk. unfold substring_matches, search, props_foreach. cbn [mwhile].
  unfold mbind, M_bind, substring_matches_cb. simpl fst. simpl snd.
  rewrite bool_decide_eq_false_2.
  2: { intros Hne. apply Hne. by apply strcmp_eq. }
  cbn [pvalue_is_str negb pvalue_str mbind outcome_bind].
  by destruct (value_matches_substring i m fin v) as [[]|].
Qed.

(** Where the second search begins, when the first value was found at [pos]. *)
Lemma second_search v a b pos : pos + length a ≤ length v → (Z.of_nat (length v) < 2 ^ 63)%Z →
  intermediates_loop v [b] (u64 ((0 - Z.of_nat pos) + Z.of_nat (strlen a))) =
  if decide (pos ≤ length a)
  then Ok ((λ k, u64 ((0 - (Z.of_nat (length a - pos) + Z.of_nat k)) + Z.of_nat (strlen b))) <$>
             strstr (drop (length a - pos) v) b)
  else Fail Undefined.
Proof.
  intros Hpos Hfit. unfold strlen. cbn [intermediates_loop]. case_decide as Hle.
  - replace (u64 _) with (Z.of_nat (length a - pos)) by (rewrite u64_small; lia).
    rewrite cstr_from_Ok by lia. cbn [mbind outcome_bind]. by destruct (strstr _ b).
  - assert (Hu : (Z.of_nat (length v) < u64 (0 - Z.of_nat pos + Z.of_nat (length a)))%Z).
    { unfold u64. rewrite <-(Z_mod_plus_full _ 1), Z.mod_small by lia. lia. }
    unfold cstr_from, strlen. by rewrite bool_decide_eq_false_2 by lia.
Qed.

(** C36: how a pattern with two intermediate values is matched, and how it should
    be.  When the first value is found at [pos], the code searches for the
    second one from the difference of the length of the first and [pos], where it
    should go on behind the first one, at their sum: a difference is computed
    with the wrong sign.  If [pos] is greater than the length, the second search
    is outside the value, which is undefined behaviour, whatever it searches for;
    otherwise it begins too early, unless [pos] is zero, and finds values that
    overlap the first one or lie before it. *)
Theorem substring_matches_wrong key i a b v k : nul_free key → nul_free (default [] i) → nul_free v →
  (Z.of_nat (length v) < 2 ^ 63)%Z → default [] i `prefix_of` v →
  strstr (drop (length (default [] i)) v) a = Some k →
  let pos := length (default [] i) + k in
  let f := FSubstring key i (Some [a; b]) None in
  let p := [(key, value_str v)] in
  filter_matches f p =
    (if decide (pos ≤ length a)
     then Ok (bool_decide (is_Some (strstr (drop (length a - pos) v) b)))
     else Fail Undefined) ∧
  (means f p ↔ is_Some (strstr (drop (pos + length a) v) b)).
Proof.
  intros Hk Hi Hv Hfit Hp Ha pos f p. pose proof (prefix_length _ _ Hp) as Hlen.
  assert (Hpos : pos + length a ≤ length v).
  { apply strstr_Some in Ha as (r & Ha & Hkl). apply (f_equal length) in Ha.
    rewrite length_drop in Hkl. rewrite !length_app, length_take, length_drop in Ha. unfold pos. lia. }
  split.
  - unfold f, p. cbn [filter_matches]. rewrite substring_matches_one by done.
    unfold value_matches_substring.
    assert (Hini : (match i with Some s => bool_decide (strncmp s v (strlen s) = 0)%Z
                    | None => true end) = true).
    { destruct i as [s|]; [|done]. apply bool_decide_eq_true. by apply strncmp_prefix. }
    assert (Hoff : (match i with Some s => Z.of_nat (strlen s) | None => 0%Z end) =
                   Z.of_nat (length (default [] i))) by (by destruct i).
    rewrite Hini, Hoff. cbn [negb]. remember [b] as bs eqn:Ebs. cbn [intermediates_loop].
    rewrite cstr_from_Ok by done. cbn [mbind outcome_bind]. rewrite Ha, <-Nat2Z.inj_add. fold pos. subst bs.
    rewrite second_search by done. case_decide; [|done]. cbn [mbind outcome_bind].
    by destruct (strstr _ b).
  - rewrite <-fsat_means. unfold f, p. cbn [fsat existsb fst snd]. rewrite bool_decide_eq_true_2 by done.
    cbn [substring_sat andb]. rewrite orb_false_r. unfold glob_b. rewrite bool_decide_eq_true_2 by done.
    change (default [] (Some [a; b])) with [a; b]. change (default [] None) with ([] : cstr).
    cbn [glob_rest_b andb]. rewrite Ha, drop_drop.
    replace (length (default [] i) + (k + length a)) with (pos + length a) by (unfold pos; lia).
    destruct (strstr _ b) as [j|] eqn:Eb; [|split; [done|by intros []]].
    split; [by eexists|]. intros _. apply bool_decide_eq_true. exists (drop (j + length b) (drop (pos + length a) v)).
    by rewrite app_nil_r.
Qed.

(** A single [b] matches the pattern that asks for two, and the value [aac] makes
    the second search of another pattern start outside it. *)
Lemma substring_matches_wrong_witness :
  (let f := FSubstring (C "k") None (Some [C "b"; C "b"]) None in
   let p := [(C "k", value_str (C "ab"))] in
   filter_matches f p = Ok true ∧ ¬ means f p) ∧
  filter_matches (FSubstring (C "k") None (Some [C "c"; C "a"]) None)
    [(C "k", value_str (C "aac"))] = Fail Undefined.
Proof.
  split.
  - destruct (substring_matches_wrong (C "k") None (C "b") (C "b") (C "ab") 1) as [E Hm];
      [apply (bool_decide_eq_true_1 _); reflexivity..|reflexivity|by exists (C "ab")|reflexivity|].
    split; [rewrite E; vm_compute; reflexivity|]. rewrite Hm. vm_compute. by intros [].
  - destruct (substring_matches_wrong (C "k") None (C "c") (C "a") (C "aac") 2) as [E _];
      [apply (bool_decide_eq_true_1 _); reflexivity..|reflexivity|by exists (C "aac")|reflexivity|].
    rewrite E. vm_compute. reflexivity.
Defined.
