(* ===== verification/FilterParse.v ===== *)
(** * The filter parser (src/sd/filter.c, from [struct input] on)

    A recursive descent parser over a string and an offset, as computations in
    the input state.  The loops run on fuel, the number of characters left;
    [filter_parse_total] shows that the fuel never runs out. *)

From S2P Require Import Prelude CLib Mem Pvalue Props Filter.

Record input := Input {
  data : cstr;
  offset : nat
}.

(** [data[offset]]; the string ends in NUL. *)
Definition char_at (inp : input) : outcome ascii :=
  if bool_decide (offset inp ≤ length (data inp))
  then Ok (default NUL (data inp !! offset inp))
  else Fail Undefined.

Definition advance (inp : input) : input := Input (data inp) (offset inp + 1).

(** [None] is the return value -1. *)
Definition input_current : M input (option ascii) := λ inp,
  c ← char_at inp;
  if decide (c = NUL) then Ok (None, inp) else Ok (Some c, inp).

Definition input_is_current (expected : ascii) : M input Z :=
  actual ← input_current;
  mret (match actual with
        | None => (-1)%Z
        | Some c => if decide (c = expected) then 1%Z else 0%Z
        end).

Definition input_expect (expected : ascii) : M input Z :=
  rc ← input_is_current expected;
  if bool_decide (rc < 0)%Z then mret (-1)%Z
  else _ ← modify advance; mret 0%Z.

Definition input_skip : M input Z := λ inp,
  next ← char_at inp;
  if decide (next = NUL) then Ok ((-1)%Z, inp) else Ok (0%Z, advance inp).

Definition input_left : M input nat := λ inp,
  _ ← char_at inp; Ok (strlen (drop (offset inp) (data inp)), inp).

(** Fuel for a loop that consumes a character in every iteration. *)
Definition fuel_left (inp : input) : nat := S (length (data inp) - offset inp).

Fixpoint parse_str_loop (fuel : nat) (escaped : bool) (result : cstr)
    : M input (option cstr) :=
  match fuel with
  | O => fault_with OutOfFuel
  | S fuel' =>
      current ← input_current;
      match current with
      | None => mret None
      | Some c =>
          let special := is_special c in
          if escaped then
            if negb special then mret None
            else
              rc ← input_skip;
              if bool_decide (rc < 0)%Z then mret None
              else parse_str_loop fuel' false (append_c result c)
          else
            if decide (c = ESCAPE) then
              rc ← input_skip;
              if bool_decide (rc < 0)%Z then mret None
              else parse_str_loop fuel' true result
            else if special then mret (Some result)
            else
              rc ← input_skip;
              if bool_decide (rc < 0)%Z then mret None
              else parse_str_loop fuel' false (append_c result c)
      end
  end.

Definition parse_str : M input (option cstr) := λ inp,
  parse_str_loop (fuel_left inp) false [] inp.

Definition parse_int : M input (option Z) :=
  value_s ← parse_str;
  mret (match value_s with
        | None => None
        | Some s =>
            match s with
            | [] => None
            | c :: _ =>
                if isspace c then None
                else let '(value, endptr) := strtoll s in
                     match endptr with [] => Some value | _ => None end
            end
        end).

(** The loop of [parse_substring_and_present].  The result is [None] for the
    jumps to [out] with no filter, or the intermediate values and the final
    value with which the loop is left by [break]. *)
Fixpoint substring_loop (fuel : nat) (intermediate : option (list cstr))
    : M input (option (option (list cstr) * option cstr)) :=
  match fuel with
  | O => fault_with OutOfFuel
  | S fuel' =>
      next_value ← parse_str;
      match next_value with
      | None => mret None
      | Some next_value =>
          is_any ← input_is_current ANY;
          if bool_decide (is_any < 0)%Z then mret None
          else if bool_decide (is_any ≠ 0)%Z then
            let intermediate := default [] intermediate in
            if bool_decide (strlen next_value = 0) then mret None
            else
              _ ← input_skip;
              substring_loop fuel' (Some (intermediate ++ [next_value]))
          else
            mret (Some (intermediate,
                        if bool_decide (0 < strlen next_value) then Some next_value
                        else None))
      end
  end.

Definition parse_substring_and_present (key first_part_value : cstr)
    : M input (option filter_t) := λ inp,
  let initial := if bool_decide (0 < strlen first_part_value)
                 then Some first_part_value else None in
  '(r, inp') ← substring_loop (fuel_left inp) None inp;
  Ok (match r with
      | None => None
      | Some (intermediate, final) =>
          match initial, intermediate, final with
          | None, None, None => Some (present_create key)
          | _, _, _ => Some (substring_create key initial intermediate final)
          end
      end, inp').

Definition parse_equal (key : cstr) : M input (option filter_t) :=
  rc ← input_expect EQUAL;
  if bool_decide (rc < 0)%Z then mret None
  else
    value ← parse_str;
    match value with
    | None => mret None
    | Some value =>
        is_any ← input_is_current ANY;
        if bool_decide (is_any < 0)%Z then mret None
        else if bool_decide (is_any ≠ 0)%Z then
          _ ← input_skip;
          parse_substring_and_present key value
        else mret (Some (equal_create key value))
    end.

Definition parse_greater_and_less_than (key : cstr) (op : ascii)
    (create : cstr → Z → filter_t) : M input (option filter_t) :=
  rc ← input_expect op;
  if bool_decide (rc < 0)%Z then mret None
  else
    value ← parse_int;
    mret (match value with None => None | Some value => Some (create key value) end).

Definition parse_simple : M input (option filter_t) :=
  key ← parse_str;
  match key with
  | None => mret None
  | Some key =>
      if bool_decide (strlen key = 0) then mret None
      else
        current ← input_current;
        match current with
        | None => mret None
        | Some c =>
            if decide (c = EQUAL) then parse_equal key
            else if decide (c = GREATER_THAN) then
              parse_greater_and_less_than key GREATER_THAN greater_than_create
            else if decide (c = LESS_THAN) then
              parse_greater_and_less_than key LESS_THAN less_than_create
            else mret None
        end
  end.

Section recursive.
(** The recursive call. *)
Context (parse : M input (option filter_t)).

Definition parse_not : M input (option filter_t) :=
  rc ← input_expect NOT;
  if bool_decide (rc < 0)%Z then mret None
  else
    rc ← input_expect BEGIN_EXPR;
    if bool_decide (rc < 0)%Z then mret None
    else
      operand ← parse;
      match operand with
      | None => mret None
      | Some operand =>
          rc ← input_expect END_EXPR;
          mret (if bool_decide (rc < 0)%Z then None else Some (not_create operand))
      end.

Fixpoint composite_loop (create : list filter_t → filter_t) (fuel : nat)
    (operands : list filter_t) : M input (option filter_t) :=
  match fuel with
  | O => fault_with OutOfFuel
  | S fuel' =>
      current ← input_current;
      match current with
      | None => mret None
      | Some c =>
          if decide (c = BEGIN_EXPR) then
            rc ← input_skip;
            if bool_decide (rc < 0)%Z then mret None
            else
              operand ← parse;
              match operand with
              | None => mret None
              | Some operand =>
                  let operands := operands ++ [filter_clone operand] in
                  rc ← input_expect END_EXPR;
                  if bool_decide (rc < 0)%Z then mret None
                  else composite_loop create fuel' operands
              end
          else if decide (c = END_EXPR) then
            mret (if bool_decide (length operands < 2) then None
                  else Some (create operands))
          else mret None
      end
  end.

Definition parse_composite (op : ascii) (create : list filter_t → filter_t)
    (fuel : nat) : M input (option filter_t) :=
  _ ← input_expect op;
  composite_loop create fuel [].
End recursive.

Fixpoint parse (fuel : nat) : M input (option filter_t) :=
  match fuel with
  | O => fault_with OutOfFuel
  | S fuel' =>
      current ← input_current;
      match current with
      | None => mret None
      | Some c =>
          if decide (c = AND) then parse_composite (parse fuel') AND and_create fuel'
          else if decide (c = OR) then parse_composite (parse fuel') OR or_create fuel'
          else if decide (c = NOT) then parse_not (parse fuel')
          else parse_simple
      end
  end.

Definition filter_parse (s : cstr) : outcome (option filter_t) :=
  '(r, _) ← (
    rc ← input_expect BEGIN_EXPR;
    if bool_decide (rc < 0)%Z then mret None
    else
      filter ← parse (S (strlen s));
      match filter with
      | None => mret None
      | Some filter =>
          rc ← input_expect END_EXPR;
          if bool_decide (rc < 0)%Z then mret None
          else
            left ← input_left;
            mret (if bool_decide (0 < left) then None else Some filter)
      end) (Input s 0);
  Ok r.

Definition filter_is_valid (s : cstr) : outcome bool :=
  filter ← filter_parse s;
  Ok (match filter with Some _ => true | None => false end).

(** ** Positions

    [at_ pre s] is the input of which [pre] is read and [s] is left. *)

Definition at_ (pre s : cstr) : input := Input (pre ++ s) (length pre).

Lemma char_at_nil pre : char_at (at_ pre []) = Ok NUL.
Proof.
  unfold char_at, at_. simpl. rewrite app_nil_r, bool_decide_eq_true_2 by lia.
  by rewrite lookup_ge_None_2 by lia.
Qed.

Lemma char_at_cons pre c s : char_at (at_ pre (c :: s)) = Ok c.
Proof.
  unfold char_at, at_. simpl. rewrite length_app, bool_decide_eq_true_2 by lia.
  by rewrite list_lookup_middle.
Qed.

Lemma advance_at pre c s : advance (at_ pre (c :: s)) = at_ (pre ++ [c]) s.
Proof. unfold advance, at_. simpl. by rewrite length_app, <-app_assoc. Qed.

Lemma input_current_at pre c s : c ≠ NUL →
  input_current (at_ pre (c :: s)) = Ok (Some c, at_ pre (c :: s)).
Proof. intros Hc. unfold input_current. rewrite char_at_cons. simpl. by rewrite decide_False. Qed.

Lemma input_skip_at pre c s : c ≠ NUL →
  input_skip (at_ pre (c :: s)) = Ok (0%Z, at_ (pre ++ [c]) s).
Proof.
  intros Hc. unfold input_skip. rewrite char_at_cons. simpl.
  by rewrite decide_False, advance_at.
Qed.

Lemma input_is_current_at e pre c s : c ≠ NUL →
  input_is_current e (at_ pre (c :: s)) =
  Ok ((if decide (c = e) then 1 else 0)%Z, at_ pre (c :: s)).
Proof. intros Hc. unfold input_is_current. by run_with (input_current_at pre c s Hc). Qed.

(** Whatever character there is, [input_expect] accepts it. *)
Lemma input_expect_at e pre c s : c ≠ NUL →
  input_expect e (at_ pre (c :: s)) = Ok (0%Z, at_ (pre ++ [c]) s).
Proof.
  intros Hc. unfold input_expect. run_with (input_is_current_at e pre c s Hc).
  rewrite bool_decide_eq_false_2 by (case_decide; lia).
  unfold mbind, M_bind, modify, mret, M_ret. by rewrite advance_at.
Qed.

Lemma input_left_at pre s : input_left (at_ pre s) = Ok (length s, at_ pre s).
Proof.
  unfold input_left, at_, char_at. simpl. rewrite length_app, bool_decide_eq_true_2 by lia.
  simpl. by rewrite drop_app_length.
Qed.

Lemma fuel_left_at pre s : fuel_left (at_ pre s) = S (length s).
Proof. unfold fuel_left, at_. simpl. rewrite length_app. lia. Qed.

(** ** Reading back an escaped string *)

Lemma is_special_ESCAPE : is_special ESCAPE = true.
Proof. reflexivity. Qed.

Lemma escape_length s : length s ≤ length (filter_escape s).
Proof.
  induction s as [|c s IH]; simpl; [lia|]. rewrite length_app. simpl. lia.
Qed.

(** A character that ends a string. *)
Definition terminator (c : ascii) : Prop :=
  is_special c = true ∧ c ≠ ESCAPE ∧ c ≠ NUL.

#[export] Instance terminator_dec c : Decision (terminator c).
Proof. unfold terminator. apply _. Defined.

Lemma parse_str_loop_escape s : nul_free s → ∀ fuel acc pre c r,
  terminator c → length (filter_escape s) < fuel →
  parse_str_loop fuel false acc (at_ pre (filter_escape s ++ c :: r)) =
  Ok (Some (acc ++ s), at_ (pre ++ filter_escape s) (c :: r)).
Proof.
  unfold nul_free. induction s as [|x s IH]; intros Hs fuel acc pre c r Hc Hfuel.
  - destruct fuel as [|fuel]; [simpl in Hfuel; lia|]. destruct Hc as (H1 & H2 & H3).
    simpl. run_with (input_current_at pre c r H3).
    rewrite decide_False by done. rewrite H1. by rewrite !app_nil_r.
  - apply not_elem_of_cons in Hs as [Hx Hs]. simpl in Hfuel |- *.
    destruct (is_special x) eqn:Ex; simpl in Hfuel |- *.
    + destruct fuel as [|[|fuel]]; [lia..|]. cbn [parse_str_loop].
      run_with (input_current_at pre ESCAPE (x :: filter_escape s ++ c :: r)
                  ltac:(discriminate)).
      rewrite decide_True by done.
      run_with (input_skip_at pre ESCAPE (x :: filter_escape s ++ c :: r)
                  ltac:(discriminate)).
      rewrite bool_decide_eq_false_2 by lia.
      run_with (input_current_at (pre ++ [ESCAPE]) x (filter_escape s ++ c :: r)
                  (not_eq_sym Hx)).
      rewrite Ex. cbn [negb].
      run_with (input_skip_at (pre ++ [ESCAPE]) x (filter_escape s ++ c :: r)
                  (not_eq_sym Hx)).
      rewrite bool_decide_eq_false_2 by lia. rewrite IH by (done || lia).
      unfold append_c. by rewrite <-!app_assoc.
    + destruct fuel as [|fuel]; [lia|]. cbn [parse_str_loop].
      run_with (input_current_at pre x (filter_escape s ++ c :: r) (not_eq_sym Hx)).
      rewrite decide_False by (intros ->; by rewrite is_special_ESCAPE in Ex).
      rewrite Ex.
      run_with (input_skip_at pre x (filter_escape s ++ c :: r) (not_eq_sym Hx)).
      rewrite bool_decide_eq_false_2 by lia. rewrite IH by (done || lia).
      unfold append_c. by rewrite <-!app_assoc.
Qed.

Lemma parse_str_escape s pre c r : nul_free s → terminator c →
  parse_str (at_ pre (filter_escape s ++ c :: r)) =
  Ok (Some s, at_ (pre ++ filter_escape s) (c :: r)).
Proof.
  intros Hs Hc. unfold parse_str. rewrite fuel_left_at.
  rewrite parse_str_loop_escape; [done|done|done|]. rewrite length_app. lia.
Qed.

Lemma parse_int_print z pre c r : is_int64 z = true → terminator c →
  parse_int (at_ pre (filter_escape (print_int64 z) ++ c :: r)) =
  Ok (Some z, at_ (pre ++ filter_escape (print_int64 z)) (c :: r)).
Proof.
  intros Hz Hc. unfold parse_int.
  run_with (parse_str_escape _ pre c r (print_int64_nul_free z Hz) Hc).
  destruct (print_int64_cons z Hz) as (d & ds & E & Hd).
  pose proof (strtoll_print z Hz) as Hs. rewrite E in Hs |- *. by rewrite Hd, Hs.
Qed.

(** ** Well-formed filters, and what is printed between the parentheses *)

Definition part_ok (s : cstr) : Prop := nul_free s ∧ s ≠ [].

Definition opt_ok (o : option cstr) : Prop :=
  match o with Some s => part_ok s | None => True end.

Fixpoint filter_wf (f : filter_t) : Prop :=
  match f with
  | FComparison op key s =>
      part_ok key ∧ nul_free s ∧
      (op = EQUAL ∨ ((op = GREATER_THAN ∨ op = LESS_THAN) ∧
                     ∃ z, is_int64 z = true ∧ s = print_int64 z))
  | FPresent key => part_ok key
  | FSubstring key i m fin =>
      part_ok key ∧ opt_ok i ∧ opt_ok fin ∧
      match m with Some l => l ≠ [] ∧ Forall part_ok l | None => True end ∧
      (i, m, fin) ≠ (None, None, None)
  | FNot g => filter_wf g
  | FComposite op gs =>
      (op = AND ∨ op = OR) ∧ 2 ≤ length gs ∧ foldr (λ g P, filter_wf g ∧ P) True gs
  end.

Definition opt_str (o : option cstr) : cstr := filter_escape (default [] o).

Definition any_list (l : list cstr) : cstr := concat (map (λ s, filter_escape s ++ [ANY]) l).

Definition body (f : filter_t) : cstr :=
  match f with
  | FComparison op key s => filter_escape key ++ op :: filter_escape s
  | FPresent key => filter_escape key ++ [EQUAL; ANY]
  | FSubstring key i m fin =>
      filter_escape key ++ EQUAL :: opt_str i ++ ANY :: any_list (default [] m) ++ opt_str fin
  | FNot g => NOT :: filter_str g
  | FComposite op gs => op :: concat (map filter_str gs)
  end.

Lemma foldl_any_list l out :
  foldl (λ out s, append_c (append_escaped out s) ANY) out l = out ++ any_list l.
Proof.
  revert out. induction l as [|s l IH]; intros out; simpl; [by rewrite app_nil_r|].
  rewrite IH. unfold append_c, append_escaped, any_list. simpl.
  by rewrite <-!app_assoc.
Qed.

Lemma foldl_filter_str gs out :
  foldl append_filter_str out (map filter_str gs) = out ++ concat (map filter_str gs).
Proof.
  revert out. induction gs as [|g gs IH]; intros out; simpl; [by rewrite app_nil_r|].
  unfold append_filter_str at 2. by rewrite IH, <-app_assoc.
Qed.

Lemma append_opt o out :
  (match o with Some s => append_escaped out s | None => out end) = out ++ opt_str o.
Proof. destruct o; [done|]. unfold opt_str. simpl. by rewrite app_nil_r. Qed.

Lemma append_intermediate m out :
  (match m with
   | Some l => foldl (λ out s, append_c (append_escaped out s) ANY) out l
   | None => out
   end) = out ++ any_list (default [] m).
Proof. destruct m; [apply foldl_any_list|]. simpl. by rewrite app_nil_r. Qed.

Lemma filter_str_body f : filter_str f = BEGIN_EXPR :: body f ++ [END_EXPR].
Proof.
  destruct f as [op key s|key|key i m fin|g|op gs]; simpl.
  - unfold comparison_str, append_c, append_escaped. simpl. by rewrite <-!app_assoc.
  - unfold present_str, append_c, append_escaped. simpl. by rewrite <-!app_assoc.
  - unfold substring_str. cbn zeta. rewrite !append_opt, append_intermediate.
    unfold append_c, append_escaped. by app_norm.
  - done.
  - unfold composite_str, append_c. rewrite foldl_filter_str. simpl. done.
Qed.

Lemma terminators : terminator END_EXPR ∧ terminator ANY ∧ terminator EQUAL ∧
  terminator GREATER_THAN ∧ terminator LESS_THAN.
Proof. split_and!; apply (bool_decide_eq_true_1 _); reflexivity. Qed.

Lemma escape_cons_inv s : s ≠ [] → nul_free s →
  ∃ c r, filter_escape s = c :: r ∧ c ≠ NUL ∧ c ≠ AND ∧ c ≠ OR ∧ c ≠ NOT.
Proof.
  destruct s as [|c s]; [done|]. intros _ [Hc _]%not_elem_of_cons. simpl.
  destruct (is_special c) eqn:E; simpl.
  - by eexists _, _.
  - eexists _, _. split; [done|].
    split_and!; intros ->; [congruence|by vm_compute in E..].
Qed.

(** ** Parsing what was printed *)

Lemma substring_loop_print l : Forall part_ok l → ∀ fin acc fuel pre r,
  opt_ok fin → length l < fuel →
  substring_loop fuel acc (at_ pre (any_list l ++ opt_str fin ++ END_EXPR :: r)) =
  Ok (Some (match l with [] => acc | _ => Some (default [] acc ++ l) end, fin),
      at_ (pre ++ any_list l ++ opt_str fin) (END_EXPR :: r)).
Proof.
  destruct terminators as (Tend & Tany & _).
  induction 1 as [|s l [Hs Hne] Hl IH]; intros fin acc fuel pre r Hfin Hfuel.
  - destruct fuel as [|fuel]; [simpl in Hfuel; lia|]. cbn [substring_loop].
    unfold opt_str. assert (Hnf : nul_free (default [] fin)).
    { destruct fin as [fin|]; [by destruct Hfin|]. apply not_elem_of_nil. }
    run_with (parse_str_escape (default [] fin) pre END_EXPR r Hnf Tend).
    run_with (input_is_current_at ANY (pre ++ filter_escape (default [] fin)) END_EXPR r
                ltac:(discriminate)).
    simpl. unfold mret, M_ret. do 3 f_equal.
    destruct fin as [[|c fin]|]; simpl; [by destruct Hfin|done|done].
  - destruct fuel as [|fuel]; [simpl in Hfuel; lia|]. cbn [substring_loop].
    unfold any_list. simpl. rewrite <-!app_assoc. simpl. fold (any_list l).
    run_with (parse_str_escape s pre ANY (any_list l ++ opt_str fin ++ END_EXPR :: r) Hs Tany).
    run_with (input_is_current_at ANY (pre ++ filter_escape s) ANY
                (any_list l ++ opt_str fin ++ END_EXPR :: r) ltac:(discriminate)).
    simpl. rewrite bool_decide_eq_false_2 by (by destruct s).
    run_with (input_skip_at (pre ++ filter_escape s) ANY
                (any_list l ++ opt_str fin ++ END_EXPR :: r) ltac:(discriminate)).
    simpl in Hfuel. rewrite IH by (done || lia).
    apply (f_equal Ok), f_equal2.
    + do 2 f_equal. destruct l; simpl; [done|]. by app_norm.
    + f_equal. by app_norm.
Qed.

Lemma parse_equal_comparison key s pre r : nul_free s →
  parse_equal key (at_ pre (EQUAL :: filter_escape s ++ END_EXPR :: r)) =
  Ok (Some (FComparison EQUAL key s), at_ (pre ++ EQUAL :: filter_escape s) (END_EXPR :: r)).
Proof.
  intros Hs. destruct terminators as (Tend & _). unfold parse_equal.
  run_with (input_expect_at EQUAL pre EQUAL (filter_escape s ++ END_EXPR :: r)
              ltac:(discriminate)).
  simpl. run_with (parse_str_escape s (pre ++ [EQUAL]) END_EXPR r Hs Tend).
  run_with (input_is_current_at ANY ((pre ++ [EQUAL]) ++ filter_escape s) END_EXPR r
              ltac:(discriminate)).
  simpl. by rewrite <-!app_assoc.
Qed.

Lemma parse_equal_substring key i l fin pre r :
  opt_ok i → opt_ok fin → Forall part_ok l →
  parse_equal key
    (at_ pre (EQUAL :: opt_str i ++ ANY :: any_list l ++ opt_str fin ++ END_EXPR :: r)) =
  Ok (Some (match i, l, fin with
            | None, [], None => FPresent key
            | _, [], _ => FSubstring key i None fin
            | _, _, _ => FSubstring key i (Some l) fin
            end),
      at_ (pre ++ EQUAL :: opt_str i ++ ANY :: any_list l ++ opt_str fin) (END_EXPR :: r)).
Proof.
  intros Hi Hfin Hl. destruct terminators as (Tend & Tany & _). unfold parse_equal.
  set (t := any_list l ++ opt_str fin ++ END_EXPR :: r).
  run_with (input_expect_at EQUAL pre EQUAL (opt_str i ++ ANY :: t) ltac:(discriminate)).
  simpl. assert (Hnf : nul_free (default [] i)).
  { destruct i as [i|]; [by destruct Hi|]. apply not_elem_of_nil. }
  unfold opt_str at 1.
  run_with (parse_str_escape (default [] i) (pre ++ [EQUAL]) ANY t Hnf Tany).
  run_with (input_is_current_at ANY ((pre ++ [EQUAL]) ++ filter_escape (default [] i)) ANY t
              ltac:(discriminate)).
  simpl.
  run_with (input_skip_at ((pre ++ [EQUAL]) ++ filter_escape (default [] i)) ANY t
              ltac:(discriminate)).
  unfold parse_substring_and_present. rewrite fuel_left_at. unfold t.
  rewrite (substring_loop_print l Hl) by
    (done || (unfold any_list; rewrite !length_app, length_concat, map_map;
              clear; induction l; simpl in *; rewrite ?length_app; simpl; lia)).
  simpl. do 2 f_equal.
  - destruct i as [[|c i]|]; simpl; [by destruct Hi|by destruct l|].
    by destruct l, fin.
  - unfold opt_str. f_equal. by app_norm.
Qed.

Lemma parse_int_comparison key op create z pre r :
  is_int64 z = true → op ≠ NUL →
  parse_greater_and_less_than key op create
    (at_ pre (op :: filter_escape (print_int64 z) ++ END_EXPR :: r)) =
  Ok (Some (create key z), at_ (pre ++ op :: filter_escape (print_int64 z)) (END_EXPR :: r)).
Proof.
  intros Hz Hop. destruct terminators as (Tend & _). unfold parse_greater_and_less_than.
  run_with (input_expect_at op pre op (filter_escape (print_int64 z) ++ END_EXPR :: r) Hop).
  simpl. run_with (parse_int_print z (pre ++ [op]) END_EXPR r Hz Tend).
  unfold mret, M_ret. by rewrite <-app_assoc.
Qed.

(** The key, then the operator decides. *)
Lemma parse_simple_key key op t pre : part_ok key → terminator op →
  parse_simple (at_ pre (filter_escape key ++ op :: t)) =
  (if decide (op = EQUAL) then parse_equal key
   else if decide (op = GREATER_THAN) then
     parse_greater_and_less_than key GREATER_THAN greater_than_create
   else if decide (op = LESS_THAN) then
     parse_greater_and_less_than key LESS_THAN less_than_create
   else mret None) (at_ (pre ++ filter_escape key) (op :: t)).
Proof.
  intros [Hk Hne] Hop. unfold parse_simple.
  run_with (parse_str_escape key pre op t Hk Hop).
  rewrite bool_decide_eq_false_2 by (by destruct key).
  destruct Hop as (_ & _ & Hop).
  by run_with (input_current_at (pre ++ filter_escape key) op t Hop).
Qed.

Lemma parse_dispatch_simple fuel pre c t :
  c ≠ NUL → c ≠ AND → c ≠ OR → c ≠ NOT →
  parse (S fuel) (at_ pre (c :: t)) = parse_simple (at_ pre (c :: t)).
Proof.
  intros H0 H1 H2 H3. cbn [parse]. run_with (input_current_at pre c t H0).
  by rewrite !decide_False.
Qed.

(** Dispatch on a key. *)
Lemma parse_dispatch_key fuel key t pre : part_ok key →
  parse (S fuel) (at_ pre (filter_escape key ++ t)) =
  parse_simple (at_ pre (filter_escape key ++ t)).
Proof.
  intros [Hk Hne]. destruct (escape_cons_inv key Hne Hk) as (c & u & E & H0 & H1 & H2 & H3).
  rewrite E. by apply parse_dispatch_simple.
Qed.

(** What the induction hypothesis says of an operand. *)
Definition parses (fuel : nat) (f : filter_t) : Prop := ∀ pre r,
  parse fuel (at_ pre (body f ++ END_EXPR :: r)) =
  Ok (Some f, at_ (pre ++ body f) (END_EXPR :: r)).

Lemma composite_loop_print create n gs : Forall (parses n) gs → ∀ fuel ops pre r,
  length gs < fuel →
  composite_loop (parse n) create fuel ops
    (at_ pre (concat (map filter_str gs) ++ END_EXPR :: r)) =
  Ok ((if bool_decide (length (ops ++ gs) < 2) then None else Some (create (ops ++ gs))),
      at_ (pre ++ concat (map filter_str gs)) (END_EXPR :: r)).
Proof.
  induction 1 as [|g gs Hg Hgs IH]; intros fuel ops pre r Hfuel;
    (destruct fuel as [|fuel]; [simpl in Hfuel; lia|]); cbn [composite_loop].
  - simpl. run_with (input_current_at pre END_EXPR r ltac:(discriminate)).
    simpl. by rewrite !app_nil_r.
  - set (t := concat (map filter_str gs) ++ END_EXPR :: r).
    assert (E : concat (map filter_str (g :: gs)) ++ END_EXPR :: r =
                BEGIN_EXPR :: body g ++ END_EXPR :: t).
    { simpl. rewrite filter_str_body. unfold t. by app_norm. }
    rewrite E.
    run_with (input_current_at pre BEGIN_EXPR (body g ++ END_EXPR :: t) ltac:(discriminate)).
    rewrite decide_True by done.
    run_with (input_skip_at pre BEGIN_EXPR (body g ++ END_EXPR :: t) ltac:(discriminate)).
    simpl. run_with (Hg (pre ++ [BEGIN_EXPR]) t).
    run_with (input_expect_at END_EXPR ((pre ++ [BEGIN_EXPR]) ++ body g) END_EXPR t
                ltac:(discriminate)).
    simpl. simpl in Hfuel. unfold t. rewrite IH by lia. rewrite filter_clone_id.
    apply (f_equal Ok), f_equal2.
    + by rewrite <-!app_assoc.
    + f_equal. rewrite filter_str_body. by app_norm.
Qed.

Lemma concat_filter_str_length gs :
  length gs ≤ length (concat (map filter_str gs)) ∧
  Forall (λ g, length (body g) + 2 ≤ length (concat (map filter_str gs))) gs.
Proof.
  induction gs as [|g gs [IH1 IH2]]; [split; [done|constructor]|].
  cbn [map concat]. rewrite filter_str_body.
  cbn [length app]. rewrite !length_app. cbn [length].
  split; [lia|]. constructor; [lia|].
  eapply Forall_impl; [exact IH2|]. simpl. intros. lia.
Qed.

Lemma parse_print_comparison op key s fuel : filter_wf (FComparison op key s) →
  parses (S fuel) (FComparison op key s).
Proof.
  destruct terminators as (Tend & Tany & Teq & Tgt & Tlt).
  intros (Hkey & Hs & Hop) pre r. cbn [body].
  rewrite <-app_assoc. cbn [app]. rewrite parse_dispatch_key by done.
  destruct Hop as [->|([->| ->] & z & Hz & ->)]; rewrite parse_simple_key by done; simpl.
  - rewrite parse_equal_comparison by done. by app_norm.
  - rewrite parse_int_comparison by done. by app_norm.
  - rewrite parse_int_comparison by done. by app_norm.
Qed.

Lemma parse_print_present key fuel : filter_wf (FPresent key) →
  parses (S fuel) (FPresent key).
Proof.
  destruct terminators as (Tend & Tany & Teq & _). intros Hkey pre r. cbn [filter_wf] in Hkey.
  cbn [body]. rewrite <-app_assoc. cbn [app].
  rewrite parse_dispatch_key, parse_simple_key by done. rewrite decide_True by done.
  pose proof (parse_equal_substring key None [] None (pre ++ filter_escape key) r
                I I (Forall_nil_2 _)) as E.
  cbn in E. rewrite E. by app_norm.
Qed.

Lemma parse_print_substring key i m fin fuel : filter_wf (FSubstring key i m fin) →
  parses (S fuel) (FSubstring key i m fin).
Proof.
  destruct terminators as (Tend & Tany & Teq & _).
  intros (Hkey & Hi & Hfin & Hm & Hne) pre r. cbn [body].
  rewrite <-app_assoc. cbn [app]. rewrite <-app_assoc. cbn [app]. rewrite <-app_assoc.
  rewrite parse_dispatch_key, parse_simple_key by done. rewrite decide_True by done.
  rewrite parse_equal_substring;
    [|done|done|destruct m; simpl; [by destruct Hm|constructor]].
  apply (f_equal Ok), f_equal2; [|f_equal; by app_norm].
  destruct m as [[|s m]|]; simpl; [by destruct Hm|by destruct i|].
  by destruct i, fin.
Qed.

Lemma parse_print_not g fuel : parses fuel g → parses (S fuel) (FNot g).
Proof.
  intros IH pre r. cbn [body app parse].
  run_with (input_current_at pre NOT (filter_str g ++ END_EXPR :: r) ltac:(discriminate)).
  rewrite !decide_False by discriminate. rewrite decide_True by done.
  rewrite filter_str_body. cbn [app]. rewrite <-app_assoc. cbn [app].
  set (t := body g ++ END_EXPR :: END_EXPR :: r). unfold parse_not.
  run_with (input_expect_at NOT pre NOT (BEGIN_EXPR :: t) ltac:(discriminate)). simpl.
  run_with (input_expect_at BEGIN_EXPR (pre ++ [NOT]) BEGIN_EXPR t ltac:(discriminate)).
  simpl. run_with (IH ((pre ++ [NOT]) ++ [BEGIN_EXPR]) (END_EXPR :: r)).
  run_with (input_expect_at END_EXPR (((pre ++ [NOT]) ++ [BEGIN_EXPR]) ++ body g) END_EXPR
              (END_EXPR :: r) ltac:(discriminate)).
  simpl. unfold mret, M_ret, not_create. rewrite filter_clone_id.
  apply (f_equal Ok), f_equal2; [done|]. f_equal. by app_norm.
Qed.

Lemma parse_composite_print op create gs fuel pre r :
  op ≠ NUL → (∀ l, create l = FComposite op (map filter_clone l)) →
  Forall (parses fuel) gs → 2 ≤ length gs < fuel →
  parse_composite (parse fuel) op create fuel
    (at_ pre (op :: concat (map filter_str gs) ++ END_EXPR :: r)) =
  Ok (Some (FComposite op gs), at_ (pre ++ op :: concat (map filter_str gs)) (END_EXPR :: r)).
Proof.
  intros Hop Hcreate Hgs Hlen. unfold parse_composite.
  run_with (input_expect_at op pre op (concat (map filter_str gs) ++ END_EXPR :: r) Hop).
  rewrite composite_loop_print by (done || lia). simpl.
  rewrite bool_decide_eq_false_2 by lia. rewrite Hcreate, map_filter_clone_id.
  by rewrite <-app_assoc.
Qed.

Lemma parse_print_composite op gs fuel : (op = AND ∨ op = OR) →
  Forall (parses fuel) gs → 2 ≤ length gs < fuel → parses (S fuel) (FComposite op gs).
Proof.
  intros Hop Hgs Hlen pre r. cbn [body app parse].
  set (t := concat (map filter_str gs) ++ END_EXPR :: r). destruct Hop as [->| ->].
  - run_with (input_current_at pre AND t ltac:(discriminate)). rewrite decide_True by done.
    by apply parse_composite_print.
  - run_with (input_current_at pre OR t ltac:(discriminate)).
    rewrite decide_False by discriminate. rewrite decide_True by done.
    by apply parse_composite_print.
Qed.

Lemma parse_print f : filter_wf f → ∀ fuel, length (body f) < fuel → parses fuel f.
Proof.
  induction f as [op key s|key|key i m fin|g IH|op gs IH] using filter_nested_ind;
    intros Hwf fuel Hfuel; (destruct fuel as [|fuel]; [lia|]).
  - by apply parse_print_comparison.
  - by apply parse_print_present.
  - by apply parse_print_substring.
  - apply parse_print_not, IH; [done|]. cbn [body] in Hfuel. rewrite filter_str_body in Hfuel.
    cbn [length] in Hfuel. rewrite length_app in Hfuel. simpl in Hfuel. lia.
  - cbn [filter_wf body] in Hwf, Hfuel. destruct Hwf as (Hop & Hlen & Hgs).
    apply foldr_and_Forall in Hgs. cbn [length] in Hfuel.
    destruct (concat_filter_str_length gs) as [Hl1 Hl2].
    apply parse_print_composite; [done| |lia].
    rewrite Forall_forall in IH, Hgs, Hl2 |- *. intros g Hg. apply IH; [done|by apply Hgs|].
    specialize (Hl2 g Hg). simpl in Hl2. lia.
Qed.

(** ** Every run of the parser ends, and what it returns is well formed *)

Definition inp_ok (d : cstr) (inp : input) : Prop :=
  data inp = d ∧ offset inp ≤ length d.

(** The postcondition of the parsing functions: the offset does not go back
    and a result satisfies [P]. *)
Definition ppost {A} (d : cstr) (o : nat) (P : A → Prop) (r : option A) (inp' : input) : Prop :=
  inp_ok d inp' ∧ o ≤ offset inp' ∧ match r with Some a => P a | None => True end.

Lemma ppost_None {A} d o (P : A → Prop) inp : inp_ok d inp → o ≤ offset inp →
  ppost d o P None inp.
Proof. intros. unfold ppost. by split_and!. Qed.

Lemma ppost_Some {A} d o (P : A → Prop) a inp : inp_ok d inp → o ≤ offset inp → P a →
  ppost d o P (Some a) inp.
Proof. intros. unfold ppost. by split_and!. Qed.

Lemma ppost_weaken {A} d o o' (P Q : A → Prop) r inp :
  ppost d o P r inp → o' ≤ o → (∀ a, P a → Q a) → ppost d o' Q r inp.
Proof.
  intros (H1 & H2 & H3) Ho HPQ. unfold ppost. split_and!; [done|lia|]. destruct r; auto.
Qed.

Section total.
Context (d : cstr).

Lemma char_at_ok inp : inp_ok d inp →
  ∃ c, char_at inp = Ok c ∧ (c ≠ NUL → offset inp < length d).
Proof.
  intros [Hd Ho]. unfold char_at. rewrite Hd, bool_decide_eq_true_2 by done.
  eexists. split; [done|]. destruct (d !! offset inp) eqn:E; simpl; [|done].
  intros _. by eapply lookup_lt_Some.
Qed.

Lemma advance_ok inp : inp_ok d inp → offset inp < length d → inp_ok d (advance inp).
Proof. intros [Hd Ho] H. split; simpl; [done|lia]. Qed.

Lemma input_current_wp inp (Q : option ascii → input → Prop) : inp_ok d inp →
  Q None inp →
  (∀ c, c ≠ NUL → char_at inp = Ok c → offset inp < length d → Q (Some c) inp) →
  wp input_current Q inp.
Proof.
  intros Hi HN HS. destruct (char_at_ok inp Hi) as (c & E & Hc).
  unfold wp, input_current. rewrite E. simpl. case_decide; auto.
Qed.

Lemma input_skip_wp inp (Q : Z → input → Prop) : inp_ok d inp →
  Q (-1)%Z inp →
  (offset inp < length d → Q 0%Z (advance inp)) →
  wp input_skip Q inp.
Proof.
  intros Hi HN HS. destruct (char_at_ok inp Hi) as (c & E & Hc).
  unfold wp, input_skip. rewrite E. simpl. case_decide; auto.
Qed.

(** Skipping a character that was seen. *)
Lemma input_skip_present_wp inp (Q : Z → input → Prop) c :
  char_at inp = Ok c → c ≠ NUL → Q 0%Z (advance inp) → wp input_skip Q inp.
Proof. intros E Hc HQ. unfold wp, input_skip. rewrite E. simpl. by rewrite decide_False. Qed.

Lemma input_is_current_wp e inp (Q : Z → input → Prop) : inp_ok d inp →
  Q (-1)%Z inp →
  (∀ rc c, (0 ≤ rc)%Z → c ≠ NUL → char_at inp = Ok c → offset inp < length d → Q rc inp) →
  wp (input_is_current e) Q inp.
Proof.
  intros Hi HN HS. unfold input_is_current. apply wp_bind.
  apply input_current_wp; [done|apply wp_ret; done|].
  intros c Hc E Ho. apply wp_ret. apply (HS _ c); [by case_decide|done..].
Qed.

Lemma input_expect_wp e inp (Q : Z → input → Prop) : inp_ok d inp →
  Q (-1)%Z inp →
  (offset inp < length d → Q 0%Z (advance inp)) →
  wp (input_expect e) Q inp.
Proof.
  intros Hi HN HS. unfold input_expect. apply wp_bind.
  apply input_is_current_wp; [done|by rewrite bool_decide_eq_true_2|].
  intros rc c Hrc _ _ Ho. rewrite bool_decide_eq_false_2 by lia.
  apply wp_bind, wp_modify, wp_ret. auto.
Qed.

(** Expecting some character where there is one. *)
Lemma input_expect_present_wp e inp (Q : Z → input → Prop) c :
  char_at inp = Ok c → c ≠ NUL → Q 0%Z (advance inp) → wp (input_expect e) Q inp.
Proof.
  intros E Hc HQ. unfold wp, input_expect, input_is_current, input_current, mbind, M_bind.
  rewrite E. simpl. rewrite decide_False by done. by case_decide.
Qed.

Lemma parse_str_loop_wp fuel : ∀ escaped acc inp,
  inp_ok d inp → nul_free acc → length d - offset inp < fuel →
  wp (parse_str_loop fuel escaped acc) (ppost d (offset inp) nul_free) inp.
Proof.
  induction fuel as [|fuel IH]; intros escaped acc inp Hi Hacc Hfuel; [lia|].
  cbn [parse_str_loop]. apply wp_bind.
  apply input_current_wp; [done|by apply wp_ret, ppost_None|]. intros c Hc _ Ho.
  assert (Hskip : ∀ esc acc', nul_free acc' →
    wp (rc ← input_skip; if bool_decide (rc < 0)%Z then mret None
        else parse_str_loop fuel esc acc') (ppost d (offset inp) nul_free) inp).
  { intros esc acc' Hacc'. apply wp_bind, input_skip_wp; [done| |].
    - by apply wp_ret, ppost_None.
    - intros _. rewrite bool_decide_eq_false_2 by lia.
      eapply wp_mono; [apply IH; [by apply advance_ok|done|simpl; lia]|].
      intros r inp' Hr. eapply ppost_weaken; [exact Hr|simpl; lia|done]. }
  assert (Happ : nul_free (append_c acc c)).
  { unfold nul_free, append_c. rewrite elem_of_app, list_elem_of_singleton. naive_solver. }
  destruct escaped.
  - destruct (is_special c); simpl; [by apply Hskip|by apply wp_ret, ppost_None].
  - case_decide; [by apply Hskip|].
    destruct (is_special c); [by apply wp_ret, ppost_Some|by apply Hskip].
Qed.

Lemma parse_str_wp inp : inp_ok d inp →
  wp parse_str (ppost d (offset inp) nul_free) inp.
Proof.
  intros Hi. unfold parse_str, wp. apply (parse_str_loop_wp _ false []).
  - done.
  - apply not_elem_of_nil.
  - unfold fuel_left. destruct Hi as [-> _]. lia.
Qed.

Lemma parse_int_wp inp : inp_ok d inp →
  wp parse_int (ppost d (offset inp) (λ z, is_int64 z = true)) inp.
Proof.
  intros Hi. unfold parse_int. apply wp_bind.
  eapply wp_mono; [by apply parse_str_wp|]. intros r inp' (H1 & H2 & H3).
  apply wp_ret. unfold ppost. split_and!; [done|done|].
  destruct r as [[|c s]|]; [done| |done]. destruct (isspace c); [done|].
  pose proof (strtoll_range (c :: s)) as Hr. simpl in Hr.
  destruct (strtoll (c :: s)) as [v [|]]; [done|done].
Qed.

Lemma parse_greater_and_less_than_wp key op create inp :
  inp_ok d inp → part_ok key →
  (∀ z, is_int64 z = true → filter_wf (create key z)) →
  wp (parse_greater_and_less_than key op create) (ppost d (offset inp) filter_wf) inp.
Proof.
  intros Hi Hkey Hcr. unfold parse_greater_and_less_than. apply wp_bind.
  apply input_expect_wp; [done|by apply wp_ret, ppost_None|]. intros Ho.
  rewrite bool_decide_eq_false_2 by lia. apply wp_bind.
  eapply wp_mono; [apply parse_int_wp; by apply advance_ok|].
  intros r inp' (H1 & H2 & H3). apply wp_ret. simpl in H2.
  unfold ppost. split_and!; [done|lia|]. destruct r; auto.
Qed.

Definition loop_result_ok (r : option (list cstr) * option cstr) : Prop :=
  match r.1 with Some l => l ≠ [] ∧ Forall part_ok l | None => True end ∧ opt_ok r.2.

Lemma substring_loop_wp fuel : ∀ acc inp,
  inp_ok d inp → length d - offset inp < fuel →
  match acc with Some l => l ≠ [] ∧ Forall part_ok l | None => True end →
  wp (substring_loop fuel acc) (ppost d (offset inp) loop_result_ok) inp.
Proof.
  induction fuel as [|fuel IH]; intros acc inp Hi Hfuel Hacc; [lia|].
  cbn [substring_loop]. apply wp_bind.
  eapply wp_mono; [by apply parse_str_wp|]. intros r inp1 (H1 & H2 & H3).
  destruct r as [s|]; [|by apply wp_ret, ppost_None]. apply wp_bind.
  apply input_is_current_wp; [done|by apply wp_ret, ppost_None|].
  intros rc c Hrc Hc Ec Ho. rewrite bool_decide_eq_false_2 by lia. case_bool_decide as Hany.
  - case_bool_decide as Hs; [by apply wp_ret, ppost_None|]. apply wp_bind.
    assert (Hs' : part_ok s) by (split; [done|by intros ->]).
    assert (Hl : default [] acc ++ [s] ≠ [] ∧ Forall part_ok (default [] acc ++ [s])).
    { split; [by destruct (default [] acc)|]. apply Forall_app_2; [|by constructor].
      destruct acc; simpl; [by destruct Hacc|constructor]. }
    apply (input_skip_present_wp _ _ c); [done|done|].
    eapply wp_mono; [apply IH; [by apply advance_ok|simpl; lia|done]|].
    intros r inp' Hr. eapply ppost_weaken; [exact Hr|simpl; lia|done].
  - apply wp_ret, ppost_Some; [done|done|]. split; simpl; [done|].
    case_bool_decide; simpl; [|done]. split; [done|].
    intros ->. simpl in *. lia.
Qed.

(** The start of an operand list or value: a result of a parser that began
    later. *)
Lemma wp_later {A} (m : M input (option A)) P o inp :
  o ≤ offset inp → wp m (ppost d (offset inp) P) inp → wp m (ppost d o P) inp.
Proof.
  intros Ho Hm. eapply wp_mono; [exact Hm|]. intros r inp' Hr.
  by eapply ppost_weaken.
Qed.

Lemma parse_substring_and_present_wp key first inp :
  inp_ok d inp → part_ok key → nul_free first →
  wp (parse_substring_and_present key first) (ppost d (offset inp) filter_wf) inp.
Proof.
  intros Hi Hkey Hfirst. unfold parse_substring_and_present, wp.
  assert (Hloop : wp (substring_loop (fuel_left inp) None)
                     (ppost d (offset inp) loop_result_ok) inp).
  { apply substring_loop_wp; [done| |done]. destruct Hi as [<- _]. unfold fuel_left. lia. }
  unfold wp in Hloop.
  destruct (substring_loop (fuel_left inp) None inp) as [[r inp']|]; [simpl|done].
  destruct Hloop as (H1 & H2 & H3).
  destruct r as [[m fin]|]; [|by apply ppost_None].
  destruct H3 as [Hm Hfin]. simpl in Hm, Hfin.
  set (i := if bool_decide (0 < strlen first) then Some first else None).
  assert (Hini : opt_ok i).
  { unfold i. case_bool_decide; simpl; [|done]. split; [done|]. intros ->. simpl in *. lia. }
  clearbody i. destruct i, m, fin; by apply ppost_Some.
Qed.

Lemma parse_equal_wp key inp : inp_ok d inp → part_ok key →
  wp (parse_equal key) (ppost d (offset inp) filter_wf) inp.
Proof.
  intros Hi Hkey. unfold parse_equal. apply wp_bind.
  apply input_expect_wp; [done|by apply wp_ret, ppost_None|]. intros Ho.
  rewrite bool_decide_eq_false_2 by lia. apply wp_bind.
  eapply wp_mono; [apply parse_str_wp; by apply advance_ok|].
  intros r inp1 (H1 & H2 & H3). simpl in H2.
  destruct r as [s|]; [|apply wp_ret, ppost_None; [done|lia]]. apply wp_bind.
  apply input_is_current_wp; [done|apply wp_ret, ppost_None; [done|lia]|].
  intros rc c Hrc Hc Ec Ho1. rewrite bool_decide_eq_false_2 by lia. case_bool_decide.
  - apply wp_bind, (input_skip_present_wp _ _ c); [done|done|].
    apply wp_later; [simpl; lia|].
    apply parse_substring_and_present_wp; [by apply advance_ok|done|done].
  - apply wp_ret, ppost_Some; [done|lia|]. simpl. auto.
Qed.

Lemma parse_simple_wp inp : inp_ok d inp →
  wp parse_simple (ppost d (offset inp) filter_wf) inp.
Proof.
  intros Hi. unfold parse_simple. apply wp_bind.
  eapply wp_mono; [by apply parse_str_wp|]. intros r inp1 (H1 & H2 & H3).
  destruct r as [key|]; [|by apply wp_ret, ppost_None].
  case_bool_decide as Hlen; [by apply wp_ret, ppost_None|].
  assert (Hkey : part_ok key) by (split; [done|by intros ->]). apply wp_bind.
  apply input_current_wp; [done|by apply wp_ret, ppost_None|]. intros c _ _ _.
  case_decide; [|case_decide; [|case_decide; [|by apply wp_ret, ppost_None]]];
    (apply wp_later; [done|]).
  - by apply parse_equal_wp.
  - apply parse_greater_and_less_than_wp; [done|done|]. intros z Hz. simpl.
    split_and!; [by apply Hkey..|by apply print_int64_nul_free|]. eauto 6.
  - apply parse_greater_and_less_than_wp; [done|done|]. intros z Hz. simpl.
    split_and!; [by apply Hkey..|by apply print_int64_nul_free|]. eauto 6.
Qed.

(** A parser of operands that is right on what is left of the input. *)
Definition operand_parser (n : nat) (p : M input (option filter_t)) : Prop :=
  ∀ inp, inp_ok d inp → length d - offset inp < n →
    wp p (ppost d (offset inp) filter_wf) inp.

Lemma parse_not_wp n p inp : operand_parser n p → inp_ok d inp →
  length d - offset inp < S n →
  wp (parse_not p) (ppost d (offset inp) filter_wf) inp.
Proof.
  intros Hp Hi Hn. unfold parse_not. apply wp_bind.
  apply input_expect_wp; [done|by apply wp_ret, ppost_None|]. intros Ho.
  rewrite bool_decide_eq_false_2 by lia. apply wp_bind.
  apply input_expect_wp; [by apply advance_ok|apply wp_ret, ppost_None; [by apply advance_ok|simpl; lia]|].
  intros Ho1. simpl in Ho1. rewrite bool_decide_eq_false_2 by lia. apply wp_bind.
  eapply wp_mono; [apply Hp; [apply advance_ok; [by apply advance_ok|done]|simpl; lia]|].
  intros r inp1 (H1 & H2 & H3). simpl in H2.
  destruct r as [g|]; [|apply wp_ret, ppost_None; [done|lia]]. apply wp_bind.
  apply input_expect_wp; [done|apply wp_ret, ppost_None; [done|lia]|]. intros Ho2.
  apply wp_ret. simpl. apply ppost_Some; [by apply advance_ok|simpl; lia|].
  simpl. by rewrite filter_clone_id.
Qed.

Lemma composite_loop_wp n p op create :
  operand_parser n p → (op = AND ∨ op = OR) →
  (∀ l, create l = FComposite op (map filter_clone l)) →
  ∀ fuel ops inp, inp_ok d inp → length d - offset inp < fuel → fuel ≤ n →
    Forall filter_wf ops →
    wp (composite_loop p create fuel ops) (ppost d (offset inp) filter_wf) inp.
Proof.
  intros Hp Hop Hcr. induction fuel as [|fuel IH]; intros ops inp Hi Hfuel Hn Hops; [lia|].
  cbn [composite_loop]. apply wp_bind.
  apply input_current_wp; [done|by apply wp_ret, ppost_None|]. intros c Hc Ec Ho.
  case_decide; [|case_decide].
  - apply wp_bind, (input_skip_present_wp _ _ c); [done|done|].
    rewrite bool_decide_eq_false_2 by lia. apply wp_bind.
    eapply wp_mono; [apply Hp; [by apply advance_ok|simpl; lia]|].
    intros r inp1 (H1 & H2 & H3). simpl in H2.
    destruct r as [g|]; [|apply wp_ret, ppost_None; [done|lia]]. apply wp_bind.
    apply input_expect_wp; [done|apply wp_ret, ppost_None; [done|lia]|]. intros Ho1.
    rewrite bool_decide_eq_false_2 by lia. apply wp_later; [simpl; lia|].
    apply IH; [by apply advance_ok|simpl; lia|lia|].
    apply Forall_app_2; [done|]. rewrite filter_clone_id. by constructor.
  - apply wp_ret. case_bool_decide; [by apply ppost_None|].
    apply ppost_Some; [done..|]. rewrite Hcr, map_filter_clone_id. simpl.
    split_and!; [done|lia|]. by apply foldr_and_Forall.
  - by apply wp_ret, ppost_None.
Qed.

Lemma parse_composite_wp n p op create inp c :
  operand_parser n p → (op = AND ∨ op = OR) →
  (∀ l, create l = FComposite op (map filter_clone l)) →
  inp_ok d inp → char_at inp = Ok c → c ≠ NUL →
  offset inp < length d → length d - offset inp < S n →
  wp (parse_composite p op create n) (ppost d (offset inp) filter_wf) inp.
Proof.
  intros Hp Hop Hcr Hi Ec Hc Ho Hn. unfold parse_composite.
  apply wp_bind, (input_expect_present_wp _ _ _ c); [done|done|].
  apply wp_later; [simpl; lia|].
  apply (composite_loop_wp n _ op); [done|done|done|by apply advance_ok|simpl; lia|done|].
  constructor.
Qed.

Lemma parse_wp fuel : operand_parser fuel (parse fuel).
Proof.
  induction fuel as [|fuel IH]; intros inp Hi Hfuel; [lia|]. cbn [parse]. apply wp_bind.
  apply input_current_wp; [done|by apply wp_ret, ppost_None|]. intros c Hc Ec Ho.
  case_decide; [|case_decide; [|case_decide]].
  - apply (parse_composite_wp fuel _ AND _ _ c); [done|by left|done..].
  - apply (parse_composite_wp fuel _ OR _ _ c); [done|by right|done..].
  - by eapply parse_not_wp.
  - by apply parse_simple_wp.
Qed.
End total.

(** ** Printed filters are strings *)

Lemma nul_free_app s t : nul_free (s ++ t) ↔ nul_free s ∧ nul_free t.
Proof. unfold nul_free. rewrite elem_of_app. tauto. Qed.

Lemma nul_free_cons c s : nul_free (c :: s) ↔ c ≠ NUL ∧ nul_free s.
Proof. unfold nul_free. rewrite not_elem_of_cons. naive_solver. Qed.

Lemma nul_free_nil : nul_free [].
Proof. apply not_elem_of_nil. Qed.

Lemma filter_escape_nul_free s : nul_free s → nul_free (filter_escape s).
Proof.
  induction s as [|c s IH]; [done|]. rewrite nul_free_cons. intros [Hc Hs]. simpl.
  rewrite nul_free_app, nul_free_cons. split_and!; [|done|by apply IH].
  destruct (is_special c); [|apply nul_free_nil].
  apply nul_free_cons. split; [by vm_compute|apply nul_free_nil].
Qed.

Lemma opt_str_nul_free o : opt_ok o → nul_free (opt_str o).
Proof.
  intros Ho. apply filter_escape_nul_free. destruct o; [apply Ho|apply nul_free_nil].
Qed.

Lemma any_list_nul_free l : Forall part_ok l → nul_free (any_list l).
Proof.
  unfold any_list. induction 1 as [|s l [Hs _] _ IH]; [apply nul_free_nil|]. simpl.
  rewrite !nul_free_app, nul_free_cons.
  split_and!; [by apply filter_escape_nul_free|by vm_compute|apply nul_free_nil|done].
Qed.

Lemma filter_str_nul_free f : filter_wf f → nul_free (filter_str f).
Proof.
  induction f as [op key s|key|key i m fin|g IH|op gs IH] using filter_nested_ind;
    rewrite filter_str_body, nul_free_cons, nul_free_app, ?nul_free_cons; cbn [filter_wf body];
    intros Hwf; (split_and!; [by vm_compute| |by vm_compute|apply nul_free_nil]).
  - destruct Hwf as ([Hk _] & Hs & Hop). rewrite nul_free_app, nul_free_cons.
    split_and!; [by apply filter_escape_nul_free| |by apply filter_escape_nul_free].
    by destruct Hop as [->|([->| ->] & _)].
  - rewrite nul_free_app. split; [by apply filter_escape_nul_free, Hwf|].
    rewrite !nul_free_cons. split_and!; [by vm_compute..|apply nul_free_nil].
  - destruct Hwf as ([Hk _] & Hi & Hf & Hm & _).
    rewrite nul_free_app, nul_free_cons, nul_free_app, nul_free_cons, nul_free_app.
    split_and!; [by apply filter_escape_nul_free|by vm_compute|by apply opt_str_nul_free
      |by vm_compute| |by apply opt_str_nul_free].
    apply any_list_nul_free. destruct m; [apply Hm|constructor].
  - rewrite nul_free_cons. split; [by vm_compute|auto].
  - destruct Hwf as (Hop & _ & Hgs). apply foldr_and_Forall in Hgs. rewrite nul_free_cons.
    split; [by destruct Hop as [->| ->]|].
    induction IH as [|g gs Hg _ IHgs]; [apply nul_free_nil|]. simpl.
    apply Forall_cons in Hgs as [? ?]. rewrite nul_free_app. auto.
Qed.

(** ** The whole parser *)

Lemma filter_parse_body c f r : c ≠ NUL → filter_wf f →
  filter_parse (c :: body f ++ END_EXPR :: r) =
  Ok (match r with [] => Some f | _ => None end).
Proof.
  intros Hc Hf. unfold filter_parse.
  change (Input (c :: body f ++ END_EXPR :: r) 0) with (at_ [] (c :: body f ++ END_EXPR :: r)).
  run_with (input_expect_at BEGIN_EXPR [] c (body f ++ END_EXPR :: r) Hc). simpl.
  assert (Hl : length (body f) < S (S (length (body f ++ END_EXPR :: r)))).
  { rewrite length_app. simpl. lia. }
  run_with (parse_print f Hf _ Hl [c] r).
  run_with (input_expect_at END_EXPR ([c] ++ body f) END_EXPR r ltac:(discriminate)).
  simpl. run_with (input_left_at ((c :: body f) ++ [END_EXPR]) r). by destruct r.
Qed.

Lemma filter_parse_str f : filter_wf f → filter_parse (filter_str f) = Ok (Some f).
Proof. intros Hf. rewrite filter_str_body. by rewrite filter_parse_body. Qed.

Lemma filter_str_inj f g : filter_wf f → filter_wf g → filter_str f = filter_str g → f = g.
Proof.
  intros Hf Hg E. pose proof (filter_parse_str f Hf) as H1.
  rewrite E, filter_parse_str in H1 by done. congruence.
Qed.

Lemma run_result {S A} (m : M S A) (s : S) (P : A → Prop) :
  wp m (λ r _, P r) s → ∃ r, ('(r, _) ← m s; Ok r) = Ok r ∧ P r.
Proof. unfold wp. destruct (m s) as [[r s']|]; [|done]. intros HP. by exists r. Qed.

Lemma filter_parse_wp s :
  ∃ r, filter_parse s = Ok r ∧ match r with Some f => filter_wf f | None => True end.
Proof.
  unfold filter_parse. apply run_result. apply wp_bind.
  assert (Hi : inp_ok s (Input s 0)) by (split; simpl; [done|lia]).
  apply (input_expect_wp s); [done|by apply wp_ret|]. intros Ho. simpl in Ho.
  rewrite bool_decide_eq_false_2 by lia. apply wp_bind.
  eapply wp_mono; [apply (parse_wp s); [by apply advance_ok|unfold strlen; simpl; lia]|].
  intros r inp (H1 & H2 & H3). destruct r as [f|]; [|by apply wp_ret]. apply wp_bind.
  apply (input_expect_wp s); [done|by apply wp_ret|]. intros Ho1.
  rewrite bool_decide_eq_false_2 by lia. apply wp_bind.
  destruct (char_at_ok s (advance inp)) as (c & Ec & _); [by apply advance_ok|].
  unfold wp at 1, input_left. rewrite Ec. simpl. apply wp_ret. by case_bool_decide.
Qed.

(** ** Properties *)

(** C37: every string is parsed: the parser ends (the fuel suffices), reads
    inside the string only, and what it returns, when it accepts, is a
    well-formed filter (non-empty keys, 64-bit integers in [>] and [<], at
    least two operands of [&] and [|]); [filter_is_valid] agrees with it. *)
Theorem filter_parse_total (s : cstr) :
  ∃ r, filter_parse s = Ok r ∧
       match r with Some f => filter_wf f | None => True end ∧
       filter_is_valid s = Ok (bool_decide (r ≠ None)).
Proof.
  destruct (filter_parse_wp s) as (r & E & Hr). exists r. split_and!; [done|done|].
  unfold filter_is_valid. rewrite E. by destruct r.
Qed.

(** C38: printing a well-formed filter and parsing the result gives the
    filter back. *)
Theorem filter_parse_print (f : filter_t) :
  filter_wf f → filter_parse (filter_str f) = Ok (Some f).
Proof. apply filter_parse_str. Qed.

Lemma filter_parse_print_witness :
  filter_parse (C "(&(a\*=\(x)(!(n<-7))(k=b*c*d))") =
  Ok (Some (FComposite AND
    [FComparison EQUAL (C "a*") (C "(x"); FNot (FComparison LESS_THAN (C "n") (C "-7"));
     FSubstring (C "k") (Some (C "b")) (Some [C "c"]) (Some (C "d"))])).
Proof.
  apply (filter_parse_print (FComposite AND
    [FComparison EQUAL (C "a*") (C "(x"); FNot (FComparison LESS_THAN (C "n") (C "-7"));
     FSubstring (C "k") (Some (C "b")) (Some [C "c"]) (Some (C "d"))])).
  assert (Hp : ∀ s, bool_decide (nul_free s ∧ s ≠ []) = true → part_ok s).
  { intros s H. by apply bool_decide_eq_true in H. }
  cbn [filter_wf foldr opt_ok].
  split_and!; try done; try (apply Hp; reflexivity);
    try (apply (bool_decide_eq_true_1 _); reflexivity); try (simpl; lia).
  - by left.
  - right. split; [by right|]. by exists (-7)%Z.
Defined.

(** On well-formed filters, comparing the printed forms as
    [filter_equal] does decides equality. *)
Lemma filter_equal_correct (f g : filter_t) :
  filter_wf f → filter_wf g → filter_equal f g = true ↔ f = g.
Proof.
  intros Hf Hg. unfold filter_equal. rewrite bool_decide_eq_true, strcmp_eq by
    (by apply filter_str_nul_free).
  split; [by apply filter_str_inj|by intros ->].
Qed.

Lemma filter_equal_correct_witness :
  filter_wf (FPresent (C "a")) ∧ filter_wf (FPresent (C "b")) ∧
  FPresent (C "a") ≠ FPresent (C "b").
Proof.
  assert (Hp : ∀ s, bool_decide (nul_free s ∧ s ≠ []) = true → part_ok s).
  { intros s H. by apply bool_decide_eq_true in H. }
  assert (Ha : filter_wf (FPresent (C "a"))) by (apply Hp; reflexivity).
  assert (Hb : filter_wf (FPresent (C "b"))) by (apply Hp; reflexivity).
  split_and!; [done|done|].
  intros E. apply (filter_equal_correct _ _ Ha Hb) in E. by vm_compute in E.
Defined.

(** The parser checks only that there is a character where a filter
    begins, not which: a filter with any other character for its opening
    parenthesis is accepted, and read as if it were well formed. *)
Theorem filter_parse_lenient (c : ascii) (f : filter_t) :
  c ≠ NUL → filter_wf f → filter_parse (c :: body f ++ [END_EXPR]) = Ok (Some f).
Proof. intros Hc Hf. by apply filter_parse_body. Qed.

Lemma filter_parse_lenient_witness :
  filter_parse (C "xa=*)") = Ok (Some (FPresent (C "a"))).
Proof.
  apply (filter_parse_lenient "x"%char (FPresent (C "a"))); [done|].
  apply (bool_decide_eq_true_1 (nul_free (C "a") ∧ C "a" ≠ [])). reflexivity.
Defined.
