(* ===== verification/Slist.v ===== *)
(** * Typed lists (src/util/plist.h, src/util/slist.c, src/sd/flist.c)

    The macros of plist.h make a typed list of a plist and the functions that
    clone, destroy and compare its elements.  [PLIST_GEN_BY_VALUE_WRAPPER_DEF]
    is the section [by_value]; slist (of strings) and flist (of filters) are its
    instances.  Any sequence of operations on a list of strings gives what the
    same operations on a plain list give. *)

From S2P Require Import Prelude CLib Mem Plist Filter.

Section by_value.
Context {St A : Type}.
Context (elem_clone : A → M St A) (elem_destroy : A → M St unit) (elem_equal : A → A → bool).

Definition list_create : plist A := plist_create.
Definition list_get (list : plist A) (index : nat) : M St A := lift (plist_get list index).
Definition list_len (list : plist A) : nat := plist_len list.
Definition list_has (list : plist A) (elem : A) : M St bool := lift (plist_has list elem_equal elem).
Definition list_index_of (list : plist A) (elem : A) : M St Z :=
  lift (plist_index_of list elem_equal elem).
Definition list_foreach (list : plist A) (cb : A → M St bool) : M St unit := plist_foreach list cb.
Definition list_clone (list : plist A) : M St (plist A) := plist_clone_deep list elem_clone.
Definition list_clone_non_null (list : option (plist A)) : M St (option (plist A)) :=
  plist_clone_non_null_deep list elem_clone.
Definition list_destroy (list : option (plist A)) : M St unit := plist_destroy_deep list elem_destroy.
Definition list_append (list : plist A) (elem : A) : M St (plist A) :=
  plist_append_deep list elem_clone elem.
Definition list_del (list : plist A) (index : nat) : M St (plist A) :=
  plist_del_deep list elem_destroy index.
Definition list_clear (list : plist A) : M St (plist A) := plist_clear_deep list elem_destroy.
End by_value.

(** ** slist *)

Section slist.
Context {St : Type}.

Definition slist_elem_clone (original : cstr) : M St cstr := mret original.
Definition slist_elem_destroy (original : cstr) : M St unit := mret tt.
Definition slist_elem_equal (a b : cstr) : bool := bool_decide (strcmp a b = 0)%Z.

Definition slist_create : plist cstr := list_create.
Definition slist_get : plist cstr → nat → M St cstr := list_get.
Definition slist_len : plist cstr → nat := list_len.
Definition slist_has : plist cstr → cstr → M St bool := list_has slist_elem_equal.
Definition slist_index_of : plist cstr → cstr → M St Z := list_index_of slist_elem_equal.
Definition slist_foreach : plist cstr → (cstr → M St bool) → M St unit := list_foreach.
Definition slist_clone : plist cstr → M St (plist cstr) := list_clone slist_elem_clone.
Definition slist_clone_non_null : option (plist cstr) → M St (option (plist cstr)) :=
  list_clone_non_null slist_elem_clone.
Definition slist_destroy : option (plist cstr) → M St unit := list_destroy slist_elem_destroy.
Definition slist_append : plist cstr → cstr → M St (plist cstr) := list_append slist_elem_clone.
Definition slist_del : plist cstr → nat → M St (plist cstr) := list_del slist_elem_destroy.
Definition slist_clear : plist cstr → M St (plist cstr) := list_clear slist_elem_destroy.
End slist.

(** ** flist *)

Section flist.
Context {St : Type}.

Definition flist_elem_clone (original : filter_t) : M St filter_t := mret (filter_clone original).
Definition flist_elem_destroy (filter : filter_t) : M St unit := mret tt.
Definition flist_elem_equal (a b : filter_t) : bool := filter_equal a b.

Definition flist_create : plist filter_t := list_create.
Definition flist_get : plist filter_t → nat → M St filter_t := list_get.
Definition flist_len : plist filter_t → nat := list_len.
Definition flist_has : plist filter_t → filter_t → M St bool := list_has flist_elem_equal.
Definition flist_index_of : plist filter_t → filter_t → M St Z := list_index_of flist_elem_equal.
Definition flist_foreach : plist filter_t → (filter_t → M St bool) → M St unit := list_foreach.
Definition flist_clone : plist filter_t → M St (plist filter_t) := list_clone flist_elem_clone.
Definition flist_clone_non_null : option (plist filter_t) → M St (option (plist filter_t)) :=
  list_clone_non_null flist_elem_clone.
Definition flist_destroy : option (plist filter_t) → M St unit := list_destroy flist_elem_destroy.
Definition flist_append : plist filter_t → filter_t → M St (plist filter_t) :=
  list_append flist_elem_clone.
Definition flist_del : plist filter_t → nat → M St (plist filter_t) := list_del flist_elem_destroy.
Definition flist_clear : plist filter_t → M St (plist filter_t) := list_clear flist_elem_destroy.
End flist.

(** ** Lists by value as plain lists *)

Inductive list_op (A : Type) :=
  | LAppend (x : A) | LGet (i : nat) | LDel (i : nat) | LClear | LLen | LHas (x : A) | LIndexOf (x : A)
  | LClone | LForeach.
Arguments LAppend {A} _.
Arguments LGet {A} _.
Arguments LDel {A} _.
Arguments LClear {A}.
Arguments LLen {A}.
Arguments LHas {A} _.
Arguments LIndexOf {A} _.
Arguments LClone {A}.
Arguments LForeach {A}.

(** What a call returns; for a [foreach], the elements it has visited. *)
Inductive list_obs (A : Type) := LUnit | LElem (x : A) | LSize (n : nat) | LBool (b : bool) | LPos (z : Z)
  | LElems (l : list A).
Arguments LUnit {A}.
Arguments LElem {A} _.
Arguments LSize {A} _.
Arguments LBool {A} _.
Arguments LPos {A} _.
Arguments LElems {A} _.

Section refinement.
Context {A : Type} (elem_clone : A → A) (elem_equal : A → A → bool).

(** The state of the callbacks is what a [foreach] has visited. *)
Abbreviation St := (list A).
Abbreviation clone := (λ x : A, mret (elem_clone x) : M St A).
Abbreviation destroy := (λ _ : A, mret tt : M St unit).

Definition visit (x : A) : M St bool := λ seen, Ok (true, seen ++ [x]).

(** A clone takes the place of the list it is made of. *)
Definition by_value_step (op : list_op A) (p : plist A) : M St (list_obs A * plist A) :=
  match op with
  | LAppend x => p' ← list_append clone p x; mret (LUnit, p')
  | LGet i => x ← list_get p i; mret (LElem x, p)
  | LDel i => p' ← list_del destroy p i; mret (LUnit, p')
  | LClear => p' ← list_clear destroy p; mret (LUnit, p')
  | LLen => mret (LSize (list_len p), p)
  | LHas x => b ← list_has elem_equal p x; mret (LBool b, p)
  | LIndexOf x => z ← list_index_of elem_equal p x; mret (LPos z, p)
  | LClone => p' ← list_clone clone p; mret (LUnit, p')
  | LForeach =>
      _ ← modify (λ _, []);
      _ ← list_foreach p visit;
      l ← gets id;
      mret (LElems l, p)
  end.

Definition plain_step (op : list_op A) (l : list A) : outcome (list_obs A * list A) :=
  match op with
  | LAppend x => Ok (LUnit, l ++ [elem_clone x])
  | LGet i => match l !! i with Some x => Ok (LElem x, l) | None => Fail AssertFailed end
  | LDel i => if decide (i < length l) then Ok (LUnit, delete i l) else Fail AssertFailed
  | LClear => Ok (LUnit, [])
  | LLen => Ok (LSize (length l), l)
  | LHas x => Ok (LBool (existsb (λ y, elem_equal y x) l), l)
  | LIndexOf x =>
      Ok (LPos (match list_find (λ y, elem_equal y x = true) l with
                | Some (i, _) => Z.of_nat i | None => -1 end)%Z, l)
  | LClone => Ok (LUnit, elem_clone <$> l)
  | LForeach => Ok (LElems l, l)
  end.

Fixpoint by_value_run (ops : list (list_op A)) (p : plist A) : M St (list (list_obs A)) :=
  match ops with
  | [] => mret []
  | op :: ops' => '(o, p') ← by_value_step op p; os ← by_value_run ops' p'; mret (o :: os)
  end.

Fixpoint plain_run (ops : list (list_op A)) (l : list A) : outcome (list (list_obs A)) :=
  match ops with
  | [] => Ok []
  | op :: ops' => '(o, l') ← plain_step op l; os ← plain_run ops' l'; Ok (o :: os)
  end.

(** Both fail alike, or give the same in related states. *)
Definition step_agrees (r : outcome (list_obs A * plist A * St)) (r' : outcome (list_obs A * list A))
    : Prop :=
  match r, r' with
  | Ok (o, p, _), Ok (o', l) => o = o' ∧ plist_repr p l
  | Fail e, Fail e' => e = e'
  | _, _ => False
  end.

Lemma mfold_unit (l : list A) (s : St) : mfold (λ _ _, mret tt) l tt s = Ok (tt, s).
Proof. induction l as [|x l IH]; [done|exact IH]. Qed.

Lemma mfold_clone (l : list A) : ∀ acc (s : St),
  mfold (λ x acc, x' ← clone x; mret (acc ++ [x'])) l acc s = Ok (acc ++ (elem_clone <$> l), s).
Proof.
  induction l as [|x l IH]; intros acc s; csimpl; [by rewrite app_nil_r|].
  unfold mbind, M_bind, mret, M_ret in IH |- *. rewrite IH. by rewrite <-app_assoc.
Qed.

Lemma mwhile_visit (l : list A) : ∀ seen, mwhile visit l seen = Ok (tt, seen ++ l).
Proof.
  induction l as [|x l IH]; intros seen; simpl; [by rewrite app_nil_r|].
  unfold mbind, M_bind, visit at 1. by rewrite IH, <-app_assoc.
Qed.

Lemma plist_get_oob p (l : list A) i : plist_repr p l → length l ≤ i →
  plist_get p i = Fail AssertFailed.
Proof.
  intros (_ & Hl & _) Hi. unfold plist_get. by rewrite bool_decide_eq_false_2 by lia.
Qed.

Lemma has_existsb p (l : list A) x : plist_repr p l →
  plist_has p elem_equal x = Ok (existsb (λ y, elem_equal y x) l).
Proof.
  intros Hp. rewrite (plist_has_spec elem_equal x p l) by done. f_equal.
  destruct (existsb _ l) eqn:E.
  - apply bool_decide_eq_true_2, Exists_exists. apply existsb_exists in E as (y & Hy & Ey).
    exists y. split; [by apply list_elem_of_In|done].
  - apply bool_decide_eq_false_2. intros (y & Hy & Ey)%Exists_exists.
    apply not_true_iff_false in E. apply E, existsb_exists. exists y.
    split; [by apply list_elem_of_In|done].
Qed.

Lemma by_value_step_repr op p l s : plist_repr p l → (Z.of_nat (length l) < 2 ^ 64)%Z →
  step_agrees (by_value_step op p s) (plain_step op l).
Proof.
  intros Hp Hmax. destruct op as [x|i|i| | |x|x| |]; unfold by_value_step, mbind, M_bind; simpl.
  - unfold list_append, plist_append_deep, mbind, M_bind, lift. simpl.
    destruct (plist_append_repr p l (elem_clone x) Hp) as (p' & -> & Hp'). by split.
  - unfold list_get, lift. destruct (l !! i) as [x|] eqn:Hi.
    + by rewrite (plist_get_lookup p l i x Hp Hi).
    + by rewrite (plist_get_oob p l i Hp (proj1 (lookup_ge_None _ _) Hi)).
  - unfold list_del, plist_del_deep, mbind, M_bind, lift. case_decide as Hi.
    + destruct (lookup_lt_is_Some_2 l i Hi) as [x Hx]. rewrite (plist_get_lookup p l i x Hp Hx).
      destruct (plist_del_repr p l i Hp Hi Hmax) as (p' & -> & Hp'). by split.
    + by rewrite (plist_get_oob p l i Hp) by lia.
  - unfold list_clear. rewrite (plist_clear_deep_spec p l _ s Hp). unfold mbind, M_bind.
    rewrite mfold_unit. split; [done|by eapply plist_clear_repr].
  - split; [|done]. unfold list_len, plist_len. destruct Hp as (_ & -> & _). done.
  - unfold list_has, lift. by rewrite (has_existsb p l x Hp).
  - unfold list_index_of, lift. by rewrite (plist_index_of_spec elem_equal x p l Hp).
  - assert (Hc : wp (mfold (λ x acc, x' ← clone x; mret (acc ++ [x'])) l [])
      (λ l' _, l' = elem_clone <$> l) s) by (unfold wp; by rewrite mfold_clone).
    pose proof (plist_clone_deep_repr p l clone s _ Hp Hc) as Hw. unfold wp in Hw. unfold list_clone.
    destruct (plist_clone_deep p clone s) as [[p' s']|]; [|done]. destruct Hw as (l' & Hp' & ->).
    by split.
  - unfold list_foreach. rewrite (plist_foreach_spec p l visit [] Hp), mwhile_visit. by split.
Qed.

Lemma plain_step_length op l o l' : plain_step op l = Ok (o, l') → length l' ≤ S (length l).
Proof.
  destruct op; simpl; intros E; try (injection E as <- <-);
    rewrite ?length_app, ?length_fmap; simpl; try lia.
  - destruct (l !! i); [injection E as _ <-; lia|done].
  - case_decide as Hi; [|done]. injection E as _ <-.
    rewrite length_delete by by apply lookup_lt_is_Some. lia.
Qed.

Lemma by_value_run_repr ops : ∀ p l s, plist_repr p l →
  (Z.of_nat (length l + length ops) < 2 ^ 64)%Z →
  fst <$> by_value_run ops p s = plain_run ops l.
Proof.
  induction ops as [|op ops IH]; intros p l s Hp Hmax; [done|]. cbn [by_value_run plain_run].
  simpl length in Hmax. pose proof (by_value_step_repr op p l s Hp ltac:(lia)) as Hstep.
  unfold step_agrees in Hstep. unfold mbind at 1, M_bind at 1.
  destruct (by_value_step op p s) as [[[o p'] s']|e], (plain_step op l) as [[o' l']|e'] eqn:E;
    try done; [|by rewrite Hstep].
  destruct Hstep as [-> Hp']. apply plain_step_length in E.
  specialize (IH p' l' s' Hp' ltac:(lia)). unfold mbind, M_bind, outcome_bind.
  rewrite <-IH. by destruct (by_value_run ops p' s') as [[os s2]|].
Qed.
End refinement.

(** ** Properties *)

(** The same calls on an [slist]. *)
Definition slist_step (op : list_op cstr) (p : plist cstr) : M (list cstr) (list_obs cstr * plist cstr) :=
  match op with
  | LAppend x => p' ← slist_append p x; mret (LUnit, p')
  | LGet i => x ← slist_get p i; mret (LElem x, p)
  | LDel i => p' ← slist_del p i; mret (LUnit, p')
  | LClear => p' ← slist_clear p; mret (LUnit, p')
  | LLen => mret (LSize (slist_len p), p)
  | LHas x => b ← slist_has p x; mret (LBool b, p)
  | LIndexOf x => z ← slist_index_of p x; mret (LPos z, p)
  | LClone => p' ← slist_clone p; mret (LUnit, p')
  | LForeach =>
      _ ← modify (λ _, []);
      _ ← slist_foreach p visit;
      l ← gets id;
      mret (LElems l, p)
  end.

Fixpoint slist_run (ops : list (list_op cstr)) (p : plist cstr) : M (list cstr) (list (list_obs cstr)) :=
  match ops with
  | [] => mret []
  | op :: ops' => '(o, p') ← slist_step op p; os ← slist_run ops' p'; mret (o :: os)
  end.

Lemma slist_run_by_value ops : ∀ p s,
  slist_run ops p s = by_value_run id slist_elem_equal ops p s.
Proof.
  induction ops as [|op ops IH]; intros p s; [done|]. cbn [slist_run by_value_run].
  unfold mbind at 1, M_bind at 1. unfold mbind at 2, M_bind at 2.
  replace (by_value_step id slist_elem_equal op p s) with (slist_step op p s) by (by destruct op).
  destruct (slist_step op p s) as [[[o p'] s']|]; [|done]. unfold mbind, M_bind. by rewrite IH.
Qed.

(** Lists of strings: any sequence of appending, getting, deleting, clearing,
    searching, cloning and visiting on an [slist] gives the results of the same
    operations on a plain list, the failed assertions for positions that are not
    there included. *)
Lemma slist_refines_list (ops : list (list_op cstr)) : (Z.of_nat (length ops) < 2 ^ 64)%Z →
  fst <$> slist_run ops slist_create [] = plain_run id slist_elem_equal ops [].
Proof.
  intros Hn. rewrite slist_run_by_value. by apply by_value_run_repr; [apply plist_create_repr|].
Qed.

Definition some_list_ops : list (list_op cstr) :=
  [LAppend (C "a"); LAppend (C "b"); LDel 0; LHas (C "b"); LForeach; LDel 1].

Lemma slist_refines_list_witness : fst <$> slist_run some_list_ops slist_create [] = Fail AssertFailed.
Proof. rewrite (slist_refines_list some_list_ops); [reflexivity|simpl; lia]. Defined.
