(* ===== verification/Double.v ===== *)
(** * double, and the time functions of src/util/util.c

    A C [double] is an IEEE 754 binary64 number, here the executable
    specification of the Standard Library ([SpecFloat]).  Converting a value
    out of the range of the integer type is undefined behaviour.  The bounds
    at the end ([fits2]: the magnitude is at most a power of two) show that
    the times the server computes with stay finite and convertible. *)

From Stdlib Require Import SpecFloat.
From S2P Require Import Prelude.

Abbreviation double := spec_float.

Definition prec : Z := 53.
Definition emax : Z := 1024.

Definition d_add (x y : double) : double := SFadd prec emax x y.
Definition d_sub (x y : double) : double := SFsub prec emax x y.
Definition d_mul (x y : double) : double := SFmul prec emax x y.
Definition d_div (x y : double) : double := SFdiv prec emax x y.
Definition d_lt (x y : double) : bool := SFltb x y.

(** [x >= y]; false when one is not a number. *)
Definition d_ge (x y : double) : bool := SFleb y x.

Definition isnan (x : double) : bool :=
  match x with S754_nan => true | _ => false end.

Definition NAN : double := S754_nan.

(** Conversion of an integer. *)
Definition d_of_Z (z : Z) : double := binary_normalize prec emax z 0 false.

(** Conversion to a 64-bit integer, towards zero. *)
Definition d_trunc (x : double) : outcome Z :=
  match x with
  | S754_zero _ => Ok 0%Z
  | S754_finite s m e =>
      let a := if bool_decide (0 ≤ e)%Z then (Z.pos m * 2 ^ e)%Z
               else (Z.pos m / 2 ^ (- e))%Z in
      let v := if s then (- a)%Z else a in
      if is_int64 v then Ok v else Fail Undefined
  | _ => Fail Undefined
  end.

Definition d_0 : double := S754_zero false.
Definition d_1e6 : double := d_of_Z 1000000.
Definition d_1e9 : double := d_of_Z 1000000000.

(** [struct timespec] and [struct timeval]. *)
Record timespec := Timespec { ts_sec : Z; ts_nsec : Z }.
Record timeval := Timeval { tv_sec : Z; tv_usec : Z }.

#[export] Instance timeval_eq_dec : EqDecision timeval.
Proof. solve_decision. Defined.

Definition ut_timespec_to_f (ts : timespec) : double :=
  d_add (d_of_Z (ts_sec ts)) (d_div (d_of_Z (ts_nsec ts)) d_1e9).

Definition ut_f_to_timeval (t : double) : outcome timeval :=
  sec ← d_trunc t;
  usec ← d_trunc (d_mul (d_sub t (d_of_Z sec)) d_1e6);
  Ok (Timeval sec usec).

Definition ut_f_to_timespec (t : double) : outcome timespec :=
  sec ← d_trunc t;
  nsec ← d_trunc (d_mul (d_sub t (d_of_Z sec)) d_1e9);
  Ok (Timespec sec nsec).

Example timeval_1_5 : ut_f_to_timeval (d_div (d_of_Z 3) (d_of_Z 2)) = Ok (Timeval 1 500000).
Proof. vm_compute. reflexivity. Qed.

(** ** Magnitudes *)

(** The number is finite and its magnitude is at most [2^k]. *)
Definition fits2 (k : Z) (x : double) : Prop :=
  match x with
  | S754_zero _ => True
  | S754_finite _ m e => (e ≤ k)%Z ∧ (Z.pos m ≤ 2 ^ (k - e))%Z
  | _ => False
  end.

Definition nonneg (x : double) : bool :=
  match x with
  | S754_zero _ | S754_infinity false | S754_finite false _ _ => true
  | _ => false
  end.

(** A record of the shifted mantissa that approximates [v] from below, and
    from strictly below when a nonzero bit was lost. *)
Definition shr_below (v n : Z) (r : shr_record) : Prop :=
  (0 ≤ shr_m r)%Z ∧ (shr_m r * 2 ^ n ≤ v)%Z ∧
  (shr_r r || shr_s r = true → (shr_m r * 2 ^ n < v)%Z).

Lemma shr_1_below v n r : (0 ≤ n)%Z → shr_below v n r → shr_below v (n + 1) (shr_1 r).
Proof.
  intros Hn (H0 & H1 & H2). destruct r as [m r s]. simpl in *.
  assert (H2' : (r || s = true → m * 2 ^ n < v)%Z) by done. clear H2.
  unfold shr_below. rewrite Z.pow_add_r by lia. change (2 ^ 1)%Z with 2%Z.
  assert (Hp : (0 < 2 ^ n)%Z) by (apply Z.pow_pos_nonneg; lia).
  destruct m as [|[p|p|]|]; simpl in *; [| | | |lia];
    (split_and!; [lia| |]); intros; try (destruct (r || s) eqn:E); simpl in *;
    try specialize (H2' eq_refl); try nia; try done.
Qed.

Lemma iter_pos_below v p : ∀ n r, (0 ≤ n)%Z → shr_below v n r →
  shr_below v (n + Z.pos p) (SpecFloat.iter_pos shr_1 p r).
Proof.
  induction p as [p IH|p IH|]; intros n r Hn Hr; simpl.
  - replace (n + Z.pos p~1)%Z with ((n + 1 + Z.pos p) + Z.pos p)%Z by lia.
    apply IH; [lia|]. apply IH; [lia|]. by apply shr_1_below.
  - replace (n + Z.pos p~0)%Z with ((n + Z.pos p) + Z.pos p)%Z by lia.
    apply IH; [lia|]. by apply IH.
  - by apply shr_1_below.
Qed.

Lemma digits2_pos_pow m : (2 ^ (Z.pos (digits2_pos m) - 1) ≤ Z.pos m)%Z.
Proof.
  induction m as [m IH|m IH|]; simpl; [| |lia];
    rewrite Pos2Z.inj_succ; replace (Z.succ (Z.pos (digits2_pos m)) - 1)%Z
      with (Z.succ (Z.pos (digits2_pos m) - 1)) by lia;
    rewrite Z.pow_succ_r by lia; lia.
Qed.

Lemma digits2_le m j : (0 ≤ j)%Z → (Z.pos m ≤ 2 ^ j)%Z → (Z.pos (digits2_pos m) ≤ j + 1)%Z.
Proof.
  intros Hj Hm. pose proof (digits2_pos_pow m) as H.
  assert (Z.pos (digits2_pos m) - 1 ≤ j)%Z; [|lia].
  apply (Z.pow_le_mono_r_iff 2); lia.
Qed.

(** Shifting a mantissa into the format keeps the bound. *)
Lemma shr_fexp_below m e l k : (0 ≤ m)%Z → (-1074 ≤ k)%Z → (e ≤ k)%Z → (m ≤ 2 ^ (k - e))%Z →
  (l ≠ loc_Exact → m < 2 ^ (k - e))%Z →
  let '(r, e') := shr_fexp prec emax m e l in
  (e' ≤ k)%Z ∧ (0 ≤ shr_m r)%Z ∧ (shr_m r ≤ 2 ^ (k - e'))%Z ∧
  (loc_of_shr_record r ≠ loc_Exact → shr_m r < 2 ^ (k - e'))%Z.
Proof.
  intros Hm Hk He Hle Hl. unfold shr_fexp, shr.
  set (n := (fexp prec emax (Zdigits2 m + e) - e)%Z).
  set (r0 := shr_record_of_loc m l).
  assert (Hm0 : shr_m r0 = m) by (unfold r0; by destruct l as [|[]]).
  assert (H0 : loc_of_shr_record r0 = l) by (unfold r0; by destruct l as [|[]]).
  destruct n as [|p|p] eqn:En; [by rewrite Hm0, H0| |by rewrite Hm0, H0].
  assert (Hn : (e + Z.pos p ≤ k)%Z).
  { rewrite <-En. unfold n, fexp, emin, prec, emax. destruct m as [|q|q]; [simpl; lia| |lia].
    pose proof (digits2_le q (k - e)). simpl. lia. }
  assert (Hb : shr_below (2 ^ (k - e)) (Z.pos p) (SpecFloat.iter_pos shr_1 p r0)).
  { rewrite <-(Z.add_0_l (Z.pos p)). apply iter_pos_below; [lia|].
    split; rewrite Hm0; [lia|]. rewrite Z.pow_0_r, Z.mul_1_r. split; [lia|].
    intros Hrs. apply Hl. intros ->. by subst r0. }
  destruct Hb as (Hb0 & Hb1 & Hb2). set (r := SpecFloat.iter_pos shr_1 p r0) in *.
  assert (Hpow : (2 ^ (k - e) = 2 ^ (k - (e + Z.pos p)) * 2 ^ Z.pos p)%Z).
  { rewrite <-Z.pow_add_r by lia. f_equal. lia. }
  assert (Hp : (0 < 2 ^ Z.pos p)%Z) by (apply Z.pow_pos_nonneg; lia).
  split_and!; [lia|done|nia|]. intros Hne.
  assert (shr_r r || shr_s r = true) as Hrs.
  { destruct r as [? [] []]; simpl in *; try done. }
  specialize (Hb2 Hrs). nia.
Qed.

Lemma binary_round_aux_fits s m e l k : (0 ≤ m)%Z → (-1074 ≤ k ≤ 971)%Z → (e ≤ k)%Z →
  (m ≤ 2 ^ (k - e))%Z → (l ≠ loc_Exact → m < 2 ^ (k - e))%Z →
  fits2 k (binary_round_aux prec emax s m e l) ∧
  nonneg (binary_round_aux prec emax false m e l) = true.
Proof.
  intros Hm Hk He Hle Hl. unfold binary_round_aux.
  pose proof (shr_fexp_below m e l k Hm ltac:(lia) He Hle Hl) as H1.
  destruct (shr_fexp prec emax m e l) as [r1 e1]. destruct H1 as (He1 & H0 & Hle1 & Hl1).
  set (m1 := round_nearest_even (shr_m r1) (loc_of_shr_record r1)).
  assert (Hm1 : (0 ≤ m1 ≤ 2 ^ (k - e1))%Z).
  { unfold m1. destruct (loc_of_shr_record r1) as [|[]]; simpl; try lia;
      specialize (Hl1 ltac:(done)); try case_match; lia. }
  pose proof (shr_fexp_below m1 e1 loc_Exact k ltac:(lia) ltac:(lia) He1 ltac:(lia) ltac:(done))
    as H2.
  destruct (shr_fexp prec emax m1 e1 loc_Exact) as [r2 e2]. destruct H2 as (He2 & H02 & Hle2 & _).
  destruct (shr_m r2) as [|q|q]; [done| |lia].
  rewrite (proj2 (Z.leb_le e2 (emax - prec))) by (unfold emax, prec; lia). done.
Qed.

Lemma iter_xO m p : Z.pos (Pos.iter xO m p) = (Z.pos m * 2 ^ Z.pos p)%Z.
Proof.
  induction p as [|p IH] using Pos.peano_ind; [simpl; lia|].
  rewrite Pos.iter_succ, Pos2Z.inj_succ, Z.pow_succ_r by lia. lia.
Qed.

Lemma shl_align_below m e e' k : (e ≤ k)%Z → (Z.pos m ≤ 2 ^ (k - e))%Z →
  let '(m', e'') := shl_align m e e' in
  (e'' ≤ e)%Z ∧ (Z.pos m' ≤ 2 ^ (k - e''))%Z ∧ (e' ≤ e → e'' = e')%Z.
Proof.
  intros He Hm. unfold shl_align. destruct (e' - e)%Z as [|p|p] eqn:E;
    [split_and!; [done|done|lia]..|].
  split_and!; [lia| |lia]. rewrite iter_xO.
  replace (k - e')%Z with ((k - e) + Z.pos p)%Z by lia. rewrite Z.pow_add_r by lia.
  assert (0 < 2 ^ Z.pos p)%Z by (apply Z.pow_pos_nonneg; lia). nia.
Qed.

Lemma binary_round_fits s m e k : (-1074 ≤ k ≤ 971)%Z → (e ≤ k)%Z →
  (Z.pos m ≤ 2 ^ (k - e))%Z →
  fits2 k (binary_round prec emax s m e) ∧ nonneg (binary_round prec emax false m e) = true.
Proof.
  intros Hk He Hm. unfold binary_round.
  pose proof (shl_align_below m e (fexp prec emax (Z.pos (digits2_pos m) + e)) k He Hm) as Ha.
  destruct (shl_align m e _) as [mz ez]. destruct Ha as (H1 & H2 & _).
  apply binary_round_aux_fits; (lia || done).
Qed.

Lemma binary_normalize_fits m e k : (-1074 ≤ k ≤ 971)%Z → (e ≤ k)%Z →
  (Z.abs m ≤ 2 ^ (k - e))%Z → fits2 k (binary_normalize prec emax m e false).
Proof.
  intros Hk He Hm. destruct m as [|p|p]; simpl; [done|..]; by apply binary_round_fits.
Qed.

Lemma binary_normalize_nonneg m e k : (-1074 ≤ k ≤ 971)%Z → (e ≤ k)%Z →
  (0 ≤ m ≤ 2 ^ (k - e))%Z → nonneg (binary_normalize prec emax m e false) = true.
Proof.
  intros Hk He Hm. destruct m as [|p|p]; simpl; [done| |lia].
  by eapply (binary_round_fits false); [|exact He|lia].
Qed.

Lemma d_of_Z_fits z k : (0 ≤ k ≤ 971)%Z → (Z.abs z ≤ 2 ^ k)%Z → fits2 k (d_of_Z z).
Proof. intros Hk Hz. apply binary_normalize_fits; [lia|lia|by rewrite Z.sub_0_r]. Qed.

Lemma d_of_Z_nonneg z k : (0 ≤ k ≤ 971)%Z → (0 ≤ z ≤ 2 ^ k)%Z → nonneg (d_of_Z z) = true.
Proof.
  intros Hk Hz. apply (binary_normalize_nonneg _ _ k); [lia|lia|by rewrite Z.sub_0_r].
Qed.

Lemma fits2_mono k k' x : (k ≤ k')%Z → fits2 k x → fits2 k' x.
Proof.
  intros Hk. destruct x as [s|s| |s m e]; simpl; [done..|]. intros [He Hm]. split; [lia|].
  etrans; [exact Hm|]. apply Z.pow_le_mono_r; lia.
Qed.

(** Aligning two mantissas at their smaller exponent. *)
Lemma align_two mx ex my ey k : (ex ≤ k)%Z → (ey ≤ k)%Z →
  (Z.pos mx ≤ 2 ^ (k - ex))%Z → (Z.pos my ≤ 2 ^ (k - ey))%Z →
  let ez := Z.min ex ey in
  (ez ≤ k)%Z ∧ (Z.pos (shl_align mx ex ez).1 ≤ 2 ^ (k - ez))%Z ∧
  (Z.pos (shl_align my ey ez).1 ≤ 2 ^ (k - ez))%Z ∧
  (2 ^ (k + 1 - ez) = 2 * 2 ^ (k - ez))%Z.
Proof.
  intros Hex Hey Hx Hy ez.
  pose proof (shl_align_below mx ex ez k Hex Hx) as H1.
  pose proof (shl_align_below my ey ez k Hey Hy) as H2.
  destruct (shl_align mx ex ez) as [m1 e1], (shl_align my ey ez) as [m2 e2]. simpl.
  destruct H1 as (_ & H1 & E1), H2 as (_ & H2 & E2).
  rewrite E1 in H1 by lia. rewrite E2 in H2 by lia.
  split_and!; [lia|done|done|]. rewrite <-Z.pow_succ_r by lia. f_equal. lia.
Qed.

Lemma d_add_fits k x y : (-1074 ≤ k ≤ 970)%Z → fits2 k x → fits2 k y → fits2 (k + 1) (d_add x y).
Proof.
  intros Hk Hx Hy. unfold d_add, SFadd.
  destruct x as [sx|sx| |sx mx ex], y as [sy|sy| |sy my ey]; try done.
  - by destruct sx, sy.
  - apply (fits2_mono k); [lia|done].
  - apply (fits2_mono k); [lia|done].
  - destruct Hx as [Hex Hx], Hy as [Hey Hy].
    destruct (align_two mx ex my ey k Hex Hey Hx Hy) as (H1 & H2 & H3 & H4).
    apply binary_normalize_fits; [lia|lia|]. rewrite H4.
    generalize dependent (2 ^ (k - Z.min ex ey))%Z. intros B H2 H3 _.
    destruct sx, sy; cbn [cond_Zopp]; lia.
Qed.

Lemma d_sub_fits k x y : (-1074 ≤ k ≤ 970)%Z → fits2 k x → fits2 k y → fits2 (k + 1) (d_sub x y).
Proof.
  intros Hk Hx Hy. unfold d_sub, SFsub.
  destruct x as [sx|sx| |sx mx ex], y as [sy|sy| |sy my ey]; try done.
  - by destruct sx, sy.
  - apply (fits2_mono k); [lia|done].
  - apply (fits2_mono k); [lia|done].
  - destruct Hx as [Hex Hx], Hy as [Hey Hy].
    destruct (align_two mx ex my ey k Hex Hey Hx Hy) as (H1 & H2 & H3 & H4).
    apply binary_normalize_fits; [lia|lia|]. rewrite H4.
    generalize dependent (2 ^ (k - Z.min ex ey))%Z. intros B H2 H3 _.
    destruct sx, sy; cbn [cond_Zopp]; lia.
Qed.

Lemma d_add_nonneg k x y : (-1074 ≤ k ≤ 970)%Z → fits2 k x → fits2 k y →
  nonneg x = true → nonneg y = true → nonneg (d_add x y) = true.
Proof.
  intros Hk Hx Hy Nx Ny. unfold d_add, SFadd.
  destruct x as [sx|sx| |[] mx ex], y as [sy|sy| |[] my ey]; try done.
  - by destruct sx, sy.
  - destruct Hx as [Hex Hx], Hy as [Hey Hy].
    destruct (align_two mx ex my ey k Hex Hey Hx Hy) as (H1 & H2 & H3 & H4).
    apply (binary_normalize_nonneg _ _ (k + 1)); [lia|lia|]. rewrite H4.
    generalize dependent (2 ^ (k - Z.min ex ey))%Z. intros B H2 H3 _.
    cbn [cond_Zopp]. lia.
Qed.

Lemma d_mul_fits k j x y : (-1074 ≤ k + j ≤ 971)%Z → fits2 k x → fits2 j y →
  fits2 (k + j) (d_mul x y).
Proof.
  intros Hk Hx Hy. unfold d_mul, SFmul.
  destruct x as [sx|sx| |sx mx ex], y as [sy|sy| |sy my ey]; try done.
  destruct Hx as [Hex Hx], Hy as [Hey Hy].
  apply (binary_round_aux_fits _ _ _ _ (k + j)); [lia|lia|lia| |done].
  rewrite Pos2Z.inj_mul. replace (k + j - (ex + ey))%Z with ((k - ex) + (j - ey))%Z by lia.
  rewrite Z.pow_add_r by lia. nia.
Qed.

Lemma digits2_lt m : (Z.pos m < 2 ^ Z.pos (digits2_pos m))%Z.
Proof.
  induction m as [m IH|m IH|]; simpl; [| |lia];
    rewrite Pos2Z.inj_succ, Z.pow_succ_r by lia; lia.
Qed.

(** The quotient of two mantissas, its exponent and what is left over. *)
Lemma SFdiv_core_spec mx ex my ey :
  let '(q, e, l) := SFdiv_core_binary prec emax (Z.pos mx) ex (Z.pos my) ey in
  (e ≤ fexp prec emax (Z.pos (digits2_pos mx) + ex - (Z.pos (digits2_pos my) + ey)))%Z ∧
  (e ≤ ex - ey)%Z ∧
  ∃ r, l = new_location (Z.pos my) r ∧ (0 ≤ r < Z.pos my)%Z ∧
    (Z.pos mx * 2 ^ (ex - ey - e) = Z.pos my * q + r)%Z.
Proof.
  unfold SFdiv_core_binary. simpl Zdigits2. set (e := Z.min _ (ex - ey)).
  assert (He : (e ≤ ex - ey)%Z) by (unfold e; lia).
  assert (Hf : (e ≤ fexp prec emax (Z.pos (digits2_pos mx) + ex - (Z.pos (digits2_pos my) + ey)))%Z)
    by apply Z.le_min_l.
  clearbody e.
  set (m' := match (ex - ey - e)%Z with Z0 => Z.pos mx | Zpos _ => Z.shiftl (Z.pos mx) (ex - ey - e)
             | Zneg _ => 0%Z end).
  assert (Hm' : m' = (Z.pos mx * 2 ^ (ex - ey - e))%Z).
  { unfold m'. destruct (ex - ey - e)%Z as [|p|p] eqn:E; [lia| |lia].
    by rewrite Z.shiftl_mul_pow2 by lia. }
  clearbody m'. pose proof (Z.div_mod m' (Z.pos my)) as Hdm.
  pose proof (Z.mod_pos_bound m' (Z.pos my)) as Hr.
  unfold Z.div, Z.modulo in Hdm, Hr. destruct (Z.div_eucl m' (Z.pos my)) as [q r].
  split; [done|]. split; [done|]. exists r. rewrite <-Hm'. split; [done|]. split; lia.
Qed.

(** Division by a number that is at least one. *)
Lemma d_div_fits k x my ey : (0 ≤ k ≤ 971)%Z → fits2 k x →
  (ey ≤ 0)%Z → (2 ^ (- ey) ≤ Z.pos my)%Z →
  fits2 k (d_div x (S754_finite false my ey)) ∧
  (nonneg x = true → nonneg (d_div x (S754_finite false my ey)) = true).
Proof.
  intros Hk Hx Hey Hmy. unfold d_div, SFdiv.
  destruct x as [sx|sx| |sx mx ex]; [by destruct sx|done|done|].
  destruct Hx as [Hex Hx]. pose proof (SFdiv_core_spec mx ex my ey) as Hc.
  destruct (SFdiv_core_binary _ _ _ _ _ _) as [[q e'] l].
  destruct Hc as (He' & He2 & r & -> & Hr & Hdm).
  assert (He1 : (e' ≤ k)%Z).
  { etrans; [exact He'|]. pose proof (digits2_le mx (k - ex) ltac:(lia) Hx) as H1.
    assert (H2 : (- ey ≤ Z.pos (digits2_pos my))%Z).
    { destruct (Z.le_gt_cases (- ey) (Z.pos (digits2_pos my))) as [|H]; [done|].
      pose proof (digits2_lt my).
      assert (2 ^ Z.pos (digits2_pos my) ≤ 2 ^ (- ey))%Z by (apply Z.pow_le_mono_r; lia). lia. }
    unfold fexp, emin, prec, emax. lia. }
  assert (Hpos : (0 < 2 ^ (ex - ey - e'))%Z) by (apply Z.pow_pos_nonneg; lia).
  set (m' := (Z.pos mx * 2 ^ (ex - ey - e'))%Z) in *.
  assert (Hbound : (m' ≤ 2 ^ (k - e') * 2 ^ (- ey))%Z).
  { rewrite <-Z.pow_add_r by lia. replace (k - e' + - ey)%Z with ((k - ex) + (ex - ey - e'))%Z by lia.
    rewrite Z.pow_add_r by lia. nia. }
  assert (Hq0 : (0 ≤ q)%Z) by nia.
  assert (HB : (0 < 2 ^ (k - e'))%Z) by (apply Z.pow_pos_nonneg; lia).
  assert (HC : (0 < 2 ^ (- ey))%Z) by (apply Z.pow_pos_nonneg; lia).
  assert (Hq : (q ≤ 2 ^ (k - e'))%Z) by nia.
  assert (Hl : (new_location (Z.pos my) r ≠ loc_Exact → q < 2 ^ (k - e'))%Z).
  { intros Hne. assert (r ≠ 0%Z).
    { intros ->. apply Hne. unfold new_location, new_location_even, new_location_odd.
      by destruct (Z.even _). }
    nia. }
  destruct (binary_round_aux_fits (xorb sx false) q e' (new_location (Z.pos my) r) k
              Hq0 ltac:(lia) He1 Hq Hl) as [Hf Hn].
  split; [done|]. by destruct sx.
Qed.

Lemma d_trunc_fits k x : (0 ≤ k ≤ 62)%Z → fits2 k x →
  ∃ z, d_trunc x = Ok z ∧ (Z.abs z ≤ 2 ^ k)%Z.
Proof.
  intros Hk Hx. destruct x as [s|s| |s m e]; [|done|done|].
  { exists 0%Z. split; [done|]. apply Z.pow_nonneg. lia. }
  destruct Hx as [He Hm]. simpl.
  set (a := if bool_decide (0 ≤ e)%Z then (Z.pos m * 2 ^ e)%Z else (Z.pos m / 2 ^ (- e))%Z).
  assert (Ha : (0 ≤ a ≤ 2 ^ k)%Z).
  { unfold a. case_bool_decide.
    - assert (2 ^ k = 2 ^ (k - e) * 2 ^ e)%Z by (rewrite <-Z.pow_add_r by lia; f_equal; lia).
      assert (0 < 2 ^ e)%Z by (apply Z.pow_pos_nonneg; lia). nia.
    - assert (2 ^ (k - e) = 2 ^ k * 2 ^ (- e))%Z by (rewrite <-Z.pow_add_r by lia; f_equal; lia).
      assert (0 < 2 ^ (- e))%Z by (apply Z.pow_pos_nonneg; lia).
      split; [apply Z.div_pos; lia|]. apply Z.div_le_upper_bound; lia. }
  clearbody a. assert (H62 : (2 ^ k ≤ 2 ^ 62)%Z) by (apply Z.pow_le_mono_r; lia).
  assert (Hv : is_int64 (if s then (- a)%Z else a) = true).
  { unfold is_int64, int64_min, int64_max. apply andb_true_iff.
    rewrite !bool_decide_eq_true. destruct s; lia. }
  rewrite Hv. eexists. split; [done|]. destruct s; lia.
Qed.

(** ** Readings of the clock *)

(** What [clock_gettime] returns until the year 2242. *)
Definition timespec_ok (ts : timespec) : Prop :=
  (0 ≤ ts_sec ts ≤ 2 ^ 33)%Z ∧ (0 ≤ ts_nsec ts < 1000000000)%Z.

(** A point in time as [ut_ftime] returns it. *)
Definition time_ok (t : double) : Prop := fits2 34 t ∧ nonneg t = true.

Lemma ut_timespec_to_f_ok ts : timespec_ok ts → time_ok (ut_timespec_to_f ts).
Proof.
  intros [Hs Hn]. unfold ut_timespec_to_f, time_ok.
  assert (E : ∃ m e, d_1e9 = S754_finite false m e ∧ (e ≤ 0)%Z ∧ (2 ^ (- e) ≤ Z.pos m)%Z).
  { eexists _, _. split; [vm_compute; reflexivity|]. split; lia. }
  destruct E as (m & e & -> & He & Hm).
  assert (H33 : fits2 33 (d_of_Z (ts_nsec ts))) by (apply d_of_Z_fits; lia).
  assert (N33 : nonneg (d_of_Z (ts_nsec ts)) = true) by (apply (d_of_Z_nonneg _ 33); lia).
  destruct (d_div_fits 33 (d_of_Z (ts_nsec ts)) m e ltac:(lia) H33 He Hm) as [Hf Hnn].
  assert (S33 : fits2 33 (d_of_Z (ts_sec ts))) by (apply d_of_Z_fits; lia).
  assert (NS : nonneg (d_of_Z (ts_sec ts)) = true) by (apply (d_of_Z_nonneg _ 33); lia).
  split.
  - by apply (d_add_fits 33).
  - apply (d_add_nonneg 33); auto; lia.
Qed.

(** A moderate number of seconds converts to a [timeval]. *)
Lemma ut_f_to_timeval_ok t : fits2 37 t → ∃ tv, ut_f_to_timeval t = Ok tv.
Proof.
  intros Ht. unfold ut_f_to_timeval.
  destruct (d_trunc_fits 37 t ltac:(lia) Ht) as (sec & -> & Hsec). simpl.
  assert (Hd : fits2 38 (d_sub t (d_of_Z sec))).
  { apply (d_sub_fits 37); [lia|done|]. apply d_of_Z_fits; lia. }
  assert (Hm : fits2 58 (d_mul (d_sub t (d_of_Z sec)) d_1e6)).
  { apply (d_mul_fits 38 20); [lia|done|]. apply d_of_Z_fits; lia. }
  destruct (d_trunc_fits 58 _ ltac:(lia) Hm) as (usec & -> & _). by eexists.
Qed.

(** Comparisons with zero. *)
Lemma d_ge_0 x : d_ge x d_0 = nonneg x.
Proof. destruct x as [[]|[]| |[] m e]; reflexivity. Qed.

Lemma d_lt_0 x : isnan x = false → d_lt x d_0 = negb (nonneg x).
Proof. destruct x as [[]|[]| |[] m e]; done || reflexivity. Qed.

Lemma d_trunc_time t : time_ok t → ∃ z, d_trunc t = Ok z ∧ (0 ≤ z ≤ 2 ^ 34)%Z.
Proof.
  intros [Hf Hn]. destruct (d_trunc_fits 34 t ltac:(lia) Hf) as (z & E & Hz).
  exists z. split; [done|]. split; [|lia].
  destruct t as [s|[]| |[] m e]; try done; simpl in E; [by simplify_eq|].
  destruct (is_int64 _); [|done]. simplify_eq. case_bool_decide; [|apply Z.div_pos; lia].
  apply Z.mul_nonneg_nonneg; lia.
Qed.

Lemma time_ok_not_nan t : time_ok t → isnan t = false.
Proof. intros [Ht _]. by destruct t. Qed.
