(* ===== verification/Rounding.v ===== *)
(** * The exact values of doubles, and what rounding adds

    [val x] is the rational number that a finite double is.  The operations of
    Double.v give the exact result but for an error that is small against the
    result's magnitude ([rounds]), whatever the direction of the rounding; and
    so the conversions of src/src/util/util.c between clock readings, seconds
    as a [double] and a [struct timeval] are off by microseconds only. *)

From Stdlib Require Import SpecFloat QArith Qpower Lqa.
From S2P Require Import Prelude Double.

(** ** Shifting a mantissa *)

(** A record is the mantissa [m] shifted by [n] bits; [lost] says whether
    something had been lost before. *)
Definition shr_floor (m n : Z) (lost : bool) (r : shr_record) : Prop :=
  (0 ≤ shr_m r)%Z ∧ (shr_m r * 2 ^ n ≤ m < (shr_m r + 1) * 2 ^ n)%Z ∧
  (shr_r r || shr_s r = false → m = (shr_m r * 2 ^ n)%Z ∧ lost = false).

Lemma shr_1_floor m n b r : (0 ≤ n)%Z → shr_floor m n b r → shr_floor m (n + 1) b (shr_1 r).
Proof.
  intros Hn (H0 & H1 & H2). destruct r as [q r s]. simpl in *.
  assert (H2' : r || s = false → m = (q * 2 ^ n)%Z ∧ b = false) by done. clear H2.
  unfold shr_floor. rewrite Z.pow_add_r by lia. change (2 ^ 1)%Z with 2%Z.
  assert (Hp : (0 < 2 ^ n)%Z) by (apply Z.pow_pos_nonneg; lia).
  destruct q as [|[p|p|]|]; simpl in *; [| | | |lia];
    (split; [lia|split; [nia|]]); intros; try done; destruct H2' as [-> ->]; try done; split; lia.
Qed.

Lemma iter_pos_floor m b p : ∀ n r, (0 ≤ n)%Z → shr_floor m n b r →
  shr_floor m (n + Z.pos p) b (SpecFloat.iter_pos shr_1 p r).
Proof.
  induction p as [p IH|p IH|]; intros n r Hn Hr; simpl.
  - replace (n + Z.pos p~1)%Z with ((n + 1 + Z.pos p) + Z.pos p)%Z by lia.
    apply IH; [lia|]. apply IH; [lia|]. by apply shr_1_floor.
  - replace (n + Z.pos p~0)%Z with ((n + Z.pos p) + Z.pos p)%Z by lia.
    apply IH; [lia|]. by apply IH.
  - by apply shr_1_floor.
Qed.

(** Where a mantissa is put: the exponent, how far it was shifted, and that no
    more was shifted out than the precision asks for. *)
Lemma shr_fexp_floor m e l k : (0 ≤ m)%Z → (-1022 ≤ k)%Z → (e ≤ k)%Z → (m ≤ 2 ^ (k - e))%Z →
  let '(r, e') := shr_fexp prec emax m e l in
  (e ≤ e')%Z ∧ (e' = e ∨ e' ≤ k - 52)%Z ∧
  (0 ≤ shr_m r)%Z ∧ (shr_m r * 2 ^ (e' - e) ≤ m < (shr_m r + 1) * 2 ^ (e' - e))%Z ∧
  (loc_of_shr_record r = loc_Exact → m = (shr_m r * 2 ^ (e' - e))%Z ∧ l = loc_Exact) ∧
  (e' = e → loc_of_shr_record r = l).
Proof.
  intros Hm Hk He Hle. unfold shr_fexp, shr.
  set (n := (fexp prec emax (Zdigits2 m + e) - e)%Z).
  set (r0 := shr_record_of_loc m l).
  assert (Hm0 : shr_m r0 = m) by (unfold r0; by destruct l as [|[]]).
  assert (H0 : loc_of_shr_record r0 = l) by (unfold r0; by destruct l as [|[]]).
  assert (Hstay : (e ≤ e ∧ (e = e ∨ e ≤ k - 52) ∧ 0 ≤ shr_m r0 ∧
    (shr_m r0 * 2 ^ (e - e) ≤ m < (shr_m r0 + 1) * 2 ^ (e - e)) ∧
    (loc_of_shr_record r0 = loc_Exact → m = (shr_m r0 * 2 ^ (e - e)) ∧ l = loc_Exact) ∧
    (e = e → loc_of_shr_record r0 = l))%Z).
  { rewrite Hm0, H0, Z.sub_diag, Z.pow_0_r. split_and!; try lia; [|done].
    intros ->. split; [lia|done]. }
  destruct n as [|p|p] eqn:En; [done| |done].
  replace (e + Z.pos p - e)%Z with (Z.pos p) by lia.
  assert (Hn : (e + Z.pos p ≤ k - 52)%Z).
  { rewrite <-En. unfold n, fexp, emin, prec, emax. destruct m as [|q|q]; [simpl; lia| |lia].
    pose proof (digits2_le q (k - e)). simpl. lia. }
  assert (Hf : shr_floor m (0 + Z.pos p) (shr_r r0 || shr_s r0) (SpecFloat.iter_pos shr_1 p r0)).
  { apply iter_pos_floor; [lia|]. split; rewrite Hm0; [lia|]. rewrite Z.pow_0_r.
    split; [lia|]. intros ->. split; [lia|done]. }
  rewrite Z.add_0_l in Hf. destruct Hf as (Hf0 & Hf1 & Hf2).
  split; [lia|]. split; [by right|]. split; [done|]. split; [done|]. split; [|lia]. intros Hex.
  destruct Hf2 as [Hf2 Hf3].
  { by destruct (SpecFloat.iter_pos shr_1 p r0) as [? [] []]. }
  split; [done|]. unfold r0 in Hf3. by destruct l as [|[]].
Qed.

(** ** Exact values *)

Open Scope Q_scope.

Definition p2 (e : Z) : Q := 2 ^ e.

Lemma p2_pos e : 0 < p2 e.
Proof. by apply Qpower_0_lt. Qed.

Lemma p2_add a b : p2 (a + b) == p2 a * p2 b.
Proof. by apply Qpower_plus. Qed.

Lemma p2_mono a b : (a ≤ b)%Z → p2 a <= p2 b.
Proof. intros. by apply Qpower_le_compat_l. Qed.

Lemma p2_Z n : (0 ≤ n)%Z → inject_Z (2 ^ n) == p2 n.
Proof. intros. by apply Zpower_Qpower. Qed.

Definition val (x : double) : Q :=
  match x with
  | S754_finite s m e => inject_Z (cond_Zopp s (Z.pos m)) * p2 e
  | _ => 0
  end.

Definition finite (x : double) : bool :=
  match x with S754_zero _ | S754_finite _ _ _ => true | _ => false end.

(** [x] is [v] but for the rounding of numbers up to [2 ^ k]. *)
Definition rounds (k : Z) (v : Q) (x : double) : Prop :=
  finite x = true ∧ v - p2 (k - 51) <= val x <= v + p2 (k - 51) ∧
  (0 <= v → 0 <= val x).


(** The mantissa [m] at the exponent [e] and the location [l] stand for [v]. *)
Definition approximates (v : Q) (k m e : Z) (l : location) : Prop :=
  inject_Z m * p2 e <= v ∧ v <= inject_Z m * p2 e + p2 e ∧
  (l = loc_Exact → v == inject_Z m * p2 e) ∧ (l ≠ loc_Exact → (e ≤ k - 52)%Z).

Lemma approximates_exact k m e : approximates (inject_Z m * p2 e) k m e loc_Exact.
Proof. pose proof (p2_pos e). split_and!; [lra|lra|intros _; lra|done]. Qed.

Lemma scaled_le a b n e e' : (0 ≤ n)%Z → e' = (e + n)%Z → (a * 2 ^ n ≤ b)%Z →
  inject_Z a * p2 e' <= inject_Z b * p2 e.
Proof.
  intros Hn -> H. rewrite p2_add, <-(p2_Z n) by done.
  rewrite Zle_Qle, inject_Z_mult in H. pose proof (p2_pos e) as Hp.
  pose proof (Qmult_le_compat_r _ _ (p2 e) H (Qlt_le_weak _ _ Hp)). lra.
Qed.

Lemma scaled_ge a b n e e' : (0 ≤ n)%Z → e' = (e + n)%Z → (b ≤ a * 2 ^ n)%Z →
  inject_Z b * p2 e <= inject_Z a * p2 e'.
Proof.
  intros Hn -> H. rewrite p2_add, <-(p2_Z n) by done.
  rewrite Zle_Qle, inject_Z_mult in H. pose proof (p2_pos e) as Hp.
  pose proof (Qmult_le_compat_r _ _ (p2 e) H (Qlt_le_weak _ _ Hp)). lra.
Qed.

Lemma shr_fexp_approximates v k m e l : (0 ≤ m)%Z → (-1022 ≤ k)%Z → (e ≤ k)%Z →
  (m ≤ 2 ^ (k - e))%Z → approximates v k m e l →
  let '(r, e') := shr_fexp prec emax m e l in
  approximates v k (shr_m r) e' (loc_of_shr_record r).
Proof.
  intros Hm Hk He Hle (H1 & H2 & H3 & H4).
  pose proof (shr_fexp_floor m e l k Hm Hk He Hle) as Hf.
  destruct (shr_fexp prec emax m e l) as [r e']. destruct Hf as (F1 & F2 & F3 & F4 & F5 & F6).
  split_and!.
  - eapply Qle_trans; [|exact H1]. apply (scaled_le _ _ (e' - e)); lia.
  - eapply Qle_trans; [exact H2|].
    assert (H : inject_Z (m + 1) * p2 e <= inject_Z (shr_m r + 1) * p2 e')
      by (apply (scaled_ge _ _ (e' - e)); lia).
    rewrite !inject_Z_plus in H. change (inject_Z 1) with 1 in H. lra.
  - intros Hex. destruct (F5 Hex) as [E ->]. rewrite (H3 eq_refl).
    apply Qle_antisym; [apply (scaled_ge _ _ (e' - e))|apply (scaled_le _ _ (e' - e))]; lia.
  - intros Hne. destruct F2 as [->|F2]; [|done]. rewrite F6 in Hne by done. auto.
Qed.

Lemma p2_double k : p2 (k - 51) == p2 (k - 52) + p2 (k - 52).
Proof.
  replace (k - 51)%Z with ((k - 52) + 1)%Z by lia. rewrite p2_add. change (p2 1) with 2. ring.
Qed.

Lemma approximates_near v k m e l : approximates v k m e l →
  inject_Z m * p2 e <= v <= inject_Z m * p2 e + p2 (k - 52) ∧
  (l ≠ loc_Exact → inject_Z (m + 1) * p2 e <= v + p2 (k - 52)).
Proof.
  intros (H1 & H2 & H3 & H4). pose proof (p2_pos (k - 52)) as Hp. split; [split; [done|]|].
  - destruct l as [|c]; [rewrite (H3 eq_refl); lra|].
    pose proof (p2_mono _ _ (H4 ltac:(done))). lra.
  - intros Hne. pose proof (p2_mono _ _ (H4 Hne)). rewrite inject_Z_plus.
    change (inject_Z 1) with 1. lra.
Qed.

(** Signs. *)
Definition signed (s : bool) (v : Q) : Q := if s then - v else v.

Lemma binary_round_aux_near s m e l k v : (0 ≤ m)%Z → (-1022 ≤ k ≤ 971)%Z → (e ≤ k)%Z →
  (m ≤ 2 ^ (k - e))%Z → (l ≠ loc_Exact → m < 2 ^ (k - e))%Z → approximates v k m e l →
  let x := binary_round_aux prec emax s m e l in
  finite x = true ∧
  ∃ w, val x == signed s w ∧ 0 <= w ∧ v - p2 (k - 51) <= w <= v + p2 (k - 51).
Proof.
  intros Hm Hk He Hle Hl Hv. unfold binary_round_aux.
  pose proof (shr_fexp_below m e l k Hm ltac:(lia) He Hle Hl) as B1.
  pose proof (shr_fexp_approximates v k m e l Hm ltac:(lia) He Hle Hv) as A1.
  destruct (shr_fexp prec emax m e l) as [r1 e1]. destruct B1 as (He1 & H0 & Hle1 & Hl1).
  apply approximates_near in A1. destruct A1 as [A1 A1'].
  set (m1 := round_nearest_even (shr_m r1) (loc_of_shr_record r1)).
  assert (Hm1 : (0 ≤ m1 ≤ 2 ^ (k - e1))%Z ∧
    v - p2 (k - 52) <= inject_Z m1 * p2 e1 <= v + p2 (k - 52)).
  { pose proof (p2_pos (k - 52)). unfold m1.
    destruct (loc_of_shr_record r1) as [|c]; [split; [simpl; lia|simpl; lra]|].
    specialize (Hl1 ltac:(done)). specialize (A1' ltac:(done)).
    rewrite inject_Z_plus in A1'. change (inject_Z 1) with 1 in A1'. pose proof (p2_pos e1).
    destruct c; simpl; try case_match; (split; [lia|]); rewrite ?inject_Z_plus;
      change (inject_Z 1) with 1; lra. }
  clearbody m1. destruct Hm1 as [Hm1 Nm1].
  pose proof (shr_fexp_below m1 e1 loc_Exact k ltac:(lia) ltac:(lia) He1 ltac:(lia) ltac:(done))
    as B2.
  pose proof (shr_fexp_approximates _ k m1 e1 loc_Exact ltac:(lia) ltac:(lia) He1 ltac:(lia)
                (approximates_exact k m1 e1)) as A2.
  destruct (shr_fexp prec emax m1 e1 loc_Exact) as [r2 e2]. destruct B2 as (He2 & H02 & Hle2 & _).
  apply approximates_near in A2. destruct A2 as [A2 _]. pose proof (p2_double k) as Hk2.
  assert (Hw : 0 <= inject_Z (shr_m r2) * p2 e2).
  { apply Qmult_le_0_compat; [|apply Qlt_le_weak, p2_pos]. change 0 with (inject_Z 0).
    by rewrite <-Zle_Qle. }
  destruct (shr_m r2) as [|q|q]; [| |lia].
  - split; [done|]. exists 0. destruct s; (split; [simpl; lra|]); (split; [lra|]);
      change (inject_Z 0) with 0 in *; lra.
  - rewrite (proj2 (Z.leb_le e2 (emax - prec))) by (unfold emax, prec; lia). split; [done|].
    exists (inject_Z (Z.pos q) * p2 e2). split; [|split; [done|lra]].
    destruct s; simpl; [|lra]. change (inject_Z (Z.neg q)) with (inject_Z (- Z.pos q)).
    rewrite inject_Z_opp. lra.
Qed.

(** ** The operations *)

Lemma p2_mono_inv a b : p2 a <= p2 b → (a ≤ b)%Z.
Proof.
  intros H. destruct (Z.le_gt_cases a b) as [|Hlt]; [done|]. exfalso.
  pose proof (p2_mono (b + 1) a ltac:(lia)) as H1. rewrite p2_add in H1.
  change (p2 1) with 2 in H1. pose proof (p2_pos b). lra.
Qed.

Lemma scaled_le_p2 q e k : (e ≤ k)%Z → inject_Z q * p2 e <= p2 k → (q ≤ 2 ^ (k - e))%Z.
Proof.
  intros He H. rewrite Zle_Qle, p2_Z by lia. apply (Qmult_le_r _ _ (p2 e)); [apply p2_pos|].
  rewrite <-p2_add. by replace (k - e + e)%Z with k by lia.
Qed.

Lemma scaled_lt_p2 q e k : (e ≤ k)%Z → inject_Z q * p2 e < p2 k → (q < 2 ^ (k - e))%Z.
Proof.
  intros He H. rewrite Zlt_Qlt, p2_Z by lia. apply (Qmult_lt_r _ _ (p2 e)); [apply p2_pos|].
  rewrite <-p2_add. by replace (k - e + e)%Z with k by lia.
Qed.

Lemma p2_fit m e k : inject_Z (Z.pos m) * p2 e <= p2 k → (e ≤ k)%Z ∧ (Z.pos m ≤ 2 ^ (k - e))%Z.
Proof.
  intros H. pose proof (p2_pos e) as Hp.
  assert (He : (e ≤ k)%Z).
  { apply p2_mono_inv. eapply Qle_trans; [|exact H].
    assert (H1 : inject_Z 1 <= inject_Z (Z.pos m)) by (rewrite <-Zle_Qle; lia).
    pose proof (Qmult_le_compat_r _ _ (p2 e) H1 (Qlt_le_weak _ _ Hp)) as H2.
    change (inject_Z 1) with 1 in H2. lra. }
  split; [done|]. by apply scaled_le_p2.
Qed.

Lemma shl_align_val m e e' :
  inject_Z (Z.pos (shl_align m e e').1) * p2 (shl_align m e e').2 == inject_Z (Z.pos m) * p2 e.
Proof.
  unfold shl_align. destruct (e' - e)%Z as [|p|p] eqn:E; [done|done|]. simpl.
  rewrite iter_xO, inject_Z_mult, p2_Z by lia. replace e with (Z.pos p + e')%Z by lia.
  rewrite p2_add. ring.
Qed.

Lemma binary_round_near s m e k : (-1022 ≤ k ≤ 971)%Z → inject_Z (Z.pos m) * p2 e <= p2 k →
  let v := inject_Z (Z.pos m) * p2 e in
  let x := binary_round prec emax s m e in
  finite x = true ∧
  ∃ w, val x == signed s w ∧ 0 <= w ∧ v - p2 (k - 51) <= w <= v + p2 (k - 51).
Proof.
  intros Hk Hm v. unfold binary_round.
  pose proof (shl_align_val m e (fexp prec emax (Z.pos (digits2_pos m) + e))) as Ea.
  destruct (shl_align m e _) as [mz ez]. simpl in Ea. fold v in Ea, Hm.
  assert (Hz : inject_Z (Z.pos mz) * p2 ez <= p2 k) by lra.
  apply p2_fit in Hz. destruct Hz as [He Hz].
  apply binary_round_aux_near; [lia|lia|done|done|done|].
  pose proof (p2_pos ez). split_and!; [lra|lra|intros _; lra|done].
Qed.

Lemma rounds_signed k s v x : finite x = true → 0 < v →
  (∃ w, val x == signed s w ∧ 0 <= w ∧ v - p2 (k - 51) <= w <= v + p2 (k - 51)) →
  rounds k (signed s v) x.
Proof.
  intros Hf Hv (w & E & Hw & H1). split; [done|]. destruct s; simpl in *; split; try lra.
Qed.

Lemma rounds_exact k v x : finite x = true → val x == v → rounds k v x.
Proof. intros Hf E. pose proof (p2_pos (k - 51)). split; [done|]. split; lra. Qed.

Lemma rounds_eq k v v' x : v == v' → rounds k v x → rounds k v' x.
Proof. intros E (H1 & H2 & H3). split; [done|]. split; [lra|]. intros. apply H3. lra. Qed.

Lemma scaled_pos m e : 0 < inject_Z (Z.pos m) * p2 e.
Proof. apply Qmult_lt_0_compat; [done|apply p2_pos]. Qed.

Lemma binary_normalize_near m e k : (-1022 ≤ k ≤ 971)%Z →
  - p2 k <= inject_Z m * p2 e <= p2 k →
  rounds k (inject_Z m * p2 e) (binary_normalize prec emax m e false).
Proof.
  intros Hk Hm. destruct m as [|p|p]; simpl.
  - apply rounds_exact; [done|]. simpl. change (inject_Z 0) with 0. lra.
  - destruct (binary_round_near false p e k) as [H1 H2]; [done|lra|].
    by apply (rounds_signed k false); [|apply scaled_pos|].
  - change (Z.neg p) with (- Z.pos p)%Z in *. rewrite inject_Z_opp in *.
    destruct (binary_round_near true p e k) as [H1 H2]; [done|lra|].
    apply (rounds_eq _ (signed true (inject_Z (Z.pos p) * p2 e))); [simpl; lra|].
    by apply rounds_signed; [|apply scaled_pos|].
Qed.

(** Aligned mantissas, with their signs. *)
Lemma aligned_val s m e e' : (e' ≤ e)%Z →
  inject_Z (cond_Zopp s (Z.pos (shl_align m e e').1)) * p2 e' == val (S754_finite s m e).
Proof.
  intros He. pose proof (shl_align_val m e e') as H.
  assert (E : (shl_align m e e').2 = e').
  { unfold shl_align. destruct (e' - e)%Z eqn:E; simpl; [lia|lia|done]. }
  rewrite E in H. simpl. destruct s; cbn [cond_Zopp]; [|lra]. rewrite !inject_Z_opp. lra.
Qed.

Lemma d_add_near k x y : (-1022 ≤ k ≤ 971)%Z → finite x = true → finite y = true →
  - p2 k <= val x + val y <= p2 k → rounds k (val x + val y) (d_add x y).
Proof.
  intros Hk Fx Fy Hv. unfold d_add, SFadd.
  destruct x as [sx|sx| |sx mx ex], y as [sy|sy| |sy my ey]; try done.
  - destruct sx, sy; by apply rounds_exact.
  - apply rounds_exact; [done|]. simpl. lra.
  - apply rounds_exact; [done|]. simpl. lra.
  - pose proof (aligned_val sx mx ex (Z.min ex ey) ltac:(lia)) as E1.
    pose proof (aligned_val sy my ey (Z.min ex ey) ltac:(lia)) as E2.
    eapply rounds_eq; [|apply binary_normalize_near; [done|]]; rewrite inject_Z_plus; lra.
Qed.

Lemma d_sub_near k x y : (-1022 ≤ k ≤ 971)%Z → finite x = true → finite y = true →
  - p2 k <= val x - val y <= p2 k → rounds k (val x - val y) (d_sub x y).
Proof.
  intros Hk Fx Fy Hv. unfold d_sub, SFsub.
  destruct x as [sx|sx| |sx mx ex], y as [sy|sy| |sy my ey]; try done.
  - destruct sx, sy; by apply rounds_exact.
  - apply rounds_exact; [done|]. simpl. destruct sy; cbn [negb cond_Zopp];
      rewrite ?inject_Z_opp; lra.
  - apply rounds_exact; [done|]. simpl. lra.
  - pose proof (aligned_val sx mx ex (Z.min ex ey) ltac:(lia)) as E1.
    pose proof (aligned_val sy my ey (Z.min ex ey) ltac:(lia)) as E2.
    unfold Z.sub.
    eapply rounds_eq; [|apply binary_normalize_near; [done|]];
      rewrite inject_Z_plus, inject_Z_opp; lra.
Qed.

Lemma d_mul_near k x y : (-1022 ≤ k ≤ 971)%Z → finite x = true → finite y = true →
  - p2 k <= val x * val y <= p2 k → rounds k (val x * val y) (d_mul x y).
Proof.
  intros Hk Fx Fy Hv. unfold d_mul, SFmul.
  destruct x as [sx|sx| |sx mx ex], y as [sy|sy| |sy my ey]; try done;
    [apply rounds_exact; [done|]; simpl; lra..|].
  set (v := inject_Z (Z.pos (mx * my)) * p2 (ex + ey)).
  assert (E : val (S754_finite sx mx ex) * val (S754_finite sy my ey) == signed (xorb sx sy) v).
  { unfold v. rewrite Pos2Z.inj_mul, inject_Z_mult.
    destruct sx, sy; cbn [signed xorb val cond_Zopp]; rewrite p2_add, ?inject_Z_opp; ring. }
  assert (Hp : 0 < v) by apply scaled_pos.
  assert (Hm : v <= p2 k) by (destruct (xorb sx sy); cbn [signed] in E; lra).
  destruct (p2_fit (mx * my) (ex + ey) k Hm) as [He Hle].
  eapply rounds_eq; [symmetry; exact E|].
  destruct (binary_round_aux_near (xorb sx sy) (Z.pos (mx * my)) (ex + ey) loc_Exact k v)
    as [H1 H2]; [lia|lia|done|done|done|apply approximates_exact|].
  by apply rounds_signed.
Qed.

(** The quotient has a digit more than needed. *)
Lemma quotient_digits mx my ex ey k :
  inject_Z (Z.pos mx) * p2 ex <= p2 k * (inject_Z (Z.pos my) * p2 ey) →
  (Z.pos (digits2_pos mx) + ex - (Z.pos (digits2_pos my) + ey) ≤ k)%Z.
Proof.
  intros H. set (dx := Z.pos (digits2_pos mx)). set (dy := Z.pos (digits2_pos my)).
  assert (H1 : p2 (dx - 1 + ex) <= inject_Z (Z.pos mx) * p2 ex).
  { rewrite p2_add, <-(p2_Z (dx - 1)) by lia. apply Qmult_le_compat_r; [|apply Qlt_le_weak, p2_pos].
    rewrite <-Zle_Qle. apply digits2_pos_pow. }
  assert (H2 : inject_Z (Z.pos my) * p2 ey < p2 (dy + ey)).
  { rewrite p2_add, <-(p2_Z dy) by lia. apply Qmult_lt_compat_r; [apply p2_pos|].
    rewrite <-Zlt_Qlt. apply digits2_lt. }
  assert (H3 : p2 (dx - 1 + ex) < p2 (k + (dy + ey))).
  { rewrite (p2_add k). pose proof (p2_pos k).
    pose proof (proj2 (Qmult_lt_l _ _ (p2 k) ltac:(done)) H2). lra. }
  destruct (Z.le_gt_cases (k + (dy + ey)) (dx - 1 + ex)) as [Hle|]; [|lia].
  apply p2_mono in Hle. lra.
Qed.

Lemma new_location_exact n r : new_location n r = loc_Exact ↔ r = 0%Z.
Proof.
  unfold new_location, new_location_even, new_location_odd.
  destruct (Z.even n); destruct (Z.eqb_spec r 0) as [->|Hr]; by split.
Qed.

(** The quotient and its location stand for the exact quotient. *)
Lemma SFdiv_core_approximates mx ex my ey k v : (-1022 ≤ k)%Z →
  v * (inject_Z (Z.pos my) * p2 ey) == inject_Z (Z.pos mx) * p2 ex → v <= p2 k →
  let '(q, e, l) := SFdiv_core_binary prec emax (Z.pos mx) ex (Z.pos my) ey in
  (0 ≤ q)%Z ∧ (e ≤ k - 52)%Z ∧ approximates v k q e l ∧
  (l ≠ loc_Exact → inject_Z q * p2 e < v).
Proof.
  intros Hk Hv Hvk. pose proof (scaled_pos my ey) as Hy. pose proof (scaled_pos mx ex) as Hx.
  assert (HD : (Z.pos (digits2_pos mx) + ex - (Z.pos (digits2_pos my) + ey) ≤ k)%Z).
  { apply quotient_digits. rewrite <-Hv. apply Qmult_le_compat_r; [done|lra]. }
  pose proof (SFdiv_core_spec mx ex my ey) as Hc.
  destruct (SFdiv_core_binary _ _ _ _ _ _) as [[q e'] l].
  destruct Hc as (He & He2 & r & -> & Hr & Hdm).
  assert (He1 : (e' ≤ k - 52)%Z)
    by (etrans; [exact He|]; unfold fexp, emin, prec, emax; lia).
  assert (Hpos : (0 < 2 ^ (ex - ey - e'))%Z) by (apply Z.pow_pos_nonneg; lia).
  split; [nia|]. split; [done|].
  assert (E : inject_Z (Z.pos my) * v == inject_Z (Z.pos mx * 2 ^ (ex - ey - e')) * p2 e').
  { apply (Qmult_inj_r _ _ (p2 ey)); [pose proof (p2_pos ey); lra|].
    rewrite inject_Z_mult, p2_Z by lia.
    assert (Ep : p2 ex == p2 (ex - ey - e') * p2 e' * p2 ey).
    { rewrite <-!p2_add. by replace (ex - ey - e' + e' + ey)%Z with ex by lia. }
    rewrite Ep in Hv. lra. }
  rewrite Hdm, inject_Z_plus, inject_Z_mult in E.
  pose proof (p2_pos e') as Hp. assert (Hmy : 0 < inject_Z (Z.pos my)) by done.
  assert (Hr0 : 0 <= inject_Z r <= inject_Z (Z.pos my)).
  { change 0 with (inject_Z 0). rewrite <-!Zle_Qle. lia. }
  assert (Hrp : 0 <= inject_Z r * p2 e' <= inject_Z (Z.pos my) * p2 e').
  { split; [apply Qmult_le_0_compat; lra|apply Qmult_le_compat_r; lra]. }
  split; [split_and!|].
  - apply (Qmult_le_l _ _ (inject_Z (Z.pos my))); [done|]. lra.
  - apply (Qmult_le_l _ _ (inject_Z (Z.pos my))); [done|]. lra.
  - intros Hl. apply new_location_exact in Hl as ->. change (inject_Z 0) with 0 in E.
    apply (Qmult_inj_l _ _ (inject_Z (Z.pos my))); [lra|]. lra.
  - done.
  - intros Hl. apply (Qmult_lt_l _ _ (inject_Z (Z.pos my))); [done|].
    assert (Hr1 : 0 < inject_Z r * p2 e').
    { apply Qmult_lt_0_compat; [|done]. change 0 with (inject_Z 0). rewrite <-Zlt_Qlt.
      destruct (Z.eq_dec r 0) as [->|]; [|lia]. by destruct Hl; apply new_location_exact. }
    lra.
Qed.

Lemma d_div_near k x y : (-1022 ≤ k ≤ 971)%Z → finite x = true → finite y = true → 0 < val y →
  - p2 k * val y <= val x <= p2 k * val y → rounds k (val x / val y) (d_div x y).
Proof.
  intros Hk Fx Fy Hy Hv. unfold d_div, SFdiv.
  destruct y as [sy|sy| |sy my ey]; try done. destruct sy.
  { exfalso. cbn [val cond_Zopp] in Hy. rewrite inject_Z_opp in Hy. pose proof (scaled_pos my ey). lra. }
  destruct x as [sx|sx| |sx mx ex]; try done.
  { apply rounds_exact; [done|]. simpl. unfold Qdiv. ring. }
  cbn [val cond_Zopp] in *. pose proof (scaled_pos my ey) as Py. pose proof (scaled_pos mx ex) as Px.
  set (X := inject_Z (Z.pos mx) * p2 ex) in *. set (Y := inject_Z (Z.pos my) * p2 ey) in *.
  assert (E : inject_Z (cond_Zopp sx (Z.pos mx)) * p2 ex / Y == signed sx (X / Y)).
  { unfold X. destruct sx; cbn [signed cond_Zopp]; rewrite ?inject_Z_opp; field; lra. }
  assert (HX : X <= p2 k * Y).
  { unfold X in *. destruct sx; cbn [cond_Zopp] in Hv; rewrite ?inject_Z_opp in Hv; lra. }
  assert (Hq : X / Y <= p2 k) by (apply Qle_shift_div_r; [done|lra]).
  assert (HXY : X / Y * Y == X) by (field; lra).
  pose proof (SFdiv_core_approximates mx ex my ey k (X / Y) ltac:(lia) HXY Hq) as Ha.
  destruct (SFdiv_core_binary _ _ _ _ _ _) as [[q e] l]. destruct Ha as (Hq0 & He & Ha & Hs).
  assert (Hqv : inject_Z q * p2 e <= p2 k) by (destruct Ha; lra).
  eapply rounds_eq; [symmetry; exact E|].
  destruct (binary_round_aux_near (xorb sx false) q e l k (X / Y)) as [H1 H2];
    [done|lia|lia| | |done|].
  { apply scaled_le_p2; [lia|done]. }
  { intros Hl. apply scaled_lt_p2; [lia|]. specialize (Hs Hl). lra. }
  replace (xorb sx false) with sx in * by (by destruct sx). apply rounds_signed; [done| |done].
  by apply Qlt_shift_div_l; [|lra].
Qed.

(** ** Integers *)

Lemma digits2_shift m p : digits2_pos (Pos.iter xO m p) = (digits2_pos m + p)%positive.
Proof.
  induction p as [|p IH] using Pos.peano_ind; [simpl; lia|].
  rewrite Pos.iter_succ. simpl. rewrite IH. lia.
Qed.

(** Integers of 53 bits are doubles. *)
Lemma d_of_Z_exact z : (Z.abs z < 2 ^ 53)%Z → finite (d_of_Z z) = true ∧ val (d_of_Z z) == inject_Z z.
Proof.
  assert (H : ∀ s m, (Z.pos m < 2 ^ 53)%Z → let x := binary_round prec emax s m 0 in
    finite x = true ∧ val x == inject_Z (cond_Zopp s (Z.pos m))).
  { intros s m Hm. unfold binary_round. set (d := Z.pos (digits2_pos m)).
    assert (Hd : (1 ≤ d ≤ 53)%Z).
    { pose proof (digits2_pos_pow m). fold d in H. split; [lia|].
      assert (d - 1 < 53)%Z; [|lia]. apply (Z.pow_lt_mono_r_iff 2); lia. }
    assert (Ef : fexp prec emax (d + 0) = (d - 53)%Z) by (unfold fexp, emin, prec, emax; lia).
    rewrite Ef. pose proof (shl_align_val m 0 (d - 53)) as Ea.
    assert (Ed : (Z.pos (digits2_pos (shl_align m 0 (d - 53)).1) = 53 ∧
      (shl_align m 0 (d - 53)).2 = d - 53)%Z).
    { unfold shl_align. destruct (d - 53 - 0)%Z as [|p|p] eqn:E; simpl; [lia|lia|].
      rewrite digits2_shift. lia. }
    destruct (shl_align m 0 (d - 53)) as [mz ez]. simpl in Ea, Ed. destruct Ed as [Ed ->].
    assert (En : (fexp prec emax (Zdigits2 (Z.pos mz) + (d - 53)) - (d - 53) = 0)%Z).
    { simpl Zdigits2. rewrite Ed. unfold fexp, emin, prec, emax. lia. }
    unfold binary_round_aux, shr_fexp. rewrite En. simpl shr. cbn iota. simpl shr_m.
    simpl loc_of_shr_record. cbn [round_nearest_even]. rewrite En. cbn [shr shr_record_of_loc shr_m].
    rewrite (proj2 (Z.leb_le (d - 53) (emax - prec))) by (unfold emax, prec; lia).
    split; [done|]. cbn [val]. change (p2 0) with 1 in Ea.
    destruct s; cbn [cond_Zopp]; rewrite ?inject_Z_opp; lra. }
  intros Hz. unfold d_of_Z. destruct z as [|p|p]; [done|by apply (H false)|by apply (H true)].
Qed.

(** The integer part of a scaled mantissa. *)
Lemma scaled_floor m e :
  let a := if bool_decide (0 ≤ e)%Z then (Z.pos m * 2 ^ e)%Z else (Z.pos m / 2 ^ (- e))%Z in
  (0 ≤ a)%Z ∧ inject_Z a <= inject_Z (Z.pos m) * p2 e < inject_Z a + 1.
Proof.
  intros a. unfold a. case_bool_decide.
  - assert (0 < 2 ^ e)%Z by (apply Z.pow_pos_nonneg; lia). split; [lia|].
    rewrite inject_Z_mult, p2_Z by lia. lra.
  - assert (Hp : (0 < 2 ^ (- e))%Z) by (apply Z.pow_pos_nonneg; lia).
    split; [apply Z.div_pos; lia|].
    pose proof (Z.div_mod (Z.pos m) (2 ^ (- e))) as Hd.
    pose proof (Z.mod_pos_bound (Z.pos m) (2 ^ (- e))) as Hr.
    set (q := (Z.pos m / 2 ^ (- e))%Z) in *.
    assert (Hpe : p2 (- e) * p2 e == 1).
    { rewrite <-p2_add. by replace (- e + e)%Z with 0%Z by lia. }
    pose proof (p2_pos e) as Pe.
    assert (L1 : inject_Z q * p2 (- e) <= inject_Z (Z.pos m)).
    { rewrite <-p2_Z, <-inject_Z_mult, <-Zle_Qle by lia. lia. }
    assert (L2 : inject_Z (Z.pos m) < inject_Z (q + 1) * p2 (- e)).
    { rewrite <-p2_Z, <-inject_Z_mult, <-Zlt_Qlt by lia. lia. }
    rewrite inject_Z_plus in L2. change (inject_Z 1) with 1 in L2.
    apply (Qmult_le_compat_r _ _ (p2 e)) in L1; [|lra].
    apply (Qmult_lt_compat_r _ _ (p2 e)) in L2; [|lra].
    rewrite <-Qmult_assoc, Hpe, Qmult_1_r in L1, L2. by split.
Qed.

(** Truncation of a number that is not negative. *)
Lemma d_trunc_near x : finite x = true → 0 <= val x → val x <= p2 62 →
  ∃ z, d_trunc x = Ok z ∧ (0 ≤ z)%Z ∧ inject_Z z <= val x ∧ val x < inject_Z z + 1.
Proof.
  intros Fx H0 H1. destruct x as [s|s| |[] m e]; try done.
  - exists 0%Z. split; [done|]. split; [done|]. by split.
  - exfalso. cbn [val cond_Zopp] in H0. rewrite inject_Z_opp in H0.
    pose proof (scaled_pos m e). lra.
  - cbn [val cond_Zopp] in *. destruct (p2_fit m e 62 H1) as [He Hm]. simpl.
    set (a := if bool_decide (0 ≤ e)%Z then (Z.pos m * 2 ^ e)%Z else (Z.pos m / 2 ^ (- e))%Z).
    destruct (scaled_floor m e) as (Ha & Hle & Hlt). fold a in Ha, Hle, Hlt.
    clearbody a.
    assert (Hi : is_int64 a = true).
    { assert (inject_Z a <= p2 62) as Hb by lra. rewrite <-p2_Z, <-Zle_Qle in Hb by lia.
      unfold is_int64, int64_min, int64_max. apply andb_true_iff. rewrite !bool_decide_eq_true. lia. }
    rewrite Hi. by exists a.
Qed.

(** ** The conversions *)

Definition ts_val (ts : timespec) : Q := inject_Z (ts_sec ts) + inject_Z (ts_nsec ts) / 1000000000.
Definition tv_val (tv : timeval) : Q := inject_Z (tv_sec tv) + inject_Z (tv_usec tv) / 1000000.

(** [x] and [y] differ by at most [eps]. *)
Definition within (eps x y : Q) : Prop := y - eps <= x <= y + eps.

(** A clock reading is off by less than 8 microseconds. *)
Lemma ut_timespec_to_f_near ts : timespec_ok ts →
  finite (ut_timespec_to_f ts) = true ∧ within (8 # 1000000) (val (ut_timespec_to_f ts)) (ts_val ts).
Proof.
  intros [Hs Hn]. unfold ut_timespec_to_f, ts_val, within.
  destruct (d_of_Z_exact (ts_sec ts)) as [Fs Es]; [lia|].
  destruct (d_of_Z_exact (ts_nsec ts)) as [Fn En]; [lia|].
  assert (E9 : val d_1e9 == 1000000000) by (vm_compute; reflexivity).
  assert (Hs' : 0 <= inject_Z (ts_sec ts) <= p2 33).
  { change 0 with (inject_Z 0). rewrite <-p2_Z, <-!Zle_Qle by lia. lia. }
  assert (Hn' : 0 <= inject_Z (ts_nsec ts) <= 1000000000).
  { change 0 with (inject_Z 0). change 1000000000 with (inject_Z 1000000000).
    rewrite <-!Zle_Qle. lia. }
  change (p2 33) with 8589934592 in Hs'.
  destruct (d_div_near 0 (d_of_Z (ts_nsec ts)) d_1e9) as (Fd & Hd & _);
    [lia|done|reflexivity|rewrite E9; lra|change (p2 0) with 1; rewrite E9, En; lra|].
  rewrite E9, En in Hd. assert (E51 : p2 (0 - 51) == 1 # 2251799813685248) by reflexivity.
  rewrite E51 in Hd. set (q := inject_Z (ts_nsec ts) / 1000000000) in *.
  assert (Hq : 0 <= q <= 1) by (unfold q; split; [apply Qle_shift_div_l|apply Qle_shift_div_r]; lra).
  destruct (d_add_near 34 (d_of_Z (ts_sec ts)) (d_div (d_of_Z (ts_nsec ts)) d_1e9))
    as (Fa & Ha & _); [lia|done|done|change (p2 34) with 17179869184; rewrite Es; lra|].
  split; [done|]. rewrite Es in Ha. assert (E17 : p2 (34 - 51) == 1 # 131072) by reflexivity.
  rewrite E17 in Ha. lra.
Qed.

(** A [struct timeval] is off by less than two microseconds. *)
Lemma ut_f_to_timeval_near t : finite t = true → 0 <= val t → val t <= p2 37 →
  ∃ tv, ut_f_to_timeval t = Ok tv ∧ (0 ≤ tv_sec tv)%Z ∧ (0 ≤ tv_usec tv ≤ 1000000)%Z ∧
    within (2 # 1000000) (tv_val tv) (val t).
Proof.
  intros Ft H0 H1. change (p2 37) with 137438953472 in H1. unfold ut_f_to_timeval.
  destruct (d_trunc_near t Ft H0) as (sec & -> & Hsec & L1 & L2);
    [change (p2 62) with 4611686018427387904; lra|]. simpl.
  destruct (d_of_Z_exact sec) as [Fs Es].
  { assert (H : inject_Z sec <= inject_Z 137438953472) by (change (inject_Z 137438953472) with 137438953472; lra).
    rewrite <-Zle_Qle in H. lia. }
  destruct (d_sub_near 0 t (d_of_Z sec)) as (Fd & Hd & Nd); [lia|done|done| |].
  { change (p2 0) with 1. rewrite Es. lra. }
  rewrite Es in Hd, Nd. assert (E51 : p2 (0 - 51) == 1 # 2251799813685248) by reflexivity.
  rewrite E51 in Hd. specialize (Nd ltac:(lra)). set (d := d_sub t (d_of_Z sec)) in *.
  assert (E6 : val d_1e6 == 1000000) by (vm_compute; reflexivity).
  destruct (d_mul_near 20 d d_1e6) as (Fm & Hm & Nm); [lia|done|done| |].
  { change (p2 20) with 1048576. rewrite E6. lra. }
  rewrite E6 in Hm, Nm. assert (E31 : p2 (20 - 51) == 1 # 2147483648) by reflexivity.
  rewrite E31 in Hm. specialize (Nm ltac:(lra)).
  destruct (d_trunc_near (d_mul d d_1e6) Fm Nm) as (usec & -> & Husec & M1 & M2);
    [change (p2 62) with 4611686018427387904; lra|]. simpl.
  eexists. split; [done|]. simpl. split; [done|]. split.
  { split; [done|]. assert (H : inject_Z usec < inject_Z 1000001)
      by (change (inject_Z 1000001) with 1000001; lra).
    rewrite <-Zlt_Qlt in H. lia. }
  unfold within, tv_val. simpl.
  assert (E : inject_Z usec / 1000000 == inject_Z usec * (1 # 1000000)) by reflexivity. lra.
Qed.
