(* ===== verification/Util.v ===== *)
(** * Utilities (src/util/util.c)

    Copies, printing into a fixed buffer, random identifiers and searches.  A
    buffer is the list of its bytes; [malloc] does not fail, since [ut_malloc]
    ends the process when it does.  The times are in Double.v. *)

From S2P Require Import Prelude CLib Double.

(** ** Memory *)

Definition ut_calloc (size : nat) : list ascii := replicate size NUL.

(** Reading beyond the end of [buf] is undefined. *)
Definition ut_memdup (buf : list ascii) (len : nat) : outcome (list ascii) :=
  if bool_decide (len ≤ length buf) then Ok (take len buf) else Fail Undefined.

Definition ut_strdup (str : cstr) : cstr := str.

Definition ut_strdup_non_null (str : option cstr) : option cstr :=
  match str with Some str => Some (ut_strdup str) | None => None end.

(** ** Printing into a buffer *)

(** [strlen] of memory: undefined without a terminating zero. *)
Fixpoint buf_strlen (buf : list ascii) : outcome nat :=
  match buf with
  | [] => Fail Undefined
  | c :: buf' => if bool_decide (c = NUL) then Ok 0 else n ← buf_strlen buf'; Ok (S n)
  end.

(** Storing bytes. *)
Definition buf_store (buf : list ascii) (at_ : nat) (bytes : list ascii) : outcome (list ascii) :=
  if bool_decide (at_ + length bytes ≤ length buf)
  then Ok (take at_ buf ++ bytes ++ drop (at_ + length bytes) buf)
  else Fail Undefined.

(** [vsnprintf] with the formatted text: at most [n] bytes, the terminating zero
    included. *)
Definition vsnprintf (buf : list ascii) (at_ n : nat) (text : cstr) : outcome (list ascii) :=
  match n with
  | O => Ok buf
  | S n' => buf_store buf at_ (take n' text ++ [NUL])
  end.

Definition ut_vaprintf (buf : list ascii) (capacity : nat) (text : cstr) : outcome (list ascii) :=
  len ← buf_strlen buf;
  _ ← ut_assert (bool_decide (len < capacity));
  let left := capacity - len - 1 in
  if bool_decide (left = 0) then Ok buf else vsnprintf buf len left text.

Definition ut_aprintf (buf : list ascii) (capacity : nat) (text : cstr) : outcome (list ascii) :=
  ut_vaprintf buf capacity text.

(** ** Random numbers, with what [getentropy] gives *)

(** Negating the smallest [int64_t] is undefined. *)
Definition ut_rand_id (num : Z) : outcome Z :=
  if bool_decide (0 ≤ num)%Z then Ok num
  else if bool_decide (num = int64_min) then Fail Undefined
  else Ok (- num)%Z.

Definition ut_frand (num : Z) : double := d_div (d_of_Z num) (d_of_Z 18446744073709551615).

Definition ut_frandomize (num : Z) (d : double) : double :=
  let k := d_add (ut_frand num) (d_div (d_of_Z 1) (d_of_Z 2)) in
  d_mul k d.

(** ** Searches *)

Fixpoint ut_str_begins_with (s : cstr) (c : ascii) : bool :=
  match s with
  | [] => false
  | s_c :: s' =>
      if isspace s_c then ut_str_begins_with s' c
      else if bool_decide (s_c = c) then true
      else ut_str_begins_with s' c
  end.

Fixpoint ut_str_ary_has (ary : list cstr) (needle : cstr) : bool :=
  match ary with
  | [] => false
  | s :: ary' => if bool_decide (strcmp s needle = 0)%Z then true else ut_str_ary_has ary' needle
  end.

(** ** What they do *)

Lemma buf_strlen_app s rest : nul_free s → buf_strlen (s ++ NUL :: rest) = Ok (length s).
Proof.
  unfold nul_free. induction s as [|c s IH]; intros Hs; [done|]. simpl.
  apply not_elem_of_cons in Hs as [Hc Hs]. rewrite bool_decide_eq_false_2 by congruence.
  by rewrite IH.
Qed.

(** Appending to the string of a buffer stays in the buffer and keeps a string
    in it.  One byte too few is used: a text that would just fit loses its last
    character. *)
Lemma ut_vaprintf_ok s rest text : nul_free s →
  let buf := s ++ NUL :: rest in
  ∃ rest', ut_vaprintf buf (length buf) text = Ok (s ++ take (length rest - 1) text ++ NUL :: rest') ∧
    length (s ++ take (length rest - 1) text ++ NUL :: rest') = length buf.
Proof.
  intros Hs buf. unfold ut_vaprintf, buf. rewrite buf_strlen_app by done. cbn [mbind outcome_bind].
  rewrite length_app. cbn [length]. unfold ut_assert.
  rewrite (bool_decide_eq_true_2 (length s < _)) by lia.
  cbn [mbind outcome_bind].
  replace (length s + S (length rest) - length s - 1) with (length rest) by lia.
  destruct rest as [|c rest]; cbn [length].
  { exists []. simpl. rewrite !length_app. simpl. split; [done|lia]. }
  rewrite bool_decide_eq_false_2 by lia. unfold vsnprintf, buf_store.
  rewrite !length_app, length_take. cbn [length]. replace (S (length rest) - 1) with (length rest) by lia.
  rewrite bool_decide_eq_true_2 by lia. rewrite take_app_length.
  eexists. rewrite <-app_assoc. split; [reflexivity|].
  rewrite !length_app, length_take. cbn [length app].
  rewrite length_drop, !length_app. cbn [length]. lia.
Qed.

Lemma ut_rand_id_bounds num : (int64_min < num ≤ int64_max)%Z →
  ∃ id, ut_rand_id num = Ok id ∧ (0 ≤ id ≤ int64_max)%Z.
Proof.
  unfold ut_rand_id, int64_min, int64_max. intros Hn. case_bool_decide.
  { eexists. split; [done|lia]. }
  rewrite bool_decide_eq_false_2 by lia. eexists. split; [done|lia].
Qed.

(** The name says more than is true: the character may be anywhere. *)
Lemma ut_str_begins_with_contains s c : isspace c = false →
  ut_str_begins_with s c = bool_decide (c ∈ s).
Proof.
  intros Hc. induction s as [|s_c s IH]; [done|]. simpl. rewrite IH.
  assert (Hext : ∀ x, x ≠ c → bool_decide (c ∈ s) = bool_decide (c ∈ x :: s)).
  { intros x Hx. apply bool_decide_ext. rewrite elem_of_cons. split; [by right|].
    intros [->|]; [done|done]. }
  destruct (isspace s_c) eqn:Es; [|destruct (decide (s_c = c)) as [->|E]].
  - apply Hext. intros ->. congruence.
  - rewrite (bool_decide_eq_true_2 (c = c)) by done. symmetry. apply bool_decide_eq_true_2. left.
  - rewrite (bool_decide_eq_false_2 (s_c = c)) by done. by apply Hext.
Qed.

Lemma ut_str_ary_has_elem ary needle : Forall nul_free ary → nul_free needle →
  ut_str_ary_has ary needle = bool_decide (needle ∈ ary).
Proof.
  intros Hary Hn. induction Hary as [|s ary Hs _ IH]; [done|]. simpl. rewrite IH.
  rewrite (bool_decide_ext (strcmp s needle = 0)%Z (s = needle)) by (by apply strcmp_eq).
  destruct (decide (s = needle)) as [->|E].
  - rewrite (bool_decide_eq_true_2 (needle = needle)) by done.
    symmetry. apply bool_decide_eq_true_2. left.
  - rewrite (bool_decide_eq_false_2 (s = needle)) by done. apply bool_decide_ext. rewrite elem_of_cons. split; [by right|]. intros [->|]; done.
Qed.
