(* ===== verification/Service.v ===== *)
(** * Services and their generations (src/sd/generation.c, src/sd/service.c)

    A service keeps its current generation, the previous one, and, while a
    change is in progress, the next one.  The generations are owned by the
    service and modelled as values.  The operations below act on one service;
    Sd.v places services in the heap and passes a committed change on to the
    service's callback. *)

From S2P Require Import Prelude CLib Pvalue Props Double.

(** ** generation.c *)

Record generation := Generation {
  gen_generation : Z;
  gen_props : option props;
  gen_ttl : Z;
  gen_orphan_since : double;
  gen_client_id : Z
}.

Definition generation_create : generation := Generation (-1) None (-1) NAN (-1).

Definition generation_clone (original : generation) : outcome generation :=
  p ← deref (gen_props original);
  Ok (Generation (gen_generation original) (Some (props_clone p)) (gen_ttl original)
        (gen_orphan_since original) (gen_client_id original)).

Definition generation_is_consistent (g : generation) : bool :=
  bool_decide (0 ≤ gen_generation g)%Z && bool_decide (gen_props g ≠ None) &&
  bool_decide (0 ≤ gen_ttl g)%Z && negb (isnan (gen_orphan_since g)) &&
  bool_decide (0 ≤ gen_client_id g)%Z.

Definition generation_set_generation (v : Z) (g : generation) : generation :=
  Generation v (gen_props g) (gen_ttl g) (gen_orphan_since g) (gen_client_id g).

Definition generation_set_props (p : props) (g : generation) : generation :=
  Generation (gen_generation g) (Some (props_clone p)) (gen_ttl g)
    (gen_orphan_since g) (gen_client_id g).

Definition generation_set_ttl (v : Z) (g : generation) : generation :=
  Generation (gen_generation g) (gen_props g) v (gen_orphan_since g) (gen_client_id g).

Definition generation_set_orphan_since (v : double) (g : generation) : generation :=
  Generation (gen_generation g) (gen_props g) (gen_ttl g) v (gen_client_id g).

Definition generation_set_client_id (v : Z) (g : generation) : generation :=
  Generation (gen_generation g) (gen_props g) (gen_ttl g) (gen_orphan_since g) v.

(** ** service.c *)

Inductive service_change_type :=
  | service_change_type_none
  | service_change_type_added
  | service_change_type_modified
  | service_change_type_removed.

#[export] Instance service_change_type_eq_dec : EqDecision service_change_type.
Proof. solve_decision. Defined.

Record service := Service {
  service_id : Z;
  change_in_progress : service_change_type;
  current : option generation;
  prev : option generation;
  next : option generation;
  service_ref_cnt : Z
}.

(** The reference count starts at one. *)
Definition service_init (id : Z) : service :=
  Service id service_change_type_none None None None 1.

Definition with_ref_cnt (n : Z) (s : service) : service :=
  Service (service_id s) (change_in_progress s) (current s) (prev s) (next s) n.

Definition with_next (change : service_change_type) (g : option generation)
    (s : service) : service :=
  Service (service_id s) change (current s) (prev s) g (service_ref_cnt s).

Definition has_ongoing_change (s : service) : outcome bool :=
  match change_in_progress s with
  | service_change_type_added
  | service_change_type_modified =>
      _ ← ut_assert (bool_decide (next s ≠ None)); Ok true
  | service_change_type_none =>
      _ ← ut_assert (bool_decide (next s = None)); Ok false
  | service_change_type_removed => Fail AssertFailed
  end.

Definition service_add_begin (s : service) : outcome service :=
  ongoing ← has_ongoing_change s;
  _ ← ut_assert (negb ongoing);
  Ok (with_next service_change_type_added (Some generation_create) s).

Definition service_modify_begin (s : service) : outcome service :=
  ongoing ← has_ongoing_change s;
  _ ← ut_assert (negb ongoing);
  original ← deref (current s);
  g ← generation_clone original;
  Ok (with_next service_change_type_modified (Some g) s).

(** [service_commit] up to the call of the change callback, and the change
    type it is called with. *)
Definition service_commit_change (s : service)
    : outcome (service * service_change_type) :=
  ongoing ← has_ongoing_change s;
  _ ← ut_assert ongoing;
  g ← deref (next s);
  _ ← ut_assert (generation_is_consistent g);
  Ok (Service (service_id s) service_change_type_none (next s) (current s) None
        (service_ref_cnt s), change_in_progress s).

(** [service_remove] up to the call of the change callback. *)
Definition service_remove_change (s : service)
    : outcome (service * service_change_type) :=
  ongoing ← has_ongoing_change s;
  _ ← ut_assert (negb ongoing);
  Ok (Service (service_id s) (change_in_progress s) None (current s) (next s)
        (service_ref_cnt s), service_change_type_removed).

Definition service_abort (s : service) : outcome service :=
  ongoing ← has_ongoing_change s;
  _ ← ut_assert ongoing;
  Ok (with_next service_change_type_none None s).

(** [GEN_SET_RELAY] *)
Definition service_set (f : generation → generation) (s : service) : outcome service :=
  ongoing ← has_ongoing_change s;
  _ ← ut_assert ongoing;
  g ← deref (next s);
  Ok (with_next (change_in_progress s) (Some (f g)) s).

Definition service_set_generation (v : Z) : service → outcome service :=
  service_set (generation_set_generation v).
Definition service_set_props (p : props) : service → outcome service :=
  service_set (generation_set_props p).
Definition service_set_ttl (v : Z) : service → outcome service :=
  service_set (generation_set_ttl v).
Definition service_set_orphan_since (v : double) : service → outcome service :=
  service_set (generation_set_orphan_since v).
Definition service_set_client_id (v : Z) : service → outcome service :=
  service_set (generation_set_client_id v).

Definition service_set_non_orphan (s : service) : outcome service :=
  service_set_orphan_since (d_of_Z (-1)) s.

(** [GEN_GET_RELAY] *)
Definition service_get {A} (get : generation → A) (s : service) : outcome A :=
  g ← deref (current s); Ok (get g).
Definition service_get_prev {A} (get : generation → A) (s : service) : outcome A :=
  g ← deref (prev s); Ok (get g).

Definition service_get_generation : service → outcome Z := service_get gen_generation.
Definition service_get_ttl : service → outcome Z := service_get gen_ttl.
Definition service_get_orphan_since : service → outcome double := service_get gen_orphan_since.
Definition service_get_client_id : service → outcome Z := service_get gen_client_id.
Definition service_get_props : service → outcome (option props) := service_get gen_props.

Definition service_get_prev_generation : service → outcome Z :=
  service_get_prev gen_generation.
Definition service_get_prev_ttl : service → outcome Z := service_get_prev gen_ttl.
Definition service_get_prev_orphan_since : service → outcome double :=
  service_get_prev gen_orphan_since.
Definition service_get_prev_client_id : service → outcome Z :=
  service_get_prev gen_client_id.
Definition service_get_prev_props : service → outcome (option props) :=
  service_get_prev gen_props.

Definition service_is_orphan (s : service) : outcome bool :=
  since ← service_get_orphan_since s; Ok (d_ge since d_0).

Definition service_was_orphan (s : service) : outcome bool :=
  match prev s with
  | None => Ok false
  | Some _ => since ← service_get_prev_orphan_since s; Ok (d_ge since d_0)
  end.

(** [service_orphan_time_left], given what [ut_ftime] returns. *)
Definition time_left (ttl : Z) (since now : double) : double :=
  let elapsed := d_sub now since in
  let left := d_sub (d_of_Z ttl) elapsed in
  if d_lt left d_0 then d_0 else left.

Definition service_time_left (s : service) (now : double) : outcome double :=
  since ← service_get_orphan_since s;
  ttl ← service_get_ttl s;
  Ok (time_left ttl since now).

(** ** Changing a service *)

(** The setters, and what they do to the next generation. *)
Inductive setter :=
  | SetGeneration (v : Z)
  | SetProps (p : props)
  | SetTtl (v : Z)
  | SetOrphanSince (v : double)
  | SetNonOrphan
  | SetClientId (v : Z).

Definition run_setter (x : setter) (s : service) : outcome service :=
  match x with
  | SetGeneration v => service_set_generation v s
  | SetProps p => service_set_props p s
  | SetTtl v => service_set_ttl v s
  | SetOrphanSince v => service_set_orphan_since v s
  | SetNonOrphan => service_set_non_orphan s
  | SetClientId v => service_set_client_id v s
  end.

Definition setter_effect (x : setter) (g : generation) : generation :=
  match x with
  | SetGeneration v => Generation v (gen_props g) (gen_ttl g) (gen_orphan_since g) (gen_client_id g)
  | SetProps p => Generation (gen_generation g) (Some p) (gen_ttl g) (gen_orphan_since g) (gen_client_id g)
  | SetTtl v => Generation (gen_generation g) (gen_props g) v (gen_orphan_since g) (gen_client_id g)
  | SetOrphanSince v => Generation (gen_generation g) (gen_props g) (gen_ttl g) v (gen_client_id g)
  | SetNonOrphan => Generation (gen_generation g) (gen_props g) (gen_ttl g) (d_of_Z (-1)) (gen_client_id g)
  | SetClientId v => Generation (gen_generation g) (gen_props g) (gen_ttl g) (gen_orphan_since g) v
  end.

Fixpoint run_setters (xs : list setter) (s : service) : outcome service :=
  match xs with
  | [] => Ok s
  | x :: xs => s' ← run_setter x s; run_setters xs s'
  end.

(** Between changes: there is no next generation. *)
Definition idle (s : service) : Prop :=
  change_in_progress s = service_change_type_none ∧ next s = None.

Lemma with_next_next c1 g1 c2 g2 s : with_next c2 g2 (with_next c1 g1 s) = with_next c2 g2 s.
Proof. done. Qed.

Lemma run_setters_spec xs c g s : c = service_change_type_added ∨ c = service_change_type_modified →
  run_setters xs (with_next c (Some g) s) =
  Ok (with_next c (Some (foldl (λ g x, setter_effect x g) g xs)) s).
Proof.
  intros Hc. revert g. induction xs as [|x xs IH]; intros g; [done|]. cbn [run_setters].
  assert (E : run_setter x (with_next c (Some g) s) =
              Ok (with_next c (Some (setter_effect x g)) s)).
  { assert (Hset : ∀ f, service_set f (with_next c (Some g) s) = Ok (with_next c (Some (f g)) s)).
    { intros f. unfold service_set, has_ongoing_change, with_next. simpl.
      by destruct Hc as [-> | ->]. }
    destruct x; simpl; unfold service_set_generation, service_set_props, service_set_ttl,
      service_set_non_orphan, service_set_orphan_since, service_set_client_id;
      rewrite Hset; try done.
    unfold generation_set_props. by rewrite props_clone_id. }
  rewrite E. simpl. by rewrite IH.
Qed.

Lemma service_modify_begin_spec s g : idle s → current s = Some g → gen_props g ≠ None →
  service_modify_begin s = Ok (with_next service_change_type_modified (Some g) s).
Proof.
  intros [H1 H2] Hg Hp. unfold service_modify_begin, has_ongoing_change.
  rewrite H1, bool_decide_eq_true_2 by done. simpl. rewrite Hg. simpl.
  unfold generation_clone. destruct g as [n [p|] ttl since c]; [simpl|done].
  by rewrite props_clone_id.
Qed.

Lemma service_add_begin_spec s : idle s →
  service_add_begin s = Ok (with_next service_change_type_added (Some generation_create) s).
Proof.
  intros [H1 H2]. unfold service_add_begin, has_ongoing_change.
  by rewrite H1, bool_decide_eq_true_2 by done.
Qed.

Definition committed (g : generation) (s : service) : service :=
  Service (service_id s) service_change_type_none (Some g) (current s) None (service_ref_cnt s).

Lemma service_commit_spec c g s : c = service_change_type_added ∨ c = service_change_type_modified →
  service_commit_change (with_next c (Some g) s) =
  if generation_is_consistent g then Ok (committed g s, c) else Fail AssertFailed.
Proof.
  intros Hc. unfold service_commit_change, has_ongoing_change, with_next. simpl.
  destruct Hc as [-> | ->]; simpl; by destruct (generation_is_consistent g).
Qed.

(** A whole modification. *)
Definition service_modification (xs : list setter) (s : service)
    : outcome (service * service_change_type) :=
  s ← service_modify_begin s;
  s ← run_setters xs s;
  service_commit_change s.

(** C39: a modification is a transaction: begun on a service between changes,
    any sequence of setters followed by a commit replaces the current
    generation by the one with those attributes set, keeps the replaced one as
    the previous generation and reports a modification, provided that the
    result is consistent (else the commit's assertion fails); followed by an
    abort it leaves the service as it was; and a change begun while another is
    in progress, a setter, commit or abort outside a change, fails. *)
Theorem service_change_transaction (xs : list setter) (s : service) (g : generation) :
  idle s → current s = Some g → gen_props g ≠ None →
  let g' := foldl (λ g x, setter_effect x g) g xs in
  service_modification xs s = (if generation_is_consistent g'
                 then Ok (committed g' s, service_change_type_modified)
                 else Fail AssertFailed) ∧
  (s1 ← service_modify_begin s; s2 ← run_setters xs s1; service_abort s2) = Ok s ∧
  (∀ s1, service_modify_begin s = Ok s1 →
     service_modify_begin s1 = Fail AssertFailed ∧ service_add_begin s1 = Fail AssertFailed ∧
     service_remove_change s1 = Fail AssertFailed) ∧
  (∀ x, run_setter x s = Fail AssertFailed) ∧
  service_commit_change s = Fail AssertFailed ∧ service_abort s = Fail AssertFailed.
Proof.
  intros Hi Hg Hp g'.
  pose proof (service_modify_begin_spec s g Hi Hg Hp) as Hb.
  assert (Hout : has_ongoing_change s = Ok false).
  { destruct Hi as [H1 H2]. unfold has_ongoing_change.
    by rewrite H1, bool_decide_eq_true_2. }
  split_and!.
  - unfold service_modification. rewrite Hb. simpl. rewrite run_setters_spec by (by right). simpl.
    rewrite service_commit_spec by (by right). done.
  - rewrite Hb. simpl. rewrite run_setters_spec by (by right). simpl.
    unfold service_abort, has_ongoing_change, with_next. simpl.
    destruct Hi as [H1 H2]. destruct s; simpl in *. by subst.
  - intros s1. rewrite Hb. intros [= <-]. done.
  - intros x. assert (Hset : ∀ f, service_set f s = Fail AssertFailed).
    { intros f. unfold service_set. by rewrite Hout. }
    destruct x; simpl; unfold service_set_generation, service_set_props, service_set_ttl,
      service_set_non_orphan, service_set_orphan_since, service_set_client_id; apply Hset.
  - unfold service_commit_change. by rewrite Hout.
  - unfold service_abort. by rewrite Hout.
Qed.

Lemma service_change_transaction_witness :
  let g := Generation 1 (Some []) 5 (d_of_Z (-1)) 7 in
  let s := Service 99 service_change_type_none (Some g) None None 2 in
  service_modification [SetGeneration 2; SetTtl 9] s =
  Ok (committed (Generation 2 (Some []) 9 (d_of_Z (-1)) 7) s, service_change_type_modified).
Proof.
  intros g s.
  destruct (service_change_transaction [SetGeneration 2; SetTtl 9] s g) as [E _];
    [done|done|done|exact E].
Defined.
