(* ===== verification/Sub.v ===== *)
(** * Subscriptions (src/sd/sub.c)

    The record of a subscription, and [sub_notify]: which match, if any, a
    change of a service means to it.  The call of the match callback is an
    output of the caller (Sd.v). *)

From S2P Require Import Prelude CLib Pvalue Props Filter Double Service.

Inductive sub_match_type :=
  | sub_match_type_appeared
  | sub_match_type_modified
  | sub_match_type_disappeared.

#[export] Instance sub_match_type_eq_dec : EqDecision sub_match_type.
Proof. solve_decision. Defined.

(** [match_cb] and its data are one token, which the outputs carry. *)
Record sub := Sub {
  sub_id : Z;
  sub_filter : option filter_t;
  sub_client_id : Z;
  match_cb_data : Z;
  sub_ref_cnt : Z
}.

(** [filter_clone_non_null] *)
Definition filter_clone_non_null (f : option filter_t) : option filter_t :=
  match f with Some f => Some (filter_clone f) | None => None end.

Definition sub_init (id : Z) (filter : option filter_t) (client_id cb_data : Z) : sub :=
  Sub id (filter_clone_non_null filter) client_id cb_data 1.

Definition sub_with_ref_cnt (n : Z) (s : sub) : sub :=
  Sub (sub_id s) (sub_filter s) (sub_client_id s) (match_cb_data s) n.

Definition sub_get_filter_str (s : sub) : option cstr :=
  match sub_filter s with Some f => Some (filter_str f) | None => None end.

Definition matches (s : sub) (p : option props) : outcome bool :=
  match sub_filter s with
  | Some f => p ← deref p; filter_matches f p
  | None => Ok true
  end.

(** The match the callback is called with, if it is called. *)
Definition sub_notify_match (s : sub) (change_type : service_change_type) (srv : service)
    : outcome (option sub_match_type) :=
  match change_type with
  | service_change_type_added =>
      p ← service_get_props srv;
      m ← matches s p;
      Ok (if (m : bool) then Some sub_match_type_appeared else None)
  | service_change_type_modified =>
      before ← service_get_prev_props srv;
      after ← service_get_props srv;
      matches_before ← matches s before;
      matches_after ← matches s after;
      if negb matches_before && negb matches_after then Ok None
      else if matches_before && matches_after then Ok (Some sub_match_type_modified)
      else if negb matches_before && matches_after then Ok (Some sub_match_type_appeared)
      else
        _ ← ut_assert (matches_before && negb matches_after);
        Ok (Some sub_match_type_disappeared)
  | service_change_type_removed =>
      p ← service_get_prev_props srv;
      m ← matches s p;
      Ok (if (m : bool) then Some sub_match_type_disappeared else None)
  | service_change_type_none => Fail AssertFailed
  end.

(** ** What a subscriber is told *)

(** Filters and properties that matching decides (C7). *)
Definition filter_ok (f : option filter_t) : Prop :=
  match f with Some f => simple f ∧ strings_ok f | None => True end.

Definition props_fit (p : props) : Prop := props_ok p ∧ Forall (λ nv, fits nv.2) p.

#[export] Instance props_fit_dec p : Decision (props_fit p).
Proof. unfold props_fit. apply _. Defined.

(** The subscription selects services with these properties. *)
Definition selects (s : sub) (p : props) : bool :=
  match sub_filter s with Some f => fsat f p | None => true end.

Lemma matches_spec s p : filter_ok (sub_filter s) → props_fit p →
  matches s (Some p) = Ok (selects s p).
Proof.
  intros Hf [Hp1 Hp2]. unfold matches, selects. destruct (sub_filter s) as [f|]; [|done].
  destruct Hf. simpl. by apply filter_matches_fsat.
Qed.

(** The match for a service that is seen before and after, or not. *)
Definition transition (before after : bool) : option sub_match_type :=
  match before, after with
  | false, false => None
  | false, true => Some sub_match_type_appeared
  | true, true => Some sub_match_type_modified
  | true, false => Some sub_match_type_disappeared
  end.

(** The properties of the service before and after a change. *)
Definition props_before (ct : service_change_type) (srv : service) : option props :=
  match ct with
  | service_change_type_modified | service_change_type_removed => prev srv ≫= gen_props
  | _ => None
  end.

Definition props_after (ct : service_change_type) (srv : service) : option props :=
  match ct with
  | service_change_type_added | service_change_type_modified => current srv ≫= gen_props
  | _ => None
  end.

Definition sees (s : sub) (p : option props) : bool :=
  match p with Some p => selects s p | None => false end.

Definition has_props (g : option generation) : Prop :=
  match g with
  | Some g => match gen_props g with Some p => props_fit p | None => False end
  | None => False
  end.

(** What the change needs of the generations. *)
Definition change_ok (ct : service_change_type) (srv : service) : Prop :=
  match ct with
  | service_change_type_none => False
  | service_change_type_added => has_props (current srv)
  | service_change_type_modified => has_props (prev srv) ∧ has_props (current srv)
  | service_change_type_removed => has_props (prev srv)
  end.

Lemma has_props_inv g : has_props g →
  ∃ g' p, g = Some g' ∧ gen_props g' = Some p ∧ props_fit p.
Proof.
  destruct g as [g|]; [|done]. simpl. destruct (gen_props g) as [p|] eqn:E; [|done].
  intros Hp. by exists g, p.
Qed.

Lemma sub_notify_match_spec s ct srv : filter_ok (sub_filter s) → change_ok ct srv →
  sub_notify_match s ct srv =
  Ok (transition (sees s (props_before ct srv)) (sees s (props_after ct srv))).
Proof.
  intros Hf Hc. destruct ct; [done| | |]; simpl in Hc.
  - apply has_props_inv in Hc as (g & p & Eg & Ep & Hp). simpl.
    unfold service_get_props, service_get. rewrite Eg. simpl. rewrite Ep, matches_spec by done.
    simpl. by destruct (selects s p).
  - destruct Hc as [Hb Ha].
    apply has_props_inv in Hb as (g & p & Eg & Ep & Hp).
    apply has_props_inv in Ha as (g' & p' & Eg' & Ep' & Hp'). simpl.
    unfold service_get_prev_props, service_get_prev, service_get_props, service_get.
    rewrite Eg, Eg'. simpl. rewrite Ep, Ep', !matches_spec by done. simpl.
    by destruct (selects s p), (selects s p').
  - apply has_props_inv in Hc as (g & p & Eg & Ep & Hp). simpl.
    unfold service_get_prev_props, service_get_prev. rewrite Eg. simpl.
    rewrite Ep, matches_spec by done. simpl. by destruct (selects s p).
Qed.

(** A change of a service is reported to a subscription according to
    whether its filter holds of the service before and of the service after
    the change: appeared, modified, disappeared, or nothing when it held
    neither before nor after; an added service was not there before, a removed
    one is not there after.  No assertion fails. *)
Lemma sub_notify_correct (s : sub) (ct : service_change_type) (srv : service) :
  filter_ok (sub_filter s) → change_ok ct srv →
  ∃ before after : bool,
    (before = true ↔ ∃ p, props_before ct srv = Some p ∧
                          match sub_filter s with Some f => means f p | None => True end) ∧
    (after = true ↔ ∃ p, props_after ct srv = Some p ∧
                         match sub_filter s with Some f => means f p | None => True end) ∧
    sub_notify_match s ct srv = Ok (transition before after).
Proof.
  intros Hf Hc. eexists _, _. split_and!; [| |by apply sub_notify_match_spec].
  - destruct (props_before ct srv) as [p|]; simpl; [|naive_solver]. unfold selects.
    destruct (sub_filter s) as [f|]; [|naive_solver]. rewrite fsat_means. naive_solver.
  - destruct (props_after ct srv) as [p|]; simpl; [|naive_solver]. unfold selects.
    destruct (sub_filter s) as [f|]; [|naive_solver]. rewrite fsat_means. naive_solver.
Qed.

Lemma sub_notify_correct_witness :
  let s := Sub 1 (Some (FPresent (C "a"))) 2 0 2 in
  let srv := Service 3 service_change_type_none
               (Some (Generation 1 (Some []) 5 (d_of_Z (-1)) 7))
               (Some (Generation 0 (Some [(C "a", value_int64 1)]) 5 (d_of_Z (-1)) 7)) None 2 in
  sub_notify_match s service_change_type_modified srv = Ok (Some sub_match_type_disappeared).
Proof.
  intros s srv.
  destruct (sub_notify_correct s service_change_type_modified srv) as (b & a & Hb & Ha & E).
  - split; [done|]. apply (bool_decide_eq_true_1 (nul_free (C "a"))). reflexivity.
  - split; apply (bool_decide_eq_true_1 (props_fit _)); reflexivity.
  - rewrite E. assert (b = true) as ->.
    { apply Hb. eexists. split; [done|]. exists (value_int64 1). apply list_elem_of_here. }
    destruct a; [|done]. destruct Ha as [Ha _]. destruct (Ha eq_refl) as (p & [= <-] & v & Hv).
    by apply not_elem_of_nil in Hv.
Defined.
