(* ===== verification/Json.v ===== *)
(** * The JSON library (jansson)

    The protocol layer reads and writes JSON with the third-party library
    jansson.  [Jansson] lists the functions it calls, [JanssonLaws] what their
    documentation promises; the protocol code is written against the class,
    and JsonTree.v gives an instance.

    A JSON value is owned by one holder at each time in this program, so that
    the functions that change one return the changed value.  A null pointer is
    [None]. *)

From Stdlib Require Import SpecFloat.
From S2P Require Import Prelude CLib Double.

Inductive json_type :=
  | JSON_OBJECT | JSON_ARRAY | JSON_STRING | JSON_INTEGER | JSON_REAL
  | JSON_TRUE | JSON_FALSE | JSON_NULL.

#[export] Instance json_type_eq_dec : EqDecision json_type.
Proof. solve_decision. Defined.

(** ** Association lists with string keys *)

Section assoc.
Context {V : Type}.
Implicit Types l : list (cstr * V).

Fixpoint assoc_get l (k : cstr) : option V :=
  match l with
  | [] => None
  | (k', v) :: l' => if decide (k' = k) then Some v else assoc_get l' k
  end.

(** The value of a key that is there is replaced in place. *)
Fixpoint assoc_set l (k : cstr) (v : V) : list (cstr * V) :=
  match l with
  | [] => [(k, v)]
  | (k', v') :: l' => if decide (k' = k) then (k', v) :: l' else (k', v') :: assoc_set l' k v
  end.

Lemma assoc_get_set_eq l k v : assoc_get (assoc_set l k v) k = Some v.
Proof.
  induction l as [|[k' v'] l IH]; simpl; [by rewrite decide_True|].
  destruct (decide (k' = k)); simpl; [by rewrite decide_True|by rewrite decide_False].
Qed.

Lemma assoc_get_set_ne l k k' v : k ≠ k' → assoc_get (assoc_set l k v) k' = assoc_get l k'.
Proof.
  intros Hne. induction l as [|[k1 v1] l IH]; simpl; [by rewrite decide_False|].
  case_decide as E; simpl.
  - subst. by rewrite !decide_False.
  - case_decide; [done|apply IH].
Qed.

Lemma assoc_get_None l k : assoc_get l k = None ↔ k ∉ l.*1.
Proof.
  induction l as [|[k' v] l IH]; csimpl; [set_solver|].
  rewrite elem_of_cons. case_decide; [naive_solver|]. rewrite IH. naive_solver.
Qed.

Lemma assoc_get_is_Some l k : is_Some (assoc_get l k) ↔ k ∈ l.*1.
Proof.
  rewrite <-not_eq_None_Some, assoc_get_None. split; [|tauto].
  intros. by apply dec_stable.
Qed.

Lemma assoc_get_elem l k v : assoc_get l k = Some v → (k, v) ∈ l.
Proof.
  induction l as [|[k' v'] l IH]; simpl; [done|]. case_decide; [intros [= ->]; subst; left|].
  intros Hg. right. by apply IH.
Qed.

Lemma assoc_get_nodup l k v : NoDup l.*1 → (k, v) ∈ l → assoc_get l k = Some v.
Proof.
  induction l as [|[k' v'] l IH]; csimpl; [by intros _ ?%elem_of_nil|].
  intros [Hn Hnd]%NoDup_cons [[= -> ->]|Hin]%elem_of_cons; [by rewrite decide_True|].
  rewrite decide_False; [by apply IH|]. intros ->. apply Hn. apply list_elem_of_fmap.
  by exists (k, v).
Qed.

Lemma assoc_set_new l k v : k ∉ l.*1 → assoc_set l k v = l ++ [(k, v)].
Proof.
  induction l as [|[k' v'] l IH]; csimpl; [done|].
  rewrite not_elem_of_cons. intros [Hne Hl]. by rewrite decide_False, IH.
Qed.

Lemma assoc_set_keys l k v : k ∈ l.*1 → (assoc_set l k v).*1 = l.*1.
Proof.
  induction l as [|[k' v'] l IH]; csimpl; [by intros ?%elem_of_nil|].
  rewrite elem_of_cons. case_decide; csimpl; [done|].
  intros [->|Hl]; [done|]. by rewrite IH.
Qed.
End assoc.

(** ** The functions *)

Class Jansson (json_t : Type) := {
  (** [json_loadb] without flags, and [json_dumps] without flags. *)
  json_loadb : list ascii → option json_t;
  json_dumps : json_t → option cstr;
  json_typeof : json_t → json_type;
  json_integer_value : json_t → Z;
  json_number_value : json_t → double;
  json_string_value : json_t → option cstr;
  (** What [json_object_foreach] and [json_array_foreach] visit, in order. *)
  json_object_items : json_t → list (cstr * json_t);
  json_array_items : json_t → list json_t;
  json_object_get : json_t → cstr → option json_t;
  json_object_size : json_t → nat;
  json_object : json_t;
  json_array : json_t;
  json_integer : Z → json_t;
  json_real : double → option json_t;
  json_string : option cstr → option json_t;
  json_object_set_new : json_t → cstr → option json_t → json_t;
  json_array_append_new : json_t → option json_t → json_t;
  (** For the laws: the values the library hands out, and the strings that are
      valid UTF-8. *)
  json_valid : json_t → Prop;
  utf8 : cstr → bool
}.

(** The type tests are macros over [json_typeof]. *)
Section types.
Context {json_t : Type} `{!Jansson json_t}.

Definition json_is_object (j : json_t) : bool := bool_decide (json_typeof j = JSON_OBJECT).
Definition json_is_array (j : json_t) : bool := bool_decide (json_typeof j = JSON_ARRAY).
Definition json_is_string (j : json_t) : bool := bool_decide (json_typeof j = JSON_STRING).
Definition json_is_integer (j : json_t) : bool := bool_decide (json_typeof j = JSON_INTEGER).
Definition json_is_number (j : json_t) : bool :=
  bool_decide (json_typeof j = JSON_INTEGER) || bool_decide (json_typeof j = JSON_REAL).
End types.

Definition finite (d : double) : bool :=
  match d with S754_zero _ | S754_finite _ _ _ => true | _ => false end.

(** Strings the library takes and gives: valid UTF-8, and C strings. *)
Definition text {json_t} `{!Jansson json_t} (s : cstr) : Prop := nul_free s ∧ utf8 s = true.

(** ASCII is UTF-8. *)
Definition ascii_only (s : cstr) : bool := forallb (λ c, bool_decide (code c < 128)%Z) s.

(** ** What is documented *)

Class JanssonLaws (json_t : Type) `{!Jansson json_t} : Prop := {
  utf8_ascii s : ascii_only s = true → utf8 s = true;
  loadb_valid s (j : json_t) : json_loadb s = Some j → json_valid j;
  dumps_object (j : json_t) :
    json_valid j → json_typeof j = JSON_OBJECT → is_Some (json_dumps j);
  integer_range (j : json_t) :
    json_valid j → json_typeof j = JSON_INTEGER → is_int64 (json_integer_value j) = true;
  string_is_text (j : json_t) :
    json_valid j → json_typeof j = JSON_STRING → ∃ s, json_string_value j = Some s ∧ text s;
  items_valid (o : json_t) :
    json_valid o → Forall (λ kv, text kv.1 ∧ json_valid kv.2) (json_object_items o);
  items_nodup (o : json_t) : json_valid o → NoDup (json_object_items o).*1;
  get_items (o : json_t) k : json_valid o → json_object_get o k = assoc_get (json_object_items o) k;
  size_items (o : json_t) : json_valid o → json_object_size o = length (json_object_items o);
  array_valid (a : json_t) : json_valid a → Forall json_valid (json_array_items a);
  object_new : json_valid json_object ∧ json_typeof json_object = JSON_OBJECT ∧
    json_object_items json_object = [];
  array_new : json_valid json_array ∧ json_typeof json_array = JSON_ARRAY ∧
    json_array_items json_array = [];
  integer_new z : is_int64 z = true →
    json_valid (json_integer z) ∧ json_typeof (json_integer z) = JSON_INTEGER ∧
    json_integer_value (json_integer z) = z;
  real_new d : finite d = true → ∃ j, json_real d = Some j ∧
    json_valid j ∧ json_typeof j = JSON_REAL ∧ json_number_value j = d;
  string_new s : text s → ∃ j, json_string (Some s) = Some j ∧
    json_valid j ∧ json_typeof j = JSON_STRING ∧ json_string_value j = Some s;
  (** What the library takes without refusing it makes a value. *)
  string_taken s (j : json_t) : json_string s = Some j → json_valid j;
  real_taken d (j : json_t) : json_real d = Some j → json_valid j;
  string_null : json_string (json_t := json_t) None = None;
  set_new_spec (o : json_t) k v : json_valid o → json_typeof o = JSON_OBJECT → text k →
    json_valid v →
    json_valid (json_object_set_new o k (Some v)) ∧
    json_typeof (json_object_set_new o k (Some v)) = JSON_OBJECT ∧
    json_object_items (json_object_set_new o k (Some v)) = assoc_set (json_object_items o) k v;
  set_new_null (o : json_t) k : json_object_set_new o k None = o;
  append_new_spec (a : json_t) v : json_valid a → json_typeof a = JSON_ARRAY → json_valid v →
    json_valid (json_array_append_new a (Some v)) ∧
    json_typeof (json_array_append_new a (Some v)) = JSON_ARRAY ∧
    json_array_items (json_array_append_new a (Some v)) = json_array_items a ++ [v];
  append_new_null (a : json_t) : json_array_append_new a None = a
}.

(** ** Derived facts *)

Section derived.
Context {json_t : Type} `{!Jansson json_t, !JanssonLaws json_t}.

Lemma get_valid (o : json_t) k v : json_valid o → json_object_get o k = Some v → json_valid v.
Proof.
  intros Ho Hg. rewrite get_items in Hg by done. apply assoc_get_elem in Hg.
  pose proof (items_valid o Ho) as Hf. rewrite Forall_forall in Hf.
  by destruct (Hf _ Hg).
Qed.

Lemma get_set_eq (o : json_t) k v : json_valid o → json_typeof o = JSON_OBJECT → text k →
  json_valid v → json_object_get (json_object_set_new o k (Some v)) k = Some v.
Proof.
  intros Ho Ht Hk Hv. destruct (set_new_spec o k v Ho Ht Hk Hv) as (Hv' & _ & Hi).
  by rewrite get_items, Hi, assoc_get_set_eq.
Qed.

Lemma get_set_ne (o : json_t) k k' v : json_valid o → json_typeof o = JSON_OBJECT → text k →
  json_valid v → k ≠ k' →
  json_object_get (json_object_set_new o k (Some v)) k' = json_object_get o k'.
Proof.
  intros Ho Ht Hk Hv Hne. destruct (set_new_spec o k v Ho Ht Hk Hv) as (Hv' & _ & Hi).
  rewrite !get_items by done. by rewrite Hi, assoc_get_set_ne.
Qed.
End derived.
