(* ===== verification/JsonTree.v ===== *)
(** * JSON trees: an instance of the JSON library's contract

    JSON values as trees, with a reader and a printer for texts without
    escapes, non-ASCII characters and reals.  It shows that the laws of
    [JanssonLaws] hold of a concrete implementation, and lets the theorems
    about the protocol layer be applied to concrete messages. *)

From Stdlib Require Import SpecFloat.
From S2P Require Import Prelude CLib Double Json.

Set Warnings "-register-all".

Inductive json :=
  | JObject (l : list (cstr * json))
  | JArray (l : list json)
  | JString (s : cstr)
  | JInteger (z : Z)
  | JReal (d : double)
  | JTrue | JFalse | JNull.

(** ** Reading *)

Definition quote : ascii := ascii_of_nat 34.
Definition trim (s : cstr) : cstr := (span isspace s).2.

(** The value behind a character that must come next. *)
Definition expect (c : ascii) (s : cstr) : option cstr :=
  match trim s with c' :: s' => if decide (c' = c) then Some s' else None | [] => None end.

Definition read_string (s : cstr) : option (cstr * cstr) :=
  s ← expect quote s;
  let '(str, s) := span (λ c, negb (bool_decide (c = quote))) s in
  s ← expect quote s;
  Some (str, s).

Definition read_integer (s : cstr) : option (json * cstr) :=
  let '(z, s') := strtoll s in
  if bool_decide (s' = s) then None else Some (JInteger z, s').

Fixpoint read_value (fuel : nat) (s : cstr) : option (json * cstr) :=
  match fuel with
  | O => None
  | S fuel' =>
      let members := fix members (n : nat) (acc : list (cstr * json)) (s : cstr) :=
        match n with
        | O => None
        | S n' =>
            '(key, s) ← read_string s;
            s ← expect ":"%char s;
            '(v, s) ← read_value fuel' s;
            let acc := assoc_set acc key v in
            match expect ","%char s with
            | Some s => members n' acc s
            | None => s ← expect "}"%char s; Some (JObject acc, s)
            end
        end in
      let elements := fix elements (n : nat) (acc : list json) (s : cstr) :=
        match n with
        | O => None
        | S n' =>
            '(v, s) ← read_value fuel' s;
            let acc := acc ++ [v] in
            match expect ","%char s with
            | Some s => elements n' acc s
            | None => s ← expect "]"%char s; Some (JArray acc, s)
            end
        end in
      match expect "{"%char s with
      | Some s =>
          match expect "}"%char s with
          | Some s => Some (JObject [], s)
          | None => members (length s) [] s
          end
      | None =>
          match expect "["%char s with
          | Some s =>
              match expect "]"%char s with
              | Some s => Some (JArray [], s)
              | None => elements (length s) [] s
              end
          | None =>
              match read_string s with
              | Some (str, s) => Some (JString str, s)
              | None => read_integer (trim s)
              end
          end
      end
  end.

(** ** Printing *)

Definition quoted (s : cstr) : cstr := quote :: s ++ [quote].

Fixpoint separated (l : list cstr) : cstr :=
  match l with
  | [] => []
  | [s] => s
  | s :: l' => s ++ C ", " ++ separated l'
  end.

Fixpoint print (j : json) : cstr :=
  match j with
  | JObject l => C "{" ++ separated (map (λ kv, quoted kv.1 ++ C ": " ++ print kv.2) l) ++ C "}"
  | JArray l => C "[" ++ separated (map print l) ++ C "]"
  | JString s => quoted s
  | JInteger z => print_int64 z
  | JReal d => match d_trunc d with Ok z => print_int64 z | Fail _ => [] end ++ C ".0"
  | JTrue => C "true"
  | JFalse => C "false"
  | JNull => C "null"
  end.

(** ** Well-formed trees *)

Definition text_b (s : cstr) : bool := bool_decide (nul_free s) && ascii_only s.

Fixpoint wf (j : json) : bool :=
  match j with
  | JObject l => bool_decide (NoDup l.*1) && forallb (λ kv, text_b kv.1 && wf kv.2) l
  | JArray l => forallb wf l
  | JString s => text_b s
  | JInteger z => is_int64 z
  | _ => true
  end.

Definition load (s : list ascii) : option json :=
  match read_value (length s) s with
  | Some (j, rest) => if bool_decide (trim rest = []) && wf j then Some j else None
  | None => None
  end.

#[export] Instance tree_jansson : Jansson json := {|
  json_loadb := load;
  json_dumps j := Some (print j);
  json_typeof j :=
    match j with
    | JObject _ => JSON_OBJECT | JArray _ => JSON_ARRAY | JString _ => JSON_STRING
    | JInteger _ => JSON_INTEGER | JReal _ => JSON_REAL
    | JTrue => JSON_TRUE | JFalse => JSON_FALSE | JNull => JSON_NULL
    end;
  json_integer_value j := match j with JInteger z => z | _ => 0%Z end;
  json_number_value j :=
    match j with JReal d => d | JInteger z => d_of_Z z | _ => d_0 end;
  json_string_value j := match j with JString s => Some s | _ => None end;
  json_object_items j := match j with JObject l => l | _ => [] end;
  json_array_items j := match j with JArray l => l | _ => [] end;
  json_object_get j k := match j with JObject l => assoc_get l k | _ => None end;
  json_object_size j := match j with JObject l => length l | _ => 0 end;
  json_object := JObject [];
  json_array := JArray [];
  json_integer := JInteger;
  json_real d := if finite d then Some (JReal d) else None;
  json_string s :=
    match s with Some s => if text_b s then Some (JString s) else None | None => None end;
  json_object_set_new j k v :=
    match j, v with JObject l, Some v => JObject (assoc_set l k v) | _, _ => j end;
  json_array_append_new j v :=
    match j, v with JArray l, Some v => JArray (l ++ [v]) | _, _ => j end;
  json_valid j := wf j = true;
  utf8 := ascii_only
|}.

Lemma text_b_spec s : text_b s = true ↔ text (json_t := json) s.
Proof.
  unfold text_b, text. rewrite andb_true_iff, bool_decide_eq_true. done.
Qed.

Lemma wf_object l : wf (JObject l) = true ↔
  NoDup l.*1 ∧ Forall (λ kv, text (json_t := json) kv.1 ∧ wf kv.2 = true) l.
Proof.
  cbn [wf]. rewrite andb_true_iff, bool_decide_eq_true, forallb_forall, Forall_forall.
  setoid_rewrite andb_true_iff. setoid_rewrite text_b_spec.
  by setoid_rewrite <-list_elem_of_In.
Qed.

Lemma wf_array l : wf (JArray l) = true ↔ Forall (λ j, wf j = true) l.
Proof.
  cbn [wf]. rewrite forallb_forall, Forall_forall. by setoid_rewrite <-list_elem_of_In.
Qed.

Lemma assoc_set_wf l k v : text (json_t := json) k → wf v = true → wf (JObject l) = true →
  wf (JObject (assoc_set l k v)) = true.
Proof.
  rewrite !wf_object. intros Hk Hv [Hnd Hf]. split.
  - destruct (decide (k ∈ l.*1)) as [Hin|Hin]; [by rewrite assoc_set_keys|].
    rewrite assoc_set_new by done. rewrite fmap_app. apply NoDup_app. csimpl.
    split_and!; [done|set_solver|apply NoDup_singleton].
  - clear Hnd. induction Hf as [|[k' v'] l [Hk' Hv'] Hf IH]; simpl.
    + by constructor.
    + case_decide; constructor; auto.
Qed.

#[export] Instance tree_laws : JanssonLaws json.
Proof.
  split.
  - done.
  - intros s j. simpl. unfold load. destruct (read_value _ s) as [[j' rest]|]; [|done].
    destruct (bool_decide _ && wf j') eqn:E; [|done]. intros [= ->].
    by apply andb_true_iff in E as [_ E].
  - intros j _ _. by eexists.
  - intros [] Hv Ht; done.
  - intros [] Hv Ht; try done. exists s. split; [done|]. by apply text_b_spec.
  - intros [l| | | | | | |] Hv; simpl; try constructor. by apply wf_object in Hv as [_ Hv].
  - intros [l| | | | | | |] Hv; simpl; try constructor. by apply wf_object in Hv as [Hv _].
  - by intros [].
  - by intros [].
  - intros [|l| | | | | |] Hv; simpl; try constructor. by apply wf_array in Hv.
  - split_and!; reflexivity.
  - split_and!; reflexivity.
  - intros z Hz. done.
  - intros d Hd. simpl. rewrite Hd. by eexists.
  - intros s Hs. simpl. apply text_b_spec in Hs. rewrite Hs. by eexists.
  - intros [s|] j; simpl; [|done]. destruct (text_b s) eqn:E; [|done]. by intros [= <-].
  - intros d j. simpl. destruct (finite d); [|done]. by intros [= <-].
  - done.
  - intros [l| | | | | | |] k v Ho Ht Hk Hv; simpl in Ht; try done.
    split_and!; [|done..]. by apply assoc_set_wf.
  - by intros [].
  - intros [|l| | | | | |] v Ha Ht Hv; simpl in Ht; try done. split_and!; [|done..].
    apply wf_array. apply Forall_app. split; [by apply wf_array|by constructor].
  - by intros [].
Qed.

(** A message in which apostrophes stand for quotation marks. *)
Definition Q (s : string) : cstr :=
  map (λ c, if decide (c = "'"%char) then quote else c) (C s).

Example load_hello : load (Q "{'a': 17, 'b': ['x', {}], 'c': 'y'}") =
  Some (JObject [(C "a", JInteger 17); (C "b", JArray [JString (C "x"); JObject []]);
                 (C "c", JString (C "y"))]).
Proof. vm_compute. reflexivity. Qed.
