(* ===== verification/ProtoTa.v ===== *)
(** * Protocol transactions (src/proto/proto_ta.c, src/proto/msg.c)

    A transaction is a request of a client and the server's responses to it.
    The tables say which fields each command's messages have; a request is
    checked against them when it is parsed, a response is produced from them.
    The arguments of the variadic response functions are lists of pointers;
    taking an argument that is not there, or reading one as a type it does not
    have, is undefined behaviour. *)

From S2P Require Import Prelude CLib Pvalue Props Double Sub Json.

(** ** msg.c *)

Record msg := Msg { msg_data : list ascii; msg_len : nat }.

Definition msg_create (data : list ascii) (len : nat) : msg := Msg (take len data) len.
Definition msg_create_prealloc (data : list ascii) (len : nat) : msg := Msg data len.

(** ** Names *)

Definition PROTO_VERSION : Z := 2.

Definition PROTO_MSG_TYPE_REQ : cstr := C "request".
Definition PROTO_MSG_TYPE_ACCEPT : cstr := C "accept".
Definition PROTO_MSG_TYPE_NOTIFY : cstr := C "notify".
Definition PROTO_MSG_TYPE_COMPLETE : cstr := C "complete".
Definition PROTO_MSG_TYPE_FAIL : cstr := C "fail".

Definition PROTO_CMD_HELLO : cstr := C "hello".
Definition PROTO_CMD_SUBSCRIBE : cstr := C "subscribe".
Definition PROTO_CMD_UNSUBSCRIBE : cstr := C "unsubscribe".
Definition PROTO_CMD_PUBLISH : cstr := C "publish".
Definition PROTO_CMD_UNPUBLISH : cstr := C "unpublish".
Definition PROTO_CMD_PING : cstr := C "ping".
Definition PROTO_CMD_SUBSCRIPTIONS : cstr := C "subscriptions".
Definition PROTO_CMD_SERVICES : cstr := C "services".
Definition PROTO_CMD_CLIENTS : cstr := C "clients".

Definition PROTO_NUM_MANDANTORY_FIELDS : nat := 3.

Definition PROTO_FIELD_TA_CMD : cstr := C "ta-cmd".
Definition PROTO_FIELD_TA_ID : cstr := C "ta-id".
Definition PROTO_FIELD_MSG_TYPE : cstr := C "msg-type".
Definition PROTO_FIELD_FAIL_REASON : cstr := C "fail-reason".
Definition PROTO_FIELD_PROTO_MIN_VERSION : cstr := C "protocol-minimum-version".
Definition PROTO_FIELD_PROTO_MAX_VERSION : cstr := C "protocol-maximum-version".
Definition PROTO_FIELD_PROTO_VERSION : cstr := C "protocol-version".
Definition PROTO_FIELD_SERVICE_ID : cstr := C "service-id".
Definition PROTO_FIELD_SERVICE_PROPS : cstr := C "service-props".
Definition PROTO_FIELD_GENERATION : cstr := C "generation".
Definition PROTO_FIELD_TTL : cstr := C "ttl".
Definition PROTO_FIELD_ORPHAN_SINCE : cstr := C "orphan-since".
Definition PROTO_FIELD_SUBSCRIPTION_ID : cstr := C "subscription-id".
Definition PROTO_FIELD_FILTER : cstr := C "filter".
Definition PROTO_FIELD_CLIENT_ID : cstr := C "client-id".
Definition PROTO_FIELD_CLIENT_ADDR : cstr := C "client-address".
Definition PROTO_FIELD_TIME : cstr := C "time".
Definition PROTO_FIELD_MATCH_TYPE : cstr := C "match-type".

Definition PROTO_MATCH_TYPE_APPEARED : cstr := C "appeared".
Definition PROTO_MATCH_TYPE_MODIFIED : cstr := C "modified".
Definition PROTO_MATCH_TYPE_DISAPPEARED : cstr := C "disappeared".

Definition PROTO_FAIL_REASON_NO_HELLO : cstr := C "no-hello".
Definition PROTO_FAIL_REASON_CLIENT_ID_EXISTS : cstr := C "client-id-exists".
Definition PROTO_FAIL_REASON_INVALID_FILTER_SYNTAX : cstr := C "invalid-filter-syntax".
Definition PROTO_FAIL_REASON_SUBSCRIPTION_ID_EXISTS : cstr := C "subscription-id-exists".
Definition PROTO_FAIL_REASON_NON_EXISTENT_SUBSCRIPTION_ID : cstr :=
  C "non-existent-subscription-id".
Definition PROTO_FAIL_REASON_NON_EXISTENT_SERVICE_ID : cstr := C "non-existent-service-id".
Definition PROTO_FAIL_REASON_UNSUPPORTED_PROTOCOL_VERSION : cstr :=
  C "unsupported-protocol-version".
Definition PROTO_FAIL_REASON_PERMISSION_DENIED : cstr := C "permission-denied".
Definition PROTO_FAIL_REASON_OLD_GENERATION : cstr := C "old-generation".
Definition PROTO_FAIL_REASON_SAME_GENERATION_BUT_DIFFERENT : cstr :=
  C "same-generation-but-different".

(** ** Types *)

Inductive proto_msg_type :=
  | proto_msg_type_req
  | proto_msg_type_accept
  | proto_msg_type_notify
  | proto_msg_type_complete
  | proto_msg_type_fail
  | proto_msg_type_undefined.

#[export] Instance proto_msg_type_eq_dec : EqDecision proto_msg_type.
Proof. solve_decision. Defined.

Inductive proto_field_type :=
  | proto_field_type_str
  | proto_field_type_uint63
  | proto_field_type_number
  | proto_field_type_props
  | proto_field_type_match_type.

#[export] Instance proto_field_type_eq_dec : EqDecision proto_field_type.
Proof. solve_decision. Defined.

Record proto_field := Field { field_name : cstr; field_type : proto_field_type }.

Inductive proto_ia_type := proto_ia_type_single_response | proto_ia_type_multi_response.

#[export] Instance proto_ia_type_eq_dec : EqDecision proto_ia_type.
Proof. solve_decision. Defined.

Definition MAX_FIELDS : nat := 16.

(** The arrays of fields end with a null name; a list is the part before. *)
Record proto_ta_type := TaType {
  cmd : cstr;
  ia_type : proto_ia_type;
  req_fields : list proto_field;
  opt_req_fields : list proto_field;
  notify_fields : list proto_field;
  opt_notify_fields : list proto_field;
  complete_fields : list proto_field;
  opt_fail_fields : list proto_field
}.

Inductive proto_ta_state :=
  | proto_ta_state_initialized
  | proto_ta_state_requested
  | proto_ta_state_accepted
  | proto_ta_state_completed
  | proto_ta_state_failed.

#[export] Instance proto_ta_state_eq_dec : EqDecision proto_ta_state.
Proof. solve_decision. Defined.

(** What a field value points to. *)
Inductive field_value :=
  | FStr (s : cstr)
  | FUint63 (z : Z)
  | FNumber (d : double)
  | FProps (p : props)
  | FMatchType (m : sub_match_type).

(** [None] is [NULL], in the arrays of values too. *)
Record proto_ta := Ta {
  ta_type : option proto_ta_type;
  ta_state : proto_ta_state;
  ta_id : Z;
  req_field_values : list (option field_value);
  opt_req_field_values : list (option field_value)
}.

(** ** The tables *)

Definition fail_reason_field : list proto_field :=
  [Field PROTO_FIELD_FAIL_REASON proto_field_type_str].

Definition hello_ta : proto_ta_type := {|
  cmd := PROTO_CMD_HELLO;
  ia_type := proto_ia_type_single_response;
  req_fields := [Field PROTO_FIELD_CLIENT_ID proto_field_type_uint63;
                 Field PROTO_FIELD_PROTO_MIN_VERSION proto_field_type_uint63;
                 Field PROTO_FIELD_PROTO_MAX_VERSION proto_field_type_uint63];
  opt_req_fields := [];
  notify_fields := [];
  opt_notify_fields := [];
  complete_fields := [Field PROTO_FIELD_PROTO_VERSION proto_field_type_uint63];
  opt_fail_fields := fail_reason_field
|}.

Definition publish_ta : proto_ta_type := {|
  cmd := PROTO_CMD_PUBLISH;
  ia_type := proto_ia_type_single_response;
  req_fields := [Field PROTO_FIELD_SERVICE_ID proto_field_type_uint63;
                 Field PROTO_FIELD_GENERATION proto_field_type_uint63;
                 Field PROTO_FIELD_SERVICE_PROPS proto_field_type_props;
                 Field PROTO_FIELD_TTL proto_field_type_uint63];
  opt_req_fields := [];
  notify_fields := [];
  opt_notify_fields := [];
  complete_fields := [];
  opt_fail_fields := fail_reason_field
|}.

Definition unpublish_ta : proto_ta_type := {|
  cmd := PROTO_CMD_UNPUBLISH;
  ia_type := proto_ia_type_single_response;
  req_fields := [Field PROTO_FIELD_SERVICE_ID proto_field_type_uint63];
  opt_req_fields := [];
  notify_fields := [];
  opt_notify_fields := [];
  complete_fields := [];
  opt_fail_fields := fail_reason_field
|}.

Definition subscribe_ta : proto_ta_type := {|
  cmd := PROTO_CMD_SUBSCRIBE;
  ia_type := proto_ia_type_multi_response;
  req_fields := [Field PROTO_FIELD_SUBSCRIPTION_ID proto_field_type_uint63];
  opt_req_fields := [Field PROTO_FIELD_FILTER proto_field_type_str];
  notify_fields := [Field PROTO_FIELD_MATCH_TYPE proto_field_type_match_type;
                    Field PROTO_FIELD_SERVICE_ID proto_field_type_uint63];
  opt_notify_fields := [Field PROTO_FIELD_GENERATION proto_field_type_uint63;
                        Field PROTO_FIELD_SERVICE_PROPS proto_field_type_props;
                        Field PROTO_FIELD_TTL proto_field_type_uint63;
                        Field PROTO_FIELD_CLIENT_ID proto_field_type_uint63;
                        Field PROTO_FIELD_ORPHAN_SINCE proto_field_type_number];
  complete_fields := [];
  opt_fail_fields := fail_reason_field
|}.

Definition unsubscribe_ta : proto_ta_type := {|
  cmd := PROTO_CMD_UNSUBSCRIBE;
  ia_type := proto_ia_type_single_response;
  req_fields := [Field PROTO_FIELD_SUBSCRIPTION_ID proto_field_type_uint63];
  opt_req_fields := [];
  notify_fields := [];
  opt_notify_fields := [];
  complete_fields := [];
  opt_fail_fields := fail_reason_field
|}.

Definition ping_ta : proto_ta_type := {|
  cmd := PROTO_CMD_PING;
  ia_type := proto_ia_type_single_response;
  req_fields := [];
  opt_req_fields := [];
  notify_fields := [];
  opt_notify_fields := [];
  complete_fields := [];
  opt_fail_fields := fail_reason_field
|}.

Definition services_ta : proto_ta_type := {|
  cmd := PROTO_CMD_SERVICES;
  ia_type := proto_ia_type_multi_response;
  req_fields := [];
  opt_req_fields := [Field PROTO_FIELD_FILTER proto_field_type_str];
  notify_fields := [Field PROTO_FIELD_SERVICE_ID proto_field_type_uint63;
                    Field PROTO_FIELD_GENERATION proto_field_type_uint63;
                    Field PROTO_FIELD_SERVICE_PROPS proto_field_type_props;
                    Field PROTO_FIELD_TTL proto_field_type_uint63;
                    Field PROTO_FIELD_CLIENT_ID proto_field_type_uint63];
  opt_notify_fields := [Field PROTO_FIELD_ORPHAN_SINCE proto_field_type_number];
  complete_fields := [];
  opt_fail_fields := fail_reason_field
|}.

Definition subscriptions_ta : proto_ta_type := {|
  cmd := PROTO_CMD_SUBSCRIPTIONS;
  ia_type := proto_ia_type_multi_response;
  req_fields := [];
  opt_req_fields := [];
  notify_fields := [Field PROTO_FIELD_SUBSCRIPTION_ID proto_field_type_uint63;
                    Field PROTO_FIELD_CLIENT_ID proto_field_type_uint63];
  opt_notify_fields := [Field PROTO_FIELD_FILTER proto_field_type_str];
  complete_fields := [];
  opt_fail_fields := []
|}.

Definition clients_ta : proto_ta_type := {|
  cmd := PROTO_CMD_CLIENTS;
  ia_type := proto_ia_type_multi_response;
  req_fields := [];
  opt_req_fields := [];
  notify_fields := [Field PROTO_FIELD_CLIENT_ID proto_field_type_uint63;
                    Field PROTO_FIELD_CLIENT_ADDR proto_field_type_str;
                    Field PROTO_FIELD_TIME proto_field_type_uint63];
  opt_notify_fields := [];
  complete_fields := [];
  opt_fail_fields := fail_reason_field
|}.

Definition proto_ta_types : list proto_ta_type :=
  [hello_ta; publish_ta; unpublish_ta; subscribe_ta; unsubscribe_ta; ping_ta; services_ta;
   subscriptions_ta; clients_ta].

Fixpoint lookup_loop (types : list proto_ta_type) (cmd_name : cstr) : option proto_ta_type :=
  match types with
  | [] => None
  | type :: types' =>
      if bool_decide (strcmp (cmd type) cmd_name = 0)%Z then Some type
      else lookup_loop types' cmd_name
  end.

Definition lookup_type (cmd_name : cstr) : option proto_ta_type :=
  lookup_loop proto_ta_types cmd_name.

(** ** Match types *)

Definition proto_match_type_to_enum (s : cstr) : option sub_match_type :=
  if streq s PROTO_MATCH_TYPE_APPEARED then Some sub_match_type_appeared
  else if streq s PROTO_MATCH_TYPE_MODIFIED then Some sub_match_type_modified
  else if streq s PROTO_MATCH_TYPE_DISAPPEARED then Some sub_match_type_disappeared
  else None.

Definition enum_to_proto_match_type (m : sub_match_type) : cstr :=
  match m with
  | sub_match_type_appeared => PROTO_MATCH_TYPE_APPEARED
  | sub_match_type_modified => PROTO_MATCH_TYPE_MODIFIED
  | sub_match_type_disappeared => PROTO_MATCH_TYPE_DISAPPEARED
  end.

(** ** Arrays of field values *)

Definition values_set (values : list (option field_value)) (i : nat) (v : option field_value)
    : outcome (list (option field_value)) :=
  if bool_decide (i < length values) then Ok (<[i := v]> values) else Fail Undefined.

(** Props are destroyed as props; the other values are plain blocks. *)
Definition free_field (type : proto_field_type) (v : option field_value) : outcome unit :=
  match type, v with
  | proto_field_type_props, Some (FProps _) => Ok tt
  | proto_field_type_props, Some _ => Fail Undefined
  | _, _ => Ok tt
  end.

Fixpoint free_fields_loop (fields : list proto_field) (i : nat)
    (values : list (option field_value)) : outcome (list (option field_value)) :=
  match fields with
  | [] => Ok values
  | f :: fields' =>
      v ← deref (values !! i);
      _ ← free_field (field_type f) v;
      values ← values_set values i None;
      free_fields_loop fields' (i + 1) values
  end.

Definition free_fields (fields : list proto_field) (values : list (option field_value))
    : outcome (list (option field_value)) := free_fields_loop fields 0 values.

(** ** Reading a request *)

Section json.
Context {json_t : Type} `{!Jansson json_t}.
Implicit Types j : json_t.

(** [None] is the error, [Some None] an optional field that is not there. *)
Definition get_json j (name : cstr) (opt : bool) : option (option json_t) :=
  match json_object_get j name with
  | None => if negb opt then None else Some None
  | Some value => Some (Some value)
  end.

(** [GEN_TYPED_GET] *)
Definition typed_get (json_is_type : json_t → bool) j (name : cstr) (opt : bool)
    : option (option json_t) :=
  match get_json j name opt with
  | None => None
  | Some (Some value) => if negb (json_is_type value) then None else Some (Some value)
  | Some None => Some None
  end.

Definition get_json_integer := typed_get json_is_integer.
Definition get_json_number := typed_get json_is_number.
Definition get_json_string := typed_get json_is_string.
Definition get_json_object := typed_get json_is_object.

(** The value of a null pointer is zero. *)
Definition get_uint63 j (name : cstr) (opt : bool) : option Z :=
  match get_json_integer j name opt with
  | None => None
  | Some json_value =>
      let value := match json_value with Some v => json_integer_value v | None => 0%Z end in
      if bool_decide (value < 0)%Z then None else Some value
  end.

Definition get_msg_type j : outcome proto_msg_type :=
  match get_json_string j PROTO_FIELD_MSG_TYPE false with
  | None => Ok proto_msg_type_undefined
  | Some msg_type =>
      s ← deref (msg_type ≫= json_string_value);
      Ok (if streq s PROTO_MSG_TYPE_REQ then proto_msg_type_req
          else if streq s PROTO_MSG_TYPE_ACCEPT then proto_msg_type_accept
          else if streq s PROTO_MSG_TYPE_NOTIFY then proto_msg_type_notify
          else if streq s PROTO_MSG_TYPE_COMPLETE then proto_msg_type_complete
          else if streq s PROTO_MSG_TYPE_FAIL then proto_msg_type_fail
          else proto_msg_type_undefined)
  end.

(** The two loops of [json_to_props]; [None] is the error. *)
Fixpoint prop_values_loop (p : props) (prop_name : cstr) (values : list json_t)
    : outcome (option props) :=
  match values with
  | [] => Ok (Some p)
  | v :: values' =>
      if json_is_integer v then
        prop_values_loop (props_add p prop_name (pvalue_int64_create (json_integer_value v)))
          prop_name values'
      else if json_is_string v then
        s ← deref (json_string_value v);
        prop_values_loop (props_add p prop_name (pvalue_str_create s)) prop_name values'
      else Ok None
  end.

Fixpoint props_loop (p : props) (items : list (cstr * json_t)) : outcome (option props) :=
  match items with
  | [] => Ok (Some p)
  | (prop_name, json_prop_values) :: items' =>
      if negb (json_is_array json_prop_values) then Ok None
      else
        r ← prop_values_loop p prop_name (json_array_items json_prop_values);
        match r with
        | None => Ok None
        | Some p => props_loop p items'
        end
  end.

Definition json_to_props (json_props : json_t) : outcome (option props) :=
  props_loop props_create (json_object_items json_props).

(** The body of the loop of [get_fields]: the error, or the value or [NULL]. *)
Definition get_field j (f : proto_field) (opt : bool) : outcome (option (option field_value)) :=
  match field_type f with
  | proto_field_type_uint63 =>
      match get_json_integer j (field_name f) opt with
      | None => Ok None
      | Some None => Ok (Some None)
      | Some (Some json_int) =>
          let uint63_value := json_integer_value json_int in
          Ok (if bool_decide (uint63_value < 0)%Z then None else Some (Some (FUint63 uint63_value)))
      end
  | proto_field_type_number =>
      match get_json_number j (field_name f) opt with
      | None => Ok None
      | Some None => Ok (Some None)
      | Some (Some json_number) => Ok (Some (Some (FNumber (json_number_value json_number))))
      end
  | proto_field_type_str =>
      match get_json_string j (field_name f) opt with
      | None => Ok None
      | Some None => Ok (Some None)
      | Some (Some json_str) => s ← deref (json_string_value json_str); Ok (Some (Some (FStr s)))
      end
  | proto_field_type_props =>
      match get_json_object j (field_name f) opt with
      | None => Ok None
      | Some None => Ok (Some None)
      | Some (Some json_props) =>
          p ← json_to_props json_props;
          Ok (match p with None => None | Some p => Some (Some (FProps p)) end)
      end
  | proto_field_type_match_type =>
      match get_json_string j (field_name f) opt with
      | None => Ok None
      | Some None => Ok (Some None)
      | Some (Some json_match_type) =>
          s ← deref (json_string_value json_match_type);
          Ok (match proto_match_type_to_enum s with
              | None => None
              | Some m => Some (Some (FMatchType m))
              end)
      end
  end.

(** The number of fields that are there, or the error; and the values. *)
Fixpoint get_fields_loop j (all fields : list proto_field) (opt : bool) (i : nat)
    (values : list (option field_value)) (num_actual_fields : nat)
    : outcome (option nat * list (option field_value)) :=
  match fields with
  | [] => Ok (Some num_actual_fields, values)
  | f :: fields' =>
      r ← get_field j f opt;
      match r with
      | None => values ← free_fields all values; Ok (None, values)
      | Some arg =>
          values ← values_set values i arg;
          get_fields_loop j all fields' opt (i + 1) values
            (match arg with Some _ => num_actual_fields + 1 | None => num_actual_fields end)
      end
  end.

Definition get_fields j (fields : list proto_field) (opt : bool)
    (values : list (option field_value)) : outcome (option nat * list (option field_value)) :=
  get_fields_loop j fields fields opt 0 values 0.

(** ** Life of a transaction *)

Definition no_values : list (option field_value) := replicate MAX_FIELDS None.

Definition proto_ta_create : proto_ta :=
  Ta None proto_ta_state_initialized (-1) no_values no_values.

(** The values are freed; the block itself is the caller's. *)
Definition proto_ta_destroy (ta : proto_ta) : outcome unit :=
  match ta_type ta with
  | Some type =>
      _ ← free_fields (req_fields type) (req_field_values ta);
      _ ← free_fields (opt_req_fields type) (opt_req_field_values ta);
      Ok tt
  | None => Ok tt
  end.

Definition proto_ta_get_cmd (ta : proto_ta) : option cstr :=
  match ta_type ta with None => None | Some type => Some (cmd type) end.

Definition ta_with_state (s : proto_ta_state) (ta : proto_ta) : proto_ta :=
  Ta (ta_type ta) s (ta_id ta) (req_field_values ta) (opt_req_field_values ta).
Definition ta_with_id (id : Z) (ta : proto_ta) : proto_ta :=
  Ta (ta_type ta) (ta_state ta) id (req_field_values ta) (opt_req_field_values ta).
Definition ta_with_type (type : option proto_ta_type) (ta : proto_ta) : proto_ta :=
  Ta type (ta_state ta) (ta_id ta) (req_field_values ta) (opt_req_field_values ta).
Definition ta_with_values (req opt : list (option field_value)) (ta : proto_ta) : proto_ta :=
  Ta (ta_type ta) (ta_state ta) (ta_id ta) req opt.

(** [proto_ta_req] behind the lookup of the command's type. *)
Definition req_fields_of j (type : proto_ta_type) (ta : proto_ta) : outcome (Z * proto_ta) :=
  '(num_req_fields, req) ← get_fields j (req_fields type) false (req_field_values ta);
  match num_req_fields with
  | None => Ok ((-1)%Z, ta_with_values req (opt_req_field_values ta) ta)
  | Some num_req_fields =>
      '(num_opt_req_fields, opt) ←
        get_fields j (opt_req_fields type) true (opt_req_field_values ta);
      match num_opt_req_fields with
      | None =>
          req ← free_fields (req_fields type) req;
          Ok ((-1)%Z, ta_with_values req opt ta)
      | Some num_opt_req_fields =>
          let total_fields_visited :=
            PROTO_NUM_MANDANTORY_FIELDS + num_req_fields + num_opt_req_fields in
          if bool_decide (total_fields_visited < json_object_size j) then
            opt ← free_fields (opt_req_fields type) opt;
            req ← free_fields (req_fields type) req;
            Ok ((-1)%Z, ta_with_values req opt ta)
          else Ok (0%Z, ta_with_state proto_ta_state_requested (ta_with_values req opt ta))
      end
  end.

(** The result code and the transaction. *)
Definition proto_ta_req (ta : proto_ta) (req_msg : msg) : outcome (Z * proto_ta) :=
  _ ← ut_assert (bool_decide (ta_state ta = proto_ta_state_initialized));
  match json_loadb (take (msg_len req_msg) (msg_data req_msg)) with
  | None => Ok ((-1)%Z, ta)
  | Some req_json =>
      match get_uint63 req_json PROTO_FIELD_TA_ID false with
      | None => Ok ((-1)%Z, ta)
      | Some id =>
          let ta := ta_with_id id ta in
          match get_json_string req_json PROTO_FIELD_TA_CMD false with
          | None => Ok ((-1)%Z, ta)
          | Some cmd_json =>
              msg_type ← get_msg_type req_json;
              if bool_decide (msg_type ≠ proto_msg_type_req) then Ok ((-1)%Z, ta)
              else
                cmd_name ← deref (cmd_json ≫= json_string_value);
                let ta := ta_with_type (lookup_type cmd_name) ta in
                match ta_type ta with
                | None => Ok ((-1)%Z, ta)
                | Some type => req_fields_of req_json type ta
                end
          end
      end
  end.

(** ** Producing a response *)

Definition prop_to_json (json_props : json_t) (prop_name : cstr) (prop_value : pvalue)
    : outcome json_t :=
  value ← (if pvalue_is_int64 prop_value then
             v ← pvalue_int64 prop_value; Ok (Some (json_integer v))
           else
             _ ← ut_assert (pvalue_is_str prop_value);
             s ← pvalue_str prop_value; Ok (json_string (Some s)));
  Ok (match json_object_get json_props prop_name with
      | None =>
          let json_props := json_object_set_new json_props prop_name (Some json_array) in
          json_object_set_new json_props prop_name (Some (json_array_append_new json_array value))
      | Some value_list =>
          json_object_set_new json_props prop_name (Some (json_array_append_new value_list value))
      end).

Fixpoint props_to_json_loop (p : props) (json_props : json_t) : outcome json_t :=
  match p with
  | [] => Ok json_props
  | (n, v) :: p' => json_props ← prop_to_json json_props n v; props_to_json_loop p' json_props
  end.

Definition props_to_json (p : props) : outcome json_t := props_to_json_loop p json_object.

(** Reading what the pointer points to as another type, or a null pointer
    (but for a string), is undefined. *)
Definition set_field (req : json_t) (field : proto_field) (v : option field_value)
    : outcome json_t :=
  match field_type field, v with
  | proto_field_type_uint63, Some (FUint63 z) =>
      _ ← ut_assert (bool_decide (0 ≤ z)%Z);
      Ok (json_object_set_new req (field_name field) (Some (json_integer z)))
  | proto_field_type_number, Some (FNumber d) =>
      Ok (json_object_set_new req (field_name field) (json_real d))
  | proto_field_type_str, Some (FStr s) =>
      Ok (json_object_set_new req (field_name field) (json_string (Some s)))
  | proto_field_type_str, None =>
      Ok (json_object_set_new req (field_name field) (json_string None))
  | proto_field_type_props, Some (FProps p) =>
      json_props ← props_to_json p;
      Ok (json_object_set_new req (field_name field) (Some json_props))
  | proto_field_type_match_type, Some (FMatchType m) =>
      Ok (json_object_set_new req (field_name field)
            (json_string (Some (enum_to_proto_match_type m))))
  | _, _ => Fail Undefined
  end.

Definition create_response (cmd_name : cstr) (id : Z) (msg_type_str : cstr) : json_t :=
  let response := json_object in
  let response := json_object_set_new response PROTO_FIELD_TA_CMD (json_string (Some cmd_name)) in
  let response := json_object_set_new response PROTO_FIELD_TA_ID (Some (json_integer id)) in
  json_object_set_new response PROTO_FIELD_MSG_TYPE (json_string (Some msg_type_str)).

(** [va_arg] *)
Definition va_arg (ap : list (option field_value))
    : outcome (option field_value * list (option field_value)) :=
  match ap with [] => Fail Undefined | v :: ap' => Ok (v, ap') end.

Fixpoint set_fields_loop (response : json_t) (fields : list proto_field)
    (ap : list (option field_value)) : outcome (json_t * list (option field_value)) :=
  match fields with
  | [] => Ok (response, ap)
  | f :: fields' =>
      '(v, ap) ← va_arg ap;
      response ← set_field response f v;
      set_fields_loop response fields' ap
  end.

Fixpoint set_opt_fields_loop (response : json_t) (fields : list proto_field)
    (ap : list (option field_value)) : outcome (json_t * list (option field_value)) :=
  match fields with
  | [] => Ok (response, ap)
  | f :: fields' =>
      '(v, ap) ← va_arg ap;
      response ← (match v with Some _ => set_field response f v | None => Ok response end);
      set_opt_fields_loop response fields' ap
  end.

(** The name of a message type, and the fields such a message has. *)
Definition response_form (type : proto_ta_type) (msg_type : proto_msg_type)
    : outcome (cstr * list proto_field * list proto_field) :=
  match msg_type with
  | proto_msg_type_accept => Ok (PROTO_MSG_TYPE_ACCEPT, [], [])
  | proto_msg_type_notify =>
      Ok (PROTO_MSG_TYPE_NOTIFY, notify_fields type, opt_notify_fields type)
  | proto_msg_type_complete => Ok (PROTO_MSG_TYPE_COMPLETE, complete_fields type, [])
  | proto_msg_type_fail => Ok (PROTO_MSG_TYPE_FAIL, [], opt_fail_fields type)
  | _ => Fail AssertFailed
  end.

(** The JSON object of a response. *)
Definition response_json (ta : proto_ta) (msg_type : proto_msg_type)
    (ap : list (option field_value)) : outcome json_t :=
  type ← deref (ta_type ta);
  '(msg_type_str, fields, opt_fields) ← response_form type msg_type;
  let response := create_response (cmd type) (ta_id ta) msg_type_str in
  '(response, ap) ← set_fields_loop response fields ap;
  '(response, ap) ← set_opt_fields_loop response opt_fields ap;
  Ok response.

Definition produce_response (ta : proto_ta) (msg_type : proto_msg_type)
    (ap : list (option field_value)) : outcome msg :=
  response ← response_json ta msg_type ap;
  data ← deref (json_dumps response);
  Ok (msg_create_prealloc data (strlen data)).

(** ** The response functions *)

Definition proto_ta_has_term (ta : proto_ta) : bool :=
  bool_decide (ta_state ta = proto_ta_state_failed) ||
  bool_decide (ta_state ta = proto_ta_state_completed).

Definition proto_ta_accept (ta : proto_ta) (ap : list (option field_value))
    : outcome (msg * proto_ta) :=
  type ← deref (ta_type ta);
  _ ← ut_assert (bool_decide (ia_type type = proto_ia_type_multi_response) &&
                 bool_decide (ta_state ta = proto_ta_state_requested));
  response ← produce_response ta proto_msg_type_accept ap;
  Ok (response, ta_with_state proto_ta_state_accepted ta).

Definition proto_ta_notify (ta : proto_ta) (ap : list (option field_value))
    : outcome (msg * proto_ta) :=
  type ← deref (ta_type ta);
  _ ← ut_assert (bool_decide (ia_type type = proto_ia_type_multi_response) &&
                 bool_decide (ta_state ta = proto_ta_state_accepted));
  response ← produce_response ta proto_msg_type_notify ap;
  Ok (response, ta).

Definition proto_ta_complete (ta : proto_ta) (ap : list (option field_value))
    : outcome (msg * proto_ta) :=
  type ← deref (ta_type ta);
  _ ← (if bool_decide (ia_type type = proto_ia_type_single_response)
       then ut_assert (bool_decide (ta_state ta = proto_ta_state_requested))
       else ut_assert (bool_decide (ta_state ta = proto_ta_state_accepted)));
  response ← produce_response ta proto_msg_type_complete ap;
  Ok (response, ta_with_state proto_ta_state_completed ta).

Definition proto_ta_fail (ta : proto_ta) (ap : list (option field_value))
    : outcome (msg * proto_ta) :=
  _ ← ut_assert (negb (proto_ta_has_term ta));
  response ← produce_response ta proto_msg_type_fail ap;
  Ok (response, ta_with_state proto_ta_state_failed ta).
End json.

(** ** The values of a request *)

Definition get_req_field_value (ta : proto_ta) (type : proto_field_type) (field_idx : nat)
    : outcome field_value :=
  t ← deref (ta_type ta);
  _ ← ut_assert (bool_decide (field_name <$> req_fields t !! field_idx ≠ None));
  _ ← ut_assert (bool_decide (field_type <$> req_fields t !! field_idx = Some type));
  value ← deref (req_field_values ta !! field_idx);
  _ ← ut_assert (bool_decide (is_Some value));
  deref value.

Definition get_opt_req_field_value (ta : proto_ta) (type : proto_field_type) (field_idx : nat)
    : outcome (option field_value) :=
  t ← deref (ta_type ta);
  _ ← ut_assert (bool_decide (field_name <$> opt_req_fields t !! field_idx ≠ None));
  _ ← ut_assert (bool_decide (field_type <$> opt_req_fields t !! field_idx = Some type));
  deref (opt_req_field_values ta !! field_idx).

(** Reading a value as what it is expected to be. *)
Definition as_str (v : field_value) : outcome cstr :=
  match v with FStr s => Ok s | _ => Fail Undefined end.
Definition as_uint63 (v : field_value) : outcome Z :=
  match v with FUint63 z => Ok z | _ => Fail Undefined end.
Definition as_number (v : field_value) : outcome double :=
  match v with FNumber d => Ok d | _ => Fail Undefined end.
Definition as_props (v : field_value) : outcome props :=
  match v with FProps p => Ok p | _ => Fail Undefined end.
Definition as_match_type (v : field_value) : outcome sub_match_type :=
  match v with FMatchType m => Ok m | _ => Fail Undefined end.

Definition non_null {A} (f : field_value → outcome A) (v : option field_value)
    : outcome (option A) :=
  match v with Some v => a ← f v; Ok (Some a) | None => Ok None end.

Definition proto_ta_get_req_field_str_value (ta : proto_ta) (i : nat) : outcome cstr :=
  v ← get_req_field_value ta proto_field_type_str i; as_str v.
Definition proto_ta_get_req_field_uint63_value (ta : proto_ta) (i : nat) : outcome Z :=
  v ← get_req_field_value ta proto_field_type_uint63 i; as_uint63 v.
Definition proto_ta_get_req_field_number_value (ta : proto_ta) (i : nat) : outcome double :=
  v ← get_req_field_value ta proto_field_type_number i; as_number v.
Definition proto_ta_get_req_field_props_value (ta : proto_ta) (i : nat) : outcome props :=
  v ← get_req_field_value ta proto_field_type_props i; as_props v.
Definition proto_ta_get_req_field_match_type_value (ta : proto_ta) (i : nat)
    : outcome sub_match_type :=
  v ← get_req_field_value ta proto_field_type_match_type i; as_match_type v.

Definition proto_ta_get_opt_req_field_str_value (ta : proto_ta) (i : nat)
    : outcome (option cstr) :=
  v ← get_opt_req_field_value ta proto_field_type_str i; non_null as_str v.
Definition proto_ta_get_opt_req_field_uint63_value (ta : proto_ta) (i : nat)
    : outcome (option Z) :=
  v ← get_opt_req_field_value ta proto_field_type_uint63 i; non_null as_uint63 v.
Definition proto_ta_get_opt_req_field_number_value (ta : proto_ta) (i : nat)
    : outcome (option double) :=
  v ← get_opt_req_field_value ta proto_field_type_number i; non_null as_number v.
Definition proto_ta_get_opt_req_field_props_value (ta : proto_ta) (i : nat)
    : outcome (option props) :=
  v ← get_opt_req_field_value ta proto_field_type_props i; non_null as_props v.
Definition proto_ta_get_opt_req_field_match_type_value (ta : proto_ta) (i : nat)
    : outcome (option sub_match_type) :=
  v ← get_opt_req_field_value ta proto_field_type_match_type i; non_null as_match_type v.
