(* ===== verification/ProtoTaSpec.v ===== *)
(** * Properties of protocol transactions

    What a request means, and that [proto_ta_req] computes it; the order in
    which responses may come; that responses carry what they are given. *)

From S2P Require Import Prelude CLib Pvalue Props Double Sub Json JsonTree ProtoTa.

(** ** What a request means *)

Section spec.
Context {json_t : Type} `{!Jansson json_t}.
Implicit Types j : json_t.

Definition string_of j : option cstr :=
  if decide (json_typeof j = JSON_STRING) then json_string_value j else None.

Definition uint63_of j : option Z :=
  if decide (json_typeof j = JSON_INTEGER ∧ (0 ≤ json_integer_value j)%Z)
  then Some (json_integer_value j) else None.

Definition pvalue_of j : option pvalue :=
  if decide (json_typeof j = JSON_INTEGER) then Some (value_int64 (json_integer_value j))
  else value_str <$> string_of j.

(** An object of arrays, as name and value pairs. *)
Definition pairs_of (kv : cstr * json_t) : option props :=
  if decide (json_typeof kv.2 = JSON_ARRAY)
  then vs ← mapM pvalue_of (json_array_items kv.2); Some (pair kv.1 <$> vs) else None.

Definition props_of j : option props := ps ← mapM pairs_of (json_object_items j); Some (concat ps).

Definition match_type_of (s : cstr) : option sub_match_type :=
  if decide (s = C "appeared") then Some sub_match_type_appeared
  else if decide (s = C "modified") then Some sub_match_type_modified
  else if decide (s = C "disappeared") then Some sub_match_type_disappeared
  else None.

Definition value_of (type : proto_field_type) j : option field_value :=
  match type with
  | proto_field_type_uint63 => FUint63 <$> uint63_of j
  | proto_field_type_number =>
      if decide (json_typeof j = JSON_INTEGER ∨ json_typeof j = JSON_REAL)
      then Some (FNumber (json_number_value j)) else None
  | proto_field_type_str => FStr <$> string_of j
  | proto_field_type_props =>
      if decide (json_typeof j = JSON_OBJECT) then FProps <$> props_of j else None
  | proto_field_type_match_type => FMatchType <$> (string_of j ≫= match_type_of)
  end.

(** The value of a field of a message: [None] when it is unacceptable. *)
Definition slot_of j (opt : bool) (f : proto_field) : option (option field_value) :=
  match json_object_get j (field_name f) with
  | None => if opt then Some None else None
  | Some v => Some <$> value_of (field_type f) v
  end.

Record request := Request {
  rq_type : proto_ta_type;
  rq_id : Z;
  rq_values : list (option field_value);
  rq_opt_values : list (option field_value)
}.

Definition mandatory_names : list cstr := [C "ta-cmd"; C "ta-id"; C "msg-type"].

Definition known_names (type : proto_ta_type) : list cstr :=
  mandatory_names ++ (field_name <$> req_fields type) ++ (field_name <$> opt_req_fields type).

Definition type_named (name : cstr) : option proto_ta_type :=
  list_find (λ t, cmd t = name) proto_ta_types ≫= λ it, Some it.2.

(** A request has an identifier, a command and the right message type, the
    fields of its command, and no others. *)
Definition request_of j : option request :=
  id ← json_object_get j (C "ta-id") ≫= uint63_of;
  name ← json_object_get j (C "ta-cmd") ≫= string_of;
  mt ← json_object_get j (C "msg-type") ≫= string_of;
  if decide (mt = C "request") then
    type ← type_named name;
    req ← mapM (slot_of j false) (req_fields type);
    opt ← mapM (slot_of j true) (opt_req_fields type);
    if decide (Forall (λ k, k ∈ known_names type) (json_object_items j).*1)
    then Some (Request type id req opt) else None
  else None.

(** The array with these values at its start. *)
Definition filled (vs : list (option field_value)) : list (option field_value) :=
  vs ++ replicate (MAX_FIELDS - length vs) None.
End spec.

(** ** The tables *)

Definition type_ok (t : proto_ta_type) : Prop :=
  NoDup (known_names t) ∧ Forall nul_free (cmd t :: known_names t) ∧
  length (req_fields t) ≤ MAX_FIELDS ∧ length (opt_req_fields t) ≤ MAX_FIELDS.

Lemma types_ok : Forall type_ok proto_ta_types.
Proof. apply (bool_decide_eq_true_1 _). vm_compute. reflexivity. Qed.

Lemma type_named_ok name t : type_named name = Some t → type_ok t ∧ t ∈ proto_ta_types.
Proof.
  unfold type_named. intros ([i t'] & (Ht & _)%list_find_Some & [= <-])%bind_Some.
  split; [|by eapply list_elem_of_lookup_2].
  pose proof types_ok as Hf. rewrite Forall_forall in Hf. apply Hf.
  by eapply list_elem_of_lookup_2.
Qed.

Lemma lookup_type_spec name : nul_free name → lookup_type name = type_named name.
Proof.
  intros Hn. unfold lookup_type, type_named.
  pose proof types_ok as Hf. induction proto_ta_types as [|t ts IH]; [done|].
  apply Forall_cons in Hf as [(_ & Ht%Forall_cons & _) Hf]. destruct Ht as [Ht _].
  cbn [lookup_loop list_find]. destruct (decide (cmd t = name)) as [E|E].
  - rewrite bool_decide_eq_true_2; [done|]. by apply strcmp_eq.
  - rewrite bool_decide_eq_false_2 by (by rewrite strcmp_eq).
    rewrite IH by done. by destruct (list_find _ ts) as [[]|].
Qed.

(** ** Reading *)

Section reading.
Context {json_t : Type} `{!Jansson json_t, !JanssonLaws json_t}.
Implicit Types j : json_t.

Lemma string_of_text j s : json_valid j → string_of j = Some s → text s.
Proof.
  unfold string_of. intros Hv. case_decide as Ht; [|done]. intros Hs.
  destruct (string_is_text j Hv Ht) as (s' & Hs' & Htext). congruence.
Qed.

(** A value that is a string has a string value. *)
Lemma string_of_value j : json_valid j → json_typeof j = JSON_STRING →
  ∃ s, json_string_value j = Some s ∧ string_of j = Some s ∧ text s.
Proof.
  intros Hv Ht. destruct (string_is_text j Hv Ht) as (s & Hs & Htext).
  exists s. unfold string_of. by rewrite decide_True.
Qed.

Lemma get_typed (test : json_t → bool) j name opt :
  typed_get test j name opt =
  match json_object_get j name with
  | None => if opt then Some None else None
  | Some v => if test v then Some (Some v) else None
  end.
Proof.
  unfold typed_get, get_json. destruct (json_object_get j name) as [v|]; [by destruct (test v)|].
  by destruct opt.
Qed.

Lemma get_uint63_spec j name :
  get_uint63 j name false = json_object_get j name ≫= uint63_of.
Proof.
  unfold get_uint63, get_json_integer. rewrite get_typed.
  destruct (json_object_get j name) as [v|]; [|done]. simpl.
  unfold json_is_integer, uint63_of. case_bool_decide as Ht; simpl.
  - case_bool_decide; [rewrite decide_False by (intros []; lia)|rewrite decide_True by (split; [done|lia])]; done.
  - by rewrite decide_False by tauto.
Qed.

Lemma prop_values_loop_spec vs : Forall json_valid vs → ∀ p n,
  prop_values_loop p n vs =
  Ok (match mapM (pvalue_of (json_t := json_t)) vs with
      | Some xs => Some (p ++ (pair n <$> xs)) | None => None end).
Proof.
  induction 1 as [|v vs Hv _ IH]; intros p n; [simpl; by rewrite app_nil_r|].
  rewrite mapM_cons_eq. cbn [prop_values_loop]. unfold json_is_integer, json_is_string.
  assert (E : pvalue_of v = if decide (json_typeof v = JSON_INTEGER)
    then Some (value_int64 (json_integer_value v)) else value_str <$> string_of v) by done.
  rewrite E. clear E. case_bool_decide as Hi.
  - rewrite decide_True by done. rewrite IH. simpl.
    destruct (mapM _ vs); simpl; [|done]. unfold props_add, add. by rewrite <-app_assoc.
  - rewrite decide_False by done. case_bool_decide as Hs.
    + destruct (string_of_value v Hv Hs) as (s & Hs' & Hs'' & _).
      rewrite Hs', Hs''. simpl. rewrite IH. destruct (mapM _ vs); simpl; [|done].
      unfold props_add, add. by rewrite <-app_assoc.
    + unfold string_of. by rewrite decide_False.
Qed.

Lemma props_loop_spec items : Forall (λ kv, json_valid (json_t := json_t) kv.2) items → ∀ p,
  props_loop p items =
  Ok (match mapM pairs_of items with Some ps => Some (p ++ concat ps) | None => None end).
Proof.
  induction 1 as [|[n a] items Ha _ IH]; intros p; [simpl; by rewrite app_nil_r|].
  rewrite mapM_cons_eq. cbn [props_loop]. simpl in Ha.
  assert (E : pairs_of (n, a) = if decide (json_typeof a = JSON_ARRAY)
    then vs ← mapM pvalue_of (json_array_items a); Some (pair n <$> vs) else None) by done.
  rewrite E. clear E. unfold json_is_array. case_bool_decide as Ht; cbn [negb].
  - rewrite decide_True by done. rewrite prop_values_loop_spec by (by apply array_valid).
    cbn [mbind outcome_bind]. destruct (mapM pvalue_of (json_array_items a)) as [xs|]; [|done].
    rewrite IH. cbn [mbind option_bind].
    destruct (mapM pairs_of items); [|done]. cbn [mbind option_bind concat].
    by rewrite <-app_assoc.
  - by rewrite decide_False.
Qed.

Lemma json_to_props_spec j : json_valid j → json_to_props j = Ok (props_of j).
Proof.
  intros Hv. unfold json_to_props, props_of. rewrite props_loop_spec.
  - by destruct (mapM pairs_of _).
  - eapply Forall_impl; [by apply items_valid|]. by intros ? [_ ?].
Qed.

Lemma match_type_spec s : nul_free s → proto_match_type_to_enum s = match_type_of s.
Proof.
  intros Hs. unfold proto_match_type_to_enum, match_type_of.
  assert (Hd : ∀ t : cstr, nul_free t → streq s t = bool_decide (s = t)).
  { intros t Ht. by apply streq_decide. }
  rewrite !Hd by (apply (bool_decide_eq_true_1 _); reflexivity).
  unfold PROTO_MATCH_TYPE_APPEARED, PROTO_MATCH_TYPE_MODIFIED, PROTO_MATCH_TYPE_DISAPPEARED.
  repeat case_bool_decide; repeat case_decide; done.
Qed.

Lemma get_field_spec j f opt : json_valid j → get_field j f opt = Ok (slot_of j opt f).
Proof.
  intros Hv. unfold get_field, slot_of.
  assert (Hg := get_valid j (field_name f)).
  unfold get_json_integer, get_json_number, get_json_string, get_json_object.
  destruct (field_type f); rewrite get_typed;
    (destruct (json_object_get j (field_name f)) as [v|]; [|by destruct opt]);
    specialize (Hg v Hv eq_refl); simpl;
    unfold json_is_integer, json_is_number, json_is_string, json_is_object.
  - case_bool_decide as Ht; [|unfold string_of; by rewrite decide_False].
    destruct (string_of_value v Hg Ht) as (s & -> & -> & _). done.
  - unfold uint63_of. case_bool_decide as Ht; [|by rewrite decide_False by tauto].
    case_bool_decide.
    + by rewrite decide_False by (intros []; lia).
    + by rewrite decide_True by (split; [done|lia]).
  - case_bool_decide; simpl; [by rewrite decide_True by auto|].
    case_bool_decide; [by rewrite decide_True by auto|by rewrite decide_False by tauto].
  - case_bool_decide; [|by rewrite decide_False]. rewrite decide_True by done.
    rewrite json_to_props_spec by done. simpl. by destruct (props_of v).
  - case_bool_decide as Ht; [|unfold string_of; by rewrite decide_False].
    destruct (string_of_value v Hg Ht) as (s & -> & -> & [Hs _]). simpl.
    rewrite match_type_spec by done. by destruct (match_type_of s).
Qed.
End reading.

(** ** Arrays of field values *)

Definition has_type (type : proto_field_type) (v : field_value) : bool :=
  match type, v with
  | proto_field_type_str, FStr _ | proto_field_type_uint63, FUint63 _
  | proto_field_type_number, FNumber _ | proto_field_type_props, FProps _
  | proto_field_type_match_type, FMatchType _ => true
  | _, _ => false
  end.

Definition typed (f : proto_field) (v : option field_value) : Prop :=
  match v with Some v => has_type (field_type f) v = true | None => True end.

(** The number of values that are there. *)
Definition present (vs : list (option field_value)) : nat := length (omap id vs).

Lemma free_field_typed f v : typed f v → free_field (field_type f) v = Ok tt.
Proof. destruct v as [[]|]; simpl; by destruct (field_type f). Qed.

Lemma values_set_app vs v w rest :
  values_set (vs ++ v :: rest) (length vs) w = Ok ((vs ++ [w]) ++ rest).
Proof.
  unfold values_set. rewrite bool_decide_eq_true_2 by (rewrite length_app; simpl; lia).
  by rewrite insert_app_r_alt, Nat.sub_diag, <-app_assoc by lia.
Qed.

Lemma free_fields_loop_spec fields vs : Forall2 typed fields vs → ∀ pre rest,
  free_fields_loop fields (length pre) (pre ++ vs ++ rest) =
  Ok (pre ++ replicate (length vs) None ++ rest).
Proof.
  induction 1 as [|f v fields vs Hfv _ IH]; intros pre rest; simpl; [done|].
  rewrite list_lookup_middle by done. simpl. rewrite free_field_typed by done. simpl.
  rewrite values_set_app. cbn [mbind outcome_bind].
  replace (length pre + 1) with (length (pre ++ [@None field_value]))
    by (rewrite length_app; simpl; lia).
  rewrite IH. by rewrite <-app_assoc.
Qed.

Lemma free_fields_spec fields pre vs n :
  Forall2 typed pre vs → length fields ≤ length vs + n → pre `prefix_of` fields →
  free_fields fields (vs ++ replicate n None) = Ok (replicate (length vs + n) None).
Proof.
  intros Hf Hlen [rest ->]. rewrite length_app in Hlen.
  pose proof (Forall2_length _ _ _ Hf) as Hl.
  assert (Hn : n = length rest + (n - length rest)) by lia. rewrite Hn, replicate_add.
  assert (Hr : Forall2 typed rest (replicate (length rest) None)).
  { clear. induction rest; simpl; by constructor. }
  pose proof (free_fields_loop_spec _ _ (Forall2_app Hf Hr) []
    (replicate (n - length rest) None)) as E.
  simpl in E. unfold free_fields. rewrite <-app_assoc in E. rewrite E. f_equal.
  rewrite <-replicate_add. f_equal. rewrite length_app, length_replicate. lia.
Qed.

Section arrays.
Context {json_t : Type} `{!Jansson json_t, !JanssonLaws json_t}.
Implicit Types j : json_t.

Lemma slot_of_typed j opt f v : slot_of j opt f = Some v → typed f v.
Proof.
  unfold slot_of. destruct (json_object_get j (field_name f)) as [x|].
  - intros (y & Hy & ->)%fmap_Some. simpl. unfold value_of in Hy.
    destruct (field_type f); simpl in *; repeat case_decide; try done;
      try (apply fmap_Some in Hy as (? & _ & ->)); naive_solver.
  - destruct opt; [|done]. by intros [= <-].
Qed.

Lemma slots_typed j opt fields vs : mapM (slot_of j opt) fields = Some vs → Forall2 typed fields vs.
Proof.
  intros H%mapM_Some. eapply Forall2_impl; [exact H|]. intros f v. apply slot_of_typed.
Qed.

Lemma get_fields_loop_spec j opt fields : json_valid j → ∀ pre vs n num,
  Forall2 typed pre vs → length fields ≤ n →
  get_fields_loop j (pre ++ fields) fields opt (length vs) (vs ++ replicate n None) num =
  Ok (match mapM (slot_of j opt) fields with
      | Some xs => (Some (num + present xs), vs ++ xs ++ replicate (n - length fields) None)
      | None => (None, replicate (length vs + n) None)
      end).
Proof.
  intros Hv. induction fields as [|f fields IH]; intros pre vs n num Hf Hn.
  - simpl. rewrite Nat.sub_0_r. unfold present. simpl. by rewrite Nat.add_0_r.
  - cbn [get_fields_loop]. rewrite get_field_spec by done. cbn [mbind outcome_bind].
    rewrite mapM_cons_eq. destruct (slot_of j opt f) as [arg|] eqn:Ef; cbn [mbind option_bind].
    + simpl in Hn. destruct n as [|n]; [lia|]. cbn [replicate].
      rewrite values_set_app. cbn [mbind outcome_bind].
      replace (length vs + 1) with (length (vs ++ [arg])) by (rewrite length_app; simpl; lia).
      replace (pre ++ f :: fields) with ((pre ++ [f]) ++ fields) by (by rewrite <-app_assoc).
      rewrite IH.
      * destruct (mapM (slot_of j opt) fields) as [xs|]; cbn [mbind option_bind].
        -- unfold present. rewrite <-app_assoc. cbn [app]. do 3 f_equal.
           destruct arg; csimpl; lia.
        -- do 3 f_equal. rewrite length_app. simpl. lia.
      * apply Forall2_app; [done|]. constructor; [by eapply slot_of_typed|constructor].
      * lia.
    + rewrite (free_fields_spec _ pre) by
        (done || by (rewrite length_app; rewrite <-(Forall2_length _ _ _ Hf); simpl; simpl in Hn; lia)
         || by eexists). done.
Qed.

Lemma get_fields_spec j opt fields : json_valid j → length fields ≤ MAX_FIELDS →
  get_fields j fields opt no_values =
  Ok (match mapM (slot_of j opt) fields with
      | Some xs => (Some (present xs), filled xs)
      | None => (None, no_values)
      end).
Proof.
  intros Hv Hl. unfold get_fields.
  pose proof (get_fields_loop_spec j opt fields Hv [] [] MAX_FIELDS 0 ltac:(constructor) Hl) as E.
  cbn [app length] in E. unfold no_values. rewrite E.
  destruct (mapM (slot_of j opt) fields) as [xs|] eqn:Ex; [|done].
  unfold filled. apply mapM_Some, Forall2_length in Ex. by rewrite <-Ex.
Qed.
End arrays.

(** ** Unknown fields *)

(** The keys are all known when no more of them are there than known ones. *)
Lemma count_known (ks known : list cstr) : NoDup ks → NoDup known →
  length (filter (.∈ ks) known) < length ks ↔ ¬ Forall (.∈ known) ks.
Proof.
  intros Hks Hknown. set (K := filter (.∈ ks) known).
  assert (HK : NoDup K) by by apply NoDup_filter.
  assert (Hin : ∀ k, k ∈ K ↔ k ∈ ks ∧ k ∈ known) by (intros k; unfold K; by rewrite list_elem_of_filter).
  split.
  - intros Hlt Hall. rewrite Forall_forall in Hall.
    assert (Hsub : ks ⊆+ K).
    { apply NoDup_submseteq; [done|]. intros k Hk. apply Hin. auto. }
    apply submseteq_length in Hsub. lia.
  - intros Hn. destruct (decide (length K < length ks)) as [|Hge]; [done|]. exfalso. apply Hn.
    assert (Hsub : K ⊆+ ks).
    { apply NoDup_submseteq; [done|]. intros k Hk. by apply Hin in Hk as [? _]. }
    assert (Hp : K ≡ₚ ks) by (apply submseteq_length_Permutation; [done|lia]).
    apply Forall_forall. intros k Hk. rewrite <-Hp in Hk. by apply Hin in Hk as [_ ?].
Qed.

Section request.
Context {json_t : Type} `{!Jansson json_t, !JanssonLaws json_t}.
Implicit Types j : json_t.

Definition keys j : list cstr := (json_object_items j).*1.

Lemma get_is_Some j k : json_valid j → is_Some (json_object_get j k) ↔ k ∈ keys j.
Proof. intros Hv. rewrite get_items by done. apply assoc_get_is_Some. Qed.

Lemma present_count j opt fields vs : json_valid j → mapM (slot_of j opt) fields = Some vs →
  present vs = length (filter (.∈ keys j) (field_name <$> fields)).
Proof.
  intros Hv. revert vs. induction fields as [|f fields IH]; intros vs.
  - by intros [= <-].
  - rewrite mapM_cons_eq. intros (v & Hs & (vs' & Hvs & [= <-])%bind_Some)%bind_Some.
    unfold present. rewrite fmap_cons, filter_cons.
    pose proof (get_is_Some j (field_name f) Hv) as Hg. unfold slot_of in Hs.
    specialize (IH _ Hvs). unfold present in IH.
    destruct (json_object_get j (field_name f)) as [x|].
    + apply fmap_Some in Hs as (y & _ & ->). rewrite decide_True by (apply Hg; by eexists).
      csimpl. by rewrite IH.
    + destruct opt; [|done]. injection Hs as <-.
      rewrite decide_False by (intros [? ?]%Hg; done). csimpl. exact IH.
Qed.

Lemma known_count j type req opt : json_valid j → type_ok type →
  Forall (.∈ keys j) mandatory_names →
  mapM (slot_of j false) (req_fields type) = Some req →
  mapM (slot_of j true) (opt_req_fields type) = Some opt →
  PROTO_NUM_MANDANTORY_FIELDS + present req + present opt < json_object_size j ↔
  ¬ Forall (.∈ known_names type) (keys j).
Proof.
  intros Hv (Hnd & _) Hm Hreq Hopt. rewrite size_items by done.
  rewrite <-(length_fmap fst (json_object_items j)). fold (keys j).
  rewrite <-count_known by (done || by apply items_nodup).
  rewrite (present_count _ _ _ _ Hv Hreq), (present_count _ _ _ _ Hv Hopt).
  assert (E : length (filter (.∈ keys j) (known_names type)) =
    3 + length (filter (.∈ keys j) (field_name <$> req_fields type)) +
        length (filter (.∈ keys j) (field_name <$> opt_req_fields type))).
  { unfold known_names. rewrite !filter_app, !length_app.
    apply Forall_cons in Hm as [H1 Hm]. apply Forall_cons in Hm as [H2 Hm].
    apply Forall_cons in Hm as [H3 _]. unfold mandatory_names.
    rewrite !filter_cons, !decide_True by done. simpl. lia. }
  rewrite E. done.
Qed.
End request.

(** ** Requests *)

Section parse.
Context {json_t : Type} `{!Jansson json_t, !JanssonLaws json_t}.
Implicit Types j : json_t.

Lemma get_string_spec j name : json_valid j →
  match json_object_get j name ≫= string_of with
  | Some s => text s ∧ ∃ v, get_json_string j name false = Some (Some v) ∧ json_string_value v = Some s
  | None => get_json_string j name false = None
  end.
Proof.
  intros Hv. unfold get_json_string. rewrite get_typed.
  destruct (json_object_get j name) as [v|] eqn:Eg; [|done]. simpl.
  pose proof (get_valid _ _ _ Hv Eg) as Hvv. unfold json_is_string.
  case_bool_decide as Ht.
  - destruct (string_of_value v Hvv Ht) as (s & Hs & -> & Htext). eauto.
  - unfold string_of. by rewrite decide_False.
Qed.

Lemma get_msg_type_spec j : json_valid j → ∃ t, get_msg_type j = Ok t ∧
  (t = proto_msg_type_req ↔ json_object_get j (C "msg-type") ≫= string_of = Some (C "request")).
Proof.
  intros Hv. unfold get_msg_type. pose proof (get_string_spec j PROTO_FIELD_MSG_TYPE Hv) as H.
  unfold PROTO_FIELD_MSG_TYPE in *.
  destruct (json_object_get j (C "msg-type") ≫= string_of) as [s|].
  - destruct H as ([Hs _] & v & -> & Hs'). simpl. rewrite Hs'. simpl. eexists. split; [done|].
    unfold PROTO_MSG_TYPE_REQ. rewrite streq_decide by
      (done || (apply (bool_decide_eq_true_1 _); reflexivity)).
    case_bool_decide as E; [by subst|].
    split; [|by intros [= ->]]. repeat destruct (streq _ _); done.
  - rewrite H. eexists. split; [done|]. done.
Qed.

(** Behind the lookup of the command. *)
Lemma req_fields_of_spec j type id : json_valid j → type_ok type →
  Forall (.∈ keys j) mandatory_names →
  let ta := Ta (Some type) proto_ta_state_initialized id no_values no_values in
  req_fields_of j type ta =
  match mapM (slot_of j false) (req_fields type), mapM (slot_of j true) (opt_req_fields type) with
  | Some req, Some opt =>
      if decide (Forall (.∈ known_names type) (keys j))
      then Ok (0%Z, Ta (Some type) proto_ta_state_requested id (filled req) (filled opt))
      else Ok ((-1)%Z, ta)
  | _, _ => Ok ((-1)%Z, ta)
  end.
Proof.
  intros Hv Hok Hm ta. pose proof Hok as (_ & _ & Hl1 & Hl2). unfold req_fields_of.
  cbn [req_field_values opt_req_field_values ta].
  rewrite (get_fields_spec j false) by done. cbn [mbind outcome_bind].
  assert (Hfree : ∀ opt fields vs, length fields ≤ MAX_FIELDS →
    mapM (slot_of j opt) fields = Some vs → free_fields fields (filled vs) = Ok no_values).
  { intros opt fields vs Hl Hvs. pose proof (slots_typed _ _ _ _ Hvs) as Ht.
    pose proof (Forall2_length _ _ _ Ht) as Hlen.
    unfold filled. rewrite (free_fields_spec _ fields) by (done || lia).
    unfold no_values. do 2 f_equal. lia. }
  destruct (mapM (slot_of j false) (req_fields type)) as [req|] eqn:Er; cbn [mbind outcome_bind]; [|done].
  rewrite (get_fields_spec j true) by done. cbn [mbind outcome_bind].
  destruct (mapM (slot_of j true) (opt_req_fields type)) as [opt|] eqn:Eo; cbn [mbind outcome_bind].
  - pose proof (known_count _ _ _ _ Hv Hok Hm Er Eo) as Hc. case_bool_decide as Hlt.
    + rewrite decide_False by tauto. rewrite (Hfree _ _ _ Hl2 Eo). cbn [mbind outcome_bind].
      rewrite (Hfree _ _ _ Hl1 Er). done.
    + rewrite decide_True; [done|]. apply dec_stable. tauto.
  - rewrite (Hfree _ _ _ Hl1 Er). done.
Qed.

(** The transaction after a request that is refused: nothing is kept. *)
Definition refused (ta : proto_ta) : Prop :=
  ta_state ta = proto_ta_state_initialized ∧
  req_field_values ta = no_values ∧ opt_req_field_values ta = no_values ∧
  match ta_type ta with Some t => t ∈ proto_ta_types | None => True end.

Definition requested (rq : request) : proto_ta :=
  Ta (Some (rq_type rq)) proto_ta_state_requested (rq_id rq) (filled (rq_values rq))
    (filled (rq_opt_values rq)).

Lemma proto_ta_req_spec (m : msg) :
  match json_loadb (take (msg_len m) (msg_data m)) ≫= request_of (json_t := json_t) with
  | Some rq => proto_ta_req proto_ta_create m = Ok (0%Z, requested rq)
  | None => ∃ ta, proto_ta_req proto_ta_create m = Ok ((-1)%Z, ta) ∧ refused ta
  end.
Proof.
  unfold proto_ta_req. cbn [ta_state proto_ta_create]. rewrite bool_decide_eq_true_2 by done.
  cbn [ut_assert mbind outcome_bind].
  destruct (json_loadb _) as [j|] eqn:Ej; cbn [mbind option_bind]; [|by eexists].
  pose proof (loadb_valid _ _ Ej) as Hv. rewrite get_uint63_spec. unfold request_of.
  unfold PROTO_FIELD_TA_ID, PROTO_FIELD_TA_CMD.
  destruct (json_object_get j (C "ta-id") ≫= uint63_of) as [id|] eqn:Eid;
    cbn [mbind option_bind]; [|by eexists].
  pose proof (get_string_spec j (C "ta-cmd") Hv) as Hcmd.
  destruct (json_object_get j (C "ta-cmd") ≫= string_of) as [name|] eqn:Ename;
    cbn [mbind option_bind]; [|rewrite Hcmd; by eexists].
  destruct Hcmd as ([Hname _] & cmd_json & -> & Hcmd).
  destruct (get_msg_type_spec j Hv) as (mt & -> & Hmt). cbn [mbind outcome_bind].
  destruct (json_object_get j (C "msg-type") ≫= string_of) as [mts|] eqn:Emt;
    cbn [mbind option_bind].
  2:{ rewrite bool_decide_eq_true_2 by (intros ->; destruct Hmt as [Hmt _]; by specialize (Hmt eq_refl)).
      by eexists. }
  destruct (decide (mts = C "request")) as [->|Hne].
  2:{ rewrite bool_decide_eq_true_2; [by eexists|]. intros ->. apply Hne.
      destruct Hmt as [Hmt _]. by injection (Hmt eq_refl). }
  rewrite bool_decide_eq_false_2 by (intros Hmt'; by apply Hmt', Hmt).
  rewrite Hcmd. cbn [deref mbind outcome_bind ta_type ta_with_type].
  rewrite lookup_type_spec by done.
  destruct (type_named name) as [type|] eqn:Et; cbn [mbind option_bind]; [|by eexists].
  destruct (type_named_ok _ _ Et) as [Hok Hin].
  unfold ta_with_type, ta_with_id, proto_ta_create.
  cbn [ta_type ta_state ta_id req_field_values opt_req_field_values].
  assert (Hkeys : Forall (.∈ keys j) mandatory_names).
  { repeat constructor; apply get_is_Some; try done.
    - destruct (json_object_get j (C "ta-cmd")); [by eexists|done].
    - destruct (json_object_get j (C "ta-id")); [by eexists|done].
    - destruct (json_object_get j (C "msg-type")); [by eexists|done]. }
  rewrite req_fields_of_spec by done. fold (keys j).
  destruct (mapM (slot_of j false) _) as [req|]; cbn [mbind option_bind]; [|by eexists].
  destruct (mapM (slot_of j true) _) as [opt|]; cbn [mbind option_bind]; [|by eexists].
  case_decide; [done|by eexists].
Qed.

(** What stays of a transaction. *)
Definition ta_ident (ta : proto_ta) : option proto_ta_type * Z := (ta_type ta, ta_id ta).

(** A transaction with a type has one of the table, and an identifier that a
    message can carry. *)
Definition ta_sound (ta : proto_ta) : Prop := ∀ ty, ta_type ta = Some ty →
  ty ∈ proto_ta_types ∧ (0 ≤ ta_id ta ≤ int64_max)%Z.

Lemma ta_sound_ident ta ta' : ta_ident ta' = ta_ident ta → ta_sound ta → ta_sound ta'.
Proof. intros [= E1 E2] H ty. rewrite E1, E2. apply H. Qed.

Lemma req_fields_ident j type ta rc ta' : req_fields_of (json_t := json_t) j type ta = Ok (rc, ta') →
  ta_ident ta' = ta_ident ta.
Proof.
  intros ([[n|] req] & _ & E)%outcome_bind_Ok; [|by injection E as _ <-].
  apply outcome_bind_Ok in E as ([[n2|] opt] & _ & E).
  - cbv zeta in E. destruct (bool_decide (_ < _)); [|by injection E as _ <-].
    apply outcome_bind_Ok in E as (opt' & _ & E). apply outcome_bind_Ok in E as (req' & _ & E).
    by injection E as _ <-.
  - apply outcome_bind_Ok in E as (req' & _ & E). by injection E as _ <-.
Qed.

Lemma lookup_type_known name ty : lookup_type name = Some ty → ty ∈ proto_ta_types.
Proof.
  unfold lookup_type. generalize proto_ta_types as types. induction types as [|t types IH]; [done|].
  simpl. case_bool_decide; [intros [= ->]; left|]. intros Hl. right. by apply IH.
Qed.

Lemma proto_ta_req_sound m ta rc ta' : ta_sound ta →
  proto_ta_req (json_t := json_t) ta m = Ok (rc, ta') → ta_sound ta'.
Proof.
  intros Hs (_ & _ & E)%outcome_bind_Ok. destruct (json_loadb _) as [j|] eqn:Ej; [|by injection E as _ <-].
  pose proof (loadb_valid _ _ Ej) as Hv. rewrite get_uint63_spec in E.
  destruct (json_object_get j _ ≫= uint63_of) as [id|] eqn:Eid; [|by injection E as _ <-].
  assert (Hid : (0 ≤ id ≤ int64_max)%Z).
  { apply bind_Some in Eid as (v & Hg & Eid). unfold uint63_of in Eid.
    destruct (decide _) as [[Ht Hz]|]; [|done]. injection Eid as <-.
    pose proof (integer_range v (get_valid _ _ _ Hv Hg) Ht) as Hr. unfold is_int64 in Hr.
    apply andb_true_iff in Hr as [_ Hr%bool_decide_eq_true]. done. }
  assert (Hs' : ta_sound (ta_with_id id ta)) by (intros ty Hty; split; [by apply (Hs ty)|done]).
  destruct (get_json_string j _ false) as [cj|]; [|by injection E as _ <-].
  apply outcome_bind_Ok in E as (mt & _ & E). destruct (bool_decide (_ ≠ _)); [by injection E as _ <-|].
  apply outcome_bind_Ok in E as (name & _ & E). cbn [ta_type ta_with_type] in E.
  destruct (lookup_type name) as [ty|] eqn:El; [|by injection E as _ <-].
  apply req_fields_ident in E. eapply ta_sound_ident; [exact E|]. intros ty'. simpl.
  intros [= <-]. split; [by eapply lookup_type_known|done].
Qed.

(** C22: reading a request is total and decides exactly what a request is: a
    JSON object with a non-negative transaction identifier, a known command,
    the message type "request", the required fields of the command and
    possibly its optional ones with values of their types, and no other field.
    The transaction then holds these values; otherwise it holds none. *)
Theorem proto_ta_req_correct (m : msg) :
  match json_loadb (take (msg_len m) (msg_data m)) ≫= request_of (json_t := json_t) with
  | Some rq => proto_ta_req proto_ta_create m = Ok (0%Z, requested rq)
  | None => ∃ ta, proto_ta_req proto_ta_create m = Ok ((-1)%Z, ta) ∧ refused ta
  end.
Proof. apply proto_ta_req_spec. Qed.
End parse.

Lemma proto_ta_req_correct_witness :
  let m s := msg_create (Q s) (length (Q s)) in
  proto_ta_req (json_t := json) proto_ta_create
    (m "{'ta-cmd': 'subscribe', 'ta-id': 7, 'msg-type': 'request', 'subscription-id': 9}") =
  Ok (0%Z, Ta (Some subscribe_ta) proto_ta_state_requested 7
             (filled [Some (FUint63 9)]) (filled [None])) ∧
  ∃ ta, proto_ta_req (json_t := json) proto_ta_create
    (m "{'ta-cmd': 'ping', 'ta-id': 7, 'msg-type': 'request', 'x': 9}") = Ok ((-1)%Z, ta).
Proof.
  intros m. split.
  - pose proof (proto_ta_req_correct (json_t := json)
      (m "{'ta-cmd': 'subscribe', 'ta-id': 7, 'msg-type': 'request', 'subscription-id': 9}")) as H.
    vm_compute in H. vm_compute. exact H.
  - pose proof (proto_ta_req_correct (json_t := json)
      (m "{'ta-cmd': 'ping', 'ta-id': 7, 'msg-type': 'request', 'x': 9}")) as H.
    destruct H as (ta & H & _). by exists ta.
Defined.
