(* ===== verification/ProtoTaResp.v ===== *)
(** * Properties of responses

    Which sequences of responses a transaction allows, and that the message
    of a response carries the arguments it was given: reading it with the same
    table of fields gives them back. *)

From S2P Require Import Prelude CLib Pvalue Props Double Sub Json JsonTree ProtoTa ProtoTaSpec.

(** ** Properties as JSON *)

Section props.
Context {json_t : Type} `{!Jansson json_t, !JanssonLaws json_t}.
Implicit Types j o : json_t.

Definition pvalue_text (v : pvalue) : Prop :=
  match v with value_int64 z => is_int64 z = true | value_str s => text s end.

(** Strings and names that JSON can carry. *)
Definition props_text (p : props) : Prop := Forall (λ nv, text nv.1 ∧ pvalue_text nv.2) p.

Lemma props_text_ok p : props_text p → props_ok p.
Proof.
  intros H. eapply Forall_impl; [exact H|]. intros [n [z|s]]; simpl; unfold text; tauto.
Qed.

(** The object has an array with the values of each name. *)
Definition grouped o (p : props) : Prop :=
  json_valid o ∧ json_typeof o = JSON_OBJECT ∧
  ∀ k, match json_object_get o k with
       | None => values_of p k = []
       | Some a => json_typeof a = JSON_ARRAY ∧
                   mapM pvalue_of (json_array_items a) = Some (values_of p k)
       end.

Lemma values_of_snoc p n v k :
  values_of (p ++ [(n, v)]) k = values_of p k ++ (if decide (n = k) then [v] else []).
Proof.
  unfold values_of. rewrite filter_app, fmap_app, filter_cons, filter_nil. csimpl.
  by case_decide.
Qed.

(** One value as JSON. *)
Lemma json_of_pvalue v : pvalue_text v → ∃ j,
  (if pvalue_is_int64 v then z ← pvalue_int64 v; Ok (Some (json_integer z))
   else _ ← ut_assert (pvalue_is_str v); s ← pvalue_str v; Ok (json_string (Some s))) = Ok (Some j) ∧
  json_valid (json_t := json_t) j ∧ pvalue_of j = Some v.
Proof.
  destruct v as [z|s]; simpl; intros Hv.
  - destruct (integer_new z Hv) as (Hj & Ht & Hz). exists (json_integer z).
    split_and!; [done|done|]. unfold pvalue_of. by rewrite decide_True, Hz.
  - destruct (string_new s Hv) as (j & Hs & Hj & Ht & Hvs). exists j. rewrite Hs.
    split_and!; [done|done|]. unfold pvalue_of, string_of.
    rewrite decide_False by (rewrite Ht; done). by rewrite decide_True, Hvs.
Qed.

Lemma append_pvalue a xs v j : json_valid a → json_typeof a = JSON_ARRAY →
  mapM pvalue_of (json_array_items a) = Some xs → json_valid j → pvalue_of j = Some v →
  json_valid (json_array_append_new a (Some j)) ∧
  json_typeof (json_array_append_new a (Some j)) = JSON_ARRAY ∧
  mapM pvalue_of (json_array_items (json_array_append_new a (Some j))) = Some (xs ++ [v]).
Proof.
  intros Ha Ht Hxs Hj Hv. destruct (append_new_spec a j Ha Ht Hj) as (Ha' & Ht' & ->).
  split_and!; [done|done|]. apply mapM_Some. apply mapM_Some in Hxs.
  apply Forall2_app; [done|]. by repeat constructor.
Qed.

Lemma grouped_set o p n v a : grouped o p → text n → json_valid a →
  json_typeof a = JSON_ARRAY → mapM pvalue_of (json_array_items a) = Some (values_of p n ++ [v]) →
  grouped (json_object_set_new o n (Some a)) (p ++ [(n, v)]).
Proof.
  intros (Ho & Ht & Hg) Hn Ha Hta Hvs.
  destruct (set_new_spec o n a Ho Ht Hn Ha) as (Ho' & Ht' & _). split_and!; [done|done|].
  intros k. rewrite values_of_snoc. destruct (decide (n = k)) as [<-|Hne].
  - by rewrite get_set_eq.
  - rewrite get_set_ne by done. rewrite app_nil_r. apply Hg.
Qed.

Lemma prop_to_json_spec o p n v : grouped o p → text n → pvalue_text v →
  ∃ o', prop_to_json o n v = Ok o' ∧ grouped o' (p ++ [(n, v)]).
Proof.
  intros Hg Hn Hv. destruct (json_of_pvalue v Hv) as (j & Ej & Hj & Hjv).
  unfold prop_to_json. rewrite Ej. cbn [mbind outcome_bind]. eexists. split; [done|].
  pose proof Hg as (Ho & Ht & Hgk). specialize (Hgk n).
  destruct (json_object_get o n) as [a|] eqn:Ea.
  - destruct Hgk as [Hta Hvs].
    destruct (append_pvalue a _ v j (get_valid _ _ _ Ho Ea) Hta Hvs Hj Hjv) as (Ha' & Ht' & Hvs').
    by apply grouped_set.
  - destruct array_new as (Ha & Hta & Hia).
    destruct (append_pvalue json_array [] v j Ha Hta) as (Ha' & Ht' & Hvs'); [|done|done|].
    { by rewrite Hia. }
    apply grouped_set; [|done..|by rewrite Hgk].
    destruct (set_new_spec o n json_array Ho Ht Hn Ha) as (Ho' & Hto' & _).
    split_and!; [done|done|]. intros k. destruct (decide (n = k)) as [<-|Hne].
    + rewrite get_set_eq by done. by rewrite Hia, Hgk.
    + rewrite get_set_ne by done. apply Hg.
Qed.

Lemma props_to_json_loop_spec p : props_text p → ∀ o q, grouped o q →
  ∃ o', props_to_json_loop p o = Ok o' ∧ grouped o' (q ++ p).
Proof.
  induction 1 as [|[n v] p [Hn Hv] _ IH]; intros o q Hg; simpl.
  - exists o. by rewrite app_nil_r.
  - destruct (prop_to_json_spec o q n v Hg Hn Hv) as (o1 & -> & Hg1). simpl.
    destruct (IH o1 _ Hg1) as (o2 & E2 & Hg2). exists o2. by rewrite <-app_assoc in Hg2.
Qed.

Lemma values_of_app p q k : values_of (p ++ q) k = values_of p k ++ values_of q k.
Proof. unfold values_of. by rewrite filter_app, fmap_app. Qed.

Lemma values_of_pairs n vs k :
  values_of (pair n <$> vs) k = if decide (n = k) then vs else [].
Proof.
  unfold values_of. induction vs as [|v vs IH]; csimpl; [by case_decide|].
  rewrite filter_cons. csimpl. case_decide; csimpl; by rewrite IH.
Qed.

(** Distinct names with arrays make properties with these values. *)
Lemma pairs_values (items : list (cstr * json_t)) (vals : cstr → list pvalue) :
  NoDup items.*1 →
  Forall (λ kv, json_typeof kv.2 = JSON_ARRAY ∧
                mapM pvalue_of (json_array_items kv.2) = Some (vals kv.1)) items →
  ∃ ps, mapM pairs_of items = Some ps ∧
    ∀ k, values_of (concat ps) k = if decide (k ∈ items.*1) then vals k else [].
Proof.
  intros Hnd Hf. induction Hf as [|[n a] items [Ht Hvs] Hf IH]; [by exists []|].
  rewrite fmap_cons in Hnd. apply NoDup_cons in Hnd as [Hn Hnd].
  destruct (IH Hnd) as (ps & Hps & Hk). simpl in Ht, Hvs, Hn.
  exists ((pair n <$> vals n) :: ps). split.
  - rewrite mapM_cons_eq, Hps. unfold pairs_of. cbn [fst snd]. by rewrite decide_True, Hvs.
  - intros k. cbn [concat]. rewrite values_of_app, values_of_pairs, Hk. csimpl.
    destruct (decide (n = k)) as [<-|Hne].
    + rewrite decide_False by done. rewrite decide_True by (left; done). by rewrite app_nil_r.
    + simpl. destruct (decide (k ∈ items.*1)).
      * by rewrite decide_True by (by right).
      * rewrite decide_False; [done|]. by intros [->|?]%elem_of_cons.
Qed.

(** Properties survive being written as JSON and read back, up to the order of
    pairs with different names. *)
Lemma props_json_values p : props_text p → ∃ o, props_to_json p = Ok o ∧
  json_valid (json_t := json_t) o ∧ json_typeof o = JSON_OBJECT ∧
  ∃ p', props_of o = Some p' ∧ ∀ n, values_of p' n = values_of p n.
Proof.
  intros Hp. destruct object_new as (Ho & Ht & Hi).
  destruct (props_to_json_loop_spec p Hp json_object []) as (o & Eo & Hv & Hto & Hg).
  { split_and!; [done|done|]. intros k. by rewrite get_items, Hi. }
  exists o. split_and!; [done..|].
  destruct (pairs_values (json_object_items o) (values_of p)) as (ps & Hps & Hk).
  - by apply items_nodup.
  - apply Forall_forall. intros [k a] Hin. specialize (Hg k).
    rewrite get_items in Hg by done.
    rewrite (assoc_get_nodup _ _ _ (items_nodup o Hv) Hin) in Hg. exact Hg.
  - exists (concat ps). unfold props_of. rewrite Hps. split; [done|].
    intros n. rewrite Hk. case_decide as Hin; [done|]. specialize (Hg n).
    rewrite get_items in Hg by done. apply assoc_get_None in Hin. rewrite Hin in Hg. done.
Qed.
End props.

(** ** Fields of a response *)

(** The same value, but for the order of properties with different names. *)
Definition same_value (v w : field_value) : Prop :=
  match v, w with
  | FProps p, FProps q => ∀ n, values_of p n = values_of q n
  | _, _ => v = w
  end.

Lemma same_value_refl v : same_value v v.
Proof. by destruct v. Qed.

(** The properties of a list are [NoDup], and all its names plain ASCII. *)
Definition form_ok (fields opt_fields : list proto_field) : Prop :=
  NoDup (mandatory_names ++ (field_name <$> fields) ++ (field_name <$> opt_fields)) ∧
  Forall (λ f, nul_free (field_name f) ∧ ascii_only (field_name f) = true) (fields ++ opt_fields) ∧
  length fields ≤ MAX_FIELDS ∧ length opt_fields ≤ MAX_FIELDS.

Definition responses : list proto_msg_type :=
  [proto_msg_type_accept; proto_msg_type_notify; proto_msg_type_complete; proto_msg_type_fail].

Definition type_forms_ok (t : proto_ta_type) : Prop :=
  nul_free (cmd t) ∧ ascii_only (cmd t) = true ∧
  Forall (λ mt, match response_form t mt with
                | Ok (_, fs, ofs) => form_ok fs ofs | Fail _ => False end) responses.

#[export] Instance form_ok_dec fs ofs : Decision (form_ok fs ofs).
Proof. unfold form_ok. apply _. Defined.

#[export] Instance type_forms_ok_dec t : Decision (type_forms_ok t).
Proof.
  unfold type_forms_ok.
  assert (∀ mt, Decision (match response_form t mt with
    | Ok (_, fs, ofs) => form_ok fs ofs | Fail _ => False end)).
  { intros mt. destruct (response_form t mt) as [[[? ?] ?]|]; apply _. }
  apply _.
Defined.

Lemma types_forms_ok : Forall type_forms_ok proto_ta_types.
Proof. apply (bool_decide_eq_true_1 _). vm_compute. reflexivity. Qed.

Lemma response_form_ok t mt s fs ofs : t ∈ proto_ta_types →
  response_form t mt = Ok (s, fs, ofs) → form_ok fs ofs ∧ nul_free s ∧ ascii_only s = true.
Proof.
  intros Ht Hf. pose proof types_forms_ok as H. rewrite Forall_forall in H.
  destruct (H _ Ht) as (_ & _ & Hr). rewrite Forall_forall in Hr.
  assert (Hmt : mt ∈ responses).
  { unfold responses. destruct mt; simpl in Hf; try done; set_solver. }
  specialize (Hr _ Hmt). rewrite Hf in Hr. split; [done|].
  destruct mt; simpl in Hf; try done; injection Hf as <- <- <-;
    by (split; [apply (bool_decide_eq_true_1 _)|]; reflexivity).
Qed.

Section fields.
Context {json_t : Type} `{!Jansson json_t, !JanssonLaws json_t}.
Implicit Types j o : json_t.

(** What JSON can carry. *)
Definition carried (v : field_value) : Prop :=
  match v with
  | FStr s => text s
  | FUint63 z => (0 ≤ z ≤ int64_max)%Z
  | FNumber d => finite d = true
  | FProps p => props_text p
  | FMatchType _ => True
  end.

(** An argument that fits a field: a required one may be a null pointer only
    when it is a string (the field is then left out). *)
Definition arg_ok (opt : bool) (f : proto_field) (v : option field_value) : Prop :=
  match v with
  | Some v => has_type (field_type f) v = true ∧ carried v
  | None => opt = true ∨ field_type f = proto_field_type_str
  end.

Definition object o : Prop := json_valid o ∧ json_typeof o = JSON_OBJECT.

Lemma literal_text s : nul_free s → ascii_only s = true → text (json_t := json_t) s.
Proof. intros Hn Ha. split; [done|by apply utf8_ascii]. Qed.

Lemma match_type_text m : text (json_t := json_t) (enum_to_proto_match_type m).
Proof. destruct m; apply literal_text; (reflexivity || (apply (bool_decide_eq_true_1 _); reflexivity)). Qed.

(** The JSON value of a field value. *)
Lemma value_as_json v type : has_type type v = true → carried v → ∃ jv,
  (∀ o name, set_field o (Field name type) (Some v) = Ok (json_object_set_new o name (Some jv))) ∧
  json_valid jv ∧ ∃ w, value_of type jv = Some w ∧ same_value w v.
Proof.
  destruct v as [s|z|d|p|m], type; try done; intros _ Hv; simpl in Hv; cbn [value_of set_field field_type field_name].
  - destruct (string_new s Hv) as (jv & Es & Hj & Ht & Hs). exists jv. rewrite Es.
    split_and!; [done|done|]. exists (FStr s). unfold string_of. by rewrite decide_True, Hs.
  - assert (Hz : is_int64 z = true).
    { unfold is_int64, int64_min. unfold int64_max in *. by rewrite !bool_decide_eq_true_2 by lia. }
    destruct (integer_new z Hz) as (Hj & Ht & Ez). exists (json_integer z).
    rewrite bool_decide_eq_true_2 by lia. split_and!; [done|done|]. exists (FUint63 z).
    unfold uint63_of. rewrite decide_True by (rewrite Ez; split; [done|lia]). by rewrite Ez.
  - destruct (real_new d Hv) as (jv & Es & Hj & Ht & Hs). exists jv. rewrite Es.
    split_and!; [done|done|]. exists (FNumber d). rewrite decide_True by auto. by rewrite Hs.
  - destruct (props_json_values p Hv) as (jv & Ep & Hj & Ht & p' & Hp' & Hs). exists jv.
    rewrite Ep. split_and!; [done|done|]. exists (FProps p'). by rewrite decide_True, Hp'.
  - destruct (string_new _ (match_type_text m)) as (jv & Es & Hj & Ht & Hs). exists jv. rewrite Es.
    split_and!; [done|done|]. exists (FMatchType m). unfold string_of.
    rewrite decide_True, Hs by done. by destruct m.
Qed.

(** A field has been set, or left out. *)
Definition field_set o (f : proto_field) (v : option field_value) : Prop :=
  match v with
  | Some v => ∃ jv w, json_object_get o (field_name f) = Some jv ∧
                      value_of (field_type f) jv = Some w ∧ same_value w v
  | None => json_object_get o (field_name f) = None
  end.

Definition extends o o' (names : list cstr) : Prop :=
  object o' ∧ (∀ k, k ∉ names → json_object_get o' k = json_object_get o k).

Lemma extends_trans o1 o2 o3 n1 n2 :
  extends o1 o2 n1 → extends o2 o3 n2 → extends o1 o3 (n1 ++ n2).
Proof.
  intros [_ H1] [Ho H2]. split; [done|]. intros k Hk. rewrite H2, H1; [done|set_solver..].
Qed.

(** Setting a field, as both loops do. *)
Definition set_or_skip (opt : bool) o f v : outcome json_t :=
  if opt then match v with Some _ => set_field o f v | None => Ok o end else set_field o f v.

Lemma set_field_spec opt o f v : object o → nul_free (field_name f) →
  ascii_only (field_name f) = true → arg_ok opt f v → json_object_get o (field_name f) = None →
  ∃ o', set_or_skip opt o f v = Ok o' ∧ extends o o' [field_name f] ∧ field_set o' f v.
Proof.
  intros [Ho Ht] Hn Ha Harg Hg. pose proof (literal_text _ Hn Ha) as Hk.
  destruct f as [name type]. cbn [field_name field_type] in *.
  destruct v as [v|]; cbn [arg_ok field_type] in Harg.
  - destruct Harg as [Hty Hc]. destruct (value_as_json v type Hty Hc) as (jv & Es & Hj & w & Hw & Hsame).
    destruct (set_new_spec o name jv Ho Ht Hk Hj) as (Ho' & Ht' & _).
    exists (json_object_set_new o name (Some jv)). split; [|split].
    + unfold set_or_skip. destruct opt; apply Es.
    + split; [done|]. intros k Hne. apply get_set_ne; try done. set_solver.
    + exists jv, w. split; [by apply get_set_eq|done].
  - exists o. split; [|by split].
    unfold set_or_skip. destruct opt; [done|]. destruct Harg as [?| ->]; [done|]. cbn [set_field field_type field_name].
    by rewrite string_null, set_new_null.
Qed.
End fields.

(** ** Messages *)

Section messages.
Context {json_t : Type} `{!Jansson json_t, !JanssonLaws json_t}.
Implicit Types j o : json_t.

(** Both loops of [produce_response]. *)
Fixpoint set_loop (opt : bool) o (fields : list proto_field) (ap : list (option field_value))
    : outcome (json_t * list (option field_value)) :=
  match fields with
  | [] => Ok (o, ap)
  | f :: fields' =>
      '(v, ap) ← va_arg ap;
      o ← set_or_skip opt o f v;
      set_loop opt o fields' ap
  end.

Lemma set_fields_loop_eq fields o ap : set_fields_loop o fields ap = set_loop false o fields ap.
Proof.
  revert o ap. induction fields as [|f fields IH]; intros o ap; [done|]. simpl.
  destruct ap as [|v ap]; [done|]. simpl. unfold set_or_skip.
  destruct (set_field o f v); [apply IH|done].
Qed.

Lemma set_opt_fields_loop_eq fields o ap :
  set_opt_fields_loop o fields ap = set_loop true o fields ap.
Proof.
  revert o ap. induction fields as [|f fields IH]; intros o ap; [done|]. simpl.
  destruct ap as [|v ap]; [done|]. simpl. unfold set_or_skip.
  destruct v as [v|]; [|apply IH]. destruct (set_field o f (Some v)); [apply IH|done].
Qed.

Definition ascii_name (f : proto_field) : Prop :=
  nul_free (field_name f) ∧ ascii_only (field_name f) = true.

Lemma set_loop_spec opt fields args rest : Forall2 (arg_ok (json_t := json_t) opt) fields args →
  NoDup (field_name <$> fields) → Forall ascii_name fields → ∀ o, object o →
  (∀ k, k ∈ field_name <$> fields → json_object_get o k = None) →
  ∃ o', set_loop opt o fields (args ++ rest) = Ok (o', rest) ∧
        extends o o' (field_name <$> fields) ∧ Forall2 (field_set o') fields args.
Proof.
  induction 1 as [|f v fields args Hv _ IH]; intros Hnd Hf o Ho Hget.
  - exists o. split; [done|]. split; [by split|constructor].
  - rewrite fmap_cons in Hnd. apply NoDup_cons in Hnd as [Hfn Hnd].
    apply Forall_cons in Hf as [[Hn Ha] Hf].
    destruct (set_field_spec opt o f v Ho Hn Ha Hv) as (o1 & E1 & [Ho1 Hext1] & Hset1).
    { apply Hget. rewrite fmap_cons. left. }
    destruct (IH Hnd Hf o1 Ho1) as (o2 & E2 & [Ho2 Hext2] & Hset2).
    { intros k Hk. rewrite Hext1; [|set_solver]. apply Hget. rewrite fmap_cons. by right. }
    exists o2. split; [|split].
    + simpl. by rewrite E1.
    + apply (extends_trans o o1 o2 [field_name f]); by split.
    + constructor; [|done]. unfold field_set in *. by rewrite Hext2.
Qed.

(** The beginning of a response. *)
Lemma create_response_spec cmd_name id mts : text (json_t := json_t) cmd_name →
  text (json_t := json_t) mts → is_int64 id = true →
  let o := create_response cmd_name id mts in
  object o ∧ (∀ k, k ∉ mandatory_names → json_object_get o k = None) ∧
  json_object_get o (C "ta-cmd") ≫= string_of = Some cmd_name ∧
  json_object_get o (C "ta-id") = Some (json_integer id) ∧
  json_object_get o (C "msg-type") ≫= string_of = Some mts.
Proof.
  intros Hc Hm Hid. unfold create_response.
  destruct object_new as (Ho & Ht & Hi).
  destruct (string_new _ Hc) as (jc & Ec & Hjc & Htc & Hsc).
  destruct (string_new _ Hm) as (jm & Em & Hjm & Htm & Hsm).
  destruct (integer_new _ Hid) as (Hji & _ & _).
  unfold PROTO_FIELD_TA_CMD, PROTO_FIELD_TA_ID, PROTO_FIELD_MSG_TYPE.
  rewrite Ec, Em. cbn zeta.
  set (k1 := C "ta-cmd"). set (k2 := C "ta-id"). set (k3 := C "msg-type").
  assert (K : ∀ k, k ∈ mandatory_names → text (json_t := json_t) k).
  { intros k Hk. apply literal_text; revert k Hk; apply Forall_forall;
      apply (bool_decide_eq_true_1 _); reflexivity. }
  assert (N : k1 ≠ k2 ∧ k1 ≠ k3 ∧ k2 ≠ k3) by done. destruct N as (N12 & N13 & N23).
  assert (K1 : k1 ∈ mandatory_names) by left.
  assert (K2 : k2 ∈ mandatory_names) by (right; left).
  assert (K3 : k3 ∈ mandatory_names) by (right; right; left).
  destruct (set_new_spec _ k1 jc Ho Ht (K _ K1) Hjc) as (Ho1 & Ht1 & _).
  destruct (set_new_spec _ k2 _ Ho1 Ht1 (K _ K2) Hji) as (Ho2 & Ht2 & _).
  destruct (set_new_spec _ k3 jm Ho2 Ht2 (K _ K3) Hjm) as (Ho3 & Ht3 & _).
  split; [by split|]. split; [|split; [|split]].
  - intros k Hk.
    rewrite !get_set_ne by (done || by apply K || by (intros <-; apply Hk)).
    by rewrite get_items, Hi.
  - rewrite !get_set_ne by (done || by apply K). rewrite get_set_eq by (done || by apply K).
    simpl. unfold string_of. by rewrite decide_True.
  - rewrite get_set_ne by (done || by apply K). by rewrite get_set_eq by (done || by apply K).
  - rewrite get_set_eq by (done || by apply K). simpl. unfold string_of. by rewrite decide_True.
Qed.
End messages.

(** ** Responses *)

Inductive response := Response (mt : proto_msg_type) (ap : list (option field_value)).

Definition kind (r : response) : proto_msg_type := let 'Response mt _ := r in mt.

Section responses.
Context {json_t : Type} `{!Jansson json_t, !JanssonLaws json_t}.
Implicit Types j o : json_t.

(** The arguments fit the fields; further ones are not looked at. *)
Definition args_ok (t : proto_ta_type) (mt : proto_msg_type) (ap : list (option field_value))
    : Prop :=
  match response_form t mt with
  | Ok (_, fs, ofs) => ∃ a b c, ap = a ++ b ++ c ∧
      Forall2 (arg_ok (json_t := json_t) false) fs a ∧
      Forall2 (arg_ok (json_t := json_t) true) ofs b
  | Fail _ => False
  end.

Definition header j (t : proto_ta_type) (id : Z) (mts : cstr) : Prop :=
  json_object_get j (C "ta-cmd") ≫= string_of = Some (cmd t) ∧
  json_object_get j (C "ta-id") ≫= uint63_of = Some id ∧
  json_object_get j (C "msg-type") ≫= string_of = Some mts.

(** Fields that are set later leave the header of a response. *)
Lemma header_kept o t id mts : t ∈ proto_ta_types → (0 ≤ id ≤ int64_max)%Z →
  nul_free mts → ascii_only mts = true →
  (∀ k, k ∈ mandatory_names →
     json_object_get o k = json_object_get (create_response (cmd t) id mts) k) →
  header o t id mts.
Proof.
  intros Ht Hid Hn Has He. pose proof types_forms_ok as Hts. rewrite Forall_forall in Hts.
  destruct (Hts _ Ht) as (Hcn & Hca & _).
  assert (Hid' : is_int64 id = true).
  { unfold is_int64, int64_min. unfold int64_max in *. by rewrite !bool_decide_eq_true_2 by lia. }
  destruct (create_response_spec (cmd t) id mts (literal_text _ Hcn Hca)
    (literal_text _ Hn Has) Hid') as (_ & _ & H1 & H2 & H3).
  unfold header. rewrite !He by (unfold mandatory_names; set_solver).
  split_and!; [done| |done]. rewrite H2. simpl.
  destruct (integer_new _ Hid') as (_ & Ht' & Hz). unfold uint63_of.
  by rewrite decide_True, Hz by (rewrite Hz; split; [done|lia]).
Qed.

Lemma response_json_spec ta t mt mts fs ofs a b c :
  ta_type ta = Some t → t ∈ proto_ta_types → (0 ≤ ta_id ta ≤ int64_max)%Z →
  response_form t mt = Ok (mts, fs, ofs) →
  Forall2 (arg_ok (json_t := json_t) false) fs a → Forall2 (arg_ok (json_t := json_t) true) ofs b →
  ∃ j, response_json ta mt (a ++ b ++ c) = Ok j ∧ object j ∧ header j t (ta_id ta) mts ∧
    Forall2 (field_set j) fs a ∧ Forall2 (field_set j) ofs b ∧
    ∀ k, k ∉ mandatory_names ++ (field_name <$> fs) ++ (field_name <$> ofs) →
      json_object_get j k = None.
Proof.
  intros Ety Ht Hid Ef Ha Hb. unfold response_json. rewrite Ety. cbn [deref mbind outcome_bind].
  destruct (response_form_ok _ _ _ _ _ Ht Ef) as ((Hnd & Hascii & _) & Hn & Has).
  rewrite Ef. cbn [mbind outcome_bind].
  pose proof types_forms_ok as Hts. rewrite Forall_forall in Hts.
  destruct (Hts _ Ht) as (Hcn & Hca & _).
  assert (Hid' : is_int64 (ta_id ta) = true).
  { unfold is_int64, int64_min. unfold int64_max in *. by rewrite !bool_decide_eq_true_2 by lia. }
  destruct (create_response_spec (cmd t) (ta_id ta) mts (literal_text _ Hcn Hca)
    (literal_text _ Hn Has) Hid') as (Ho & Hnone & _).
  apply Forall_app in Hascii as [Hfa Hoa].
  apply NoDup_app in Hnd as (_ & Hm & (Hnf & Hfo & Hno)%NoDup_app).
  rewrite set_fields_loop_eq.
  destruct (set_loop_spec false fs a (b ++ c) Ha Hnf Hfa _ Ho) as (o1 & -> & [Ho1 He1] & Hs1).
  { intros k Hk. apply Hnone. intros Hk'. apply (Hm _ Hk'). set_solver. }
  cbn [mbind outcome_bind]. rewrite set_opt_fields_loop_eq.
  destruct (set_loop_spec true ofs b c Hb Hno Hoa _ Ho1) as (o2 & -> & [Ho2 He2] & Hs2).
  { intros k Hk. rewrite He1; [|by intros Hk'; apply (Hfo k)].
    apply Hnone. intros Hk'. apply (Hm _ Hk'). set_solver. }
  exists o2. split; [done|]. split; [done|].
  assert (He : ∀ k, k ∉ (field_name <$> fs) ++ (field_name <$> ofs) →
    json_object_get o2 k = json_object_get (create_response (cmd t) (ta_id ta) mts) k).
  { intros k Hk. rewrite He2, He1; [done|set_solver..]. }
  split; [|split; [|split]].
  - apply header_kept; [done..|]. intros k Hk. apply He. by apply Hm.
  - clear -Hs1 He2 Hfo. assert (Hf : Forall (λ f, field_name f ∉ field_name <$> ofs) fs).
    { apply Forall_forall. intros f Hf. apply Hfo. by apply list_elem_of_fmap_2. }
    induction Hs1 as [|f v fs a Hfv _ IH]; [constructor|].
    apply Forall_cons in Hf as [Hf1 Hf]. constructor.
    + unfold field_set in *. by rewrite He2.
    + apply IH; [|done]. intros x Hx. apply Hfo. rewrite fmap_cons. by right.
  - done.
  - intros k Hk. rewrite He by set_solver. apply Hnone. set_solver.
Qed.

Lemma produce_response_ok ta t mt ap : ta_type ta = Some t → t ∈ proto_ta_types →
  (0 ≤ ta_id ta ≤ int64_max)%Z → args_ok t mt ap →
  ∃ m, produce_response (json_t := json_t) ta mt ap = Ok m.
Proof.
  intros Ety Ht Hid. unfold args_ok.
  destruct (response_form t mt) as [[[mts fs] ofs]|] eqn:Ef; [|done].
  intros (a & b & c & -> & Ha & Hb).
  destruct (response_json_spec ta t mt mts fs ofs a b c Ety Ht Hid Ef Ha Hb)
    as (j & Ej & [Hj Hto] & _).
  unfold produce_response. rewrite Ej. simpl. destruct (dumps_object j Hj Hto) as [s ->].
  by eexists.
Qed.

Lemma slots_back opt j fs a : Forall2 (field_set j) fs a → (opt = false → Forall is_Some a) →
  ∃ ws, mapM (slot_of j opt) fs = Some ws ∧ Forall2 (option_Forall2 same_value) ws a.
Proof.
  induction 1 as [|f v fs a Hfv _ IH]; intros Hs.
  - exists []. split; [done|constructor].
  - destruct IH as (ws & Hws & Hsame).
    { intros E. specialize (Hs E). by apply Forall_cons in Hs as [_ Hs]. }
    rewrite mapM_cons_eq, Hws. unfold field_set in Hfv. unfold slot_of.
    destruct v as [v|].
    + destruct Hfv as (jv & w & -> & Hw & Hvw). exists (Some w :: ws). rewrite Hw.
      split; [done|]. by repeat constructor.
    + rewrite Hfv. destruct opt.
      * exists (None :: ws). split; [done|]. by repeat constructor.
      * specialize (Hs eq_refl). apply Forall_cons in Hs as [[] _]. done.
Qed.

(** C24: what a response carries: the command, the transaction identifier and
    the message type, and fields that the reader of requests, given the table
    of this kind of response, turns back into the arguments the response was
    made of (properties up to the order of pairs with different names). *)
Theorem response_roundtrip ta t mt mts fs ofs a b c :
  ta_type ta = Some t → t ∈ proto_ta_types → (0 ≤ ta_id ta ≤ int64_max)%Z →
  response_form t mt = Ok (mts, fs, ofs) →
  Forall2 (arg_ok (json_t := json_t) false) fs a → Forall is_Some a →
  Forall2 (arg_ok (json_t := json_t) true) ofs b →
  ∃ j ws os, response_json ta mt (a ++ b ++ c) = Ok j ∧ header j t (ta_id ta) mts ∧
    get_fields j fs false no_values = Ok (Some (present ws), filled ws) ∧
    get_fields j ofs true no_values = Ok (Some (present os), filled os) ∧
    Forall2 (option_Forall2 same_value) ws a ∧ Forall2 (option_Forall2 same_value) os b.
Proof.
  intros Ety Ht Hid Ef Ha Hsome Hb.
  destruct (response_json_spec ta t mt mts fs ofs a b c Ety Ht Hid Ef Ha Hb)
    as (j & Ej & [Hj _] & Hh & Hs1 & Hs2 & _).
  destruct (response_form_ok _ _ _ _ _ Ht Ef) as ((_ & _ & Hl1 & Hl2) & _).
  destruct (slots_back false _ _ _ Hs1 ltac:(done)) as (ws & Hws & Hsame1).
  destruct (slots_back true _ _ _ Hs2 ltac:(done)) as (os & Hos & Hsame2).
  exists j, ws, os. split_and!; [done|apply Hh..| | |done|done].
  - by rewrite get_fields_spec, Hws.
  - by rewrite get_fields_spec, Hos.
Qed.
End responses.

Lemma response_roundtrip_witness :
  let ta := Ta (Some services_ta) proto_ta_state_accepted 5 no_values no_values in
  let p := [(C "b", value_int64 1); (C "a", value_str (C "x")); (C "b", value_int64 2)] in
  ∃ j ws os,
    response_json (json_t := json) ta proto_msg_type_notify
      ([Some (FUint63 1); Some (FUint63 2); Some (FProps p); Some (FUint63 3); Some (FUint63 4)] ++
       [None] ++ []) = Ok j ∧
    header j services_ta 5 (C "notify") ∧
    get_fields j (notify_fields services_ta) false no_values = Ok (Some (present ws), filled ws) ∧
    get_fields j (opt_notify_fields services_ta) true no_values = Ok (Some (present os), filled os).
Proof.
  intros ta p.
  destruct (response_roundtrip (json_t := json) ta services_ta proto_msg_type_notify
    PROTO_MSG_TYPE_NOTIFY (notify_fields services_ta) (opt_notify_fields services_ta)
    [Some (FUint63 1); Some (FUint63 2); Some (FProps p); Some (FUint63 3); Some (FUint63 4)]
    [None] []) as (j & ws & os & H1 & H2 & H3 & H4 & _).
  - reflexivity.
  - do 6 right. left.
  - unfold int64_max. simpl. lia.
  - reflexivity.
  - repeat constructor; simpl; try (unfold int64_max; lia);
      (apply (bool_decide_eq_true_1 _); reflexivity).
  - repeat constructor; by eexists.
  - repeat constructor.
  - exists j, ws, os. exact (conj H1 (conj H2 (conj H3 H4))).
Defined.

(** ** The order of responses *)

Section order.
Context {json_t : Type} `{!Jansson json_t, !JanssonLaws json_t}.

Definition respond (ta : proto_ta) (r : response) : outcome (msg * proto_ta) :=
  let 'Response mt ap := r in
  match mt with
  | proto_msg_type_accept => proto_ta_accept (json_t := json_t) ta ap
  | proto_msg_type_notify => proto_ta_notify (json_t := json_t) ta ap
  | proto_msg_type_complete => proto_ta_complete (json_t := json_t) ta ap
  | proto_msg_type_fail => proto_ta_fail (json_t := json_t) ta ap
  | _ => Fail AssertFailed
  end.

Fixpoint respond_all (ta : proto_ta) (rs : list response) : outcome (list msg * proto_ta) :=
  match rs with
  | [] => Ok ([], ta)
  | r :: rs' =>
      '(m, ta) ← respond ta r;
      '(ms, ta) ← respond_all ta rs';
      Ok (m :: ms, ta)
  end.

(** What the protocol allows: one response; or an acceptance, notifications,
    and an end. *)
Definition ends : list (list proto_msg_type) :=
  [[]; [proto_msg_type_complete]; [proto_msg_type_fail]].

Definition legal (ia : proto_ia_type) (ks : list proto_msg_type) : Prop :=
  match ia with
  | proto_ia_type_single_response => ks ∈ ends
  | proto_ia_type_multi_response =>
      ks = [] ∨ ks = [proto_msg_type_fail] ∨
      ∃ n e, e ∈ ends ∧
        ks = proto_msg_type_accept :: replicate n proto_msg_type_notify ++ e
  end.

Definition at_end (ks : list proto_msg_type) : Prop :=
  last ks = Some proto_msg_type_complete ∨ last ks = Some proto_msg_type_fail.

(** A transaction of this type in this state. *)
Definition ta_at (ta : proto_ta) (t : proto_ta_type) (s : proto_ta_state) : Prop :=
  ta_type ta = Some t ∧ ta_state ta = s ∧ t ∈ proto_ta_types ∧ (0 ≤ ta_id ta ≤ int64_max)%Z.

(** The state behind a response; [None] when it is not allowed. *)
Definition next_state (ia : proto_ia_type) (s : proto_ta_state) (k : proto_msg_type)
    : option proto_ta_state :=
  match ia, s, k with
  | proto_ia_type_multi_response, proto_ta_state_requested, proto_msg_type_accept =>
      Some proto_ta_state_accepted
  | proto_ia_type_multi_response, proto_ta_state_accepted, proto_msg_type_notify =>
      Some proto_ta_state_accepted
  | proto_ia_type_multi_response, proto_ta_state_accepted, proto_msg_type_complete
  | proto_ia_type_single_response, proto_ta_state_requested, proto_msg_type_complete =>
      Some proto_ta_state_completed
  | _, (proto_ta_state_completed | proto_ta_state_failed), _ => None
  | _, _, proto_msg_type_fail => Some proto_ta_state_failed
  | _, _, _ => None
  end.

(** The next state decides, as long as the message can be made. *)
Lemma respond_step ta t s k ap : ta_at ta t s →
  (∃ m, produce_response (json_t := json_t) ta k ap = Ok m) →
  match next_state (ia_type t) s k with
  | Some s' => ∃ m, respond ta (Response k ap) = Ok (m, ta_with_state s' ta) ∧
      produce_response (json_t := json_t) ta k ap = Ok m
  | None => respond ta (Response k ap) = Fail AssertFailed
  end.
Proof.
  intros (Ety & Es & Ht & Hid) [m Hm].
  assert (Hself : ta = ta_with_state (ta_state ta) ta) by (by destruct ta).
  unfold respond, proto_ta_accept, proto_ta_notify, proto_ta_complete, proto_ta_fail,
    proto_ta_has_term.
  destruct k; rewrite ?Ety, ?Es; cbn [deref mbind outcome_bind];
    destruct (ia_type t), s; cbn; rewrite ?Hm; cbn; try done; exists m; try done.
  by rewrite Es in Hself; rewrite <-Hself.
Qed.

Lemma respond_spec ta t s k ap : ta_at ta t s → args_ok (json_t := json_t) t k ap →
  match next_state (ia_type t) s k with
  | Some s' => ∃ m ta', respond ta (Response k ap) = Ok (m, ta') ∧ ta_at ta' t s' ∧
      ta' = ta_with_state s' ta
  | None => respond ta (Response k ap) = Fail AssertFailed
  end.
Proof.
  intros Hta Ha. pose proof Hta as (Ety & _ & Ht & Hid).
  pose proof (respond_step ta t s k ap Hta (produce_response_ok _ _ _ _ Ety Ht Hid Ha)) as H.
  destruct (next_state _ _ _) as [s'|]; [|done]. destruct H as (m & E & _).
  exists m, (ta_with_state s' ta). split; [done|]. by split.
Qed.

Fixpoint run (ia : proto_ia_type) (s : proto_ta_state) (ks : list proto_msg_type)
    : option proto_ta_state :=
  match ks with
  | [] => Some s
  | k :: ks' => s' ← next_state ia s k; run ia s' ks'
  end.

Lemma respond_all_spec t rs : Forall (λ r, let 'Response k ap := r in
    args_ok (json_t := json_t) t k ap) rs → ∀ ta s, ta_at ta t s →
  match run (ia_type t) s (kind <$> rs) with
  | Some s' => ∃ ms ta', respond_all ta rs = Ok (ms, ta') ∧ length ms = length rs ∧ ta_at ta' t s'
  | None => respond_all ta rs = Fail AssertFailed
  end.
Proof.
  induction 1 as [|[k ap] rs Hk _ IH]; intros ta s Hta; [by exists [], ta|].
  cbn [fmap list_fmap kind run]. pose proof (respond_spec ta t s k ap Hta Hk) as Hr.
  cbn [respond_all]. destruct (next_state (ia_type t) s k) as [s1|]; cbn [mbind option_bind].
  - destruct Hr as (m & ta1 & -> & Hta1 & _). cbn [mbind outcome_bind].
    specialize (IH ta1 s1 Hta1). change (list_fmap _ _ kind rs) with (kind <$> rs).
    destruct (run _ _ _) as [s2|].
    + destruct IH as (ms & ta2 & -> & Hlen & Hta2). exists (m :: ms), ta2. simpl. auto.
    + by rewrite IH.
  - by rewrite Hr.
Qed.

Definition final (s : proto_ta_state) : Prop :=
  s = proto_ta_state_completed ∨ s = proto_ta_state_failed.

Lemma run_final ia s ks s' : final s → run ia s ks = Some s' ↔ ks = [] ∧ s' = s.
Proof.
  intros Hs. destruct ks as [|k ks]; simpl; [naive_solver|].
  split; [|naive_solver]. destruct Hs as [-> | ->], ia; simpl; done.
Qed.

Lemma run_accepted ks s' : run proto_ia_type_multi_response proto_ta_state_accepted ks = Some s' →
  ∃ n e, e ∈ ends ∧ ks = replicate n proto_msg_type_notify ++ e ∧ (final s' ↔ e ≠ []).
Proof.
  assert (He : [] ∈ ends ∧ [proto_msg_type_complete] ∈ ends ∧ [proto_msg_type_fail] ∈ ends).
  { unfold ends. set_solver. }
  destruct He as (E1 & E2 & E3). revert s'. induction ks as [|k ks IH]; intros s'.
  - intros [= <-]. exists 0, []. split_and!; [done|done|]. split; [by intros []|done].
  - cbn [run]. destruct k; cbn [next_state mbind option_bind]; try done.
    + intros (n & e & He & -> & Hf)%IH. exists (S n), e. by split_and!.
    + intros [-> ->]%run_final; [|by left]. exists 0, [proto_msg_type_complete].
      split_and!; [done|done|]. split; [done|]. by left.
    + intros [-> ->]%run_final; [|by right]. exists 0, [proto_msg_type_fail].
      split_and!; [done|done|]. split; [done|]. by right.
Qed.

Lemma run_notifications n e : e ∈ ends →
  is_Some (run proto_ia_type_multi_response proto_ta_state_accepted
             (replicate n proto_msg_type_notify ++ e)).
Proof.
  intros He. induction n as [|n IH]; [|done]. unfold ends in He. simpl.
  repeat (apply elem_of_cons in He as [->|He]; [by eexists|]). by apply elem_of_nil in He.
Qed.

Lemma run_legal ia ks : is_Some (run ia proto_ta_state_requested ks) ↔ legal ia ks.
Proof.
  destruct ia; unfold legal; split.
  - unfold ends. destruct ks as [|k ks]; [set_solver|]. cbn [run]. intros [s Hs].
    destruct k; cbn [next_state mbind option_bind] in Hs; try done;
      (apply run_final in Hs as [-> _]; [|by (left + right)]); set_solver.
  - intros He. unfold ends in He.
    repeat (apply elem_of_cons in He as [->|He]; [by eexists|]). by apply elem_of_nil in He.
  - destruct ks as [|k ks]; [by left|]. cbn [run]. intros [s Hs]. right.
    destruct k; cbn [next_state mbind option_bind] in Hs; try done.
    + right. apply run_accepted in Hs as (n & e & He & -> & _). by exists n, e.
    + apply run_final in Hs as [-> _]; [by left|by right].
  - intros [->|[->|(n & e & He & ->)]]; [by eexists..|]. by apply run_notifications.
Qed.

Lemma last_ends n e : e ∈ ends →
  at_end (replicate n proto_msg_type_notify ++ e) ↔ e ≠ [].
Proof.
  intros He. unfold ends in He. unfold at_end.
  repeat (apply elem_of_cons in He as [->|He]; [rewrite ?last_snoc; try naive_solver|]).
  - rewrite app_nil_r. destruct n as [|n]; [naive_solver|].
    replace (S n) with (n + 1) by lia. rewrite replicate_add. cbn [replicate]. rewrite last_snoc. naive_solver.
  - by apply elem_of_nil in He.
Qed.

Lemma run_at_end ia ks s : run ia proto_ta_state_requested ks = Some s → final s ↔ at_end ks.
Proof.
  unfold at_end. destruct ks as [|k ks]; [intros [= <-]; unfold final; naive_solver|].
  cbn [run]. intros Hs.
  destruct ia, k; cbn [next_state mbind option_bind] in Hs; try done;
    try (apply run_final in Hs as [-> ->]; [|by (left + right)]; unfold final; naive_solver).
  apply run_accepted in Hs as (n & e & He & -> & ->). rewrite <-(last_ends n e He).
  unfold at_end. destruct (replicate n _ ++ e) eqn:E; [naive_solver|done].
Qed.

Lemma has_term_final ta t s : ta_at ta t s → proto_ta_has_term ta = true ↔ final s.
Proof.
  intros (_ & <- & _). unfold proto_ta_has_term, final.
  rewrite orb_true_iff, !bool_decide_eq_true. tauto.
Qed.

(** C23: the responses to a request come in the order of the protocol: one of
    completion and failure for a single-response command, and for the others an
    acceptance, notifications and an end, or a failure; in this order every
    response succeeds, and the transaction has terminated exactly when the last
    one ends it.  Any other order fails an assertion. *)
Theorem responses_in_order ta t rs : ta_at ta t proto_ta_state_requested →
  Forall (λ r, let 'Response k ap := r in args_ok (json_t := json_t) t k ap) rs →
  (legal (ia_type t) (kind <$> rs) →
   ∃ ms ta', respond_all ta rs = Ok (ms, ta') ∧ length ms = length rs ∧
     (proto_ta_has_term ta' = true ↔ at_end (kind <$> rs))) ∧
  (¬ legal (ia_type t) (kind <$> rs) → respond_all ta rs = Fail AssertFailed).
Proof.
  intros Hta Hrs. pose proof (respond_all_spec t rs Hrs ta _ Hta) as H.
  rewrite <-run_legal. destruct (run _ _ _) as [s|] eqn:E; split; intros Hl.
  - destruct H as (ms & ta' & Hr & Hlen & Hta'). exists ms, ta'. split_and!; [done|done|].
    rewrite (has_term_final _ _ _ Hta'). by eapply run_at_end.
  - exfalso. apply Hl. by eexists.
  - by destruct Hl.
  - done.
Qed.

(** A failure names its reason, except for the command "subscriptions",
    whose table has no field for it: a client that sends this command before
    "hello" is refused without being told why. *)
Theorem fail_reason_lost ta t reason : ta_at ta t proto_ta_state_requested →
  text (json_t := json_t) reason →
  ∃ j, response_json (json_t := json_t) ta proto_msg_type_fail [Some (FStr reason)] = Ok j ∧
    (json_object_get j (C "fail-reason") ≫= string_of) =
      if decide (cmd t = C "subscriptions") then None else Some reason.
Proof.
  intros (Ety & _ & Ht & Hid) Hr.
  assert (Hd : opt_fail_fields t = if decide (cmd t = C "subscriptions") then [] else fail_reason_field).
  { clear Ety. revert t Ht. apply Forall_forall. repeat constructor. }
  destruct (decide (cmd t = C "subscriptions")) as [E|E].
  - destruct (response_json_spec ta t proto_msg_type_fail PROTO_MSG_TYPE_FAIL [] []
      [] [] [Some (FStr reason)] Ety Ht Hid) as (j & Ej & _ & _ & _ & _ & Hn); [|constructor..|].
    { simpl. by rewrite Hd. }
    exists j. split; [exact Ej|]. rewrite Hn; [done|].
    apply (bool_decide_eq_true_1 _). reflexivity.
  - destruct (response_json_spec ta t proto_msg_type_fail PROTO_MSG_TYPE_FAIL [] fail_reason_field
      [] [Some (FStr reason)] [] Ety Ht Hid) as (j & Ej & _ & _ & _ & Hs & _).
    { simpl. by rewrite Hd. }
    { constructor. }
    { constructor; [by split|constructor]. }
    exists j. split; [exact Ej|]. apply Forall2_cons in Hs as [(jv & w & Hg & Hw & Hsame) _].
    simpl in Hg. unfold PROTO_FIELD_FAIL_REASON in Hg. rewrite Hg. simpl in Hw |- *.
    apply fmap_Some in Hw as (s & Hs & ->). simpl in Hsame. congruence.
Qed.
End order.

Lemma responses_in_order_witness :
  let ta := Ta (Some subscriptions_ta) proto_ta_state_requested 5 no_values no_values in
  let rs := [Response proto_msg_type_accept [];
             Response proto_msg_type_notify [Some (FUint63 1); Some (FUint63 2); None];
             Response proto_msg_type_complete []] in
  ∃ ms ta', respond_all (json_t := json) ta rs = Ok (ms, ta') ∧ length ms = 3.
Proof.
  intros ta rs.
  destruct (responses_in_order (json_t := json) ta subscriptions_ta rs) as [H _].
  - split_and!; [done|done|do 7 right; left|simpl; unfold int64_max; lia..].
  - repeat constructor.
    + by exists [], [], [].
    + exists [Some (FUint63 1); Some (FUint63 2)], [None], [].
      split; [done|]. split; repeat constructor; simpl; unfold int64_max; lia.
    + by exists [], [], [].
  - destruct H as (ms & ta' & H1 & H2 & _).
    + right. right. exists 1, [proto_msg_type_complete]. split; [right; left|done].
    + by exists ms, ta'.
Defined.

Lemma fail_reason_lost_witness :
  let ta := Ta (Some subscriptions_ta) proto_ta_state_requested 5 no_values no_values in
  ∃ j, response_json (json_t := json) ta proto_msg_type_fail
         [Some (FStr PROTO_FAIL_REASON_NO_HELLO)] = Ok j ∧
       (json_object_get j (C "fail-reason") ≫= string_of) = None.
Proof.
  intros ta.
  destruct (fail_reason_lost (json_t := json) ta subscriptions_ta PROTO_FAIL_REASON_NO_HELLO)
    as (j & H1 & H2).
  - split_and!; [done|done|do 7 right; left|simpl; unfold int64_max; lia..].
  - by apply text_b_spec.
  - exists j. split; [exact H1|exact H2].
Defined.
