(* ===== verification/ProtoTaSafe.v ===== *)
(** * Transactions as a connection uses them

    What a handler relies on: the values it reads from an accepted request are
    there and in range, the response functions succeed for arguments of the
    right types, whatever their strings and numbers, and a transaction that is
    given up can be freed. *)

From S2P Require Import Prelude CLib Pvalue Props Double Sub Json JsonTree ProtoTa ProtoTaSpec ProtoTaResp.

Section safe.
Context {json_t : Type} `{!Jansson json_t, !JanssonLaws json_t}.
Implicit Types j o : json_t.

(** ** Arguments that no assertion stops *)

(** Strings may be anything: what the library refuses is left out. *)
Definition safe (v : field_value) : Prop :=
  match v with
  | FUint63 z => (0 ≤ z ≤ int64_max)%Z
  | FProps p => props_text (json_t := json_t) p
  | _ => True
  end.

Definition safe_arg (opt : bool) (f : proto_field) (v : option field_value) : Prop :=
  match v with
  | Some v => has_type (field_type f) v = true ∧ safe v
  | None => opt = true ∨ field_type f = proto_field_type_str
  end.

Lemma set_safe o k v : object o → text (json_t := json_t) k →
  (∀ j, v = Some j → json_valid j) → extends o (json_object_set_new o k v) [k].
Proof.
  intros [Ho Ht] Hk Hv. destruct v as [j|]; [|by rewrite set_new_null].
  destruct (set_new_spec o k j Ho Ht Hk (Hv j eq_refl)) as (? & ? & _). split; [by split|].
  intros k' Hk'. apply get_set_ne; [done..|by apply Hv|set_solver].
Qed.

Lemma set_field_safe opt o f v : object o → ascii_name f → safe_arg opt f v →
  ∃ o', set_or_skip opt o f v = Ok o' ∧ extends o o' [field_name f].
Proof.
  intros Ho [Hn Ha] Harg. pose proof (literal_text _ Hn Ha) as Hk.
  destruct f as [name type]. cbn [field_name field_type] in *.
  destruct v as [v|]; cbn [safe_arg field_type] in Harg.
  - destruct Harg as [Hty Hs].
    assert (H : ∃ o', set_field o (Field name type) (Some v) = Ok o' ∧ extends o o' [name]).
    { destruct v as [s|z|d|p|m], type; try done; cbn [set_field field_type field_name].
      - eexists. split; [done|]. apply set_safe; [done..|]. intros j. apply string_taken.
      - simpl in Hs. rewrite bool_decide_eq_true_2 by lia. eexists. split; [done|].
        apply set_safe; [done..|]. intros j [= <-].
        assert (Hz : is_int64 z = true).
        { unfold is_int64, int64_min. unfold int64_max in *. by rewrite !bool_decide_eq_true_2 by lia. }
        by destruct (integer_new z Hz) as (? & _).
      - eexists. split; [done|]. apply set_safe; [done..|]. intros j. apply real_taken.
      - destruct (props_json_values p Hs) as (jv & -> & Hj & _). eexists. split; [done|].
        apply set_safe; [done..|]. by intros j [= <-].
      - eexists. split; [done|]. apply set_safe; [done..|]. intros j. apply string_taken. }
    destruct H as (o' & E & Ho'). exists o'. unfold set_or_skip. by destruct opt.
  - exists o. split; [|by split]. unfold set_or_skip. destruct opt; [done|].
    destruct Harg as [?| ->]; [done|]. cbn [set_field field_type field_name].
    by rewrite string_null, set_new_null.
Qed.

Lemma set_loop_safe opt fields args rest : Forall2 (safe_arg opt) fields args →
  Forall ascii_name fields → ∀ o, object o →
  ∃ o', set_loop opt o fields (args ++ rest) = Ok (o', rest) ∧
        extends o o' (field_name <$> fields).
Proof.
  induction 1 as [|f v fields args Hv _ IH]; intros Hf o Ho; [by exists o|].
  apply Forall_cons in Hf as [Hn Hf].
  destruct (set_field_safe opt o f v Ho Hn Hv) as (o1 & E1 & X1).
  destruct (IH Hf o1 (proj1 X1)) as (o2 & E2 & X2). exists o2. simpl. rewrite E1. split; [done|].
  by apply (extends_trans o o1 o2 [field_name f]).
Qed.

(** The message is a response of kind [k] to the request [id] of type [t]: the
    text of an object with this header. *)
Definition is_response (t : proto_ta_type) (id : Z) (k : proto_msg_type) (m : msg) : Prop :=
  ∃ j s mts fs ofs, response_form t k = Ok (mts, fs, ofs) ∧ header j t id mts ∧
    json_dumps j = Some s ∧ m = msg_create_prealloc s (strlen s).

(** The arguments of a response. *)
Definition args_safe (t : proto_ta_type) (mt : proto_msg_type) (ap : list (option field_value))
    : Prop :=
  match response_form t mt with
  | Ok (_, fs, ofs) => ∃ a b c, ap = a ++ b ++ c ∧
      Forall2 (safe_arg false) fs a ∧ Forall2 (safe_arg true) ofs b
  | Fail _ => False
  end.

Lemma produce_response_safe ta t mt ap : ta_type ta = Some t → t ∈ proto_ta_types →
  (0 ≤ ta_id ta ≤ int64_max)%Z → args_safe t mt ap →
  ∃ m, produce_response (json_t := json_t) ta mt ap = Ok m ∧ is_response t (ta_id ta) mt m.
Proof.
  intros Ety Ht Hid. unfold args_safe.
  destruct (response_form t mt) as [[[mts fs] ofs]|] eqn:Ef; [|done].
  intros (a & b & c & -> & Ha & Hb).
  destruct (response_form_ok _ _ _ _ _ Ht Ef) as ((Hnd & Hascii & _) & Hn & Has).
  pose proof types_forms_ok as Hts. rewrite Forall_forall in Hts.
  destruct (Hts _ Ht) as (Hcn & Hca & _).
  assert (Hid' : is_int64 (ta_id ta) = true).
  { unfold is_int64, int64_min. unfold int64_max in *. by rewrite !bool_decide_eq_true_2 by lia. }
  destruct (create_response_spec (cmd t) (ta_id ta) mts (literal_text _ Hcn Hca)
    (literal_text _ Hn Has) Hid') as (Ho & _).
  apply Forall_app in Hascii as [Hfa Hoa]. apply NoDup_app in Hnd as (_ & Hm & _).
  unfold produce_response, response_json. rewrite Ety. cbn [deref mbind outcome_bind].
  rewrite Ef. cbn [mbind outcome_bind]. rewrite set_fields_loop_eq.
  destruct (set_loop_safe false fs a (b ++ c) Ha Hfa _ Ho) as (o1 & -> & [Ho1 He1]).
  cbn [mbind outcome_bind]. rewrite set_opt_fields_loop_eq.
  destruct (set_loop_safe true ofs b c Hb Hoa _ Ho1) as (o2 & -> & [[Ho2 Ht2] He2]).
  cbn [mbind outcome_bind]. destruct (dumps_object o2 Ho2 Ht2) as [s Es]. rewrite Es.
  eexists. split; [done|]. exists o2, s, mts, fs, ofs. split; [done|]. split; [|done].
  apply header_kept; [done..|]. intros k Hk. specialize (Hm _ Hk).
  rewrite He2, He1; [done|set_solver..].
Qed.

(** ** Transactions with their values *)

Definition req_value (f : proto_field) (v : option field_value) : Prop :=
  ∃ x, v = Some x ∧ has_type (field_type f) x = true ∧ safe x.

(** A transaction of this type in this state, with the values of its request. *)
Record ta_ok (t : proto_ta_type) (s : proto_ta_state) (rq : request) (ta : proto_ta) : Prop := {
  To_at : ta_at ta t s;
  To_type : rq_type rq = t;
  To_id : ta_id ta = rq_id rq;
  To_req : req_field_values ta = filled (rq_values rq);
  To_opt : opt_req_field_values ta = filled (rq_opt_values rq);
  To_values : Forall2 req_value (req_fields t) (rq_values rq);
  To_opt_values : Forall2 (safe_arg true) (opt_req_fields t) (rq_opt_values rq)
}.

Lemma ta_ok_with_state t s s' rq ta : ta_ok t s rq ta → ta_ok t s' rq (ta_with_state s' ta).
Proof. intros [(? & ? & ? & ?) ? ? ? ? ? ?]. by split. Qed.

Lemma uint63_of_range j z : json_valid j → uint63_of j = Some z → (0 ≤ z ≤ int64_max)%Z.
Proof.
  intros Hj. unfold uint63_of. case_decide as Hd; [|done]. intros [= <-]. destruct Hd as [Ht H0].
  pose proof (integer_range j Hj Ht) as Hr. unfold is_int64 in Hr.
  apply andb_true_iff in Hr as [_ Hr%bool_decide_eq_true]. done.
Qed.

Lemma pvalue_of_text j v : json_valid j → pvalue_of j = Some v → pvalue_text (json_t := json_t) v.
Proof.
  intros Hj. unfold pvalue_of. case_decide as Ht.
  - intros [= <-]. by apply integer_range.
  - intros (s & Hs & ->)%fmap_Some. by apply (string_of_text j).
Qed.

Lemma props_of_text j p : json_valid j → props_of j = Some p → props_text (json_t := json_t) p.
Proof.
  intros Hj. unfold props_of. intros (ps & Hps & [= <-])%bind_Some.
  pose proof (items_valid j Hj) as Hv. revert ps Hps.
  induction Hv as [|[k a] items [Hk Ha] _ IH]; intros ps.
  - intros [= <-]. constructor.
  - rewrite mapM_cons_eq. intros (q & Hq & (qs & Hqs & [= <-])%bind_Some)%bind_Some.
    apply Forall_app. split; [|by apply IH].
    unfold pairs_of in Hq. cbn [fst snd] in *. case_decide as Ht; [|done].
    apply bind_Some in Hq as (vs & Hvs & [= <-]). apply mapM_Some in Hvs.
    pose proof (array_valid a Ha) as Hav. clear -Hvs Hav Hk JanssonLaws0.
    induction Hvs as [|x v xs vs Hx _ IH]; [constructor|].
    apply Forall_cons in Hav as [Hxv Hav]. constructor; [|by apply IH].
    split; [done|]. by eapply pvalue_of_text.
Qed.

Lemma value_of_safe type j v : json_valid j → value_of type j = Some v →
  has_type type v = true ∧ safe v.
Proof.
  intros Hj. unfold value_of. destruct type.
  - intros (x & Hx & ->)%fmap_Some. done.
  - intros (x & Hx & ->)%fmap_Some. split; [done|]. by apply uint63_of_range in Hx.
  - case_decide; [|done]. by intros [= <-].
  - case_decide; [|done]. intros (p & Hp & ->)%fmap_Some. split; [done|]. by eapply props_of_text.
  - by intros (x & Hx & ->)%fmap_Some.
Qed.

Lemma slot_of_safe opt j f v : json_valid j → slot_of j opt f = Some v →
  if opt then safe_arg true f v else req_value f v.
Proof.
  intros Hj. unfold slot_of. destruct (json_object_get j (field_name f)) as [x|] eqn:Ex.
  - intros (y & Hy & ->)%fmap_Some. pose proof (get_valid _ _ _ Hj Ex) as Hx.
    pose proof (value_of_safe _ _ _ Hx Hy). destruct opt; [done|]. by exists y.
  - destruct opt; [|done]. intros [= <-]. by left.
Qed.

(** An accepted request. *)
Lemma requested_ok j rq : json_valid j → request_of j = Some rq →
  ta_ok (rq_type rq) proto_ta_state_requested rq (requested rq).
Proof.
  intros Hj H. unfold request_of in H.
  apply bind_Some in H as (id & (jid & Hjid & Hid)%bind_Some & H).
  apply bind_Some in H as (name & _ & H). apply bind_Some in H as (mt & _ & H).
  destruct (decide (mt = C "request")); [|done].
  apply bind_Some in H as (type & Hty & H). apply bind_Some in H as (req & Hreq & H).
  apply bind_Some in H as (opt & Hopt & H). case_decide; [|done]. injection H as <-.
  destruct (type_named_ok _ _ Hty) as [_ Hin]. split; try done; cbn [rq_type rq_values rq_opt_values].
  - split; [done|]. split; [done|]. split; [done|]. cbn [ta_id requested rq_id].
    apply (uint63_of_range jid); [|done]. by eapply get_valid.
  - apply mapM_Some in Hreq. eapply Forall2_impl; [exact Hreq|].
    intros f v. by apply (slot_of_safe false).
  - apply mapM_Some in Hopt. eapply Forall2_impl; [exact Hopt|].
    intros f v. by apply (slot_of_safe true).
Qed.

(** ** Responding *)

Lemma respond_ok t s rq ta k ap s' : ta_ok t s rq ta → next_state (ia_type t) s k = Some s' →
  args_safe t k ap → ∃ m, respond (json_t := json_t) ta (Response k ap) = Ok (m, ta_with_state s' ta) ∧
    is_response (rq_type rq) (rq_id rq) k m.
Proof.
  intros Hta Hs Ha. destruct (To_at _ _ _ _ Hta) as (Ety & Es & Hin & Hid).
  destruct (produce_response_safe _ _ _ _ Ety Hin Hid Ha) as (m & Em & Hm).
  pose proof (respond_step (json_t := json_t) ta t s k ap (To_at _ _ _ _ Hta)
    (ex_intro _ m Em)) as H.
  rewrite Hs in H. destruct H as (m' & E & Em'). exists m'. split; [done|].
  rewrite (To_type _ _ _ _ Hta), <-(To_id _ _ _ _ Hta). simplify_eq. congruence.
Qed.

(** Any failure can be reported, with a reason. *)
Lemma fail_args_safe t reason : t ∈ proto_ta_types →
  args_safe t proto_msg_type_fail [Some (FStr reason)].
Proof.
  intros Ht. unfold args_safe. cbn [response_form].
  assert (Hd : opt_fail_fields t = [] ∨ opt_fail_fields t = fail_reason_field).
  { revert t Ht. apply Forall_forall. repeat constructor; by (left + right). }
  exists []. destruct Hd as [-> | ->].
  - exists [], [Some (FStr reason)]. split; [done|]. split; constructor.
  - exists [Some (FStr reason)], []. split; [done|]. split; [constructor|].
    constructor; [by split|constructor].
Qed.

Lemma accept_args_safe t : args_safe t proto_msg_type_accept [].
Proof. exists [], [], []. split; [done|]. split; constructor. Qed.

Lemma complete_args_safe t a : Forall2 (safe_arg false) (complete_fields t) a →
  args_safe t proto_msg_type_complete a.
Proof. intros Ha. exists a, [], []. rewrite !app_nil_r. split; [done|]. split; [done|constructor]. Qed.

(** ** Reading and freeing *)

Lemma filled_lookup vs i v : vs !! i = Some v → filled vs !! i = Some v.
Proof. intros H. unfold filled. by apply lookup_app_l_Some. Qed.

Lemma get_req_field_ok t s rq ta i f : ta_ok t s rq ta → req_fields t !! i = Some f →
  ∃ x, rq_values rq !! i = Some (Some x) ∧ has_type (field_type f) x = true ∧ safe x ∧
    get_req_field_value ta (field_type f) i = Ok x.
Proof.
  intros Hta Hf. destruct (Forall2_lookup_l _ _ _ _ _ (To_values _ _ _ _ Hta) Hf)
    as (v & Hv & x & -> & Hty & Hs).
  exists x. split_and!; [done..|]. destruct (To_at _ _ _ _ Hta) as (Ety & _).
  unfold get_req_field_value. rewrite Ety. cbn [deref mbind outcome_bind]. rewrite Hf.
  rewrite bool_decide_eq_true_2 by done. cbn [ut_assert mbind outcome_bind].
  rewrite bool_decide_eq_true_2 by done. cbn [ut_assert mbind outcome_bind].
  rewrite (To_req _ _ _ _ Hta), (filled_lookup _ _ _ Hv). cbn [deref mbind outcome_bind].
  by rewrite bool_decide_eq_true_2 by by eexists.
Qed.

Lemma get_uint63_ok t s rq ta i name : ta_ok t s rq ta →
  req_fields t !! i = Some (Field name proto_field_type_uint63) →
  ∃ z, rq_values rq !! i = Some (Some (FUint63 z)) ∧ (0 ≤ z ≤ int64_max)%Z ∧
    proto_ta_get_req_field_uint63_value ta i = Ok z.
Proof.
  intros Hta Hf. destruct (get_req_field_ok _ _ _ _ _ _ Hta Hf) as (x & Hx & Hty & Hs & E).
  destruct x as [|z| | |]; try done. exists z. split_and!; [done|apply Hs..|].
  unfold proto_ta_get_req_field_uint63_value. simpl in E. by rewrite E.
Qed.

Lemma get_props_ok t s rq ta i name : ta_ok t s rq ta →
  req_fields t !! i = Some (Field name proto_field_type_props) →
  ∃ p, rq_values rq !! i = Some (Some (FProps p)) ∧ props_text (json_t := json_t) p ∧
    proto_ta_get_req_field_props_value ta i = Ok p.
Proof.
  intros Hta Hf. destruct (get_req_field_ok _ _ _ _ _ _ Hta Hf) as (x & Hx & Hty & Hs & E).
  destruct x as [| | |p|]; try done. exists p. split_and!; [done..|].
  unfold proto_ta_get_req_field_props_value. simpl in E. by rewrite E.
Qed.

Lemma get_opt_str_ok t s rq ta i name : ta_ok t s rq ta →
  opt_req_fields t !! i = Some (Field name proto_field_type_str) →
  ∃ v, rq_opt_values rq !! i = Some (FStr <$> v) ∧
    proto_ta_get_opt_req_field_str_value ta i = Ok v.
Proof.
  intros Hta Hf. destruct (Forall2_lookup_l _ _ _ _ _ (To_opt_values _ _ _ _ Hta) Hf) as (v & Hv & Hs).
  destruct (To_at _ _ _ _ Hta) as (Ety & _).
  unfold proto_ta_get_opt_req_field_str_value, get_opt_req_field_value.
  rewrite Ety. cbn [deref mbind outcome_bind]. rewrite Hf.
  rewrite !bool_decide_eq_true_2 by done. cbn [ut_assert mbind outcome_bind].
  rewrite (To_opt _ _ _ _ Hta), (filled_lookup _ _ _ Hv). cbn [deref mbind outcome_bind].
  destruct v as [[x| | | |]|]; simpl in Hs; try (by destruct Hs); [by exists (Some x)|by exists None].
Qed.

Lemma values_free fields vs : Forall2 typed fields vs → length fields ≤ MAX_FIELDS →
  ∃ ws, free_fields fields (filled vs) = Ok ws.
Proof.
  intros Ht Hl. pose proof (Forall2_length _ _ _ Ht). unfold filled.
  rewrite (free_fields_spec _ fields) by (done || lia). by eexists.
Qed.

Lemma destroy_ok t s rq ta : ta_ok t s rq ta → proto_ta_destroy ta = Ok tt.
Proof.
  intros Hta. destruct (To_at _ _ _ _ Hta) as (Ety & _ & Hin & _). unfold proto_ta_destroy.
  pose proof types_ok as Hts. rewrite Forall_forall in Hts. destruct (Hts _ Hin) as (_ & _ & Hl1 & Hl2).
  rewrite Ety, (To_req _ _ _ _ Hta), (To_opt _ _ _ _ Hta).
  destruct (values_free (req_fields t) (rq_values rq)) as [ws ->]; [|done|].
  { eapply Forall2_impl; [apply (To_values _ _ _ _ Hta)|]. by intros f v (x & -> & Hx & _). }
  cbn [mbind outcome_bind].
  destruct (values_free (opt_req_fields t) (rq_opt_values rq)) as [ws' ->]; [|done|done].
  eapply Forall2_impl; [apply (To_opt_values _ _ _ _ Hta)|]. by intros f [x|]; [intros [? _]|].
Qed.

Lemma refused_destroy ta : refused ta → proto_ta_destroy ta = Ok tt.
Proof.
  intros (_ & E1 & E2 & Hty). unfold proto_ta_destroy. destruct (ta_type ta) as [t|]; [|done].
  pose proof types_ok as Hts. rewrite Forall_forall in Hts.
  destruct (Hts t Hty) as (_ & _ & Hl1 & Hl2). rewrite E1, E2.
  assert (Hf : ∀ fields, length fields ≤ MAX_FIELDS → free_fields fields no_values = Ok no_values).
  { intros fields Hl. unfold no_values.
    pose proof (free_fields_spec fields [] [] MAX_FIELDS ltac:(constructor) Hl) as E.
    cbn [app length] in E. rewrite E; [done|]. by eexists. }
  by rewrite !Hf.
Qed.
End safe.
