(* ===== verification/Heap.v ===== *)
(** * The memory of the server (src/sd/conn.c, src/sd/db.c, and the reference
    counting of src/sd/client.c, src/sd/service.c, src/sd/sub.c, src/util/pmap.h)

    Services, subscriptions, connections, clients and orphan timers are heap
    objects, which pointers (locations) refer to; several maps hold references
    to the same service.  An object is freed when its reference count reaches
    zero, and using it afterwards is a fault.  The identifier maps are used
    through their contract (Amap.v), which Pmap.v implements. *)

From S2P Require Import Prelude CLib Pvalue Props Filter Double Service Sub Amap.

Abbreviation loc := positive.

(** [struct conn] *)
Record conn := Conn {
  remote_addr : option cstr;
  connected_at : double;
  disconnected_at : double;
  conn_client : loc;
  conn_services : amap loc;
  conn_subs : amap loc
}.

(** [struct client] *)
Record client := Client {
  client_id : Z;
  active_conn : option loc;
  inactive_conns : list loc;
  client_ref_cnt : Z
}.

(** [struct orphan_timer]; [timer_pending] is the timeout with which the event
    was added, as long as it is neither deleted nor expired. *)
Record orphan_timer := OrphanTimer {
  timer_service : loc;
  timer_pending : option timeval
}.

(** Calls out of the core: the match callback of a subscription, with the
    service it is told about, and libevent's [event_add] and [event_del]. *)
Inductive output :=
  | OMatch (s : loc) (cb_data : Z) (m : sub_match_type) (srv : service)
  | OEventAdd (timer : loc) (tv : timeval)
  | OEventDel (timer : loc).

(** The heap, the maps of [struct db] and [struct sd], the clock (its [n]-th
    reading) with the number of readings so far, and the calls made so far. *)
Record state := State {
  services : gmap loc service;
  subs : gmap loc sub;
  conns : gmap loc conn;
  clients : gmap loc client;
  timers : gmap loc orphan_timer;
  db_clients : amap loc;
  db_services : amap loc;
  db_subs : amap loc;
  orphans : amap loc;
  next_loc : loc;
  clock : nat → timespec;
  tick : nat;
  outputs : list output
}.

Definition set_services (f : gmap loc service → gmap loc service) (st : state) : state :=
  State (f (services st)) (subs st) (conns st) (clients st) (timers st) (db_clients st)
    (db_services st) (db_subs st) (orphans st) (next_loc st) (clock st) (tick st)
    (outputs st).
Definition set_subs (f : gmap loc sub → gmap loc sub) (st : state) : state :=
  State (services st) (f (subs st)) (conns st) (clients st) (timers st) (db_clients st)
    (db_services st) (db_subs st) (orphans st) (next_loc st) (clock st) (tick st)
    (outputs st).
Definition set_conns (f : gmap loc conn → gmap loc conn) (st : state) : state :=
  State (services st) (subs st) (f (conns st)) (clients st) (timers st) (db_clients st)
    (db_services st) (db_subs st) (orphans st) (next_loc st) (clock st) (tick st)
    (outputs st).
Definition set_clients (f : gmap loc client → gmap loc client) (st : state) : state :=
  State (services st) (subs st) (conns st) (f (clients st)) (timers st) (db_clients st)
    (db_services st) (db_subs st) (orphans st) (next_loc st) (clock st) (tick st)
    (outputs st).
Definition set_timers (f : gmap loc orphan_timer → gmap loc orphan_timer) (st : state) : state :=
  State (services st) (subs st) (conns st) (clients st) (f (timers st)) (db_clients st)
    (db_services st) (db_subs st) (orphans st) (next_loc st) (clock st) (tick st)
    (outputs st).
Definition set_db_clients (f : amap loc → amap loc) (st : state) : state :=
  State (services st) (subs st) (conns st) (clients st) (timers st) (f (db_clients st))
    (db_services st) (db_subs st) (orphans st) (next_loc st) (clock st) (tick st)
    (outputs st).
Definition set_db_services (f : amap loc → amap loc) (st : state) : state :=
  State (services st) (subs st) (conns st) (clients st) (timers st) (db_clients st)
    (f (db_services st)) (db_subs st) (orphans st) (next_loc st) (clock st) (tick st)
    (outputs st).
Definition set_db_subs (f : amap loc → amap loc) (st : state) : state :=
  State (services st) (subs st) (conns st) (clients st) (timers st) (db_clients st)
    (db_services st) (f (db_subs st)) (orphans st) (next_loc st) (clock st) (tick st)
    (outputs st).
Definition set_orphans (f : amap loc → amap loc) (st : state) : state :=
  State (services st) (subs st) (conns st) (clients st) (timers st) (db_clients st)
    (db_services st) (db_subs st) (f (orphans st)) (next_loc st) (clock st) (tick st)
    (outputs st).
Definition set_next_loc (f : loc → loc) (st : state) : state :=
  State (services st) (subs st) (conns st) (clients st) (timers st) (db_clients st)
    (db_services st) (db_subs st) (orphans st) (f (next_loc st)) (clock st) (tick st)
    (outputs st).
Definition set_tick (f : nat → nat) (st : state) : state :=
  State (services st) (subs st) (conns st) (clients st) (timers st) (db_clients st)
    (db_services st) (db_subs st) (orphans st) (next_loc st) (clock st) (f (tick st))
    (outputs st).
Definition set_outputs (f : list output → list output) (st : state) : state :=
  State (services st) (subs st) (conns st) (clients st) (timers st) (db_clients st)
    (db_services st) (db_subs st) (orphans st) (next_loc st) (clock st) (tick st)
    (f (outputs st)).

(** [sd_create]: nothing but empty maps. *)
Definition sd_create (clock : nat → timespec) : state :=
  State ∅ ∅ ∅ ∅ ∅ [] [] [] [] 1 clock 0 [].

Definition output_call (o : output) : M state unit := modify (set_outputs (λ os, os ++ [o])).

(** ** Objects *)

Class Obj (T : Type) := {
  heap : state → gmap loc T;
  set_heap : (gmap loc T → gmap loc T) → state → state
}.

#[export] Instance service_Obj : Obj service := {| heap := services; set_heap := set_services |}.
#[export] Instance sub_Obj : Obj sub := {| heap := subs; set_heap := set_subs |}.
#[export] Instance conn_Obj : Obj conn := {| heap := conns; set_heap := set_conns |}.
#[export] Instance client_Obj : Obj client := {| heap := clients; set_heap := set_clients |}.
#[export] Instance timer_Obj : Obj orphan_timer := {| heap := timers; set_heap := set_timers |}.

Section objects.
Context {T : Type} `{!Obj T}.

Definition load (l : loc) : M state T := λ st,
  match heap st !! l with Some x => Ok (x, st) | None => Fail Undefined end.

Definition store (l : loc) (x : T) : M state unit := modify (set_heap <[l := x]>).

Definition alloc (x : T) : M state loc := λ st,
  let l := next_loc st in
  Ok (l, set_next_loc Pos.succ (set_heap <[l := x]> st)).

Definition free (l : loc) : M state unit :=
  _ ← (load l : M state T); modify (set_heap (delete l)).

(** A read of, and a write to, the object at [l]. *)
Definition read {A} (l : loc) (f : T → outcome A) : M state A :=
  x ← load l; lift (f x).

Definition update (l : loc) (f : T → outcome T) : M state unit :=
  x ← load l; y ← lift (f x); store l y.
End objects.

(** ** Maps with reference counting ([PMAP_GEN_REF_CNT_WRAPPER])

    The map is read from and written back to where it is kept. *)
Section cnted.
Context (value_inc_ref value_dec_ref : loc → M state unit).
Context (map : M state (amap loc)) (set_map : amap loc → M state unit).

Definition map_add_cnted (key : Z) (value : loc) : M state unit :=
  _ ← value_inc_ref value;
  m ← map;
  m' ← lift (amap_add m key value);
  set_map m'.

Definition map_del_cnted (key : Z) : M state unit :=
  m ← map;
  m' ← lift (amap_del m key);
  _ ← set_map m';
  match amap_get m key with
  | Some value => value_dec_ref value
  | None => mret tt
  end.

Definition map_clear_cnted : M state unit :=
  m ← map;
  _ ← mforeach (λ kv, value_dec_ref kv.2) m;
  set_map [].
End cnted.

(** The first element that satisfies a test with effects. *)
Fixpoint mfind {A} (p : A → M state bool) (l : list A) : M state (option A) :=
  match l with
  | [] => mret None
  | x :: l' => b ← p x; if (b : bool) then mret (Some x) else mfind p l'
  end.

(** ** Time *)

Definition ut_ftime : M state double := λ st,
  Ok (ut_timespec_to_f (clock st (tick st)), set_tick S st).

(** ** Services and subscriptions *)

Definition service_create (id : Z) : M state loc := alloc (service_init id).

Definition service_inc_ref (l : loc) : M state unit :=
  update l (λ s, _ ← ut_assert (bool_decide (0 < service_ref_cnt s)%Z);
                 Ok (with_ref_cnt (service_ref_cnt s + 1) s)).

Definition service_dec_ref (l : loc) : M state unit :=
  _ ← update l (λ s, _ ← ut_assert (bool_decide (0 < service_ref_cnt s)%Z);
                     Ok (with_ref_cnt (service_ref_cnt s - 1) s));
  n ← read l (λ s, Ok (service_ref_cnt s));
  if bool_decide (n = 0)%Z then free (T := service) l else mret tt.

Definition sub_create (id : Z) (filter : option filter_t) (client_id cb_data : Z)
    : M state loc := alloc (sub_init id filter client_id cb_data).

Definition sub_inc_ref (l : loc) : M state unit :=
  update l (λ s, _ ← ut_assert (bool_decide (0 < sub_ref_cnt s)%Z);
                 Ok (sub_with_ref_cnt (sub_ref_cnt s + 1) s)).

Definition sub_dec_ref (l : loc) : M state unit :=
  _ ← update l (λ s, _ ← ut_assert (bool_decide (0 < sub_ref_cnt s)%Z);
                     Ok (sub_with_ref_cnt (sub_ref_cnt s - 1) s));
  n ← read l (λ s, Ok (sub_ref_cnt s));
  if bool_decide (n = 0)%Z then free (T := sub) l else mret tt.

Definition sub_notify (l : loc) (ct : service_change_type) (srv : loc) : M state unit :=
  s ← load l;
  x ← load srv;
  m ← lift (sub_notify_match s ct x);
  match m with
  | Some t => output_call (OMatch l (match_cb_data s) t x)
  | None => mret tt
  end.

Definition service_orphan_time_left (l : loc) : M state double :=
  s ← load l;
  is_orphan ← lift (service_is_orphan s);
  _ ← lift (ut_assert is_orphan);
  now ← ut_ftime;
  lift (service_time_left s now).

(** ** conn.c *)

Definition conn_with_services (m : amap loc) (c : conn) : conn :=
  Conn (remote_addr c) (connected_at c) (disconnected_at c) (conn_client c) m (conn_subs c).

Definition conn_with_subs (m : amap loc) (c : conn) : conn :=
  Conn (remote_addr c) (connected_at c) (disconnected_at c) (conn_client c) (conn_services c) m.

Definition conn_with_disconnected_at (t : double) (c : conn) : conn :=
  Conn (remote_addr c) (connected_at c) t (conn_client c) (conn_services c) (conn_subs c).

Definition conn_create (cl : loc) (addr : option cstr) : M state loc :=
  now ← ut_ftime;
  alloc (Conn addr now (d_of_Z (-1)) cl [] []).

Definition conn_is_connected (c : conn) : bool := d_lt (disconnected_at c) d_0.

Definition conn_mark_disconnected (cn : loc) : M state unit :=
  c ← load cn;
  _ ← lift (ut_assert (conn_is_connected c));
  now ← ut_ftime;
  store cn (conn_with_disconnected_at now c).

Definition conn_is_stale (cn : loc) : M state bool :=
  c ← load cn;
  mret (negb (conn_is_connected c) && bool_decide (amap_size (conn_services c) = 0)).

(** [service_map] and [sub_map] of a connection. *)
Definition conn_services_at (cn : loc) : M state (amap loc) := conn_services <$> load cn.
Definition set_conn_services_at (cn : loc) (m : amap loc) : M state unit :=
  update cn (λ c, Ok (conn_with_services m c)).
Definition conn_subs_at (cn : loc) : M state (amap loc) := conn_subs <$> load cn.
Definition set_conn_subs_at (cn : loc) (m : amap loc) : M state unit :=
  update cn (λ c, Ok (conn_with_subs m c)).

Definition conn_add_service (cn : loc) (id : Z) (l : loc) : M state unit :=
  map_add_cnted service_inc_ref (conn_services_at cn) (set_conn_services_at cn) id l.
Definition conn_del_service (cn : loc) (id : Z) : M state unit :=
  map_del_cnted service_dec_ref (conn_services_at cn) (set_conn_services_at cn) id.
Definition conn_has_service (cn : loc) (id : Z) : M state bool :=
  m ← conn_services_at cn; mret (amap_has m id).
Definition conn_foreach_service (cn : loc) (cb : Z → loc → M state unit) : M state unit :=
  m ← conn_services_at cn; mforeach (λ kv, cb kv.1 kv.2) m.

Definition conn_add_sub (cn : loc) (id : Z) (l : loc) : M state unit :=
  map_add_cnted sub_inc_ref (conn_subs_at cn) (set_conn_subs_at cn) id l.
Definition conn_del_sub (cn : loc) (id : Z) : M state unit :=
  map_del_cnted sub_dec_ref (conn_subs_at cn) (set_conn_subs_at cn) id.
Definition conn_has_sub (cn : loc) (id : Z) : M state bool :=
  m ← conn_subs_at cn; mret (amap_has m id).
Definition conn_foreach_sub (cn : loc) (cb : Z → loc → M state unit) : M state unit :=
  m ← conn_subs_at cn; mforeach (λ kv, cb kv.1 kv.2) m.

Definition conn_clear_subs (cn : loc) : M state unit :=
  map_clear_cnted sub_dec_ref (conn_subs_at cn) (set_conn_subs_at cn).

Definition conn_destroy (cn : loc) : M state unit :=
  _ ← map_clear_cnted service_dec_ref (conn_services_at cn) (set_conn_services_at cn);
  _ ← map_clear_cnted sub_dec_ref (conn_subs_at cn) (set_conn_subs_at cn);
  free (T := conn) cn.

(** ** Clients as objects *)

Definition client_with_active (a : option loc) (c : client) : client :=
  Client (client_id c) a (inactive_conns c) (client_ref_cnt c).
Definition client_with_inactive (l : list loc) (c : client) : client :=
  Client (client_id c) (active_conn c) l (client_ref_cnt c).
Definition client_with_ref_cnt (n : Z) (c : client) : client :=
  Client (client_id c) (active_conn c) (inactive_conns c) n.

Definition client_create (id : Z) : M state loc := alloc (Client id None [] 1).

Definition client_inc_ref (l : loc) : M state unit :=
  update l (λ c, _ ← ut_assert (bool_decide (0 < client_ref_cnt c)%Z);
                 Ok (client_with_ref_cnt (client_ref_cnt c + 1) c)).

(** The connections in the order of [client_conn_foreach]. *)
Definition client_conns (c : client) : list loc :=
  match active_conn c with Some a => [a] | None => [] end ++ inactive_conns c.

Definition client_destroy (l : loc) : M state unit :=
  c ← load l;
  _ ← mforeach conn_destroy (client_conns c);
  free (T := client) l.

Definition client_dec_ref (l : loc) : M state unit :=
  _ ← update l (λ c, _ ← ut_assert (bool_decide (0 < client_ref_cnt c)%Z);
                     Ok (client_with_ref_cnt (client_ref_cnt c - 1) c));
  n ← read l (λ c, Ok (client_ref_cnt c));
  if bool_decide (n = 0)%Z then client_destroy l else mret tt.

(** ** db.c *)

Definition db_get_client (id : Z) : M state (option loc) := gets (λ st, amap_get (db_clients st) id).
Definition db_add_client (id : Z) (l : loc) : M state unit :=
  _ ← lift (ut_assert (bool_decide (0 ≤ id)%Z));
  map_add_cnted client_inc_ref (gets db_clients) (λ m, modify (set_db_clients (λ _, m))) id l.
Definition db_del_client (id : Z) : M state unit :=
  _ ← lift (ut_assert (bool_decide (0 ≤ id)%Z));
  map_del_cnted client_dec_ref (gets db_clients) (λ m, modify (set_db_clients (λ _, m))) id.
Definition db_foreach_client (cb : Z → loc → M state unit) : M state unit :=
  m ← gets db_clients; mforeach (λ kv, cb kv.1 kv.2) m.

Definition db_get_service (id : Z) : M state (option loc) := gets (λ st, amap_get (db_services st) id).
Definition db_add_service (id : Z) (l : loc) : M state unit :=
  _ ← lift (ut_assert (bool_decide (0 ≤ id)%Z));
  map_add_cnted service_inc_ref (gets db_services) (λ m, modify (set_db_services (λ _, m))) id l.
Definition db_del_service (id : Z) : M state unit :=
  _ ← lift (ut_assert (bool_decide (0 ≤ id)%Z));
  map_del_cnted service_dec_ref (gets db_services) (λ m, modify (set_db_services (λ _, m))) id.
Definition db_foreach_service (cb : Z → loc → M state unit) : M state unit :=
  m ← gets db_services; mforeach (λ kv, cb kv.1 kv.2) m.

Definition db_has_sub (id : Z) : M state bool := gets (λ st, amap_has (db_subs st) id).
Definition db_get_sub (id : Z) : M state (option loc) := gets (λ st, amap_get (db_subs st) id).
Definition db_add_sub (id : Z) (l : loc) : M state unit :=
  _ ← lift (ut_assert (bool_decide (0 ≤ id)%Z));
  map_add_cnted sub_inc_ref (gets db_subs) (λ m, modify (set_db_subs (λ _, m))) id l.
Definition db_del_sub (id : Z) : M state unit :=
  _ ← lift (ut_assert (bool_decide (0 ≤ id)%Z));
  map_del_cnted sub_dec_ref (gets db_subs) (λ m, modify (set_db_subs (λ _, m))) id.
Definition db_foreach_sub (cb : Z → loc → M state unit) : M state unit :=
  m ← gets db_subs; mforeach (λ kv, cb kv.1 kv.2) m.

(** [db_destroy]: the references of the three maps are dropped. *)
Definition db_destroy : M state unit :=
  _ ← map_clear_cnted client_dec_ref (gets db_clients) (λ m, modify (set_db_clients (λ _, m)));
  _ ← map_clear_cnted service_dec_ref (gets db_services) (λ m, modify (set_db_services (λ _, m)));
  map_clear_cnted sub_dec_ref (gets db_subs) (λ m, modify (set_db_subs (λ _, m))).
