(* ===== verification/Cells.v ===== *)
(** * The memory of values

    Filters, properties and the structs that hold them are trees of small
    objects, each with one owner: a filter node, its strings, its lists of
    operands.  Here they are cells of a memory, which [malloc] adds and [free]
    takes away; a string builder and a pointer list are one cell each, with the
    array that sbuf.c and plist.c keep for them (Sbuf.v, Plist.v), and so is the
    [struct input] of the filter parser, which is on the stack.

    Assertions about a part of the memory are a logic of Iris' interface, so
    that proofs use its proof mode.  It is linear: what is owned cannot be
    forgotten, and [hwp] therefore shows that nothing leaks. *)

From S2P Require Import Prelude CLib Mem Plist Sbuf Pvalue Props Filter FilterParse Double Service Sub Heap.
From iris.proofmode Require Import proofmode.

#[local] Unset SsrRewrite.

(** ** Cells *)

(** [struct generation], [struct service] and [struct sub], with pointers to
    what they own. *)
Record generation_cell := GenerationCell {
  gc_generation : Z;
  gc_props : option loc;
  gc_ttl : Z;
  gc_orphan_since : double;
  gc_client_id : Z
}.

Record service_cell := ServiceCell {
  sc_service_id : Z;
  sc_change_in_progress : service_change_type;
  sc_current : option loc;
  sc_prev : option loc;
  sc_next : option loc;
  sc_ref_cnt : Z
}.

Record sub_cell := SubCell {
  bc_sub_id : Z;
  bc_filter : option loc;
  bc_client_id : Z;
  bc_match_cb_data : Z;
  bc_ref_cnt : Z
}.

(** [CFresh] is an object that nothing has been written to. *)
Inductive cell :=
  | CFresh
  | CStr (s : cstr)
  | CSbuf (sb : sbuf)
  | CPlist (p : plist loc)
  | CInput (inp : input)
  (* filter.c *)
  | CComparison (op : ascii) (key value : loc)
  | CPresent (key : loc)
  | CSubstring (key : loc) (initial_value intermediate_values final_value : option loc)
  | CNot (operand : loc)
  | CComposite (op : ascii) (operands : loc)
  (* pvalue.c, props.c, generation.c, service.c, sub.c *)
  | CInt64 (value_int64 : Z)
  | CPstr (value_str : loc)
  | CArray (elems : list (option loc))
  | CProps (names values : option loc) (num : nat)
  | CGeneration (g : generation_cell)
  | CService (s : service_cell)
  | CSub (s : sub_cell).

Record mem := Memory {
  cells : gmap loc cell;
  next_cell : loc
}.

(** ** Operations *)

Definition new (c : cell) : M mem loc := λ w,
  Ok (next_cell w, Memory (<[next_cell w := c]> (cells w)) (Pos.succ (next_cell w))).

(** Reading an object; it must be one of the right kind. *)
Definition get (l : loc) : M mem cell := λ w,
  match cells w !! l with Some c => Ok (c, w) | None => Fail Undefined end.

Definition set (l : loc) (c : cell) : M mem unit :=
  _ ← get l; modify (λ w, Memory (<[l := c]> (cells w)) (next_cell w)).

Definition release (l : loc) : M mem unit :=
  _ ← get l; modify (λ w, Memory (delete l (cells w)) (next_cell w)).

(** [ut_free]: nothing for a null pointer. *)
Definition ut_free (l : option loc) : M mem unit :=
  match l with Some l => release l | None => mret tt end.

Definition get_str (l : loc) : M mem cstr :=
  c ← get l; match c with CStr s => mret s | _ => fault_with Undefined end.

Definition get_plist (l : loc) : M mem (plist loc) :=
  c ← get l; match c with CPlist p => mret p | _ => fault_with Undefined end.

(** [ut_strdup] and [ut_strdup_non_null] *)
Definition ut_strdup (str : loc) : M mem loc :=
  s ← get_str str; new (CStr s).

Definition ut_strdup_non_null (str : option loc) : M mem (option loc) :=
  match str with Some str => Some <$> ut_strdup str | None => mret None end.

(** An object of the wrong kind. *)
Definition bad_cell {A} : M mem A := fault_with Undefined.

(** Recursion over objects: there are no more levels than objects. *)
Definition with_depth {A} (f : nat → M mem A) : M mem A := λ w, f (S (size (cells w))) w.

(** New locations are new. *)
Definition mem_ok (w : mem) : Prop := ∀ l, (next_cell w ≤ l)%positive → cells w !! l = None.

(** ** Assertions *)

Record hprop := HProp { holds : gmap loc cell → Prop }.

Section logic.
Implicit Types P Q R : hprop.

Record hentails P Q : Prop := HEntails { entail : ∀ h, holds P h → holds Q h }.

Local Instance hprop_equiv : Equiv hprop := λ P Q, ∀ h, holds P h ↔ holds Q h.
Local Instance hprop_equivalence : Equivalence (≡@{hprop}).
Proof.
  split; [by intros P h|by intros P Q H h|]. intros P Q R H1 H2 h. by rewrite (H1 h).
Qed.

Definition h_emp : hprop := HProp (λ h, h = ∅).
Definition h_pure (φ : Prop) : hprop := HProp (λ _, φ).
Definition h_and P Q : hprop := HProp (λ h, holds P h ∧ holds Q h).
Definition h_or P Q : hprop := HProp (λ h, holds P h ∨ holds Q h).
Definition h_impl P Q : hprop := HProp (λ h, holds P h → holds Q h).
Definition h_forall A (Φ : A → hprop) : hprop := HProp (λ h, ∀ a, holds (Φ a) h).
Definition h_exist A (Φ : A → hprop) : hprop := HProp (λ h, ∃ a, holds (Φ a) h).
Definition h_sep P Q : hprop :=
  HProp (λ h, ∃ h1 h2, h = h1 ∪ h2 ∧ h1 ##ₘ h2 ∧ holds P h1 ∧ holds Q h2).
Definition h_wand P Q : hprop :=
  HProp (λ h, ∀ h', h ##ₘ h' → holds P h' → holds Q (h ∪ h')).
Definition h_pers P : hprop := h_pure (hentails h_emp P).

Local Instance hprop_dist : Dist hprop := λ _, hprop_equiv.

Lemma hprop_bi_mixin :
  BiMixin hentails h_emp h_pure h_and h_or h_impl h_forall h_exist h_sep h_wand.
Proof.
  split.
  - split; [by intros P; split|]. intros P Q R [H1] [H2]. split. auto.
  - intros P Q. split; [intros H; split; split; intros h; apply H|]. intros [[H1] [H2]] h. split; auto.
  - intros n φ ψ H h. exact H.
  - intros n P P' HP Q Q' HQ h. split; (intros [? ?]; split; [by apply HP|by apply HQ]).
  - intros n P P' HP Q Q' HQ h. split; (intros [?|?]; [left; by apply HP|right; by apply HQ]).
  - intros n P P' HP Q Q' HQ h. split; intros H Hp; apply HQ, H, HP, Hp.
  - intros A n Φ Ψ H h. split; intros Ha a; apply (H a), Ha.
  - intros A n Φ Ψ H h. split; (intros [a Ha]; exists a; by apply (H a)).
  - intros n P P' HP Q Q' HQ h.
    split; (intros (h1 & h2 & ? & ? & ? & ?); exists h1, h2; split_and!;
      [done|done|by apply HP|by apply HQ]).
  - intros n P P' HP Q Q' HQ h.
    split; intros H h' Hd Hp; apply HQ, H, HP, Hp; done.
  - intros φ P Hφ. split. intros h _. exact Hφ.
  - intros φ P H. split. intros h Hφ. by apply (H Hφ).
  - intros P Q. split. by intros h [].
  - intros P Q. split. by intros h [].
  - intros P Q R [H1] [H2]. split. intros h Hp. split; auto.
  - intros P Q. split. by left.
  - intros P Q. split. by right.
  - intros P Q R [H1] [H2]. split. intros h []; auto.
  - intros P Q R [H]. split. intros h Hp Hq. by apply H.
  - intros P Q R [H]. split. intros h [Hp Hq]. by apply H.
  - intros A P Ψ H. split. intros h Hp a. by apply (H a).
  - intros A Ψ a. split. intros h Hp. apply Hp.
  - intros A Ψ a. split. intros h Hp. by exists a.
  - intros A Φ Q H. split. intros h [a Ha]. by apply (H a).
  - intros P P' Q Q' [H1] [H2]. split. intros h (h1 & h2 & ? & ? & ? & ?). exists h1, h2. auto.
  - intros P. split. intros h Hp. exists ∅, h. rewrite (left_id_L ∅ (∪)).
    split_and!; [done|apply map_disjoint_empty_l|done|done].
  - intros P. split. intros h (h1 & h2 & -> & _ & -> & Hp). by rewrite (left_id_L ∅ (∪)).
  - intros P Q. split. intros h (h1 & h2 & -> & ? & ? & ?). exists h2, h1.
    split_and!; [by apply map_union_comm|done..].
  - intros P Q R. split. intros h (h12 & h3 & -> & D & (h1 & h2 & -> & D12 & Hp & Hq) & Hr).
    apply map_disjoint_union_l in D as [D1 D2]. exists h1, (h2 ∪ h3).
    split_and!; [by rewrite assoc_L by apply _|by apply map_disjoint_union_r|done|by exists h2, h3].
  - intros P Q R [H]. split. intros h Hp h' D Hq. apply H. by exists h, h'.
  - intros P Q R [H]. split. intros h (h1 & h2 & -> & D & Hp & Hq). by apply H.
Qed.

Lemma hprop_persistently_mixin : BiPersistentlyMixin hentails h_emp h_and h_exist h_sep h_pers.
Proof.
  eapply bi_persistently_mixin_discrete, hprop_bi_mixin; [done| |done].
  intros A Φ [H]. destruct (H ∅ eq_refl) as [a Ha]. exists a. split. by intros h ->.
Qed.

Lemma hprop_later_mixin :
  BiLaterMixin hentails h_pure h_or h_impl h_forall h_exist h_sep h_pers id.
Proof. by eapply bi_later_mixin_id, hprop_bi_mixin. Qed.

Canonical Structure hpropI : bi := {|
  bi_ofe_mixin := discrete_ofe_mixin (A := hprop) hprop_equivalence;
  bi_cofe_aux := discrete_cofe (A := hprop) hprop_equivalence;
  bi_bi_mixin := hprop_bi_mixin;
  bi_bi_persistently_mixin := hprop_persistently_mixin;
  bi_bi_later_mixin := hprop_later_mixin
|}.
End logic.

(** The only cell is [c] at [l]. *)
Definition pts (l : loc) (c : cell) : hprop := HProp (λ h, h = {[l := c]}).

Notation "l ↦ c" := (pts l c) (at level 20, format "l  ↦  c") : bi_scope.

(** ** Running a computation *)

(** Run from a memory a part of which is as assumed, [m] does not fault, leaves
    the rest as it is, and makes a part of which [Φ] holds of that one. *)
Definition hwp {A} (m : M mem A) (Φ : A → hprop) : hprop := HProp (λ h, ∀ w frame,
  cells w = h ∪ frame → h ##ₘ frame → mem_ok w →
  match m w with
  | Ok (a, w') => ∃ h', cells w' = h' ∪ frame ∧ h' ##ₘ frame ∧ mem_ok w' ∧ holds (Φ a) h'
  | Fail _ => False
  end).

Section rules.

Lemma entails_holds (P Q : hpropI) : (P ⊢ Q) ↔ ∀ h, holds P h → holds Q h.
Proof. split; [by intros [H]|by split]. Qed.

Lemma hwp_ret {A} (a : A) (Φ : A → hpropI) : Φ a ⊢ hwp (mret a) Φ.
Proof. apply entails_holds. intros h H w frame E D W. by exists h. Qed.

Lemma hwp_bind {A B} (m : M mem A) (f : A → M mem B) (Φ : B → hpropI) :
  hwp m (λ a, hwp (f a) Φ) ⊢ hwp (m ≫= f) Φ.
Proof.
  apply entails_holds. intros h H w frame E D W. specialize (H w frame E D W).
  unfold mbind, M_bind. destruct (m w) as [[a w1]|]; [|done]. destruct H as (h1 & E1 & D1 & W1 & H1).
  by apply (H1 w1 frame).
Qed.

Lemma hwp_wand {A} (m : M mem A) (Φ Ψ : A → hpropI) :
  hwp m Φ ∗ (∀ a, Φ a -∗ Ψ a) ⊢ hwp m Ψ.
Proof.
  apply entails_holds. intros h (h1 & h2 & -> & D12 & H1 & H2) w frame E D W.
  apply map_disjoint_union_l in D as [D1 D2]. rewrite <-(assoc_L (∪)) in E.
  specialize (H1 w (h2 ∪ frame) E).
  destruct (m w) as [[a w1]|]; [|by apply H1; [apply map_disjoint_union_r|]].
  destruct H1 as (h1' & E1 & D1' & W1 & H1); [by apply map_disjoint_union_r|done|].
  apply map_disjoint_union_r in D1' as [D12' D1']. exists (h1' ∪ h2).
  split_and!; [by rewrite <-(assoc_L (∪))|by apply map_disjoint_union_l|done|].
  rewrite map_union_comm by done. by apply H2.
Qed.

(** A run from a memory with a part of which [P] holds: what [hwp] means. *)
Lemma hwp_run {A} (m : M mem A) (P : hpropI) (Φ : A → hpropI) h frame w : (P ⊢ hwp m Φ) →
  holds P h → cells w = h ∪ frame → h ##ₘ frame → mem_ok w →
  ∃ a w' h', m w = Ok (a, w') ∧ cells w' = h' ∪ frame ∧ h' ##ₘ frame ∧ mem_ok w' ∧ holds (Φ a) h'.
Proof.
  intros Hm HP E D W. pose proof (proj1 (entails_holds _ _) Hm h HP w frame E D W) as H. clear Hm.
  destruct (m w) as [[a w']|]; [|done]. destruct H as (h' & H). by exists a, w', h'.
Qed.

Lemma hwp_lift {A} (o : outcome A) a (Φ : A → hpropI) : o = Ok a → Φ a ⊢ hwp (lift o) Φ.
Proof. intros ->. apply entails_holds. intros h H w frame E D W. by exists h. Qed.

Lemma hwp_new c (Φ : loc → hpropI) : (∀ l, l ↦ c -∗ Φ l) ⊢ hwp (new c) Φ.
Proof.
  apply entails_holds. intros h H w frame E D W. simpl.
  assert (Hn : cells w !! next_cell w = None) by (apply W; lia).
  rewrite E in Hn. apply lookup_union_None in Hn as [Hn1 Hn2].
  exists (h ∪ {[next_cell w := c]}). split_and!.
  - simpl. rewrite E, (map_union_comm h {[next_cell w := c]}) by (by apply map_disjoint_singleton_r).
    by rewrite <-(assoc_L (∪)), insert_union_singleton_l.
  - apply map_disjoint_union_l. split; [done|]. by apply map_disjoint_singleton_l.
  - intros l Hl. simpl in *. rewrite lookup_insert_ne by lia. apply W. lia.
  - apply H; [by apply map_disjoint_singleton_r|done].
Qed.

(** The cell of a location that is owned. *)
Lemma owned_cell l c h2 frame w : cells w = ({[l := c]} ∪ h2) ∪ frame → cells w !! l = Some c.
Proof. intros ->. by rewrite <-(assoc_L (∪)), <-insert_union_singleton_l, lookup_insert_eq. Qed.

Lemma hwp_get l c (Φ : cell → hpropI) : l ↦ c ∗ (l ↦ c -∗ Φ c) ⊢ hwp (get l) Φ.
Proof.
  apply entails_holds. intros h (h1 & h2 & -> & D12 & -> & H2) w frame E D W. unfold get.
  rewrite (owned_cell _ _ _ _ _ E). exists ({[l := c]} ∪ h2). split_and!; [done..|].
  rewrite map_union_comm by done. by apply H2.
Qed.

Lemma hwp_set l c c' (Φ : unit → hpropI) : l ↦ c ∗ (l ↦ c' -∗ Φ tt) ⊢ hwp (set l c') Φ.
Proof.
  apply entails_holds. intros h (h1 & h2 & -> & D12 & -> & H2) w frame E D W.
  unfold set, get, mbind, M_bind. rewrite (owned_cell _ _ _ _ _ E). simpl.
  apply map_disjoint_union_l in D as [D1 D2].
  assert (D1' : {[l := c']} ##ₘ frame) by (apply map_disjoint_singleton_l; by apply map_disjoint_singleton_l in D1).
  assert (D12' : {[l := c']} ##ₘ h2) by (apply map_disjoint_singleton_l; by apply map_disjoint_singleton_l in D12).
  exists ({[l := c']} ∪ h2). split_and!.
  - simpl. rewrite E, <-!(assoc_L (∪)), <-!insert_union_singleton_l. by rewrite insert_insert_eq.
  - by apply map_disjoint_union_l.
  - intros l' Hl'. simpl in *. rewrite lookup_insert_ne; [by apply W|]. intros <-.
    pose proof (owned_cell _ _ _ _ _ E) as Hl. rewrite W in Hl; done.
  - rewrite map_union_comm by done. by apply H2.
Qed.

Lemma hwp_release l c (Φ : unit → hpropI) : l ↦ c ∗ Φ tt ⊢ hwp (release l) Φ.
Proof.
  apply entails_holds. intros h (h1 & h2 & -> & D12 & -> & H2) w frame E D W.
  unfold release, get, mbind, M_bind. rewrite (owned_cell _ _ _ _ _ E). simpl.
  apply map_disjoint_union_l in D as [D1 D2].
  apply map_disjoint_singleton_l in D1. apply map_disjoint_singleton_l in D12.
  exists h2. split_and!; [|done| |done].
  - simpl. rewrite E, <-(assoc_L (∪)), <-insert_union_singleton_l. apply delete_insert_id.
    by apply lookup_union_None.
  - intros l' Hl'. simpl in *. rewrite lookup_delete_None. right. by apply W.
Qed.

Lemma hwp_ext {A} (m m' : M mem A) (Φ : A → hpropI) : (∀ w, m w = m' w) → hwp m Φ ⊢ hwp m' Φ.
Proof. intros Hm. apply entails_holds. intros h H w frame. rewrite <-Hm. apply H. Qed.

Lemma hwp_fmap {A B} (f : A → B) (m : M mem A) (Φ : B → hpropI) :
  hwp m (λ a, Φ (f a)) ⊢ hwp (f <$> m) Φ.
Proof.
  apply entails_holds. intros h H w frame E D W. specialize (H w frame E D W).
  unfold fmap, M_fmap. by destruct (m w) as [[a w1]|].
Qed.

(** A memory holds its cells. *)
Lemma holds_cells (m : gmap loc cell) : holds ([∗ map] l↦c ∈ m, l ↦ c)%I m.
Proof.
  induction m as [|l c m Hl IH] using map_ind.
  - apply (proj1 (entails_holds emp%I _)); [by rewrite big_sepM_empty|done].
  - apply (proj1 (entails_holds (l ↦ c ∗ [∗ map] l↦c ∈ m, l ↦ c)%I _)).
    { rewrite big_sepM_insert by done. done. }
    exists {[l := c]}, m. rewrite insert_union_singleton_l. split_and!; try done.
    by apply map_disjoint_singleton_l.
Qed.

(** ** Values in memory

    A value is an assertion about the location of its object. *)

Definition str_at (s : cstr) (l : loc) : hpropI := l ↦ CStr s.

(** An optional value behind a pointer that may be null. *)
Definition opt_at (P : option (loc → hpropI)) (l : option loc) : hpropI :=
  match P, l with
  | Some P, Some l => P l
  | None, None => emp
  | _, _ => False
  end.

(** A list object with its elements. *)
Definition list_at (Ps : list (loc → hpropI)) (l : loc) : hpropI :=
  ∃ p ls, l ↦ CPlist p ∗ <affine> ⌜plist_repr p ls⌝ ∗ [∗ list] P;l' ∈ Ps;ls, P l'.

(** The functions that copy, and free, a value. *)
Definition clones (clone : loc → M mem loc) (P : loc → hpropI) : Prop := ∀ l (Φ : loc → hpropI),
  P l ∗ (∀ l', P l -∗ P l' -∗ Φ l') ⊢ hwp (clone l) Φ.
Definition destroys (destroy : loc → M mem unit) (P : loc → hpropI) : Prop :=
  ∀ l (Φ : unit → hpropI), P l ∗ Φ tt ⊢ hwp (destroy l) Φ.

Lemma hwp_get_str l s (Φ : cstr → hpropI) :
  str_at s l ∗ (str_at s l -∗ Φ s) ⊢ hwp (get_str l) Φ.
Proof.
  iIntros "[Hl HΦ]". iApply hwp_bind. iApply hwp_get. iFrame "Hl". iIntros "Hl".
  iApply hwp_ret. by iApply "HΦ".
Qed.

Lemma strdup_clones s : clones ut_strdup (str_at s).
Proof.
  iIntros (l Φ) "[Hl HΦ]". iApply hwp_bind. iApply hwp_get_str. iFrame "Hl". iIntros "Hl".
  iApply hwp_new. iIntros (l') "Hl'". iApply ("HΦ" with "Hl Hl'").
Qed.

Lemma release_destroys_str s : destroys release (str_at s).
Proof. iIntros (l Φ) "[Hl HΦ]". iApply hwp_release. iFrame. Qed.

Lemma hwp_free_opt (P : option (loc → hpropI)) (l : option loc) (Φ : unit → hpropI) :
  (∀ Q, P = Some Q → destroys release Q) → opt_at P l ∗ Φ tt ⊢ hwp (ut_free l) Φ.
Proof.
  intros HP. iIntros "[Hl HΦ]". destruct P as [P|], l as [l|]; simpl; try done.
  - iApply (HP P eq_refl). iFrame.
  - iApply hwp_ret. iApply "HΦ".
Qed.
End rules.
