(* ===== verification/FilterMem.v ===== *)
(** * Filters in memory (src/sd/filter.c, src/util/slist.c, src/sd/flist.c)

    The functions of filter.c that make, copy and free filters, over the memory
    of Cells.v.  [filter_at f] is the assertion that the filter [f] of Filter.v
    is in memory with all that it owns; copying makes a second one, and freeing
    takes exactly that away.  Recursion is bounded by the number of objects in
    memory, which is more than the depth of a filter. *)

From S2P Require Import Prelude CLib Mem Plist Sbuf Filter FilterParse Slist Heap Cells.
From iris.proofmode Require Import proofmode.

#[local] Unset SsrRewrite.

(** ** Lists *)

(** The list functions of Slist.v on a list in memory. *)
Definition list_create : M mem loc := new (CPlist Slist.list_create).

Definition list_append (elem_clone : loc → M mem loc) (list elem : loc) : M mem unit :=
  p ← get_plist list;
  p' ← Slist.list_append elem_clone p elem;
  set list (CPlist p').

Definition list_clone (elem_clone : loc → M mem loc) (list : loc) : M mem loc :=
  p ← get_plist list;
  p' ← Slist.list_clone elem_clone p;
  new (CPlist p').

Definition list_clone_non_null (elem_clone : loc → M mem loc) (list : option loc)
    : M mem (option loc) :=
  match list with Some list => Some <$> list_clone elem_clone list | None => mret None end.

Definition list_destroy (elem_destroy : loc → M mem unit) (list : option loc) : M mem unit :=
  match list with
  | Some list =>
      p ← get_plist list;
      _ ← Slist.list_destroy elem_destroy (Some p);
      release list
  | None => mret tt
  end.

Definition list_len (list : loc) : M mem nat :=
  p ← get_plist list; mret (Slist.list_len p).

(** slist.c *)
Definition slist_create : M mem loc := list_create.
Definition slist_append : loc → loc → M mem unit := list_append ut_strdup.
Definition slist_clone_non_null : option loc → M mem (option loc) := list_clone_non_null ut_strdup.
Definition slist_destroy : option loc → M mem unit := list_destroy release.

(** ** Filters *)

Definition comparison_create (op : ascii) (key value : loc) : M mem loc :=
  comparison ← new CFresh;
  key ← ut_strdup key;
  value ← ut_strdup value;
  _ ← set comparison (CComparison op key value);
  mret comparison.

Definition comparison_clone (filter : loc) : M mem loc :=
  c ← get filter;
  match c with CComparison op key value => comparison_create op key value | _ => bad_cell end.

Definition comparison_destroy (filter : loc) : M mem unit :=
  c ← get filter;
  match c with
  | CComparison _ key value =>
      _ ← ut_free (Some key);
      _ ← ut_free (Some value);
      ut_free (Some filter)
  | _ => bad_cell
  end.

Definition equal_create (key value : loc) : M mem loc := comparison_create EQUAL key value.

(** [value_s] is on the stack. *)
Definition greater_than_create (key : loc) (value : Z) : M mem loc :=
  value_s ← new (CStr (print_int64 value));
  filter ← comparison_create GREATER_THAN key value_s;
  _ ← release value_s;
  mret filter.

Definition less_than_create (key : loc) (value : Z) : M mem loc :=
  value_s ← new (CStr (print_int64 value));
  filter ← comparison_create LESS_THAN key value_s;
  _ ← release value_s;
  mret filter.

Definition present_create (key : loc) : M mem loc :=
  present ← new CFresh;
  key ← ut_strdup key;
  _ ← set present (CPresent key);
  mret present.

Definition present_clone (filter : loc) : M mem loc :=
  c ← get filter; match c with CPresent key => present_create key | _ => bad_cell end.

Definition present_destroy (filter : loc) : M mem unit :=
  c ← get filter;
  match c with
  | CPresent key => _ ← ut_free (Some key); ut_free (Some filter)
  | _ => bad_cell
  end.

Definition substring_create (key : loc) (initial_value intermediate_values final_value : option loc)
    : M mem loc :=
  substring ← new CFresh;
  key ← ut_strdup key;
  initial_value ← ut_strdup_non_null initial_value;
  intermediate_values ← slist_clone_non_null intermediate_values;
  final_value ← ut_strdup_non_null final_value;
  _ ← set substring (CSubstring key initial_value intermediate_values final_value);
  mret substring.

Definition substring_clone (filter : loc) : M mem loc :=
  c ← get filter;
  match c with CSubstring key i m f => substring_create key i m f | _ => bad_cell end.

Definition substring_destroy (filter : loc) : M mem unit :=
  c ← get filter;
  match c with
  | CSubstring key initial_value intermediate_values final_value =>
      _ ← ut_free (Some key);
      _ ← ut_free initial_value;
      _ ← slist_destroy intermediate_values;
      _ ← ut_free final_value;
      ut_free (Some filter)
  | _ => bad_cell
  end.

(** The functions of the filters with operands are given the functions of
    filters. *)
Section operands.
Context (filter_clone : loc → M mem loc) (filter_destroy : loc → M mem unit).

Definition not_create (operand : loc) : M mem loc :=
  not ← new CFresh;
  operand ← filter_clone operand;
  _ ← set not (CNot operand);
  mret not.

Definition not_clone (filter : loc) : M mem loc :=
  c ← get filter; match c with CNot operand => not_create operand | _ => bad_cell end.

Definition not_destroy (filter : loc) : M mem unit :=
  c ← get filter;
  match c with
  | CNot operand => _ ← filter_destroy operand; ut_free (Some filter)
  | _ => bad_cell
  end.

Definition composite_create (op : ascii) (operands : loc) : M mem loc :=
  composite ← new CFresh;
  operands ← list_clone filter_clone operands;
  _ ← set composite (CComposite op operands);
  mret composite.

Definition composite_clone (filter : loc) : M mem loc :=
  c ← get filter;
  match c with CComposite op operands => composite_create op operands | _ => bad_cell end.

Definition composite_destroy (filter : loc) : M mem unit :=
  c ← get filter;
  match c with
  | CComposite _ operands =>
      _ ← list_destroy filter_destroy (Some operands);
      ut_free (Some filter)
  | _ => bad_cell
  end.
End operands.

(** [filter->ops->clone (filter)], at most [n] levels deep. *)
Fixpoint clone_levels (n : nat) (filter : loc) : M mem loc :=
  match n with
  | O => fault_with OutOfFuel
  | S n' =>
      c ← get filter;
      match c with
      | CComparison _ _ _ => comparison_clone filter
      | CPresent _ => present_clone filter
      | CSubstring _ _ _ _ => substring_clone filter
      | CNot _ => not_clone (clone_levels n') filter
      | CComposite _ _ => composite_clone (clone_levels n') filter
      | _ => bad_cell
      end
  end.

Definition filter_clone (filter : loc) : M mem loc := with_depth (λ n, clone_levels n filter).

Definition filter_clone_non_null (filter : option loc) : M mem (option loc) :=
  match filter with Some filter => Some <$> filter_clone filter | None => mret None end.

Fixpoint destroy_levels (n : nat) (filter : loc) : M mem unit :=
  match n with
  | O => fault_with OutOfFuel
  | S n' =>
      c ← get filter;
      match c with
      | CComparison _ _ _ => comparison_destroy filter
      | CPresent _ => present_destroy filter
      | CSubstring _ _ _ _ => substring_destroy filter
      | CNot _ => not_destroy (destroy_levels n') filter
      | CComposite _ _ => composite_destroy (destroy_levels n') filter
      | _ => bad_cell
      end
  end.

Definition filter_destroy (filter : option loc) : M mem unit :=
  match filter with
  | Some filter => with_depth (λ n, destroy_levels n filter)
  | None => mret tt
  end.

(** flist.c; the elements are never null. *)
Definition flist_create : M mem loc := list_create.
Definition flist_append : loc → loc → M mem unit := list_append filter_clone.
Definition flist_destroy : option loc → M mem unit := list_destroy (λ f, filter_destroy (Some f)).
Definition flist_len : loc → M mem nat := list_len.

Definition and_create (operands : loc) : M mem loc := composite_create filter_clone AND operands.
Definition or_create (operands : loc) : M mem loc := composite_create filter_clone OR operands.

(** ** Filters as assertions *)

Definition strs_at (ss : list cstr) : loc → hpropI := list_at (str_at <$> ss).

Fixpoint filter_at (f : filter_t) (l : loc) : hpropI :=
  match f with
  | FComparison op key value =>
      ∃ lk lv, l ↦ CComparison op lk lv ∗ str_at key lk ∗ str_at value lv
  | FPresent key => ∃ lk, l ↦ CPresent lk ∗ str_at key lk
  | FSubstring key i m fin =>
      ∃ lk li lm lf, l ↦ CSubstring lk li lm lf ∗ str_at key lk ∗ opt_at (str_at <$> i) li ∗
        opt_at (strs_at <$> m) lm ∗ opt_at (str_at <$> fin) lf
  | FNot operand => ∃ lo, l ↦ CNot lo ∗ filter_at operand lo
  | FComposite op operands => ∃ lo, l ↦ CComposite op lo ∗ list_at (map filter_at operands) lo
  end.

(** ** Lists in memory *)

Lemma hwp_get_plist l p (Φ : plist loc → hpropI) :
  l ↦ CPlist p ∗ (l ↦ CPlist p -∗ Φ p) ⊢ hwp (get_plist l) Φ.
Proof.
  iIntros "[Hl HΦ]". iApply hwp_bind. iApply hwp_get. iFrame "Hl". iIntros "Hl".
  iApply hwp_ret. by iApply "HΦ".
Qed.

Lemma hwp_list_create (Φ : loc → hpropI) : (∀ l, list_at [] l -∗ Φ l) ⊢ hwp list_create Φ.
Proof.
  iIntros "HΦ". iApply hwp_new. iIntros (l) "Hl". iApply "HΦ". iExists _, []. iFrame "Hl".
  iSplit; [iPureIntro; apply plist_create_repr|done].
Qed.

Section lists.
Context (elem_clone : loc → M mem loc) (elem_destroy : loc → M mem unit).

Lemma hwp_append_deep V p ls e (Φ : plist loc → hpropI) : clones elem_clone V → plist_repr p ls →
  V e ∗ (∀ p' e', <affine> ⌜plist_repr p' (ls ++ [e'])⌝ -∗ V e -∗ V e' -∗ Φ p') ⊢
  hwp (Slist.list_append elem_clone p e) Φ.
Proof.
  iIntros (HV Hp) "[He HΦ]". iApply hwp_bind. iApply HV. iFrame "He". iIntros (e') "He He'".
  destruct (plist_append_repr p ls e' Hp) as (p' & E & Hp').
  iApply (hwp_lift _ p' _ E). by iApply ("HΦ" with "[//] He He'").
Qed.

Lemma hwp_list_append Ps V l e (Φ : unit → hpropI) : clones elem_clone V →
  list_at Ps l ∗ V e ∗ (list_at (Ps ++ [V]) l -∗ V e -∗ Φ tt) ⊢ hwp (list_append elem_clone l e) Φ.
Proof.
  iIntros (HV) "(Hl & He & HΦ)". iDestruct "Hl" as (p ls) "(Hl & %Hp & Hls)".
  iApply hwp_bind. iApply hwp_get_plist. iFrame "Hl". iIntros "Hl".
  iApply hwp_bind. iApply (hwp_append_deep V p ls e _ HV Hp). iFrame "He". iIntros (p' e') "%Hp' He He'".
  iApply hwp_set. iFrame "Hl". iIntros "Hl". iApply ("HΦ" with "[Hl Hls He'] He").
  iExists p', (ls ++ [e']). iFrame "Hl". iSplitR; [done|]. iApply (big_sepL2_app with "Hls"). by iFrame.
Qed.

Lemma hwp_clone_loop Ps : (∀ V, V ∈ Ps → clones elem_clone V) → ∀ ls q acc (Φ : plist loc → hpropI),
  plist_repr q acc →
  ([∗ list] V;l ∈ Ps;ls, V l) ∗
  (∀ q' new, <affine> ⌜plist_repr q' (acc ++ new)⌝ -∗ ([∗ list] V;l ∈ Ps;ls, V l) -∗
     ([∗ list] V;l ∈ Ps;new, V l) -∗ Φ q') ⊢
  hwp (mfold (λ a c, Slist.list_append elem_clone c a) ls q) Φ.
Proof.
  induction Ps as [|V Ps IH]; iIntros (HV ls q acc Φ Hq) "[Hls HΦ]".
  - iDestruct (big_sepL2_nil_inv_l with "Hls") as %->.
    iApply hwp_ret. iApply ("HΦ" $! q []); [by rewrite app_nil_r|done|done].
  - iDestruct (big_sepL2_cons_inv_l with "Hls") as (l ls' ->) "[Hl Hls]".
    iApply hwp_bind. iApply (hwp_append_deep V q acc l); [apply HV; left|done|]. iFrame "Hl".
    iIntros (q' l') "%Hq' Hl Hl'".
    iApply (IH (λ V' Hin, HV V' (list_elem_of_further _ _ _ Hin)) ls' q' (acc ++ [l']) Φ Hq').
    iFrame "Hls". iIntros (q'' new) "%Hq'' Hls Hnew".
    iApply ("HΦ" $! q'' (l' :: new) with "[] [Hl Hls] [Hl' Hnew]").
    + iPureIntro. by rewrite <-app_assoc in Hq''.
    + simpl. iFrame.
    + simpl. iFrame.
Qed.

Lemma list_clone_clones Ps : (∀ V, V ∈ Ps → clones elem_clone V) →
  clones (list_clone elem_clone) (list_at Ps).
Proof.
  iIntros (HV l Φ) "[Hl HΦ]". iDestruct "Hl" as (p ls) "(Hl & %Hp & Hls)".
  iApply hwp_bind. iApply hwp_get_plist. iFrame "Hl". iIntros "Hl". iApply hwp_bind.
  iApply (hwp_ext (mfold (λ a c, Slist.list_append elem_clone c a) ls plist_create)).
  { intros w. unfold Slist.list_clone, plist_clone_deep, plist_len. destruct Hp as (Hc & Hn & Hp).
    rewrite Hn. symmetry. apply (for_range_mfold (plist_get p)). intros i a Hi.
    by apply plist_get_lookup with (l := ls). }
  iApply (hwp_clone_loop Ps HV ls plist_create []); [done|]. iFrame "Hls".
  iIntros (q' new) "%Hq Hls Hnew". iApply hwp_new. iIntros (l') "Hl'".
  iApply ("HΦ" with "[Hl Hls] [Hl' Hnew]").
  - iExists p, ls. by iFrame.
  - iExists q', new. by iFrame.
Qed.

Lemma hwp_destroy_loop Ps : (∀ V, V ∈ Ps → destroys elem_destroy V) → ∀ ls (Φ : unit → hpropI),
  ([∗ list] V;l ∈ Ps;ls, V l) ∗ Φ tt ⊢ hwp (mfold (λ a _, elem_destroy a) ls tt) Φ.
Proof.
  induction Ps as [|V Ps IH]; iIntros (HV ls Φ) "[Hls HΦ]".
  - iDestruct (big_sepL2_nil_inv_l with "Hls") as %->. by iApply hwp_ret.
  - iDestruct (big_sepL2_cons_inv_l with "Hls") as (l ls' ->) "[Hl Hls]".
    iApply hwp_bind. iApply (HV V (list_elem_of_here _ _)). iFrame "Hl".
    iApply (IH (λ V' Hin, HV V' (list_elem_of_further _ _ _ Hin))). iFrame.
Qed.

Lemma list_destroy_destroys Ps : (∀ V, V ∈ Ps → destroys elem_destroy V) →
  destroys (λ l, list_destroy elem_destroy (Some l)) (list_at Ps).
Proof.
  iIntros (HV l Φ) "[Hl HΦ]". iDestruct "Hl" as (p ls) "(Hl & %Hp & Hls)".
  iApply hwp_bind. iApply hwp_get_plist. iFrame "Hl". iIntros "Hl". iApply hwp_bind.
  iApply (hwp_ext (mfold (λ a _, elem_destroy a) ls tt)).
  { intros w. symmetry. by apply plist_destroy_deep_spec. }
  iApply (hwp_destroy_loop Ps HV). iFrame "Hls". iApply hwp_release. iFrame.
Qed.
End lists.

(** ** Copying and freeing *)

Ltac h_get := iApply hwp_bind; iApply hwp_get; iFrame; iIntros "Hl".
Ltac h_new l H := iApply hwp_bind; iApply hwp_new; iIntros (l) H.

Lemma hwp_clone_opt (clone : loc → M mem loc) V o (Φ : option loc → hpropI) :
  (∀ V', V = Some V' → clones clone V') →
  opt_at V o ∗ (∀ o', opt_at V o -∗ opt_at V o' -∗ Φ o') ⊢
  hwp (match o with Some l => Some <$> clone l | None => mret None end) Φ.
Proof.
  iIntros (HV) "[Ho HΦ]". destruct V as [V|], o as [l|]; simpl; try done.
  - iApply hwp_fmap. iApply (HV V eq_refl). iFrame "Ho". iIntros (l') "Hl Hl'".
    iApply ("HΦ" $! (Some l') with "Hl Hl'").
  - iApply hwp_ret. iApply ("HΦ" $! None with "Ho"). done.
Qed.

Lemma hwp_comparison_create op key value lk lv (Φ : loc → hpropI) :
  str_at key lk ∗ str_at value lv ∗
  (∀ l, str_at key lk -∗ str_at value lv -∗ filter_at (FComparison op key value) l -∗ Φ l) ⊢
  hwp (comparison_create op lk lv) Φ.
Proof.
  iIntros "(Hk & Hv & HΦ)". h_new l "Hl".
  iApply hwp_bind. iApply strdup_clones. iFrame "Hk". iIntros (lk') "Hk Hk'".
  iApply hwp_bind. iApply strdup_clones. iFrame "Hv". iIntros (lv') "Hv Hv'".
  iApply hwp_bind. iApply hwp_set. iFrame "Hl". iIntros "Hl". iApply hwp_ret.
  iApply ("HΦ" with "Hk Hv"). iExists lk', lv'. iFrame.
Qed.

Lemma hwp_present_create key lk (Φ : loc → hpropI) :
  str_at key lk ∗ (∀ l, str_at key lk -∗ filter_at (FPresent key) l -∗ Φ l) ⊢
  hwp (present_create lk) Φ.
Proof.
  iIntros "(Hk & HΦ)". h_new l "Hl".
  iApply hwp_bind. iApply strdup_clones. iFrame "Hk". iIntros (lk') "Hk Hk'".
  iApply hwp_bind. iApply hwp_set. iFrame "Hl". iIntros "Hl". iApply hwp_ret.
  iApply ("HΦ" with "Hk"). iExists lk'. iFrame.
Qed.

Lemma opt_strs_clones o V' : str_at <$> o = Some V' → clones ut_strdup V'.
Proof. destruct o; intros [= <-]. apply strdup_clones. Qed.

Lemma strs_clones ss : clones (list_clone ut_strdup) (strs_at ss).
Proof.
  apply list_clone_clones. intros V (s & -> & _)%list_elem_of_fmap. apply strdup_clones.
Qed.

Lemma strs_destroys ss : destroys (λ l, slist_destroy (Some l)) (strs_at ss).
Proof.
  apply list_destroy_destroys. intros V (s & -> & _)%list_elem_of_fmap. apply release_destroys_str.
Qed.

Lemma hwp_substring_create key i m fin lk li lm lf (Φ : loc → hpropI) :
  str_at key lk ∗ opt_at (str_at <$> i) li ∗ opt_at (strs_at <$> m) lm ∗
  opt_at (str_at <$> fin) lf ∗
  (∀ l, str_at key lk -∗ opt_at (str_at <$> i) li -∗ opt_at (strs_at <$> m) lm -∗
     opt_at (str_at <$> fin) lf -∗ filter_at (FSubstring key i m fin) l -∗ Φ l) ⊢
  hwp (substring_create lk li lm lf) Φ.
Proof.
  iIntros "(Hk & Hi & Hm & Hf & HΦ)". h_new l "Hl".
  iApply hwp_bind. iApply strdup_clones. iFrame "Hk". iIntros (lk') "Hk Hk'".
  iApply hwp_bind. iApply (hwp_clone_opt ut_strdup (str_at <$> i)); [apply opt_strs_clones|]. iFrame "Hi".
  iIntros (li') "Hi Hi'".
  iApply hwp_bind. iApply (hwp_clone_opt (list_clone ut_strdup) (strs_at <$> m)).
  { intros V. destruct m as [m|]; intros [= <-]. apply strs_clones. }
  iFrame "Hm". iIntros (lm') "Hm Hm'".
  iApply hwp_bind. iApply (hwp_clone_opt ut_strdup (str_at <$> fin)); [apply opt_strs_clones|]. iFrame "Hf".
  iIntros (lf') "Hf Hf'".
  iApply hwp_bind. iApply hwp_set. iFrame "Hl". iIntros "Hl". iApply hwp_ret.
  iApply ("HΦ" with "Hk Hi Hm Hf"). iExists lk', li', lm', lf'. iFrame.
Qed.

Section operands.
Context (clone : loc → M mem loc) (destroy : loc → M mem unit).

Lemma hwp_not_create f lf (Φ : loc → hpropI) : clones clone (filter_at f) →
  filter_at f lf ∗ (∀ l, filter_at f lf -∗ filter_at (FNot f) l -∗ Φ l) ⊢
  hwp (not_create clone lf) Φ.
Proof.
  iIntros (Hf) "[Hf HΦ]". h_new l "Hl". iApply hwp_bind. iApply Hf. iFrame "Hf".
  iIntros (lf') "Hf Hf'". iApply hwp_bind. iApply hwp_set. iFrame "Hl". iIntros "Hl".
  iApply hwp_ret. iApply ("HΦ" with "Hf"). iExists lf'. iFrame.
Qed.

Lemma hwp_composite_create op fs lo (Φ : loc → hpropI) :
  (∀ f, f ∈ fs → clones clone (filter_at f)) →
  list_at (map filter_at fs) lo ∗
  (∀ l, list_at (map filter_at fs) lo -∗ filter_at (FComposite op fs) l -∗ Φ l) ⊢
  hwp (composite_create clone op lo) Φ.
Proof.
  iIntros (Hfs) "[Ho HΦ]". h_new l "Hl". iApply hwp_bind.
  iApply (list_clone_clones clone (map filter_at fs)).
  { intros V (f & -> & Hf)%list_elem_of_fmap. by apply Hfs. }
  iFrame "Ho". iIntros (lo') "Ho Ho'". iApply hwp_bind. iApply hwp_set. iFrame "Hl".
  iIntros "Hl". iApply hwp_ret. iApply ("HΦ" with "Ho"). iExists lo'. iFrame.
Qed.
End operands.

(** *** Levels *)

Fixpoint depth (f : filter_t) : nat :=
  match f with
  | FNot operand => S (depth operand)
  | FComposite _ operands => S (list_max (map depth operands))
  | _ => 1
  end.

Lemma depth_operand f fs : f ∈ fs → depth f ≤ list_max (map depth fs).
Proof.
  intros Hf. pose proof (proj1 (list_max_le (map depth fs) _) (Nat.le_refl _)) as H.
  rewrite Forall_map, Forall_forall in H. by apply H.
Qed.

Lemma clone_levels_clones n : ∀ f, depth f ≤ n → clones (clone_levels n) (filter_at f).
Proof.
  induction n as [|n IH]; intros f Hd l Φ; [destruct f; simpl in Hd; lia|].
  destruct f as [op key v|key|key i m fin|f|op fs]; simpl in Hd |- *; iIntros "[Hf HΦ]".
  - iDestruct "Hf" as (lk lv) "(Hl & Hk & Hv)". h_get. h_get.
    iApply hwp_comparison_create. iFrame "Hk Hv". iIntros (l') "Hk Hv Hl'".
    iApply ("HΦ" with "[Hl Hk Hv] Hl'"). iExists lk, lv. iFrame.
  - iDestruct "Hf" as (lk) "(Hl & Hk)". h_get. h_get.
    iApply hwp_present_create. iFrame "Hk". iIntros (l') "Hk Hl'".
    iApply ("HΦ" with "[Hl Hk] Hl'"). iExists lk. iFrame.
  - iDestruct "Hf" as (lk li lm lf) "(Hl & Hk & Hi & Hm & Hf)". h_get. h_get.
    iApply hwp_substring_create. iFrame "Hk Hi Hm Hf". iIntros (l') "Hk Hi Hm Hf Hl'".
    iApply ("HΦ" with "[Hl Hk Hi Hm Hf] Hl'"). iExists lk, li, lm, lf. iFrame.
  - iDestruct "Hf" as (lf) "(Hl & Hf)". h_get. h_get.
    iApply (hwp_not_create _ f); [apply IH; lia|]. iFrame "Hf". iIntros (l') "Hf Hl'".
    iApply ("HΦ" with "[Hl Hf] Hl'"). iExists lf. iFrame.
  - iDestruct "Hf" as (lo) "(Hl & Ho)". h_get. h_get.
    iApply (hwp_composite_create _ op fs).
    { intros f Hf. apply IH. pose proof (depth_operand _ _ Hf). lia. }
    iFrame "Ho". iIntros (l') "Ho Hl'". iApply ("HΦ" with "[Hl Ho] Hl'"). iExists lo. iFrame.
Qed.

Lemma destroy_levels_destroys n : ∀ f, depth f ≤ n → destroys (destroy_levels n) (filter_at f).
Proof.
  induction n as [|n IH]; intros f Hd l Φ; [destruct f; simpl in Hd; lia|].
  destruct f as [op key v|key|key i m fin|f|op fs]; simpl in Hd |- *; iIntros "[Hf HΦ]".
  - iDestruct "Hf" as (lk lv) "(Hl & Hk & Hv)". h_get. h_get.
    do 2 (iApply hwp_bind; iApply hwp_release; iFrame). iApply hwp_release. iFrame.
  - iDestruct "Hf" as (lk) "(Hl & Hk)". h_get. h_get.
    iApply hwp_bind. iApply hwp_release. iFrame. iApply hwp_release. iFrame.
  - iDestruct "Hf" as (lk li lm lf) "(Hl & Hk & Hi & Hm & Hf)". h_get. h_get.
    iApply hwp_bind. iApply hwp_release. iFrame "Hk".
    iApply hwp_bind. iApply (hwp_free_opt (str_at <$> i)).
    { intros V. destruct i; intros [= <-]. apply release_destroys_str. }
    iFrame "Hi". iApply hwp_bind.
    iApply (hwp_wand _ (λ _, emp%I)). iSplitL "Hm".
    { destruct m as [m|], lm as [lm|]; simpl; try done; [|by iApply hwp_ret].
      iApply (strs_destroys m lm). by iFrame. }
    iIntros (_) "_". iApply hwp_bind. iApply (hwp_free_opt (str_at <$> fin)).
    { intros V. destruct fin; intros [= <-]. apply release_destroys_str. }
    iFrame "Hf". iApply hwp_release. iFrame.
  - iDestruct "Hf" as (lf) "(Hl & Hf)". h_get. h_get.
    iApply hwp_bind. iApply (IH f); [lia|]. iFrame "Hf". iApply hwp_release. iFrame.
  - iDestruct "Hf" as (lo) "(Hl & Ho)". h_get. h_get. iApply hwp_bind.
    iApply (list_destroy_destroys (destroy_levels n) (map filter_at fs)).
    { intros V (f & -> & Hf)%list_elem_of_fmap. apply IH. pose proof (depth_operand _ _ Hf). lia. }
    iFrame "Ho". iApply hwp_release. iFrame.
Qed.

(** *** As many levels as there are objects *)

(** What the assertion describes has at least [n] objects. *)
Definition sized (P : hpropI) (n : nat) : Prop := ∀ h, holds P h → n ≤ size h.

Lemma sized_mono (P Q : hpropI) n : (P ⊢ Q) → sized Q n → sized P n.
Proof. intros [H] HQ h Hp. by apply HQ, H. Qed.

Lemma sized_sep (P Q : hpropI) m n : sized P m → sized Q n → sized (P ∗ Q) (m + n).
Proof.
  intros HP HQ h (h1 & h2 & -> & D & H1 & H2). rewrite map_size_disj_union by done.
  pose proof (HP _ H1). pose proof (HQ _ H2). lia.
Qed.

Lemma sized_exist {A} (Φ : A → hpropI) n : (∀ a, sized (Φ a) n) → sized (∃ a, Φ a) n.
Proof. intros H h [a Ha]. by apply (H a). Qed.

Lemma sized_pts l c : sized (l ↦ c) 1.
Proof. intros h ->. by rewrite map_size_singleton. Qed.

Lemma sized_0 (P : hpropI) : sized P 0.
Proof. intros h _. lia. Qed.

Lemma sized_le (P : hpropI) m n : m ≤ n → sized P n → sized P m.
Proof. intros Hle H h Hp. specialize (H h Hp). lia. Qed.

Lemma sized_list fs ls : Forall (λ f, ∀ l, sized (filter_at f l) (depth f)) fs →
  sized ([∗ list] V;l ∈ map filter_at fs;ls, V l) (list_max (map depth fs)).
Proof.
  intros H. revert ls. induction H as [|f fs Hf _ IH]; intros ls; [apply sized_0|].
  destruct ls as [|l ls]; [by intros h []|]. simpl.
  eapply sized_le; [|apply sized_sep; [apply Hf|apply IH]]. lia.
Qed.

Lemma filter_sized f : ∀ l, sized (filter_at f l) (depth f).
Proof.
  induction f as [op k v|k|k i m fin|f IH|op fs IH] using filter_nested_ind; intros l; simpl.
  - do 2 (apply sized_exist; intros ?). eapply (sized_sep _ _ 1 0); [apply sized_pts|apply sized_0].
  - apply sized_exist. intros ?. eapply (sized_sep _ _ 1 0); [apply sized_pts|apply sized_0].
  - do 4 (apply sized_exist; intros ?). eapply (sized_sep _ _ 1 0); [apply sized_pts|apply sized_0].
  - apply sized_exist. intros lo. apply (sized_sep _ _ 1); [apply sized_pts|apply IH].
  - apply sized_exist. intros lo. apply (sized_sep _ _ 1); [apply sized_pts|].
    do 2 (apply sized_exist; intros ?). apply (sized_sep _ _ 0); [apply sized_0|].
    apply (sized_sep _ _ 0); [apply sized_0|]. by apply sized_list.
Qed.

Lemma hwp_with_depth {A} (m : nat → M mem A) (P Q : hpropI) d (Φ : A → hpropI) : sized P d →
  (∀ n, d ≤ n → P ∗ Q ⊢ hwp (m n) Φ) → P ∗ Q ⊢ hwp (with_depth m) Φ.
Proof.
  intros HP Hm. apply entails_holds. intros h H w frame E D W. unfold with_depth.
  assert (Hd : d ≤ S (size (cells w))); [|by apply (proj1 (entails_holds _ _) (Hm _ Hd) h H w frame)].
  destruct H as (h1 & h2 & -> & D12 & H1 & _). apply map_disjoint_union_l in D as [D1 D2].
  rewrite E, !map_size_disj_union; [|done|by apply map_disjoint_union_l].
  pose proof (HP _ H1). lia.
Qed.

Lemma filter_clone_clones f : clones filter_clone (filter_at f).
Proof.
  intros l Φ. apply (hwp_with_depth _ _ _ (depth f)); [apply filter_sized|].
  intros n Hn. by apply clone_levels_clones.
Qed.

Lemma filter_destroy_destroys f : destroys (λ l, filter_destroy (Some l)) (filter_at f).
Proof.
  intros l Φ. apply (hwp_with_depth _ _ _ (depth f)); [apply filter_sized|].
  intros n Hn. by apply destroy_levels_destroys.
Qed.

(** A filter behind a pointer that may be null. *)
Abbreviation filter_opt r := (opt_at (filter_at <$> r)).

Lemma hwp_filter_destroy r o (Φ : unit → hpropI) :
  filter_opt r o ∗ Φ tt ⊢ hwp (filter_destroy o) Φ.
Proof.
  iIntros "[Ho HΦ]". destruct r as [f|], o as [l|]; simpl; try done.
  - iApply (filter_destroy_destroys f l). iFrame.
  - iApply hwp_ret. iApply "HΦ".
Qed.
