(* ===== verification/FilterParseMem.v ===== *)
(** * The filter parser in memory (src/sd/filter.c, from [struct input] on)

    The parser of FilterParse.v with the objects that it allocates: the strings
    it reads, the lists of operands, the filters that it copies into others, and
    what it frees on each of its ways out.  [filter_parse_owns_result] shows
    that it returns what the parser of FilterParse.v returns, that the caller
    owns the filter it gets and nothing else, and that nothing is left behind
    when there is none. *)

From S2P Require Import Prelude CLib Mem Plist Sbuf Filter FilterParse Heap Cells FilterMem.
From iris.proofmode Require Import proofmode.

#[local] Unset SsrRewrite.

(** ** Objects of the parser *)

(** A function of the input, which [inp] points to. *)
Definition with_input {A} (inp : loc) (f : M input A) : M mem A :=
  c ← get inp;
  match c with
  | CInput i => '(a, i') ← lift (f i); _ ← set inp (CInput i'); mret a
  | _ => bad_cell
  end.

Definition sbuf_create : M mem loc := new (CSbuf Sbuf.sbuf_create).

Definition sbuf_append_c (sbuf : loc) (c : ascii) : M mem unit :=
  o ← get sbuf;
  match o with
  | CSbuf sb => sb' ← lift (Sbuf.sbuf_append_c sb c); set sbuf (CSbuf sb')
  | _ => bad_cell
  end.

(** The buffer is the string that is returned. *)
Definition sbuf_morph (sbuf : loc) : M mem loc :=
  o ← get sbuf;
  match o with
  | CSbuf sb => str ← lift (Sbuf.sbuf_morph sb); _ ← release sbuf; new (CStr str)
  | _ => bad_cell
  end.

Definition sbuf_destroy (sbuf : loc) : M mem unit := release sbuf.

(** ** Parsing *)

Fixpoint parse_str_loop (fuel : nat) (inp : loc) (escaped : bool) (result : loc)
    : M mem (option loc) :=
  let err := _ ← sbuf_destroy result; mret None in
  match fuel with
  | O => fault_with OutOfFuel
  | S fuel' =>
      current ← with_input inp input_current;
      match current with
      | None => err
      | Some c =>
          let special := is_special c in
          if escaped then
            if negb special then err
            else
              rc ← with_input inp input_skip;
              if bool_decide (rc < 0)%Z then err
              else
                _ ← sbuf_append_c result c;
                parse_str_loop fuel' inp false result
          else if decide (c = ESCAPE) then
            rc ← with_input inp input_skip;
            if bool_decide (rc < 0)%Z then err
            else parse_str_loop fuel' inp true result
          else if special then Some <$> sbuf_morph result
          else
            _ ← sbuf_append_c result c;
            rc ← with_input inp input_skip;
            if bool_decide (rc < 0)%Z then err
            else parse_str_loop fuel' inp false result
      end
  end.

Definition parse_str (inp : loc) : M mem (option loc) :=
  result ← sbuf_create;
  fuel ← with_input inp (gets fuel_left);
  parse_str_loop fuel inp false result.

Definition parse_int (inp : loc) : M mem (option Z) :=
  value_s ← parse_str inp;
  r ← match value_s with
      | None => mret None
      | Some value_s =>
          s ← get_str value_s;
          mret (match s with
                | [] => None
                | c :: _ =>
                    if isspace c then None
                    else let '(value, endptr) := strtoll s in
                         match endptr with [] => Some value | _ => None end
                end)
      end;
  _ ← ut_free value_s;
  mret r.

(** The loop of [parse_substring_and_present]: whether it is left by [break],
    and the variables [intermediate], [final] and [next_value] then. *)
Fixpoint substring_loop (fuel : nat) (inp : loc) (intermediate next_value : option loc)
    : M mem (bool * option loc * option loc * option loc) :=
  match fuel with
  | O => fault_with OutOfFuel
  | S fuel' =>
      _ ← ut_free next_value;
      next_value ← parse_str inp;
      match next_value with
      | None => mret (false, intermediate, None, None)
      | Some value =>
          is_any ← with_input inp (input_is_current ANY);
          if bool_decide (is_any < 0)%Z then mret (false, intermediate, None, next_value)
          else if bool_decide (is_any ≠ 0)%Z then
            list ← match intermediate with Some list => mret list | None => slist_create end;
            s ← get_str value;
            if bool_decide (strlen s = 0) then mret (false, Some list, None, next_value)
            else
              _ ← slist_append list value;
              _ ← with_input inp input_skip;
              substring_loop fuel' inp (Some list) next_value
          else
            s ← get_str value;
            final ← (if bool_decide (0 < strlen s) then Some <$> ut_strdup value else mret None);
            mret (true, intermediate, final, next_value)
      end
  end.

Definition parse_substring_and_present (inp key first_part_value : loc) : M mem (option loc) :=
  s ← get_str first_part_value;
  let initial := if bool_decide (0 < strlen s) then Some first_part_value else None in
  fuel ← with_input inp (gets fuel_left);
  '(found, intermediate, final, next_value) ← substring_loop fuel inp None None;
  filter ← (if (found : bool) then
              match initial, intermediate, final with
              | None, None, None => Some <$> present_create key
              | _, _, _ => Some <$> substring_create key initial intermediate final
              end
            else mret None);
  _ ← slist_destroy intermediate;
  _ ← ut_free final;
  _ ← ut_free next_value;
  mret filter.

Definition parse_equal (inp key : loc) : M mem (option loc) :=
  rc ← with_input inp (input_expect EQUAL);
  if bool_decide (rc < 0)%Z then mret None
  else
    value ← parse_str inp;
    match value with
    | None => mret None
    | Some v =>
        is_any ← with_input inp (input_is_current ANY);
        filter ← (if bool_decide (is_any < 0)%Z then mret None
                  else if bool_decide (is_any ≠ 0)%Z then
                    _ ← with_input inp input_skip;
                    parse_substring_and_present inp key v
                  else Some <$> equal_create key v);
        _ ← ut_free value;
        mret filter
    end.

Definition parse_greater_and_less_than (inp key : loc) (op : ascii)
    (create : loc → Z → M mem loc) : M mem (option loc) :=
  rc ← with_input inp (input_expect op);
  if bool_decide (rc < 0)%Z then mret None
  else
    value ← parse_int inp;
    match value with None => mret None | Some value => Some <$> create key value end.

Definition parse_simple (inp : loc) : M mem (option loc) :=
  key ← parse_str inp;
  match key with
  | None => mret None
  | Some k =>
      s ← get_str k;
      filter ←
        (if bool_decide (strlen s = 0) then mret None
         else
           current ← with_input inp input_current;
           match current with
           | None => mret None
           | Some c =>
               if decide (c = EQUAL) then parse_equal inp k
               else if decide (c = GREATER_THAN) then
                 parse_greater_and_less_than inp k GREATER_THAN greater_than_create
               else if decide (c = LESS_THAN) then
                 parse_greater_and_less_than inp k LESS_THAN less_than_create
               else mret None
           end);
      _ ← ut_free key;
      mret filter
  end.

Section recursive.
(** The recursive call. *)
Context (parse : loc → M mem (option loc)).

Definition parse_not (inp : loc) : M mem (option loc) :=
  rc ← with_input inp (input_expect NOT);
  if bool_decide (rc < 0)%Z then mret None
  else
    rc ← with_input inp (input_expect BEGIN_EXPR);
    if bool_decide (rc < 0)%Z then mret None
    else
      operand ← parse inp;
      match operand with
      | None => mret None
      | Some o =>
          rc ← with_input inp (input_expect END_EXPR);
          if bool_decide (rc < 0)%Z then
            _ ← filter_destroy operand;
            mret None
          else
            not ← not_create filter_clone o;
            _ ← filter_destroy operand;
            mret (Some not)
      end.

Fixpoint composite_loop (create : loc → M mem loc) (fuel : nat) (inp operands : loc)
    : M mem (option loc) :=
  let err := _ ← flist_destroy (Some operands); mret None in
  match fuel with
  | O => fault_with OutOfFuel
  | S fuel' =>
      current ← with_input inp input_current;
      match current with
      | None => err
      | Some c =>
          if decide (c = BEGIN_EXPR) then
            rc ← with_input inp input_skip;
            if bool_decide (rc < 0)%Z then err
            else
              operand ← parse inp;
              match operand with
              | None => err
              | Some o =>
                  _ ← flist_append operands o;
                  _ ← filter_destroy operand;
                  rc ← with_input inp (input_expect END_EXPR);
                  if bool_decide (rc < 0)%Z then err
                  else composite_loop create fuel' inp operands
              end
          else if decide (c = END_EXPR) then
            n ← flist_len operands;
            if bool_decide (n < 2) then err
            else
              filter ← create operands;
              _ ← flist_destroy (Some operands);
              mret (Some filter)
          else err
      end
  end.

Definition parse_composite (inp : loc) (op : ascii) (create : loc → M mem loc) (fuel : nat)
    : M mem (option loc) :=
  _ ← with_input inp (input_expect op);
  operands ← flist_create;
  composite_loop create fuel inp operands.
End recursive.

Fixpoint parse (fuel : nat) (inp : loc) : M mem (option loc) :=
  match fuel with
  | O => fault_with OutOfFuel
  | S fuel' =>
      current ← with_input inp input_current;
      match current with
      | None => mret None
      | Some c =>
          if decide (c = AND) then parse_composite (parse fuel') inp AND and_create fuel'
          else if decide (c = OR) then parse_composite (parse fuel') inp OR or_create fuel'
          else if decide (c = NOT) then parse_not (parse fuel') inp
          else parse_simple inp
      end
  end.

Definition filter_parse (s : cstr) : M mem (option loc) :=
  inp ← new (CInput (Input s 0));
  rc ← with_input inp (input_expect BEGIN_EXPR);
  r ← (if bool_decide (rc < 0)%Z then _ ← filter_destroy None; mret None
       else
         filter ← parse (S (strlen s)) inp;
         match filter with
         | None => _ ← filter_destroy None; mret None
         | Some _ =>
             rc ← with_input inp (input_expect END_EXPR);
             if bool_decide (rc < 0)%Z then _ ← filter_destroy filter; mret None
             else
               left ← with_input inp input_left;
               if bool_decide (0 < left) then _ ← filter_destroy filter; mret None
               else mret filter
         end);
  _ ← release inp;
  mret r.

Definition filter_is_valid (s : cstr) : M mem bool :=
  filter ← filter_parse s;
  _ ← filter_destroy filter;
  mret (match filter with Some _ => true | None => false end).

(** ** What the parser returns, and owns *)

Lemma hwp_with_input {A} inp (f : M input A) i a i' (Φ : A → hpropI) : f i = Ok (a, i') →
  inp ↦ CInput i ∗ (inp ↦ CInput i' -∗ Φ a) ⊢ hwp (with_input inp f) Φ.
Proof.
  iIntros (Hf) "[Hi HΦ]". iApply hwp_bind. iApply hwp_get. iFrame "Hi". iIntros "Hi".
  iApply hwp_bind. iApply (hwp_lift _ (a, i')); [done|]. iApply hwp_bind. iApply hwp_set.
  iFrame "Hi". iIntros "Hi". iApply hwp_ret. by iApply "HΦ".
Qed.

Lemma hwp_sbuf_append_c l sb s c (Φ : unit → hpropI) : sbuf_repr sb s →
  l ↦ CSbuf sb ∗ (∀ sb', <affine> ⌜sbuf_repr sb' (append_c s c)⌝ -∗ l ↦ CSbuf sb' -∗ Φ tt) ⊢
  hwp (sbuf_append_c l c) Φ.
Proof.
  iIntros (Hs) "[Hl HΦ]". iApply hwp_bind. iApply hwp_get. iFrame "Hl". iIntros "Hl".
  destruct (sbuf_append_c_repr sb s c Hs) as (sb' & E & Hs').
  iApply hwp_bind. iApply (hwp_lift _ sb' _ E). iApply hwp_set. iFrame "Hl". iIntros "Hl".
  by iApply ("HΦ" with "[//] Hl").
Qed.

Lemma hwp_sbuf_morph l sb s (Φ : loc → hpropI) : sbuf_repr sb s → nul_free s →
  l ↦ CSbuf sb ∗ (∀ l', str_at s l' -∗ Φ l') ⊢ hwp (sbuf_morph l) Φ.
Proof.
  iIntros (Hs Hn) "[Hl HΦ]". iApply hwp_bind. iApply hwp_get. iFrame "Hl". iIntros "Hl".
  iApply hwp_bind. iApply (hwp_lift _ s); [by apply sbuf_morph_repr|].
  iApply hwp_bind. iApply hwp_release. iFrame "Hl". by iApply hwp_new.
Qed.

Lemma input_current_Ok i r i' : input_current i = Ok (r, i') → i' = i ∧ r ≠ Some NUL.
Proof.
  unfold input_current. destruct (char_at i) as [c|]; [|done]. simpl.
  case_decide; intros [= <- <-]; [done|]. split; [done|]. congruence.
Qed.

(** A string, or a null pointer. *)
Abbreviation str_opt r := (opt_at (str_at <$> r)).

Lemma nul_free_snoc s c : nul_free s → c ≠ NUL → nul_free (append_c s c).
Proof. unfold nul_free, append_c. set_solver. Qed.

Lemma hwp_parse_str_loop fuel : ∀ i escaped s sb l inp r i' (Φ : option loc → hpropI),
  FilterParse.parse_str_loop fuel escaped s i = Ok (r, i') → sbuf_repr sb s → nul_free s →
  inp ↦ CInput i ∗ l ↦ CSbuf sb ∗ (∀ o, inp ↦ CInput i' -∗ str_opt r o -∗ Φ o) ⊢
  hwp (parse_str_loop fuel inp escaped l) Φ.
Proof.
  induction fuel as [|fuel IH]; intros i escaped s sb l inp r i' Φ E Hs Hn; [done|].
  iIntros "(Hi & Hl & HΦ)". simpl in E |- *.
  assert (Herr : ∀ j, l ↦ CSbuf sb ∗ inp ↦ CInput j ∗ (∀ o, inp ↦ CInput j -∗ str_opt None o -∗ Φ o) ⊢
    hwp (_ ← sbuf_destroy l; mret None) Φ).
  { intros j. iIntros "(Hl & Hi & HΦ)". iApply hwp_bind. iApply hwp_release. iFrame "Hl".
    iApply hwp_ret. iApply ("HΦ" with "Hi"). done. }
  apply M_bind_Ok in E as (cur & i1 & E1 & E). pose proof (input_current_Ok _ _ _ E1) as [-> Hc].
  iApply hwp_bind. iApply (hwp_with_input _ _ _ _ _ _ E1). iFrame "Hi". iIntros "Hi".
  destruct cur as [c|]; [|injection E as <- <-; iApply Herr; iFrame].
  assert (Hc' : c ≠ NUL) by congruence. destruct escaped.
  - destruct (is_special c); simpl in E |- *; [|injection E as <- <-; iApply Herr; iFrame].
    apply M_bind_Ok in E as (rc & i2 & E2 & E).
    iApply hwp_bind. iApply (hwp_with_input _ _ _ _ _ _ E2). iFrame "Hi". iIntros "Hi".
    destruct (bool_decide (rc < 0)%Z); [injection E as <- <-; iApply Herr; iFrame|].
    iApply hwp_bind. iApply (hwp_sbuf_append_c _ _ _ _ _ Hs). iFrame "Hl". iIntros (sb') "%Hs' Hl".
    iApply (IH _ _ _ _ _ _ _ _ _ E Hs' (nul_free_snoc _ _ Hn Hc')). iFrame.
  - destruct (decide (c = ESCAPE)).
    + apply M_bind_Ok in E as (rc & i2 & E2 & E).
      iApply hwp_bind. iApply (hwp_with_input _ _ _ _ _ _ E2). iFrame "Hi". iIntros "Hi".
      destruct (bool_decide (rc < 0)%Z); [injection E as <- <-; iApply Herr; iFrame|].
      iApply (IH _ _ _ _ _ _ _ _ _ E Hs Hn). iFrame.
    + destruct (is_special c).
      * injection E as <- <-. iApply hwp_fmap. iApply (hwp_sbuf_morph _ _ _ _ Hs Hn). iFrame "Hl".
        iIntros (l') "Hl'". iApply ("HΦ" $! (Some l') with "Hi Hl'").
      * apply M_bind_Ok in E as (rc & i2 & E2 & E).
        iApply hwp_bind. iApply (hwp_sbuf_append_c _ _ _ _ _ Hs). iFrame "Hl". iIntros (sb') "%Hs' Hl".
        iApply hwp_bind. iApply (hwp_with_input _ _ _ _ _ _ E2). iFrame "Hi". iIntros "Hi".
        destruct (bool_decide (rc < 0)%Z).
        { injection E as <- <-. iApply hwp_bind. iApply hwp_release. iFrame "Hl". iApply hwp_ret.
          iApply ("HΦ" with "Hi"). done. }
        iApply (IH _ _ _ _ _ _ _ _ _ E Hs' (nul_free_snoc _ _ Hn Hc')). iFrame.
Qed.

Lemma hwp_parse_str i inp r i' (Φ : option loc → hpropI) : FilterParse.parse_str i = Ok (r, i') →
  inp ↦ CInput i ∗ (∀ o, inp ↦ CInput i' -∗ str_opt r o -∗ Φ o) ⊢ hwp (parse_str inp) Φ.
Proof.
  iIntros (E) "[Hi HΦ]". iApply hwp_bind. iApply hwp_new. iIntros (l) "Hl".
  iApply hwp_bind. iApply (hwp_with_input _ _ i (fuel_left i) i); [done|]. iFrame "Hi". iIntros "Hi".
  iApply (hwp_parse_str_loop _ _ _ _ _ _ _ _ _ _ E Sbuf.sbuf_create_repr); [apply not_elem_of_nil|].
  iFrame.
Qed.

Lemma hwp_free_str r o (Φ : unit → hpropI) : str_opt r o ∗ Φ tt ⊢ hwp (ut_free o) Φ.
Proof.
  iIntros "[Ho HΦ]". iApply (hwp_free_opt (str_at <$> r)); [|by iFrame].
  intros V. destruct r; intros [= <-]. apply release_destroys_str.
Qed.

Lemma hwp_parse_int i inp r i' (Φ : option Z → hpropI) : FilterParse.parse_int i = Ok (r, i') →
  inp ↦ CInput i ∗ (inp ↦ CInput i' -∗ Φ r) ⊢ hwp (parse_int inp) Φ.
Proof.
  iIntros (E) "[Hi HΦ]". apply M_bind_Ok in E as (s & i1 & E1 & [= <- <-]).
  iApply hwp_bind. iApply (hwp_parse_str _ _ _ _ _ E1). iFrame "Hi". iIntros (o) "Hi Ho".
  iApply hwp_bind. destruct s as [s|], o as [l|]; simpl; try done.
  - iApply hwp_bind. iApply hwp_get_str. iFrame "Ho". iIntros "Ho". iApply hwp_ret.
    iApply hwp_bind. iApply hwp_release. iFrame "Ho". iApply hwp_ret. by iApply "HΦ".
  - iApply hwp_ret. iApply hwp_bind. iApply hwp_ret. iApply hwp_ret. by iApply "HΦ".
Qed.

(** The variables of the loop, when it is left. *)
Definition loop_left (r : option (option (list cstr) * option cstr)) (found : bool)
    (lm lf : option loc) : hpropI :=
  match r with
  | Some (m, fin) => <affine> ⌜found = true⌝ ∗ opt_at (strs_at <$> m) lm ∗ str_opt fin lf
  | None => <affine> ⌜found = false⌝ ∗ <affine> ⌜lf = None⌝ ∗ ∃ m, opt_at (strs_at <$> m) lm
  end.

Lemma hwp_intermediate m lm (Φ : loc → hpropI) :
  opt_at (strs_at <$> m) lm ∗ (∀ l, strs_at (default [] m) l -∗ Φ l) ⊢
  hwp (match lm with Some list => mret list | None => slist_create end) Φ.
Proof.
  iIntros "[Hm HΦ]". destruct m as [m|], lm as [l|]; simpl; try done.
  - iApply hwp_ret. by iApply "HΦ".
  - iApply hwp_list_create. iIntros (l) "Hl". by iApply "HΦ".
Qed.

Lemma hwp_slist_append ss l s e (Φ : unit → hpropI) :
  strs_at ss l ∗ str_at s e ∗ (strs_at (ss ++ [s]) l -∗ str_at s e -∗ Φ tt) ⊢
  hwp (slist_append l e) Φ.
Proof.
  iIntros "(Hl & He & HΦ)". iApply (hwp_list_append ut_strdup _ (str_at s)); [apply strdup_clones|].
  iFrame "Hl He". iIntros "Hl He". iApply ("HΦ" with "[Hl] He"). unfold strs_at. by rewrite fmap_app.
Qed.

Lemma hwp_substring_loop fuel : ∀ i inp m lm nv ln r i' (Φ : bool * option loc * option loc * option loc → hpropI),
  FilterParse.substring_loop fuel m i = Ok (r, i') →
  inp ↦ CInput i ∗ opt_at (strs_at <$> m) lm ∗ str_opt nv ln ∗
  (∀ found lm' lf ln' nv', inp ↦ CInput i' -∗ loop_left r found lm' lf -∗ str_opt nv' ln' -∗
     Φ (found, lm', lf, ln')) ⊢
  hwp (substring_loop fuel inp lm ln) Φ.
Proof.
  induction fuel as [|fuel IH]; intros i inp m lm nv ln r i' Φ E; [done|].
  iIntros "(Hi & Hm & Hn & HΦ)". simpl in E |- *.
  iApply hwp_bind. iApply hwp_free_str. iFrame "Hn".
  apply M_bind_Ok in E as (s & i1 & E1 & E).
  iApply hwp_bind. iApply (hwp_parse_str _ _ _ _ _ E1). iFrame "Hi". iIntros (o) "Hi Ho".
  destruct s as [s|], o as [l|]; simpl; try done.
  2: { injection E as <- <-. iApply hwp_ret. iApply ("HΦ" $! _ _ _ None None with "Hi [Hm]"); [|done].
       simpl. iSplitR; [done|]. iSplitR; [done|]. by iExists m. }
  apply M_bind_Ok in E as (any & i2 & E2 & E).
  iApply hwp_bind. iApply (hwp_with_input _ _ _ _ _ _ E2). iFrame "Hi". iIntros "Hi".
  destruct (bool_decide (any < 0)%Z).
  { injection E as <- <-. iApply hwp_ret. iApply ("HΦ" $! _ _ _ (Some l) (Some s) with "Hi [Hm] Ho").
    simpl. iSplitR; [done|]. iSplitR; [done|]. by iExists m. }
  destruct (bool_decide (any ≠ 0)%Z).
  - iApply hwp_bind. iApply (hwp_intermediate m). iFrame "Hm". iIntros (l') "Hm".
    iApply hwp_bind. iApply hwp_get_str. iFrame "Ho". iIntros "Ho".
    destruct (bool_decide (strlen s = 0)).
    { injection E as <- <-. iApply hwp_ret. iApply ("HΦ" $! _ _ _ (Some l) (Some s) with "Hi [Hm] Ho").
      simpl. iSplitR; [done|]. iSplitR; [done|]. by iExists (Some (default [] m)). }
    apply M_bind_Ok in E as (rc & i3 & E3 & E).
    iApply hwp_bind. iApply hwp_slist_append. iFrame "Hm Ho". iIntros "Hm Ho".
    iApply hwp_bind. iApply (hwp_with_input _ _ _ _ _ _ E3). iFrame "Hi". iIntros "Hi".
    iApply (IH _ _ _ (Some l') (Some s) (Some l) _ _ _ E). iFrame.
  - injection E as <- <-. iApply hwp_bind. iApply hwp_get_str. iFrame "Ho". iIntros "Ho".
    iApply hwp_bind. destruct (bool_decide (0 < strlen s)).
    + iApply hwp_fmap. iApply strdup_clones. iFrame "Ho". iIntros (lf) "Ho Hf". iApply hwp_ret.
      iApply ("HΦ" $! _ _ (Some lf) (Some l) (Some s) with "Hi [Hm Hf] Ho"). simpl. by iFrame.
    + iApply hwp_ret. iApply hwp_ret. iApply ("HΦ" $! _ _ None (Some l) (Some s) with "Hi [Hm] Ho").
      simpl. by iFrame.
Qed.

Lemma hwp_slist_destroy m lm (Φ : unit → hpropI) :
  opt_at (strs_at <$> m) lm ∗ Φ tt ⊢ hwp (slist_destroy lm) Φ.
Proof.
  iIntros "[Hm HΦ]". destruct m as [m|], lm as [l|]; simpl; try done.
  - iApply (strs_destroys m l). iFrame.
  - iApply hwp_ret. iApply "HΦ".
Qed.

(** The filter that is made of the parts. *)
Definition made_of (key : cstr) (i : option cstr) (m : option (list cstr)) (fin : option cstr) : filter_t :=
  match i, m, fin with
  | None, None, None => FPresent key
  | _, _, _ => FSubstring key i m fin
  end.

Lemma hwp_make key lk i li m lm fin lf (Φ : option loc → hpropI) :
  str_at key lk ∗ str_opt i li ∗ opt_at (strs_at <$> m) lm ∗ str_opt fin lf ∗
  (∀ l, str_at key lk -∗ str_opt i li -∗ opt_at (strs_at <$> m) lm -∗ str_opt fin lf -∗
     filter_at (made_of key i m fin) l -∗ Φ (Some l)) ⊢
  hwp (match li, lm, lf with
       | None, None, None => Some <$> present_create lk
       | _, _, _ => Some <$> substring_create lk li lm lf
       end) Φ.
Proof.
  iIntros "(Hk & Hi & Hm & Hf & HΦ)".
  assert (Hsub : ∀ i li m lm fin lf, str_at key lk ∗ str_opt i li ∗ opt_at (strs_at <$> m) lm ∗
    str_opt fin lf ∗ (∀ l, str_at key lk -∗ str_opt i li -∗ opt_at (strs_at <$> m) lm -∗
      str_opt fin lf -∗ filter_at (FSubstring key i m fin) l -∗ Φ (Some l)) ⊢
    hwp (Some <$> substring_create lk li lm lf) Φ).
  { intros. iIntros "(Hk & Hi & Hm & Hf & HΦ)". iApply hwp_fmap.
    iApply (hwp_substring_create key i0 m0 fin0). iFrame. }
  destruct i, li, m, lm, fin, lf; simpl; try done;
    try (iApply (Hsub (Some _) (Some _) (Some _) (Some _) (Some _) (Some _)); iFrame; done);
    try (iApply (Hsub (Some _) (Some _) (Some _) (Some _) None None); iFrame; done);
    try (iApply (Hsub (Some _) (Some _) None None (Some _) (Some _)); iFrame; done);
    try (iApply (Hsub (Some _) (Some _) None None None None); iFrame; done);
    try (iApply (Hsub None None (Some _) (Some _) (Some _) (Some _)); iFrame; done);
    try (iApply (Hsub None None (Some _) (Some _) None None); iFrame; done);
    try (iApply (Hsub None None None None (Some _) (Some _)); iFrame; done).
  iApply hwp_fmap. iApply (hwp_present_create key). iFrame "Hk". iIntros (l) "Hk Hl".
  iApply ("HΦ" with "Hk Hi Hm Hf Hl").
Qed.

Lemma substring_and_present_Ok key s i r i' :
  FilterParse.parse_substring_and_present key s i = Ok (r, i') →
  ∃ parts, FilterParse.substring_loop (fuel_left i) None i = Ok (parts, i') ∧
    r = (λ p, made_of key (if bool_decide (0 < strlen s) then Some s else None) p.1 p.2) <$> parts.
Proof.
  unfold FilterParse.parse_substring_and_present.
  destruct (FilterParse.substring_loop _ _ _) as [[parts i1]|]; [|done]. intros [= <- <-].
  exists parts. split; [done|]. destruct parts as [[m fin]|]; [|done]. simpl. unfold made_of.
  by destruct (bool_decide _), m, fin.
Qed.

Lemma hwp_substring_and_present i inp key lk s ls r i' (Φ : option loc → hpropI) :
  FilterParse.parse_substring_and_present key s i = Ok (r, i') →
  inp ↦ CInput i ∗ str_at key lk ∗ str_at s ls ∗
  (∀ o, inp ↦ CInput i' -∗ str_at key lk -∗ str_at s ls -∗ filter_opt r o -∗ Φ o) ⊢
  hwp (parse_substring_and_present inp lk ls) Φ.
Proof.
  iIntros ((parts & E & Er)%substring_and_present_Ok) "(Hi & Hk & Hs & HΦ)".
  iApply hwp_bind. iApply hwp_get_str. iFrame "Hs". iIntros "Hs".
  iApply hwp_bind. iApply (hwp_with_input _ _ i (fuel_left i) i); [done|]. iFrame "Hi". iIntros "Hi".
  iApply hwp_bind. iApply (hwp_substring_loop _ _ _ None None None None _ _ _ E). iFrame "Hi".
  iSplitR; [done|]. iSplitR; [done|]. iIntros (found lm lf ln nv) "Hi Hleft Hn".
  iApply hwp_bind.
  iApply (hwp_wand _ (λ o, str_at key lk ∗ str_at s ls ∗ (∃ m, opt_at (strs_at <$> m) lm) ∗
    (∃ fin, str_opt fin lf) ∗ filter_opt r o)%I). iSplitR "HΦ Hi Hn".
  - rewrite Er. destruct parts as [[m fin]|]; simpl; iDestruct "Hleft" as "(-> & Hm & Hf)".
    + destruct (bool_decide (0 < strlen s)).
      * iApply (hwp_make key lk (Some s) (Some ls) m lm fin lf). iFrame. iIntros (l) "$ $ Hm Hf Hl".
        simpl. iSplitL "Hm"; [by iExists m|]. iSplitL "Hf"; [by iExists fin|]. iExact "Hl".
      * iApply (hwp_make key lk None None m lm fin lf). iFrame.
        iIntros (l) "$ _ Hm Hf Hl". simpl.
        iSplitL "Hm"; [by iExists m|]. iSplitL "Hf"; [by iExists fin|]. iExact "Hl".
    + iApply hwp_ret. iFrame "Hk Hs Hf". iDestruct "Hm" as "->". iSplitR; [by iExists None|]. done.
  - iIntros (o) "(Hk & Hs & (%m & Hm) & (%fin & Hf) & Ho)".
    iApply hwp_bind. iApply (hwp_slist_destroy m). iFrame "Hm".
    iApply hwp_bind. iApply (hwp_free_str fin). iFrame "Hf".
    iApply hwp_bind. iApply (hwp_free_str nv). iFrame "Hn". iApply hwp_ret.
    iApply ("HΦ" with "Hi Hk Hs Ho").
Qed.

Lemma hwp_parse_equal i inp key lk r i' (Φ : option loc → hpropI) :
  FilterParse.parse_equal key i = Ok (r, i') →
  inp ↦ CInput i ∗ str_at key lk ∗
  (∀ o, inp ↦ CInput i' -∗ str_at key lk -∗ filter_opt r o -∗ Φ o) ⊢
  hwp (parse_equal inp lk) Φ.
Proof.
  iIntros (E) "(Hi & Hk & HΦ)". apply M_bind_Ok in E as (rc & i1 & E1 & E).
  iApply hwp_bind. iApply (hwp_with_input _ _ _ _ _ _ E1). iFrame "Hi". iIntros "Hi".
  destruct (bool_decide (rc < 0)%Z).
  { injection E as <- <-. iApply hwp_ret. iApply ("HΦ" with "Hi Hk"). done. }
  apply M_bind_Ok in E as (s & i2 & E2 & E).
  iApply hwp_bind. iApply (hwp_parse_str _ _ _ _ _ E2). iFrame "Hi". iIntros (o) "Hi Ho".
  destruct s as [s|], o as [l|]; simpl; try done.
  2: { injection E as <- <-. iApply hwp_ret. iApply ("HΦ" with "Hi Hk"). done. }
  apply M_bind_Ok in E as (any & i3 & E3 & E).
  iApply hwp_bind. iApply (hwp_with_input _ _ _ _ _ _ E3). iFrame "Hi". iIntros "Hi".
  iApply hwp_bind.
  iApply (hwp_wand _ (λ o, inp ↦ CInput i' ∗ str_at key lk ∗ str_at s l ∗ filter_opt r o)%I).
  iSplitR "HΦ".
  - destruct (bool_decide (any < 0)%Z); [injection E as <- <-; iApply hwp_ret; by iFrame|].
    destruct (bool_decide (any ≠ 0)%Z).
    + apply M_bind_Ok in E as (rc' & i4 & E4 & E).
      iApply hwp_bind. iApply (hwp_with_input _ _ _ _ _ _ E4). iFrame "Hi". iIntros "Hi".
      iApply (hwp_substring_and_present _ _ _ _ _ _ _ _ _ E). iFrame. iIntros (o) "$ $ $ $".
    + injection E as <- <-. iApply hwp_fmap. iApply (hwp_comparison_create EQUAL key s). iFrame.
      iIntros (l') "$ $ Hl". done.
  - iIntros (o) "(Hi & Hk & Hs & Ho)". iApply hwp_bind. iApply hwp_release. iFrame "Hs".
    iApply hwp_ret. iApply ("HΦ" with "Hi Hk Ho").
Qed.

(** The functions that make a comparison with a number. *)
Definition makes_icmp (create : loc → Z → M mem loc) (pure : cstr → Z → filter_t) : Prop :=
  ∀ key lk value (Φ : loc → hpropI),
    str_at key lk ∗ (∀ l, str_at key lk -∗ filter_at (pure key value) l -∗ Φ l) ⊢
    hwp (create lk value) Φ.

Lemma makes_number op : makes_icmp (λ lk value, value_s ← new (CStr (print_int64 value));
    filter ← comparison_create op lk value_s; _ ← release value_s; mret filter)
  (λ key value, FComparison op key (print_int64 value)).
Proof.
  iIntros (key lk value Φ) "[Hk HΦ]". iApply hwp_bind. iApply hwp_new. iIntros (lv) "Hv".
  iApply hwp_bind. iApply (hwp_comparison_create op key (print_int64 value)). iFrame.
  iIntros (l) "Hk Hv Hl". iApply hwp_bind. iApply hwp_release. iFrame "Hv". iApply hwp_ret.
  iApply ("HΦ" with "Hk Hl").
Qed.

Lemma hwp_parse_greater_and_less_than i inp key lk op create pure r i' (Φ : option loc → hpropI) :
  makes_icmp create pure →
  FilterParse.parse_greater_and_less_than key op pure i = Ok (r, i') →
  inp ↦ CInput i ∗ str_at key lk ∗
  (∀ o, inp ↦ CInput i' -∗ str_at key lk -∗ filter_opt r o -∗ Φ o) ⊢
  hwp (parse_greater_and_less_than inp lk op create) Φ.
Proof.
  iIntros (Hc E) "(Hi & Hk & HΦ)". apply M_bind_Ok in E as (rc & i1 & E1 & E).
  iApply hwp_bind. iApply (hwp_with_input _ _ _ _ _ _ E1). iFrame "Hi". iIntros "Hi".
  destruct (bool_decide (rc < 0)%Z).
  { injection E as <- <-. iApply hwp_ret. iApply ("HΦ" with "Hi Hk"). done. }
  apply M_bind_Ok in E as (v & i2 & E2 & [= <- <-]).
  iApply hwp_bind. iApply (hwp_parse_int _ _ _ _ _ E2). iFrame "Hi". iIntros "Hi".
  destruct v as [v|].
  - iApply hwp_fmap. iApply Hc. iFrame "Hk". iIntros (l) "Hk Hl".
    iApply ("HΦ" $! (Some l) with "Hi Hk Hl").
  - iApply hwp_ret. iApply ("HΦ" with "Hi Hk"). done.
Qed.

Lemma hwp_parse_simple i inp r i' (Φ : option loc → hpropI) :
  FilterParse.parse_simple i = Ok (r, i') →
  inp ↦ CInput i ∗ (∀ o, inp ↦ CInput i' -∗ filter_opt r o -∗ Φ o) ⊢ hwp (parse_simple inp) Φ.
Proof.
  iIntros (E) "[Hi HΦ]". apply M_bind_Ok in E as (key & i1 & E1 & E).
  iApply hwp_bind. iApply (hwp_parse_str _ _ _ _ _ E1). iFrame "Hi". iIntros (o) "Hi Ho".
  destruct key as [key|], o as [lk|]; simpl; try done.
  2: { injection E as <- <-. iApply hwp_ret. iApply ("HΦ" with "Hi"). done. }
  iApply hwp_bind. iApply hwp_get_str. iFrame "Ho". iIntros "Hk".
  iApply hwp_bind. iApply (hwp_wand _ (λ o, inp ↦ CInput i' ∗ str_at key lk ∗ filter_opt r o)%I).
  iSplitR "HΦ".
  - destruct (bool_decide (strlen key = 0)); [injection E as <- <-; iApply hwp_ret; by iFrame|].
    apply M_bind_Ok in E as (c & i2 & E2 & E).
    iApply hwp_bind. iApply (hwp_with_input _ _ _ _ _ _ E2). iFrame "Hi". iIntros "Hi".
    destruct c as [c|]; [|injection E as <- <-; iApply hwp_ret; by iFrame].
    case_decide; [iApply (hwp_parse_equal _ _ _ _ _ _ _ E); iFrame; iIntros (o) "$ $ $"|].
    case_decide; [iApply (hwp_parse_greater_and_less_than _ _ _ _ _ _ _ _ _ _ (makes_number _) E);
      iFrame; iIntros (o) "$ $ $"|].
    case_decide; [iApply (hwp_parse_greater_and_less_than _ _ _ _ _ _ _ _ _ _ (makes_number _) E);
      iFrame; iIntros (o) "$ $ $"|].
    injection E as <- <-; iApply hwp_ret; by iFrame.
  - iIntros (o) "(Hi & Hk & Ho)". iApply hwp_bind. iApply hwp_release. iFrame "Hk".
    iApply hwp_ret. iApply ("HΦ" with "Hi Ho").
Qed.

(** *** Filters with operands *)

Definition parses (mp : loc → M mem (option loc)) (p : M input (option filter_t)) : Prop :=
  ∀ i inp r i' (Φ : option loc → hpropI), p i = Ok (r, i') →
    inp ↦ CInput i ∗ (∀ o, inp ↦ CInput i' -∗ filter_opt r o -∗ Φ o) ⊢ hwp (mp inp) Φ.

Definition filters_at (fs : list filter_t) : loc → hpropI := list_at (map filter_at fs).

Definition creates (create : loc → M mem loc) (pure : list filter_t → filter_t) : Prop :=
  ∀ fs lo (Φ : loc → hpropI),
    filters_at fs lo ∗ (∀ l, filters_at fs lo -∗ filter_at (pure fs) l -∗ Φ l) ⊢ hwp (create lo) Φ.

Lemma composite_creates op : creates (composite_create filter_clone op) (Filter.composite_create op).
Proof.
  iIntros (fs lo Φ) "[Ho HΦ]". iApply (hwp_composite_create filter_clone op fs).
  { intros f _. apply filter_clone_clones. }
  iFrame "Ho". iIntros (l) "Ho Hl". iApply ("HΦ" with "Ho").
  unfold Filter.composite_create. by rewrite map_filter_clone_id.
Qed.

Lemma hwp_flist_destroy fs l (Φ : unit → hpropI) :
  filters_at fs l ∗ Φ tt ⊢ hwp (flist_destroy (Some l)) Φ.
Proof.
  iApply (list_destroy_destroys _ (map filter_at fs)).
  intros V (f & -> & _)%list_elem_of_fmap. apply filter_destroy_destroys.
Qed.

Lemma hwp_flist_append fs l f e (Φ : unit → hpropI) :
  filters_at fs l ∗ filter_at f e ∗ (filters_at (fs ++ [f]) l -∗ filter_at f e -∗ Φ tt) ⊢
  hwp (flist_append l e) Φ.
Proof.
  iIntros "(Hl & He & HΦ)". iApply (hwp_list_append filter_clone _ (filter_at f)).
  { apply filter_clone_clones. }
  iFrame "Hl He". iIntros "Hl He". iApply ("HΦ" with "[Hl] He"). unfold filters_at. by rewrite map_app.
Qed.

Lemma hwp_flist_len fs l (Φ : nat → hpropI) :
  filters_at fs l ∗ (filters_at fs l -∗ Φ (length fs)) ⊢ hwp (flist_len l) Φ.
Proof.
  iIntros "[Hl HΦ]". iDestruct "Hl" as (p ls) "(Hl & %Hp & Hls)".
  iApply hwp_bind. iApply hwp_get_plist. iFrame "Hl". iIntros "Hl".
  iDestruct (big_sepL2_length with "Hls") as %Hn. rewrite length_map in Hn.
  assert (E : Slist.list_len p = length fs) by (rewrite Hn; apply Hp). rewrite E.
  iApply hwp_ret. iApply "HΦ". iExists p, ls. by iFrame.
Qed.

Section recursive.
Context (mp : loc → M mem (option loc)) (p : M input (option filter_t)).
Hypothesis Hparse : parses mp p.

Lemma parse_not_parses : parses (parse_not mp) (FilterParse.parse_not p).
Proof using Hparse.
  intros i inp r i' Φ E. iIntros "[Hi HΦ]". apply M_bind_Ok in E as (rc & i1 & E1 & E).
  iApply hwp_bind. iApply (hwp_with_input _ _ _ _ _ _ E1). iFrame "Hi". iIntros "Hi".
  destruct (bool_decide (rc < 0)%Z).
  { injection E as <- <-. iApply hwp_ret. by iApply ("HΦ" with "Hi"). }
  clear E1 i. apply M_bind_Ok in E as (rc' & i & E1 & E).
  iApply hwp_bind. iApply (hwp_with_input _ _ _ _ _ _ E1). iFrame "Hi". iIntros "Hi".
  destruct (bool_decide (rc' < 0)%Z).
  { injection E as <- <-. iApply hwp_ret. by iApply ("HΦ" with "Hi"). }
  apply M_bind_Ok in E as (f & i2 & E2 & E).
  iApply hwp_bind. iApply (Hparse _ _ _ _ _ E2). iFrame "Hi". iIntros (o) "Hi Ho".
  destruct f as [f|], o as [l|]; simpl; try done.
  2: { injection E as <- <-. iApply hwp_ret. by iApply ("HΦ" with "Hi"). }
  apply M_bind_Ok in E as (rc2 & i3 & E3 & [= <- <-]).
  iApply hwp_bind. iApply (hwp_with_input _ _ _ _ _ _ E3). iFrame "Hi". iIntros "Hi".
  destruct (bool_decide (rc2 < 0)%Z).
  - iApply hwp_bind. iApply (filter_destroy_destroys f). iFrame "Ho". iApply hwp_ret.
    by iApply ("HΦ" with "Hi").
  - iApply hwp_bind. iApply (hwp_not_create _ f); [apply filter_clone_clones|]. iFrame "Ho".
    iIntros (l') "Ho Hl'". iApply hwp_bind. iApply (filter_destroy_destroys f). iFrame "Ho".
    iApply hwp_ret. iApply ("HΦ" $! (Some l') with "Hi"). unfold Filter.not_create.
    rewrite filter_clone_id. iExact "Hl'".
Qed.

Lemma hwp_composite_loop create pure fuel : creates create pure → ∀ fs i inp lo r i' (Φ : option loc → hpropI),
  FilterParse.composite_loop p pure fuel fs i = Ok (r, i') →
  inp ↦ CInput i ∗ filters_at fs lo ∗ (∀ o, inp ↦ CInput i' -∗ filter_opt r o -∗ Φ o) ⊢
  hwp (composite_loop mp create fuel inp lo) Φ.
Proof using Hparse.
  intros Hc. induction fuel as [|fuel IH]; intros fs i inp lo r i' Φ E; [done|].
  iIntros "(Hi & Hl & HΦ)". simpl in E |- *.
  assert (Herr : ∀ fs j, filters_at fs lo ∗ inp ↦ CInput j ∗
    (∀ o, inp ↦ CInput j -∗ filter_opt None o -∗ Φ o) ⊢
    hwp (_ ← flist_destroy (Some lo); mret None) Φ).
  { intros gs j. iIntros "(Hl & Hi & HΦ)". iApply hwp_bind. iApply hwp_flist_destroy. iFrame "Hl".
    iApply hwp_ret. by iApply ("HΦ" with "Hi"). }
  apply M_bind_Ok in E as (c & i1 & E1 & E).
  iApply hwp_bind. iApply (hwp_with_input _ _ _ _ _ _ E1). iFrame "Hi". iIntros "Hi".
  destruct c as [c|]; [|injection E as <- <-; iApply Herr; iFrame].
  case_decide; [|case_decide; [|injection E as <- <-; iApply Herr; iFrame]].
  - apply M_bind_Ok in E as (rc & i2 & E2 & E).
    iApply hwp_bind. iApply (hwp_with_input _ _ _ _ _ _ E2). iFrame "Hi". iIntros "Hi".
    destruct (bool_decide (rc < 0)%Z); [injection E as <- <-; iApply Herr; iFrame|].
    apply M_bind_Ok in E as (f & i3 & E3 & E).
    iApply hwp_bind. iApply (Hparse _ _ _ _ _ E3). iFrame "Hi". iIntros (o) "Hi Ho".
    destruct f as [f|], o as [l|]; simpl; try done; [|injection E as <- <-; iApply Herr; iFrame].
    apply M_bind_Ok in E as (rc' & i4 & E4 & E). rewrite filter_clone_id in E.
    iApply hwp_bind. iApply (hwp_flist_append fs lo f). iFrame "Hl Ho". iIntros "Hl Ho".
    iApply hwp_bind. iApply (filter_destroy_destroys f). iFrame "Ho".
    iApply hwp_bind. iApply (hwp_with_input _ _ _ _ _ _ E4). iFrame "Hi". iIntros "Hi".
    destruct (bool_decide (rc' < 0)%Z); [injection E as <- <-; iApply Herr; iFrame|].
    iApply (IH _ _ _ _ _ _ _ E). iFrame.
  - iApply hwp_bind. iApply (hwp_flist_len fs). iFrame "Hl". iIntros "Hl". injection E as <- <-.
    destruct (bool_decide (length fs < 2)); [iApply Herr; iFrame|].
    iApply hwp_bind. iApply (Hc fs). iFrame "Hl". iIntros (l) "Hl Hf".
    iApply hwp_bind. iApply hwp_flist_destroy. iFrame "Hl". iApply hwp_ret.
    iApply ("HΦ" $! (Some l) with "Hi Hf").
Qed.

Lemma parse_composite_parses op create pure fuel : creates create pure →
  parses (λ inp, parse_composite mp inp op create fuel) (FilterParse.parse_composite p op pure fuel).
Proof using Hparse.
  intros Hc i inp r i' Φ E. iIntros "[Hi HΦ]". apply M_bind_Ok in E as (rc & i1 & E1 & E).
  iApply hwp_bind. iApply (hwp_with_input _ _ _ _ _ _ E1). iFrame "Hi". iIntros "Hi".
  iApply hwp_bind. iApply hwp_list_create. iIntros (lo) "Hl".
  iApply (hwp_composite_loop create pure fuel Hc [] _ _ _ _ _ _ E). iFrame.
Qed.
End recursive.

Lemma parse_parses fuel : parses (parse fuel) (FilterParse.parse fuel).
Proof.
  induction fuel as [|fuel IH]; intros i inp r i' Φ E; [done|]. iIntros "[Hi HΦ]". simpl in E |- *.
  apply M_bind_Ok in E as (c & i1 & E1 & E).
  iApply hwp_bind. iApply (hwp_with_input _ _ _ _ _ _ E1). iFrame "Hi". iIntros "Hi".
  destruct c as [c|]; [|injection E as <- <-; iApply hwp_ret; by iApply ("HΦ" with "Hi")].
  case_decide; [iApply (parse_composite_parses _ _ IH AND _ _ _ (composite_creates AND) _ _ _ _ _ E); iFrame|].
  case_decide; [iApply (parse_composite_parses _ _ IH OR _ _ _ (composite_creates OR) _ _ _ _ _ E); iFrame|].
  case_decide; [iApply (parse_not_parses _ _ IH _ _ _ _ _ E); iFrame|].
  iApply (hwp_parse_simple _ _ _ _ _ E). iFrame.
Qed.

Lemma hwp_filter_parse s r (Φ : option loc → hpropI) : FilterParse.filter_parse s = Ok r →
  (∀ o, filter_opt r o -∗ Φ o) ⊢ hwp (filter_parse s) Φ.
Proof.
  iIntros (E) "HΦ". iApply hwp_bind. iApply hwp_new. iIntros (inp) "Hi".
  apply outcome_bind_Ok in E as ([r' ilast] & E & [= ->]).
  apply M_bind_Ok in E as (rc & i1 & E1 & E).
  iApply hwp_bind. iApply (hwp_with_input _ _ _ _ _ _ E1). iFrame "Hi". iIntros "Hi".
  iApply hwp_bind. iApply (hwp_wand _ (λ o, inp ↦ CInput ilast ∗ filter_opt r o)%I).
  iSplitR "HΦ".
  2: { iIntros (o) "[Hi Ho]". iApply hwp_bind. iApply hwp_release. iFrame "Hi". iApply hwp_ret.
       by iApply "HΦ". }
  destruct (bool_decide (rc < 0)%Z).
  { injection E as <- <-. iApply hwp_bind. iApply hwp_ret. iApply hwp_ret. by iFrame. }
  apply M_bind_Ok in E as (f & i2 & E2 & E).
  iApply hwp_bind. iApply (parse_parses _ _ _ _ _ _ E2). iFrame "Hi". iIntros (o) "Hi Ho".
  destruct f as [f|], o as [l|]; simpl; try done.
  2: { injection E as <- <-. iApply hwp_bind. iApply hwp_ret. iApply hwp_ret. by iFrame. }
  apply M_bind_Ok in E as (rc' & i3 & E3 & E).
  iApply hwp_bind. iApply (hwp_with_input _ _ _ _ _ _ E3). iFrame "Hi". iIntros "Hi".
  destruct (bool_decide (rc' < 0)%Z).
  { injection E as <- <-. iApply hwp_bind. iApply (filter_destroy_destroys f). iFrame "Ho".
    iApply hwp_ret. by iFrame. }
  apply M_bind_Ok in E as (n & i4 & E4 & [= <- <-]).
  iApply hwp_bind. iApply (hwp_with_input _ _ _ _ _ _ E4). iFrame "Hi". iIntros "Hi".
  destruct (bool_decide (0 < n)).
  - iApply hwp_bind. iApply (filter_destroy_destroys f). iFrame "Ho". iApply hwp_ret. by iFrame.
  - iApply hwp_ret. iFrame.
Qed.

Lemma hwp_filter_is_valid s b (Φ : bool → hpropI) : FilterParse.filter_is_valid s = Ok b →
  Φ b ⊢ hwp (filter_is_valid s) Φ.
Proof.
  iIntros (E) "HΦ". apply outcome_bind_Ok in E as (r & E & [= <-]).
  iApply hwp_bind. iApply (hwp_filter_parse s r _ E). iIntros (o) "Ho".
  iApply hwp_bind. destruct r as [f|], o as [l|]; simpl; try done.
  - iApply (filter_destroy_destroys f l). iFrame "Ho". by iApply hwp_ret.
  - iApply hwp_ret. by iApply hwp_ret.
Qed.

(** ** The property *)

(** C10: parsing leaks nothing and owns what it returns.  On every string and in
    every memory, the parser that allocates and frees ends without touching
    what it does not own, returns a filter where the parser of FilterParse.v
    does, laid out in objects that are all new, and leaves nothing else behind,
    on none of its error paths; [filter_destroy] gives exactly those objects
    back, and [filter_is_valid] leaves the memory as it was. *)
Theorem filter_parse_owns_result (s : cstr) (w : mem) : mem_ok w →
  ∃ r o w' h, FilterParse.filter_parse s = Ok r ∧ filter_parse s w = Ok (o, w') ∧
    mem_ok w' ∧ cells w' = h ∪ cells w ∧ h ##ₘ cells w ∧ holds (filter_opt r o) h ∧
    (∃ w1, filter_destroy o w' = Ok (tt, w1) ∧ mem_ok w1 ∧ cells w1 = cells w) ∧
    (∃ w2, filter_is_valid s w = Ok (bool_decide (is_Some r), w2) ∧ mem_ok w2 ∧ cells w2 = cells w).
Proof.
  intros W. destruct (filter_parse_wp s) as (r & E & _). exists r.
  destruct (hwp_run (filter_parse s) emp (λ o, filter_opt r o) ∅ (cells w) w)
    as (o & w' & h & Er & Ew & Dw & W' & Ho); try done.
  { iIntros "_". iApply (hwp_filter_parse s r _ E). by iIntros (o) "Ho". }
  { by rewrite (left_id_L ∅ (∪)). }
  { apply map_disjoint_empty_l. }
  exists o, w', h. split_and!; try done.
  - destruct (hwp_run (filter_destroy o) (filter_opt r o) (λ _, emp)%I h (cells w) w')
      as ([] & w1 & h1 & Ed & Ew1 & Dw1 & W1 & ->); try done.
    { iIntros "Ho". iApply (hwp_filter_destroy r). by iFrame. }
    exists w1. split_and!; try done. by rewrite Ew1, (left_id_L ∅ (∪)).
  - destruct (hwp_run (filter_is_valid s) emp (λ b, <affine> ⌜b = bool_decide (is_Some r)⌝)%I ∅ (cells w) w)
      as (b & w2 & h2 & Ev & Ew2 & Dw2 & W2 & Hb); try done.
    { iIntros "_". iApply (hwp_filter_is_valid s (bool_decide (is_Some r))); [|done].
      unfold FilterParse.filter_is_valid. rewrite E. by destruct r. }
    { by rewrite (left_id_L ∅ (∪)). }
    { apply map_disjoint_empty_l. }
    exists w2. destruct Hb as [-> ->].
    split_and!; try done. by rewrite Ew2, (left_id_L ∅ (∪)).
Qed.

Lemma filter_parse_owns_result_witness :
  ∃ r o w' h, FilterParse.filter_parse (C "(&(a=b*)(!(c>1)))") = Ok r ∧
    filter_parse (C "(&(a=b*)(!(c>1)))") (Memory ∅ 1) = Ok (o, w') ∧ cells w' = h ∧ holds (filter_opt r o) h ∧
    ∃ w1, filter_destroy o w' = Ok (tt, w1) ∧ cells w1 = ∅.
Proof.
  destruct (filter_parse_owns_result (C "(&(a=b*)(!(c>1)))") (Memory ∅ 1))
    as (r & o & w' & h & E & Er & _ & Ew & _ & Ho & (w1 & Ed & _ & Ew1) & _).
  - intros l _. apply lookup_empty.
  - exists r, o, w', h. refine (conj E (conj Er (conj _ (conj Ho (ex_intro _ w1 (conj Ed Ew1)))))).
    exact (eq_trans Ew (right_id_L ∅ (∪) h)).
Defined.
