(* ===== verification/PropsMem.v ===== *)
(** * Properties in memory (src/sd/pvalue.c, src/sd/props.c)

    The functions of pvalue.c and props.c over the memory of Cells.v: a value
    owns its string, and a property set owns two arrays, which grow one element
    at a time, with the names and the values in them.  [props_at p] is the
    assertion that the properties [p] of Props.v are in memory, in arrays that
    may be longer than what is in use. *)

From S2P Require Import Prelude CLib Mem Plist Sbuf Pvalue Props Heap Cells FilterMem.
From iris.proofmode Require Import proofmode.

#[local] Unset SsrRewrite.

(** ** pvalue.c *)

(** [create_value] and the assignment after it *)
Definition pvalue_int64_create (v : Z) : M mem loc :=
  value ← new CFresh; _ ← set value (CInt64 v); mret value.

Definition pvalue_str_create (str : loc) : M mem loc :=
  value ← new CFresh;
  str' ← ut_strdup str;
  _ ← set value (CPstr str');
  mret value.

Definition pvalue_equal (a b : loc) : M mem bool :=
  ca ← get a;
  cb ← get b;
  match ca, cb with
  | CInt64 x, CInt64 y => mret (bool_decide (x = y))
  | CPstr sa, CPstr sb =>
      s ← get_str sa; t ← get_str sb; mret (bool_decide (strcmp s t = 0)%Z)
  | CInt64 _, CPstr _ | CPstr _, CInt64 _ => mret false
  | _, _ => bad_cell
  end.

Definition pvalue_clone (orig : loc) : M mem loc :=
  c ← get orig;
  match c with
  | CInt64 v => pvalue_int64_create v
  | CPstr str => pvalue_str_create str
  | _ => bad_cell
  end.

Definition pvalue_destroy (value : loc) : M mem unit :=
  c ← get value;
  match c with
  | CInt64 _ => ut_free (Some value)
  | CPstr str => _ ← ut_free (Some str); ut_free (Some value)
  | _ => bad_cell
  end.

(** ** Arrays of pointers *)

Definition get_array (a : option loc) : M mem (Mem.block loc) :=
  match a with
  | Some l => c ← get l; match c with CArray b => mret b | _ => bad_cell end
  | None => bad_cell
  end.

(** [ut_realloc]: the contents are in a new block, the old one is gone. *)
Definition array_realloc (a : option loc) (n : nat) : M mem loc :=
  match a with
  | Some l =>
      b ← get_array (Some l);
      _ ← release l;
      new (CArray (ut_realloc b n))
  | None => new (CArray (ut_malloc n))
  end.

Definition array_read (a : option loc) (i : nat) : M mem loc :=
  b ← get_array a; lift (slot_read b i).

Definition array_write (a : option loc) (i : nat) (x : loc) : M mem unit :=
  b ← get_array a;
  b' ← lift (slot_write b i x);
  match a with Some l => set l (CArray b') | None => bad_cell end.

(** [memmove (&a[i], &a[i + 1], n * sizeof (a[0]))] *)
Definition array_shift (a : option loc) (i : nat) (n : Z) : M mem unit :=
  b ← get_array a;
  b' ← lift (memmove b i (i + 1) n);
  match a with Some l => set l (CArray b') | None => bad_cell end.

(** ** props.c *)

Record fields := Fields { names : option loc; values : option loc; num : nat }.

Definition get_props (props : loc) : M mem fields :=
  c ← get props; match c with CProps ns vs n => mret (Fields ns vs n) | _ => bad_cell end.

Definition put_props (props : loc) (f : fields) : M mem unit :=
  set props (CProps (names f) (values f) (num f)).

Definition props_create : M mem loc := new (CProps None None 0).

Definition add (props name value : loc) : M mem unit :=
  f ← get_props props;
  let new_idx := num f in
  let n := num f + 1 in
  _ ← put_props props (Fields (names f) (values f) n);
  ns ← array_realloc (names f) n;
  _ ← put_props props (Fields (Some ns) (values f) n);
  vs ← array_realloc (values f) n;
  _ ← put_props props (Fields (Some ns) (Some vs) n);
  name' ← ut_strdup name;
  _ ← array_write (Some ns) new_idx name';
  array_write (Some vs) new_idx value.

Definition props_add (props name value : loc) : M mem unit :=
  value' ← pvalue_clone value; add props name value'.

Definition props_add_int64 (props name : loc) (value : Z) : M mem unit :=
  value' ← pvalue_int64_create value; add props name value'.

Definition props_add_str (props name value : loc) : M mem unit :=
  value' ← pvalue_str_create value; add props name value'.

(** [strcmp (props->names[i], prop_name) == 0] *)
Definition name_is (f : fields) (i : nat) (prop_name : loc) : M mem bool :=
  name ← array_read (names f) i;
  s ← get_str name;
  t ← get_str prop_name;
  mret (streq s t).

(** The first index, of the [n] from [i] on, of which [found] holds: the loops
    of props.c that return from within. *)
Fixpoint find_from (found : nat → M mem bool) (n i : nat) : M mem (option nat) :=
  match n with
  | O => mret None
  | S n' => b ← found i; if (b : bool) then mret (Some i) else find_from found n' (i + 1)
  end.

Definition has_pair (props prop_name prop_value : loc) : M mem bool :=
  f ← get_props props;
  found ← find_from (λ i,
    same ← name_is f i prop_name;
    if (same : bool) then value ← array_read (values f) i; pvalue_equal value prop_value
    else mret false) (num f) 0;
  mret (bool_decide (is_Some found)).

Definition props_equal (a b : loc) : M mem bool :=
  fa ← get_props a;
  fb ← get_props b;
  if bool_decide (num fa ≠ num fb) then mret false
  else
    missing ← find_from (λ i,
      name ← array_read (names fa) i;
      value ← array_read (values fa) i;
      there ← has_pair b name value;
      mret (negb there)) (num fa) 0;
    mret (bool_decide (missing = None)).

Definition props_clone (orig : loc) : M mem loc :=
  copy ← props_create;
  f ← get_props orig;
  _ ← for_range (num f) 0 (λ i _,
    name ← array_read (names f) i;
    value ← array_read (values f) i;
    props_add copy name value) tt;
  mret copy.

Definition props_get_one (props prop_name : loc) : M mem (option loc) :=
  f ← get_props props;
  found ← find_from (λ i, name_is f i prop_name) (num f) 0;
  match found with
  | Some i => Some <$> array_read (values f) i
  | None => mret None
  end.

Definition props_has (props prop_name : loc) : M mem bool :=
  f ← get_props props;
  found ← find_from (λ i, name_is f i prop_name) (num f) 0;
  mret (bool_decide (is_Some found)).

Definition props_del_one (props prop_name : loc) : M mem unit :=
  f ← get_props props;
  found ← find_from (λ i, name_is f i prop_name) (num f) 0;
  match found with
  | Some i =>
      name ← array_read (names f) i;
      _ ← ut_free (Some name);
      value ← array_read (values f) i;
      _ ← pvalue_destroy value;
      let n := (Z.of_nat (num f) - 1 - Z.of_nat i)%Z in
      _ ← (if bool_decide (0 < n)%Z
           then _ ← array_shift (names f) i n; array_shift (values f) i n
           else mret tt);
      put_props props (Fields (names f) (values f) (num f - 1))
  | None => fault_with AssertFailed
  end.

Definition props_destroy (props : option loc) : M mem unit :=
  match props with
  | Some props =>
      f ← get_props props;
      _ ← for_range (num f) 0 (λ i _,
        name ← array_read (names f) i;
        _ ← ut_free (Some name);
        value ← array_read (values f) i;
        pvalue_destroy value) tt;
      _ ← ut_free (names f);
      _ ← ut_free (values f);
      ut_free (Some props)
  | None => mret tt
  end.

(** ** Properties as assertions *)

Definition pvalue_at (v : pvalue) (l : loc) : hpropI :=
  match v with
  | value_int64 z => l ↦ CInt64 z
  | value_str s => ∃ ls, l ↦ CPstr ls ∗ str_at s ls
  end.

(** A block with room for [n] elements; [ls] are those in use. *)
Definition array_at (ls : list loc) (n : nat) (a : option loc) : hpropI :=
  ∃ b, <affine> ⌜take (length ls) b = Some <$> ls ∧ n ≤ length b⌝ ∗
    match a with Some l => l ↦ CArray b | None => <affine> ⌜b = []⌝ end.

Definition strings_at (ss : list cstr) (ls : list loc) : hpropI := [∗ list] s;l ∈ ss;ls, str_at s l.
Definition pvalues_at (vs : list pvalue) (ls : list loc) : hpropI := [∗ list] v;l ∈ vs;ls, pvalue_at v l.

(** The object with these fields, and what the fields lead to: the arrays of
    pointers [lns] and [lvs], to the names and the values of [p]. *)
Definition fields_at (f : fields) (l : loc) : hpropI := l ↦ CProps (names f) (values f) (num f).

Definition content (p : props) (f : fields) (lns lvs : list loc) : hpropI :=
  <affine> ⌜num f = length p⌝ ∗ array_at lns (num f) (names f) ∗ array_at lvs (num f) (values f) ∗
  strings_at p.*1 lns ∗ pvalues_at p.*2 lvs.

Definition props_at (p : props) (l : loc) : hpropI :=
  ∃ f lns lvs, fields_at f l ∗ content p f lns lvs.

(** ** Values *)

Lemma hwp_int64_create v (Φ : loc → hpropI) :
  (∀ l, pvalue_at (value_int64 v) l -∗ Φ l) ⊢ hwp (pvalue_int64_create v) Φ.
Proof.
  iIntros "HΦ". h_new l "Hl". iApply hwp_bind. iApply hwp_set. iFrame "Hl". iIntros "Hl".
  iApply hwp_ret. by iApply "HΦ".
Qed.

Lemma hwp_str_create s ls (Φ : loc → hpropI) :
  str_at s ls ∗ (∀ l, str_at s ls -∗ pvalue_at (value_str s) l -∗ Φ l) ⊢
  hwp (pvalue_str_create ls) Φ.
Proof.
  iIntros "[Hs HΦ]". h_new l "Hl". iApply hwp_bind. iApply strdup_clones. iFrame "Hs".
  iIntros (ls') "Hs Hs'". iApply hwp_bind. iApply hwp_set. iFrame "Hl". iIntros "Hl".
  iApply hwp_ret. iApply ("HΦ" with "Hs"). iExists ls'. iFrame.
Qed.

Lemma pvalue_clone_clones v : clones pvalue_clone (pvalue_at v).
Proof.
  iIntros (l Φ) "[Hl HΦ]". iApply hwp_bind. destruct v as [z|s]; simpl.
  - iApply hwp_get. iFrame "Hl". iIntros "Hl". iApply hwp_int64_create.
    iIntros (l') "Hl'". iApply ("HΦ" with "Hl Hl'").
  - iDestruct "Hl" as (ls) "[Hl Hs]". iApply hwp_get. iFrame "Hl". iIntros "Hl".
    iApply hwp_str_create. iFrame "Hs". iIntros (l') "Hs Hl'". iApply ("HΦ" with "[Hl Hs] Hl'").
    iExists ls. iFrame.
Qed.

Lemma pvalue_destroy_destroys v : destroys pvalue_destroy (pvalue_at v).
Proof.
  iIntros (l Φ) "[Hl HΦ]". iApply hwp_bind. destruct v as [z|s]; simpl.
  - iApply hwp_get. iFrame "Hl". iIntros "Hl". iApply hwp_release. iFrame.
  - iDestruct "Hl" as (ls) "[Hl Hs]". iApply hwp_get. iFrame "Hl". iIntros "Hl".
    iApply hwp_bind. iApply hwp_release. iFrame "Hs". iApply hwp_release. iFrame.
Qed.

Lemma hwp_pvalue_equal a b la lb (Φ : bool → hpropI) :
  pvalue_at a la ∗ pvalue_at b lb ∗ (pvalue_at a la -∗ pvalue_at b lb -∗ Φ (Pvalue.pvalue_equal a b)) ⊢
  hwp (pvalue_equal la lb) Φ.
Proof.
  iIntros "(Ha & Hb & HΦ)". destruct a as [x|s], b as [y|t]; simpl.
  - iApply hwp_bind; iApply hwp_get; iFrame "Ha"; iIntros "Ha".
    iApply hwp_bind; iApply hwp_get; iFrame "Hb"; iIntros "Hb".
    iApply hwp_ret. iApply ("HΦ" with "Ha Hb").
  - iDestruct "Hb" as (lt) "[Hb Ht]".
    iApply hwp_bind; iApply hwp_get; iFrame "Ha"; iIntros "Ha".
    iApply hwp_bind; iApply hwp_get; iFrame "Hb"; iIntros "Hb".
    iApply hwp_ret. iApply ("HΦ" with "Ha"). iExists lt. iFrame.
  - iDestruct "Ha" as (lt) "[Ha Ht]".
    iApply hwp_bind; iApply hwp_get; iFrame "Ha"; iIntros "Ha".
    iApply hwp_bind; iApply hwp_get; iFrame "Hb"; iIntros "Hb".
    iApply hwp_ret. iApply ("HΦ" with "[Ha Ht] Hb"). iExists lt. iFrame.
  - iDestruct "Ha" as (ls) "[Ha Hs]". iDestruct "Hb" as (lt) "[Hb Ht]".
    iApply hwp_bind; iApply hwp_get; iFrame "Ha"; iIntros "Ha".
    iApply hwp_bind; iApply hwp_get; iFrame "Hb"; iIntros "Hb".
    iApply hwp_bind; iApply hwp_get_str; iFrame "Hs"; iIntros "Hs".
    iApply hwp_bind; iApply hwp_get_str; iFrame "Ht"; iIntros "Ht".
    iApply hwp_ret. iApply ("HΦ" with "[Ha Hs] [Hb Ht]"); [iExists ls|iExists lt]; iFrame.
Qed.

(** ** Arrays *)

Lemma hwp_get_array ls n a (Φ : Mem.block loc → hpropI) : 0 < n →
  array_at ls n a ∗ (∀ b, <affine> ⌜take (length ls) b = Some <$> ls ∧ n ≤ length b ∧ is_Some a⌝ -∗
    match a with Some l => l ↦ CArray b | None => emp end -∗ Φ b) ⊢ hwp (get_array a) Φ.
Proof.
  iIntros (Hn) "[Ha HΦ]". iDestruct "Ha" as (b) "[%Hb Ha]". destruct a as [l|]; simpl.
  - iApply hwp_bind; iApply hwp_get; iFrame "Ha"; iIntros "Ha". iApply hwp_ret.
    iApply ("HΦ" with "[] Ha"). iPureIntro. naive_solver.
  - iDestruct "Ha" as %->. simpl in Hb. destruct Hb as [_ Hb]. lia.
Qed.

Lemma hwp_array_realloc ls n0 n a (Φ : loc → hpropI) : length ls ≤ n →
  array_at ls n0 a ∗ (∀ l, array_at ls n (Some l) -∗ Φ l) ⊢ hwp (array_realloc a n) Φ.
Proof.
  iIntros (Hn) "[Ha HΦ]". iDestruct "Ha" as (b) "[%Hb Ha]". destruct Hb as [Hb Hb']. destruct a as [l|]; simpl.
  - iApply hwp_bind. iApply hwp_bind. iApply hwp_get; iFrame "Ha"; iIntros "Ha". iApply hwp_ret.
    iApply hwp_bind. iApply hwp_release. iFrame "Ha". iApply hwp_new. iIntros (l') "Hl'".
    iApply "HΦ". iExists _. iFrame "Hl'". iPureIntro.
    apply (f_equal length) in Hb as Hl. rewrite length_take, length_fmap in Hl.
    rewrite length_ut_realloc, take_ut_realloc by lia. done.
  - iDestruct "Ha" as %->. rewrite take_nil in Hb. symmetry in Hb. apply fmap_nil_inv in Hb as ->.
    iApply hwp_new. iIntros (l') "Hl'". iApply "HΦ". iExists _. iFrame "Hl'". iPureIntro.
    unfold ut_malloc. by rewrite length_replicate.
Qed.

Lemma hwp_array_read ls n a i x (Φ : loc → hpropI) : ls !! i = Some x → i < n →
  array_at ls n a ∗ (array_at ls n a -∗ Φ x) ⊢ hwp (array_read a i) Φ.
Proof.
  iIntros (Hi Hn) "[Ha HΦ]". iApply hwp_bind. iApply (hwp_get_array ls n); [lia|]. iFrame "Ha".
  iIntros (b) "%Hb Ha". destruct Hb as (Hb & Hb' & [l ->]).
  iApply (hwp_lift _ x); [by eapply slot_read_Ok|]. iApply "HΦ". iExists b. by iFrame.
Qed.

Lemma hwp_array_write ls n l i x (Φ : unit → hpropI) : i = length ls → i < n →
  array_at ls n (Some l) ∗ (array_at (ls ++ [x]) n (Some l) -∗ Φ tt) ⊢
  hwp (array_write (Some l) i x) Φ.
Proof.
  iIntros (-> Hn) "[Ha HΦ]". iApply hwp_bind. iApply (hwp_get_array ls n); [lia|]. iFrame "Ha".
  iIntros (b) "%Hb Ha". destruct Hb as (Hb & Hb' & _). iApply hwp_bind.
  iApply (hwp_lift _ (<[length ls := Some x]> b)); [apply slot_write_Ok; lia|].
  iApply hwp_set. iFrame "Ha". iIntros "Ha". iApply "HΦ". iExists _. iFrame "Ha". iPureIntro.
  rewrite length_insert, length_app, Nat.add_1_r. split; [|done]. apply take_insert_snoc; [lia|done].
Qed.

Lemma hwp_array_shift l1 x l2 n a (Φ : unit → hpropI) : n = length (l1 ++ x :: l2) →
  array_at (l1 ++ x :: l2) n a ∗ (array_at (l1 ++ l2) (n - 1) a -∗ Φ tt) ⊢
  hwp (array_shift a (length l1) (Z.of_nat (length l2))) Φ.
Proof.
  iIntros (Hn) "[Ha HΦ]". rewrite length_app in Hn. simpl in Hn.
  iApply hwp_bind. iApply (hwp_get_array _ n); [lia|]. iFrame "Ha".
  iIntros (b) "%Hb Ha". destruct Hb as (Hb & Hb' & [l ->]). iApply hwp_bind.
  set (b' := take (length l1) b ++ take (length l2) (drop (length l1 + 1) b) ++ drop (length l1 + length l2) b).
  iApply (hwp_lift _ b').
  { unfold memmove. rewrite !bool_decide_eq_true_2 by lia. simpl. by rewrite Nat2Z.id. }
  iApply hwp_set. iFrame "Ha". iIntros "Ha". iApply "HΦ". iExists _. iFrame "Ha". iPureIntro.
  assert (E1 : take (length l1) b = Some <$> l1).
  { rewrite <-(take_app_length (Some <$> l1) (Some <$> (x :: l2))), length_fmap, <-fmap_app, <-Hb.
    rewrite take_take. f_equal. rewrite length_app. lia. }
  assert (E2 : take (length l2) (drop (length l1 + 1) b) = Some <$> l2).
  { rewrite take_drop_commute.
    replace (length l1 + 1 + length l2) with (length (l1 ++ x :: l2)) by (rewrite length_app; simpl; lia).
    rewrite Hb, fmap_app, drop_app_ge by (rewrite length_fmap; lia).
    rewrite length_fmap. replace (length l1 + 1 - length l1) with 1 by lia. done. }
  unfold b'. rewrite E1, E2, app_assoc, <-fmap_app. split.
  - apply take_app_length'. by rewrite length_fmap.
  - rewrite !length_app, length_fmap, length_app, length_drop. lia.
Qed.

Lemma hwp_array_free ls n a (Φ : unit → hpropI) : array_at ls n a ∗ Φ tt ⊢ hwp (ut_free a) Φ.
Proof.
  iIntros "[Ha HΦ]". iDestruct "Ha" as (b) "[%Hb Ha]". destruct a as [l|]; simpl.
  - iApply hwp_release. iFrame.
  - iDestruct "Ha" as %->. by iApply hwp_ret.
Qed.

Lemma array_at_le ls n m a : n ≤ m → array_at ls m a ⊢ array_at ls n a.
Proof.
  iIntros (Hn) "Ha". iDestruct "Ha" as (b) "[%Hb Ha]". iExists b. iFrame "Ha". iPureIntro.
  destruct Hb. split; [done|lia].
Qed.

(** ** Loops *)

Lemma hwp_for_range {X} (I : nat → X → hpropI) (body : nat → X → M mem X) n : ∀ k x (Φ : X → hpropI),
  (∀ i x, k ≤ i < k + n → I i x ⊢ hwp (body i x) (I (i + 1))) →
  I k x ∗ (∀ y, I (k + n) y -∗ Φ y) ⊢ hwp (for_range n k body x) Φ.
Proof.
  induction n as [|n IH]; iIntros (k x Φ Hb) "[HI HΦ]"; simpl.
  - iApply hwp_ret. iApply "HΦ". by rewrite Nat.add_0_r.
  - iApply hwp_bind. iApply hwp_wand. iSplitL "HI"; [iApply Hb; [lia|]; iExact "HI"|].
    iIntros (y) "HI". iApply (IH (k + 1)).
    { intros i z Hi. apply Hb. lia. }
    iFrame "HI". iIntros (z) "HI". iApply "HΦ". by replace (k + S n) with (k + 1 + n) by lia.
Qed.

(** The loop finds the first element of the list that [Q] holds of. *)
Lemma hwp_find_from {A} (R : hpropI) (found : nat → M mem bool) (Q : A → bool) l : ∀ k (Φ : option nat → hpropI),
  (∀ i a (Ψ : bool → hpropI), l !! i = Some a → R ∗ (R -∗ Ψ (Q a)) ⊢ hwp (found (k + i)) Ψ) →
  R ∗ (R -∗ Φ ((λ ia, k + ia.1) <$> list_find Q l)) ⊢ hwp (find_from found (length l) k) Φ.
Proof.
  induction l as [|a l IH]; iIntros (k Φ Hb) "[HR HΦ]"; csimpl.
  - iApply hwp_ret. by iApply "HΦ".
  - iApply hwp_bind. pose proof (Hb 0 a) as H0. rewrite Nat.add_0_r in H0. iApply H0; [done|]. iFrame "HR". iIntros "HR".
    destruct (Q a) eqn:E; simpl.
    + iApply hwp_ret. rewrite Nat.add_0_r. by iApply "HΦ".
    + iApply (IH (k + 1)).
      { intros i b Ψ Hi. rewrite <-Nat.add_assoc. by apply (Hb (S i)). }
      iFrame "HR". iIntros "HR". iSpecialize ("HΦ" with "HR").
      destruct (list_find Q l) as [[i b]|]; simpl; [|done].
      by replace (k + 1 + i) with (k + S i) by lia.
Qed.

(** ** Properties *)

Lemma hwp_get_props f l (Φ : fields → hpropI) :
  fields_at f l ∗ (fields_at f l -∗ Φ f) ⊢ hwp (get_props l) Φ.
Proof.
  iIntros "[Hl HΦ]". iApply hwp_bind. iApply hwp_get. iFrame "Hl". iIntros "Hl". iApply hwp_ret.
  destruct f. by iApply "HΦ".
Qed.

Lemma hwp_put_props f f' l (Φ : unit → hpropI) :
  fields_at f l ∗ (fields_at f' l -∗ Φ tt) ⊢ hwp (put_props l f') Φ.
Proof. iIntros "[Hl HΦ]". iApply hwp_set. iFrame. Qed.

Lemma content_lengths p f lns lvs : content p f lns lvs ⊢
  <affine> ⌜num f = length p ∧ length lns = length p ∧ length lvs = length p⌝ ∗ content p f lns lvs.
Proof.
  iIntros "(%Hn & Hns & Hvs & Hss & Hps)".
  iDestruct (big_sepL2_length with "Hss") as %H1. iDestruct (big_sepL2_length with "Hps") as %H2.
  rewrite length_fmap in H1. rewrite length_fmap in H2. iSplit; [iPureIntro; by rewrite <-H1, <-H2|]. by iFrame.
Qed.

(** Element [i]: its pointers, the objects behind them, and the rest. *)
Lemma content_acc p f lns lvs i s v : p !! i = Some (s, v) → content p f lns lvs ⊢
  ∃ ln lv, <affine> ⌜lns !! i = Some ln ∧ lvs !! i = Some lv⌝ ∗ str_at s ln ∗ pvalue_at v lv ∗
    (str_at s ln -∗ pvalue_at v lv -∗ content p f lns lvs).
Proof.
  iIntros (Hi) "(%Hn & Hns & Hvs & Hss & Hps)".
  iDestruct (big_sepL2_length with "Hss") as %H1. iDestruct (big_sepL2_length with "Hps") as %H2.
  rewrite length_fmap in H1. rewrite length_fmap in H2. apply lookup_lt_Some in Hi as Hlt.
  destruct (lookup_lt_is_Some_2 lns i) as [ln Hln]; [lia|].
  destruct (lookup_lt_is_Some_2 lvs i) as [lv Hlv]; [lia|].
  iDestruct (big_sepL2_lookup_acc _ _ _ i s ln with "Hss") as "[Hs Hss]"; [by rewrite list_lookup_fmap, Hi|done|].
  iDestruct (big_sepL2_lookup_acc _ _ _ i v lv with "Hps") as "[Hv Hps]"; [by rewrite list_lookup_fmap, Hi|done|].
  iExists ln, lv. iSplitR; [done|]. iFrame "Hs Hv". iIntros "Hs Hv". iSplitR; [done|]. iFrame "Hns Hvs".
  iSplitL "Hss Hs"; [by iApply "Hss"|by iApply "Hps"].
Qed.

Lemma hwp_read_name p f lns lvs i ln (Φ : loc → hpropI) : lns !! i = Some ln →
  content p f lns lvs ∗ (content p f lns lvs -∗ Φ ln) ⊢ hwp (array_read (names f) i) Φ.
Proof.
  iIntros (Hi) "[Hc HΦ]". iDestruct (content_lengths with "Hc") as "[%Hl Hc]".
  apply lookup_lt_Some in Hi as Hlt. iDestruct "Hc" as "(%Hn & Hns & Hvs & Hss & Hps)".
  iApply (hwp_array_read lns (num f) _ i ln); [done|lia|]. iFrame "Hns". iIntros "Hns".
  iApply "HΦ". by iFrame.
Qed.

Lemma hwp_read_value p f lns lvs i lv (Φ : loc → hpropI) : lvs !! i = Some lv →
  content p f lns lvs ∗ (content p f lns lvs -∗ Φ lv) ⊢ hwp (array_read (values f) i) Φ.
Proof.
  iIntros (Hi) "[Hc HΦ]". iDestruct (content_lengths with "Hc") as "[%Hl Hc]".
  apply lookup_lt_Some in Hi as Hlt. iDestruct "Hc" as "(%Hn & Hns & Hvs & Hss & Hps)".
  iApply (hwp_array_read lvs (num f) _ i lv); [done|lia|]. iFrame "Hvs". iIntros "Hvs".
  iApply "HΦ". by iFrame.
Qed.

Lemma hwp_props_create (Φ : loc → hpropI) : (∀ l, props_at [] l -∗ Φ l) ⊢ hwp props_create Φ.
Proof.
  iIntros "HΦ". iApply hwp_new. iIntros (l) "Hl". iApply "HΦ". iExists (Fields None None 0), [], [].
  iFrame "Hl". iSplitR; [done|]. unfold array_at, strings_at, pvalues_at. simpl.
  iSplitR; [by iExists []|]. iSplitR; [by iExists []|]. by iSplit.
Qed.

Lemma hwp_add p l s ln v lv (Φ : unit → hpropI) :
  props_at p l ∗ str_at s ln ∗ pvalue_at v lv ∗ (props_at (Props.add p s v) l -∗ str_at s ln -∗ Φ tt) ⊢
  hwp (add l ln lv) Φ.
Proof.
  iIntros "(Hp & Hs & Hv & HΦ)". iDestruct "Hp" as (f lns lvs) "[Hl Hc]".
  iDestruct (content_lengths with "Hc") as "[%Hlen Hc]". destruct Hlen as (Hn & H1 & H2).
  iDestruct "Hc" as "(_ & Hns & Hvs & Hss & Hps)".
  iApply hwp_bind. iApply hwp_get_props. iFrame "Hl". iIntros "Hl".
  iApply hwp_bind. iApply hwp_put_props. iFrame "Hl". iIntros "Hl".
  iApply hwp_bind. iApply (hwp_array_realloc lns); [lia|]. iFrame "Hns". iIntros (ns) "Hns".
  iApply hwp_bind. iApply hwp_put_props. iFrame "Hl". iIntros "Hl".
  iApply hwp_bind. iApply (hwp_array_realloc lvs); [lia|]. iFrame "Hvs". iIntros (vs) "Hvs".
  iApply hwp_bind. iApply hwp_put_props. iFrame "Hl". iIntros "Hl".
  iApply hwp_bind. iApply (strdup_clones s). iFrame "Hs". iIntros (ln') "Hs Hs'".
  iApply hwp_bind. iApply (hwp_array_write lns (num f + 1)); [lia..|]. iFrame "Hns". iIntros "Hns".
  iApply (hwp_array_write lvs (num f + 1)); [lia..|]. iFrame "Hvs". iIntros "Hvs".
  iApply ("HΦ" with "[Hl Hns Hvs Hss Hps Hs' Hv] Hs"). iExists _, _, _. iFrame "Hl". unfold content. simpl.
  unfold Props.add. rewrite !fmap_app. iFrame "Hns Hvs". iSplitR; [rewrite length_app, Hn; done|].
  iSplitL "Hss Hs'".
  - iApply (big_sepL2_app with "Hss"). by iFrame.
  - iApply (big_sepL2_app with "Hps"). by iFrame.
Qed.

Lemma hwp_props_add p l s ln v lv (Φ : unit → hpropI) :
  props_at p l ∗ str_at s ln ∗ pvalue_at v lv ∗
  (props_at (Props.props_add p s v) l -∗ str_at s ln -∗ pvalue_at v lv -∗ Φ tt) ⊢
  hwp (props_add l ln lv) Φ.
Proof.
  iIntros "(Hp & Hs & Hv & HΦ)". iApply hwp_bind. iApply pvalue_clone_clones. iFrame "Hv".
  iIntros (lv') "Hv Hv'". iApply (hwp_add p l s ln v lv'). iFrame "Hp Hs Hv'". iIntros "Hp Hs".
  unfold Props.props_add. rewrite Pvalue.pvalue_clone_id. iApply ("HΦ" with "Hp Hs Hv").
Qed.

Lemma hwp_props_add_int64 p l s ln z (Φ : unit → hpropI) :
  props_at p l ∗ str_at s ln ∗ (props_at (Props.props_add_int64 p s z) l -∗ str_at s ln -∗ Φ tt) ⊢
  hwp (props_add_int64 l ln z) Φ.
Proof.
  iIntros "(Hp & Hs & HΦ)". iApply hwp_bind. iApply hwp_int64_create. iIntros (lv) "Hv".
  iApply (hwp_add p l s ln _ lv). iFrame.
Qed.

Lemma hwp_props_add_str p l s ln t lt (Φ : unit → hpropI) :
  props_at p l ∗ str_at s ln ∗ str_at t lt ∗
  (props_at (Props.props_add_str p s t) l -∗ str_at s ln -∗ str_at t lt -∗ Φ tt) ⊢
  hwp (props_add_str l ln lt) Φ.
Proof.
  iIntros "(Hp & Hs & Ht & HΦ)". iApply hwp_bind. iApply (hwp_str_create t). iFrame "Ht".
  iIntros (lv) "Ht Hv". iApply (hwp_add p l s ln _ lv). iFrame "Hp Hs Hv". iIntros "Hp Hs".
  iApply ("HΦ" with "Hp Hs Ht").
Qed.

(** *** Reading *)

Lemma hwp_name_is p f lns lvs i s v t lt (Φ : bool → hpropI) : p !! i = Some (s, v) →
  (content p f lns lvs ∗ str_at t lt) ∗ (content p f lns lvs ∗ str_at t lt -∗ Φ (streq s t)) ⊢
  hwp (name_is f i lt) Φ.
Proof.
  iIntros (Hi) "[[Hc Ht] HΦ]". iDestruct (content_acc _ _ _ _ _ _ _ Hi with "Hc") as (ln lv) "([%Hln %Hlv] & Hs & Hv & Hc)".
  iDestruct ("Hc" with "Hs Hv") as "Hc".
  iApply hwp_bind. iApply (hwp_read_name p f lns lvs i ln); [done|]. iFrame "Hc". iIntros "Hc".
  iDestruct (content_acc _ _ _ _ _ _ _ Hi with "Hc") as (ln' lv') "([%Hln' %Hlv'] & Hs & Hv & Hc)".
  simplify_eq.
  iApply hwp_bind. iApply (hwp_get_str ln s). iFrame "Hs". iIntros "Hs".
  iApply hwp_bind. iApply (hwp_get_str lt t). iFrame "Ht". iIntros "Ht".
  iApply hwp_ret. iApply "HΦ". iFrame "Ht". iApply ("Hc" with "Hs Hv").
Qed.

(** The first entry of a name. *)
Definition find_name (t : cstr) (p : props) : option (nat * (cstr * pvalue)) :=
  list_find (λ nv, streq nv.1 t) p.

Lemma find_name_has t p : bool_decide (is_Some (find_name t p)) = Props.props_has p t.
Proof.
  induction p as [|[n v] p IH]; [done|]. unfold find_name in *. csimpl.
  destruct (streq n t) eqn:E; simpl; [done|]. rewrite <-IH. apply bool_decide_ext.
  by rewrite fmap_is_Some.
Qed.

Lemma find_name_get_one t p : snd ∘ snd <$> find_name t p = Props.props_get_one p t.
Proof.
  induction p as [|[n v] p IH]; [done|]. unfold find_name in *. csimpl.
  destruct (streq n t) eqn:E; simpl; [done|]. rewrite <-IH.
  by destruct (list_find _ p) as [[i nv]|].
Qed.

Lemma find_name_del_one t p : Props.props_del_one p t =
  match find_name t p with Some (i, _) => Ok (delete i p) | None => Fail AssertFailed end.
Proof.
  induction p as [|[n v] p IH]; [done|]. unfold find_name in *. csimpl.
  destruct (streq n t) eqn:E; simpl; [done|]. rewrite IH.
  by destruct (list_find _ p) as [[i nv]|].
Qed.

(** The search in memory finds what the search in the list finds. *)
Lemma hwp_find_name p f lns lvs t lt (Φ : option nat → hpropI) :
  (content p f lns lvs ∗ str_at t lt) ∗ (content p f lns lvs ∗ str_at t lt -∗ Φ (fst <$> find_name t p)) ⊢
  hwp (find_from (λ i, name_is f i lt) (num f) 0) Φ.
Proof.
  iIntros "[[Hc Ht] HΦ]". iDestruct (content_lengths with "Hc") as "[%Hl Hc]". destruct Hl as (-> & _ & _).
  iApply (hwp_find_from (content p f lns lvs ∗ str_at t lt) _ (λ nv, streq nv.1 t) p 0).
  - intros i [s v] Ψ Hi. by apply hwp_name_is with (v := v).
  - iFrame "Hc Ht". iIntros "H". iSpecialize ("HΦ" with "H"). unfold find_name.
    by destruct (list_find _ p) as [[i nv]|].
Qed.

Lemma hwp_props_has p l t lt (Φ : bool → hpropI) :
  props_at p l ∗ str_at t lt ∗ (props_at p l -∗ str_at t lt -∗ Φ (Props.props_has p t)) ⊢
  hwp (props_has l lt) Φ.
Proof.
  iIntros "(Hp & Ht & HΦ)". iDestruct "Hp" as (f lns lvs) "[Hl Hc]".
  iApply hwp_bind. iApply hwp_get_props. iFrame "Hl". iIntros "Hl".
  iApply hwp_bind. iApply (hwp_find_name p f lns lvs t lt). iFrame "Hc Ht". iIntros "[Hc Ht]".
  iApply hwp_ret. rewrite (bool_decide_ext _ _ (fmap_is_Some fst (find_name t p))), find_name_has.
  iApply ("HΦ" with "[Hl Hc] Ht"). iExists f, lns, lvs. iFrame.
Qed.

(** The pointer that is returned is to the value in the set. *)
Lemma hwp_props_get_one p l t lt (Φ : option loc → hpropI) :
  props_at p l ∗ str_at t lt ∗ (∀ o, str_at t lt -∗
    opt_at (pvalue_at <$> Props.props_get_one p t) o -∗
    (opt_at (pvalue_at <$> Props.props_get_one p t) o -∗ props_at p l) -∗ Φ o) ⊢
  hwp (props_get_one l lt) Φ.
Proof.
  iIntros "(Hp & Ht & HΦ)". iDestruct "Hp" as (f lns lvs) "[Hl Hc]".
  iApply hwp_bind. iApply hwp_get_props. iFrame "Hl". iIntros "Hl".
  iApply hwp_bind. iApply (hwp_find_name p f lns lvs t lt). iFrame "Hc Ht". iIntros "[Hc Ht]".
  rewrite <-find_name_get_one. destruct (find_name t p) as [[i [n v]]|] eqn:E; csimpl.
  - apply list_find_Some in E as (Hi & _ & _).
    iDestruct (content_acc _ _ _ _ _ _ _ Hi with "Hc") as (ln lv) "([%Hln %Hlv] & Hs & Hv & Hc)".
    iDestruct ("Hc" with "Hs Hv") as "Hc".
    iApply hwp_fmap. iApply (hwp_read_value p f lns lvs i lv); [done|]. iFrame "Hc". iIntros "Hc".
    iDestruct (content_acc _ _ _ _ _ _ _ Hi with "Hc") as (ln' lv') "([%Hln' %Hlv'] & Hs & Hv & Hc)".
    simplify_eq. iApply ("HΦ" $! (Some lv) with "Ht Hv"). iIntros "Hv". iExists f, lns, lvs.
    iFrame "Hl". iApply ("Hc" with "Hs Hv").
  - iApply hwp_ret. iApply ("HΦ" $! None with "Ht"); [done|]. iIntros "_". iExists f, lns, lvs. iFrame.
Qed.

Lemma find_pair_has p n v :
  bool_decide (is_Some (list_find (λ nv, streq nv.1 n && Pvalue.pvalue_equal nv.2 v) p)) = Props.has_pair p n v.
Proof.
  induction p as [|[n' v'] p IH]; [done|]. csimpl.
  destruct (streq n' n && Pvalue.pvalue_equal v' v) eqn:E; simpl; [done|]. rewrite <-IH.
  apply bool_decide_ext. by rewrite fmap_is_Some.
Qed.

Lemma find_missing a b :
  bool_decide (list_find (λ nv, negb (Props.has_pair b nv.1 nv.2)) a = None) = props_equal_loop b a.
Proof.
  induction a as [|[n v] a IH]; [done|]. csimpl.
  destruct (Props.has_pair b n v); simpl; [|done]. rewrite <-IH. apply bool_decide_ext.
  by rewrite fmap_None.
Qed.

Lemma hwp_has_pair p l s ls v lv (Φ : bool → hpropI) :
  (props_at p l ∗ str_at s ls ∗ pvalue_at v lv) ∗
  (props_at p l ∗ str_at s ls ∗ pvalue_at v lv -∗ Φ (Props.has_pair p s v)) ⊢
  hwp (has_pair l ls lv) Φ.
Proof.
  iIntros "[(Hp & Hs & Hv) HΦ]". iDestruct "Hp" as (f lns lvs) "[Hl Hc]".
  iApply hwp_bind. iApply hwp_get_props. iFrame "Hl". iIntros "Hl".
  iDestruct (content_lengths with "Hc") as "[%Hn Hc]". destruct Hn as (-> & _ & _).
  iApply hwp_bind. iApply (hwp_find_from ((content p f lns lvs ∗ str_at s ls) ∗ pvalue_at v lv) _
    (λ nv, streq nv.1 s && Pvalue.pvalue_equal nv.2 v) p 0).
  - iIntros (i [t w] Ψ Hi) "[[Hcs Hv] HΨ]". iApply hwp_bind. iApply (hwp_name_is p f lns lvs i t w s ls); [done|].
    iFrame "Hcs". iIntros "Hcs". simpl. destruct (streq t s); simpl; [|iApply hwp_ret; iApply "HΨ"; iFrame].
    iDestruct "Hcs" as "[Hc Hs]".
    iDestruct (content_acc _ _ _ _ _ _ _ Hi with "Hc") as (ln' lv') "([%Hln %Hlv] & Ht & Hw & Hc)".
    iDestruct ("Hc" with "Ht Hw") as "Hc". iApply hwp_bind.
    iApply (hwp_read_value p f lns lvs i lv'); [done|]. iFrame "Hc". iIntros "Hc".
    iDestruct (content_acc _ _ _ _ _ _ _ Hi with "Hc") as (ln'' lv'') "([%Hln' %Hlv'] & Ht & Hw & Hc)".
    simplify_eq. iApply (hwp_pvalue_equal w v). iFrame "Hw Hv". iIntros "Hw Hv". iApply "HΨ". iFrame "Hv Hs".
    iApply ("Hc" with "Ht Hw").
  - iFrame "Hc Hs Hv". iIntros "[[Hc Hs] Hv]". iApply hwp_ret.
    rewrite (bool_decide_ext _ _ (fmap_is_Some _ (list_find _ p))), find_pair_has.
    iApply "HΦ". iFrame "Hs Hv". iExists f, lns, lvs. iFrame.
Qed.

Lemma hwp_props_equal a la b lb (Φ : bool → hpropI) :
  props_at a la ∗ props_at b lb ∗ (props_at a la -∗ props_at b lb -∗ Φ (Props.props_equal a b)) ⊢
  hwp (props_equal la lb) Φ.
Proof.
  iIntros "(Ha & Hb & HΦ)". iDestruct "Ha" as (fa lns lvs) "[Hla Hca]".
  iDestruct "Hb" as (fb lns' lvs') "[Hlb Hcb]".
  iApply hwp_bind. iApply (hwp_get_props fa la). iFrame "Hla". iIntros "Hla".
  iApply hwp_bind. iApply (hwp_get_props fb lb). iFrame "Hlb". iIntros "Hlb".
  iDestruct (content_lengths with "Hca") as "[%Hn Hca]". destruct Hn as (-> & _ & _).
  iDestruct (content_lengths with "Hcb") as "[%Hn Hcb]". destruct Hn as (-> & _ & _).
  unfold Props.props_equal. iAssert (props_at b lb) with "[Hlb Hcb]" as "Hb"; [iExists fb, lns', lvs'; iFrame|].
  case_bool_decide.
  { iApply hwp_ret. iApply ("HΦ" with "[Hla Hca] Hb"). iExists fa, lns, lvs. iFrame. }
  iApply hwp_bind. iApply (hwp_find_from (content a fa lns lvs ∗ props_at b lb) _
    (λ nv, negb (Props.has_pair b nv.1 nv.2)) a 0).
  - iIntros (i [s v] Ψ Hi) "[[Hc Hb] HΨ]".
    iDestruct (content_acc _ _ _ _ _ _ _ Hi with "Hc") as (ln lv) "([%Hln %Hlv] & Hs & Hv & Hc)".
    iDestruct ("Hc" with "Hs Hv") as "Hc".
    iApply hwp_bind. iApply (hwp_read_name a fa lns lvs i ln); [done|]. iFrame "Hc". iIntros "Hc".
    iApply hwp_bind. iApply (hwp_read_value a fa lns lvs i lv); [done|]. iFrame "Hc". iIntros "Hc".
    iDestruct (content_acc _ _ _ _ _ _ _ Hi with "Hc") as (ln' lv') "([%Hln' %Hlv'] & Hs & Hv & Hc)".
    simplify_eq. iApply hwp_bind. iApply (hwp_has_pair b lb s ln v lv). iFrame "Hb Hs Hv".
    iIntros "(Hb & Hs & Hv)". iApply hwp_ret. iApply "HΨ". iFrame "Hb". iApply ("Hc" with "Hs Hv").
  - iFrame "Hca Hb". iIntros "[Hca Hb]". iApply hwp_ret.
    rewrite (bool_decide_ext _ _ (fmap_None _ (list_find _ a))), find_missing.
    iApply ("HΦ" with "[Hla Hca] Hb"). iExists fa, lns, lvs. iFrame.
Qed.

(** *** Copying and freeing *)

Lemma props_clone_clones p : clones props_clone (props_at p).
Proof.
  iIntros (l Φ) "[Hp HΦ]". iDestruct "Hp" as (f lns lvs) "[Hl Hc]".
  iApply hwp_bind. iApply hwp_props_create. iIntros (copy) "Hcopy".
  iApply hwp_bind. iApply hwp_get_props. iFrame "Hl". iIntros "Hl".
  iDestruct (content_lengths with "Hc") as "[%Hn Hc]". destruct Hn as (-> & Hlns & Hlvs).
  iApply hwp_bind. iApply (hwp_for_range (λ i _, content p f lns lvs ∗ props_at (take i p) copy)%I).
  - iIntros (i [] Hi) "[Hc Hcopy]".
    destruct (lookup_lt_is_Some_2 p i) as [[s v] Hp]; [lia|].
    iDestruct (content_acc _ _ _ _ _ _ _ Hp with "Hc") as (ln lv) "([%Hln %Hlv] & Hs & Hv & Hc)".
    iDestruct ("Hc" with "Hs Hv") as "Hc".
    iApply hwp_bind. iApply (hwp_read_name p f lns lvs i ln); [done|]. iFrame "Hc". iIntros "Hc".
    iApply hwp_bind. iApply (hwp_read_value p f lns lvs i lv); [done|]. iFrame "Hc". iIntros "Hc".
    iDestruct (content_acc _ _ _ _ _ _ _ Hp with "Hc") as (ln' lv') "([%Hln' %Hlv'] & Hs & Hv & Hc)".
    simplify_eq. iApply (hwp_props_add (take i p) copy s ln v lv). iFrame "Hcopy Hs Hv".
    iIntros "Hcopy Hs Hv". iSplitR "Hcopy"; [iApply ("Hc" with "Hs Hv")|].
    unfold Props.props_add, Props.add. rewrite Pvalue.pvalue_clone_id, Nat.add_1_r.
    by rewrite (take_S_r _ _ _ Hp).
  - iFrame "Hc Hcopy". iIntros ([]) "[Hc Hcopy]". iApply hwp_ret. simpl. rewrite firstn_all.
    iApply ("HΦ" with "[Hl Hc] Hcopy"). iExists f, lns, lvs. iFrame.
Qed.

Lemma sepL2_remove {A} (P : A → loc → hpropI) xs ls i x l : xs !! i = Some x → ls !! i = Some l →
  ([∗ list] y;k ∈ xs;ls, P y k) ⊢ P x l ∗ [∗ list] y;k ∈ delete i xs;delete i ls, P y k.
Proof.
  iIntros (Hx Hl) "H". apply lookup_lt_Some in Hx as Hx'. apply lookup_lt_Some in Hl as Hl'.
  rewrite !delete_take_drop, <-(take_drop_middle xs i x), <-(take_drop_middle ls i l) at 1 by done.
  iDestruct (big_sepL2_app_inv with "H") as "[H1 H2]"; [left; rewrite !length_take; lia|].
  simpl. iDestruct "H2" as "[$ H2]". iApply (big_sepL2_app with "H1 H2").
Qed.

(** The arrays close the gap of element [i]. *)
Lemma hwp_array_delete ls n a i (Φ : unit → hpropI) : n = length ls → i + 1 < n →
  array_at ls n a ∗ (array_at (delete i ls) (n - 1) a -∗ Φ tt) ⊢
  hwp (array_shift a i (Z.of_nat n - 1 - Z.of_nat i)) Φ.
Proof.
  intros Hn Hi. destruct (lookup_lt_is_Some_2 ls i) as [x Hx]; [lia|].
  rewrite delete_take_drop.
  pose proof (hwp_array_shift (take i ls) x (drop (S i) ls) n a Φ) as H.
  rewrite take_drop_middle, length_drop, length_take, Nat.min_l in H by (done || lia).
  replace (Z.of_nat n - 1 - Z.of_nat i)%Z with (Z.of_nat (length ls - S i)) by lia. by apply H.
Qed.

Lemma array_at_delete_last ls n a i : n = length ls → i + 1 = n →
  array_at ls n a ⊢ array_at (delete i ls) (n - 1) a.
Proof.
  intros Hn Hi. iIntros "Ha". iDestruct "Ha" as (b) "[%Hb Ha]". destruct Hb as [Hb Hb'].
  iExists b. iFrame "Ha". iPureIntro. rewrite delete_take_drop, drop_ge, app_nil_r by lia.
  rewrite length_take, Nat.min_l by lia. split; [|lia].
  rewrite fmap_take, <-Hb, take_take. f_equal. lia.
Qed.

Lemma hwp_props_del_one p p' l t lt (Φ : unit → hpropI) : Props.props_del_one p t = Ok p' →
  props_at p l ∗ str_at t lt ∗ (props_at p' l -∗ str_at t lt -∗ Φ tt) ⊢ hwp (props_del_one l lt) Φ.
Proof.
  rewrite find_name_del_one. destruct (find_name t p) as [[i [s v]]|] eqn:E; [|done]. intros [= <-].
  apply list_find_Some in E as E'. destruct E' as (Hi & _ & _).
  iIntros "(Hp & Ht & HΦ)". iDestruct "Hp" as (f lns lvs) "[Hl Hc]".
  iApply hwp_bind. iApply hwp_get_props. iFrame "Hl". iIntros "Hl".
  iApply hwp_bind. iApply (hwp_find_name p f lns lvs t lt). iFrame "Hc Ht". rewrite E. simpl. iIntros "[Hc Ht]".
  iDestruct (content_lengths with "Hc") as "[%Hn Hc]". destruct Hn as (Hn & Hlns & Hlvs).
  iDestruct "Hc" as "(_ & Hns & Hvs & Hss & Hps)". apply lookup_lt_Some in Hi as Hlt.
  destruct (lookup_lt_is_Some_2 lns i) as [ln Hln]; [lia|].
  destruct (lookup_lt_is_Some_2 lvs i) as [lv Hlv]; [lia|].
  iDestruct (sepL2_remove _ _ _ i s ln with "Hss") as "[Hs Hss]"; [by rewrite list_lookup_fmap, Hi|done|].
  iDestruct (sepL2_remove _ _ _ i v lv with "Hps") as "[Hv Hps]"; [by rewrite list_lookup_fmap, Hi|done|].
  iApply hwp_bind. iApply (hwp_array_read lns (num f) _ i ln); [done|lia|]. iFrame "Hns". iIntros "Hns".
  iApply hwp_bind. iApply hwp_release. iFrame "Hs".
  iApply hwp_bind. iApply (hwp_array_read lvs (num f) _ i lv); [done|lia|]. iFrame "Hvs". iIntros "Hvs".
  iApply hwp_bind. iApply (pvalue_destroy_destroys v). iFrame "Hv". iApply hwp_bind.
  iApply (hwp_wand _ (λ _, array_at (delete i lns) (num f - 1) (names f) ∗
    array_at (delete i lvs) (num f - 1) (values f))%I). iSplitL "Hns Hvs".
  - case_bool_decide.
    + iApply hwp_bind. iApply (hwp_array_delete lns (num f)); [lia..|]. iFrame "Hns". iIntros "Hns".
      iApply (hwp_array_delete lvs (num f)); [lia..|]. iFrame "Hvs". iIntros "Hvs". iFrame.
    + iApply hwp_ret. iSplitL "Hns"; (iApply array_at_delete_last; [lia..|]); iFrame.
  - iIntros ([]) "[Hns Hvs]". iApply hwp_put_props. iFrame "Hl". iIntros "Hl".
    iApply ("HΦ" with "[Hl Hns Hvs Hss Hps] Ht"). iExists _, _, _. iFrame "Hl". unfold content. simpl.
    iFrame "Hns Hvs". rewrite !list_fmap_delete. iFrame "Hss Hps". iPureIntro.
    rewrite length_delete by done. lia.
Qed.

Lemma sepL2_next {A} (P : A → loc → hpropI) xs ls i x l : xs !! i = Some x → ls !! i = Some l →
  ([∗ list] y;k ∈ drop i xs;drop i ls, P y k) ⊢ P x l ∗ [∗ list] y;k ∈ drop (i + 1) xs;drop (i + 1) ls, P y k.
Proof.
  intros Hx Hl. rewrite (drop_S xs x i), (drop_S ls l i), Nat.add_1_r by done. simpl. iIntros "[$ $]".
Qed.

Lemma props_destroy_destroys p : destroys (λ l, props_destroy (Some l)) (props_at p).
Proof.
  iIntros (l Φ) "[Hp HΦ]". iDestruct "Hp" as (f lns lvs) "[Hl Hc]".
  iApply hwp_bind. iApply hwp_get_props. iFrame "Hl". iIntros "Hl".
  iDestruct (content_lengths with "Hc") as "[%Hn Hc]". destruct Hn as (Hn & Hlns & Hlvs).
  iDestruct "Hc" as "(_ & Hns & Hvs & Hss & Hps)". iApply hwp_bind.
  iApply (hwp_for_range (λ i _, array_at lns (num f) (names f) ∗ array_at lvs (num f) (values f) ∗
    strings_at (drop i p.*1) (drop i lns) ∗ pvalues_at (drop i p.*2) (drop i lvs))%I).
  - iIntros (i [] Hi) "(Hns & Hvs & Hss & Hps)".
    destruct (lookup_lt_is_Some_2 p i) as [[s v] Hp]; [lia|].
    destruct (lookup_lt_is_Some_2 lns i) as [ln Hln]; [lia|].
    destruct (lookup_lt_is_Some_2 lvs i) as [lv Hlv]; [lia|].
    iDestruct (sepL2_next _ _ _ i s ln with "Hss") as "[Hs Hss]"; [by rewrite list_lookup_fmap, Hp|done|].
    iDestruct (sepL2_next _ _ _ i v lv with "Hps") as "[Hv Hps]"; [by rewrite list_lookup_fmap, Hp|done|].
    iApply hwp_bind. iApply (hwp_array_read lns (num f) _ i ln); [done|lia|]. iFrame "Hns". iIntros "Hns".
    iApply hwp_bind. iApply hwp_release. iFrame "Hs".
    iApply hwp_bind. iApply (hwp_array_read lvs (num f) _ i lv); [done|lia|]. iFrame "Hvs". iIntros "Hvs".
    iApply (pvalue_destroy_destroys v). iFrame.
  - iFrame "Hns Hvs Hss Hps". iIntros ([]) "(Hns & Hvs & Hss & Hps)".
    rewrite !drop_ge by (rewrite ?length_fmap; lia). unfold strings_at, pvalues_at. simpl.
    iApply hwp_bind. iApply hwp_array_free. iFrame "Hns".
    iApply hwp_bind. iApply hwp_array_free. iFrame "Hvs".
    iDestruct "Hss" as "_". iDestruct "Hps" as "_". iApply hwp_release. iFrame.
Qed.

(** ** Sequences of operations *)

(** What [pvalue_is_int64], [pvalue_int64] and [pvalue_str] tell of a value. *)
Definition read_pvalue (value : loc) : M mem pvalue :=
  c ← get value;
  match c with
  | CInt64 v => mret (value_int64 v)
  | CPstr str => value_str <$> get_str str
  | _ => bad_cell
  end.

(** Names and strings are the caller's; [PCopy] goes on with a copy, and frees
    the original once it has been compared with it. *)
Inductive props_op :=
  | PAddInt64 (name : loc) (value : Z)
  | PAddStr (name value : loc)
  | PDelOne (name : loc)
  | PHas (name : loc)
  | PGetOne (name : loc)
  | PCopy.

Inductive props_obs :=
  | Nothing
  | Answer (b : bool)
  | Value (v : option pvalue).

Definition run_props_op (op : props_op) (p : loc) : M mem (loc * props_obs) :=
  match op with
  | PAddInt64 name value => _ ← props_add_int64 p name value; mret (p, Nothing)
  | PAddStr name value => _ ← props_add_str p name value; mret (p, Nothing)
  | PDelOne name => _ ← props_del_one p name; mret (p, Nothing)
  | PHas name => b ← props_has p name; mret (p, Answer b)
  | PGetOne name =>
      o ← props_get_one p name;
      match o with
      | Some value => v ← read_pvalue value; mret (p, Value (Some v))
      | None => mret (p, Value None)
      end
  | PCopy =>
      copy ← props_clone p;
      same ← props_equal p copy;
      _ ← props_destroy (Some p);
      mret (copy, Answer same)
  end.

(** The same on the properties of Props.v. *)
Definition value_props_op (env : gmap loc cstr) (op : props_op) (p : props) : outcome (props * props_obs) :=
  match op with
  | PAddInt64 name value => n ← deref (env !! name); Ok (Props.props_add_int64 p n value, Nothing)
  | PAddStr name value =>
      n ← deref (env !! name);
      s ← deref (env !! value);
      Ok (Props.props_add_str p n s, Nothing)
  | PDelOne name => n ← deref (env !! name); p' ← Props.props_del_one p n; Ok (p', Nothing)
  | PHas name => n ← deref (env !! name); Ok (p, Answer (Props.props_has p n))
  | PGetOne name => n ← deref (env !! name); Ok (p, Value (Props.props_get_one p n))
  | PCopy => Ok (Props.props_clone p, Answer (Props.props_equal p (Props.props_clone p)))
  end.

Fixpoint run_props_ops (ops : list props_op) (p : loc) : M mem (loc * list props_obs) :=
  match ops with
  | [] => mret (p, [])
  | op :: ops =>
      '(p, o) ← run_props_op op p;
      '(p, os) ← run_props_ops ops p;
      mret (p, o :: os)
  end.

Fixpoint value_props_ops (env : gmap loc cstr) (ops : list props_op) (p : props)
    : outcome (props * list props_obs) :=
  match ops with
  | [] => Ok (p, [])
  | op :: ops =>
      '(p, o) ← value_props_op env op p;
      '(p, os) ← value_props_ops env ops p;
      Ok (p, o :: os)
  end.

Definition strs_env (env : gmap loc cstr) : hpropI := [∗ map] l↦s ∈ env, str_at s l.

Lemma hwp_read_pvalue v l (Φ : pvalue → hpropI) :
  pvalue_at v l ∗ (pvalue_at v l -∗ Φ v) ⊢ hwp (read_pvalue l) Φ.
Proof.
  iIntros "[Hl HΦ]". iApply hwp_bind. destruct v as [z|s]; simpl.
  - iApply hwp_get. iFrame "Hl". iIntros "Hl". iApply hwp_ret. by iApply "HΦ".
  - iDestruct "Hl" as (ls) "[Hl Hs]". iApply hwp_get. iFrame "Hl". iIntros "Hl".
    iApply hwp_fmap. iApply hwp_get_str. iFrame "Hs". iIntros "Hs". iApply "HΦ". iExists ls. iFrame.
Qed.

Section run.
Context (env : gmap loc cstr).

(** The string of a name. *)
Lemma env_acc name s : deref (env !! name) = Ok s →
  strs_env env ⊢ str_at s name ∗ (str_at s name -∗ strs_env env).
Proof.
  intros E. destruct (env !! name) as [s'|] eqn:En; [|done]. injection E as ->.
  exact (big_sepM_lookup_acc (λ l s, str_at s l) env name s En).
Qed.

Lemma hwp_run_add_str name value n s p l (Φ : unit → hpropI) :
  deref (env !! name) = Ok n → deref (env !! value) = Ok s →
  strs_env env ∗ props_at p l ∗ (strs_env env -∗ props_at (Props.props_add_str p n s) l -∗ Φ tt) ⊢
  hwp (props_add_str l name value) Φ.
Proof.
  iIntros (En Es) "(He & Hp & HΦ)". iDestruct (env_acc _ _ Es with "He") as "[Hs He]". iApply hwp_bind.
  iApply hwp_str_create. iFrame "Hs". iIntros (lv) "Hs Hv". iDestruct ("He" with "Hs") as "He".
  iDestruct (env_acc _ _ En with "He") as "[Hn He]". iApply (hwp_add p l n name _ lv). iFrame "Hp Hn Hv".
  iIntros "Hp Hn". iApply ("HΦ" with "[He Hn] Hp"). by iApply "He".
Qed.

Lemma hwp_run_copy p l (Φ : loc * props_obs → hpropI) :
  props_at p l ∗ (∀ l', props_at (Props.props_clone p) l' -∗
    Φ (l', Answer (Props.props_equal p (Props.props_clone p)))) ⊢ hwp (run_props_op PCopy l) Φ.
Proof.
  iIntros "[Hp HΦ]". iApply hwp_bind. iApply props_clone_clones. iFrame "Hp". iIntros (l') "Hp Hp'".
  rewrite Props.props_clone_id. iApply hwp_bind. iApply (hwp_props_equal p l p l'). iFrame "Hp Hp'".
  iIntros "Hp Hp'". iApply hwp_bind. iApply (props_destroy_destroys p). iFrame "Hp". iApply hwp_ret.
  by iApply "HΦ".
Qed.

Lemma hwp_run_get_one name n p l (Φ : loc * props_obs → hpropI) : deref (env !! name) = Ok n →
  strs_env env ∗ props_at p l ∗ (strs_env env -∗ props_at p l -∗ Φ (l, Value (Props.props_get_one p n))) ⊢
  hwp (run_props_op (PGetOne name) l) Φ.
Proof.
  iIntros (En) "(He & Hp & HΦ)". iDestruct (env_acc _ _ En with "He") as "[Hn He]". iApply hwp_bind.
  iApply (hwp_props_get_one p l n name). iFrame "Hp Hn". iIntros (o) "Hn Hv Hp".
  iDestruct ("He" with "Hn") as "He". iSpecialize ("HΦ" with "He").
  destruct (Props.props_get_one p n) as [v|], o as [lv|]; simpl; try done.
  - iApply hwp_bind. iApply (hwp_read_pvalue v). iFrame "Hv". iIntros "Hv". iApply hwp_ret.
    iApply "HΦ". by iApply "Hp".
  - iApply hwp_ret. iApply "HΦ". by iApply "Hp".
Qed.

Lemma hwp_run_props_op op p p' o l (Φ : loc * props_obs → hpropI) : value_props_op env op p = Ok (p', o) →
  strs_env env ∗ props_at p l ∗ (∀ l', strs_env env -∗ props_at p' l' -∗ Φ (l', o)) ⊢
  hwp (run_props_op op l) Φ.
Proof.
  destruct op as [name v|name value|name|name|name|]; intros E; cbn [value_props_op] in E.
  - apply outcome_bind_Ok in E as (n & En & [= <- <-]). iIntros "(He & Hp & HΦ)".
    iDestruct (env_acc _ _ En with "He") as "[Hn He]". iApply hwp_bind. iApply (hwp_props_add_int64 p l n).
    iFrame "Hp Hn". iIntros "Hp Hn". iApply hwp_ret. iApply ("HΦ" with "[He Hn] Hp"). by iApply "He".
  - apply outcome_bind_Ok in E as (n & En & (s & Es & [= <- <-])%outcome_bind_Ok). iIntros "(He & Hp & HΦ)".
    iApply hwp_bind. iApply (hwp_run_add_str name value n s p l _ En Es). iFrame "He Hp". iIntros "He Hp".
    iApply hwp_ret. iApply ("HΦ" with "He Hp").
  - apply outcome_bind_Ok in E as (n & En & (p1 & Ep & [= <- <-])%outcome_bind_Ok). iIntros "(He & Hp & HΦ)".
    iDestruct (env_acc _ _ En with "He") as "[Hn He]". iApply hwp_bind. iApply (hwp_props_del_one p p1 l n); [done|].
    iFrame "Hp Hn". iIntros "Hp Hn". iApply hwp_ret. iApply ("HΦ" with "[He Hn] Hp"). by iApply "He".
  - apply outcome_bind_Ok in E as (n & En & [= <- <-]). iIntros "(He & Hp & HΦ)".
    iDestruct (env_acc _ _ En with "He") as "[Hn He]". iApply hwp_bind. iApply (hwp_props_has p l n).
    iFrame "Hp Hn". iIntros "Hp Hn". iApply hwp_ret. iApply ("HΦ" with "[He Hn] Hp"). by iApply "He".
  - apply outcome_bind_Ok in E as (n & En & [= <- <-]). iIntros "(He & Hp & HΦ)".
    iApply (hwp_run_get_one name n p l _ En). iFrame "He Hp". iIntros "He Hp". iApply ("HΦ" with "He Hp").
  - injection E as <- <-. iIntros "(He & Hp & HΦ)". iApply hwp_run_copy. iFrame "Hp". iIntros (l') "Hp".
    iApply ("HΦ" with "He Hp").
Qed.

Lemma hwp_run_props_ops ops : ∀ p p' os l (Φ : loc * list props_obs → hpropI),
  value_props_ops env ops p = Ok (p', os) →
  strs_env env ∗ props_at p l ∗ (∀ l', strs_env env -∗ props_at p' l' -∗ Φ (l', os)) ⊢
  hwp (run_props_ops ops l) Φ.
Proof.
  induction ops as [|op ops IH]; intros p p' os l Φ E; simpl in E |- *.
  - injection E as <- <-. iIntros "(He & Hp & HΦ)". iApply hwp_ret. iApply ("HΦ" with "He Hp").
  - apply outcome_bind_Ok in E as ([p1 o] & E1 & ([p2 os'] & E2 & [= <- <-])%outcome_bind_Ok).
    iIntros "(He & Hp & HΦ)". iApply hwp_bind. iApply (hwp_run_props_op op p p1 o); [done|]. iFrame "He Hp".
    iIntros (l1) "He Hp". iApply hwp_bind. iApply (IH p1 p2 os'); [done|]. iFrame "He Hp".
    iIntros (l2) "He Hp". iApply hwp_ret. iApply ("HΦ" with "He Hp").
Qed.
End run.

(** ** The property *)

(** C33: properties in memory.  Any sequence of operations on a new property
    set, which adds values, deletes them, looks names up and goes on with a
    copy, runs on the two arrays of props.c without a fault and without
    touching what it does not own; it gives the answers that the operations
    of Props.v give, and leaves in memory the properties that these compute;
    the strings of the caller stay as they were; and [props_destroy] frees the
    set, both arrays, every name and every value, and leaves nothing. *)
Theorem props_ops_owned (env : gmap loc cstr) (ops : list props_op) (p : props) (os : list props_obs)
    (w : mem) (he frame : gmap loc cell) :
  mem_ok w → cells w = he ∪ frame → he ##ₘ frame → holds (strs_env env) he →
  value_props_ops env ops [] = Ok (p, os) →
  ∃ l w' hp he', (props ← props_create; run_props_ops ops props) w = Ok ((l, os), w') ∧
    mem_ok w' ∧ cells w' = (he' ∪ hp) ∪ frame ∧ (he' ∪ hp) ##ₘ frame ∧ he' ##ₘ hp ∧
    holds (strs_env env) he' ∧ holds (props_at p l) hp ∧
    ∃ w1, props_destroy (Some l) w' = Ok (tt, w1) ∧ mem_ok w1 ∧ cells w1 = he' ∪ frame.
Proof.
  intros W Ew D He E.
  destruct (hwp_run (props ← props_create; run_props_ops ops props)
    (strs_env env) (λ lc, (strs_env env ∗ props_at p lc.1) ∗ <affine> ⌜lc.2 = os⌝)%I he frame w)
    as ([l os'] & w' & h & Er & Ew' & D' & W' & (h1 & h3 & -> & _ & (he' & hp & -> & Dh & He' & Hp) & (-> & Hc))); try done.
  - iIntros "He". iApply hwp_bind. iApply hwp_props_create. iIntros (l) "Hp".
    iApply (hwp_run_props_ops env ops [] p os); [done|]. iFrame "He Hp". iIntros (l') "He Hp". by iFrame.
  - simpl in Hp, Hc. subst os'. rewrite (right_id_L ∅ (∪)) in Ew', D'.
    exists l, w', hp, he'. split_and!; try done.
    apply map_disjoint_union_l in D' as [D1 D2].
    destruct (hwp_run (props_destroy (Some l)) (props_at p l) (λ _, emp)%I hp (he' ∪ frame) w')
      as ([] & w1 & h' & Ed & Ew1 & _ & W1 & ->); try done.
    + iIntros "Hp". iApply (props_destroy_destroys p). by iFrame.
    + rewrite Ew', (map_union_comm he' hp) by done. by rewrite <-(assoc_L (∪)).
    + apply map_disjoint_union_r. done.
    + exists w1. split_and!; try done. by rewrite Ew1, (left_id_L ∅ (∪)).
Qed.

Definition example_strs : gmap loc cstr := {[1%positive := C "x"; 2%positive := C "y"]}.

Lemma example_strs_hold : holds (strs_env example_strs) (CStr <$> example_strs).
Proof.
  apply (proj1 (entails_holds _ _)) with (2 := holds_cells (CStr <$> example_strs)).
  by rewrite big_sepM_fmap.
Qed.

Lemma props_ops_owned_witness :
  let ops := [PAddInt64 1 17; PAddStr 2 1; PAddInt64 1 18; PDelOne 1; PCopy; PGetOne 1; PHas 2; PDelOne 2; PHas 2] in
  ∃ l w' hp he', (props ← props_create; run_props_ops ops props) (Memory (CStr <$> example_strs) 3) =
    Ok ((l, [Nothing; Nothing; Nothing; Nothing; Answer true; Value (Some (value_int64 18)); Answer true; Nothing;
             Answer false]), w') ∧
    cells w' = he' ∪ hp ∧ holds (props_at [(C "x", value_int64 18)] l) hp.
Proof.
  intros ops.
  destruct (props_ops_owned example_strs ops [(C "x", value_int64 18)]
    [Nothing; Nothing; Nothing; Nothing; Answer true; Value (Some (value_int64 18)); Answer true; Nothing; Answer false]
    (Memory (CStr <$> example_strs) 3) (CStr <$> example_strs) ∅)
    as (l & w' & hp & he' & Er & _ & Ew & _ & _ & _ & Hp & _).
  - intros l Hl. simpl in *. unfold example_strs. rewrite lookup_fmap, lookup_insert_ne, lookup_singleton_ne by lia. done.
  - simpl. by rewrite (right_id_L ∅ (∪)).
  - apply map_disjoint_empty_r.
  - apply example_strs_hold.
  - reflexivity.
  - exists l, w', hp, he'. refine (conj Er (conj _ Hp)). exact (eq_trans Ew (right_id_L ∅ (∪) _)).
Defined.
