(* ===== verification/ServiceMem.v ===== *)
(** * Services and subscriptions in memory (src/sd/generation.c, service.c, sub.c)

    The functions of generation.c, service.c and sub.c that make, change and
    free objects, over the memory of Cells.v.  A service owns its three
    generations and each of these its properties; a subscription owns its
    filter.  [service_ops_owned] shows for any sequence of operations on a
    service, from its creation on, that memory holds exactly the service that
    Service.v computes, until the last reference is given up, and then nothing
    of it; [sub_owns_filter] shows the same for a subscription. *)

From S2P Require Import Prelude CLib Mem Plist Sbuf Pvalue Props Filter Double Service Sub Heap Cells FilterMem PropsMem.
From iris.proofmode Require Import proofmode.

#[local] Unset SsrRewrite.

(** ** generation.c *)

Definition get_generation (generation : loc) : M mem generation_cell :=
  c ← get generation; match c with CGeneration g => mret g | _ => bad_cell end.

Definition generation_create : M mem loc :=
  generation ← new CFresh;
  _ ← set generation (CGeneration (GenerationCell (-1) None (-1) NAN (-1)));
  mret generation.

(** [props_clone] must not be given a null pointer. *)
Definition generation_clone (original : loc) : M mem loc :=
  generation ← new CFresh;
  g ← get_generation original;
  props ← match gc_props g with Some p => props_clone p | None => bad_cell end;
  _ ← set generation (CGeneration (GenerationCell (gc_generation g) (Some props) (gc_ttl g)
        (gc_orphan_since g) (gc_client_id g)));
  mret generation.

Definition generation_is_consistent (generation : loc) : M mem bool :=
  g ← get_generation generation;
  mret (bool_decide (0 ≤ gc_generation g)%Z && bool_decide (gc_props g ≠ None) &&
        bool_decide (0 ≤ gc_ttl g)%Z && negb (isnan (gc_orphan_since g)) &&
        bool_decide (0 ≤ gc_client_id g)%Z).

(** [GEN_SIMPLE_SET_RELAY] *)
Definition generation_set_generation (v : Z) (g : loc) : M mem unit :=
  c ← get_generation g;
  set g (CGeneration (GenerationCell v (gc_props c) (gc_ttl c) (gc_orphan_since c) (gc_client_id c))).

Definition generation_set_ttl (v : Z) (g : loc) : M mem unit :=
  c ← get_generation g;
  set g (CGeneration (GenerationCell (gc_generation c) (gc_props c) v (gc_orphan_since c) (gc_client_id c))).

Definition generation_set_orphan_since (v : double) (g : loc) : M mem unit :=
  c ← get_generation g;
  set g (CGeneration (GenerationCell (gc_generation c) (gc_props c) (gc_ttl c) v (gc_client_id c))).

Definition generation_set_client_id (v : Z) (g : loc) : M mem unit :=
  c ← get_generation g;
  set g (CGeneration (GenerationCell (gc_generation c) (gc_props c) (gc_ttl c) (gc_orphan_since c) v)).

(** The old properties are freed before the new ones are copied. *)
Definition generation_set_props (props generation : loc) : M mem unit :=
  c ← get_generation generation;
  _ ← props_destroy (gc_props c);
  copy ← props_clone props;
  set generation (CGeneration (GenerationCell (gc_generation c) (Some copy) (gc_ttl c)
    (gc_orphan_since c) (gc_client_id c))).

Definition generation_destroy (generation : option loc) : M mem unit :=
  match generation with
  | Some generation =>
      c ← get_generation generation;
      _ ← props_destroy (gc_props c);
      ut_free (Some generation)
  | None => mret tt
  end.

(** ** service.c *)

Definition get_service (service : loc) : M mem service_cell :=
  c ← get service; match c with CService s => mret s | _ => bad_cell end.

Definition put_service (service : loc) (s : service_cell) : M mem unit :=
  set service (CService s).

Definition service_create (service_id : Z) : M mem loc :=
  service ← new CFresh;
  _ ← put_service service (ServiceCell service_id service_change_type_none None None None 1);
  mret service.

Definition service_inc_ref (service : loc) : M mem unit :=
  s ← get_service service;
  _ ← lift (ut_assert (bool_decide (0 < sc_ref_cnt s)%Z));
  put_service service (ServiceCell (sc_service_id s) (sc_change_in_progress s)
    (sc_current s) (sc_prev s) (sc_next s) (sc_ref_cnt s + 1)).

Definition destroy (service : loc) : M mem unit :=
  s ← get_service service;
  _ ← generation_destroy (sc_current s);
  _ ← generation_destroy (sc_prev s);
  _ ← generation_destroy (sc_next s);
  ut_free (Some service).

Definition service_dec_ref (service : loc) : M mem unit :=
  s ← get_service service;
  _ ← lift (ut_assert (bool_decide (0 < sc_ref_cnt s)%Z));
  _ ← put_service service (ServiceCell (sc_service_id s) (sc_change_in_progress s)
        (sc_current s) (sc_prev s) (sc_next s) (sc_ref_cnt s - 1));
  if bool_decide (sc_ref_cnt s - 1 = 0)%Z then destroy service else mret tt.

Definition has_ongoing_change (service : loc) : M mem bool :=
  s ← get_service service;
  match sc_change_in_progress s with
  | service_change_type_added
  | service_change_type_modified =>
      _ ← lift (ut_assert (bool_decide (sc_next s ≠ None))); mret true
  | service_change_type_none =>
      _ ← lift (ut_assert (bool_decide (sc_next s = None))); mret false
  | service_change_type_removed => fault_with AssertFailed
  end.

Definition put_next (service : loc) (change : service_change_type) (next : option loc) : M mem unit :=
  s ← get_service service;
  put_service service (ServiceCell (sc_service_id s) change (sc_current s) (sc_prev s) next (sc_ref_cnt s)).

Definition service_add_begin (service : loc) : M mem unit :=
  ongoing ← has_ongoing_change service;
  _ ← lift (ut_assert (negb ongoing));
  next ← generation_create;
  put_next service service_change_type_added (Some next).

Definition service_modify_begin (service : loc) : M mem unit :=
  ongoing ← has_ongoing_change service;
  _ ← lift (ut_assert (negb ongoing));
  s ← get_service service;
  next ← match sc_current s with Some g => generation_clone g | None => bad_cell end;
  put_next service service_change_type_modified (Some next).

(** Up to the call of the change callback, and the change it is told of. *)
Definition service_commit (service : loc) : M mem service_change_type :=
  ongoing ← has_ongoing_change service;
  _ ← lift (ut_assert ongoing);
  s ← get_service service;
  consistent ← match sc_next s with Some g => generation_is_consistent g | None => bad_cell end;
  _ ← lift (ut_assert consistent);
  _ ← generation_destroy (sc_prev s);
  _ ← put_service service (ServiceCell (sc_service_id s) service_change_type_none
        (sc_next s) (sc_current s) None (sc_ref_cnt s));
  mret (sc_change_in_progress s).

Definition service_remove (service : loc) : M mem service_change_type :=
  ongoing ← has_ongoing_change service;
  _ ← lift (ut_assert (negb ongoing));
  s ← get_service service;
  _ ← generation_destroy (sc_prev s);
  _ ← put_service service (ServiceCell (sc_service_id s) (sc_change_in_progress s)
        None (sc_current s) (sc_next s) (sc_ref_cnt s));
  mret service_change_type_removed.

Definition service_abort (service : loc) : M mem unit :=
  ongoing ← has_ongoing_change service;
  _ ← lift (ut_assert ongoing);
  s ← get_service service;
  _ ← generation_destroy (sc_next s);
  put_next service service_change_type_none None.

(** [GEN_SET_RELAY] *)
Definition service_set (f : loc → M mem unit) (service : loc) : M mem unit :=
  ongoing ← has_ongoing_change service;
  _ ← lift (ut_assert ongoing);
  s ← get_service service;
  match sc_next s with Some g => f g | None => bad_cell end.

Definition service_set_generation (v : Z) : loc → M mem unit := service_set (generation_set_generation v).
Definition service_set_props (props : loc) : loc → M mem unit := service_set (generation_set_props props).
Definition service_set_ttl (v : Z) : loc → M mem unit := service_set (generation_set_ttl v).
Definition service_set_orphan_since (v : double) : loc → M mem unit := service_set (generation_set_orphan_since v).
Definition service_set_client_id (v : Z) : loc → M mem unit := service_set (generation_set_client_id v).
Definition service_set_non_orphan : loc → M mem unit := service_set_orphan_since (d_of_Z (-1)).

(** ** sub.c *)

Definition get_sub (sub : loc) : M mem sub_cell :=
  c ← get sub; match c with CSub s => mret s | _ => bad_cell end.

Definition sub_create (sub_id : Z) (filter : option loc) (client_id match_cb_data : Z) : M mem loc :=
  sub ← new CFresh;
  filter ← filter_clone_non_null filter;
  _ ← set sub (CSub (SubCell sub_id filter client_id match_cb_data 1));
  mret sub.

Definition sub_inc_ref (sub : loc) : M mem unit :=
  s ← get_sub sub;
  _ ← lift (ut_assert (bool_decide (0 < bc_ref_cnt s)%Z));
  set sub (CSub (SubCell (bc_sub_id s) (bc_filter s) (bc_client_id s) (bc_match_cb_data s) (bc_ref_cnt s + 1))).

Definition sub_destroy (sub : loc) : M mem unit :=
  s ← get_sub sub;
  _ ← filter_destroy (bc_filter s);
  ut_free (Some sub).

Definition sub_dec_ref (sub : loc) : M mem unit :=
  s ← get_sub sub;
  _ ← lift (ut_assert (bool_decide (0 < bc_ref_cnt s)%Z));
  _ ← set sub (CSub (SubCell (bc_sub_id s) (bc_filter s) (bc_client_id s) (bc_match_cb_data s) (bc_ref_cnt s - 1)));
  if bool_decide (bc_ref_cnt s - 1 = 0)%Z then sub_destroy sub else mret tt.

(** ** Services as assertions *)

Definition generation_at (g : generation) (l : loc) : hpropI :=
  ∃ lp, l ↦ CGeneration (GenerationCell (gen_generation g) lp (gen_ttl g) (gen_orphan_since g) (gen_client_id g)) ∗
    opt_at (props_at <$> gen_props g) lp.

Abbreviation gen_opt g := (opt_at (generation_at <$> g)).

Definition service_at (s : service) (l : loc) : hpropI :=
  ∃ lc lp ln,
    l ↦ CService (ServiceCell (service_id s) (change_in_progress s) lc lp ln (service_ref_cnt s)) ∗
    gen_opt (current s) lc ∗ gen_opt (prev s) lp ∗ gen_opt (next s) ln.

Definition sub_at (s : sub) (l : loc) : hpropI :=
  ∃ lf, l ↦ CSub (SubCell (sub_id s) lf (sub_client_id s) (match_cb_data s) (sub_ref_cnt s)) ∗
    opt_at (filter_at <$> sub_filter s) lf.

(** ** Generations *)

Lemma hwp_get_generation l g (Φ : generation_cell → hpropI) :
  l ↦ CGeneration g ∗ (l ↦ CGeneration g -∗ Φ g) ⊢ hwp (get_generation l) Φ.
Proof.
  iIntros "[Hl HΦ]". iApply hwp_bind. iApply hwp_get. iFrame "Hl". iIntros "Hl".
  iApply hwp_ret. by iApply "HΦ".
Qed.

Lemma hwp_props_destroy o l (Φ : unit → hpropI) :
  opt_at (props_at <$> o) l ∗ Φ tt ⊢ hwp (props_destroy l) Φ.
Proof.
  iIntros "[Hp HΦ]". destruct o as [p|], l as [l|]; simpl; try done.
  - iApply (props_destroy_destroys p l). iFrame.
  - iApply hwp_ret. iExact "HΦ".
Qed.

Lemma hwp_generation_destroy o l (Φ : unit → hpropI) : gen_opt o l ∗ Φ tt ⊢ hwp (generation_destroy l) Φ.
Proof.
  iIntros "[Hg HΦ]". destruct o as [g|], l as [l|]; simpl; try done; [|by iApply hwp_ret].
  iDestruct "Hg" as (lp) "[Hl Hp]". iApply hwp_bind. iApply hwp_get_generation. iFrame "Hl". iIntros "Hl".
  iApply hwp_bind. iApply (hwp_props_destroy (gen_props g)). iFrame "Hp". iApply hwp_release. iFrame.
Qed.

Lemma hwp_generation_create (Φ : loc → hpropI) :
  (∀ l, generation_at Service.generation_create l -∗ Φ l) ⊢ hwp generation_create Φ.
Proof.
  iIntros "HΦ". h_new l "Hl". iApply hwp_bind. iApply hwp_set. iFrame "Hl". iIntros "Hl".
  iApply hwp_ret. iApply "HΦ". iExists None. by iFrame.
Qed.

Lemma hwp_generation_clone g g' l (Φ : loc → hpropI) : Service.generation_clone g = Ok g' →
  generation_at g l ∗ (∀ l', generation_at g l -∗ generation_at g' l' -∗ Φ l') ⊢
  hwp (generation_clone l) Φ.
Proof.
  unfold Service.generation_clone. destruct (gen_props g) as [p|] eqn:E; [|done]. intros [= <-].
  iIntros "[Hg HΦ]". iDestruct "Hg" as (lp) "[Hl Hp]". rewrite E. destruct lp as [lp|]; simpl; [|done].
  h_new l' "Hl'". iApply hwp_bind. iApply hwp_get_generation. iFrame "Hl". iIntros "Hl".
  iApply hwp_bind. iApply (props_clone_clones p). iFrame "Hp". iIntros (lp') "Hp Hp'".
  iApply hwp_bind. iApply hwp_set. iFrame "Hl'". iIntros "Hl'". iApply hwp_ret.
  iApply ("HΦ" with "[Hl Hp] [Hl' Hp']").
  - iExists (Some lp). rewrite E. iFrame.
  - iExists (Some lp'). simpl. rewrite props_clone_id. iFrame.
Qed.

Lemma hwp_generation_is_consistent g l (Φ : bool → hpropI) :
  generation_at g l ∗ (generation_at g l -∗ Φ (Service.generation_is_consistent g)) ⊢
  hwp (generation_is_consistent l) Φ.
Proof.
  iIntros "[Hg HΦ]". iDestruct "Hg" as (lp) "[Hl Hp]". iApply hwp_bind. iApply hwp_get_generation. iFrame "Hl".
  iIntros "Hl". iApply hwp_ret. simpl. unfold Service.generation_is_consistent.
  destruct (gen_props g) as [p|] eqn:E, lp as [lp|]; simpl; try done.
  - iApply "HΦ". iExists (Some lp). rewrite E. iFrame.
  - iApply "HΦ". iExists None. rewrite E. by iFrame.
Qed.

(** A setter and its effect, with what else it needs. *)
Definition sets (R : hpropI) (f : loc → M mem unit) (F : generation → generation) : Prop :=
  ∀ g l (Φ : unit → hpropI), R ∗ generation_at g l ∗ (R -∗ generation_at (F g) l -∗ Φ tt) ⊢ hwp (f l) Φ.

Ltac set_simple :=
  iIntros (g l Φ) "(HR & H & HΦ)"; iDestruct "H" as (lp) "[Hl Hp]";
  iApply hwp_bind; iApply hwp_get_generation; iFrame "Hl"; iIntros "Hl";
  iApply hwp_set; iFrame "Hl"; iIntros "Hl"; iApply ("HΦ" with "HR"); iExists _; iFrame.

Lemma sets_generation R v : sets R (generation_set_generation v) (Service.generation_set_generation v).
Proof. set_simple. Qed.
Lemma sets_ttl R v : sets R (generation_set_ttl v) (Service.generation_set_ttl v).
Proof. set_simple. Qed.
Lemma sets_orphan_since R v : sets R (generation_set_orphan_since v) (Service.generation_set_orphan_since v).
Proof. set_simple. Qed.
Lemma sets_client_id R v : sets R (generation_set_client_id v) (Service.generation_set_client_id v).
Proof. set_simple. Qed.

Lemma sets_props p lp : sets (props_at p lp) (generation_set_props lp) (Service.generation_set_props p).
Proof.
  iIntros (g l Φ) "(Hp & Hg & HΦ)". iDestruct "Hg" as (lo) "[Hl Ho]".
  iApply hwp_bind. iApply hwp_get_generation. iFrame "Hl". iIntros "Hl".
  iApply hwp_bind. iApply (hwp_props_destroy (gen_props g)). iFrame "Ho".
  iApply hwp_bind. iApply (props_clone_clones p). iFrame "Hp". iIntros (lp') "Hp Hp'".
  iApply hwp_set. iFrame "Hl". iIntros "Hl". iApply ("HΦ" with "Hp").
  unfold Service.generation_set_props. rewrite props_clone_id. iExists (Some lp'). iFrame.
Qed.

(** ** Operations on a service *)

Inductive service_op :=
  | OpAddBegin
  | OpModifyBegin
  | OpSetGeneration (v : Z)
  | OpSetProps (props : loc)
  | OpSetTtl (v : Z)
  | OpSetOrphanSince (v : double)
  | OpSetNonOrphan
  | OpSetClientId (v : Z)
  | OpCommit
  | OpRemove
  | OpAbort
  | OpIncRef
  | OpDecRef.

(** An operation in memory, and the change that the callback is told of. *)
Definition run_op (op : service_op) (service : loc) : M mem (option service_change_type) :=
  let quiet (m : M mem unit) := _ ← m; mret None in
  match op with
  | OpAddBegin => quiet (service_add_begin service)
  | OpModifyBegin => quiet (service_modify_begin service)
  | OpSetGeneration v => quiet (service_set_generation v service)
  | OpSetProps props => quiet (service_set_props props service)
  | OpSetTtl v => quiet (service_set_ttl v service)
  | OpSetOrphanSince v => quiet (service_set_orphan_since v service)
  | OpSetNonOrphan => quiet (service_set_non_orphan service)
  | OpSetClientId v => quiet (service_set_client_id v service)
  | OpCommit => Some <$> service_commit service
  | OpRemove => Some <$> service_remove service
  | OpAbort => quiet (service_abort service)
  | OpIncRef => quiet (service_inc_ref service)
  | OpDecRef => quiet (service_dec_ref service)
  end.

(** The same operation on the service of Service.v: the service, unless it is
    gone, and the change.  [env] says what the properties of the caller are. *)
Definition value_op (env : gmap loc props) (op : service_op) (s : service)
    : outcome (option service * option service_change_type) :=
  let quiet (o : outcome service) := s' ← o; Ok (Some s', None) in
  match op with
  | OpAddBegin => quiet (Service.service_add_begin s)
  | OpModifyBegin => quiet (Service.service_modify_begin s)
  | OpSetGeneration v => quiet (Service.service_set_generation v s)
  | OpSetProps props => p ← deref (env !! props); quiet (Service.service_set_props p s)
  | OpSetTtl v => quiet (Service.service_set_ttl v s)
  | OpSetOrphanSince v => quiet (Service.service_set_orphan_since v s)
  | OpSetNonOrphan => quiet (Service.service_set_non_orphan s)
  | OpSetClientId v => quiet (Service.service_set_client_id v s)
  | OpCommit => '(s', change) ← service_commit_change s; Ok (Some s', Some change)
  | OpRemove => '(s', change) ← service_remove_change s; Ok (Some s', Some change)
  | OpAbort => quiet (Service.service_abort s)
  | OpIncRef =>
      _ ← ut_assert (bool_decide (0 < service_ref_cnt s)%Z);
      Ok (Some (with_ref_cnt (service_ref_cnt s + 1) s), None)
  | OpDecRef =>
      _ ← ut_assert (bool_decide (0 < service_ref_cnt s)%Z);
      let s' := with_ref_cnt (service_ref_cnt s - 1) s in
      Ok (if bool_decide (service_ref_cnt s' = 0)%Z then None else Some s', None)
  end.

Fixpoint run_ops (ops : list service_op) (service : loc) : M mem (list service_change_type) :=
  match ops with
  | [] => mret []
  | op :: ops =>
      change ← run_op op service;
      changes ← run_ops ops service;
      mret (option_list change ++ changes)
  end.

Fixpoint value_ops (env : gmap loc props) (ops : list service_op) (o : option service)
    : outcome (option service * list service_change_type) :=
  match ops with
  | [] => Ok (o, [])
  | op :: ops =>
      s ← deref o;
      '(o', change) ← value_op env op s;
      '(o'', changes) ← value_ops env ops o';
      Ok (o'', option_list change ++ changes)
  end.

(** ** Their effect in memory *)

Lemma hwp_get_service l s (Φ : service_cell → hpropI) :
  l ↦ CService s ∗ (l ↦ CService s -∗ Φ s) ⊢ hwp (get_service l) Φ.
Proof.
  iIntros "[Hl HΦ]". iApply hwp_bind. iApply hwp_get. iFrame "Hl". iIntros "Hl".
  iApply hwp_ret. by iApply "HΦ".
Qed.

Ltac s_get := iApply hwp_bind; iApply hwp_get_service; iFrame "Hl"; iIntros "Hl".

(** A null pointer is where there is no generation. *)
Lemma gen_opt_null g l : gen_opt g l ⊢ <affine> ⌜bool_decide (l = None) = bool_decide (g = None)⌝ ∗ gen_opt g l.
Proof. iIntros "H". destruct g as [g|], l as [l|]; simpl; try done; by iFrame. Qed.

Lemma hwp_service_create id (Φ : loc → hpropI) :
  (∀ l, service_at (service_init id) l -∗ Φ l) ⊢ hwp (service_create id) Φ.
Proof.
  iIntros "HΦ". h_new l "Hl". iApply hwp_bind. iApply hwp_set. iFrame "Hl". iIntros "Hl".
  iApply hwp_ret. iApply "HΦ". iExists None, None, None. iFrame "Hl". simpl. by do 2 (iSplit; [done|]).
Qed.

Lemma hwp_has_ongoing_change s b l (Φ : bool → hpropI) : Service.has_ongoing_change s = Ok b →
  service_at s l ∗ (service_at s l -∗ Φ b) ⊢ hwp (has_ongoing_change l) Φ.
Proof.
  iIntros (E) "[Hs HΦ]". iDestruct "Hs" as (lc lp ln) "(Hl & Hc & Hp & Hn)".
  s_get. simpl. iDestruct (gen_opt_null with "Hn") as "[%Hn Hn]".
  iAssert (Φ b) with "[HΦ Hl Hc Hp Hn]" as "HΦ"; [iApply "HΦ"; iExists lc, lp, ln; iFrame|].
  unfold Service.has_ongoing_change in E. destruct (change_in_progress s); [| | |done].
  - rewrite Hn. destruct (bool_decide _); [|done]. injection E as <-.
    iApply hwp_bind. iApply (hwp_lift _ tt); [done|]. by iApply hwp_ret.
  - rewrite bool_decide_not, Hn. rewrite bool_decide_not in E. destruct (bool_decide _); [done|].
    injection E as <-. iApply hwp_bind. iApply (hwp_lift _ tt); [done|]. by iApply hwp_ret.
  - rewrite bool_decide_not, Hn. rewrite bool_decide_not in E. destruct (bool_decide _); [done|].
    injection E as <-. iApply hwp_bind. iApply (hwp_lift _ tt); [done|]. by iApply hwp_ret.
Qed.

(** The guard of an operation. *)
Lemma hwp_guard {A} (want : bool → bool) s b l (m : M mem A) (Φ : A → hpropI) :
  Service.has_ongoing_change s = Ok b → want b = true →
  service_at s l ∗ (service_at s l -∗ hwp m Φ) ⊢
  hwp (ongoing ← has_ongoing_change l; _ ← lift (ut_assert (want ongoing)); m) Φ.
Proof.
  iIntros (E Hw) "[Hs HΦ]". iApply hwp_bind. iApply (hwp_has_ongoing_change s b); [done|]. iFrame "Hs".
  iIntros "Hs". iApply hwp_bind. iApply (hwp_lift _ tt); [by rewrite Hw|]. by iApply "HΦ".
Qed.

Lemma guard_inv (s : service) {B} (want : bool → bool) (f : outcome B) r :
  (ongoing ← Service.has_ongoing_change s; _ ← ut_assert (want ongoing); f) = Ok r →
  ∃ b, Service.has_ongoing_change s = Ok b ∧ want b = true ∧ f = Ok r.
Proof.
  destruct (Service.has_ongoing_change s) as [b|]; [|done]. simpl. destruct (want b) eqn:E; [|done].
  intros H. by exists b.
Qed.

Lemma hwp_put_next s l c g lg (Φ : unit → hpropI) : next s = None →
  service_at s l ∗ gen_opt g lg ∗ (service_at (with_next c g s) l -∗ Φ tt) ⊢ hwp (put_next l c lg) Φ.
Proof.
  iIntros (E) "(Hs & Hg & HΦ)". iDestruct "Hs" as (lc lp ln) "(Hl & Hc & Hp & Hn)". rewrite E.
  s_get. iApply hwp_set. iFrame "Hl". iIntros "Hl". iApply "HΦ". iExists lc, lp, lg. iFrame "Hl Hc Hp Hg".
  by destruct ln.
Qed.

Lemma ongoing_next s b : Service.has_ongoing_change s = Ok b → b = bool_decide (next s ≠ None).
Proof.
  unfold Service.has_ongoing_change. destruct (change_in_progress s); [| | |done];
    destruct (next s); simpl; congruence.
Qed.

Lemma hwp_service_add_begin s s' l (Φ : unit → hpropI) : Service.service_add_begin s = Ok s' →
  service_at s l ∗ (service_at s' l -∗ Φ tt) ⊢ hwp (service_add_begin l) Φ.
Proof.
  intros (b & Eb & Hb & [= <-])%guard_inv. iIntros "[Hs HΦ]".
  iApply (hwp_guard negb s b); [done..|]. iFrame "Hs". iIntros "Hs".
  iApply hwp_bind. iApply hwp_generation_create. iIntros (lg) "Hg".
  iApply (hwp_put_next s l _ (Some Service.generation_create) (Some lg)); [|iFrame].
  apply ongoing_next in Eb. destruct b, (next s); done.
Qed.

Lemma hwp_service_modify_begin s s' l (Φ : unit → hpropI) : Service.service_modify_begin s = Ok s' →
  service_at s l ∗ (service_at s' l -∗ Φ tt) ⊢ hwp (service_modify_begin l) Φ.
Proof.
  intros (b & Eb & Hb & E)%guard_inv. iIntros "[Hs HΦ]".
  iApply (hwp_guard negb s b); [done..|]. iFrame "Hs". iIntros "Hs".
  destruct (current s) as [g|] eqn:Ec; [|done]. simpl in E.
  destruct (Service.generation_clone g) as [g'|] eqn:Eg; [|done]. injection E as <-.
  iDestruct "Hs" as (lc lp ln) "(Hl & Hc & Hp & Hn)". rewrite Ec. destruct lc as [lc|]; simpl; [|done].
  s_get. iApply hwp_bind. iApply (hwp_generation_clone g g'); [done|]. iFrame "Hc". iIntros (lg) "Hc Hg".
  iApply (hwp_put_next s l _ (Some g') (Some lg)).
  { apply ongoing_next in Eb. destruct b, (next s); done. }
  iFrame "Hg HΦ". iExists (Some lc), lp, ln. rewrite Ec. iFrame.
Qed.

Lemma hwp_service_commit s s' change l (Φ : service_change_type → hpropI) :
  service_commit_change s = Ok (s', change) →
  service_at s l ∗ (service_at s' l -∗ Φ change) ⊢ hwp (service_commit l) Φ.
Proof.
  intros (b & Eb & Hb & E)%(guard_inv s id). iIntros "[Hs HΦ]".
  iApply (hwp_guard id s b); [done..|]. iFrame "Hs". iIntros "Hs".
  destruct (next s) as [g|] eqn:En; [|done]. simpl in E.
  destruct (Service.generation_is_consistent g) eqn:Eg; [|done]. simpl in E. injection E as <- <-.
  iDestruct "Hs" as (lc lp ln) "(Hl & Hc & Hp & Hn)". rewrite En. destruct ln as [ln|]; simpl; [|done].
  s_get. iApply hwp_bind. iApply hwp_generation_is_consistent. iFrame "Hn". iIntros "Hn".
  iApply hwp_bind. iApply (hwp_lift _ tt); [by rewrite Eg|].
  iApply hwp_bind. iApply (hwp_generation_destroy (prev s)). iFrame "Hp".
  iApply hwp_bind. iApply hwp_set. iFrame "Hl". iIntros "Hl". iApply hwp_ret. iApply "HΦ".
  iExists (Some ln), lc, None. simpl. by iFrame.
Qed.

Lemma hwp_service_remove s s' change l (Φ : service_change_type → hpropI) :
  service_remove_change s = Ok (s', change) →
  service_at s l ∗ (service_at s' l -∗ Φ change) ⊢ hwp (service_remove l) Φ.
Proof.
  intros (b & Eb & Hb & [= <- <-])%guard_inv. iIntros "[Hs HΦ]".
  iApply (hwp_guard negb s b); [done..|]. iFrame "Hs". iIntros "Hs".
  iDestruct "Hs" as (lc lp ln) "(Hl & Hc & Hp & Hn)". s_get.
  iApply hwp_bind. iApply (hwp_generation_destroy (prev s)). iFrame "Hp".
  iApply hwp_bind. iApply hwp_set. iFrame "Hl". iIntros "Hl". iApply hwp_ret. iApply "HΦ".
  iExists None, lc, ln. simpl. by iFrame.
Qed.

Lemma hwp_service_abort s s' l (Φ : unit → hpropI) : Service.service_abort s = Ok s' →
  service_at s l ∗ (service_at s' l -∗ Φ tt) ⊢ hwp (service_abort l) Φ.
Proof.
  intros (b & Eb & Hb & [= <-])%(guard_inv s id). iIntros "[Hs HΦ]".
  iApply (hwp_guard id s b); [done..|]. iFrame "Hs". iIntros "Hs".
  iDestruct "Hs" as (lc lp ln) "(Hl & Hc & Hp & Hn)". s_get.
  iApply hwp_bind. iApply (hwp_generation_destroy (next s)). iFrame "Hn".
  unfold put_next. s_get. iApply hwp_set. iFrame "Hl". iIntros "Hl". iApply "HΦ".
  iExists lc, lp, None. simpl. by iFrame.
Qed.

Lemma hwp_service_set (R : hpropI) f F s s' l (Φ : unit → hpropI) : sets R f F →
  Service.service_set F s = Ok s' →
  R ∗ service_at s l ∗ (R -∗ service_at s' l -∗ Φ tt) ⊢ hwp (service_set f l) Φ.
Proof.
  intros Hf (b & Eb & Hb & E)%(guard_inv s id). iIntros "(HR & Hs & HΦ)".
  iApply (hwp_guard id s b); [done..|]. iFrame "Hs". iIntros "Hs".
  destruct (next s) as [g|] eqn:En; [|done]. injection E as <-.
  iDestruct "Hs" as (lc lp ln) "(Hl & Hc & Hp & Hn)". rewrite En. destruct ln as [ln|]; simpl; [|done].
  s_get. iApply (Hf g ln). iFrame "HR Hn". iIntros "HR Hn". iApply ("HΦ" with "HR").
  iExists lc, lp, (Some ln). iFrame.
Qed.

Lemma hwp_service_inc_ref s l (Φ : unit → hpropI) : (0 < service_ref_cnt s)%Z →
  service_at s l ∗ (service_at (with_ref_cnt (service_ref_cnt s + 1) s) l -∗ Φ tt) ⊢ hwp (service_inc_ref l) Φ.
Proof.
  iIntros (Hr) "[Hs HΦ]". iDestruct "Hs" as (lc lp ln) "(Hl & Hc & Hp & Hn)". s_get.
  iApply hwp_bind. iApply (hwp_lift _ tt); [by rewrite bool_decide_eq_true_2|].
  iApply hwp_set. iFrame "Hl". iIntros "Hl". iApply "HΦ". iExists lc, lp, ln. iFrame.
Qed.

Definition held (o : option service) (l : loc) : hpropI :=
  match o with Some s => service_at s l | None => emp end.

Lemma hwp_service_dec_ref s l (Φ : unit → hpropI) : (0 < service_ref_cnt s)%Z →
  let s' := with_ref_cnt (service_ref_cnt s - 1) s in
  service_at s l ∗ (held (if bool_decide (service_ref_cnt s' = 0)%Z then None else Some s') l -∗ Φ tt) ⊢
  hwp (service_dec_ref l) Φ.
Proof.
  iIntros (Hr s') "[Hs HΦ]". iDestruct "Hs" as (lc lp ln) "(Hl & Hc & Hp & Hn)". s_get.
  iApply hwp_bind. iApply (hwp_lift _ tt); [by rewrite bool_decide_eq_true_2|].
  iApply hwp_bind. iApply hwp_set. iFrame "Hl". iIntros "Hl". simpl. case_bool_decide.
  - s_get. iApply hwp_bind. iApply (hwp_generation_destroy (current s)). iFrame "Hc".
    iApply hwp_bind. iApply (hwp_generation_destroy (prev s)). iFrame "Hp".
    iApply hwp_bind. iApply (hwp_generation_destroy (next s)). iFrame "Hn".
    iApply hwp_release. iFrame "Hl". by iApply "HΦ".
  - iApply hwp_ret. iApply "HΦ". iExists lc, lp, ln. iFrame.
Qed.

(** The caller's properties. *)
Definition env_at (env : gmap loc props) : hpropI := [∗ map] l↦p ∈ env, props_at p l.

Lemma hwp_quiet (m : M mem unit) (Φ : option service_change_type → hpropI) :
  hwp m (λ _, Φ None) ⊢ hwp (_ ← m; mret None) Φ.
Proof. iIntros "H". iApply hwp_bind. iApply (hwp_wand with "[$H]"). iIntros (_) "H". by iApply hwp_ret. Qed.

Lemma quiet_inv (o : outcome service) r ch :
  (s' ← o; Ok (Some s', None)) = Ok (r, ch) → ∃ s', o = Ok s' ∧ r = Some s' ∧ ch = @None service_change_type.
Proof. intros (s' & E & [= <- <-])%outcome_bind_Ok. by exists s'. Qed.

Section run.
Context (env : gmap loc props) (s : service) (l : loc).

Lemma hwp_set_op f F r ch (Φ : option service_change_type → hpropI) : sets emp f F →
  (s' ← Service.service_set F s; Ok (Some s', None)) = Ok (r, ch) →
  env_at env ∗ service_at s l ∗ (env_at env -∗ held r l -∗ Φ ch) ⊢ hwp (_ ← service_set f l; mret None) Φ.
Proof.
  intros Hf (s' & E & -> & ->)%quiet_inv. iIntros "(He & Hs & HΦ)". iApply hwp_quiet.
  iApply (hwp_service_set emp f F s s'); [done..|]. iSplitR; [done|]. iFrame "Hs". iIntros "_ Hs".
  iApply ("HΦ" with "He Hs").
Qed.

Lemma hwp_props_op lp r ch (Φ : option service_change_type → hpropI) :
  value_op env (OpSetProps lp) s = Ok (r, ch) →
  env_at env ∗ service_at s l ∗ (env_at env -∗ held r l -∗ Φ ch) ⊢ hwp (run_op (OpSetProps lp) l) Φ.
Proof.
  simpl. intros E. destruct (env !! lp) as [p|] eqn:Ep; [|done]. simpl in E.
  apply quiet_inv in E as (s' & E & -> & ->). iIntros "(He & Hs & HΦ)". iApply hwp_quiet.
  iDestruct (big_sepM_lookup_acc _ _ _ _ Ep with "He") as "[Hp He]".
  iApply (hwp_service_set (props_at p lp) _ _ s s'); [apply sets_props|exact E|]. iFrame "Hp Hs".
  iIntros "Hp Hs". iApply ("HΦ" with "[He Hp] Hs"). by iApply "He".
Qed.

Lemma hwp_run_op op r ch (Φ : option service_change_type → hpropI) : value_op env op s = Ok (r, ch) →
  env_at env ∗ service_at s l ∗ (env_at env -∗ held r l -∗ Φ ch) ⊢ hwp (run_op op l) Φ.
Proof.
  intros E. destruct op; cbn [value_op run_op] in E |- *.
  - apply quiet_inv in E as (s' & E & -> & ->). iIntros "(He & Hs & HΦ)". iApply hwp_quiet.
    iApply (hwp_service_add_begin s s'); [done|]. iFrame "Hs". iApply ("HΦ" with "He").
  - apply quiet_inv in E as (s' & E & -> & ->). iIntros "(He & Hs & HΦ)". iApply hwp_quiet.
    iApply (hwp_service_modify_begin s s'); [done|]. iFrame "Hs". iApply ("HΦ" with "He").
  - exact (hwp_set_op _ _ r ch Φ (sets_generation emp v) E).
  - exact (hwp_props_op props r ch Φ E).
  - exact (hwp_set_op _ _ r ch Φ (sets_ttl emp v) E).
  - exact (hwp_set_op _ _ r ch Φ (sets_orphan_since emp v) E).
  - exact (hwp_set_op _ _ r ch Φ (sets_orphan_since emp (d_of_Z (-1))) E).
  - exact (hwp_set_op _ _ r ch Φ (sets_client_id emp v) E).
  - apply outcome_bind_Ok in E as ([s' change] & E & [= <- <-]). iIntros "(He & Hs & HΦ)". iApply hwp_fmap.
    iApply (hwp_service_commit s s' change); [done|]. iFrame "Hs". iApply ("HΦ" with "He").
  - apply outcome_bind_Ok in E as ([s' change] & E & [= <- <-]). iIntros "(He & Hs & HΦ)". iApply hwp_fmap.
    iApply (hwp_service_remove s s' change); [done|]. iFrame "Hs". iApply ("HΦ" with "He").
  - apply quiet_inv in E as (s' & E & -> & ->). iIntros "(He & Hs & HΦ)". iApply hwp_quiet.
    iApply (hwp_service_abort s s'); [done|]. iFrame "Hs". iApply ("HΦ" with "He").
  - destruct (bool_decide (0 < service_ref_cnt s)%Z) eqn:Hr; [apply bool_decide_eq_true in Hr|done].
    injection E as <- <-. iIntros "(He & Hs & HΦ)". iApply hwp_quiet.
    iApply (hwp_service_inc_ref s); [done|]. iFrame "Hs". iApply ("HΦ" with "He").
  - destruct (bool_decide (0 < service_ref_cnt s)%Z) eqn:Hr; [apply bool_decide_eq_true in Hr|done].
    injection E as <- <-. iIntros "(He & Hs & HΦ)". iApply hwp_quiet.
    iApply (hwp_service_dec_ref s); [done|]. iFrame "Hs". iApply ("HΦ" with "He").
Qed.
End run.

Lemma hwp_run_ops env ops : ∀ o r chs l (Φ : list service_change_type → hpropI),
  value_ops env ops o = Ok (r, chs) →
  env_at env ∗ held o l ∗ (env_at env -∗ held r l -∗ Φ chs) ⊢ hwp (run_ops ops l) Φ.
Proof.
  induction ops as [|op ops IH]; intros o r chs l Φ E; simpl in E |- *.
  - injection E as <- <-. iIntros "(He & Hs & HΦ)". iApply hwp_ret. iApply ("HΦ" with "He Hs").
  - destruct o as [s|]; [|done]. simpl in E.
    apply outcome_bind_Ok in E as ([o' ch] & E1 & ([o'' chs'] & E2 & [= <- <-])%outcome_bind_Ok).
    iIntros "(He & Hs & HΦ)". iApply hwp_bind. iApply (hwp_run_op env s l op o' ch); [done|]. iFrame "He Hs".
    iIntros "He Hs". iApply hwp_bind. iApply (IH o' o'' chs'); [done|]. iFrame "He Hs".
    iIntros "He Hs". iApply hwp_ret. iApply ("HΦ" with "He Hs").
Qed.

(** ** Subscriptions *)

Lemma hwp_get_sub l s (Φ : sub_cell → hpropI) :
  l ↦ CSub s ∗ (l ↦ CSub s -∗ Φ s) ⊢ hwp (get_sub l) Φ.
Proof.
  iIntros "[Hl HΦ]". iApply hwp_bind. iApply hwp_get. iFrame "Hl". iIntros "Hl".
  iApply hwp_ret. by iApply "HΦ".
Qed.

Lemma hwp_sub_create id f lf client_id cb_data (Φ : loc → hpropI) :
  filter_opt f lf ∗ (∀ l, filter_opt f lf -∗ sub_at (sub_init id f client_id cb_data) l -∗ Φ l) ⊢
  hwp (sub_create id lf client_id cb_data) Φ.
Proof.
  iIntros "[Hf HΦ]". h_new l "Hl". iApply hwp_bind.
  iApply (hwp_clone_opt filter_clone (filter_at <$> f)).
  { intros V HV. destruct f; simplify_eq/=. apply filter_clone_clones. }
  iFrame "Hf". iIntros (lf') "Hf Hf'". iApply hwp_bind. iApply hwp_set. iFrame "Hl". iIntros "Hl".
  iApply hwp_ret. iApply ("HΦ" with "Hf"). iExists lf'. iFrame "Hl". simpl.
  destruct f; simpl; [by rewrite filter_clone_id|done].
Qed.

Lemma hwp_sub_inc_ref s l (Φ : unit → hpropI) : (0 < sub_ref_cnt s)%Z →
  sub_at s l ∗ (sub_at (sub_with_ref_cnt (sub_ref_cnt s + 1) s) l -∗ Φ tt) ⊢ hwp (sub_inc_ref l) Φ.
Proof.
  iIntros (Hr) "[Hs HΦ]". iDestruct "Hs" as (lf) "[Hl Hf]". iApply hwp_bind. iApply hwp_get_sub.
  iFrame "Hl". iIntros "Hl". iApply hwp_bind. iApply (hwp_lift _ tt); [by rewrite bool_decide_eq_true_2|].
  iApply hwp_set. iFrame "Hl". iIntros "Hl". iApply "HΦ". iExists lf. iFrame.
Qed.

Lemma hwp_sub_dec_ref s l (Φ : unit → hpropI) : (0 < sub_ref_cnt s)%Z →
  sub_at s l ∗ ((if bool_decide (sub_ref_cnt s - 1 = 0)%Z then emp
                 else sub_at (sub_with_ref_cnt (sub_ref_cnt s - 1) s) l) -∗ Φ tt) ⊢
  hwp (sub_dec_ref l) Φ.
Proof.
  iIntros (Hr) "[Hs HΦ]". iDestruct "Hs" as (lf) "[Hl Hf]". iApply hwp_bind. iApply hwp_get_sub.
  iFrame "Hl". iIntros "Hl". iApply hwp_bind. iApply (hwp_lift _ tt); [by rewrite bool_decide_eq_true_2|].
  iApply hwp_bind. iApply hwp_set. iFrame "Hl". iIntros "Hl". simpl. case_bool_decide.
  - iApply hwp_bind. iApply hwp_get_sub. iFrame "Hl". iIntros "Hl".
    iApply hwp_bind. iApply (hwp_filter_destroy (sub_filter s)). iFrame "Hf".
    iApply hwp_release. iFrame "Hl". by iApply "HΦ".
  - iApply hwp_ret. iApply "HΦ". iExists lf. iFrame.
Qed.

(** References taken and given up again leave a subscription as it was. *)
Lemma hwp_sub_refs k : ∀ s l (Φ : unit → hpropI), (0 < sub_ref_cnt s)%Z →
  sub_at s l ∗ (sub_at s l -∗ Φ tt) ⊢
  hwp (_ ← mforeach sub_inc_ref (replicate k l); mforeach sub_dec_ref (replicate k l)) Φ.
Proof.
  assert (Hinc : ∀ k s l (Φ : unit → hpropI), (0 < sub_ref_cnt s)%Z →
    sub_at s l ∗ (sub_at (sub_with_ref_cnt (sub_ref_cnt s + Z.of_nat k) s) l -∗ Φ tt) ⊢
    hwp (mforeach sub_inc_ref (replicate k l)) Φ).
  { clear k. induction k as [|k IH]; iIntros (s l Φ Hr) "[Hs HΦ]"; simpl.
    - iApply hwp_ret. iApply "HΦ". rewrite Z.add_0_r. by destruct s.
    - iApply hwp_bind. iApply (hwp_sub_inc_ref s); [done|]. iFrame "Hs". iIntros "Hs".
      iApply (IH with "[$Hs HΦ]"); [simpl; lia|]. simpl. iIntros "Hs". iApply "HΦ".
      by replace (sub_ref_cnt s + S k)%Z with (sub_ref_cnt s + 1 + k)%Z by lia. }
  assert (Hdec : ∀ k s l (Φ : unit → hpropI), (0 < sub_ref_cnt s)%Z →
    sub_at (sub_with_ref_cnt (sub_ref_cnt s + Z.of_nat k) s) l ∗ (sub_at s l -∗ Φ tt) ⊢
    hwp (mforeach sub_dec_ref (replicate k l)) Φ).
  { clear k. induction k as [|k IH]; iIntros (s l Φ Hr) "[Hs HΦ]"; simpl.
    - iApply hwp_ret. iApply "HΦ". rewrite Z.add_0_r. by destruct s.
    - iApply hwp_bind. iApply (hwp_sub_dec_ref (sub_with_ref_cnt (sub_ref_cnt s + S k) s)); [simpl; lia|]. iFrame "Hs". simpl.
      rewrite bool_decide_eq_false_2 by lia. iIntros "Hs". iApply (IH s); [done|]. iFrame "HΦ".
      by replace (sub_ref_cnt s + S k - 1)%Z with (sub_ref_cnt s + k)%Z by lia. }
  iIntros (s l Φ Hr) "[Hs HΦ]". iApply hwp_bind. iApply (Hinc k s); [done|]. iFrame "Hs".
  iIntros "Hs". iApply (Hdec k s); [done|]. iFrame.
Qed.

(** A subscription keeps its own copy of the filter: the caller may destroy
    the one it gave; whatever references are taken and given up, the
    subscription is in memory with that filter; and with the last reference
    both are gone, and nothing is left. *)
Lemma sub_owns_filter id f lf client_id cb_data k w h frame :
  mem_ok w → cells w = h ∪ frame → h ##ₘ frame → holds (filter_opt f lf) h →
  ∃ l w' hs, (sub ← sub_create id lf client_id cb_data; _ ← filter_destroy lf;
              _ ← (_ ← mforeach sub_inc_ref (replicate k sub); mforeach sub_dec_ref (replicate k sub));
              mret sub) w = Ok (l, w') ∧
    mem_ok w' ∧ cells w' = hs ∪ frame ∧ hs ##ₘ frame ∧ holds (sub_at (sub_init id f client_id cb_data) l) hs ∧
    ∃ w1, sub_dec_ref l w' = Ok (tt, w1) ∧ mem_ok w1 ∧ cells w1 = frame.
Proof.
  intros W Ew D Hf.
  edestruct (hwp_run (sub ← sub_create id lf client_id cb_data; _ ← filter_destroy lf;
      _ ← (_ ← mforeach sub_inc_ref (replicate k sub); mforeach sub_dec_ref (replicate k sub)); mret sub)
    (filter_opt f lf) (λ l, sub_at (sub_init id f client_id cb_data) l) h frame w)
    as (l & w' & hs & Er & Ew' & D' & W' & Hs); try done.
  - iIntros "Hf". iApply hwp_bind. iApply (hwp_sub_create id f). iFrame "Hf". iIntros (l) "Hf Hs".
    iApply hwp_bind. iApply (hwp_filter_destroy f). iFrame "Hf". iApply hwp_bind.
    iApply (hwp_sub_refs k (sub_init id f client_id cb_data)); [done|]. iFrame "Hs". iIntros "Hs".
    by iApply hwp_ret.
  - exists l, w', hs. split_and!; try done.
    destruct (hwp_run (sub_dec_ref l) (sub_at (sub_init id f client_id cb_data) l) (λ _, emp)%I hs frame w')
      as ([] & w1 & h1 & Ed & Ew1 & _ & W1 & ->); try done.
    { iIntros "Hs". iApply (hwp_sub_dec_ref (sub_init id f client_id cb_data)); [done|]. iFrame "Hs". simpl.
      by iIntros "_". }
    exists w1. split_and!; try done. by rewrite Ew1, (left_id_L ∅ (∪)).
Qed.

(** ** Properties *)

(** C11: a service owns its generations and their properties, and nothing else.
    From its creation on, for any sequence of operations that the service of
    Service.v allows (changes begun, set, committed and aborted, removal,
    references taken and given up), the service in memory allocates and frees
    without a fault and without touching what it does not own; it tells the
    callback the same changes; what it owns in the end is laid out as that
    service, every generation that was replaced or given up having been freed;
    and after the last reference nothing of it is left.  The properties that
    the callers give to it stay theirs, unchanged. *)
Theorem service_ops_owned (env : gmap loc props) (ops : list service_op) (id : Z)
    (r : option service) (changes : list service_change_type) (w : mem) (he frame : gmap loc cell) :
  mem_ok w → cells w = he ∪ frame → he ##ₘ frame → holds (env_at env) he →
  value_ops env ops (Some (service_init id)) = Ok (r, changes) →
  ∃ l w' hs he', (service ← service_create id; changes ← run_ops ops service; mret (service, changes)) w
                 = Ok ((l, changes), w') ∧
    mem_ok w' ∧ cells w' = (he' ∪ hs) ∪ frame ∧ (he' ∪ hs) ##ₘ frame ∧ he' ##ₘ hs ∧
    holds (env_at env) he' ∧ holds (held r l) hs ∧ (r = None → hs = ∅).
Proof.
  intros W Ew D He E.
  destruct (hwp_run (service ← service_create id; changes ← run_ops ops service; mret (service, changes))
    (env_at env) (λ lc, env_at env ∗ held r lc.1 ∗ <affine> ⌜lc.2 = changes⌝)%I he frame w)
    as ([l chs] & w' & h & Er & Ew' & D' & W' & (he' & h2 & -> & Dh & He' & hs & h3 & -> & _ & Hs & -> & Hc)); try done.
  - iIntros "He". iApply hwp_bind. iApply hwp_service_create. iIntros (l) "Hs". iApply hwp_bind.
    iApply (hwp_run_ops env ops (Some (service_init id)) r changes); [done|]. iFrame "He Hs". iIntros "He Hs".
    iApply hwp_ret. by iFrame.
  - simpl in Hs, Hc. subst chs. rewrite (right_id_L ∅ (∪)) in Ew', D', Dh. exists l, w', hs, he'. split_and!; try done.
    by intros ->.
Qed.

(** The properties {x = 17} in memory. *)
Definition example_cells : gmap loc cell :=
  <[1%positive := CProps (Some 2%positive) (Some 3%positive) 1]>
  (<[2%positive := CArray [Some 4%positive]]> (<[3%positive := CArray [Some 5%positive]]>
  (<[4%positive := CStr (C "x")]> (<[5%positive := CInt64 17]> ∅)))).

Definition example_env : gmap loc props := {[1%positive := [(C "x", value_int64 17)]]}.

Lemma example_holds : holds (env_at example_env) example_cells.
Proof.
  apply (proj1 (entails_holds _ _)) with (2 := holds_cells example_cells).
  unfold env_at, example_env, example_cells. rewrite big_sepM_singleton.
  do 5 (rewrite big_sepM_insert by done). rewrite big_sepM_empty.
  iIntros "(H1 & H2 & H3 & H4 & H5 & _)".
  iExists (Fields (Some 2%positive) (Some 3%positive) 1), [4%positive], [5%positive]. iFrame "H1".
  unfold content, strings_at, pvalues_at. simpl. iSplitR; [done|]. iSplitL "H2"; [iExists _; by iFrame|].
  iSplitL "H3"; [iExists _; by iFrame|]. by iFrame.
Qed.

Definition example_ops : list service_op :=
  [OpAddBegin; OpSetGeneration 1; OpSetProps 1; OpSetTtl 5; OpSetOrphanSince (d_of_Z (-1)); OpSetClientId 7;
   OpCommit; OpModifyBegin; OpSetGeneration 2; OpSetProps 1; OpCommit; OpModifyBegin; OpSetTtl 9; OpAbort;
   OpIncRef; OpDecRef; OpRemove; OpDecRef].

Lemma service_ops_owned_witness :
  let changes := [service_change_type_added; service_change_type_modified; service_change_type_removed] in
  ∃ l w' he', (service ← service_create 99; changes ← run_ops example_ops service; mret (service, changes))
      (Memory example_cells 6) = Ok ((l, changes), w') ∧ cells w' = he' ∧ holds (env_at example_env) he'.
Proof.
  intros changes.
  destruct (service_ops_owned example_env example_ops 99 None changes (Memory example_cells 6) example_cells ∅)
    as (l & w' & hs & he' & Er & _ & Ew & _ & _ & He & _ & Hs).
  - intros l Hl. simpl in *. unfold example_cells. do 5 (rewrite lookup_insert_ne by lia). done.
  - simpl. by rewrite (right_id_L ∅ (∪)).
  - apply map_disjoint_empty_r.
  - apply example_holds.
  - reflexivity.
  - exists l, w', he'. split_and!; [exact Er| |exact He].
    rewrite Ew, (Hs eq_refl), !(right_id_L ∅ (∪)). done.
Defined.
