(* ===== verification/Client.v ===== *)
(** * Client operations (src/sd/client.c)

    Connecting, publishing, unpublishing and subscribing, as computations in
    the memory of Heap.v.  [change_cb] is the service change callback, which
    the server gives to every service it creates (Sd.v). *)

From S2P Require Import Prelude CLib Pvalue Props Filter Double Service Sub Amap Heap.

(** sd_err.h *)
Definition SD_ERR_PERM_DENIED : Z := (-1)%Z.
Definition SD_ERR_CLIENT_ALREADY_EXISTS : Z := (-2)%Z.
Definition SD_ERR_NO_SUCH_CLIENT : Z := (-3)%Z.
Definition SD_ERR_NO_SUCH_SERVICE : Z := (-4)%Z.
Definition SD_ERR_SERVICE_SAME_GENERATION_BUT_DIFFERENT_DATA : Z := (-5)%Z.
Definition SD_ERR_NEWER_SERVICE_GENERATION_EXISTS : Z := (-6)%Z.
Definition SD_ERR_SUB_ALREADY_EXISTS : Z := (-7)%Z.
Definition SD_ERR_INVALID_FILTER : Z := (-8)%Z.
Definition SD_ERR_NO_SUCH_SUB : Z := (-9)%Z.

(** All errors have the same text. *)
Definition sd_str_error (err : Z) : outcome cstr :=
  _ ← ut_assert (bool_decide (err < 0)%Z);
  Ok (C "Unknown error").

(** ** Queries *)

Definition client_is_connected (c : client) : bool :=
  match active_conn c with Some _ => true | None => false end.

Definition assert_connected (cl : loc) : M state unit :=
  c ← load cl; lift (ut_assert (client_is_connected c)).

(** The active connection, dereferenced. *)
Definition client_active (cl : loc) : M state loc := read cl (λ c, deref (active_conn c)).

Definition client_is_stale (cl : loc) : M state bool :=
  c ← load cl;
  r ← mfind (λ cn, negb <$> conn_is_stale cn) (client_conns c);
  mret (match r with Some _ => false | None => true end).

Definition get_service_conn (cl : loc) (id : Z) : M state (option loc) :=
  c ← load cl;
  mfind (λ cn, conn_has_service cn id) (client_conns c).

(** ** Connecting *)

Definition client_set_active (cl : loc) (a : option loc) : M state unit :=
  update cl (λ c, Ok (client_with_active a c)).

Definition client_connect (cl : loc) (addr : option cstr) : M state unit :=
  cn ← conn_create cl addr;
  _ ← client_set_active cl (Some cn);
  id ← read cl (λ c, Ok (client_id c));
  db_add_client id cl.

Definition client_reconnect (cl : loc) (addr : option cstr) : M state Z :=
  c ← load cl;
  if client_is_connected c then mret SD_ERR_CLIENT_ALREADY_EXISTS
  else
    cn ← conn_create cl addr;
    _ ← client_set_active cl (Some cn);
    mret 0%Z.

Section change_cb.
Context (change_cb : loc → service_change_type → M state unit).

Definition service_commit (l : loc) : M state unit :=
  s ← load l;
  '(s', change_type) ← lift (service_commit_change s);
  _ ← store l s';
  change_cb l change_type.

Definition service_remove (l : loc) : M state unit :=
  s ← load l;
  '(s', change_type) ← lift (service_remove_change s);
  _ ← store l s';
  change_cb l change_type.

(** ** Disconnecting *)

Definition service_handle_conn_inactivation (disconnected_at : double) (l : loc)
    : M state unit :=
  _ ← update l service_modify_begin;
  _ ← update l (service_set_orphan_since disconnected_at);
  service_commit l.

Definition client_disconnect (cl : loc) : M state Z :=
  _ ← assert_connected cl;
  inactivated ← client_active cl;
  _ ← client_set_active cl None;
  _ ← conn_mark_disconnected inactivated;
  _ ← conn_foreach_sub inactivated (λ id _, db_del_sub id);
  _ ← conn_clear_subs inactivated;
  t ← read inactivated (λ c, Ok (disconnected_at c));
  _ ← conn_foreach_service inactivated (λ _ l, service_handle_conn_inactivation t l);
  stale ← conn_is_stale inactivated;
  _ ← (if (stale : bool) then conn_destroy inactivated
       else update cl (λ c, Ok (client_with_inactive (inactive_conns c ++ [inactivated]) c)));
  client_stale ← client_is_stale cl;
  _ ← (if (client_stale : bool)
       then id ← read cl (λ c, Ok (client_id c)); db_del_client id
       else mret tt);
  mret 0%Z.

(** ** Publishing *)

Definition capture_service (cl srv : loc) : M state unit :=
  id ← read srv (λ s, Ok (service_id s));
  victim_client_id ← read srv service_get_client_id;
  victim_client ← db_get_client victim_client_id;
  victim_client ← lift (deref victim_client);
  victim_conn ← get_service_conn victim_client id;
  victim_conn ← lift (deref victim_conn);
  _ ← conn_del_service victim_conn id;
  active ← client_active cl;
  conn_add_service active id srv.

(** A service with this generation exists. *)
Definition publish_same (cl srv : loc) (my_id : Z) (changed_client_id : bool)
    (p : props) (ttl : Z) : M state Z :=
  sp ← read srv service_get_props;
  sp ← lift (deref sp);
  sttl ← read srv service_get_ttl;
  if negb (props_equal p sp) || bool_decide (ttl ≠ sttl)
  then mret SD_ERR_SERVICE_SAME_GENERATION_BUT_DIFFERENT_DATA
  else
    is_orphan ← read srv service_is_orphan;
    _ ← (if changed_client_id then
           _ ← capture_service cl srv;
           _ ← update srv service_modify_begin;
           _ ← update srv service_set_non_orphan;
           _ ← update srv (service_set_client_id my_id);
           service_commit srv
         else if (is_orphan : bool) then
           _ ← update srv service_modify_begin;
           _ ← update srv service_set_non_orphan;
           service_commit srv
         else mret tt);
    mret 0%Z.

(** A service with an older generation exists. *)
Definition publish_newer (cl srv : loc) (my_id : Z) (changed_client_id : bool)
    (generation : Z) (p : props) (ttl : Z) : M state Z :=
  _ ← (if changed_client_id then capture_service cl srv else mret tt);
  _ ← update srv service_modify_begin;
  _ ← update srv (service_set_generation generation);
  _ ← update srv (service_set_props p);
  _ ← update srv (service_set_ttl ttl);
  _ ← update srv service_set_non_orphan;
  _ ← update srv (service_set_client_id my_id);
  _ ← service_commit srv;
  mret 0%Z.

Definition publish_new (cl : loc) (my_id id generation : Z) (p : props) (ttl : Z)
    : M state Z :=
  srv ← service_create id;
  _ ← update srv service_add_begin;
  _ ← update srv (service_set_generation generation);
  _ ← update srv (service_set_props p);
  _ ← update srv (service_set_ttl ttl);
  _ ← update srv service_set_non_orphan;
  _ ← update srv (service_set_client_id my_id);
  _ ← service_commit srv;
  _ ← db_add_service id srv;
  active ← client_active cl;
  _ ← conn_add_service active id srv;
  _ ← service_dec_ref srv;
  mret 0%Z.

Definition client_publish (cl : loc) (id generation : Z) (p : props) (ttl : Z)
    : M state Z :=
  _ ← assert_connected cl;
  my_id ← read cl (λ c, Ok (client_id c));
  srv ← db_get_service id;
  match srv with
  | Some srv =>
      prev_client_id ← read srv service_get_client_id;
      let changed_client_id := bool_decide (prev_client_id ≠ my_id) in
      current_generation ← read srv service_get_generation;
      if bool_decide (generation = current_generation)
      then publish_same cl srv my_id changed_client_id p ttl
      else if bool_decide (current_generation < generation)%Z
      then publish_newer cl srv my_id changed_client_id generation p ttl
      else mret SD_ERR_NEWER_SERVICE_GENERATION_EXISTS
  | None => publish_new cl my_id id generation p ttl
  end.

(** ** Removing *)

(** [conn_list_index_of] and [conn_list_del]: the first occurrence.  The index
    -1 of an element that is not there is out of bounds for [plist_del]. *)
Fixpoint list_del_first (cn : loc) (l : list loc) : outcome (list loc) :=
  match l with
  | [] => Fail Undefined
  | x :: l' => if decide (x = cn) then Ok l'
               else l'' ← list_del_first cn l'; Ok (x :: l'')
  end.

Definition remove_conn (cl cn : loc) : M state unit :=
  _ ← update cl (λ c, l ← list_del_first cn (inactive_conns c);
                      Ok (client_with_inactive l c));
  conn_destroy cn.

Definition remove_service (cl : loc) (id : Z) : M state unit :=
  srv ← db_get_service id;
  cn ← get_service_conn cl id;
  srv ← lift (deref srv);
  _ ← service_inc_ref srv;
  _ ← client_inc_ref cl;
  cn ← lift (deref cn);
  _ ← conn_del_service cn id;
  stale ← conn_is_stale cn;
  _ ← (if (stale : bool) then remove_conn cl cn else mret tt);
  client_stale ← client_is_stale cl;
  _ ← (if (client_stale : bool)
       then my_id ← read cl (λ c, Ok (client_id c)); db_del_client my_id
       else mret tt);
  _ ← db_del_service id;
  _ ← service_remove srv;
  _ ← service_dec_ref srv;
  client_dec_ref cl.

Definition client_unpublish (cl : loc) (id : Z) : M state Z :=
  _ ← assert_connected cl;
  my_id ← read cl (λ c, Ok (client_id c));
  srv ← db_get_service id;
  match srv with
  | None => mret SD_ERR_NO_SUCH_SERVICE
  | Some srv =>
      owner_id ← read srv service_get_client_id;
      let changed_client_id := bool_decide (my_id ≠ owner_id) in
      is_orphan ← read srv service_is_orphan;
      _ ← (if changed_client_id || is_orphan then
             _ ← (if changed_client_id then capture_service cl srv else mret tt);
             _ ← update srv service_modify_begin;
             _ ← update srv service_set_non_orphan;
             _ ← (if changed_client_id then update srv (service_set_client_id my_id)
                  else mret tt);
             _ ← (if (is_orphan : bool) then update srv service_set_non_orphan
                  else mret tt);
             service_commit srv
           else mret tt);
      _ ← remove_service cl id;
      mret 0%Z
  end.

Definition client_purge_orphan (cl : loc) (id : Z) : M state unit :=
  c ← load cl;
  _ ← lift (ut_assert (negb (client_is_connected c)));
  srv ← db_get_service id;
  srv ← lift (deref srv);
  owner ← read srv service_get_client_id;
  _ ← lift (ut_assert (bool_decide (owner = client_id c)));
  remove_service cl id.
End change_cb.

(** ** Subscribing *)

Definition client_create_sub (cl : loc) (id : Z) (filter : option filter_t) (cb_data : Z)
    : M state Z :=
  _ ← assert_connected cl;
  has ← db_has_sub id;
  if (has : bool) then mret SD_ERR_SUB_ALREADY_EXISTS
  else
    my_id ← read cl (λ c, Ok (client_id c));
    s ← sub_create id filter my_id cb_data;
    active ← client_active cl;
    _ ← conn_add_sub active id s;
    _ ← db_add_sub id s;
    _ ← sub_dec_ref s;
    mret 0%Z.

Definition client_activate_sub (cl : loc) (id : Z) : M state unit :=
  _ ← assert_connected cl;
  s ← db_get_sub id;
  db_foreach_service (λ _ srv,
    s ← lift (deref s); sub_notify s service_change_type_added srv).

Definition client_unsubscribe (cl : loc) (id : Z) : M state Z :=
  _ ← assert_connected cl;
  has ← db_has_sub id;
  if negb has then mret SD_ERR_NO_SUCH_SUB
  else
    active ← client_active cl;
    mine ← conn_has_sub active id;
    if negb mine then mret SD_ERR_PERM_DENIED
    else
      _ ← conn_del_sub active id;
      _ ← db_del_sub id;
      mret 0%Z.

Definition client_foreach_sub (cl : loc) (cb : Z → loc → M state unit) : M state unit :=
  c ← load cl;
  match active_conn c with
  | Some cn => conn_foreach_sub cn cb
  | None => mret tt
  end.
