(* ===== verification/Sd.v ===== *)
(** * The service discovery core (src/sd/sd.c)

    Orphan timers, the service change callback, and the operations the
    protocol layer calls. *)

From S2P Require Import Prelude CLib Pvalue Props Filter FilterParse Double Service Sub Amap Heap Client.

(** ** Orphan timers *)

Definition EPOLL_ROUNDING_ERROR_MARGIN : double := d_div (d_of_Z 1) (d_of_Z 1000).

(** libevent: the event of a timer becomes pending, or not. *)
Definition timer_with_pending (p : option timeval) (t : orphan_timer) : orphan_timer :=
  OrphanTimer (timer_service t) p.

Definition event_add (t : loc) (tv : timeval) : M state unit :=
  _ ← update t (λ x, Ok (timer_with_pending (Some tv) x));
  output_call (OEventAdd t tv).

Definition event_del (t : loc) : M state unit :=
  _ ← update t (λ x, Ok (timer_with_pending None x));
  output_call (OEventDel t).

Definition orphan_timer_create (srv : loc) : M state loc :=
  t ← alloc (OrphanTimer srv None);
  left ← service_orphan_time_left srv;
  let time_left := d_add left EPOLL_ROUNDING_ERROR_MARGIN in
  tv ← lift (ut_f_to_timeval time_left);
  _ ← event_add t tv;
  _ ← service_inc_ref srv;
  mret t.

Definition orphan_timer_destroy (t : loc) : M state unit :=
  _ ← event_del t;
  srv ← read t (λ x, Ok (timer_service x));
  _ ← service_dec_ref srv;
  free (T := orphan_timer) t.

Definition orphan_map_add (id : Z) (t : loc) : M state unit :=
  m ← gets orphans;
  m' ← lift (amap_add m id t);
  modify (set_orphans (λ _, m')).

Definition orphan_map_del (id : Z) : M state unit :=
  m ← gets orphans;
  m' ← lift (amap_del m id);
  modify (set_orphans (λ _, m')).

Definition orphan_map_get (id : Z) : M state (option loc) := gets (λ st, amap_get (orphans st) id).

(** The time left that [add_orphan_timer] reads first is not used. *)
Definition add_orphan_timer (srv : loc) : M state unit :=
  _ ← service_orphan_time_left srv;
  t ← orphan_timer_create srv;
  id ← read srv (λ s, Ok (service_id s));
  orphan_map_add id t.

Definition update_orphan_timer (srv : loc) : M state unit :=
  id ← read srv (λ s, Ok (service_id s));
  t ← orphan_map_get id;
  t ← lift (deref t);
  _ ← event_del t;
  left ← service_orphan_time_left srv;
  tv ← lift (ut_f_to_timeval left);
  event_add t tv.

Definition remove_orphan_timer (srv : loc) : M state unit :=
  id ← read srv (λ s, Ok (service_id s));
  t ← orphan_map_get id;
  _ ← orphan_map_del id;
  t ← lift (deref t);
  _ ← event_del t;
  orphan_timer_destroy t.

Definition maintain_orphans (srv : loc) (change_type : service_change_type) : M state unit :=
  match change_type with
  | service_change_type_added =>
      is_orphan ← read srv service_is_orphan;
      if (is_orphan : bool) then add_orphan_timer srv else mret tt
  | service_change_type_modified =>
      is_orphan ← read srv service_is_orphan;
      was_orphan ← read srv service_was_orphan;
      if was_orphan && negb is_orphan then remove_orphan_timer srv
      else if negb was_orphan && is_orphan then add_orphan_timer srv
      else if was_orphan && is_orphan then update_orphan_timer srv
      else mret tt
  | service_change_type_removed =>
      was_orphan ← read srv service_was_orphan;
      if (was_orphan : bool) then remove_orphan_timer srv else mret tt
  | service_change_type_none => fault_with AssertFailed
  end.

(** The callback of every service. *)
Definition service_changed (srv : loc) (change_type : service_change_type) : M state unit :=
  _ ← db_foreach_sub (λ _ s, sub_notify s change_type srv);
  maintain_orphans srv change_type.

Definition purge_orphan (srv : loc) : M state unit :=
  owner ← read srv service_get_client_id;
  cl ← db_get_client owner;
  id ← read srv (λ s, Ok (service_id s));
  cl ← lift (deref cl);
  client_purge_orphan service_changed cl id.

(** libevent calls this when a pending event has timed out, which is then no
    longer pending. *)
Definition orphan_timeout_cb (t : loc) : M state unit :=
  _ ← update t (λ x, Ok (timer_with_pending None x));
  srv ← read t (λ x, Ok (timer_service x));
  purge_orphan srv.

(** ** Operations *)

Definition sd_client_connect (client_id : Z) (addr : option cstr) : M state Z :=
  cl ← db_get_client client_id;
  match cl with
  | None =>
      cl ← client_create client_id;
      _ ← client_connect cl addr;
      _ ← client_dec_ref cl;
      mret 0%Z
  | Some cl => client_reconnect cl addr
  end.

Definition with_client (client_id : Z) (f : loc → M state Z) : M state Z :=
  cl ← db_get_client client_id;
  match cl with
  | None => mret SD_ERR_NO_SUCH_CLIENT
  | Some cl => f cl
  end.

Definition sd_client_disconnect (client_id : Z) : M state Z :=
  with_client client_id (client_disconnect service_changed).

Definition sd_publish (client_id id generation : Z) (p : props) (ttl : Z) : M state Z :=
  with_client client_id (λ cl, client_publish service_changed cl id generation p ttl).

Definition sd_unpublish (client_id id : Z) : M state Z :=
  with_client client_id (λ cl, client_unpublish service_changed cl id).

Definition sd_create_sub (client_id id : Z) (filter_s : option cstr) (cb_data : Z)
    : M state Z :=
  with_client client_id (λ cl,
    match filter_s with
    | None => client_create_sub cl id None cb_data
    | Some s =>
        filter ← lift (filter_parse s);
        match filter with
        | None => mret SD_ERR_INVALID_FILTER
        | Some f => client_create_sub cl id (Some f) cb_data
        end
    end).

Definition sd_activate_sub (client_id id : Z) : M state unit :=
  cl ← db_get_client client_id;
  cl ← lift (deref cl);
  client_activate_sub cl id.

Definition sd_unsubscribe (client_id id : Z) : M state Z :=
  with_client client_id (λ cl, client_unsubscribe cl id).

(** The callbacks of the protocol layer change the caller's state [S], of which
    the core is a part. *)
Section foreach.
Context {S : Type} (in_core : ∀ A, M state A → M S A).

Definition sd_foreach_client (cb : Z → loc → M S unit) : M S unit :=
  m ← in_core _ (gets db_clients); mforeach (λ kv, cb kv.1 kv.2) m.

Definition forward_if_matches (filter : option filter_t) (user_cb : Z → loc → M S unit)
    (id : Z) (srv : loc) : M S unit :=
  m ← in_core _
        (match filter with
         | None => mret true
         | Some f =>
             p ← read srv service_get_props;
             p ← lift (deref p);
             lift (filter_matches f p)
         end);
  if (m : bool) then user_cb id srv else mret tt.

Definition sd_foreach_service (filter : option filter_t) (user_cb : Z → loc → M S unit)
    : M S unit :=
  m ← in_core _ (gets db_services);
  mforeach (λ kv, forward_if_matches filter user_cb kv.1 kv.2) m.

Definition sd_foreach_sub (cb : Z → loc → M S unit) : M S unit :=
  m ← in_core _ (gets db_subs); mforeach (λ kv, cb kv.1 kv.2) m.
End foreach.

(** [sd_destroy] *)
Definition sd_destroy : M state unit :=
  m ← gets orphans;
  _ ← mforeach (λ kv, orphan_timer_destroy kv.2) m;
  _ ← modify (set_orphans (λ _, []));
  db_destroy.
