(* ===== verification/SdWp.v ===== *)
(** * Executing the core symbolically

    Rules for the heap primitives, the reference counts, the change callback
    and the orphan timers: what each does to the state, on every state that
    meets its preconditions.  The notifications of a change are computed by
    [notifications]. *)

From S2P Require Import Prelude CLib Pvalue Props Filter FilterParse Double Service Sub Amap Heap Client Sd.

(** ** Primitives *)

Section objects.
Context {T : Type} `{!Obj T}.
Implicit Types (l : loc) (x y : T) (st : state).

Lemma wp_load l x (Q : T → state → Prop) st :
  heap st !! l = Some x → Q x st → wp (load l) Q st.
Proof. intros H HQ. unfold wp, load. by rewrite H. Qed.

Lemma wp_read {A} l x (f : T → outcome A) a (Q : A → state → Prop) st :
  heap st !! l = Some x → f x = Ok a → Q a st → wp (read l f) Q st.
Proof.
  intros H Hf HQ. unfold read. apply wp_bind. eapply wp_load; [done|].
  by eapply wp_lift.
Qed.

Lemma wp_update l x y (f : T → outcome T) (Q : unit → state → Prop) st :
  heap st !! l = Some x → f x = Ok y → Q tt (set_heap <[l := y]> st) →
  wp (update l f) Q st.
Proof.
  intros H Hf HQ. unfold update. apply wp_bind. eapply wp_load; [done|].
  apply wp_bind. by eapply wp_lift.
Qed.

Lemma update_eq l (f : T → outcome T) st :
  update l f st = match heap st !! l with
                  | Some x => match f x with
                              | Ok y => Ok (tt, set_heap <[l := y]> st)
                              | Fail e => Fail e
                              end
                  | None => Fail Undefined
                  end.
Proof.
  unfold update, load, store, lift, mbind, M_bind.
  destruct (heap st !! l) as [x|]; [|done]. by destruct (f x).
Qed.

Lemma wp_alloc x (Q : loc → state → Prop) st :
  Q (next_loc st) (set_next_loc Pos.succ (set_heap <[next_loc st := x]> st)) →
  wp (alloc x) Q st.
Proof. done. Qed.

Lemma wp_free l x (Q : unit → state → Prop) st :
  heap st !! l = Some x → Q tt (set_heap (delete l) st) → wp (free (T := T) l) Q st.
Proof. intros H HQ. unfold free. apply wp_bind. by eapply wp_load. Qed.
End objects.

(** The field setters compose. *)
Lemma set_services_insert l s s' st :
  set_services <[l := s']> (set_services <[l := s]> st) = set_services <[l := s']> st.
Proof. unfold set_services. simpl. by rewrite insert_insert_eq. Qed.

Lemma set_conns_insert l s s' st :
  set_conns <[l := s']> (set_conns <[l := s]> st) = set_conns <[l := s']> st.
Proof. unfold set_conns. simpl. by rewrite insert_insert_eq. Qed.

Lemma set_clients_insert l s s' st :
  set_clients <[l := s']> (set_clients <[l := s]> st) = set_clients <[l := s']> st.
Proof. unfold set_clients. simpl. by rewrite insert_insert_eq. Qed.

Lemma set_subs_insert l s s' st :
  set_subs <[l := s']> (set_subs <[l := s]> st) = set_subs <[l := s']> st.
Proof. unfold set_subs. simpl. by rewrite insert_insert_eq. Qed.

Lemma set_timers_insert l s s' st :
  set_timers <[l := s']> (set_timers <[l := s]> st) = set_timers <[l := s']> st.
Proof. unfold set_timers. simpl. by rewrite insert_insert_eq. Qed.

Lemma M_bind_eq {A B} (m : M state A) (f : A → M state B) st :
  (m ≫= f) st = match m st with Ok (a, st') => f a st' | Fail e => Fail e end.
Proof. done. Qed.

(** Equality of states, field by field. *)
Lemma state_ext st st' :
  services st = services st' → subs st = subs st' → conns st = conns st' →
  clients st = clients st' → timers st = timers st' → db_clients st = db_clients st' →
  db_services st = db_services st' → db_subs st = db_subs st' → orphans st = orphans st' →
  next_loc st = next_loc st' → clock st = clock st' → tick st = tick st' →
  outputs st = outputs st' → st = st'.
Proof. destruct st, st'. simpl. by intros; subst. Qed.

(** Two updates of one service. *)
Lemma wp_update_seq {A} (l : loc) (f g : service → outcome service) (k : M state A) Q st :
  wp (_ ← update l (λ x, y ← f x; g y); k) Q st →
  wp (_ ← update l f; _ ← update l g; k) Q st.
Proof.
  unfold wp. rewrite !(M_bind_eq (update _ _)), !update_eq. simpl.
  destruct (services st !! l) as [x|]; [|done]. destruct (f x) as [y|]; simpl; [|done].
  destruct (g y) as [z|] eqn:Eg; [|done]. intros H.
  rewrite M_bind_eq, update_eq. simpl. rewrite lookup_insert_eq, Eg.
  by rewrite set_services_insert.
Qed.

Lemma wp_update_if {A} (l : loc) (f g : service → outcome service) (b : bool) (k : M state A) Q st :
  wp (_ ← update l (λ x, y ← f x; if b then g y else Ok y); k) Q st →
  wp (_ ← update l f; _ ← (if b then update l g else mret tt); k) Q st.
Proof.
  intros Hk. destruct b; [by apply wp_update_seq|]. revert Hk. unfold wp.
  rewrite !(M_bind_eq (update _ _)), !update_eq. simpl.
  destruct (services st !! l) as [x|]; [|done]. by destruct (f x).
Qed.

(** The last two of three computations together. *)
Lemma wp_seq {A B D} (m : M state A) (n : M state B) (k : M state D) Q st :
  wp (_ ← m; n) (λ _ st', wp k Q st') st → wp (_ ← m; _ ← n; k) Q st.
Proof.
  unfold wp. rewrite !M_bind_eq. destruct (m st) as [[x st1]|]; [|done].
  rewrite M_bind_eq. by destruct (n st1) as [[y st2]|].
Qed.

Lemma wp_seq3 {A B D E} (m : M state A) (n : M state B) (o : M state D) (k : M state E) Q st :
  wp (_ ← m; _ ← n; o) (λ _ st', wp k Q st') st → wp (_ ← m; _ ← n; _ ← o; k) Q st.
Proof.
  unfold wp. rewrite !M_bind_eq. destruct (m st) as [[x st1]|]; [|done].
  rewrite !M_bind_eq. destruct (n st1) as [[y st2]|]; [|done].
  rewrite M_bind_eq. by destruct (o st2) as [[z st3]|].
Qed.

Lemma wp_seq4 {A B D E F} (m : M state A) (n : M state B) (o : M state D) (p : M state E)
    (k : M state F) Q st :
  wp (_ ← m; _ ← n; _ ← o; p) (λ _ st', wp k Q st') st →
  wp (_ ← m; _ ← n; _ ← o; _ ← p; k) Q st.
Proof.
  unfold wp. rewrite !M_bind_eq. destruct (m st) as [[x st1]|]; [|done].
  rewrite !M_bind_eq. destruct (n st1) as [[y st2]|]; [|done].
  rewrite !M_bind_eq. destruct (o st2) as [[z st3]|]; [|done].
  rewrite M_bind_eq. by destruct (p st3) as [[w st4]|].
Qed.

(** ** Reference counts *)

Lemma wp_service_inc_ref l s (Q : unit → state → Prop) st :
  services st !! l = Some s → (0 < service_ref_cnt s)%Z →
  Q tt (set_services <[l := with_ref_cnt (service_ref_cnt s + 1) s]> st) →
  wp (service_inc_ref l) Q st.
Proof.
  intros Hs Hn HQ. eapply wp_update; [exact Hs| |exact HQ].
  by rewrite bool_decide_eq_true_2.
Qed.

Lemma wp_service_dec_ref l s (Q : unit → state → Prop) st :
  services st !! l = Some s → (1 < service_ref_cnt s)%Z →
  Q tt (set_services <[l := with_ref_cnt (service_ref_cnt s - 1) s]> st) →
  wp (service_dec_ref l) Q st.
Proof.
  intros Hs Hn HQ. unfold service_dec_ref. apply wp_bind.
  eapply wp_update; [exact Hs|rewrite bool_decide_eq_true_2 by lia; reflexivity|].
  apply wp_bind. eapply wp_read; [apply lookup_insert_eq|reflexivity|]. simpl.
  rewrite bool_decide_eq_false_2 by lia. by apply wp_ret.
Qed.

Lemma wp_service_dec_ref_last l s (Q : unit → state → Prop) st :
  services st !! l = Some s → service_ref_cnt s = 1%Z →
  Q tt (set_services (delete l) st) →
  wp (service_dec_ref l) Q st.
Proof.
  intros Hs Hn HQ. unfold service_dec_ref. apply wp_bind.
  eapply wp_update; [exact Hs|rewrite bool_decide_eq_true_2 by lia; reflexivity|].
  apply wp_bind. eapply wp_read; [apply lookup_insert_eq|reflexivity|]. simpl.
  rewrite Hn. simpl. eapply wp_free; [apply lookup_insert_eq|].
  unfold set_heap, service_Obj, set_services in *. simpl. by rewrite delete_insert_eq.
Qed.

Lemma wp_sub_inc_ref l s (Q : unit → state → Prop) st :
  subs st !! l = Some s → (0 < sub_ref_cnt s)%Z →
  Q tt (set_subs <[l := sub_with_ref_cnt (sub_ref_cnt s + 1) s]> st) →
  wp (sub_inc_ref l) Q st.
Proof.
  intros Hs Hn HQ. eapply wp_update; [exact Hs| |exact HQ].
  by rewrite bool_decide_eq_true_2.
Qed.

Lemma wp_sub_dec_ref l s (Q : unit → state → Prop) st :
  subs st !! l = Some s → (1 < sub_ref_cnt s)%Z →
  Q tt (set_subs <[l := sub_with_ref_cnt (sub_ref_cnt s - 1) s]> st) →
  wp (sub_dec_ref l) Q st.
Proof.
  intros Hs Hn HQ. unfold sub_dec_ref. apply wp_bind.
  eapply wp_update; [exact Hs|rewrite bool_decide_eq_true_2 by lia; reflexivity|].
  apply wp_bind. eapply wp_read; [apply lookup_insert_eq|reflexivity|]. simpl.
  rewrite bool_decide_eq_false_2 by lia. by apply wp_ret.
Qed.

Lemma wp_sub_dec_ref_last l s (Q : unit → state → Prop) st :
  subs st !! l = Some s → sub_ref_cnt s = 1%Z →
  Q tt (set_subs (delete l) st) →
  wp (sub_dec_ref l) Q st.
Proof.
  intros Hs Hn HQ. unfold sub_dec_ref. apply wp_bind.
  eapply wp_update; [exact Hs|rewrite bool_decide_eq_true_2 by lia; reflexivity|].
  apply wp_bind. eapply wp_read; [apply lookup_insert_eq|reflexivity|]. simpl.
  rewrite Hn. simpl. eapply wp_free; [apply lookup_insert_eq|].
  unfold set_heap, sub_Obj, set_subs in *. simpl. by rewrite delete_insert_eq.
Qed.

(** ** Connections *)

Lemma wp_conn_services_at cn c (Q : amap loc → state → Prop) st :
  conns st !! cn = Some c → Q (conn_services c) st → wp (conn_services_at cn) Q st.
Proof. intros Hc HQ. unfold conn_services_at. apply wp_fmap. by eapply wp_load. Qed.

Lemma wp_conn_subs_at cn c (Q : amap loc → state → Prop) st :
  conns st !! cn = Some c → Q (conn_subs c) st → wp (conn_subs_at cn) Q st.
Proof. intros Hc HQ. unfold conn_subs_at. apply wp_fmap. by eapply wp_load. Qed.

Lemma wp_conn_add_service cn c id l s (Q : unit → state → Prop) st :
  conns st !! cn = Some c → services st !! l = Some s → (0 < service_ref_cnt s)%Z →
  amap_get (conn_services c) id = None →
  Q tt (set_conns <[cn := conn_with_services (conn_services c ++ [(id, l)]) c]>
         (set_services <[l := with_ref_cnt (service_ref_cnt s + 1) s]> st)) →
  wp (conn_add_service cn id l) Q st.
Proof.
  intros Hc Hs Hn Hid HQ. unfold conn_add_service, map_add_cnted. apply wp_bind.
  eapply wp_service_inc_ref; [done|done|]. apply wp_bind.
  eapply wp_conn_services_at; [exact Hc|]. apply wp_bind.
  eapply wp_lift; [by apply amap_add_None|].
  by eapply wp_update; [exact Hc|reflexivity|].
Qed.

Lemma wp_conn_del_service cn c id l s (Q : unit → state → Prop) st :
  conns st !! cn = Some c → amap_get (conn_services c) id = Some l →
  services st !! l = Some s → (1 < service_ref_cnt s)%Z →
  Q tt (set_services <[l := with_ref_cnt (service_ref_cnt s - 1) s]>
         (set_conns <[cn := conn_with_services (amap_remove (conn_services c) id) c]> st)) →
  wp (conn_del_service cn id) Q st.
Proof.
  intros Hc Hid Hs Hn HQ. unfold conn_del_service, map_del_cnted. apply wp_bind.
  eapply wp_conn_services_at; [exact Hc|]. apply wp_bind.
  eapply wp_lift; [by eapply amap_del_Some|]. apply wp_bind.
  eapply wp_update; [exact Hc|reflexivity|]. rewrite Hid.
  by eapply wp_service_dec_ref.
Qed.

Lemma wp_conn_has_service cn c id (Q : bool → state → Prop) st :
  conns st !! cn = Some c → Q (amap_has (conn_services c) id) st →
  wp (conn_has_service cn id) Q st.
Proof.
  intros Hc HQ. unfold conn_has_service. apply wp_bind.
  eapply wp_conn_services_at; [exact Hc|]. by apply wp_ret.
Qed.

Definition stale (c : conn) : bool :=
  negb (conn_is_connected c) && bool_decide (amap_size (conn_services c) = 0).

Lemma wp_conn_is_stale cn c (Q : bool → state → Prop) st :
  conns st !! cn = Some c → Q (stale c) st → wp (conn_is_stale cn) Q st.
Proof. intros Hc HQ. unfold conn_is_stale. apply wp_bind. eapply wp_load; [exact Hc|done]. Qed.

(** A connection with empty maps is just freed. *)
Lemma wp_conn_destroy_empty cn c (Q : unit → state → Prop) st :
  conns st !! cn = Some c → conn_services c = [] → conn_subs c = [] →
  Q tt (set_conns (delete cn) st) → wp (conn_destroy cn) Q st.
Proof.
  intros Hc H1 H2 HQ. unfold conn_destroy, map_clear_cnted.
  apply wp_bind, wp_bind. eapply wp_conn_services_at; [exact Hc|]. rewrite H1.
  apply wp_bind, wp_ret. eapply wp_update; [exact Hc|reflexivity|].
  apply wp_bind, wp_bind. eapply wp_conn_subs_at; [apply lookup_insert_eq|].
  cbn [conn_with_services conn_subs]. rewrite H2.
  apply wp_bind, wp_ret. eapply wp_update; [apply lookup_insert_eq|reflexivity|].
  eapply wp_free; [apply lookup_insert_eq|].
  unfold set_heap, conn_Obj, set_conns in *. simpl. by rewrite !delete_insert_eq.
Qed.

(** ** Searching the connections of a client *)

Lemma wp_mfind {A} (p : A → M state bool) (b : A → bool) l (Q : option A → state → Prop) st :
  (∀ x Q', x ∈ l → Q' (b x) st → wp (p x) Q' st) →
  Q (snd <$> list_find (λ x, b x = true) l) st → wp (mfind p l) Q st.
Proof.
  intros Hp. revert Q. induction l as [|x l IH]; intros Q HQ; simpl; [by apply wp_ret|].
  apply wp_bind, Hp; [left|]. simpl in HQ. destruct (b x); [by apply wp_ret|].
  apply IH; [intros y Q' Hy; apply Hp; by right|].
  rewrite decide_False in HQ by done. by destruct (list_find _ l) as [[]|].
Qed.

(** ** Notifications *)

Definition notification (sb : gmap loc sub) (ct : service_change_type) (srv : service)
    (l : loc) : option output :=
  s ← sb !! l;
  t ← transition (sees s (props_before ct srv)) (sees s (props_after ct srv));
  Some (OMatch l (match_cb_data s) t srv).

Definition notifications (sb : gmap loc sub) (dbu : amap loc) (ct : service_change_type)
    (srv : service) : list output :=
  omap (λ kv, notification sb ct srv kv.2) dbu.

Definition subs_ok (sb : gmap loc sub) (dbu : amap loc) : Prop :=
  Forall (λ kv, ∃ s, sb !! kv.2 = Some s ∧ filter_ok (sub_filter s)) dbu.

Lemma set_outputs_app os os' st :
  set_outputs (λ x, x ++ os') (set_outputs (λ x, x ++ os) st) =
  set_outputs (λ x, x ++ (os ++ os')) st.
Proof. unfold set_outputs. simpl. by rewrite app_assoc. Qed.

Lemma set_outputs_nil st : set_outputs (λ x, x ++ []) st = st.
Proof. unfold set_outputs. rewrite app_nil_r. by destruct st. Qed.

Lemma wp_sub_notify l s ct srv x (Q : unit → state → Prop) st :
  subs st !! l = Some s → filter_ok (sub_filter s) →
  services st !! srv = Some x → change_ok ct x →
  Q tt (set_outputs (λ os, os ++ option_list (notification (subs st) ct x l)) st) →
  wp (sub_notify l ct srv) Q st.
Proof.
  intros Hs Hf Hx Hct HQ. unfold sub_notify. apply wp_bind.
  eapply wp_load; [exact Hs|]. apply wp_bind. eapply wp_load; [exact Hx|]. apply wp_bind.
  eapply wp_lift; [by apply sub_notify_match_spec|].
  unfold notification in HQ. rewrite Hs in HQ. simpl in HQ.
  destruct (transition _ _) as [t|]; simpl in HQ.
  - exact HQ.
  - rewrite set_outputs_nil in HQ. by apply wp_ret.
Qed.

Lemma wp_notify_all ct srv x dbu (Q : unit → state → Prop) st :
  subs_ok (subs st) dbu → services st !! srv = Some x → change_ok ct x →
  Q tt (set_outputs (λ os, os ++ notifications (subs st) dbu ct x) st) →
  wp (mforeach (λ kv, sub_notify kv.2 ct srv) dbu) Q st.
Proof.
  intros Hok Hx Hct. revert st Hok Hx Q. induction dbu as [|[id l] dbu IH]; intros st Hok Hx Q HQ.
  - simpl in *. rewrite set_outputs_nil in HQ. by apply wp_ret.
  - apply Forall_cons in Hok as [(s & Hs & Hf) Hok]. simpl in Hs. cbn [mforeach].
    apply wp_bind. eapply wp_sub_notify; [exact Hs|done|exact Hx|done|].
    apply IH; [done|done|]. rewrite set_outputs_app.
    unfold notifications in HQ. csimpl in HQ. simpl.
    by destruct (notification (subs st) ct x l).
Qed.

(** ** Committing *)

Lemma wp_service_commit cb l s s' ct (Q : unit → state → Prop) st :
  services st !! l = Some s → service_commit_change s = Ok (s', ct) →
  wp (cb l ct) Q (set_services <[l := s']> st) →
  wp (service_commit cb l) Q st.
Proof.
  intros Hs Hc HQ. unfold service_commit. apply wp_bind. eapply wp_load; [exact Hs|].
  apply wp_bind. eapply wp_lift; [exact Hc|]. apply wp_bind. apply wp_modify. exact HQ.
Qed.

Lemma wp_service_remove cb l s s' ct (Q : unit → state → Prop) st :
  services st !! l = Some s → service_remove_change s = Ok (s', ct) →
  wp (cb l ct) Q (set_services <[l := s']> st) →
  wp (service_remove cb l) Q st.
Proof.
  intros Hs Hc HQ. unfold service_remove. apply wp_bind. eapply wp_load; [exact Hs|].
  apply wp_bind. eapply wp_lift; [exact Hc|]. apply wp_bind. apply wp_modify. exact HQ.
Qed.

(** ** Time *)

Definition ttl_ok (ttl : Z) : Prop := (0 ≤ ttl ≤ 2 ^ 32)%Z.

Definition clock_ok (st : state) : Prop := ∀ n, timespec_ok (clock st n).

Lemma time_left_fits ttl since now : ttl_ok ttl → time_ok since → time_ok now →
  fits2 36 (time_left ttl since now).
Proof.
  intros Httl [Hs _] [Hn _]. unfold time_left.
  assert (He : fits2 35 (d_sub now since)) by (apply (d_sub_fits 34); [lia|done..]).
  assert (Ht : fits2 35 (d_of_Z ttl)).
  { unfold ttl_ok in Httl. apply (fits2_mono 32); [lia|]. apply d_of_Z_fits; lia. }
  assert (Hl : fits2 36 (d_sub (d_of_Z ttl) (d_sub now since)))
    by (apply (d_sub_fits 35); [lia|done..]).
  by destruct (d_lt _ _).
Qed.

Lemma margin_fits : fits2 36 EPOLL_ROUNDING_ERROR_MARGIN.
Proof. vm_compute. by split. Qed.

(** What is known of the current generation of an orphan. *)
Definition orphan_ok (g : generation) : Prop :=
  time_ok (gen_orphan_since g) ∧ ttl_ok (gen_ttl g).

(** What [service_orphan_time_left] returns for the generation [g], when the
    clock reads as it does now. *)
Definition left_at (g : generation) (st : state) : double :=
  time_left (gen_ttl g) (gen_orphan_since g) (ut_timespec_to_f (clock st (tick st))).

Lemma left_at_fits g st : orphan_ok g → clock_ok st → fits2 36 (left_at g st).
Proof.
  intros [Ht Httl] Hc. apply time_left_fits; [done|done|]. apply ut_timespec_to_f_ok, Hc.
Qed.

Lemma wp_time_left l s g (Q : double → state → Prop) st :
  services st !! l = Some s → current s = Some g → orphan_ok g →
  Q (left_at g st) (set_tick S st) →
  wp (service_orphan_time_left l) Q st.
Proof.
  intros Hs Hg [Ht Httl] HQ. unfold service_orphan_time_left. apply wp_bind.
  eapply wp_load; [exact Hs|]. apply wp_bind. eapply (wp_lift _ true).
  { unfold service_is_orphan, service_get_orphan_since, service_get. rewrite Hg. simpl.
    rewrite d_ge_0. by destruct Ht as [_ ->]. }
  apply wp_bind. eapply wp_lift; [done|]. apply wp_bind. unfold wp at 1, ut_ftime.
  eapply wp_lift; [|exact HQ].
  unfold service_time_left, service_get_orphan_since, service_get_ttl, service_get.
  rewrite Hg. reflexivity.
Qed.

(** ** Orphan timers *)

Lemma wp_event_add t x tv (Q : unit → state → Prop) st :
  timers st !! t = Some x →
  Q tt (set_outputs (λ os, os ++ [OEventAdd t tv])
         (set_timers <[t := timer_with_pending (Some tv) x]> st)) →
  wp (event_add t tv) Q st.
Proof.
  intros Ht HQ. unfold event_add. apply wp_bind.
  by eapply wp_update; [exact Ht|reflexivity|].
Qed.

Lemma wp_event_del t x (Q : unit → state → Prop) st :
  timers st !! t = Some x →
  Q tt (set_outputs (λ os, os ++ [OEventDel t])
         (set_timers <[t := timer_with_pending None x]> st)) →
  wp (event_del t) Q st.
Proof.
  intros Ht HQ. unfold event_del. apply wp_bind.
  by eapply wp_update; [exact Ht|reflexivity|].
Qed.

(** The state with a timer for the orphan [s] at [l], started with [tv]. *)
Definition with_timer (l : loc) (s : service) (tv : timeval) (st : state) : state :=
  State (<[l := with_ref_cnt (service_ref_cnt s + 1) s]> (services st)) (subs st) (conns st)
    (clients st) (<[next_loc st := OrphanTimer l (Some tv)]> (timers st)) (db_clients st)
    (db_services st) (db_subs st) (orphans st ++ [(service_id s, next_loc st)])
    (Pos.succ (next_loc st)) (clock st) (S (S (tick st)))
    (outputs st ++ [OEventAdd (next_loc st) tv]).

(** The state without the timer [t] of the service [s] at [l]. *)
Definition without_timer (l : loc) (s : service) (t : loc) (st : state) : state :=
  State (<[l := with_ref_cnt (service_ref_cnt s - 1) s]> (services st)) (subs st) (conns st)
    (clients st) (delete t (timers st)) (db_clients st) (db_services st) (db_subs st)
    (amap_remove (orphans st) (service_id s)) (next_loc st) (clock st) (tick st)
    (outputs st ++ [OEventDel t; OEventDel t]).

Lemma wp_add_orphan_timer l s g (Q : unit → state → Prop) st :
  services st !! l = Some s → current s = Some g → orphan_ok g → clock_ok st →
  (0 < service_ref_cnt s)%Z → amap_get (orphans st) (service_id s) = None →
  (∀ tv, ut_f_to_timeval (d_add (left_at g (set_tick S st)) EPOLL_ROUNDING_ERROR_MARGIN) = Ok tv →
     Q tt (with_timer l s tv st)) →
  wp (add_orphan_timer l) Q st.
Proof.
  intros Hs Hg Ho Hc Hn Hid HQ. unfold add_orphan_timer. apply wp_bind.
  eapply wp_time_left; [done|done|done|].
  apply wp_bind. unfold orphan_timer_create. apply wp_bind, wp_alloc. apply wp_bind.
  eapply wp_time_left; [exact Hs|done|done|]. cbn zeta.
  change (left_at g _) with (left_at g (set_tick S st)).
  destruct (ut_f_to_timeval_ok (d_add (left_at g (set_tick S st)) EPOLL_ROUNDING_ERROR_MARGIN))
    as [tv Etv].
  { apply (d_add_fits 36); [lia|by apply left_at_fits|apply margin_fits]. }
  apply wp_bind. eapply wp_lift; [exact Etv|]. apply wp_bind.
  eapply wp_event_add; [apply lookup_insert_eq|]. apply wp_bind.
  eapply wp_service_inc_ref; [exact Hs|done|]. apply wp_ret. apply wp_bind.
  eapply wp_read; [apply lookup_insert_eq|reflexivity|].
  unfold orphan_map_add. apply wp_bind, wp_gets, wp_bind.
  eapply wp_lift; [by apply amap_add_None|]. apply wp_modify.
  eapply eq_ind; [exact (HQ tv Etv)|].
  apply state_ext; try reflexivity. simpl. by rewrite insert_insert_eq.
Qed.

(** The state in which the timer [t] of an orphan is set again. *)
Definition with_timer_again (t : loc) (x : orphan_timer) (tv : timeval) (st : state) : state :=
  set_outputs (λ os, os ++ [OEventDel t; OEventAdd t tv])
    (set_timers <[t := timer_with_pending (Some tv) x]> (set_tick S st)).

Lemma wp_update_orphan_timer l s g t x (Q : unit → state → Prop) st :
  services st !! l = Some s → current s = Some g → orphan_ok g → clock_ok st →
  amap_get (orphans st) (service_id s) = Some t → timers st !! t = Some x →
  (∀ tv, ut_f_to_timeval (left_at g st) = Ok tv → Q tt (with_timer_again t x tv st)) →
  wp (update_orphan_timer l) Q st.
Proof.
  intros Hs Hg Ho Hc Hid Ht HQ. unfold update_orphan_timer. apply wp_bind.
  eapply wp_read; [exact Hs|reflexivity|]. unfold orphan_map_get. apply wp_bind, wp_gets.
  apply wp_bind. eapply wp_lift; [by rewrite Hid|]. apply wp_bind.
  eapply wp_event_del; [exact Ht|]. apply wp_bind.
  eapply wp_time_left; [exact Hs|done|done|].
  change (left_at g _) with (left_at g st).
  destruct (ut_f_to_timeval_ok (left_at g st)) as [tv Etv].
  { by apply (fits2_mono 36), left_at_fits. }
  apply wp_bind. eapply wp_lift; [exact Etv|].
  eapply wp_event_add; [apply lookup_insert_eq|].
  eapply eq_ind; [exact (HQ tv Etv)|]. apply state_ext; try reflexivity; simpl.
  - by rewrite insert_insert_eq.
  - by rewrite <-app_assoc.
Qed.

Lemma wp_remove_orphan_timer l s t x (Q : unit → state → Prop) st :
  services st !! l = Some s → (1 < service_ref_cnt s)%Z →
  amap_get (orphans st) (service_id s) = Some t → timers st !! t = Some x →
  timer_service x = l →
  Q tt (without_timer l s t st) →
  wp (remove_orphan_timer l) Q st.
Proof.
  intros Hs Hn Hid Ht Hl HQ. unfold remove_orphan_timer. apply wp_bind.
  eapply wp_read; [exact Hs|reflexivity|]. unfold orphan_map_get. apply wp_bind, wp_gets.
  unfold orphan_map_del. apply wp_bind, wp_bind, wp_gets, wp_bind.
  eapply wp_lift; [by eapply amap_del_Some|]. apply wp_modify. apply wp_bind.
  eapply wp_lift; [by rewrite Hid|]. apply wp_bind.
  eapply wp_event_del; [exact Ht|]. unfold orphan_timer_destroy. apply wp_bind.
  eapply wp_event_del; [apply lookup_insert_eq|]. apply wp_bind.
  eapply wp_read; [apply lookup_insert_eq|reflexivity|]. apply wp_bind. cbn [timer_service timer_with_pending].
  rewrite Hl. eapply wp_service_dec_ref; [exact Hs|done|].
  eapply wp_free; [apply lookup_insert_eq|].
  eapply eq_ind; [exact HQ|]. apply state_ext; try reflexivity; simpl.
  - by rewrite insert_insert_eq, delete_insert_eq.
  - by rewrite <-app_assoc.
Qed.

(** ** The change callback *)

(** The current, or the previous, generation says that the service is an orphan. *)
Definition gen_orphan (g : option generation) : bool :=
  match g with Some g => nonneg (gen_orphan_since g) | None => false end.

Definition s_orphan (s : service) : bool := gen_orphan (current s).
Definition s_was_orphan (s : service) : bool := gen_orphan (prev s).

Lemma service_is_orphan_eq s : current s ≠ None → service_is_orphan s = Ok (s_orphan s).
Proof.
  unfold service_is_orphan, service_get_orphan_since, service_get, s_orphan.
  destruct (current s); [|done]. intros _. simpl. by rewrite d_ge_0.
Qed.

Lemma service_was_orphan_eq s : service_was_orphan s = Ok (s_was_orphan s).
Proof.
  unfold service_was_orphan, service_get_prev_orphan_since, service_get_prev, s_was_orphan.
  destruct (prev s); [|done]. simpl. by rewrite d_ge_0.
Qed.

Definition notified (ct : service_change_type) (s : service) (st : state) : state :=
  set_outputs (λ os, os ++ notifications (subs st) (db_subs st) ct s) st.

Lemma wp_service_changed ct l s (Q : unit → state → Prop) st :
  subs_ok (subs st) (db_subs st) → services st !! l = Some s → change_ok ct s →
  wp (maintain_orphans l ct) Q (notified ct s st) →
  wp (service_changed l ct) Q st.
Proof.
  intros Hok Hs Hc HQ. unfold service_changed. apply wp_bind.
  unfold db_foreach_sub. apply wp_bind, wp_gets.
  eapply wp_notify_all; [exact Hok|exact Hs|exact Hc|exact HQ].
Qed.

Section maintain.
Context (l : loc) (s : service) (st : state) (Q : unit → state → Prop).
Context (Hs : services st !! l = Some s).

Lemma wp_maintain_added : current s ≠ None → s_orphan s = false → Q tt st →
  wp (maintain_orphans l service_change_type_added) Q st.
Proof.
  intros Hc Ho HQ. apply wp_bind. eapply wp_read; [exact Hs|by apply service_is_orphan_eq|].
  rewrite Ho. by apply wp_ret.
Qed.

Lemma wp_maintain_modified : current s ≠ None →
  wp (match s_was_orphan s, s_orphan s with
      | true, false => remove_orphan_timer l
      | false, true => add_orphan_timer l
      | true, true => update_orphan_timer l
      | false, false => mret tt
      end) Q st →
  wp (maintain_orphans l service_change_type_modified) Q st.
Proof.
  intros Hc HQ. apply wp_bind. eapply wp_read; [exact Hs|by apply service_is_orphan_eq|].
  apply wp_bind. eapply wp_read; [exact Hs|apply service_was_orphan_eq|].
  by destruct (s_was_orphan s), (s_orphan s).
Qed.

Lemma wp_maintain_removed :
  wp (if s_was_orphan s then remove_orphan_timer l else mret tt) Q st →
  wp (maintain_orphans l service_change_type_removed) Q st.
Proof.
  intros HQ. apply wp_bind. by eapply wp_read; [exact Hs|apply service_was_orphan_eq|].
Qed.
End maintain.
