(* ===== verification/SdTimer.v ===== *)
(** * How long orphan timers run

    The timers of src/src/sd/sd.c are set in floating-point seconds.  Against
    the exact time that an orphan has left at the reading of the clock that is
    used, a new timer ([orphan_timer_create]) is long enough, and at most 1.1
    milliseconds too long; one that is set again ([update_orphan_timer]) has no
    margin, and is right but for 50 microseconds. *)

From Stdlib Require Import SpecFloat QArith Qminmax Lqa.
From S2P Require Import Prelude Amap Pvalue Props Double Rounding Service Sub Heap Client Sd SdWp.

Open Scope Q_scope.

(** The exact time that is left, for the clock reading [now]. *)
Definition exact_left (g : generation) (now : timespec) : Q :=
  Qmax 0 (inject_Z (gen_ttl g) - (ts_val now - val (gen_orphan_since g))).

Lemma p2_34 : p2 34 == 17179869184.
Proof. reflexivity. Qed.

Lemma time_ok_val t : time_ok t → finite t = true ∧ 0 <= val t <= p2 34.
Proof.
  intros [Hf Hn]. destruct t as [s|s| |[] m e]; try done.
  destruct Hf as [He Hm]. split; [done|]. cbn [val cond_Zopp]. pose proof (p2_pos e) as Pe.
  split; [apply Qlt_le_weak, scaled_pos|]. rewrite Zle_Qle, p2_Z in Hm by lia.
  apply (Qmult_le_compat_r _ _ (p2 e)) in Hm; [|lra]. rewrite <-p2_add in Hm.
  by replace (34 - e + e)%Z with 34%Z in Hm by lia.
Qed.

Lemma finite_nonneg x : finite x = true → nonneg x = true → 0 <= val x.
Proof.
  destruct x as [s|s| |[] m e]; try done. intros _ _. apply Qlt_le_weak, scaled_pos.
Qed.

Lemma finite_negative x : finite x = true → nonneg x = false → val x <= 0.
Proof.
  destruct x as [s|s| |[] m e]; try done. intros _ _. cbn [val cond_Zopp].
  rewrite inject_Z_opp. pose proof (scaled_pos m e). lra.
Qed.

(** [service_orphan_time_left] is right but for 35 microseconds. *)
Lemma time_left_near g now : orphan_ok g → timespec_ok now →
  let left := time_left (gen_ttl g) (gen_orphan_since g) (ut_timespec_to_f now) in
  finite left = true ∧ 0 <= val left <= 34359738370 ∧
  within (35 # 1000000) (val left) (exact_left g now).
Proof.
  intros [Ht Httl] Hnow. unfold time_left.
  destruct (ut_timespec_to_f_near now Hnow) as [Fn Hn].
  destruct (time_ok_val _ (ut_timespec_to_f_ok now Hnow)) as [_ Bn].
  destruct (time_ok_val _ Ht) as [Fs Bs]. rewrite p2_34 in Bn, Bs.
  set (n := ut_timespec_to_f now) in *. set (since := gen_orphan_since g) in *.
  destruct (d_sub_near 34 n since) as (Fe & He & _); [lia|done|done|rewrite p2_34; lra|].
  assert (E17 : p2 (34 - 51) == 1 # 131072) by reflexivity. rewrite E17 in He.
  destruct (d_of_Z_exact (gen_ttl g)) as [Ft Et]; [unfold ttl_ok in Httl; lia|].
  assert (Bt : 0 <= inject_Z (gen_ttl g) <= 4294967296).
  { change 0 with (inject_Z 0). change 4294967296 with (inject_Z 4294967296).
    rewrite <-!Zle_Qle. unfold ttl_ok in Httl. lia. }
  set (el := d_sub n since) in *.
  destruct (d_sub_near 35 (d_of_Z (gen_ttl g)) el) as (Fl & Hl & _); [lia|done|done| |].
  { change (p2 35) with 34359738368. rewrite Et. lra. }
  assert (E16 : p2 (35 - 51) == 1 # 65536) by reflexivity. rewrite E16, Et in Hl.
  set (left := d_sub (d_of_Z (gen_ttl g)) el) in *. unfold within, exact_left in *. fold since.
  rewrite d_lt_0 by (by destruct left). destruct (nonneg left) eqn:N; cbn [negb].
  - apply finite_nonneg in N; [|done]. split; [done|]. split; [lra|].
    destruct (Q.max_spec 0 (inject_Z (gen_ttl g) - (ts_val now - val since))) as [[H ->]|[H ->]]; lra.
  - apply finite_negative in N; [|done]. split; [done|]. change (val d_0) with 0. split; [lra|].
    destruct (Q.max_spec 0 (inject_Z (gen_ttl g) - (ts_val now - val since))) as [[H ->]|[H ->]]; lra.
Qed.

(** The interval that [orphan_timer_create] asks for. *)
Lemma new_timeval_near g now : orphan_ok g → timespec_ok now → ∃ tv,
  ut_f_to_timeval (d_add (time_left (gen_ttl g) (gen_orphan_since g) (ut_timespec_to_f now))
                     EPOLL_ROUNDING_ERROR_MARGIN) = Ok tv ∧
  exact_left g now + (9 # 10000) <= tv_val tv <= exact_left g now + (11 # 10000).
Proof.
  intros Hg Hnow. destruct (time_left_near g now Hg Hnow) as (Fl & Bl & Hl).
  set (left := time_left _ _ _) in *. unfold within in *.
  assert (Em : within (1 # 1000000000) (val EPOLL_ROUNDING_ERROR_MARGIN) (1 # 1000))
    by (split; vm_compute; discriminate).
  unfold within in Em.
  destruct (d_add_near 36 left EPOLL_ROUNDING_ERROR_MARGIN) as (Fa & Ha & Na);
    [lia|done|reflexivity|change (p2 36) with 68719476736; lra|].
  assert (E15 : p2 (36 - 51) == 1 # 32768) by reflexivity. rewrite E15 in Ha.
  specialize (Na ltac:(lra)).
  destruct (ut_f_to_timeval_near _ Fa Na) as (tv & Etv & _ & _ & Htv);
    [change (p2 37) with 137438953472; lra|].
  exists tv. split; [done|]. unfold within in Htv. lra.
Qed.

(** The interval that [update_orphan_timer] asks for. *)
Lemma updated_timeval_near g now : orphan_ok g → timespec_ok now → ∃ tv,
  ut_f_to_timeval (time_left (gen_ttl g) (gen_orphan_since g) (ut_timespec_to_f now)) = Ok tv ∧
  within (5 # 100000) (tv_val tv) (exact_left g now).
Proof.
  intros Hg Hnow. destruct (time_left_near g now Hg Hnow) as (Fl & [Nl Bl] & Hl).
  destruct (ut_f_to_timeval_near _ Fl Nl) as (tv & Etv & _ & _ & Htv);
    [change (p2 37) with 137438953472; lra|].
  exists tv. split; [done|]. unfold within in *. lra.
Qed.

(** ** The timers of the core *)

(** The changes that make a service an orphan. *)
Definition starts_timer (ct : service_change_type) (s : service) : Prop :=
  ct = service_change_type_added ∨
  (ct = service_change_type_modified ∧ s_was_orphan s = false).

(** C17: the timer of a service that becomes an orphan is set for the time that
    the service has left, exactly, when the clock is read for it, and between
    0.9 and 1.1 milliseconds more, so that it is never early by the rounding of
    its floating-point times; a timer that is set again for an orphan that was
    changed is set for the time left up to 50 microseconds. *)
Theorem orphan_timers_precise l s g st :
  services st !! l = Some s → current s = Some g → orphan_ok g → clock_ok st →
  (∀ ct, starts_timer ct s → (0 < service_ref_cnt s)%Z →
     amap_get (orphans st) (service_id s) = None →
     let left := exact_left g (clock st (S (tick st))) in
     ∃ t tv st', maintain_orphans l ct st = Ok (tt, st') ∧
       amap_get (orphans st') (service_id s) = Some t ∧
       timers st' = <[t := OrphanTimer l (Some tv)]> (timers st) ∧
       outputs st' = outputs st ++ [OEventAdd t tv] ∧
       left + (9 # 10000) <= tv_val tv <= left + (11 # 10000)) ∧
  (∀ t x, s_was_orphan s = true →
     amap_get (orphans st) (service_id s) = Some t → timers st !! t = Some x →
     ∃ tv st', maintain_orphans l service_change_type_modified st = Ok (tt, st') ∧
       timers st' = <[t := timer_with_pending (Some tv) x]> (timers st) ∧
       outputs st' = outputs st ++ [OEventDel t; OEventAdd t tv] ∧
       within (5 # 100000) (tv_val tv) (exact_left g (clock st (tick st)))).
Proof.
  intros Hs Hg Ho Hc. assert (Hcur : current s ≠ None) by (by rewrite Hg).
  assert (Hor : s_orphan s = true) by (unfold s_orphan; rewrite Hg; apply Ho).
  split.
  - intros ct Hct Hn Hid left.
    destruct (new_timeval_near g (clock st (S (tick st))) Ho (Hc _)) as (tv & Etv & Htv).
    assert (H : wp (maintain_orphans l ct) (λ _ st', st' = with_timer l s tv st) st).
    { assert (Ha : wp (add_orphan_timer l) (λ _ st', st' = with_timer l s tv st) st).
      { eapply wp_add_orphan_timer; [exact Hs|exact Hg|done|done|done|done|].
        intros tv' E. change (left_at g (set_tick S st)) with
          (time_left (gen_ttl g) (gen_orphan_since g) (ut_timespec_to_f (clock st (S (tick st))))) in E.
        assert (tv' = tv) as -> by congruence. reflexivity. }
      destruct Hct as [->|[-> Hw]].
      - apply wp_bind. eapply wp_read; [exact Hs|by apply service_is_orphan_eq|]. by rewrite Hor.
      - eapply wp_maintain_modified; [exact Hs|done|]. by rewrite Hw, Hor. }
    unfold wp in H. destruct (maintain_orphans l ct st) as [[[] st']|]; [|done]. subst st'.
    exists (next_loc st), tv, (with_timer l s tv st). split; [done|]. split; [|done].
    cbn [orphans with_timer]. rewrite amap_get_add by done. by rewrite decide_True.
  - intros t x Hw Hid Ht.
    destruct (updated_timeval_near g (clock st (tick st)) Ho (Hc _)) as (tv & Etv & Htv).
    assert (H : wp (maintain_orphans l service_change_type_modified)
                  (λ _ st', st' = with_timer_again t x tv st) st).
    { eapply wp_maintain_modified; [exact Hs|done|]. rewrite Hw, Hor.
      eapply wp_update_orphan_timer; [exact Hs|exact Hg|done|done|exact Hid|exact Ht|].
      intros tv' E. unfold left_at in E. assert (tv' = tv) as -> by congruence. reflexivity. }
    unfold wp in H. destruct (maintain_orphans _ _ st) as [[[] st']|]; [|done]. subst st'.
    by exists tv, (with_timer_again t x tv st).
Qed.

(** An orphan since 100, with a minute to live, at 130.25. *)
Definition waiting : generation := Generation 1 (Some props_create) 60 (d_of_Z 100) 7.
Definition was_served : generation := Generation 1 (Some props_create) 60 (d_of_Z (-1)) 7.

Definition waiting_state : state :=
  State {[1%positive := Service 5 service_change_type_modified (Some waiting) (Some was_served) None 1]}
    ∅ ∅ ∅ ∅ [] [(5%Z, 1%positive)] [] [] 2 (λ _, Timespec 130 250000000) 0 [].

Lemma orphan_timers_precise_witness : ∃ t tv st',
  maintain_orphans 1 service_change_type_modified waiting_state = Ok (tt, st') ∧
  outputs st' = [OEventAdd t tv] ∧ 297509 # 10000 <= tv_val tv <= 297511 # 10000.
Proof.
  assert (Hs : services waiting_state !! 1%positive =
    Some (Service 5 service_change_type_modified (Some waiting) (Some was_served) None 1))
    by reflexivity.
  assert (Ho : orphan_ok waiting).
  { split; [split; [vm_compute; split; discriminate|reflexivity]|]. split; vm_compute; discriminate. }
  assert (Hc : clock_ok waiting_state) by (intros n; split; split; vm_compute; discriminate || reflexivity).
  destruct (orphan_timers_precise 1 _ waiting waiting_state Hs eq_refl Ho Hc) as [H _].
  destruct (H service_change_type_modified) as (t & tv & st' & E & _ & _ & Eo & Htv);
    [right; split; reflexivity|reflexivity|reflexivity|].
  exists t, tv, st'. split; [exact E|]. split; [exact Eo|].
  assert (El : exact_left waiting (clock waiting_state (S (tick waiting_state))) == 2975 # 100)
    by (vm_compute; reflexivity).
  lra.
Defined.
