(* ===== verification/SdInv.v ===== *)
(** * The invariant of the core

    What holds of the memory between two operations, in parts that depend on
    few components of the state each: services and their reference counts
    ([S_inv]), orphan timers ([O_inv]), clients and connections ([C_inv]), who
    holds which service ([H_inv]), subscriptions ([U_inv]).  The lemmas say
    which changes of the components keep a part. *)

From S2P Require Import Prelude CLib Pvalue Props Filter Double Service Sub Amap Heap Client Sd SdWp.

(** ** Services *)

Definition since_ok (t : double) : Prop := t = d_of_Z (-1) ∨ time_ok t.

Definition gen_ok (g : generation) : Prop :=
  generation_is_consistent g = true ∧ has_props (Some g) ∧ ttl_ok (gen_ttl g) ∧
  since_ok (gen_orphan_since g).

Definition srv_ok (s : service) : Prop :=
  idle s ∧ (0 ≤ service_id s)%Z ∧ ∃ g, current s = Some g ∧ gen_ok g.

Definition s_client (s : service) : Z :=
  match current s with Some g => gen_client_id g | None => (-1)%Z end.

(** One reference of the database, one of the connection that holds the
    service, and one of the orphan timer. *)
Definition refs_ok (s : service) : Prop :=
  service_ref_cnt s = if s_orphan s then 3%Z else 2%Z.

Record S_inv (sv : gmap loc service) (dbs : amap loc) : Prop := {
  S_nodup : NoDup (amap_keys dbs);
  S_get : ∀ id l, amap_get dbs id = Some l → ∃ s, sv !! l = Some s ∧ service_id s = id;
  S_db : ∀ l s, sv !! l = Some s → amap_get dbs (service_id s) = Some l;
  S_ok : ∀ l s, sv !! l = Some s → srv_ok s;
  S_refs : ∀ l s, sv !! l = Some s → refs_ok s
}.

Definition ids_inj (sv : gmap loc service) : Prop := ∀ l l' s s',
  sv !! l = Some s → sv !! l' = Some s' → service_id s = service_id s' → l = l'.

Lemma S_ids_inj sv dbs : S_inv sv dbs → ids_inj sv.
Proof. intros H l l' s s' E E' Eid. apply (S_db _ _ H) in E, E'. congruence. Qed.

Lemma S_update sv dbs l s s' : S_inv sv dbs → sv !! l = Some s →
  service_id s' = service_id s → srv_ok s' → refs_ok s' → S_inv (<[l := s']> sv) dbs.
Proof.
  intros H Hs Hid Hok Hr. split.
  - apply H.
  - intros id l' (s0 & Hs0 & E)%(S_get _ _ H). destruct (decide (l = l')) as [->|].
    + exists s'. rewrite lookup_insert_eq. split; [done|]. simplify_eq. done.
    + exists s0. by rewrite lookup_insert_ne.
  - intros l' s0 [[-> ->]|[Hne Hl]]%lookup_insert_Some.
    + rewrite Hid. by eapply S_db.
    + by eapply S_db.
  - intros l' s0 [[-> ->]|[Hne Hl]]%lookup_insert_Some; [done|by eapply S_ok].
  - intros l' s0 [[-> ->]|[Hne Hl]]%lookup_insert_Some; [done|by eapply S_refs].
Qed.

Lemma S_add sv dbs l s : S_inv sv dbs → sv !! l = None →
  amap_get dbs (service_id s) = None → srv_ok s → refs_ok s →
  S_inv (<[l := s]> sv) (dbs ++ [(service_id s, l)]).
Proof.
  intros H Hl Hid Hok Hr. split.
  - apply amap_add_nodup; [done|apply H].
  - intros id l'. rewrite amap_get_add by done. case_decide.
    + intros [= <-]. exists s. by rewrite lookup_insert_eq.
    + intros (s0 & Hs0 & E)%(S_get _ _ H). exists s0.
      rewrite lookup_insert_ne by congruence. done.
  - intros l' s0 [[-> ->]|[Hne Hs0]]%lookup_insert_Some; rewrite amap_get_add by done.
    + by rewrite decide_True.
    + pose proof (S_db _ _ H _ _ Hs0). rewrite decide_False by congruence. done.
  - intros l' s0 [[-> ->]|[Hne Hs0]]%lookup_insert_Some; [done|by eapply S_ok].
  - intros l' s0 [[-> ->]|[Hne Hs0]]%lookup_insert_Some; [done|by eapply S_refs].
Qed.

Lemma S_del sv dbs l s : S_inv sv dbs → sv !! l = Some s →
  S_inv (delete l sv) (amap_remove dbs (service_id s)).
Proof.
  intros H Hl. pose proof (S_db _ _ H _ _ Hl) as Hid. split.
  - apply amap_remove_nodup, H.
  - intros id l'. rewrite amap_get_remove by apply H. case_decide; [done|].
    intros (s0 & Hs0 & E)%(S_get _ _ H). exists s0.
    rewrite lookup_delete_ne by congruence. done.
  - intros l' s0 [Hne Hs0]%lookup_delete_Some. rewrite amap_get_remove by apply H.
    pose proof (S_db _ _ H _ _ Hs0). rewrite decide_False by congruence. done.
  - intros l' s0 [Hne Hs0]%lookup_delete_Some. by eapply S_ok.
  - intros l' s0 [Hne Hs0]%lookup_delete_Some. by eapply S_refs.
Qed.

(** ** Orphan timers *)

Record O_inv (sv : gmap loc service) (orph : amap loc) (tms : gmap loc orphan_timer) : Prop := {
  O_nodup : NoDup (amap_keys orph);
  O_get : ∀ id t, amap_get orph id = Some t →
    ∃ x s, tms !! t = Some x ∧ sv !! timer_service x = Some s ∧ service_id s = id ∧
           s_orphan s = true;
  O_orphan : ∀ l s, sv !! l = Some s → s_orphan s = true →
    ∃ t x, amap_get orph (service_id s) = Some t ∧ tms !! t = Some x ∧ timer_service x = l;
  O_all : ∀ t x, tms !! t = Some x → ∃ id, amap_get orph id = Some t
}.

(** Every timer is running. *)
Definition pending_inv (tms : gmap loc orphan_timer) : Prop :=
  ∀ t x, tms !! t = Some x → is_Some (timer_pending x).

Lemma O_update sv orph tms l s s' : O_inv sv orph tms → sv !! l = Some s →
  service_id s' = service_id s → s_orphan s' = s_orphan s →
  O_inv (<[l := s']> sv) orph tms.
Proof.
  intros H Hs Hid Ho. split; [apply H| | |apply H].
  - intros id t (x & s0 & Ht & Hs0 & E & Eo)%(O_get _ _ _ H).
    destruct (decide (l = timer_service x)) as [->|].
    + exists x, s'. rewrite lookup_insert_eq. split_and!; [done|done|congruence|congruence].
    + exists x, s0. by rewrite lookup_insert_ne.
  - intros l' s0 [[-> ->]|[Hne Hs0]]%lookup_insert_Some E; [|by eapply O_orphan].
    rewrite Hid. eapply O_orphan; [done|done|congruence].
Qed.

Lemma O_add sv orph tms l s : O_inv sv orph tms → sv !! l = None → s_orphan s = false →
  O_inv (<[l := s]> sv) orph tms.
Proof.
  intros H Hl Ho. split; [apply H| | |apply H].
  - intros id t (x & s0 & Ht & Hs0 & E & Eo)%(O_get _ _ _ H). exists x, s0.
    by rewrite lookup_insert_ne by congruence.
  - intros l' s0 [[-> ->]|[Hne Hs0]]%lookup_insert_Some E; [congruence|by eapply O_orphan].
Qed.

Lemma O_del sv orph tms l s : O_inv sv orph tms → sv !! l = Some s → s_orphan s = false →
  O_inv (delete l sv) orph tms.
Proof.
  intros H Hl Ho. split; [apply H| | |apply H].
  - intros id t (x & s0 & Ht & Hs0 & E & Eo)%(O_get _ _ _ H). exists x, s0.
    by rewrite lookup_delete_ne by congruence.
  - intros l' s0 [Hne Hs0]%lookup_delete_Some E. by eapply O_orphan.
Qed.

(** A service that is no orphan has no timer. *)
Lemma O_none sv orph tms l s : O_inv sv orph tms → ids_inj sv → sv !! l = Some s →
  s_orphan s = false → amap_get orph (service_id s) = None.
Proof.
  intros H Hinj Hl Ho. destruct (amap_get orph (service_id s)) as [t|] eqn:E; [|done].
  destruct (O_get _ _ _ H _ _ E) as (x & s0 & Ht & Hs0 & Eid & Eo).
  assert (timer_service x = l) as <- by (by eapply Hinj). congruence.
Qed.

Lemma O_start sv orph tms l s s' t tv : O_inv sv orph tms → ids_inj sv →
  sv !! l = Some s → s_orphan s = false → tms !! t = None →
  service_id s' = service_id s → s_orphan s' = true →
  O_inv (<[l := s']> sv) (orph ++ [(service_id s, t)]) (<[t := OrphanTimer l (Some tv)]> tms).
Proof.
  intros H Hinj Hs Ho Ht Hid Ho'. pose proof (O_none _ _ _ _ _ H Hinj Hs Ho) as Hn. split.
  - apply amap_add_nodup; [done|apply H].
  - intros id t'. rewrite amap_get_add by done. case_decide as E.
    + intros [= <-]. exists (OrphanTimer l (Some tv)), s'. rewrite !lookup_insert_eq.
      split_and!; [done|done|congruence|done].
    + intros (x & s0 & Ht' & Hs0 & E' & Eo)%(O_get _ _ _ H). exists x, s0.
      rewrite lookup_insert_ne by congruence. rewrite lookup_insert_ne by congruence. done.
  - intros l' s0 [[-> ->]|[Hne Hs0]]%lookup_insert_Some E; rewrite amap_get_add by done.
    + rewrite Hid, decide_True by done. exists t, (OrphanTimer l' (Some tv)).
      by rewrite lookup_insert_eq.
    + destruct (O_orphan _ _ _ H _ _ Hs0 E) as (t' & x & Et & Ht' & El).
      rewrite decide_False by congruence. exists t', x.
      rewrite lookup_insert_ne by congruence. done.
  - intros t' x [[<- <-]|[Hne Ht']]%lookup_insert_Some.
    + exists (service_id s). rewrite amap_get_add by done. by rewrite decide_True.
    + destruct (O_all _ _ _ H _ _ Ht') as [id Eid]. exists id.
      rewrite amap_get_add by done. rewrite decide_False by congruence. done.
Qed.

(** The other orphans keep their timers when one is removed. *)
Lemma O_remove sv sv' orph tms l s t : O_inv sv orph tms → ids_inj sv →
  sv !! l = Some s → amap_get orph (service_id s) = Some t →
  (∀ l' s', sv' !! l' = Some s' → s_orphan s' = true → l' ≠ l ∧ sv !! l' = Some s') →
  (∀ l' s', l' ≠ l → sv !! l' = Some s' → sv' !! l' = Some s') →
  O_inv sv' (amap_remove orph (service_id s)) (delete t tms).
Proof.
  intros H Hinj Hs Ht H1 H2. pose proof (O_nodup _ _ _ H) as Hn.
  destruct (O_get _ _ _ H _ _ Ht) as (x0 & s0 & Ht0 & Hs0 & E0 & Eo0).
  assert (Hx0 : timer_service x0 = l) by (by eapply Hinj). split.
  - by apply amap_remove_nodup.
  - intros id t'. rewrite amap_get_remove by done. case_decide as E; [done|].
    intros (x & s1 & Ht' & Hs1 & E1 & Eo1)%(O_get _ _ _ H). exists x, s1.
    assert (timer_service x ≠ l) by congruence.
    split_and!; [|by apply H2|done|done]. rewrite lookup_delete_ne; congruence.
  - intros l' s' Hs' Ho'. destruct (H1 _ _ Hs' Ho') as [Hne Hs1].
    destruct (O_orphan _ _ _ H _ _ Hs1 Ho') as (t' & x & Et & Ht' & El).
    exists t', x. rewrite amap_get_remove by done.
    rewrite decide_False by (intros E; apply Hne; symmetry; by eapply Hinj).
    split_and!; [done| |done]. rewrite lookup_delete_ne; congruence.
  - intros t' x [Hne Ht']%lookup_delete_Some.
    destruct (O_all _ _ _ H _ _ Ht') as [id Eid]. exists id.
    rewrite amap_get_remove by done. rewrite decide_False by congruence. done.
Qed.

Lemma O_stop sv orph tms l s s' t : O_inv sv orph tms → ids_inj sv →
  sv !! l = Some s → amap_get orph (service_id s) = Some t → s_orphan s' = false →
  O_inv (<[l := s']> sv) (amap_remove orph (service_id s)) (delete t tms).
Proof.
  intros H Hinj Hs Ht Ho. eapply O_remove; [done..| |].
  - intros l' s0 [[-> ->]|[Hne Hs0]]%lookup_insert_Some E; [congruence|done].
  - intros l' s0 Hne Hs0. by rewrite lookup_insert_ne.
Qed.

Lemma O_stop_del sv orph tms l s t : O_inv sv orph tms → ids_inj sv →
  sv !! l = Some s → amap_get orph (service_id s) = Some t →
  O_inv (delete l sv) (amap_remove orph (service_id s)) (delete t tms).
Proof.
  intros H Hinj Hs Ht. eapply O_remove; [done..| |].
  - intros l' s0 [Hne Hs0]%lookup_delete_Some E. done.
  - intros l' s0 Hne Hs0. by rewrite lookup_delete_ne.
Qed.

(** A timer changes, but not its service. *)
Lemma O_timer sv orph tms t x x' : O_inv sv orph tms → tms !! t = Some x →
  timer_service x' = timer_service x → O_inv sv orph (<[t := x']> tms).
Proof.
  intros H Ht Hx. split; [apply H| | |].
  - intros id t' (y & s & Hy & Hs & E & Eo)%(O_get _ _ _ H). destruct (decide (t = t')) as [<-|].
    + simplify_eq. exists x', s. rewrite lookup_insert_eq, Hx. done.
    + exists y, s. by rewrite lookup_insert_ne.
  - intros l s Hs Ho. destruct (O_orphan _ _ _ H _ _ Hs Ho) as (t' & y & Et & Hy & El).
    exists t'. destruct (decide (t = t')) as [<-|].
    + simplify_eq. exists x'. by rewrite lookup_insert_eq.
    + exists y. by rewrite lookup_insert_ne.
  - intros t' y [[<- <-]|[Hne Hy]]%lookup_insert_Some; by eapply O_all.
Qed.

(** ** Clients and connections *)

Record C_inv (cns : gmap loc conn) (cls : gmap loc client) (dbc : amap loc) : Prop := {
  C_nodup : NoDup (amap_keys dbc);
  C_get : ∀ c lc, amap_get dbc c = Some lc → ∃ cl, cls !! lc = Some cl ∧ client_id cl = c;
  C_db : ∀ lc cl, cls !! lc = Some cl → amap_get dbc (client_id cl) = Some lc;
  C_ok : ∀ lc cl, cls !! lc = Some cl →
    (0 ≤ client_id cl)%Z ∧ client_ref_cnt cl = 1%Z ∧ NoDup (inactive_conns cl);
  C_active : ∀ lc cl cn, cls !! lc = Some cl → active_conn cl = Some cn →
    ∃ k, cns !! cn = Some k ∧ conn_client k = lc ∧ conn_is_connected k = true;
  C_inactive : ∀ lc cl cn, cls !! lc = Some cl → cn ∈ inactive_conns cl →
    ∃ k, cns !! cn = Some k ∧ conn_client k = lc ∧ conn_is_connected k = false ∧
         conn_subs k = [];
  C_conn : ∀ cn k, cns !! cn = Some k →
    ∃ cl, cls !! conn_client k = Some cl ∧ cn ∈ client_conns cl
}.

(** The connections of a client that has one. *)
Lemma elem_client_conns cn cl :
  cn ∈ client_conns cl ↔ active_conn cl = Some cn ∨ cn ∈ inactive_conns cl.
Proof.
  unfold client_conns. rewrite elem_of_app. destruct (active_conn cl); set_solver.
Qed.

Lemma C_same cns cls dbc cn k k' : C_inv cns cls dbc → cns !! cn = Some k →
  conn_client k' = conn_client k → conn_is_connected k' = conn_is_connected k →
  (conn_subs k = [] → conn_is_connected k = false → conn_subs k' = []) →
  C_inv (<[cn := k']> cns) cls dbc.
Proof.
  intros H Hk Hc Hd Hsubs. split; [apply H..| | |].
  - intros lc cl cn' Hcl Ha. destruct (C_active _ _ _ H _ _ _ Hcl Ha) as (k0 & Hk0 & E & Ed).
    destruct (decide (cn = cn')) as [->|].
    + exists k'. rewrite lookup_insert_eq. split_and!; [done|congruence|congruence].
    + exists k0. by rewrite lookup_insert_ne.
  - intros lc cl cn' Hcl Hi.
    destruct (C_inactive _ _ _ H _ _ _ Hcl Hi) as (k0 & Hk0 & E & Ed & Es).
    destruct (decide (cn = cn')) as [->|].
    + exists k'. simplify_eq. rewrite lookup_insert_eq. split_and!; [done..|congruence|auto].
    + exists k0. by rewrite lookup_insert_ne.
  - intros cn' k0 [[<- <-]|[Hne Hk0]]%lookup_insert_Some.
    + rewrite Hc. by eapply C_conn.
    + by eapply C_conn.
Qed.

(** A client is replaced by one with the same identity. *)
Section client_change.
Context (cns : gmap loc conn) (cls : gmap loc client) (dbc : amap loc).
Context (H : C_inv cns cls dbc).
Context (lc : loc) (cl : client) (Hcl : cls !! lc = Some cl).

Lemma C_other_conn cl' lc' cn k : cls !! lc' = Some cl' → lc ≠ lc' →
  cn ∈ client_conns cl' → cns !! cn = Some k → conn_client k = lc'.
Proof.
  intros Hcl' Hne Hin Hk. apply elem_client_conns in Hin as [Ha|Hi].
  - destruct (C_active _ _ _ H _ _ _ Hcl' Ha) as (k0 & Hk0 & E & _). congruence.
  - destruct (C_inactive _ _ _ H _ _ _ Hcl' Hi) as (k0 & Hk0 & E & _). congruence.
Qed.

Lemma C_reconnect cn k : active_conn cl = None → cns !! cn = None →
  conn_client k = lc → conn_is_connected k = true →
  C_inv (<[cn := k]> cns) (<[lc := client_with_active (Some cn) cl]> cls) dbc.
Proof.
  intros Ha Hcn Hk Hd. split.
  - apply H.
  - intros c lc' (cl0 & Hcl0 & E)%(C_get _ _ _ H). destruct (decide (lc = lc')) as [->|].
    + eexists. rewrite lookup_insert_eq. split; [done|]. simpl. congruence.
    + exists cl0. by rewrite lookup_insert_ne.
  - intros lc' cl0 [[<- <-]|[Hne Hcl0]]%lookup_insert_Some; [exact (C_db _ _ _ H _ _ Hcl)|by eapply C_db].
  - intros lc' cl0 [[<- <-]|[Hne Hcl0]]%lookup_insert_Some; [exact (C_ok _ _ _ H _ _ Hcl)|by eapply C_ok].
  - intros lc' cl0 cn' [[<- <-]|[Hne Hcl0]]%lookup_insert_Some Ha'.
    + simpl in Ha'. simplify_eq. exists k. by rewrite lookup_insert_eq.
    + destruct (C_active _ _ _ H _ _ _ Hcl0 Ha') as (k0 & Hk0 & E & Ed). exists k0.
      by rewrite lookup_insert_ne by congruence.
  - intros lc' cl0 cn' [[<- <-]|[Hne Hcl0]]%lookup_insert_Some Hi.
    + simpl in Hi. destruct (C_inactive _ _ _ H _ _ _ Hcl Hi) as (k0 & Hk0 & E). exists k0.
      by rewrite lookup_insert_ne by congruence.
    + destruct (C_inactive _ _ _ H _ _ _ Hcl0 Hi) as (k0 & Hk0 & E). exists k0.
      by rewrite lookup_insert_ne by congruence.
  - intros cn' k0 [[<- <-]|[Hne Hk0]]%lookup_insert_Some.
    + rewrite Hk, lookup_insert_eq. eexists. split; [done|]. apply elem_client_conns. by left.
    + destruct (C_conn _ _ _ H _ _ Hk0) as (cl0 & Hcl0 & Hin).
      destruct (decide (lc = conn_client k0)) as [->|].
      * rewrite lookup_insert_eq. eexists. split; [done|]. apply elem_client_conns. right.
        simpl. simplify_eq. apply elem_client_conns in Hin as [?|?]; [congruence|done].
      * rewrite lookup_insert_ne by done. eauto.
Qed.

(** The active connection becomes inactive. *)
Lemma C_disconnect cn k : active_conn cl = Some cn → conn_client k = lc →
  conn_is_connected k = false → conn_subs k = [] →
  C_inv (<[cn := k]> cns)
    (<[lc := client_with_inactive (inactive_conns cl ++ [cn]) (client_with_active None cl)]> cls)
    dbc.
Proof.
  intros Ha Hk Hd Hsubs.
  assert (Hnin : cn ∉ inactive_conns cl).
  { intros Hi. destruct (C_active _ _ _ H _ _ _ Hcl Ha) as (k0 & Hk0 & _ & Ed).
    destruct (C_inactive _ _ _ H _ _ _ Hcl Hi) as (k1 & Hk1 & _ & Ed1 & _). congruence. }
  assert (Hother : ∀ lc' cl0 cn', lc ≠ lc' → cls !! lc' = Some cl0 → cn' ∈ client_conns cl0 →
            cn' ≠ cn).
  { intros lc' cl0 cn' Hne Hcl0 Hin ->.
    destruct (C_active _ _ _ H _ _ _ Hcl Ha) as (k0 & Hk0 & E & _).
    pose proof (C_other_conn _ _ _ _ Hcl0 Hne Hin Hk0). congruence. }
  split.
  - apply H.
  - intros c lc' (cl0 & Hcl0 & E)%(C_get _ _ _ H). destruct (decide (lc = lc')) as [->|].
    + eexists. rewrite lookup_insert_eq. split; [done|]. simpl. congruence.
    + exists cl0. by rewrite lookup_insert_ne.
  - intros lc' cl0 [[<- <-]|[Hne Hcl0]]%lookup_insert_Some; [exact (C_db _ _ _ H _ _ Hcl)|by eapply C_db].
  - intros lc' cl0 [[<- <-]|[Hne Hcl0]]%lookup_insert_Some; [|by eapply C_ok].
    destruct (C_ok _ _ _ H _ _ Hcl) as (H1 & H2 & H3). split_and!; [done|done|].
    simpl. apply NoDup_app. split_and!; [done| |apply NoDup_singleton].
    intros x Hx ->%list_elem_of_singleton. done.
  - intros lc' cl0 cn' [[<- <-]|[Hne Hcl0]]%lookup_insert_Some Ha'; [done|].
    destruct (C_active _ _ _ H _ _ _ Hcl0 Ha') as (k0 & Hk0 & E & Ed). exists k0.
    rewrite lookup_insert_ne; [done|]. apply not_eq_sym. eapply Hother; [done..|].
    apply elem_client_conns. by left.
  - intros lc' cl0 cn' [[<- <-]|[Hne Hcl0]]%lookup_insert_Some Hi.
    + simpl in Hi. apply elem_of_app in Hi as [Hi| ->%list_elem_of_singleton].
      * destruct (C_inactive _ _ _ H _ _ _ Hcl Hi) as (k0 & Hk0 & E). exists k0.
        by rewrite lookup_insert_ne by (by intros ->).
      * exists k. by rewrite lookup_insert_eq.
    + destruct (C_inactive _ _ _ H _ _ _ Hcl0 Hi) as (k0 & Hk0 & E). exists k0.
      rewrite lookup_insert_ne; [done|]. apply not_eq_sym. eapply Hother; [done..|].
      apply elem_client_conns. by right.
  - intros cn' k0 [[<- <-]|[Hne Hk0]]%lookup_insert_Some.
    + rewrite Hk, lookup_insert_eq. eexists. split; [done|]. apply elem_client_conns. right.
      simpl. apply elem_of_app. right. by apply list_elem_of_singleton.
    + destruct (C_conn _ _ _ H _ _ Hk0) as (cl0 & Hcl0 & Hin).
      destruct (decide (lc = conn_client k0)) as [->|].
      * rewrite lookup_insert_eq. eexists. split; [done|]. apply elem_client_conns. right.
        simpl. simplify_eq. apply elem_of_app. left.
        apply elem_client_conns in Hin as [?|?]; [congruence|done].
      * rewrite lookup_insert_ne by done. eauto.
Qed.

(** A connection is freed, and the client no longer lists it. *)
Lemma C_drop_conn cl' cn : cn ∈ client_conns cl →
  client_id cl' = client_id cl → client_ref_cnt cl' = client_ref_cnt cl →
  (∀ x, active_conn cl' = Some x ↔ active_conn cl = Some x ∧ x ≠ cn) →
  (∀ x, x ∈ inactive_conns cl' ↔ x ∈ inactive_conns cl ∧ x ≠ cn) →
  NoDup (inactive_conns cl') →
  C_inv (delete cn cns) (<[lc := cl']> cls) dbc.
Proof.
  intros Hin Hid Href Hact Hinact Hnd.
  assert (Hother : ∀ lc' cl0 cn', lc ≠ lc' → cls !! lc' = Some cl0 → cn' ∈ client_conns cl0 →
            cn' ≠ cn).
  { intros lc' cl0 cn' Hne Hcl0 Hin' ->.
    assert (∃ k, cns !! cn = Some k ∧ conn_client k = lc) as (k & Hk & E).
    { apply elem_client_conns in Hin as [Ha|Hi].
      - destruct (C_active _ _ _ H _ _ _ Hcl Ha) as (k & ? & ? & _). by exists k.
      - destruct (C_inactive _ _ _ H _ _ _ Hcl Hi) as (k & ? & ? & _). by exists k. }
    pose proof (C_other_conn _ _ _ _ Hcl0 Hne Hin' Hk). congruence. }
  split.
  - apply H.
  - intros c lc' (cl0 & Hcl0 & E)%(C_get _ _ _ H). destruct (decide (lc = lc')) as [->|].
    + eexists. rewrite lookup_insert_eq. split; [done|]. congruence.
    + exists cl0. by rewrite lookup_insert_ne.
  - intros lc' cl0 [[<- <-]|[Hne Hcl0]]%lookup_insert_Some; [rewrite Hid; exact (C_db _ _ _ H _ _ Hcl)|by eapply C_db].
  - intros lc' cl0 [[<- <-]|[Hne Hcl0]]%lookup_insert_Some; [|by eapply C_ok].
    rewrite Hid, Href. destruct (C_ok _ _ _ H _ _ Hcl) as (H1 & H2 & H3). done.
  - intros lc' cl0 cn' [[<- <-]|[Hne Hcl0]]%lookup_insert_Some Ha.
    + apply Hact in Ha as [Ha Hne].
      destruct (C_active _ _ _ H _ _ _ Hcl Ha) as (k0 & Hk0 & E). exists k0.
      by rewrite lookup_delete_ne.
    + destruct (C_active _ _ _ H _ _ _ Hcl0 Ha) as (k0 & Hk0 & E). exists k0.
      rewrite lookup_delete_ne; [done|]. apply not_eq_sym. eapply Hother; [done..|].
      apply elem_client_conns. by left.
  - intros lc' cl0 cn' [[<- <-]|[Hne Hcl0]]%lookup_insert_Some Hi.
    + apply Hinact in Hi as [Hi Hne].
      destruct (C_inactive _ _ _ H _ _ _ Hcl Hi) as (k0 & Hk0 & E). exists k0.
      by rewrite lookup_delete_ne.
    + destruct (C_inactive _ _ _ H _ _ _ Hcl0 Hi) as (k0 & Hk0 & E). exists k0.
      rewrite lookup_delete_ne; [done|]. apply not_eq_sym. eapply Hother; [done..|].
      apply elem_client_conns. by right.
  - intros cn' k0 [Hne Hk0]%lookup_delete_Some.
    destruct (C_conn _ _ _ H _ _ Hk0) as (cl0 & Hcl0 & Hin0).
    destruct (decide (lc = conn_client k0)) as [->|].
    + rewrite lookup_insert_eq. eexists. split; [done|]. simplify_eq.
      rewrite elem_client_conns in Hin0 |- *. rewrite Hact, Hinact. naive_solver.
    + rewrite lookup_insert_ne by done. eauto.
Qed.

(** The client and all its connections are freed. *)
Lemma C_drop_client cns' :
  (∀ cn, cn ∈ client_conns cl → cns' !! cn = None) →
  (∀ cn, cn ∉ client_conns cl → cns' !! cn = cns !! cn) →
  C_inv cns' (delete lc cls) (amap_remove dbc (client_id cl)).
Proof.
  intros H1 H2.
  assert (Hsame : ∀ lc' cl0 cn, lc ≠ lc' → cls !! lc' = Some cl0 → cn ∈ client_conns cl0 →
            cns' !! cn = cns !! cn).
  { intros lc' cl0 cn Hne Hcl0 Hin. apply H2. intros Hin'.
    assert (∃ k, cns !! cn = Some k ∧ conn_client k = lc) as (k & Hk & E).
    { apply elem_client_conns in Hin' as [Ha|Hi].
      - destruct (C_active _ _ _ H _ _ _ Hcl Ha) as (k & ? & ? & _). by exists k.
      - destruct (C_inactive _ _ _ H _ _ _ Hcl Hi) as (k & ? & ? & _). by exists k. }
    pose proof (C_other_conn _ _ _ _ Hcl0 Hne Hin Hk). congruence. }
  pose proof (C_nodup _ _ _ H) as Hn. split.
  - by apply amap_remove_nodup.
  - intros c lc'. rewrite amap_get_remove by done. case_decide; [done|].
    intros (cl0 & Hcl0 & E)%(C_get _ _ _ H). exists cl0. rewrite lookup_delete_ne; [done|].
    intros ->. congruence.
  - intros lc' cl0 [Hne Hcl0]%lookup_delete_Some. rewrite amap_get_remove by done.
    pose proof (C_db _ _ _ H _ _ Hcl0). pose proof (C_db _ _ _ H _ _ Hcl).
    rewrite decide_False by congruence. done.
  - intros lc' cl0 [Hne Hcl0]%lookup_delete_Some. by eapply C_ok.
  - intros lc' cl0 cn' [Hne Hcl0]%lookup_delete_Some Ha.
    destruct (C_active _ _ _ H _ _ _ Hcl0 Ha) as (k0 & Hk0 & E). exists k0.
    rewrite (Hsame lc' cl0); [done..|]. apply elem_client_conns. by left.
  - intros lc' cl0 cn' [Hne Hcl0]%lookup_delete_Some Hi.
    destruct (C_inactive _ _ _ H _ _ _ Hcl0 Hi) as (k0 & Hk0 & E). exists k0.
    rewrite (Hsame lc' cl0); [done..|]. apply elem_client_conns. by right.
  - intros cn' k0 Hk0. destruct (decide (cn' ∈ client_conns cl)) as [Hin|Hnin].
    { rewrite H1 in Hk0; done. }
    rewrite H2 in Hk0 by done. destruct (C_conn _ _ _ H _ _ Hk0) as (cl0 & Hcl0 & Hin0).
    exists cl0. rewrite lookup_delete_ne; [done|]. intros ->. simplify_eq. done.
Qed.
End client_change.

Lemma C_connect cns cls dbc cn k lc c : C_inv cns cls dbc →
  cls !! lc = None → cns !! cn = None → amap_get dbc c = None → (0 ≤ c)%Z →
  conn_client k = lc → conn_is_connected k = true →
  C_inv (<[cn := k]> cns) (<[lc := Client c (Some cn) [] 1]> cls) (dbc ++ [(c, lc)]).
Proof.
  intros H Hlc Hcn Hc Hc0 Hk Hd. split.
  - apply amap_add_nodup; [done|apply H].
  - intros c' lc'. rewrite amap_get_add by done. case_decide.
    + intros [= <-]. eexists. by rewrite lookup_insert_eq.
    + intros (cl0 & Hcl0 & E)%(C_get _ _ _ H). exists cl0.
      by rewrite lookup_insert_ne by congruence.
  - intros lc' cl0 [[<- <-]|[Hne Hcl0]]%lookup_insert_Some; rewrite amap_get_add by done.
    + by rewrite decide_True.
    + pose proof (C_db _ _ _ H _ _ Hcl0). by rewrite decide_False by congruence.
  - intros lc' cl0 [[<- <-]|[Hne Hcl0]]%lookup_insert_Some; [|by eapply C_ok].
    split_and!; [done|done|constructor].
  - intros lc' cl0 cn' [[<- <-]|[Hne Hcl0]]%lookup_insert_Some Ha.
    + simpl in Ha. simplify_eq. exists k. by rewrite lookup_insert_eq.
    + destruct (C_active _ _ _ H _ _ _ Hcl0 Ha) as (k0 & Hk0 & E). exists k0.
      by rewrite lookup_insert_ne by congruence.
  - intros lc' cl0 cn' [[<- <-]|[Hne Hcl0]]%lookup_insert_Some Hi.
    + by apply not_elem_of_nil in Hi.
    + destruct (C_inactive _ _ _ H _ _ _ Hcl0 Hi) as (k0 & Hk0 & E). exists k0.
      by rewrite lookup_insert_ne by congruence.
  - intros cn' k0 [[<- <-]|[Hne Hk0]]%lookup_insert_Some.
    + rewrite Hk, lookup_insert_eq. eexists. split; [done|]. apply elem_client_conns. by left.
    + destruct (C_conn _ _ _ H _ _ Hk0) as (cl0 & Hcl0 & Hin). exists cl0.
      by rewrite lookup_insert_ne by congruence.
Qed.

(** ** Who holds which service

    [cid] gives the identifiers of the clients. *)

Definition holds (cns : gmap loc conn) (cn : loc) (id : Z) (l : loc) : Prop :=
  ∃ k, cns !! cn = Some k ∧ amap_get (conn_services k) id = Some l.

Record H_inv (sv : gmap loc service) (cns : gmap loc conn) (cid : gmap loc Z) : Prop := {
  H_nodup : ∀ cn k, cns !! cn = Some k → NoDup (amap_keys (conn_services k));
  H_get : ∀ cn k id l, cns !! cn = Some k → amap_get (conn_services k) id = Some l →
    ∃ s, sv !! l = Some s ∧ service_id s = id ∧ cid !! conn_client k = Some (s_client s) ∧
         (conn_is_connected k = true → s_orphan s = false);
  H_uniq : ∀ cn cn' id l l', holds cns cn id l → holds cns cn' id l' → cn = cn';
  H_owner : ∀ l s, sv !! l = Some s → ∃ cn, holds cns cn (service_id s) l
}.

Definition client_ids (cls : gmap loc client) : gmap loc Z := client_id <$> cls.

Lemma client_ids_update cls lc cl cl' : cls !! lc = Some cl → client_id cl' = client_id cl →
  client_ids (<[lc := cl']> cls) = client_ids cls.
Proof.
  intros Hcl Hid. unfold client_ids. rewrite fmap_insert, Hid. apply insert_id.
  by rewrite lookup_fmap, Hcl.
Qed.

Lemma client_ids_lookup cls lc cl : cls !! lc = Some cl →
  client_ids cls !! lc = Some (client_id cl).
Proof. intros Hcl. unfold client_ids. by rewrite lookup_fmap, Hcl. Qed.

(** A service changes, but not its owner. *)
Lemma H_update sv cns cid l s s' : H_inv sv cns cid → sv !! l = Some s →
  service_id s' = service_id s → s_client s' = s_client s →
  (∀ cn k, cns !! cn = Some k → amap_get (conn_services k) (service_id s) = Some l →
     conn_is_connected k = true → s_orphan s' = false) →
  H_inv (<[l := s']> sv) cns cid.
Proof.
  intros H Hs Hid Hc Ho. split; [apply H| |apply H|].
  - intros cn k id l' Hk Hg. destruct (H_get _ _ _ H _ _ _ _ Hk Hg) as (s0 & Hs0 & E & Ec & Eo).
    destruct (decide (l = l')) as [->|].
    + simplify_eq. exists s'. rewrite lookup_insert_eq. split_and!; [done|done|congruence|].
      by eapply Ho.
    + exists s0. by rewrite lookup_insert_ne.
  - intros l' s0 [[<- <-]|[Hne Hs0]]%lookup_insert_Some; [rewrite Hid|]; by eapply H_owner.
Qed.

(** A connection changes, but not what it holds. *)
Lemma H_conn sv cns cid cn k k' : H_inv sv cns cid → cns !! cn = Some k →
  conn_services k' = conn_services k → conn_client k' = conn_client k →
  (conn_is_connected k' = true → conn_is_connected k = true) →
  H_inv sv (<[cn := k']> cns) cid.
Proof.
  intros H Hk Hsv Hc Hd.
  assert (Hh : ∀ cn' id l, holds (<[cn := k']> cns) cn' id l ↔ holds cns cn' id l).
  { intros cn' id l. unfold holds. destruct (decide (cn = cn')) as [->|].
    - rewrite lookup_insert_eq. split; intros (k0 & E & Hg); simplify_eq; [|exists k'; by rewrite Hsv].
      exists k. by rewrite <-Hsv.
    - by rewrite lookup_insert_ne. }
  split.
  - intros cn' k0 [[<- <-]|[Hne Hk0]]%lookup_insert_Some; [rewrite Hsv|]; by eapply H_nodup.
  - intros cn' k0 id l [[<- <-]|[Hne Hk0]]%lookup_insert_Some Hg; [|by eapply H_get].
    rewrite Hsv in Hg. destruct (H_get _ _ _ H _ _ _ _ Hk Hg) as (s & Hs & E & Ec & Eo).
    exists s. rewrite Hc. split_and!; [done|done|done|auto].
  - intros cn' cn'' id l l'. rewrite !Hh. by apply H.
  - intros l s Hs. destruct (H_owner _ _ _ H _ _ Hs) as [cn' Hcn']. exists cn'. by apply Hh.
Qed.

Lemma H_conn_new sv cns cid cn k : H_inv sv cns cid → cns !! cn = None →
  conn_services k = [] → H_inv sv (<[cn := k]> cns) cid.
Proof.
  intros H Hk Hsv.
  assert (Hh : ∀ cn' id l, holds (<[cn := k]> cns) cn' id l ↔ holds cns cn' id l).
  { intros cn' id l. unfold holds. destruct (decide (cn = cn')) as [->|].
    - rewrite lookup_insert_eq, Hk. split; intros (k0 & E & Hg); simplify_eq.
      by rewrite Hsv in Hg.
    - by rewrite lookup_insert_ne. }
  split.
  - intros cn' k0 [[<- <-]|[Hne Hk0]]%lookup_insert_Some; [|by eapply H_nodup].
    rewrite Hsv. apply NoDup_nil_2.
  - intros cn' k0 id l [[<- <-]|[Hne Hk0]]%lookup_insert_Some Hg; [|by eapply H_get].
    by rewrite Hsv in Hg.
  - intros cn' cn'' id l l'. rewrite !Hh. by apply H.
  - intros l s Hs. destruct (H_owner _ _ _ H _ _ Hs) as [cn' Hcn']. exists cn'. by apply Hh.
Qed.

(** Connections that hold nothing can go. *)
Lemma H_conns_del sv cns cns' cid : H_inv sv cns cid →
  (∀ cn k, cns' !! cn = Some k → cns !! cn = Some k) →
  (∀ cn k, cns !! cn = Some k → cns' !! cn = Some k ∨ conn_services k = []) →
  H_inv sv cns' cid.
Proof.
  intros H H1 H2.
  assert (Hh : ∀ cn' id l, holds cns' cn' id l ↔ holds cns cn' id l).
  { intros cn' id l. unfold holds. split; intros (k0 & Hk0 & Hg); [by eauto|].
    destruct (H2 _ _ Hk0) as [?|E]; [by eauto|]. by rewrite E in Hg. }
  split.
  - intros cn' k0 Hk0. eapply H_nodup; eauto.
  - intros cn' k0 id l Hk0 Hg. eapply H_get; eauto.
  - intros cn' cn'' id l l'. rewrite !Hh. by apply H.
  - intros l s Hs. destruct (H_owner _ _ _ H _ _ Hs) as [cn' Hcn']. exists cn'. by apply Hh.
Qed.

Lemma H_cid sv cns cid cid' : H_inv sv cns cid →
  (∀ cn k, cns !! cn = Some k → cid !! conn_client k = cid' !! conn_client k) →
  H_inv sv cns cid'.
Proof.
  intros H Hc. split; [apply H| |apply H..].
  intros cn k id l Hk Hg. destruct (H_get _ _ _ H _ _ _ _ Hk Hg) as (s & Hs & E & Ec & Eo).
  exists s. by rewrite <-(Hc cn k Hk).
Qed.

(** A new service, held by [cn]. *)
Lemma H_add sv cns cid l s cn k : H_inv sv cns cid → sv !! l = None →
  (∀ l' s', sv !! l' = Some s' → service_id s' ≠ service_id s) →
  cns !! cn = Some k → cid !! conn_client k = Some (s_client s) → s_orphan s = false →
  H_inv (<[l := s]> sv)
    (<[cn := conn_with_services (conn_services k ++ [(service_id s, l)]) k]> cns) cid.
Proof.
  intros H Hl Hid Hk Hc Ho.
  assert (Hnone : ∀ cn' k', cns !! cn' = Some k' → amap_get (conn_services k') (service_id s) = None).
  { intros cn' k' Hk'. destruct (amap_get _ _) as [l'|] eqn:E; [|done].
    destruct (H_get _ _ _ H _ _ _ _ Hk' E) as (s' & Hs' & E' & _). by destruct (Hid _ _ Hs'). }
  set (k1 := conn_with_services (conn_services k ++ [(service_id s, l)]) k).
  assert (Hh : ∀ cn' id l', holds (<[cn := k1]> cns) cn' id l' →
                 (cn' = cn ∧ id = service_id s ∧ l' = l) ∨
                 (id ≠ service_id s ∧ holds cns cn' id l')).
  { intros cn' id l' (k0 & [[<- <-]|[Hne Hk0]]%lookup_insert_Some & Hg).
    - unfold k1 in Hg. simpl in Hg. rewrite amap_get_add in Hg by eauto. case_decide as E.
      + left. by simplify_eq.
      + right. split; [done|]. by exists k.
    - right. split; [|by exists k0]. intros ->. by rewrite (Hnone _ _ Hk0) in Hg. }
  split.
  - intros cn' k0 [[<- <-]|[Hne Hk0]]%lookup_insert_Some; [|by eapply H_nodup].
    unfold k1. simpl. apply amap_add_nodup; [by eauto|by eapply H_nodup].
  - intros cn' k0 id l' Hk0 Hg. assert (Hhl : holds (<[cn := k1]> cns) cn' id l') by (by exists k0).
    destruct (Hh _ _ _ Hhl) as [(-> & -> & ->)|[Hne (k2 & Hk2 & Hg2)]].
    + exists s. rewrite lookup_insert_eq in Hk0. simplify_eq. rewrite lookup_insert_eq. done.
    + destruct (H_get _ _ _ H _ _ _ _ Hk2 Hg2) as (s' & Hs' & E & Ec & Eo).
      exists s'. rewrite lookup_insert_ne by congruence.
      assert (conn_client k0 = conn_client k2 ∧ conn_is_connected k0 = conn_is_connected k2)
        as [-> ->]; [|done].
      apply lookup_insert_Some in Hk0 as [[<- <-]|[Hne' Hk0]]; by simplify_eq.
  - intros cn1 cn2 id l1 l2 [(-> & -> & ->)|[Hn1 H1]]%Hh [(-> & E & ->)|[Hn2 H2]]%Hh; try done.
    by eapply H_uniq.
  - intros l' s' [[<- <-]|[Hne Hs']]%lookup_insert_Some.
    + exists cn. exists k1. rewrite lookup_insert_eq. split; [done|]. unfold k1. simpl.
      rewrite amap_get_add by eauto. by rewrite decide_True.
    + destruct (H_owner _ _ _ H _ _ Hs') as (cn' & k' & Hk' & Hg). exists cn'.
      destruct (decide (cn = cn')) as [->|].
      * exists k1. rewrite lookup_insert_eq. split; [done|]. unfold k1. simpl. simplify_eq.
        rewrite amap_get_add by eauto. rewrite decide_False; [done|]. apply not_eq_sym. eauto.
      * exists k'. by rewrite lookup_insert_ne.
Qed.

(** A service is removed from the connection that holds it, and freed. *)
Lemma H_del sv cns cid l s cn k : H_inv sv cns cid → ids_inj sv → sv !! l = Some s →
  cns !! cn = Some k → amap_get (conn_services k) (service_id s) = Some l →
  H_inv (delete l sv)
    (<[cn := conn_with_services (amap_remove (conn_services k) (service_id s)) k]> cns) cid.
Proof.
  intros H Hinj Hs Hk Hg. pose proof (H_nodup _ _ _ H _ _ Hk) as Hn.
  set (k1 := conn_with_services (amap_remove (conn_services k) (service_id s)) k).
  assert (Hh : ∀ cn' id l', holds (<[cn := k1]> cns) cn' id l' ↔
                 id ≠ service_id s ∧ holds cns cn' id l').
  { intros cn' id l'. unfold holds. destruct (decide (cn = cn')) as [<-|Hne].
    - rewrite lookup_insert_eq. split.
      + intros (k0 & [= <-] & Hg'). unfold k1 in Hg'. simpl in Hg'.
        rewrite amap_get_remove in Hg' by done. case_decide; [done|].
        split; [congruence|]. by exists k.
      + intros (Hid & k0 & Hk0 & Hg'). simplify_eq. exists k1. split; [done|].
        unfold k1. simpl. rewrite amap_get_remove by done. by rewrite decide_False by congruence.
    - rewrite lookup_insert_ne by done. split; [|naive_solver].
      intros (k0 & Hk0 & Hg'). split; [|by exists k0]. intros ->.
      apply Hne. eapply (H_uniq _ _ _ H); by eexists. }
  split.
  - intros cn' k0 [[<- <-]|[Hne Hk0]]%lookup_insert_Some; [|by eapply H_nodup].
    unfold k1. simpl. by apply amap_remove_nodup.
  - intros cn' k0 id l' Hk0 Hg'. assert (Hhl : holds (<[cn := k1]> cns) cn' id l') by (by exists k0).
    apply Hh in Hhl as [Hne (k2 & Hk2 & Hg2)].
    destruct (H_get _ _ _ H _ _ _ _ Hk2 Hg2) as (s' & Hs' & E & Ec & Eo).
    exists s'. rewrite lookup_delete_ne by congruence.
    assert (conn_client k0 = conn_client k2 ∧ conn_is_connected k0 = conn_is_connected k2)
      as [-> ->]; [|done].
    apply lookup_insert_Some in Hk0 as [[<- <-]|[Hne' Hk0]]; by simplify_eq.
  - intros cn1 cn2 id l1 l2 [_ H1]%Hh [_ H2]%Hh. by eapply H_uniq.
  - intros l' s' [Hne Hs']%lookup_delete_Some.
    destruct (H_owner _ _ _ H _ _ Hs') as (cn' & Hcn'). exists cn'. apply Hh.
    split; [|done]. intros E. apply Hne. by eapply Hinj.
Qed.

(** A service moves from one connection to another, and changes. *)
Lemma H_move sv cns cid l s s' cn k cn' k' : H_inv sv cns cid → ids_inj sv →
  sv !! l = Some s → service_id s' = service_id s → s_orphan s' = false →
  cns !! cn = Some k → amap_get (conn_services k) (service_id s) = Some l →
  cns !! cn' = Some k' → cn' ≠ cn → cid !! conn_client k' = Some (s_client s') →
  H_inv (<[l := s']> sv)
    (<[cn' := conn_with_services (conn_services k' ++ [(service_id s, l)]) k']>
      (<[cn := conn_with_services (amap_remove (conn_services k) (service_id s)) k]> cns)) cid.
Proof.
  intros H Hinj Hs Hid Ho Hk Hg Hk' Hne Hc. rewrite <-(insert_delete_eq sv l s').
  rewrite <-Hid. apply H_add; [rewrite Hid; by eapply H_del|apply lookup_delete_eq| | |done|done].
  - intros l' s0 [Hnel Hs0]%lookup_delete_Some E. apply Hnel. eapply Hinj; [done..|congruence].
  - by rewrite lookup_insert_ne by congruence.
Qed.

(** ** Subscriptions *)

Definition sub_holds (cns : gmap loc conn) (cn : loc) (id : Z) (l : loc) : Prop :=
  ∃ k, cns !! cn = Some k ∧ amap_get (conn_subs k) id = Some l.

Record U_inv (sb : gmap loc sub) (dbu : amap loc) (cns : gmap loc conn) (cid : gmap loc Z)
    : Prop := {
  U_nodup : NoDup (amap_keys dbu);
  U_get : ∀ id l, amap_get dbu id = Some l → ∃ s, sb !! l = Some s ∧ sub_id s = id;
  U_db : ∀ l s, sb !! l = Some s → amap_get dbu (sub_id s) = Some l;
  U_ok : ∀ l s, sb !! l = Some s →
    (0 ≤ sub_id s)%Z ∧ filter_ok (sub_filter s) ∧ sub_ref_cnt s = 2%Z;
  U_knodup : ∀ cn k, cns !! cn = Some k → NoDup (amap_keys (conn_subs k));
  U_held : ∀ cn k id l, cns !! cn = Some k → amap_get (conn_subs k) id = Some l →
    ∃ s, sb !! l = Some s ∧ sub_id s = id ∧ cid !! conn_client k = Some (sub_client_id s);
  U_uniq : ∀ cn cn' id l l', sub_holds cns cn id l → sub_holds cns cn' id l' → cn = cn';
  U_owner : ∀ l s, sb !! l = Some s → ∃ cn, sub_holds cns cn (sub_id s) l
}.

Lemma U_subs_ok sb dbu cns cid : U_inv sb dbu cns cid → subs_ok sb dbu.
Proof.
  intros H. apply Forall_forall. intros [id l] Hin.
  apply amap_get_elem in Hin; [|apply H].
  destruct (U_get _ _ _ _ H _ _ Hin) as (s & Hs & _). exists s. split; [done|].
  by destruct (U_ok _ _ _ _ H _ _ Hs) as (_ & ? & _).
Qed.

(** The maps of subscriptions of the connections are what counts. *)
Lemma U_conns sb dbu cns cns' cid cid' : U_inv sb dbu cns cid →
  (∀ cn k', cns' !! cn = Some k' →
     conn_subs k' = [] ∨
     ∃ k, cns !! cn = Some k ∧ conn_subs k' = conn_subs k ∧
          cid' !! conn_client k' = cid !! conn_client k) →
  (∀ cn k, cns !! cn = Some k → conn_subs k = [] ∨
     ∃ k', cns' !! cn = Some k' ∧ conn_subs k' = conn_subs k) →
  U_inv sb dbu cns' cid'.
Proof.
  intros H H1 H2.
  assert (Hh : ∀ cn id l, sub_holds cns' cn id l ↔ sub_holds cns cn id l).
  { intros cn id l. split; intros (k & Hk & Hg).
    - destruct (H1 _ _ Hk) as [E|(k0 & Hk0 & E & _)]; rewrite E in Hg; [done|]. by exists k0.
    - destruct (H2 _ _ Hk) as [E|(k0 & Hk0 & E)]; [by rewrite E in Hg|].
      exists k0. by rewrite E. }
  split; [apply H..| | | |].
  - intros cn k Hk. destruct (H1 _ _ Hk) as [E|(k0 & Hk0 & E & _)]; rewrite E.
    + apply NoDup_nil_2.
    + by eapply U_knodup.
  - intros cn k id l Hk Hg. destruct (H1 _ _ Hk) as [E|(k0 & Hk0 & E & Ec)]; rewrite E in Hg; [done|].
    rewrite Ec. by eapply U_held.
  - intros cn cn' id l l'. rewrite !Hh. by apply H.
  - intros l s Hs. destruct (U_owner _ _ _ _ H _ _ Hs) as [cn Hcn]. exists cn. by apply Hh.
Qed.

(** A connection changes, but not its subscriptions. *)
Lemma U_conn sb dbu cns cid cn k k' : U_inv sb dbu cns cid → cns !! cn = Some k →
  conn_subs k' = conn_subs k → conn_client k' = conn_client k →
  U_inv sb dbu (<[cn := k']> cns) cid.
Proof.
  intros H Hk Hs Hc. eapply U_conns; [done| |].
  - intros cn' k0 [[<- <-]|[Hne Hk0]]%lookup_insert_Some; right; eexists; eauto.
    by rewrite Hc.
  - intros cn' k0 Hk0. right. destruct (decide (cn = cn')) as [<-|].
    + exists k'. rewrite lookup_insert_eq. split; [done|congruence].
    + exists k0. by rewrite lookup_insert_ne.
Qed.

Lemma U_add sb dbu cns cid l s cn k : U_inv sb dbu cns cid → sb !! l = None →
  amap_get dbu (sub_id s) = None → (0 ≤ sub_id s)%Z → filter_ok (sub_filter s) →
  sub_ref_cnt s = 2%Z → cns !! cn = Some k → cid !! conn_client k = Some (sub_client_id s) →
  U_inv (<[l := s]> sb) (dbu ++ [(sub_id s, l)])
    (<[cn := conn_with_subs (conn_subs k ++ [(sub_id s, l)]) k]> cns) cid.
Proof.
  intros H Hl Hid H0 Hf Hr Hk Hc.
  assert (Hnone : ∀ cn' k', cns !! cn' = Some k' → amap_get (conn_subs k') (sub_id s) = None).
  { intros cn' k' Hk'. destruct (amap_get (conn_subs k') _) as [l'|] eqn:E; [|done].
    destruct (U_held _ _ _ _ H _ _ _ _ Hk' E) as (s' & Hs' & E' & _).
    pose proof (U_db _ _ _ _ H _ _ Hs'). congruence. }
  set (k1 := conn_with_subs (conn_subs k ++ [(sub_id s, l)]) k).
  assert (Hh : ∀ cn' id l', sub_holds (<[cn := k1]> cns) cn' id l' →
                 (cn' = cn ∧ id = sub_id s ∧ l' = l) ∨
                 (id ≠ sub_id s ∧ sub_holds cns cn' id l')).
  { intros cn' id l' (k0 & [[<- <-]|[Hne Hk0]]%lookup_insert_Some & Hg).
    - unfold k1 in Hg. simpl in Hg. rewrite amap_get_add in Hg by eauto. case_decide as E.
      + left. by simplify_eq.
      + right. split; [done|]. by exists k.
    - right. split; [|by exists k0]. intros ->. by rewrite (Hnone _ _ Hk0) in Hg. }
  split.
  - apply amap_add_nodup; [done|apply H].
  - intros id l'. rewrite amap_get_add by done. case_decide.
    + intros [= <-]. exists s. by rewrite lookup_insert_eq.
    + intros (s0 & Hs0 & E)%(U_get _ _ _ _ H). exists s0.
      by rewrite lookup_insert_ne by congruence.
  - intros l' s0 [[<- <-]|[Hne Hs0]]%lookup_insert_Some; rewrite amap_get_add by done.
    + by rewrite decide_True.
    + pose proof (U_db _ _ _ _ H _ _ Hs0). by rewrite decide_False by congruence.
  - intros l' s0 [[<- <-]|[Hne Hs0]]%lookup_insert_Some; [done|by eapply U_ok].
  - intros cn' k0 [[<- <-]|[Hne Hk0]]%lookup_insert_Some; [|by eapply U_knodup].
    unfold k1. simpl. apply amap_add_nodup; [by eauto|by eapply U_knodup].
  - intros cn' k0 id l' Hk0 Hg.
    assert (Hhl : sub_holds (<[cn := k1]> cns) cn' id l') by (by exists k0).
    destruct (Hh _ _ _ Hhl) as [(-> & -> & ->)|[Hne (k2 & Hk2 & Hg2)]].
    + exists s. rewrite lookup_insert_eq in Hk0. simplify_eq. by rewrite lookup_insert_eq.
    + destruct (U_held _ _ _ _ H _ _ _ _ Hk2 Hg2) as (s' & Hs' & E & Ec).
      exists s'. rewrite lookup_insert_ne by congruence.
      assert (conn_client k0 = conn_client k2) as ->; [|done].
      apply lookup_insert_Some in Hk0 as [[<- <-]|[Hne' Hk0]]; by simplify_eq.
  - intros cn1 cn2 id l1 l2 [(-> & -> & ->)|[Hn1 H1]]%Hh [(-> & E & ->)|[Hn2 H2]]%Hh; try done.
    by eapply U_uniq.
  - intros l' s' [[<- <-]|[Hne Hs']]%lookup_insert_Some.
    + exists cn. exists k1. rewrite lookup_insert_eq. split; [done|]. unfold k1. simpl.
      rewrite amap_get_add by eauto. by rewrite decide_True.
    + destruct (U_owner _ _ _ _ H _ _ Hs') as (cn' & k' & Hk' & Hg). exists cn'.
      destruct (decide (cn = cn')) as [->|].
      * exists k1. rewrite lookup_insert_eq. split; [done|]. unfold k1. simpl. simplify_eq.
        rewrite amap_get_add by eauto. rewrite decide_False; [done|].
        intros E. rewrite <-E, (Hnone _ _ Hk) in Hg. done.
      * exists k'. by rewrite lookup_insert_ne.
Qed.

(** Some of the subscriptions of one connection, those with identifiers in
    [X], go, from all maps. *)
Lemma U_drop (X : gset Z) sb sb' dbu dbu' cns cid cn k k' : U_inv sb dbu cns cid →
  cns !! cn = Some k → conn_client k' = conn_client k →
  (∀ id, id ∈ X → is_Some (amap_get (conn_subs k) id)) →
  NoDup (amap_keys dbu') → NoDup (amap_keys (conn_subs k')) →
  (∀ id, amap_get dbu' id = if decide (id ∈ X) then None else amap_get dbu id) →
  (∀ id, amap_get (conn_subs k') id = if decide (id ∈ X) then None else amap_get (conn_subs k) id) →
  (∀ l s, sb' !! l = Some s ↔ sb !! l = Some s ∧ sub_id s ∉ X) →
  U_inv sb' dbu' (<[cn := k']> cns) cid.
Proof.
  intros H Hk Hc HX Hnd Hnd' Hdb Hks Hsb.
  assert (Hh : ∀ cn' id l, sub_holds (<[cn := k']> cns) cn' id l ↔
                 (id ∉ X) ∧ sub_holds cns cn' id l).
  { intros cn' id l. unfold sub_holds. destruct (decide (cn = cn')) as [<-|Hne].
    - rewrite lookup_insert_eq. split.
      + intros (k0 & [= <-] & Hg). rewrite Hks in Hg. case_decide; [done|]. eauto.
      + intros (Hid & k0 & Hk0 & Hg). simplify_eq. exists k'. split; [done|].
        rewrite Hks. by rewrite decide_False.
    - rewrite lookup_insert_ne by done. split; [|naive_solver].
      intros (k0 & Hk0 & Hg). split; [|by exists k0]. intros [l' Hid]%HX.
      apply Hne. eapply (U_uniq _ _ _ _ H _ _ id); by eexists. }
  split; [done| | | |..].
  - intros id l. rewrite Hdb. case_decide; [done|].
    intros (s & Hs & E)%(U_get _ _ _ _ H). exists s. split; [|done]. apply Hsb.
    split; [done|congruence].
  - intros l s [Hs Hid]%Hsb. rewrite Hdb, decide_False by done. by eapply U_db.
  - intros l s [Hs Hid]%Hsb. by eapply U_ok.
  - intros cn' k0 [[<- <-]|[Hne Hk0]]%lookup_insert_Some; [done|by eapply U_knodup].
  - intros cn' k0 id l Hk0 Hg.
    assert (Hhl : sub_holds (<[cn := k']> cns) cn' id l) by (by exists k0).
    apply Hh in Hhl as [Hid (k2 & Hk2 & Hg2)].
    destruct (U_held _ _ _ _ H _ _ _ _ Hk2 Hg2) as (s & Hs & E & Ec). exists s.
    split_and!; [apply Hsb; split; [done|congruence]|done|].
    assert (conn_client k0 = conn_client k2) as ->; [|done].
    apply lookup_insert_Some in Hk0 as [[<- <-]|[Hne' Hk0]]; by simplify_eq.
  - intros cn1 cn2 id l1 l2 [_ H1]%Hh [_ H2]%Hh. by eapply U_uniq.
  - intros l s [Hs Hid]%Hsb. destruct (U_owner _ _ _ _ H _ _ Hs) as [cn' Hcn'].
    exists cn'. by apply Hh.
Qed.

(** ** The whole invariant *)

Record fresh_inv (st : state) : Prop := {
  F_services : ∀ l, (next_loc st ≤ l)%positive → services st !! l = None;
  F_subs : ∀ l, (next_loc st ≤ l)%positive → subs st !! l = None;
  F_conns : ∀ l, (next_loc st ≤ l)%positive → conns st !! l = None;
  F_clients : ∀ l, (next_loc st ≤ l)%positive → clients st !! l = None;
  F_timers : ∀ l, (next_loc st ≤ l)%positive → timers st !! l = None
}.

Record inv (st : state) : Prop := {
  I_S : S_inv (services st) (db_services st);
  I_O : O_inv (services st) (orphans st) (timers st);
  I_C : C_inv (conns st) (clients st) (db_clients st);
  I_H : H_inv (services st) (conns st) (client_ids (clients st));
  I_U : U_inv (subs st) (db_subs st) (conns st) (client_ids (clients st));
  I_F : fresh_inv st;
  I_K : clock_ok st
}.

(** A timer that is not running after an operation was not before, and
    locations are not used again. *)
Definition kept (st st' : state) : Prop :=
  (∀ t x, timers st' !! t = Some x → timers st !! t = Some x ∨ is_Some (timer_pending x)) ∧
  (next_loc st ≤ next_loc st')%positive.

Lemma kept_same st st' : timers st' = timers st → (next_loc st ≤ next_loc st')%positive →
  kept st st'.
Proof. intros E Hn. split; [|done]. rewrite E. auto. Qed.

Lemma kept_trans st st1 st' : kept st st1 → kept st1 st' → kept st st'.
Proof.
  intros [H1 N1] [H2 N2]. split; [|lia]. intros t x [Hx|?]%H2; [by apply H1|by right].
Qed.

Lemma kept_delete t st st' : timers st' = delete t (timers st) →
  (next_loc st ≤ next_loc st')%positive → kept st st'.
Proof.
  intros E Hn. split; [|done]. rewrite E. intros t' x [_ Hx]%lookup_delete_Some. by left.
Qed.

Lemma kept_insert t l tv st st' : timers st' = <[t := OrphanTimer l (Some tv)]> (timers st) →
  (next_loc st ≤ next_loc st')%positive → kept st st'.
Proof.
  intros E Hn. split; [|done]. rewrite E.
  intros t' x [[<- <-]|[_ Hx]]%lookup_insert_Some; [right; by eexists|by left].
Qed.

Lemma kept_pending st st' : kept st st' → pending_inv (timers st) → pending_inv (timers st').
Proof. intros [H1 _] H2 t x [Hx|?]%H1; [by eapply H2|done]. Qed.

Lemma inv_create clk : (∀ n, timespec_ok (clk n)) → inv (sd_create clk).
Proof.
  intros Hclk. assert (Hn : NoDup (amap_keys ([] : amap loc))) by apply NoDup_nil_2.
  assert (Hc : ∀ cn id l, ¬ holds ∅ cn id l) by (by intros cn id l (k & Hk & _)).
  assert (Hu : ∀ cn id l, ¬ sub_holds ∅ cn id l) by (by intros cn id l (k & Hk & _)).
  split; [split|split|split|split|split|split|]; try done.
  - by intros cn cn' id l l' []%Hc.
  - by intros cn cn' id l l' []%Hu.
Qed.
