(* ===== verification/SdOps.v ===== *)
(** * The operations of the core keep the invariant

    For every operation of Client.v: on a state with the invariant it ends
    without a fault, keeps the invariant, and what it does to the services,
    connections and subscriptions. *)

From S2P Require Import Prelude CLib Pvalue Props Filter FilterParse Double Service Sub Amap Heap Client Sd SdWp SdInv.

(** ** Modifying a service *)

(** What an operation on services needs. *)
Record svc_inv (st : state) : Prop := {
  V_S : S_inv (services st) (db_services st);
  V_O : O_inv (services st) (orphans st) (timers st);
  V_U : subs_ok (subs st) (db_subs st);
  V_F : fresh_inv st;
  V_K : clock_ok st
}.

Lemma inv_svc st : inv st → svc_inv st.
Proof. intros H. split; try apply H. eapply U_subs_ok, H. Qed.

(** The parts of the state that operations on services leave alone. *)
Record same_rest (st st' : state) : Prop := {
  R_subs : subs st' = subs st;
  R_conns : conns st' = conns st;
  R_clients : clients st' = clients st;
  R_dbc : db_clients st' = db_clients st;
  R_dbs : db_services st' = db_services st;
  R_dbu : db_subs st' = db_subs st;
  R_kept : kept st st'
}.

Definition timer_event (o : output) : Prop :=
  match o with OMatch _ _ _ _ => False | _ => True end.

(** The outputs of a change: the notifications, and timer events. *)
Definition outputs_after (st : state) (ct : service_change_type) (s : service) (st' : state)
    : Prop :=
  ∃ evs, outputs st' = outputs st ++ notifications (subs st) (db_subs st) ct s ++ evs ∧
         Forall timer_event evs.

Definition modified_service (g : generation) (s : service) : service :=
  Service (service_id s) service_change_type_none (Some g) (current s) None
    (if gen_orphan (Some g) then 3%Z else 2%Z).

Lemma modified_service_ok g s : (0 ≤ service_id s)%Z → gen_ok g →
  srv_ok (modified_service g s) ∧ refs_ok (modified_service g s).
Proof. intros Hid Hg. split; [|done]. split_and!; [done|done|]. by exists g. Qed.

Lemma gen_ok_orphan g : gen_ok g → gen_orphan (Some g) = true → orphan_ok g.
Proof.
  intros (_ & _ & Httl & Hs) Ho. split; [|done]. destruct Hs as [E|?]; [|done].
  simpl in Ho. rewrite E in Ho. by vm_compute in Ho.
Qed.

Lemma fresh_services st l s : fresh_inv st → services st !! l = Some s →
  (l < next_loc st)%positive.
Proof.
  intros HF Hs. destruct (decide (l < next_loc st)%positive) as [|Hn]; [done|].
  rewrite (F_services _ HF) in Hs by lia. done.
Qed.

Section modification.
Context (st : state) (HV : svc_inv st).
Context (l : loc) (s : service) (Hs : services st !! l = Some s).
Context (g' : generation) (Hg' : gen_ok g').

(** The state when the timers have been dealt with. *)
Definition commit_state : state :=
  notified service_change_type_modified (committed g' s)
    (set_services <[l := committed g' s]> st).

Lemma svc_inv_commit st' :
  services st' = <[l := modified_service g' s]> (services st) →
  db_services st' = db_services st → subs st' = subs st → db_subs st' = db_subs st →
  conns st' = conns st → clients st' = clients st → clock st' = clock st →
  O_inv (services st') (orphans st') (timers st') → (next_loc st ≤ next_loc st')%positive →
  (∀ t, (next_loc st' ≤ t)%positive → timers st' !! t = None) → svc_inv st'.
Proof.
  intros E1 E2 E3 E4 E5 E6 E7 HO Hn Ht. pose proof (V_F _ HV) as HF. pose proof (V_S _ HV) as HS.
  destruct (S_ok _ _ HS _ _ Hs) as (_ & Hid & _).
  destruct (modified_service_ok g' s Hid Hg') as [Hmok Hmr]. split.
  - rewrite E1, E2. by eapply S_update.
  - done.
  - rewrite E3, E4. apply HV.
  - split; intros l' Hl'; rewrite ?E1, ?E3, ?E5, ?E6; [|apply HF; lia..|by apply Ht].
    rewrite lookup_insert_ne; [apply HF; lia|].
    intros ->. rewrite (F_services _ HF) in Hs by lia. done.
  - unfold clock_ok. rewrite E7. apply HV.
Qed.

(** The change is announced, and the timers are next. *)
Lemma wp_announce f (Q : unit → state → Prop) :
  f s = Ok (with_next service_change_type_modified (Some g') s) →
  wp (match s_orphan s, gen_orphan (Some g') with
      | true, false => remove_orphan_timer l
      | false, true => add_orphan_timer l
      | true, true => update_orphan_timer l
      | false, false => mret tt
      end) Q commit_state →
  wp (_ ← update l f; service_commit service_changed l) Q st.
Proof.
  intros Hf HQ. destruct (S_ok _ _ (V_S _ HV) _ _ Hs) as (Hi & Hid & g0 & Hg0 & Hgok).
  apply wp_bind. eapply wp_update; [exact Hs|exact Hf|].
  eapply wp_service_commit; [apply lookup_insert_eq| |].
  { rewrite service_commit_spec by (by right). destruct Hg' as (-> & _). reflexivity. }
  unfold set_heap, service_Obj. rewrite set_services_insert.
  eapply wp_service_changed; [apply HV|apply lookup_insert_eq| |].
  { simpl. rewrite Hg0. split; [apply Hgok|apply Hg']. }
  by eapply wp_maintain_modified; [apply lookup_insert_eq|done|].
Qed.

Lemma wp_modify_commit f (Q : unit → state → Prop) :
  f s = Ok (with_next service_change_type_modified (Some g') s) →
  s_orphan s && gen_orphan (Some g') = false →
  (∀ st', svc_inv st' → same_rest st st' →
     services st' = <[l := modified_service g' s]> (services st) →
     outputs_after st service_change_type_modified (committed g' s) st' → Q tt st') →
  wp (_ ← update l f; service_commit service_changed l) Q st.
Proof.
  intros Hf Hcase HQ. pose proof (V_O _ HV) as HO. pose proof (V_F _ HV) as HF.
  pose proof (S_ids_inj _ _ (V_S _ HV)) as Hinj.
  pose proof (S_refs _ _ (V_S _ HV) _ _ Hs) as Hr. unfold refs_ok in Hr.
  apply (wp_announce f); [done|].
  assert (Hl : services commit_state !! l = Some (committed g' s)) by apply lookup_insert_eq.
  assert (Hsv : ∀ n, n = (if gen_orphan (Some g') then 3 else 2)%Z →
            <[l := with_ref_cnt n (committed g' s)]> (services commit_state) =
            <[l := modified_service g' s]> (services st)).
  { intros n ->. simpl. by rewrite insert_insert_eq. }
  destruct (s_orphan s) eqn:Eo, (gen_orphan (Some g')) eqn:Eo'; [done| | |].
  - destruct (O_orphan _ _ _ HO _ _ Hs Eo) as (t & x & Et & Hx & Ex).
    eapply (wp_remove_orphan_timer l _ t x); [exact Hl|simpl; lia|done..|].
    specialize (Hsv (service_ref_cnt s - 1)%Z ltac:(by rewrite Hr)).
    apply HQ; [|by split; try by eapply kept_delete|exact Hsv|].
    + apply svc_inv_commit; try done.
      * eapply (eq_ind_r (λ m, O_inv m _ _)); [|exact Hsv].
        by eapply (O_stop _ _ _ l s).
      * intros t' Ht'. simpl. rewrite lookup_delete_None. right. by apply HF.
    + eexists. simpl. rewrite <-app_assoc. split; [done|]. by repeat constructor.
  - eapply wp_add_orphan_timer; [exact Hl|reflexivity|by apply gen_ok_orphan|apply HV|simpl; lia| |].
    { simpl. by eapply O_none. }
    intros tv _. specialize (Hsv (service_ref_cnt s + 1)%Z ltac:(by rewrite Hr)).
    apply HQ; [|by split; try (eapply kept_insert; [done|simpl; lia])|exact Hsv|].
    + apply svc_inv_commit; try done; [|simpl; lia|].
      * eapply (eq_ind_r (λ m, O_inv m _ _)); [|exact Hsv].
        eapply (O_start _ _ _ l s); try done. apply HF, Pos.le_refl.
      * intros t' Ht'. simpl in *. rewrite lookup_insert_ne by lia. apply HF. lia.
    + eexists. simpl. rewrite <-app_assoc. split; [done|]. by repeat constructor.
  - apply wp_ret. specialize (Hsv (service_ref_cnt s) Hr).
    assert (Hsv' : services commit_state = <[l := modified_service g' s]> (services st)).
    { rewrite <-Hsv. simpl. by rewrite insert_insert_eq. }
    apply HQ; [|by split; try by apply kept_same|exact Hsv'|].
    + apply svc_inv_commit; try done; [|exact (F_timers _ HF)]. rewrite Hsv'.
      eapply O_update; [apply HV|exact Hs|done|]. by rewrite Eo.
    + exists []. rewrite app_nil_r. split; [done|constructor].
Qed.
End modification.

(** ** What an operation is asked about *)

Definition svc_at (st : state) (id : Z) : option service :=
  l ← amap_get (db_services st) id; services st !! l.

(** The current generation of a service. *)
Definition gen_at (st : state) (id : Z) : option generation :=
  s ← svc_at st id; current s.

Definition client_at (st : state) (id : Z) : option client :=
  l ← amap_get (db_clients st) id; clients st !! l.

Definition connected (st : state) (id : Z) : bool :=
  match client_at st id with Some c => client_is_connected c | None => false end.

Definition sub_at (st : state) (id : Z) : option sub :=
  l ← amap_get (db_subs st) id; subs st !! l.

(** What the active connection of a client holds. *)
Definition active_conn_of (st : state) (c : Z) : option conn :=
  cl ← client_at st c; cn ← active_conn cl; conns st !! cn.

Definition held (st : state) (c id : Z) : bool :=
  match active_conn_of st c with Some k => amap_has (conn_services k) id | None => false end.

(** Is the service on a connection that is open, of this client? *)
Definition on_open_conn (st : state) (c id : Z) : Prop :=
  ∃ cn k, conns st !! cn = Some k ∧ conn_is_connected k = true ∧
    client_ids (clients st) !! conn_client k = Some c ∧ amap_has (conn_services k) id = true.

Lemma held_iff st c id : inv st → held st c id = true ↔ on_open_conn st c id.
Proof.
  intros H. pose proof (I_C _ H) as HC. unfold held, active_conn_of, client_at. split.
  - destruct (amap_get (db_clients st) c) as [lc|] eqn:Ec; [|done]. simpl.
    destruct (C_get _ _ _ HC _ _ Ec) as (cl & Hcl & Eid). rewrite Hcl. simpl.
    destruct (active_conn cl) as [cn|] eqn:Ea; [|done]. simpl.
    destruct (C_active _ _ _ HC _ _ _ Hcl Ea) as (k & Hk & Ek & Ed). rewrite Hk. intros Hid.
    exists cn, k. split_and!; [done|done| |done].
    by rewrite Ek, (client_ids_lookup _ _ _ Hcl), Eid.
  - intros (cn & k & Hk & Ed & Ec & Hid). destruct (C_conn _ _ _ HC _ _ Hk) as (cl & Hcl & Hin).
    rewrite (client_ids_lookup _ _ _ Hcl) in Ec. injection Ec as <-.
    rewrite (C_db _ _ _ HC _ _ Hcl). simpl. rewrite Hcl. simpl.
    apply elem_client_conns in Hin as [->|Hin].
    + simpl. by rewrite Hk.
    + destruct (C_inactive _ _ _ HC _ _ _ Hcl Hin) as (k' & Hk' & _ & Ed' & _). congruence.
Qed.

Lemma held_same st st' c id : conns st' = conns st → clients st' = clients st →
  db_clients st' = db_clients st → held st' c id = held st c id.
Proof. intros E1 E2 E3. unfold held, active_conn_of, client_at. by rewrite E1, E2, E3. Qed.

(** Two states that agree about a service. *)
(** Which client's connection holds a service that changes: it stays where it
    is, or goes to its new owner. *)
Definition holder_after (before after : option generation) (h : bool) (c : Z) : bool :=
  match after with
  | None => false
  | Some g => if decide (gen_client_id <$> before = Some (gen_client_id g)) then h
              else bool_decide (c = gen_client_id g)
  end.

(** ** Connecting *)

Definition new_conn (addr : option cstr) (cl : loc) (st : state) : conn :=
  Conn addr (ut_timespec_to_f (clock st (tick st))) (d_of_Z (-1)) cl [] [].

Lemma wp_conn_create cl addr (Q : loc → state → Prop) st :
  Q (next_loc st)
    (set_next_loc Pos.succ
      (set_conns <[next_loc st := new_conn addr cl st]> (set_tick S st))) →
  wp (conn_create cl addr) Q st.
Proof. intros HQ. exact HQ. Qed.

Lemma new_conn_connected addr cl st : conn_is_connected (new_conn addr cl st) = true.
Proof. reflexivity. Qed.

Lemma wp_client_inc_ref l c (Q : unit → state → Prop) st :
  clients st !! l = Some c → (0 < client_ref_cnt c)%Z →
  Q tt (set_clients <[l := client_with_ref_cnt (client_ref_cnt c + 1) c]> st) →
  wp (client_inc_ref l) Q st.
Proof.
  intros Hs Hn HQ. eapply wp_update; [exact Hs| |exact HQ].
  by rewrite bool_decide_eq_true_2.
Qed.

Lemma wp_client_dec_ref l c (Q : unit → state → Prop) st :
  clients st !! l = Some c → (1 < client_ref_cnt c)%Z →
  Q tt (set_clients <[l := client_with_ref_cnt (client_ref_cnt c - 1) c]> st) →
  wp (client_dec_ref l) Q st.
Proof.
  intros Hs Hn HQ. unfold client_dec_ref. apply wp_bind.
  eapply wp_update; [exact Hs|rewrite bool_decide_eq_true_2 by lia; reflexivity|].
  apply wp_bind. eapply wp_read; [apply lookup_insert_eq|reflexivity|]. simpl.
  rewrite bool_decide_eq_false_2 by lia. by apply wp_ret.
Qed.

Lemma client_at_spec st c cl : inv st → client_at st c = Some cl →
  ∃ lc, amap_get (db_clients st) c = Some lc ∧ clients st !! lc = Some cl ∧ client_id cl = c.
Proof.
  intros H Hc. unfold client_at in Hc. destruct (amap_get (db_clients st) c) as [lc|] eqn:E; [|done].
  simpl in Hc. destruct (C_get _ _ _ (I_C _ H) _ _ E) as (cl' & Hcl' & Eid). simplify_eq. eauto.
Qed.

Lemma client_at_None st c : inv st → client_at st c = None → amap_get (db_clients st) c = None.
Proof.
  intros H Hc. unfold client_at in Hc. destruct (amap_get (db_clients st) c) as [lc|] eqn:E; [|done].
  destruct (C_get _ _ _ (I_C _ H) _ _ E) as (cl' & Hcl' & Eid). simpl in Hc. congruence.
Qed.

(** The identifiers of the clients of connections, when a client is added. *)
Lemma client_ids_add st lc c cn k : inv st → clients st !! lc = None →
  conns st !! cn = Some k →
  client_ids (clients st) !! conn_client k =
  client_ids (<[lc := c]> (clients st)) !! conn_client k.
Proof.
  intros H Hlc Hk. destruct (C_conn _ _ _ (I_C _ H) _ _ Hk) as (cl & Hcl & _).
  unfold client_ids. rewrite fmap_insert, lookup_insert_ne; [done|]. congruence.
Qed.

Lemma U_conn_new sb dbu cns cid cn k : U_inv sb dbu cns cid → cns !! cn = None →
  conn_subs k = [] → U_inv sb dbu (<[cn := k]> cns) cid.
Proof.
  intros H Hcn Hk. eapply U_conns; [done| |].
  - intros cn' k0 [[<- <-]|[Hne Hk0]]%lookup_insert_Some; [by left|right; eauto].
  - intros cn' k0 Hk0. right. exists k0. by rewrite lookup_insert_ne by congruence.
Qed.

Lemma U_cid sb dbu cns cid cid' : U_inv sb dbu cns cid →
  (∀ cn k, cns !! cn = Some k → cid !! conn_client k = cid' !! conn_client k) →
  U_inv sb dbu cns cid'.
Proof.
  intros H Hc. eapply U_conns; [done| |].
  - intros cn k Hk. right. exists k. rewrite <-(Hc cn k Hk). done.
  - intros cn k Hk. right. eauto.
Qed.

(** A client connects for the first time. *)
Lemma wp_connect_new c addr (Q : Z → state → Prop) st :
  inv st → client_at st c = None → (0 ≤ c)%Z →
  (∀ st', inv st' → services st' = services st → db_services st' = db_services st →
     subs st' = subs st → db_subs st' = db_subs st → outputs st' = outputs st → kept st st' →
     (∃ cn k, client_at st' c = Some (Client c (Some cn) [] 1) ∧ conns st' !! cn = Some k ∧
              conn_services k = [] ∧ conn_subs k = []) →
     (∀ c', c' ≠ c → client_at st' c' = client_at st c') →
     (∀ cn k, conns st !! cn = Some k → conns st' !! cn = Some k) → Q 0%Z st') →
  wp (sd_client_connect c addr) Q st.
Proof.
  intros H Hc H0 HQ. pose proof (client_at_None st c H Hc) as Hn.
  pose proof (I_F _ H) as HF.
  unfold sd_client_connect. apply wp_bind, wp_gets. rewrite Hn.
  apply wp_bind. unfold client_create. apply wp_alloc. apply wp_bind.
  unfold client_connect. apply wp_bind, wp_conn_create. apply wp_bind.
  eapply wp_update; [apply lookup_insert_eq|reflexivity|]. apply wp_bind.
  eapply wp_read; [apply lookup_insert_eq|reflexivity|].
  unfold db_add_client. apply wp_bind. eapply wp_lift; [by rewrite bool_decide_eq_true_2|].
  unfold map_add_cnted. apply wp_bind. eapply wp_client_inc_ref; [apply lookup_insert_eq|done|].
  apply wp_bind, wp_gets. apply wp_bind. eapply wp_lift; [by apply amap_add_None|].
  apply wp_modify. apply wp_bind.
  eapply wp_client_dec_ref; [apply lookup_insert_eq|done|]. apply wp_ret.
  set (n0 := next_loc st). set (n1 := Pos.succ n0).
  set (k := new_conn addr n0 st). set (cl := Client c (Some n1) [] 1).
  assert (Hcl : clients st !! n0 = None) by (apply HF; done).
  assert (Hcn : conns st !! n1 = None) by (apply HF; unfold n1, n0; lia).
  eapply (eq_ind (State (services st) (subs st) (<[n1 := k]> (conns st)) (<[n0 := cl]> (clients st))
    (timers st) (db_clients st ++ [(c, n0)]) (db_services st) (db_subs st) (orphans st)
    (Pos.succ n1) (clock st) (S (tick st)) (outputs st))).
  2: { apply state_ext; try reflexivity. simpl. by rewrite !insert_insert_eq. }
  apply HQ; try done.
  - split; simpl; try apply H.
    + eapply C_connect; try done; apply H.
    + apply H_conn_new; [|done|done]. eapply H_cid; [apply H|].
      intros cn k0 Hk0. by eapply client_ids_add.
    + apply U_conn_new; [|done|done]. eapply U_cid; [apply H|].
      intros cn k0 Hk0. by eapply client_ids_add.
    + split; simpl; intros l Hl; rewrite ?lookup_insert_ne by (unfold n1, n0 in *; lia);
        apply HF; unfold n1, n0 in *; lia.
  - apply kept_same; [done|simpl; unfold n1, n0; lia].
  - exists n1, k. unfold client_at. simpl. rewrite amap_get_add by done.
    rewrite decide_True by done. simpl. rewrite lookup_insert_eq. split_and!; [done| |done|done].
    by rewrite lookup_insert_eq.
  - intros c' Hne. unfold client_at. simpl. rewrite amap_get_add by done.
    rewrite decide_False by done. destruct (amap_get (db_clients st) c') as [lc|] eqn:E; [|done].
    simpl. destruct (C_get _ _ _ (I_C _ H) _ _ E) as (cl' & Hcl' & _).
    rewrite lookup_insert_ne; [done|]. unfold n0 in *. congruence.
  - intros cn k0 Hk0. simpl. rewrite lookup_insert_ne; [done|]. congruence.
Qed.

(** A known client reconnects. *)
Lemma wp_reconnect c addr cl (Q : Z → state → Prop) st :
  inv st → client_at st c = Some cl →
  (client_is_connected cl = true → Q SD_ERR_CLIENT_ALREADY_EXISTS st) →
  (client_is_connected cl = false → ∀ st', inv st' → services st' = services st →
     db_services st' = db_services st → subs st' = subs st → db_subs st' = db_subs st →
     outputs st' = outputs st → kept st st' →
     (∃ cn k, client_at st' c = Some (client_with_active (Some cn) cl) ∧
              conns st' !! cn = Some k ∧ conn_services k = [] ∧ conn_subs k = []) →
     (∀ c', c' ≠ c → client_at st' c' = client_at st c') →
     (∀ cn k, conns st !! cn = Some k → conns st' !! cn = Some k) → Q 0%Z st') →
  wp (sd_client_connect c addr) Q st.
Proof.
  intros H Hc HQ1 HQ2. destruct (client_at_spec st c cl H Hc) as (lc & Elc & Hcl & Eid).
  pose proof (I_F _ H) as HF.
  unfold sd_client_connect. apply wp_bind, wp_gets. rewrite Elc. unfold client_reconnect.
  apply wp_bind. eapply wp_load; [exact Hcl|].
  destruct (client_is_connected cl) eqn:Econ; [by apply wp_ret, HQ1|].
  assert (Ha : active_conn cl = None).
  { unfold client_is_connected in Econ. by destruct (active_conn cl). }
  apply wp_bind, wp_conn_create, wp_bind.
  eapply wp_update; [exact Hcl|reflexivity|]. apply wp_ret.
  set (n := next_loc st). set (k := new_conn addr lc st).
  assert (Hcn : conns st !! n = None) by (apply HF; done).
  set (cl' := client_with_active (Some n) cl).
  assert (Hids : client_ids (<[lc := cl']> (clients st)) = client_ids (clients st))
    by (by eapply client_ids_update).
  apply HQ2; try done.
  - split; simpl; try apply H.
    + eapply C_reconnect; try done; apply H.
    + rewrite Hids. apply H_conn_new; [apply H|done|done].
    + rewrite Hids. apply U_conn_new; [apply H|done|done].
    + split; simpl; intros l Hl; [apply HF; lia|apply HF; lia| | |apply HF; lia].
      * rewrite lookup_insert_ne by lia. apply HF. lia.
      * rewrite lookup_insert_ne; [apply HF; lia|]. intros <-.
        rewrite (F_clients _ HF) in Hcl by lia. done.
  - apply kept_same; [done|simpl; unfold n; lia].
  - exists n, k. unfold client_at. simpl. rewrite Elc. simpl. rewrite lookup_insert_eq.
    split_and!; [done| |done|done]. by rewrite lookup_insert_eq.
  - intros c' Hne. unfold client_at. simpl.
    destruct (amap_get (db_clients st) c') as [lc'|] eqn:E; [|done]. simpl.
    destruct (C_get _ _ _ (I_C _ H) _ _ E) as (cl0 & Hcl0 & E0).
    rewrite lookup_insert_ne; [done|]. intros <-. congruence.
  - intros cn k0 Hk0. simpl. rewrite lookup_insert_ne; [done|]. congruence.
Qed.

(** ** Owners *)

Lemma wp_get_service_conn lc cl id cn l (Q : option loc → state → Prop) st :
  clients st !! lc = Some cl →
  (∀ cn', cn' ∈ client_conns cl → is_Some (conns st !! cn')) →
  cn ∈ client_conns cl → holds (conns st) cn id l →
  (∀ cn' l', holds (conns st) cn' id l' → cn' = cn) →
  Q (Some cn) st → wp (get_service_conn lc id) Q st.
Proof.
  intros Hcl Hall Hin (k & Hk & Hg) Huniq HQ. unfold get_service_conn. apply wp_bind.
  eapply wp_load; [exact Hcl|].
  set (b := λ cn', match conns st !! cn' with
                   | Some k => amap_has (conn_services k) id | None => false end).
  apply (wp_mfind _ b).
  - intros cn' Q' Hin' HQ'. destruct (Hall _ Hin') as [k' Hk'].
    eapply wp_conn_has_service; [exact Hk'|]. unfold b in HQ'. by rewrite Hk' in HQ'.
  - assert (Hb : b cn = true).
    { unfold b. rewrite Hk. apply amap_has_get. eauto. }
    destruct (list_find_elem_of (λ x, b x = true) _ _ Hin Hb) as [[i x] E]. rewrite E. simpl.
    apply list_find_Some in E as (_ & Hx & _). unfold b in Hx.
    destruct (conns st !! x) as [k'|] eqn:Ek; [|done]. apply amap_has_get in Hx as [l' Hl'].
    assert (x = cn) as -> by (eapply Huniq; by exists k'). done.
Qed.

Lemma client_conns_exist st lc cl cn : inv st → clients st !! lc = Some cl →
  cn ∈ client_conns cl → ∃ k, conns st !! cn = Some k ∧ conn_client k = lc.
Proof.
  intros H Hcl [Ha|Hi]%elem_client_conns.
  - destruct (C_active _ _ _ (I_C _ H) _ _ _ Hcl Ha) as (k & ? & ? & _). eauto.
  - destruct (C_inactive _ _ _ (I_C _ H) _ _ _ Hcl Hi) as (k & ? & ? & _). eauto.
Qed.

(** The client and the connection that hold a service. *)
Lemma owner_facts st l s : inv st → services st !! l = Some s →
  ∃ lc cl cn k, amap_get (db_clients st) (s_client s) = Some lc ∧
    clients st !! lc = Some cl ∧ client_id cl = s_client s ∧ cn ∈ client_conns cl ∧
    conns st !! cn = Some k ∧ conn_client k = lc ∧
    amap_get (conn_services k) (service_id s) = Some l.
Proof.
  intros H Hs. destruct (H_owner _ _ _ (I_H _ H) _ _ Hs) as (cn & k & Hk & Hg).
  destruct (H_get _ _ _ (I_H _ H) _ _ _ _ Hk Hg) as (s' & Hs' & _ & Hc & _). simplify_eq.
  destruct (C_conn _ _ _ (I_C _ H) _ _ Hk) as (cl & Hcl & Hin).
  unfold client_ids in Hc. rewrite lookup_fmap, Hcl in Hc. simpl in Hc. injection Hc as Hc.
  pose proof (C_db _ _ _ (I_C _ H) _ _ Hcl) as Hdb. rewrite Hc in Hdb.
  exists (conn_client k), cl, cn, k. done.
Qed.

(** The connected client [lc], with its active connection. *)
Record active_client (st : state) (c : Z) (lc : loc) (cl : client) (a : loc) (ka : conn)
    : Prop := {
  A_db : amap_get (db_clients st) c = Some lc;
  A_cl : clients st !! lc = Some cl;
  A_id : client_id cl = c;
  A_active : active_conn cl = Some a;
  A_conn : conns st !! a = Some ka;
  A_client : conn_client ka = lc;
  A_connected : conn_is_connected ka = true
}.

Lemma connected_active st c : inv st → connected st c = true →
  ∃ lc cl a ka, active_client st c lc cl a ka.
Proof.
  intros H Hc. unfold connected in Hc. destruct (client_at st c) as [cl|] eqn:E; [|done].
  destruct (client_at_spec st c cl H E) as (lc & Elc & Hcl & Eid).
  unfold client_is_connected in Hc. destruct (active_conn cl) as [a|] eqn:Ea; [|done].
  destruct (C_active _ _ _ (I_C _ H) _ _ _ Hcl Ea) as (ka & ? & ? & ?).
  by exists lc, cl, a, ka.
Qed.

Section active.
Context (st : state) (c : Z) (lc : loc) (cl : client) (a : loc) (ka : conn).
Context (HA : active_client st c lc cl a ka).

Lemma wp_assert_connected (Q : unit → state → Prop) :
  Q tt st → wp (assert_connected lc) Q st.
Proof.
  intros HQ. unfold assert_connected. apply wp_bind. eapply wp_load; [apply HA|].
  eapply wp_lift; [|exact HQ]. unfold client_is_connected. by rewrite (A_active _ _ _ _ _ _ HA).
Qed.

Lemma wp_client_id (Q : Z → state → Prop) : Q c st → wp (read lc (λ c, Ok (client_id c))) Q st.
Proof.
  intros HQ. eapply wp_read; [apply HA|reflexivity|]. by rewrite (A_id _ _ _ _ _ _ HA).
Qed.

Lemma wp_client_active (Q : loc → state → Prop) st' : clients st' = clients st →
  Q a st' → wp (client_active lc) Q st'.
Proof.
  intros E HQ. eapply wp_read; [simpl; rewrite E; apply HA| |exact HQ].
  by rewrite (A_active _ _ _ _ _ _ HA).
Qed.

Lemma wp_with_client (f : loc → M state Z) (Q : Z → state → Prop) :
  wp (f lc) Q st → wp (with_client c f) Q st.
Proof. intros HQ. apply wp_bind, wp_gets. by rewrite (A_db _ _ _ _ _ _ HA). Qed.

(** The owner of a service is another client: its connection is another. *)
Lemma owner_other l s k cn : inv st → services st !! l = Some s → s_client s ≠ c →
  conns st !! cn = Some k → amap_get (conn_services k) (service_id s) = Some l → cn ≠ a.
Proof.
  intros H Hs Hne Hk Hg ->. destruct (H_get _ _ _ (I_H _ H) _ _ _ _ Hk Hg) as (s' & Hs' & _ & Hc & _).
  rewrite (A_conn _ _ _ _ _ _ HA) in Hk. simplify_eq.
  rewrite (A_client _ _ _ _ _ _ HA) in Hc.
  rewrite (client_ids_lookup _ _ _ (A_cl _ _ _ _ _ _ HA)), (A_id _ _ _ _ _ _ HA) in Hc.
  congruence.
Qed.

Lemma not_held l s k cn : inv st → services st !! l = Some s → cn ≠ a →
  conns st !! cn = Some k → amap_get (conn_services k) (service_id s) = Some l →
  amap_get (conn_services ka) (service_id s) = None.
Proof.
  intros H Hs Hne Hk Hg. destruct (amap_get (conn_services ka) _) as [l'|] eqn:E; [|done].
  destruct Hne. eapply (H_uniq _ _ _ (I_H _ H) _ _ (service_id s)); eexists; [by split|].
  split; [apply HA|done].
Qed.

(** A capture moves the service between two connections. *)
Definition captured (cn : loc) (k : conn) (id : Z) (l : loc) : state :=
  set_conns (λ m, <[a := conn_with_services (conn_services ka ++ [(id, l)]) ka]>
                    (<[cn := conn_with_services (amap_remove (conn_services k) id) k]> m)) st.

Lemma wp_capture l s (Q : unit → state → Prop) :
  inv st → services st !! l = Some s → s_client s ≠ c →
  (∀ cn k, cn ≠ a → conns st !! cn = Some k →
     amap_get (conn_services k) (service_id s) = Some l →
     amap_get (conn_services ka) (service_id s) = None →
     Q tt (captured cn k (service_id s) l)) →
  wp (capture_service lc l) Q st.
Proof.
  intros H Hs Hne HQ.
  destruct (owner_facts st l s H Hs) as (lv & cv & cn & k & Edb & Hcv & Eid & Hin & Hk & Ek & Hg).
  pose proof (owner_other l s k cn H Hs Hne Hk Hg) as Hcn.
  pose proof (not_held l s k cn H Hs Hcn Hk Hg) as Hnone.
  destruct (S_ok _ _ (I_S _ H) _ _ Hs) as (_ & _ & g & Hcur & _).
  pose proof (S_refs _ _ (I_S _ H) _ _ Hs) as Hr. unfold refs_ok in Hr.
  assert (Hr' : (1 < service_ref_cnt s)%Z) by (rewrite Hr; by destruct (s_orphan s)).
  unfold capture_service. apply wp_bind. eapply wp_read; [exact Hs|reflexivity|].
  apply wp_bind. eapply (wp_read _ _ _ (s_client s)); [exact Hs| |].
  { unfold service_get_client_id, service_get, s_client. by rewrite Hcur. }
  apply wp_bind, wp_gets. apply wp_bind. eapply wp_lift; [by rewrite Edb|].
  apply wp_bind. eapply wp_get_service_conn; [exact Hcv| |exact Hin|by exists k| |].
  { intros cn' Hin'. destruct (client_conns_exist _ _ _ _ H Hcv Hin') as (k' & ? & _). eauto. }
  { intros cn' l' Hh. eapply (H_uniq _ _ _ (I_H _ H)); [exact Hh|by exists k]. }
  apply wp_bind. eapply wp_lift; [done|]. apply wp_bind.
  eapply wp_conn_del_service; [exact Hk|exact Hg|exact Hs|done|].
  apply wp_bind. apply wp_client_active; [done|].
  eapply wp_conn_add_service; [simpl; rewrite lookup_insert_ne by done; apply HA
    |apply lookup_insert_eq|simpl; lia|done|].
  eapply eq_ind; [by apply (HQ cn k)|]. apply state_ext; try reflexivity. simpl.
  rewrite insert_insert_eq. unfold with_ref_cnt. simpl.
  rewrite insert_id; [done|]. rewrite Hs. f_equal. destruct s; simpl in *. f_equal. lia.
Qed.
End active.

(** ** What the subscribers are told *)

(** A call of a match callback: the subscription, its data, the match, and the
    service's identifier. *)
Definition match_of (o : output) : option (loc * Z * sub_match_type * Z) :=
  match o with
  | OMatch s d m srv => Some (s, d, m, service_id srv)
  | _ => None
  end.

Definition match_calls (st : state) : list (loc * Z * sub_match_type * Z) :=
  omap match_of (outputs st).

(** What the subscriptions are told of a service whose current generation
    was [before] and is [after]. *)
Definition told (st : state) (id : Z) (before after : option generation)
    : list (loc * Z * sub_match_type * Z) :=
  omap (λ kv : Z * loc,
    s ← subs st !! kv.2;
    t ← transition (sees s (before ≫= gen_props)) (sees s (after ≫= gen_props));
    Some (kv.2, match_cb_data s, t, id)) (db_subs st).

(** What a call says of the service: its generation, unless the service
    disappears. *)
Definition content (t : sub_match_type) (g : option generation) : option generation :=
  match t with sub_match_type_disappeared => None | _ => g end.

(** A report: a call and what it says. *)
Abbreviation report := (loc * Z * sub_match_type * Z * option generation)%type.

Definition report_of (o : output) : option report :=
  match o with
  | OMatch s d m srv => Some (s, d, m, service_id srv, content m (current srv))
  | _ => None
  end.

Definition reports (st : state) : list report := omap report_of (outputs st).

Definition reported (st : state) (id : Z) (before after : option generation) : list report :=
  omap (λ kv : Z * loc,
    s ← subs st !! kv.2;
    t ← transition (sees s (before ≫= gen_props)) (sees s (after ≫= gen_props));
    Some (kv.2, match_cb_data s, t, id, content t after)) (db_subs st).

Lemma omap_fst {A B C} (f : A → option (B * C)) (g : A → option B) (l : list A) :
  (∀ x, fst <$> f x = g x) → (omap f l).*1 = omap g l.
Proof.
  intros H. induction l as [|x l IH]; [done|]. rewrite !omap_cons_eq, <-H.
  destruct (f x); csimpl; by rewrite IH.
Qed.

Lemma reports_match (os : list output) : (omap report_of os).*1 = omap match_of os.
Proof. apply omap_fst. by intros []. Qed.

Lemma reports_calls st : (reports st).*1 = match_calls st.
Proof. apply reports_match. Qed.

Lemma reported_told st id g g' : (reported st id g g').*1 = told st id g g'.
Proof.
  apply omap_fst. intros [i l]. simpl. destruct (subs st !! l); [|done]. simpl.
  by destruct (transition _ _).
Qed.

Lemma calls_appended st st' rs : reports st' = reports st ++ rs →
  match_calls st' = match_calls st ++ rs.*1.
Proof. intros E. by rewrite <-!reports_calls, E, fmap_app. Qed.

Lemma notifications_reported st ct s :
  omap report_of (notifications (subs st) (db_subs st) ct s) =
  omap (λ kv : Z * loc,
    s0 ← subs st !! kv.2;
    t ← transition (sees s0 (props_before ct s)) (sees s0 (props_after ct s));
    Some (kv.2, match_cb_data s0, t, service_id s, content t (current s))) (db_subs st).
Proof.
  unfold notifications. rewrite omap_omap. apply omap_ext_eq. intros [id l]. unfold notification.
  simpl. destruct (subs st !! l) as [s0|]; [|done]. simpl. by destruct (transition _ _).
Qed.

Lemma timer_events_silent evs : Forall timer_event evs → omap report_of evs = [].
Proof. induction 1 as [|[]]; csimpl; done. Qed.

Lemma outputs_after_reported st ct s st' : outputs_after st ct s st' →
  reports st' = reports st ++ omap report_of (notifications (subs st) (db_subs st) ct s).
Proof.
  intros (evs & E & Hev). unfold reports. rewrite E, !omap_app.
  by rewrite (timer_events_silent evs), app_nil_r.
Qed.

(** One service has changed, and what else that means. *)
Record changed (st : state) (id : Z) (g' : option generation) (st' : state) : Prop := {
  G_inv : inv st';
  G_gen : gen_at st' id = g';
  G_other : ∀ id', id' ≠ id → svc_at st' id' = svc_at st id';
  G_reported : reports st' = reports st ++ reported st id (gen_at st id) g';
  G_subs : subs st' = subs st;
  G_dbu : db_subs st' = db_subs st;
  G_connected : ∀ c, connected st' c = connected st c;
  G_held : ∀ c i, held st' c i =
    if decide (i = id) then holder_after (gen_at st id) g' (held st c id) c else held st c i;
  G_kept : kept st st'
}.

Lemma G_told st id g' st' : changed st id g' st' →
  match_calls st' = match_calls st ++ told st id (gen_at st id) g'.
Proof. intros C. rewrite <-reported_told. apply calls_appended, C. Qed.

Lemma svc_at_spec st id s : inv st → svc_at st id = Some s →
  ∃ l, amap_get (db_services st) id = Some l ∧ services st !! l = Some s ∧ service_id s = id.
Proof.
  intros H Hs. unfold svc_at in Hs. destruct (amap_get (db_services st) id) as [l|] eqn:E; [|done].
  destruct (S_get _ _ (I_S _ H) _ _ E) as (s' & Hs' & Eid). simpl in Hs. simplify_eq. eauto.
Qed.

Lemma svc_at_None st id : inv st → svc_at st id = None → amap_get (db_services st) id = None.
Proof.
  intros H Hs. unfold svc_at in Hs. destruct (amap_get (db_services st) id) as [l|] eqn:E; [|done].
  destruct (S_get _ _ (I_S _ H) _ _ E) as (s' & Hs' & Eid). simpl in Hs. congruence.
Qed.

Lemma gen_at_db st l s : inv st → services st !! l = Some s → svc_at st (service_id s) = Some s.
Proof.
  intros H Hs. unfold svc_at. by rewrite (S_db _ _ (I_S _ H) _ _ Hs).
Qed.

(** The outcome of a modification of one service. *)
Lemma changed_modified st st1 st' l s g' : inv st → inv st' →
  services st !! l = Some s →
  services st1 = services st → subs st1 = subs st → db_subs st1 = db_subs st →
  db_services st1 = db_services st → outputs st1 = outputs st →
  clients st1 = clients st → db_clients st1 = db_clients st → kept st st1 →
  same_rest st1 st' → services st' = <[l := modified_service g' s]> (services st1) →
  outputs_after st1 service_change_type_modified (committed g' s) st' →
  (∀ c i, held st' c i = if decide (i = service_id s)
    then holder_after (current s) (Some g') (held st c (service_id s)) c else held st c i) →
  changed st (service_id s) (Some g') st'.
Proof.
  intros H H' Hs E1 E2 E3 E4 E5 E6 E7 E8 HR Hsv Hout Hheld.
  pose proof (S_db _ _ (I_S _ H) _ _ Hs) as Hdb. split.
  - done.
  - unfold gen_at, svc_at. rewrite (R_dbs _ _ HR), E4, Hdb. simpl.
    by rewrite Hsv, lookup_insert_eq.
  - intros id' Hne. unfold svc_at. rewrite (R_dbs _ _ HR), E4, Hsv, E1.
    destruct (amap_get (db_services st) id') as [l'|] eqn:E; [|done]. simpl.
    rewrite lookup_insert_ne; [done|]. intros <-.
    destruct (S_get _ _ (I_S _ H) _ _ E) as (s0 & Hs0 & E0). congruence.
  - rewrite (outputs_after_reported _ _ _ _ Hout). unfold reports. rewrite E5. f_equal.
    rewrite notifications_reported. unfold reported, gen_at, svc_at. rewrite Hdb, E2, E3. simpl.
    rewrite Hs. simpl. done.
  - by rewrite (R_subs _ _ HR).
  - by rewrite (R_dbu _ _ HR).
  - intros c. unfold connected, client_at. by rewrite (R_dbc _ _ HR), (R_clients _ _ HR), E6, E7.
  - intros c i. unfold gen_at. by rewrite Hheld, (gen_at_db _ _ _ H Hs).
  - eapply kept_trans; [exact E8|apply HR].
Qed.

(** ** Invariants after a modification *)

Lemma inv_rest st1 st' : svc_inv st' → same_rest st1 st' →
  C_inv (conns st1) (clients st1) (db_clients st1) →
  H_inv (services st') (conns st1) (client_ids (clients st1)) →
  U_inv (subs st1) (db_subs st1) (conns st1) (client_ids (clients st1)) →
  inv st'.
Proof.
  intros HV HR HC HH HU. split; try apply HV.
  - by rewrite (R_conns _ _ HR), (R_clients _ _ HR), (R_dbc _ _ HR).
  - by rewrite (R_conns _ _ HR), (R_clients _ _ HR).
  - by rewrite (R_subs _ _ HR), (R_dbu _ _ HR), (R_conns _ _ HR), (R_clients _ _ HR).
Qed.

Lemma inv_modified st st' l s g' : inv st → services st !! l = Some s →
  gen_client_id g' = s_client s → gen_orphan (Some g') = false →
  svc_inv st' → same_rest st st' →
  services st' = <[l := modified_service g' s]> (services st) → inv st'.
Proof.
  intros H Hs Hc Ho HV HR Hsv. eapply inv_rest; [done|done|apply H| |apply H].
  rewrite Hsv. eapply H_update; [apply H|done|done|done|]. done.
Qed.

Lemma active_conn_client st c lc cl a ka : active_client st c lc cl a ka →
  client_ids (clients st) !! conn_client ka = Some c.
Proof.
  intros HA. by rewrite (A_client _ _ _ _ _ _ HA), (client_ids_lookup _ _ _ (A_cl _ _ _ _ _ _ HA)),
    (A_id _ _ _ _ _ _ HA).
Qed.

Lemma amap_has_snoc (m : amap loc) id l i : i ≠ id → amap_has (m ++ [(id, l)]) i = amap_has m i.
Proof.
  intros Hi. unfold amap_has. rewrite amap_get_app. simpl. rewrite decide_False by done.
  by destruct (amap_get m i).
Qed.

(** A service comes to the active connection of a client, and to no other. *)
Lemma held_moved st st' id c a ka c' i : inv st → inv st' →
  client_ids (clients st') = client_ids (clients st) → conn_is_connected ka = true →
  client_ids (clients st) !! conn_client ka = Some c →
  (∀ x kx, conns st' !! x = Some kx → amap_has (conn_services kx) id = true → x = a) →
  (∃ m l, conns st' !! a = Some (conn_with_services (m ++ [(id, l)]) ka)) →
  (∀ i x, i ≠ id → match conns st !! x with
      | Some k0 => ∃ kx, conns st' !! x = Some kx ∧ conn_is_connected kx = conn_is_connected k0 ∧
                         conn_client kx = conn_client k0 ∧
                         amap_has (conn_services kx) i = amap_has (conn_services k0) i
      | None => conns st' !! x = None end) →
  held st' c' i = if decide (i = id) then bool_decide (c' = c) else held st c' i.
Proof.
  intros H H' Hids Hd Hc Honly (m & l & Ha) Hsame. apply eq_true_iff_eq.
  rewrite held_iff by done. case_decide as Ei; [subst i; rewrite bool_decide_eq_true|rewrite held_iff by done].
  - split; [intros (x & kx & Hkx & _ & Ecx & Hh)|intros ->].
    + rewrite (Honly _ _ Hkx Hh) in Hkx. rewrite Hids in Ecx. simplify_eq. simpl in Ecx. congruence.
    + eexists a, _. rewrite Hids. split_and!; [exact Ha|done..|]. simpl.
      apply amap_has_get. rewrite amap_get_app. destruct (amap_get m id); [eauto|].
      simpl. rewrite decide_True by done. eauto.
  - split; intros (x & kx & Hkx & Edx & Ecx & Hh); specialize (Hsame i x Ei).
    + destruct (conns st !! x) as [k0|] eqn:E0; [|congruence]. destruct Hsame as (kx' & Ex & E1 & E2 & E3).
      simplify_eq. rewrite Hids in Ecx. exists x, k0. split_and!; congruence.
    + rewrite Hkx in Hsame. destruct Hsame as (kx' & Ex & E1 & E2 & E3). rewrite <-Hids in Ecx.
      exists x, kx'. split_and!; congruence.
Qed.

(** The owner stays: so does the connection. *)
Lemma held_unmoved st st' s g g' c i : current s = Some g → gen_client_id g' = gen_client_id g →
  same_rest st st' → held st' c i = if decide (i = service_id s)
    then holder_after (current s) (Some g') (held st c (service_id s)) c else held st c i.
Proof.
  intros Hg Hc HR. rewrite (held_same st st') by apply HR.
  case_decide; [subst|done]. simpl. rewrite Hg. simpl. by rewrite decide_True by congruence.
Qed.

Section after_capture.
Context (st : state) (c : Z) (lc : loc) (cl : client) (a : loc) (ka : conn).
Context (HA : active_client st c lc cl a ka) (H : inv st).
Context (l : loc) (s : service) (Hs : services st !! l = Some s).
Context (cn : loc) (k : conn) (Hcn : cn ≠ a) (Hk : conns st !! cn = Some k).
Context (Hg : amap_get (conn_services k) (service_id s) = Some l).

Lemma svc_inv_captured : svc_inv (captured st a ka cn k (service_id s) l).
Proof.
  pose proof (inv_svc _ H) as HV. pose proof (I_F _ H) as HF.
  split; try apply HV. split; simpl; try apply HF. intros l' Hl'.
  rewrite !lookup_insert_ne; [by apply HF| |].
  - intros ->. rewrite (F_conns _ HF) in Hk by done. done.
  - intros ->. pose proof (A_conn _ _ _ _ _ _ HA) as Ha.
    rewrite (F_conns _ HF) in Ha by done. done.
Qed.

Lemma inv_captured g' st' :
  gen_client_id g' = c → gen_orphan (Some g') = false →
  svc_inv st' → same_rest (captured st a ka cn k (service_id s) l) st' →
  services st' = <[l := modified_service g' s]> (services st) → inv st'.
Proof.
  intros Hc Ho HV HR Hsv. pose proof (A_conn _ _ _ _ _ _ HA) as Ha.
  eapply inv_rest; [done|done|..].
  - simpl. apply (C_same _ _ _ a ka);
      [by apply (C_same _ _ _ cn k); [apply H|..]|by rewrite lookup_insert_ne|done..].
  - rewrite Hsv. simpl. eapply H_move; [apply H|eapply S_ids_inj, H|done|done|done|done|done|done| |].
    + congruence.
    + rewrite (A_client _ _ _ _ _ _ HA), (client_ids_lookup _ _ _ (A_cl _ _ _ _ _ _ HA)).
      by rewrite (A_id _ _ _ _ _ _ HA), <-Hc.
  - simpl. apply (U_conn _ _ _ _ a ka);
      [by apply (U_conn _ _ _ _ cn k); [apply H|..]|by rewrite lookup_insert_ne|done..].
Qed.

Lemma held_captured g g' st' c' i : inv st' → same_rest (captured st a ka cn k (service_id s) l) st' →
  current s = Some g → gen_client_id g ≠ c → gen_client_id g' = c →
  held st' c' i = if decide (i = service_id s)
    then holder_after (current s) (Some g') (held st c' (service_id s)) c' else held st c' i.
Proof.
  intros H' HR Hcur Hne Hc. pose proof (A_conn _ _ _ _ _ _ HA) as Ha.
  pose proof (I_H _ H) as HH. assert (Hnd : NoDup (amap_keys (conn_services k))) by (by eapply HH).
  assert (Hconns : ∀ x, conns st' !! x =
    if decide (x = a) then Some (conn_with_services (conn_services ka ++ [(service_id s, l)]) ka)
    else if decide (x = cn) then Some (conn_with_services (amap_remove (conn_services k) (service_id s)) k)
    else conns st !! x).
  { intros x. rewrite (R_conns _ _ HR). simpl.
    repeat case_decide; subst; by rewrite ?lookup_insert_eq, ?lookup_insert_ne, ?lookup_insert_eq by done. }
  rewrite (held_moved st st' (service_id s) c a ka); try done.
  - case_decide; [|done]. unfold holder_after. by rewrite Hcur, decide_False, Hc by (simpl; congruence).
  - by rewrite (R_clients _ _ HR).
  - apply HA.
  - apply (active_conn_client _ _ _ _ _ _ HA).
  - intros x kx Hkx [v Hv]%amap_has_get. rewrite Hconns in Hkx. case_decide; [done|].
    case_decide; simplify_eq/=.
    + rewrite amap_get_remove, decide_True in Hv; done.
    + exfalso. assert (x = cn) as ->; [|done]. eapply (H_uniq _ _ _ HH x cn); eexists; done.
  - rewrite Hconns, decide_True by done. eexists _, l. split; done.
  - intros i' x Hi. rewrite Hconns. destruct (decide (x = a)) as [->|]; [|destruct (decide (x = cn)) as [->|]].
    + rewrite Ha. eexists. split_and!; [done..|]. by apply amap_has_snoc.
    + rewrite Hk. eexists. split_and!; [done..|]. unfold amap_has. simpl.
      rewrite amap_get_remove, decide_False by done. done.
    + destruct (conns st !! x) as [kx|] eqn:Ex; [|done]. by exists kx.
Qed.
End after_capture.

(** ** Publishing *)

(** What a publication does, as a function of the current generation: the
    result, and the current generation afterwards. *)
Definition published (old : option generation) (c gen : Z) (p : props) (ttl : Z)
    : Z * option generation :=
  match old with
  | None => (0%Z, Some (Generation gen (Some p) ttl (d_of_Z (-1)) c))
  | Some g =>
      if bool_decide (gen = gen_generation g) then
        if props_equal p (default [] (gen_props g)) && bool_decide (ttl = gen_ttl g)
        then (0%Z, Some (Generation gen (gen_props g) ttl (d_of_Z (-1)) c))
        else (SD_ERR_SERVICE_SAME_GENERATION_BUT_DIFFERENT_DATA, Some g)
      else if bool_decide (gen_generation g < gen)%Z
      then (0%Z, Some (Generation gen (Some p) ttl (d_of_Z (-1)) c))
      else (SD_ERR_NEWER_SERVICE_GENERATION_EXISTS, Some g)
  end.

(** The publication is refused, or repeats what is there. *)
Definition quiet (old : option generation) (c gen : Z) (p : props) (ttl : Z) : bool :=
  match old with
  | None => false
  | Some g =>
      bool_decide ((published old c gen p ttl).1 ≠ 0%Z) ||
      (bool_decide (gen = gen_generation g) && bool_decide (gen_client_id g = c) &&
       negb (gen_orphan old))
  end.

Lemma gen_published_ok gen p ttl c : (0 ≤ gen)%Z → (0 ≤ c)%Z → ttl_ok ttl → props_fit p →
  gen_ok (Generation gen (Some p) ttl (d_of_Z (-1)) c).
Proof.
  intros Hgen Hc Httl Hp. unfold ttl_ok in Httl. split_and!; [|done|done|by left].
  unfold generation_is_consistent. cbn [gen_generation gen_props gen_ttl gen_orphan_since gen_client_id].
  rewrite !andb_true_iff, !bool_decide_eq_true. split_and!; [done|done|lia|done|done].
Qed.

Lemma gen_same_ok g c : gen_ok g → (0 ≤ c)%Z →
  gen_ok (Generation (gen_generation g) (gen_props g) (gen_ttl g) (d_of_Z (-1)) c).
Proof.
  intros (H1 & H2 & H3 & H4) Hc. split_and!; [|done|done|by left].
  unfold generation_is_consistent in *.
  cbn [gen_generation gen_props gen_ttl gen_orphan_since gen_client_id].
  rewrite !andb_true_iff, !bool_decide_eq_true in *. naive_solver.
Qed.

Lemma non_orphan_since g : gen_ok g → gen_orphan (Some g) = false →
  gen_orphan_since g = d_of_Z (-1).
Proof.
  intros (_ & _ & _ & [E|[_ Hn]]) Ho; [done|]. simpl in Ho. congruence.
Qed.

(** Composed updates end with one commit. *)
Ltac run_setters :=
  cbn -[d_of_Z]; unfold generation_set_props; rewrite ?props_clone_id; reflexivity.

Ltac merge_updates := repeat apply wp_update_seq.

Section publish.
Context (st : state) (c : Z) (lc : loc) (cl : client) (a : loc) (ka : conn).
Context (HA : active_client st c lc cl a ka) (H : inv st).

Lemma active_id_nonneg : (0 ≤ c)%Z.
Proof.
  destruct (C_ok _ _ _ (I_C _ H) _ _ (A_cl _ _ _ _ _ _ HA)) as (H0 & _).
  by rewrite (A_id _ _ _ _ _ _ HA) in H0.
Qed.

(** A modification that makes [c] the owner, after a capture if needed.  [k]
    is the code that modifies. *)
Lemma wp_take_over {A} l s g g' f (k : M state A) (r : A) (Q : A → state → Prop) :
  services st !! l = Some s → current s = Some g → gen_ok g' →
  gen_client_id g' = c → gen_orphan (Some g') = false →
  f s = Ok (with_next service_change_type_modified (Some g') s) →
  (∀ Q' st1, wp (_ ← update l f; service_commit service_changed l) (λ _, Q' r) st1 →
     wp k Q' st1) →
  (∀ st', changed st (service_id s) (Some g') st' → clients st' = clients st →
     db_clients st' = db_clients st → Q r st') →
  wp (_ ← (if bool_decide (s_client s ≠ c) then capture_service lc l else mret tt); k) Q st.
Proof.
  intros Hs Hg Hg' Hc Ho Hf Hk HQ.
  assert (Hcl0 : s_client s = gen_client_id g) by (unfold s_client; by rewrite Hg).
  apply wp_bind. case_bool_decide as Hne.
  - eapply wp_capture; [exact HA|done|exact Hs|done|]. intros cn k' Hcn Hk' Hgk Hnone.
    apply Hk. pose proof (svc_inv_captured st c lc cl a ka HA H l s cn k' Hcn Hk') as HV.
    eapply (wp_modify_commit _ HV l s Hs g' Hg'); [exact Hf|by rewrite Ho, andb_false_r|].
    intros st' HV' HR Hsv Hout. apply HQ; [|by apply HR..].
    assert (H' : inv st') by (by eapply (inv_captured st c lc cl a ka HA H l s Hs cn k' Hcn Hk' Hgk)).
    eapply (changed_modified st (captured st a ka cn k' (service_id s) l)); try done;
      try by apply kept_same.
    intros c0 i. eapply held_captured with (a := a) (cn := cn) (k := k') (g := g) (l := l); try done.
    by rewrite <-Hcl0.
  - apply wp_ret, Hk.
    eapply (wp_modify_commit _ (inv_svc _ H) l s Hs g' Hg'); [exact Hf|by rewrite Ho, andb_false_r|].
    intros st' HV' HR Hsv Hout. apply HQ; [|by apply HR..].
    assert (Ecl : s_client s = c) by (destruct (decide (s_client s = c)); [done|congruence]).
    eapply (changed_modified st st); try done; try by apply kept_same.
    + apply (inv_modified st st' l s g'); try done. congruence.
    + intros c0 i. eapply (held_unmoved st st' s g); [done|congruence|done].
Qed.

Lemma modify_begin_ok s g : idle s → current s = Some g → gen_ok g →
  service_modify_begin s = Ok (with_next service_change_type_modified (Some g) s).
Proof.
  intros Hi Hg (_ & Hpr & _). apply service_modify_begin_spec; [done|done|].
  intros E. simpl in Hpr. by rewrite E in Hpr.
Qed.

Lemma wp_publish_newer l s g gen p ttl (Q : Z → state → Prop) :
  services st !! l = Some s → current s = Some g → gen_ok g →
  (0 ≤ gen)%Z → ttl_ok ttl → props_fit p →
  (∀ st', changed st (service_id s) (Some (Generation gen (Some p) ttl (d_of_Z (-1)) c)) st' →
     Q 0%Z st') →
  wp (publish_newer service_changed lc l c (bool_decide (s_client s ≠ c)) gen p ttl) Q st.
Proof.
  intros Hs Hg Hgok Hgen Httl Hp HQ. unfold publish_newer.
  destruct (S_ok _ _ (I_S _ H) _ _ Hs) as (Hi & _).
  eapply (wp_take_over l s g); [done|done| | | | | |by intros st' ? _ _; apply HQ].
  - by apply gen_published_ok; [|apply active_id_nonneg|..].
  - done.
  - done.
  - shelve.
  - intros Q' st1 H1. merge_updates. apply wp_seq. eapply wp_mono; [exact H1|].
    intros [] st' H2. by apply wp_ret.
  Unshelve. cbn beta. rewrite (modify_begin_ok s g) by done.
  run_setters.
Qed.

Lemma wp_publish_same l s g gp p ttl (Q : Z → state → Prop) :
  services st !! l = Some s → current s = Some g → gen_ok g → gen_props g = Some gp →
  let same := props_equal p gp && bool_decide (ttl = gen_ttl g) in
  (same = false → Q SD_ERR_SERVICE_SAME_GENERATION_BUT_DIFFERENT_DATA st) →
  (same = true → s_client s = c → s_orphan s = false → Q 0%Z st) →
  (same = true → s_client s ≠ c ∨ s_orphan s = true → ∀ st', changed st (service_id s)
            (Some (Generation (gen_generation g) (gen_props g) (gen_ttl g) (d_of_Z (-1)) c)) st' →
     Q 0%Z st') →
  wp (publish_same service_changed lc l c (bool_decide (s_client s ≠ c)) p ttl) Q st.
Proof.
  intros Hs Hg Hgok Hgp same HQerr HQsame HQ. unfold publish_same.
  destruct (S_ok _ _ (I_S _ H) _ _ Hs) as (Hi & _).
  apply wp_bind. eapply (wp_read _ _ _ (Some gp)); [exact Hs| |].
  { unfold service_get_props, service_get. by rewrite Hg, <-Hgp. }
  apply wp_bind. eapply wp_lift; [done|]. apply wp_bind.
  eapply (wp_read _ _ _ (gen_ttl g)); [exact Hs| |].
  { unfold service_get_ttl, service_get. by rewrite Hg. }
  assert (E : negb (props_equal p gp) || bool_decide (ttl ≠ gen_ttl g) = negb same).
  { unfold same. rewrite bool_decide_not. by destruct (props_equal p gp). }
  rewrite E. clear E. destruct same; simpl; [|by apply wp_ret, HQerr].
  apply wp_bind. eapply wp_read; [exact Hs|apply service_is_orphan_eq; congruence|].
  pose proof (gen_same_ok g c Hgok active_id_nonneg) as Hok'.
  set (g' := Generation (gen_generation g) (gen_props g) (gen_ttl g) (d_of_Z (-1)) c) in *.
  apply wp_bind. case_bool_decide as Hne; [|destruct (s_orphan s) eqn:Eo].
  - assert (Hto := wp_take_over (A := unit) l s g g').
    rewrite bool_decide_eq_true_2 in Hto by done.
    eapply (Hto _ _ tt); [done|done|done|done|done| | |].
    + shelve.
    + intros Q' st1 H1. merge_updates. eapply wp_mono; [exact H1|]. by intros [] st'.
    + intros st' Hst' _ _. apply wp_ret, HQ; [done|by left|done].
    Unshelve. cbn beta. rewrite (modify_begin_ok s g) by done. run_setters.
  - merge_updates.
    eapply (wp_modify_commit _ (inv_svc _ H) l s Hs g' Hok').
    + cbn beta. rewrite (modify_begin_ok s g) by done. cbn -[d_of_Z].
      unfold g'. rewrite <-Hne. unfold s_client. by rewrite Hg.
    + by rewrite andb_false_r.
    + intros st' HV' HR Hsv Hout. apply wp_ret, HQ; [done|by right|].
      eapply (changed_modified st st); try done; try by apply kept_same.
      * by eapply (inv_modified st st' l s g').
      * intros c0 i. eapply held_unmoved; [done| |done]. simpl. unfold s_client in Hne. by rewrite Hg in Hne.
  - by apply wp_ret, wp_ret, HQsame.
Qed.

(** The state with a new service. *)
Section new_service.
Context (id : Z) (g' : generation) (Hnone : svc_at st id = None) (Hid : (0 ≤ id)%Z).
Context (Hok : gen_ok g') (Hown : gen_client_id g' = c) (Hor : gen_orphan (Some g') = false).

Definition new_service (n : Z) : service :=
  Service id service_change_type_none (Some g') None None n.

Definition with_new_service : state :=
  State (<[next_loc st := new_service 2]> (services st)) (subs st)
    (<[a := conn_with_services (conn_services ka ++ [(id, next_loc st)]) ka]> (conns st))
    (clients st) (timers st) (db_clients st) (db_services st ++ [(id, next_loc st)]) (db_subs st)
    (orphans st) (Pos.succ (next_loc st)) (clock st) (tick st)
    (outputs st ++ notifications (subs st) (db_subs st) service_change_type_added (new_service 1)).

Lemma inv_new_service : inv with_new_service.
Proof.
  pose proof (svc_at_None _ _ H Hnone) as Hdb. pose proof (I_F _ H) as HF.
  assert (Hl : services st !! next_loc st = None) by (apply HF; done).
  assert (Hids : ∀ l' s', services st !! l' = Some s' → service_id s' ≠ id).
  { intros l' s' Hs' E. pose proof (S_db _ _ (I_S _ H) _ _ Hs'). congruence. }
  split; simpl; try apply H.
  - apply (S_add _ _ _ (new_service 2)); [apply H|done|done| |].
    + split_and!; [done|done|]. by exists g'.
    + unfold refs_ok, s_orphan. simpl in *. by rewrite Hor.
  - apply O_add; [apply H|done|exact Hor].
  - by apply (C_same _ _ _ a ka); [apply H|apply HA|..].
  - apply (H_add _ _ _ _ (new_service 2)); [apply H|done|done|apply HA| |exact Hor].
    rewrite (A_client _ _ _ _ _ _ HA), (client_ids_lookup _ _ _ (A_cl _ _ _ _ _ _ HA)).
    by rewrite (A_id _ _ _ _ _ _ HA), <-Hown.
  - by apply (U_conn _ _ _ _ a ka); [apply H|apply HA|..].
  - split; simpl; intros l' Hl'; try (apply HF; lia).
    + rewrite lookup_insert_ne by lia. apply HF. lia.
    + rewrite lookup_insert_ne; [apply HF; lia|]. intros <-.
      pose proof (A_conn _ _ _ _ _ _ HA) as Ha. rewrite (F_conns _ HF) in Ha by lia. done.
Qed.

Lemma held_new_service c' i : held with_new_service c' i =
  if decide (i = id) then holder_after (gen_at st id) (Some g') (held st c' id) c' else held st c' i.
Proof.
  pose proof (A_conn _ _ _ _ _ _ HA) as Ha. pose proof (svc_at_None _ _ H Hnone) as Hdb.
  assert (Hno : ∀ x kx, conns st !! x = Some kx → amap_has (conn_services kx) id = false).
  { intros x kx Hkx. apply amap_has_false. destruct (amap_get (conn_services kx) id) as [l|] eqn:E; [|done].
    destruct (H_get _ _ _ (I_H _ H) _ _ _ _ Hkx E) as (s & Hs & Eid & _).
    pose proof (S_db _ _ (I_S _ H) _ _ Hs) as Hs'. congruence. }
  rewrite (held_moved st with_new_service id c a ka); try done.
  - case_decide; [|done]. unfold gen_at. rewrite Hnone. simpl. by rewrite Hown.
  - apply inv_new_service.
  - apply HA.
  - apply (active_conn_client _ _ _ _ _ _ HA).
  - intros x kx. simpl. intros [[<- <-]|[Hne Hkx]]%lookup_insert_Some; [done|]. by rewrite (Hno _ _ Hkx).
  - simpl. rewrite lookup_insert_eq. by eexists _, _.
  - intros j x Hj. simpl. destruct (decide (x = a)) as [->|].
    + rewrite Ha, lookup_insert_eq. eexists. split_and!; [done..|]. by apply amap_has_snoc.
    + rewrite lookup_insert_ne by done. destruct (conns st !! x) as [kx|]; [by exists kx|done].
Qed.

Lemma changed_new_service : changed st id (Some g') with_new_service.
Proof.
  pose proof (svc_at_None _ _ H Hnone) as Hdb. split; try done.
  - apply inv_new_service.
  - unfold gen_at, svc_at. simpl. rewrite amap_get_add by done. rewrite decide_True by done.
    simpl. by rewrite lookup_insert_eq.
  - intros id' Hne. unfold svc_at. simpl. rewrite amap_get_add by done.
    rewrite decide_False by done. destruct (amap_get (db_services st) id') as [l'|] eqn:E; [|done].
    simpl. destruct (S_get _ _ (I_S _ H) _ _ E) as (s' & Hs' & _).
    rewrite lookup_insert_ne; [done|]. intros <-.
    by rewrite (F_services _ (I_F _ H)) in Hs'.
  - unfold reports. simpl. rewrite omap_app. f_equal. rewrite notifications_reported.
    unfold reported, gen_at. by rewrite Hnone.
  - apply held_new_service.
  - apply kept_same; [done|simpl; lia].
Qed.
End new_service.

Lemma wp_publish_new id gen p ttl (Q : Z → state → Prop) :
  svc_at st id = None → (0 ≤ id)%Z → (0 ≤ gen)%Z → ttl_ok ttl → props_fit p →
  (∀ st', changed st id (Some (Generation gen (Some p) ttl (d_of_Z (-1)) c)) st' → Q 0%Z st') →
  wp (publish_new service_changed lc c id gen p ttl) Q st.
Proof.
  intros Hnone Hid Hgen Httl Hp HQ. pose proof (svc_at_None _ _ H Hnone) as Hdb.
  pose proof (gen_published_ok gen p ttl c Hgen active_id_nonneg Httl Hp) as Hok.
  set (g' := Generation gen (Some p) ttl (d_of_Z (-1)) c) in *.
  assert (Hor : gen_orphan (Some g') = false) by reflexivity.
  specialize (HQ _ (changed_new_service id g' Hnone Hid Hok eq_refl Hor)).
  unfold publish_new. apply wp_bind. unfold service_create. apply wp_alloc.
  merge_updates. apply wp_bind.
  eapply (wp_update (next_loc st) _ (with_next service_change_type_added (Some g') (service_init id)));
    [apply lookup_insert_eq| |].
  { cbn -[d_of_Z]. unfold generation_set_props. by rewrite props_clone_id. }
  apply wp_bind. eapply wp_service_commit; [apply lookup_insert_eq| |].
  { rewrite service_commit_spec by (by left). destruct Hok as (-> & _). reflexivity. }
  eapply wp_service_changed; [apply (inv_svc _ H)|apply lookup_insert_eq|apply Hok|].
  eapply wp_maintain_added; [apply lookup_insert_eq|done|exact Hor|].
  unfold db_add_service. apply wp_bind, wp_bind.
  eapply wp_lift; [by rewrite bool_decide_eq_true_2|]. unfold map_add_cnted.
  apply wp_bind. eapply wp_service_inc_ref; [apply lookup_insert_eq|done|].
  apply wp_bind, wp_gets. apply wp_bind. eapply wp_lift; [by apply amap_add_None|].
  apply wp_modify. apply wp_bind.
  eapply (wp_client_active st c lc cl a ka HA); [done|].
  apply wp_bind. eapply (wp_conn_add_service a ka); [apply HA|apply lookup_insert_eq|done| |].
  { destruct (amap_get (conn_services ka) id) as [l'|] eqn:E; [|done].
    destruct (H_get _ _ _ (I_H _ H) _ _ _ _ (A_conn _ _ _ _ _ _ HA) E) as (s' & Hs' & Eid & _).
    pose proof (S_db _ _ (I_S _ H) _ _ Hs'). congruence. }
  apply wp_bind. eapply wp_service_dec_ref; [apply lookup_insert_eq|done|]. apply wp_ret.
  refine (eq_ind _ (Q 0%Z) HQ _ _). apply state_ext; try reflexivity. simpl.
  by rewrite !insert_insert_eq.
Qed.

(** Publishing, whole. *)
Lemma wp_publish id gen p ttl :
  (0 ≤ id)%Z → (0 ≤ gen)%Z → ttl_ok ttl → props_fit p →
  wp (sd_publish c id gen p ttl) (λ r st',
    let '(r0, g') := published (gen_at st id) c gen p ttl in
    r = r0 ∧ if quiet (gen_at st id) c gen p ttl then st' = st ∧ gen_at st id = g'
             else changed st id g' st') st.
Proof.
  intros Hid Hgen Httl Hp. unfold sd_publish.
  apply (wp_with_client st c lc cl a ka HA). unfold client_publish.
  apply wp_bind, (wp_assert_connected st c lc cl a ka HA), wp_bind,
    (wp_client_id st c lc cl a ka HA), wp_bind, wp_gets.
  destruct (svc_at st id) as [s|] eqn:Es.
  - destruct (svc_at_spec st id s H Es) as (l & Hdb & Hs & Eid). rewrite Hdb.
    destruct (S_ok _ _ (I_S _ H) _ _ Hs) as (Hi & _ & g & Hg & Hgok).
    assert (Egen : gen_at st id = Some g) by (unfold gen_at; by rewrite Es).
    assert (∃ gp, gen_props g = Some gp) as [gp Hgp].
    { destruct Hgok as (_ & Hpr & _). simpl in Hpr. destruct (gen_props g); [by eexists|done]. }
    apply wp_bind. eapply (wp_read _ _ _ (s_client s)); [exact Hs| |].
    { unfold service_get_client_id, service_get, s_client. by rewrite Hg. }
    cbn zeta. apply wp_bind. eapply (wp_read _ _ _ (gen_generation g)); [exact Hs| |].
    { unfold service_get_generation, service_get. by rewrite Hg. }
    rewrite Egen. unfold quiet, published. rewrite Hgp. change (default [] (Some gp)) with gp.
    assert (Ecl : s_client s = gen_client_id g) by (unfold s_client; by rewrite Hg).
    assert (Eor : s_orphan s = gen_orphan (Some g)) by (unfold s_orphan; by rewrite Hg).
    case_bool_decide as Eg.
    + subst gen. apply (wp_publish_same l s g gp); [done..| | |].
      * by intros ->.
      * rewrite Ecl, Eor. intros Es' Ec Eo. rewrite Es', Eo,
          (bool_decide_eq_true_2 (gen_client_id g = c)) by done.
        rewrite <-(non_orphan_since g Hgok Eo). simpl. split_and!; [done|done|].
        apply andb_true_iff in Es' as [_ ->%bool_decide_eq_true_1].
        rewrite <-Hgp, <-Ec. by destruct g.
      * rewrite Ecl, Eor. intros Es' Eco st' Hst'. rewrite Es'. rewrite Eid in Hst'.
        apply andb_true_iff in Es' as [_ ->%bool_decide_eq_true_1].
        simpl.
        split; [done|]. rewrite Hgp in Hst'.
        destruct Eco as [Ec|Eo]; [|simpl in Eo; by rewrite Eo, andb_false_r].
        by rewrite bool_decide_eq_false_2 by done.
    + case_bool_decide as Elt.
      * eapply wp_publish_newer; [done..|]. intros st' Hst'. simpl.
        rewrite Eid in Hst'. done.
      * apply wp_ret. done.
  - rewrite (svc_at_None _ _ H Es). assert (Egen : gen_at st id = None) by (unfold gen_at; by rewrite Es).
    rewrite Egen. apply wp_publish_new; [done..|]. intros st' Hst'. done.
Qed.
End publish.
