(* ===== verification/SdRemove.v ===== *)
(** * Removing services (src/sd/client.c: [remove_service], [client_unpublish],
    [client_purge_orphan])

    A removed service leaves the connection that held it; a disconnected
    connection that holds nothing more goes, and so does a client whose
    connections are all gone or empty. *)

From S2P Require Import Prelude CLib Pvalue Props Filter FilterParse Double Service Sub Amap Heap Client Sd SdWp SdInv SdOps.

(** ** Clients, connections and what they hold *)

Record rel_inv (sv : gmap loc service) (cns : gmap loc conn) (cls : gmap loc client)
    (dbc : amap loc) (sb : gmap loc sub) (dbu : amap loc) : Prop := {
  L_C : C_inv cns cls dbc;
  L_H : H_inv sv cns (client_ids cls);
  L_U : U_inv sb dbu cns (client_ids cls)
}.

Lemma inv_rel st : inv st →
  rel_inv (services st) (conns st) (clients st) (db_clients st) (subs st) (db_subs st).
Proof. intros H. split; apply H. Qed.

Lemma rel_svc_inv st : svc_inv st →
  rel_inv (services st) (conns st) (clients st) (db_clients st) (subs st) (db_subs st) → inv st.
Proof. intros HV HL. split; try apply HV; apply HL. Qed.

(** Connections that hold nothing can go. *)
Lemma U_conns_del sb dbu cns cns' cid : U_inv sb dbu cns cid →
  (∀ cn k, cns' !! cn = Some k → cns !! cn = Some k) →
  (∀ cn k, cns !! cn = Some k → cns' !! cn = Some k ∨ conn_subs k = []) →
  U_inv sb dbu cns' cid.
Proof.
  intros H H1 H2. eapply U_conns; [done| |].
  - intros cn k Hk. right. exists k. auto.
  - intros cn k Hk. destruct (H2 _ _ Hk) as [?|?]; [right; eauto|by left].
Qed.

Section cleanup.
Context (sv : gmap loc service) (cns : gmap loc conn) (cls : gmap loc client).
Context (dbc : amap loc) (sb : gmap loc sub) (dbu : amap loc).
Context (H : rel_inv sv cns cls dbc sb dbu).
Context (lc : loc) (cl : client) (Hcl : cls !! lc = Some cl).

(** An inactive connection that holds nothing goes. *)
Lemma rel_drop_conn cn k l' : cn ∈ inactive_conns cl → cns !! cn = Some k →
  conn_services k = [] → NoDup l' → (∀ x, x ∈ l' ↔ x ∈ inactive_conns cl ∧ x ≠ cn) →
  rel_inv sv (delete cn cns) (<[lc := client_with_inactive l' cl]> cls) dbc sb dbu.
Proof.
  intros Hin Hk Hsv Hnd Hl'. pose proof (L_C _ _ _ _ _ _ H) as HC.
  destruct (C_inactive _ _ _ HC _ _ _ Hcl Hin) as (k0 & Hk0 & _ & Ed & Hsubs). simplify_eq.
  assert (Hdel : ∀ cn' k', delete cn cns !! cn' = Some k' → cns !! cn' = Some k').
  { by intros cn' k' [_ ?]%lookup_delete_Some. }
  assert (Hkeep : ∀ cn' k', cns !! cn' = Some k' →
            delete cn cns !! cn' = Some k' ∨ (k' = k)).
  { intros cn' k' Hk'. destruct (decide (cn = cn')) as [<-|Hne].
    - right. congruence.
    - left. by rewrite lookup_delete_ne. }
  split.
  - eapply C_drop_conn; [done|done| |done|done| |done|done].
    + apply elem_client_conns. by right.
    + intros x. simpl. split; [|naive_solver]. intros Hx. split; [done|]. intros ->.
      destruct (C_active _ _ _ HC _ _ _ Hcl Hx) as (k1 & Hk1 & _ & Ed1). congruence.
  - rewrite (client_ids_update cls lc cl) by done.
    eapply H_conns_del; [apply H|done|]. intros cn' k' Hk'.
    destruct (Hkeep _ _ Hk') as [?| ->]; auto.
  - rewrite (client_ids_update cls lc cl) by done.
    eapply U_conns_del; [apply H|done|]. intros cn' k' Hk'.
    destruct (Hkeep _ _ Hk') as [?| ->]; auto.
Qed.

Definition drop_conns (l : list loc) (m : gmap loc conn) : gmap loc conn :=
  foldl (λ m cn, delete cn m) m l.

Lemma drop_conns_in l m cn : cn ∈ l → drop_conns l m !! cn = None.
Proof.
  revert m. induction l as [|x l IH]; intros m Hin; [by apply not_elem_of_nil in Hin|]. simpl.
  destruct (decide (cn ∈ l)) as [|Hn]; [by apply IH|].
  apply elem_of_cons in Hin as [->|]; [|done]. clear IH.
  assert (Hx : delete x m !! x = None) by apply lookup_delete_eq. revert Hx. generalize (delete x m).
  induction l as [|y l IH]; intros m' Hx; [done|]. simpl. apply not_elem_of_cons in Hn as [Hn1 Hn2].
  apply IH; [done|]. by rewrite lookup_delete_ne.
Qed.

Lemma drop_conns_notin l m cn : cn ∉ l → drop_conns l m !! cn = m !! cn.
Proof.
  revert m. induction l as [|x l IH]; intros m Hin; [done|]. simpl.
  apply not_elem_of_cons in Hin as [Hn1 Hn2]. rewrite IH by done. by rewrite lookup_delete_ne.
Qed.

Definition holds_nothing (k : conn) : Prop := conn_services k = [] ∧ conn_subs k = [].

(** A client whose connections hold nothing goes, with its connections. *)
Lemma rel_drop_client :
  (∀ cn, cn ∈ client_conns cl → ∃ k, cns !! cn = Some k ∧ holds_nothing k) →
  rel_inv sv (drop_conns (client_conns cl) cns) (delete lc cls)
    (amap_remove dbc (client_id cl)) sb dbu.
Proof.
  intros Hall. pose proof (L_C _ _ _ _ _ _ H) as HC.
  set (cns' := drop_conns (client_conns cl) cns).
  assert (Hdel : ∀ cn' k', cns' !! cn' = Some k' → cns !! cn' = Some k' ∧ cn' ∉ client_conns cl).
  { intros cn' k' Hk'. unfold cns' in Hk'. destruct (decide (cn' ∈ client_conns cl)).
    - by rewrite drop_conns_in in Hk'.
    - by rewrite drop_conns_notin in Hk'. }
  assert (Hkeep : ∀ cn' k', cns !! cn' = Some k' → cns' !! cn' = Some k' ∨ holds_nothing k').
  { intros cn' k' Hk'. unfold cns'. destruct (decide (cn' ∈ client_conns cl)) as [Hin|].
    - right. destruct (Hall _ Hin) as (k & Hk & ?). by simplify_eq.
    - left. by rewrite drop_conns_notin. }
  assert (Hids : ∀ cn' k', cns' !! cn' = Some k' →
            client_ids cls !! conn_client k' = client_ids (delete lc cls) !! conn_client k').
  { intros cn' k' [Hk' Hnin]%Hdel. unfold client_ids. rewrite !lookup_fmap.
    destruct (C_conn _ _ _ HC _ _ Hk') as (cl0 & Hcl0 & Hin0).
    rewrite lookup_delete_ne; [done|]. intros E. rewrite <-E in Hcl0. by simplify_eq. }
  split.
  - eapply C_drop_client; [done|done| |]; intros cn Hcn.
    + by apply drop_conns_in.
    + by apply drop_conns_notin.
  - eapply H_cid; [|exact Hids]. eapply H_conns_del; [apply H| |].
    + intros cn k Hk. by apply Hdel.
    + intros cn k Hk. destruct (Hkeep _ _ Hk) as [|[]]; auto.
  - eapply U_cid; [|exact Hids]. eapply U_conns_del; [apply H| |].
    + intros cn k Hk. by apply Hdel.
    + intros cn k Hk. destruct (Hkeep _ _ Hk) as [|[]]; auto.
Qed.

(** A stale client, whose connections are all stale. *)
Definition client_stale (cns : gmap loc conn) (cl : client) : bool :=
  forallb (λ cn, match cns !! cn with Some k => stale k | None => true end) (client_conns cl).

Lemma client_stale_nothing : client_stale cns cl = true →
  ∀ cn, cn ∈ client_conns cl → ∃ k, cns !! cn = Some k ∧ holds_nothing k.
Proof.
  intros Hst cn Hin. pose proof (L_C _ _ _ _ _ _ H) as HC.
  unfold client_stale in Hst. rewrite forallb_forall in Hst.
  pose proof (Hst cn (proj1 (list_elem_of_In _ _) Hin)) as Hk.
  apply elem_client_conns in Hin as [Ha|Hi].
  - destruct (C_active _ _ _ HC _ _ _ Hcl Ha) as (k & E & _ & Ed). rewrite E in Hk.
    unfold stale in Hk. by rewrite Ed in Hk.
  - destruct (C_inactive _ _ _ HC _ _ _ Hcl Hi) as (k & E & _ & Ed & Es). rewrite E in Hk.
    exists k. split; [done|]. split; [|done]. unfold stale in Hk. rewrite Ed in Hk.
    apply bool_decide_eq_true_1 in Hk. by destruct (conn_services k).
Qed.

Lemma client_stale_inactive : client_stale cns cl = true → active_conn cl = None.
Proof.
  intros Hst. destruct (active_conn cl) as [cn|] eqn:Ha; [|done].
  destruct (C_active _ _ _ (L_C _ _ _ _ _ _ H) _ _ _ Hcl Ha) as (k & E & _ & Ed).
  unfold client_stale, client_conns in Hst. rewrite Ha in Hst. simpl in Hst. rewrite E in Hst.
  unfold stale in Hst. by rewrite Ed in Hst.
Qed.

Lemma client_conns_nodup : NoDup (client_conns cl).
Proof.
  pose proof (L_C _ _ _ _ _ _ H) as HC. destruct (C_ok _ _ _ HC _ _ Hcl) as (_ & _ & Hn).
  unfold client_conns. apply NoDup_app. split_and!; [|intros x Hx Hi|done].
  - destruct (active_conn cl); [apply NoDup_singleton|apply NoDup_nil_2].
  - destruct (active_conn cl) as [a|] eqn:Ha; [|by apply not_elem_of_nil in Hx].
    apply list_elem_of_singleton in Hx as ->.
    destruct (C_active _ _ _ HC _ _ _ Hcl Ha) as (k & E & _ & Ed).
    destruct (C_inactive _ _ _ HC _ _ _ Hcl Hi) as (k' & E' & _ & Ed' & _). congruence.
Qed.
End cleanup.

(** ** Symbolic execution *)

Lemma wp_client_is_stale lc cl (Q : bool → state → Prop) st :
  clients st !! lc = Some cl →
  (∀ cn, cn ∈ client_conns cl → is_Some (conns st !! cn)) →
  Q (client_stale (conns st) cl) st → wp (client_is_stale lc) Q st.
Proof.
  intros Hcl Hall HQ. unfold client_is_stale. apply wp_bind. eapply wp_load; [exact Hcl|].
  set (b := λ cn, match conns st !! cn with Some k => negb (stale k) | None => false end).
  apply wp_bind, (wp_mfind _ b).
  { intros cn Q' Hin HQ'. destruct (Hall _ Hin) as [k Hk]. apply wp_fmap.
    eapply wp_conn_is_stale; [exact Hk|]. unfold b in HQ'. by rewrite Hk in HQ'. }
  apply wp_ret. refine (eq_ind _ (λ r, Q r st) HQ _ _). unfold client_stale. revert Hall.
  generalize (client_conns cl). intros l Hall.
  destruct (list_find (λ x, b x = true) l) as [[i x]|] eqn:E; simpl.
  - apply list_find_Some in E as (Hx & Hb & _). apply list_elem_of_lookup_2 in Hx.
    apply not_true_iff_false. rewrite forallb_forall. intros Hf.
    specialize (Hf x (proj1 (list_elem_of_In _ _) Hx)). unfold b in Hb.
    destruct (conns st !! x); [|done]. by destruct (stale _).
  - apply list_find_None in E. rewrite Forall_forall in E. apply forallb_forall.
    intros x Hx%list_elem_of_In. specialize (E x Hx). unfold b in E.
    destruct (conns st !! x); [|done]. by destruct (stale _).
Qed.

Lemma wp_client_destroy lc cl (Q : unit → state → Prop) st :
  clients st !! lc = Some cl → NoDup (client_conns cl) →
  (∀ cn, cn ∈ client_conns cl → ∃ k, conns st !! cn = Some k ∧ holds_nothing k) →
  Q tt (set_clients (delete lc) (set_conns (drop_conns (client_conns cl)) st)) →
  wp (client_destroy lc) Q st.
Proof.
  intros Hcl Hnd Hall HQ. unfold client_destroy. apply wp_bind. eapply wp_load; [exact Hcl|].
  revert Hnd Hall HQ. generalize (client_conns cl). intros l. revert st Hcl.
  induction l as [|cn l IH]; intros st Hcl Hnd Hall HQ.
  - apply wp_bind, wp_ret. eapply wp_free; [exact Hcl|]. by destruct st.
  - apply NoDup_cons in Hnd as [Hcn Hnd].
    destruct (Hall cn) as (k & Hk & Hk1 & Hk2); [left|].
    apply wp_bind. cbn [mforeach]. apply wp_bind.
    eapply wp_conn_destroy_empty; [exact Hk|done|done|].
    specialize (IH (set_conns (delete cn) st) Hcl Hnd).
    assert (IH' : wp (_ ← mforeach conn_destroy l; free (T := client) lc) Q (set_conns (delete cn) st)).
    { apply IH; [|exact HQ]. intros cn' Hin. destruct (Hall cn') as (k' & Hk' & ?); [by right|].
      exists k'. split; [|done]. simpl. rewrite lookup_delete_ne; [done|]. by intros ->. }
    unfold wp in IH' |- *. rewrite M_bind_eq in IH'.
    by destruct (mforeach conn_destroy l _) as [[[] st']|].
Qed.

(** The last reference. *)
Lemma wp_client_dec_ref_last lc cl (Q : unit → state → Prop) st :
  clients st !! lc = Some cl → client_ref_cnt cl = 1%Z → NoDup (client_conns cl) →
  (∀ cn, cn ∈ client_conns cl → ∃ k, conns st !! cn = Some k ∧ holds_nothing k) →
  Q tt (set_clients (delete lc) (set_conns (drop_conns (client_conns cl)) st)) →
  wp (client_dec_ref lc) Q st.
Proof.
  intros Hcl Hn Hnd Hall HQ. unfold client_dec_ref. apply wp_bind.
  eapply wp_update; [exact Hcl|rewrite Hn; reflexivity|].
  apply wp_bind. eapply wp_read; [apply lookup_insert_eq|reflexivity|]. simpl.
  eapply wp_client_destroy; [apply lookup_insert_eq|exact Hnd|exact Hall|].
  eapply eq_ind; [exact HQ|]. apply state_ext; try reflexivity. simpl. by rewrite delete_insert_eq.
Qed.

Lemma list_del_first_ok cn l : cn ∈ l → NoDup l →
  ∃ l', list_del_first cn l = Ok l' ∧ NoDup l' ∧ ∀ x, x ∈ l' ↔ x ∈ l ∧ x ≠ cn.
Proof.
  induction l as [|y l IH]; intros Hin Hnd; [by apply not_elem_of_nil in Hin|].
  apply NoDup_cons in Hnd as [Hy Hnd]. simpl. destruct (decide (y = cn)) as [->|Hne].
  - exists l. split_and!; [done|done|]. intros x. rewrite elem_of_cons. naive_solver.
  - apply elem_of_cons in Hin as [->|Hin]; [done|].
    destruct (IH Hin Hnd) as (l' & E & Hnd' & Hl'). exists (y :: l'). rewrite E.
    split_and!; [done| |].
    + constructor; [|done]. rewrite Hl'. naive_solver.
    + intros x. rewrite !elem_of_cons, Hl'. naive_solver.
Qed.

(** *** The service itself *)

Definition removed_service (s : service) : service :=
  Service (service_id s) (change_in_progress s) None (current s) (next s) (service_ref_cnt s).

(** When the subscribers are told, the database has let it go. *)
Definition removed_unreferenced (s : service) : service :=
  removed_service (with_ref_cnt (service_ref_cnt s - 1) s).

Lemma service_remove_change_spec s : idle s →
  service_remove_change s = Ok (removed_service s, service_change_type_removed).
Proof.
  intros [H1 H2]. unfold service_remove_change, has_ongoing_change.
  unfold removed_service. rewrite H1, bool_decide_eq_true_2 by done. reflexivity.
Qed.

(** What is left when the service itself is gone. *)
Record retired (st : state) (l : loc) (s : service) (st' : state) : Prop := {
  RT_V : svc_inv st';
  RT_subs : subs st' = subs st;
  RT_conns : conns st' = conns st;
  RT_clients : clients st' = clients st;
  RT_dbc : db_clients st' = db_clients st;
  RT_dbu : db_subs st' = db_subs st;
  RT_services : services st' = delete l (services st);
  RT_dbs : db_services st' = amap_remove (db_services st) (service_id s);
  RT_kept : kept st st';
  RT_out : outputs_after st service_change_type_removed (removed_unreferenced s) st'
}.

Section retire.
Context (st : state) (HV : svc_inv st).
Context (l : loc) (s : service) (Hs : services st !! l = Some s).

Lemma retired_svc_inv st' : services st' = delete l (services st) →
  db_services st' = amap_remove (db_services st) (service_id s) →
  subs st' = subs st → db_subs st' = db_subs st → conns st' = conns st →
  clients st' = clients st → clock st' = clock st → next_loc st' = next_loc st →
  O_inv (services st') (orphans st') (timers st') →
  (∀ t, timers st !! t = None → timers st' !! t = None) → svc_inv st'.
Proof.
  intros E1 E2 E3 E4 E5 E6 E7 E8 HO Ht. pose proof (V_F _ HV) as HF. split.
  - rewrite E1, E2. by apply S_del, Hs; apply HV.
  - done.
  - rewrite E3, E4. apply HV.
  - split; intros l' Hl'; rewrite ?E1, ?E3, ?E5, ?E6; rewrite E8 in Hl'; try by apply HF.
    + rewrite lookup_delete_None. right. by apply HF.
    + by apply Ht, HF.
  - unfold clock_ok. rewrite E7. apply HV.
Qed.

(** One reference is that of the caller, and one that of the database. *)
Lemma wp_retire (Q : unit → state → Prop) :
  (∀ st', retired st l s st' → Q tt st') →
  wp (_ ← db_del_service (service_id s); _ ← service_remove service_changed l;
      service_dec_ref l) Q st.
Proof.
  intros HQ. pose proof (V_S _ HV) as HS. pose proof (V_O _ HV) as HO.
  pose proof (S_ids_inj _ _ HS) as Hinj. pose proof (S_db _ _ HS _ _ Hs) as Hdb.
  destruct (S_ok _ _ HS _ _ Hs) as (Hi & Hid & g & Hg & Hgok).
  pose proof (S_refs _ _ HS _ _ Hs) as Hr. unfold refs_ok in Hr.
  assert (H1 : (1 < service_ref_cnt s)%Z) by (rewrite Hr; by destruct (s_orphan s)).
  unfold db_del_service, map_del_cnted. apply wp_bind, wp_bind.
  eapply wp_lift; [by rewrite bool_decide_eq_true_2|]. apply wp_bind, wp_gets. apply wp_bind.
  eapply wp_lift; [by eapply amap_del_Some|]. apply wp_bind, wp_modify. rewrite Hdb.
  eapply wp_service_dec_ref; [exact Hs|done|]. apply wp_bind.
  eapply wp_service_remove; [apply lookup_insert_eq|by apply service_remove_change_spec|].
  rewrite set_services_insert.
  eapply wp_service_changed; [apply HV|apply lookup_insert_eq| |].
  { simpl. rewrite Hg. apply Hgok. }
  set (s2 := removed_service _). set (st2 := notified _ _ _).
  assert (Hl : services st2 !! l = Some s2) by apply lookup_insert_eq.
  eapply wp_maintain_removed; [exact Hl|]. change (s_was_orphan s2) with (s_orphan s).
  destruct (s_orphan s) eqn:Eo.
  - destruct (O_orphan _ _ _ HO _ _ Hs Eo) as (t & x & Et & Hx & Ex).
    eapply (wp_remove_orphan_timer l s2 t x); [exact Hl|simpl; lia|exact Et|done|done|].
    eapply wp_service_dec_ref_last; [apply lookup_insert_eq|simpl; lia|].
    assert (Hsv : services (set_services (delete l) (without_timer l s2 t st2)) =
                  delete l (services st)) by (simpl; by rewrite !delete_insert_eq).
    apply HQ. split; try done; [|by eapply kept_delete|].
    + apply retired_svc_inv; try done.
      * rewrite Hsv. by eapply (O_stop_del _ _ _ l s).
      * intros t' Ht'. simpl. rewrite lookup_delete_None. by right.
    + eexists. simpl. rewrite <-app_assoc. split; [done|]. by repeat constructor.
  - apply wp_ret. eapply wp_service_dec_ref_last; [exact Hl|simpl; lia|].
    assert (Hsv : services (set_services (delete l) st2) = delete l (services st))
      by (simpl; by rewrite !delete_insert_eq).
    apply HQ. split; try done; [|by apply kept_same|].
    + apply retired_svc_inv; try done. rewrite Hsv. by eapply O_del.
    + exists []. rewrite app_nil_r. split; [done|constructor].
Qed.
End retire.

(** *** A service, its connection and its client *)

Lemma wp_remove_conn lc cl cn k (Q : unit → state → Prop) st :
  clients st !! lc = Some cl → cn ∈ inactive_conns cl → NoDup (inactive_conns cl) →
  conns st !! cn = Some k → holds_nothing k →
  (∀ l', NoDup l' → (∀ x, x ∈ l' ↔ x ∈ inactive_conns cl ∧ x ≠ cn) →
     Q tt (set_conns (delete cn) (set_clients <[lc := client_with_inactive l' cl]> st))) →
  wp (remove_conn lc cn) Q st.
Proof.
  intros Hcl Hin Hnd Hk [Hk1 Hk2] HQ. unfold remove_conn.
  destruct (list_del_first_ok cn _ Hin Hnd) as (l' & E & Hnd' & Hl').
  apply wp_bind. eapply wp_update; [exact Hcl|by rewrite E|].
  eapply wp_conn_destroy_empty; [exact Hk|done|done|]. by apply HQ.
Qed.

Lemma wp_db_del_client lc cl (Q : unit → state → Prop) st :
  clients st !! lc = Some cl → (0 ≤ client_id cl)%Z →
  amap_get (db_clients st) (client_id cl) = Some lc →
  wp (client_dec_ref lc) Q
    (set_db_clients (λ _, amap_remove (db_clients st) (client_id cl)) st) →
  wp (id ← read lc (λ c, Ok (client_id c)); db_del_client id) Q st.
Proof.
  intros Hcl H0 Hdb HQ. apply wp_bind. eapply wp_read; [exact Hcl|reflexivity|].
  unfold db_del_client, map_del_cnted. apply wp_bind.
  eapply wp_lift; [by rewrite bool_decide_eq_true_2|]. apply wp_bind, wp_gets, wp_bind.
  eapply wp_lift; [by eapply amap_del_Some|]. apply wp_bind, wp_modify. by rewrite Hdb.
Qed.

(** Clients change, but not whether they are connected. *)
Lemma connected_update st st' lc cl cl' : clients st !! lc = Some cl →
  db_clients st' = db_clients st → clients st' = <[lc := cl']> (clients st) →
  active_conn cl' = active_conn cl → ∀ c, connected st' c = connected st c.
Proof.
  intros Hcl E1 E2 Ea c. unfold connected, client_at. rewrite E1, E2.
  destruct (amap_get (db_clients st) c) as [lc'|]; [|done]. simpl.
  destruct (decide (lc = lc')) as [<-|Hne].
  - rewrite lookup_insert_eq, Hcl. unfold client_is_connected. by rewrite Ea.
  - by rewrite lookup_insert_ne.
Qed.

Lemma connected_drop st st' lc cl : inv st → clients st !! lc = Some cl →
  db_clients st' = amap_remove (db_clients st) (client_id cl) →
  clients st' = delete lc (clients st) → active_conn cl = None →
  ∀ c, connected st' c = connected st c.
Proof.
  intros H Hcl E1 E2 Ea c. pose proof (I_C _ H) as HC. unfold connected, client_at.
  rewrite E1, E2, amap_get_remove by apply HC. case_decide as Ec.
  - subst. rewrite (C_db _ _ _ HC _ _ Hcl). simpl. rewrite Hcl.
    unfold client_is_connected. by rewrite Ea.
  - destruct (amap_get (db_clients st) c) as [lc'|] eqn:E; [|done]. simpl.
    destruct (C_get _ _ _ HC _ _ E) as (cl' & Hcl' & E'). rewrite lookup_delete_ne; [done|].
    intros ->. congruence.
Qed.

Lemma svc_inv_clients st cns cls : svc_inv st →
  (∀ x, conns st !! x = None → cns !! x = None) →
  (∀ x, clients st !! x = None → cls !! x = None) →
  svc_inv (set_clients (λ _, cls) (set_conns (λ _, cns) st)).
Proof.
  intros HV H1 H2. pose proof (V_F _ HV) as HF. split; try apply HV.
  split; simpl; try apply HF; intros x Hx; [apply H1|apply H2]; by apply HF.
Qed.

Lemma rel_conns_exist sv cns cls dbc sb dbu lc cl cn : rel_inv sv cns cls dbc sb dbu →
  cls !! lc = Some cl → cn ∈ client_conns cl → is_Some (cns !! cn).
Proof.
  intros HL Hcl [Ha|Hi]%elem_client_conns.
  - destruct (C_active _ _ _ (L_C _ _ _ _ _ _ HL) _ _ _ Hcl Ha) as (k & Hk & _). eauto.
  - destruct (C_inactive _ _ _ (L_C _ _ _ _ _ _ HL) _ _ _ Hcl Hi) as (k & Hk & _). eauto.
Qed.

Lemma client_ref_id c n : client_ref_cnt c = n → client_with_ref_cnt n c = c.
Proof. intros <-. by destruct c. Qed.

Section remove.
Context (st : state) (H : inv st).
Context (l : loc) (s : service) (Hs : services st !! l = Some s).
Context (lc : loc) (cl : client) (Hcl : clients st !! lc = Some cl).
Context (Howner : client_id cl = s_client s).
Context (cn : loc) (k : conn) (Hk : conns st !! cn = Some k) (Hkc : conn_client k = lc).
Context (Hg : amap_get (conn_services k) (service_id s) = Some l).

Definition k_left : conn := conn_with_services (amap_remove (conn_services k) (service_id s)) k.

(** The client with the connection [cn] gone if it is stale. *)
Definition left_conns : gmap loc conn :=
  if stale k_left then delete cn (conns st) else <[cn := k_left]> (conns st).

Definition left_client (l' : list loc) : client :=
  if stale k_left then client_with_inactive l' cl else cl.

Definition left_ok (l' : list loc) : Prop :=
  NoDup l' ∧ ∀ x, x ∈ l' ↔ x ∈ inactive_conns cl ∧ x ≠ cn.

Lemma rel_left sv : H_inv sv (<[cn := k_left]> (conns st)) (client_ids (clients st)) →
  ∀ l', left_ok l' →
  rel_inv sv left_conns (<[lc := left_client l']> (clients st)) (db_clients st)
    (subs st) (db_subs st).
Proof.
  intros HH l' [Hnd Hl'].
  assert (HL : rel_inv sv (<[cn := k_left]> (conns st)) (clients st) (db_clients st)
                 (subs st) (db_subs st)).
  { split; [|done|].
    - eapply C_same; [apply H|exact Hk|done..].
    - eapply U_conn; [apply H|exact Hk|done..]. }
  unfold left_conns, left_client. destruct (stale k_left) eqn:Est; [|by rewrite (insert_id (clients st))].
  unfold stale in Est. apply andb_true_iff in Est as [Ed%negb_true_iff En].
  apply bool_decide_eq_true_1 in En.
  rewrite <-(delete_insert_eq (conns st) cn k_left).
  apply (rel_drop_conn _ _ _ _ _ _ HL lc cl Hcl cn k_left);
    [|apply lookup_insert_eq| |done|done].
  - destruct (C_conn _ _ _ (I_C _ H) _ _ Hk) as (cl0 & Hcl0 & Hin0). rewrite Hkc in Hcl0.
    simplify_eq. apply elem_client_conns in Hin0 as [Ha|]; [|done].
    destruct (C_active _ _ _ (I_C _ H) _ _ _ Hcl Ha) as (k1 & Hk1 & _ & Ed1). simplify_eq.
    unfold k_left, conn_is_connected in Ed, Ed1. simpl in Ed. congruence.
  - by destruct (conn_services k_left).
Qed.

(** The state in which [remove_service] looks at the connection. *)
Definition unheld : state :=
  State (services st) (subs st) (<[cn := k_left]> (conns st))
    (<[lc := client_with_ref_cnt 2 cl]> (clients st)) (timers st) (db_clients st)
    (db_services st) (db_subs st) (orphans st) (next_loc st) (clock st) (tick st) (outputs st).

(** The state in which it looks at the service. *)
Definition released (l' : list loc) (gone : bool) : state :=
  State (services st) (subs st) left_conns
    (<[lc := client_with_ref_cnt (if gone then 1 else 2) (left_client l')]> (clients st))
    (timers st)
    (if gone then amap_remove (db_clients st) (client_id cl) else db_clients st)
    (db_services st) (db_subs st) (orphans st) (next_loc st) (clock st) (tick st) (outputs st).

Lemma wp_release_conn (Q : unit → state → Prop) :
  (∀ l', left_ok l' → Q tt (released l' false)) →
  wp (if stale k_left then remove_conn lc cn else mret tt) Q unheld.
Proof.
  intros HQ. destruct (C_ok _ _ _ (I_C _ H) _ _ Hcl) as (_ & _ & Hnd).
  assert (Hex : ∃ l', left_ok l').
  { exists (filter (λ x, x ≠ cn) (inactive_conns cl)). split.
    - by apply NoDup_filter.
    - intros x. rewrite list_elem_of_filter. naive_solver. }
  destruct (stale k_left) eqn:Est.
  - pose proof Est as Est'. unfold stale in Est'.
    apply andb_true_iff in Est' as [Ed%negb_true_iff En]. apply bool_decide_eq_true_1 in En.
    destruct (C_conn _ _ _ (I_C _ H) _ _ Hk) as (cl0 & Hcl0 & Hin0). rewrite Hkc in Hcl0.
    simplify_eq. apply elem_client_conns in Hin0 as [Ha|Hi].
    { destruct (C_active _ _ _ (I_C _ H) _ _ _ Hcl Ha) as (k1 & Hk1 & _ & Ed1). simplify_eq.
      unfold k_left, conn_is_connected in Ed, Ed1. simpl in Ed. congruence. }
    destruct (C_inactive _ _ _ (I_C _ H) _ _ _ Hcl Hi) as (k1 & Hk1 & _ & _ & Es). simplify_eq.
    eapply wp_remove_conn; [apply lookup_insert_eq|exact Hi|exact Hnd|apply lookup_insert_eq| |].
    { split; [by destruct (conn_services k_left)|exact Es]. }
    intros l' Hnd' Hl'. refine (eq_ind _ (Q tt) (HQ l' (conj Hnd' Hl')) _ _).
    unfold released, left_conns, left_client. rewrite Est.
    apply state_ext; try reflexivity; simpl.
    + by rewrite delete_insert_eq.
    + by rewrite insert_insert_eq.
  - destruct Hex as [l' Hl']. apply wp_ret.
    refine (eq_ind _ (Q tt) (HQ l' Hl') _ _).
    unfold released, left_conns, left_client. by rewrite Est.
Qed.

Lemma rel_released l' : left_ok l' →
  rel_inv (delete l (services st)) left_conns (<[lc := left_client l']> (clients st))
    (db_clients st) (subs st) (db_subs st).
Proof.
  apply rel_left. by apply H_del; [apply H|eapply S_ids_inj, H|..].
Qed.

Lemma left_conns_None x : conns st !! x = None → left_conns !! x = None.
Proof.
  intros Hx. unfold left_conns. destruct (stale k_left).
  - rewrite lookup_delete_None. by right.
  - rewrite lookup_insert_ne; [done|]. intros ->. congruence.
Qed.

Lemma insert_client_None x cl' : clients st !! x = None → <[lc := cl']> (clients st) !! x = None.
Proof. intros Hx. rewrite lookup_insert_ne; [done|]. intros ->. congruence. Qed.

Lemma left_client_id l' : client_id (left_client l') = client_id cl.
Proof. unfold left_client. by destruct (stale _). Qed.

Lemma left_client_ref l' : client_ref_cnt cl = 1%Z →
  client_with_ref_cnt 1 (left_client l') = left_client l'.
Proof. intros E. unfold left_client. by destruct (stale _); apply client_ref_id. Qed.

Lemma left_client_active l' : active_conn (left_client l') = active_conn cl.
Proof. unfold left_client. by destruct (stale _). Qed.

Lemma svc_inv_released l' gone : svc_inv (released l' gone).
Proof.
  pose proof (svc_inv_clients st left_conns (clients (released l' gone)) (inv_svc _ H)
    left_conns_None (λ x, insert_client_None x _)) as HV.
  split; [apply HV..| |apply HV]. split; apply (V_F _ HV).
Qed.

Lemma wp_release_client l' (Q : unit → state → Prop) : left_ok l' →
  let gone := client_stale left_conns (left_client l') in
  Q tt (released l' gone) →
  wp (client_stale ← client_is_stale lc;
      if (client_stale : bool)
      then my_id ← read lc (λ c, Ok (client_id c)); db_del_client my_id
      else mret tt) Q (released l' false).
Proof.
  intros Hl' gone HQ. pose proof (rel_released l' Hl') as HL.
  destruct (C_ok _ _ _ (I_C _ H) _ _ Hcl) as (H0 & _).
  apply wp_bind. eapply wp_client_is_stale; [apply lookup_insert_eq| |].
  { intros cn' Hin. eapply (rel_conns_exist _ _ _ _ _ _ lc (left_client l') cn' HL);
      [apply lookup_insert_eq|done]. }
  change (client_stale _ _) with gone. destruct gone; [|by apply wp_ret].
  eapply wp_db_del_client; [apply lookup_insert_eq| | |].
  - cbn [client_with_ref_cnt client_id]. by rewrite left_client_id.
  - cbn [client_with_ref_cnt client_id]. rewrite left_client_id. by apply (C_db _ _ _ (I_C _ H)).
  - eapply wp_client_dec_ref; [apply lookup_insert_eq|done|].
    refine (eq_ind _ (Q tt) HQ _ _). apply state_ext; try reflexivity; simpl.
    + by rewrite insert_insert_eq.
    + by rewrite left_client_id.
Qed.
End remove.

Lemma wp_assoc_if {A} (m : M state bool) (f g : M state unit) (k : M state A) Q st1 :
  wp (b ← m; if (b : bool) then f else g) (λ _ st', wp k Q st') st1 →
  wp (b ← m; _ ← (if (b : bool) then f else g); k) Q st1.
Proof.
  unfold wp. rewrite !M_bind_eq. destruct (m st1) as [[b st2]|]; [|done].
  rewrite M_bind_eq. destruct b; [destruct (f st2) as [[[] st3]|]|destruct (g st2) as [[[] st3]|]]; done.
Qed.

Section remove_service.
Context (st : state) (H : inv st).
Context (l : loc) (s : service) (Hs : services st !! l = Some s).
Context (lc : loc) (cl : client) (Hcl : clients st !! lc = Some cl).
Context (Howner : client_id cl = s_client s).

(** What is left when the service is gone. *)
Lemma changed_removed st2 st' : inv st' →
  subs st2 = subs st → db_subs st2 = db_subs st → outputs st2 = outputs st →
  subs st' = subs st → db_subs st' = db_subs st → (∀ c, connected st' c = connected st c) →
  services st' = delete l (services st) →
  db_services st' = amap_remove (db_services st) (service_id s) →
  kept st st' →
  outputs_after st2 service_change_type_removed (removed_unreferenced s) st' →
  (∀ c i, held st' c i = if decide (i = service_id s) then false else held st c i) →
  changed st (service_id s) None st'.
Proof.
  intros H' E1 E2 E3 E4 E5 E6 E7 E8 E9 Hout Hheld. pose proof (I_S _ H) as HS.
  pose proof (S_db _ _ HS _ _ Hs) as Hdb. split; try done.
  - unfold gen_at, svc_at. rewrite E8, amap_get_remove by apply HS. by rewrite decide_True.
  - intros id' Hne. unfold svc_at. rewrite E8, amap_get_remove by apply HS.
    rewrite decide_False by done.
    destruct (amap_get (db_services st) id') as [l'|] eqn:E; [|done]. simpl.
    rewrite E7, lookup_delete_ne; [done|]. intros <-.
    destruct (S_get _ _ HS _ _ E) as (s0 & Hs0 & E0). congruence.
  - rewrite (outputs_after_reported _ _ _ _ Hout). unfold reports. rewrite E3. f_equal.
    rewrite notifications_reported. unfold reported, gen_at, svc_at. rewrite Hdb, E1, E2. simpl.
    rewrite Hs. apply omap_ext_eq. intros [i x]. simpl. destruct (subs st !! x) as [s0|]; [|done]. simpl.
    by destruct (sees s0 _).
Qed.

(** The last step: the reference of [remove_service] to the client. *)
Section forget.
Context (cn : loc) (k : conn) (Hk : conns st !! cn = Some k) (Hkc : conn_client k = lc).
Context (Hg : amap_get (conn_services k) (service_id s) = Some l).
Context (l' : list loc) (Hl' : left_ok cl cn l').

Lemma left_conns_inv x kx : left_conns st s cn k !! x = Some kx →
  ∃ k0, conns st !! x = Some k0 ∧ conn_is_connected kx = conn_is_connected k0 ∧
    conn_client kx = conn_client k0 ∧
    ∀ i, amap_has (conn_services kx) i = true → amap_has (conn_services k0) i = true ∧ i ≠ service_id s.
Proof.
  pose proof (I_H _ H) as HH. assert (Hnd : NoDup (amap_keys (conn_services k))) by (by eapply HH).
  assert (Hcn : ∀ i, amap_has (conn_services (k_left s k)) i = true →
    amap_has (conn_services k) i = true ∧ i ≠ service_id s).
  { intros i Hi. apply amap_has_get in Hi as [v Hv]. simpl in Hv. rewrite amap_get_remove in Hv by done.
    case_decide; [done|]. split; [|congruence]. apply amap_has_get. eauto. }
  assert (Hother : x ≠ cn → conns st !! x = Some kx → ∃ k0, conns st !! x = Some k0 ∧
    conn_is_connected kx = conn_is_connected k0 ∧ conn_client kx = conn_client k0 ∧
    ∀ i, amap_has (conn_services kx) i = true → amap_has (conn_services k0) i = true ∧ i ≠ service_id s).
  { intros Hne Hkx. exists kx. split_and!; [done..|]. intros i Hi. split; [done|]. intros ->.
    apply amap_has_get in Hi as [v Hv]. apply Hne. eapply (H_uniq _ _ _ HH); eexists; done. }
  unfold left_conns. destruct (stale _).
  - intros [Hne Hkx]%lookup_delete_Some. by apply Hother.
  - intros [[<- <-]|[Hne Hkx]]%lookup_insert_Some; [|by apply Hother]. exists k. by split_and!.
Qed.

Lemma left_conns_kept x k0 i : conns st !! x = Some k0 → amap_has (conn_services k0) i = true →
  i ≠ service_id s → ∃ kx, left_conns st s cn k !! x = Some kx ∧
    conn_is_connected kx = conn_is_connected k0 ∧ conn_client kx = conn_client k0 ∧
    amap_has (conn_services kx) i = true.
Proof.
  intros Hx Hi Hne. assert (Hnd : NoDup (amap_keys (conn_services k))) by (by eapply I_H).
  destruct (decide (x = cn)) as [->|Hx'].
  - simplify_eq. assert (Hl : amap_has (conn_services (k_left s k)) i = true).
    { unfold amap_has in *. simpl. by rewrite amap_get_remove, decide_False by done. }
    exists (k_left s k). split_and!; [|done..]. unfold left_conns. destruct (stale _) eqn:E.
    + exfalso. unfold stale in E. apply andb_true_iff in E as [_ E%bool_decide_eq_true_1].
      destruct (conn_services (k_left s k)); [done|]. simpl in E. lia.
    + by rewrite lookup_insert_eq.
  - exists k0. split_and!; [|done..]. unfold left_conns. destruct (stale _).
    + by rewrite lookup_delete_ne.
    + by rewrite lookup_insert_ne.
Qed.

(** What the connections hold, the service being gone from its own and the
    empty ones dropped. *)
Lemma held_removed st' c i : inv st' →
  (∀ x kx, conns st' !! x = Some kx → left_conns st s cn k !! x = Some kx ∧
     client_ids (clients st') !! conn_client kx = client_ids (clients st) !! conn_client kx) →
  (∀ x kx, left_conns st s cn k !! x = Some kx → conns st' !! x = Some kx ∨ conn_services kx = []) →
  held st' c i = if decide (i = service_id s) then false else held st c i.
Proof.
  intros H' H1 H2. apply eq_true_iff_eq. rewrite held_iff by done.
  split; [intros (x & kx & Hkx & Ed & Ec & Hi)|].
  - destruct (H1 _ _ Hkx) as [Hl Eid]. rewrite Eid in Ec.
    destruct (left_conns_inv _ _ Hl) as (k0 & Hk0 & E1 & E2 & Hall). destruct (Hall _ Hi) as [Hi0 Hne].
    rewrite decide_False by done. apply held_iff; [done|]. exists x, k0. split_and!; congruence.
  - case_decide as Ei; [done|]. rewrite held_iff by done. intros (x & k0 & Hk0 & Ed & Ec & Hi).
    destruct (left_conns_kept _ _ _ Hk0 Hi Ei) as (kx & Hl & E1 & E2 & Hikx).
    destruct (H2 _ _ Hl) as [Hkx|E]; [|by rewrite E in Hikx].
    exists x, kx. split_and!; [done|congruence| |done]. rewrite (proj2 (H1 _ _ Hkx)). congruence.
Qed.

Definition gone : bool := client_stale (left_conns st s cn k) (left_client s cl k l').

Definition before_retire : state := released st s lc cl cn k l' gone.

Lemma wp_forget_client st' (Q : unit → state → Prop) :
  retired before_retire l s st' →
  (∀ st'', changed st (service_id s) None st'' → services st'' = delete l (services st) → Q tt st'') →
  wp (client_dec_ref lc) Q st'.
Proof.
  intros R HQ. pose proof (rel_released st H l s Hs lc cl Hcl cn k Hk Hkc Hg l' Hl') as HL.
  destruct (C_ok _ _ _ (I_C _ H) _ _ Hcl) as (_ & Hcr & _).
  pose proof (RT_V _ _ _ _ R) as HV3.
  destruct R as [_ E1 E2 E3 E4 E5 E6 E7 E8 Hout].
  unfold before_retire in *. set (cl1 := left_client s cl k l') in *.
  assert (Hcl1 : <[lc := cl1]> (clients st) !! lc = Some cl1) by apply lookup_insert_eq.
  destruct gone eqn:Egone.
  - pose proof (client_stale_nothing _ _ _ _ _ _ HL _ _ Hcl1 Egone) as Hnothing.
    eapply wp_client_dec_ref_last; [rewrite E3; apply lookup_insert_eq|done| | |].
    + exact (client_conns_nodup _ _ _ _ _ _ HL _ _ Hcl1).
    + rewrite E2. exact Hnothing.
    + pose proof (rel_drop_client _ _ _ _ _ _ HL _ _ Hcl1 Hnothing) as HL'.
      rewrite delete_insert_eq in HL'. unfold cl1 in HL' at 2. rewrite left_client_id in HL'.
      set (st4 := set_clients _ _).
      assert (Ecl : clients st4 = delete lc (clients st))
        by (simpl; rewrite E3; simpl; by rewrite delete_insert_eq).
      assert (H4 : inv st4).
      { apply rel_svc_inv.
        - apply (svc_inv_clients st'); [done|..]; intros x Hx.
          + destruct (decide (x ∈ client_conns cl1)); [by apply drop_conns_in|].
            by rewrite drop_conns_notin.
          + rewrite lookup_delete_None. by right.
        - rewrite Ecl. simpl. by rewrite E2, E4, E1, E5, E6. }
      apply HQ; [|done]. apply (changed_removed before_retire); unfold before_retire; try done.
      * eapply connected_drop; [done|exact Hcl|done|done|].
        rewrite <-(left_client_active s cl k l').
        exact (client_stale_inactive _ _ _ _ _ _ HL _ _ Hcl1 Egone).
      * intros c i. apply held_removed; [done| |]; simpl; rewrite E2; intros x kx Hkx.
        -- destruct (C_conn _ _ _ (I_C _ H4) x kx) as (cl2 & Hcl2 & _); [simpl; by rewrite E2|].
           split.
           ++ destruct (decide (x ∈ client_conns cl1)); [by rewrite drop_conns_in in Hkx|].
              by rewrite drop_conns_notin in Hkx.
           ++ change (client_ids (clients st4) !! conn_client kx = client_ids (clients st) !! conn_client kx).
              rewrite Ecl in Hcl2 |- *. apply lookup_delete_Some in Hcl2 as [Hne Hcl2].
              unfold client_ids. by rewrite !lookup_fmap, lookup_delete_ne.
        -- destruct (decide (x ∈ client_conns cl1)) as [Hin|]; [right|left; by rewrite drop_conns_notin].
           destruct (Hnothing _ Hin) as (k2 & Hk2 & Hn & _). simpl in Hk2. rewrite Hkx in Hk2. by simplify_eq.
  - eapply wp_client_dec_ref; [rewrite E3; apply lookup_insert_eq|done|].
    set (st4 := set_clients _ _).
    assert (Ecl : clients st4 = <[lc := cl1]> (clients st)).
    { simpl. rewrite E3. simpl. rewrite insert_insert_eq. f_equal. by apply left_client_ref. }
    assert (H4 : inv st4).
    { apply rel_svc_inv.
      - apply (svc_inv_clients st' (conns st')); [done|done|]. intros x Hx.
        rewrite E3 in Hx |- *. simpl in *. apply lookup_insert_None in Hx as [Hx Hne].
        by rewrite !lookup_insert_ne.
      - rewrite Ecl. simpl. by rewrite E2, E4, E1, E5, E6. }
    apply HQ; [|done]. apply (changed_removed before_retire); unfold before_retire; try done.
    + eapply connected_update; [exact Hcl|done|done|]. apply left_client_active.
    + intros c i. apply held_removed; [done| |].
      * intros x kx. change (conns st4) with (conns st'). rewrite E2. intros Hkx. split; [done|].
        rewrite Ecl. by rewrite (client_ids_update _ _ cl) by (done || apply left_client_id).
      * intros x kx. change (conns st4) with (conns st'). rewrite E2. by left.
Qed.
End forget.

Lemma wp_remove_service (Q : unit → state → Prop) :
  (∀ st', changed st (service_id s) None st' → services st' = delete l (services st) → Q tt st') →
  wp (remove_service service_changed lc (service_id s)) Q st.
Proof.
  intros HQ. pose proof (I_S _ H) as HS.
  destruct (owner_facts st l s H Hs) as (lv & cv & cn & k & Edb & Hcv & Eid & Hin & Hk & Ek & Hg).
  rewrite <-Howner, (C_db _ _ _ (I_C _ H) _ _ Hcl) in Edb. injection Edb as <-.
  assert (cv = cl) as -> by congruence.
  pose proof (S_refs _ _ HS _ _ Hs) as Hr. unfold refs_ok in Hr.
  assert (H1 : (1 < service_ref_cnt s)%Z) by (rewrite Hr; by destruct (s_orphan s)).
  destruct (C_ok _ _ _ (I_C _ H) _ _ Hcl) as (_ & Hcr & _).
  unfold remove_service. apply wp_bind, wp_gets. rewrite (S_db _ _ HS _ _ Hs).
  apply wp_bind. eapply wp_get_service_conn; [exact Hcl| |exact Hin|by exists k| |].
  { intros cn' Hin'. destruct (client_conns_exist _ _ _ _ H Hcl Hin') as (k' & ? & _). eauto. }
  { intros cn' l' Hh. eapply (H_uniq _ _ _ (I_H _ H)); [exact Hh|by exists k]. }
  apply wp_bind. eapply wp_lift; [done|]. apply wp_bind.
  eapply wp_service_inc_ref; [exact Hs|lia|]. apply wp_bind.
  eapply wp_client_inc_ref; [exact Hcl|lia|]. apply wp_bind. eapply wp_lift; [done|].
  apply wp_bind. eapply wp_conn_del_service; [exact Hk|exact Hg|apply lookup_insert_eq|simpl; lia|].
  set (st1 := set_services _ _).
  assert (Est1 : st1 = unheld st s lc cl cn k).
  { apply state_ext; try reflexivity; simpl.
    - rewrite insert_insert_eq. apply insert_id. rewrite Hs. f_equal.
      destruct s; unfold with_ref_cnt; simpl. f_equal. lia.
    - by rewrite Hcr. }
  rewrite Est1. clear st1 Est1.
  apply wp_bind. eapply wp_conn_is_stale; [apply lookup_insert_eq|]. apply wp_bind.
  eapply (wp_release_conn st H s _ cl Hcl cn k Hk Ek). intros l' Hl'. apply wp_assoc_if.
  eapply (wp_release_client st H l s Hs _ cl Hcl cn k Hk Ek Hg l' _ Hl').
  assert (HV2 : svc_inv (before_retire cn k l')) by (by eapply svc_inv_released).
  apply wp_seq3, (wp_retire _ HV2 l s Hs). intros st3 R.
  by eapply (wp_forget_client cn k Hk Ek Hg l' Hl').
Qed.
End remove_service.

(** ** One service changes several times *)

Fixpoint told_all (st : state) (id : Z) (before : option generation)
    (gs : list (option generation)) : list (loc * Z * sub_match_type * Z) :=
  match gs with
  | [] => []
  | g :: gs' => told st id before g ++ told_all st id g gs'
  end.

Fixpoint reported_all (st : state) (id : Z) (before : option generation)
    (gs : list (option generation)) : list report :=
  match gs with
  | [] => []
  | g :: gs' => reported st id before g ++ reported_all st id g gs'
  end.

Lemma reported_told_all st id gs : ∀ g, (reported_all st id g gs).*1 = told_all st id g gs.
Proof.
  induction gs as [|g' gs IH]; intros g; [done|]. cbn [reported_all told_all].
  by rewrite fmap_app, reported_told, IH.
Qed.

Fixpoint last_gen (before : option generation) (gs : list (option generation))
    : option generation :=
  match gs with [] => before | g :: gs' => last_gen g gs' end.

Fixpoint holder_all (before : option generation) (gs : list (option generation)) (h : bool) (c : Z) : bool :=
  match gs with
  | [] => h
  | g :: gs' => holder_all g gs' (holder_after before g h c) c
  end.

Record changes (st : state) (id : Z) (gs : list (option generation)) (st' : state) : Prop := {
  GS_inv : inv st';
  GS_gen : gen_at st' id = last_gen (gen_at st id) gs;
  GS_other : ∀ id', id' ≠ id → svc_at st' id' = svc_at st id';
  GS_reported : reports st' = reports st ++ reported_all st id (gen_at st id) gs;
  GS_subs : subs st' = subs st;
  GS_dbu : db_subs st' = db_subs st;
  GS_connected : ∀ c, connected st' c = connected st c;
  GS_held : ∀ c i, held st' c i =
    if decide (i = id) then holder_all (gen_at st id) gs (held st c id) c else held st c i;
  GS_kept : kept st st'
}.

Lemma GS_told st id gs st' : changes st id gs st' →
  match_calls st' = match_calls st ++ told_all st id (gen_at st id) gs.
Proof. intros C. rewrite <-reported_told_all. apply calls_appended, C. Qed.

Lemma changes_one st id g st' : changed st id g st' → changes st id [g] st'.
Proof. intros []. split; try done. simpl. by rewrite app_nil_r. Qed.

Lemma told_same st st' id g g' : subs st' = subs st → db_subs st' = db_subs st →
  told st' id g g' = told st id g g'.
Proof. intros E1 E2. unfold told. by rewrite E1, E2. Qed.

Lemma reported_same st st' id g g' : subs st' = subs st → db_subs st' = db_subs st →
  reported st' id g g' = reported st id g g'.
Proof. intros E1 E2. unfold reported. by rewrite E1, E2. Qed.

Lemma changes_two st id g g' st1 st2 : changed st id g st1 → changed st1 id g' st2 →
  changes st id [g; g'] st2.
Proof.
  intros G1 G2. split.
  - apply G2.
  - apply G2.
  - intros id' Hne. by rewrite (G_other _ _ _ _ G2), (G_other _ _ _ _ G1).
  - simpl. rewrite (G_reported _ _ _ _ G2), (G_reported _ _ _ _ G1), (G_gen _ _ _ _ G1), app_nil_r,
      <-app_assoc. do 2 f_equal. apply reported_same; apply G1.
  - by rewrite (G_subs _ _ _ _ G2), (G_subs _ _ _ _ G1).
  - by rewrite (G_dbu _ _ _ _ G2), (G_dbu _ _ _ _ G1).
  - intros c. by rewrite (G_connected _ _ _ _ G2), (G_connected _ _ _ _ G1).
  - intros c i. rewrite (G_held _ _ _ _ G2), !(G_held _ _ _ _ G1), (G_gen _ _ _ _ G1). simpl.
    case_decide; [by rewrite decide_True|done].
  - eapply kept_trans; [apply G1|apply G2].
Qed.

(** ** Unpublishing *)

(** The generations of a service that [c] unpublishes: first it is taken over,
    unless [c] is its owner and it is no orphan. *)
Definition unpublished (g : generation) (c : Z) : list (option generation) :=
  if bool_decide (gen_client_id g = c) && negb (gen_orphan (Some g)) then [None]
  else [Some (Generation (gen_generation g) (gen_props g) (gen_ttl g) (d_of_Z (-1)) c); None].

Section unpublish.
Context (st : state) (c : Z) (lc : loc) (cl : client) (a : loc) (ka : conn).
Context (HA : active_client st c lc cl a ka) (H : inv st).

Lemma wp_remove_current st1 id g (Q : unit → state → Prop) :
  inv st1 → clients st1 = clients st → gen_at st1 id = Some g → gen_client_id g = c →
  (∀ st', changed st1 id None st' → Q tt st') →
  wp (remove_service service_changed lc id) Q st1.
Proof.
  intros H1 Ecl Hg Hc HQ. unfold gen_at in Hg.
  destruct (svc_at st1 id) as [s|] eqn:Es; [|done]. simpl in Hg.
  destruct (svc_at_spec _ _ _ H1 Es) as (l & _ & Hl & <-).
  apply (wp_remove_service st1 H1 l s Hl lc cl).
  - rewrite Ecl. apply HA.
  - rewrite (A_id _ _ _ _ _ _ HA). unfold s_client. by rewrite Hg.
  - intros st' Hch _. by apply HQ.
Qed.

Lemma wp_unpublish id (Q : Z → state → Prop) :
  (gen_at st id = None → Q SD_ERR_NO_SUCH_SERVICE st) →
  (∀ g st', gen_at st id = Some g → changes st id (unpublished g c) st' → Q 0%Z st') →
  wp (sd_unpublish c id) Q st.
Proof.
  intros HQ1 HQ2. apply (wp_with_client st c lc cl a ka HA). unfold client_unpublish.
  apply wp_bind, (wp_assert_connected st c lc cl a ka HA), wp_bind,
    (wp_client_id st c lc cl a ka HA), wp_bind, wp_gets.
  destruct (svc_at st id) as [s|] eqn:Es.
  2: { rewrite (svc_at_None _ _ H Es). apply wp_ret, HQ1. unfold gen_at. by rewrite Es. }
  destruct (svc_at_spec st id s H Es) as (l & Hdb & Hs & Eid). rewrite Hdb.
  destruct (S_ok _ _ (I_S _ H) _ _ Hs) as (Hi & _ & g & Hg & Hgok).
  assert (Egen : gen_at st id = Some g) by (unfold gen_at; by rewrite Es).
  assert (Ecl : s_client s = gen_client_id g) by (unfold s_client; by rewrite Hg).
  assert (Eor : s_orphan s = gen_orphan (Some g)) by (unfold s_orphan; by rewrite Hg).
  specialize (HQ2 g). unfold unpublished in HQ2. rewrite <-Ecl, <-Eor in HQ2.
  apply wp_bind. eapply (wp_read _ _ _ (s_client s)); [exact Hs| |].
  { unfold service_get_client_id, service_get, s_client. by rewrite Hg. }
  cbn zeta. apply wp_bind.
  eapply wp_read; [exact Hs|apply service_is_orphan_eq; congruence|].
  assert (Eb : bool_decide (c ≠ s_client s) = bool_decide (s_client s ≠ c))
    by (apply bool_decide_ext; split; congruence).
  rewrite Eb. pose proof (gen_same_ok g c Hgok (active_id_nonneg st c lc cl a ka HA H)) as Hok'.
  set (g' := Generation (gen_generation g) (gen_props g) (gen_ttl g) (d_of_Z (-1)) c) in *.
  destruct (bool_decide (s_client s ≠ c) || s_orphan s) eqn:Ecase.
  - assert (E2 : bool_decide (s_client s = c) && negb (s_orphan s) = false).
    { rewrite bool_decide_not in Ecase. by destruct (bool_decide (s_client s = c)), (s_orphan s). }
    rewrite E2 in HQ2. clear E2. apply wp_bind.
    set (b1 := bool_decide (s_client s ≠ c)) in *. set (b2 := s_orphan s) in *.
    eapply (wp_take_over (A := unit) st c lc cl a ka HA H l s g g' _ _ tt);
      [done|done|done|done|done| | |].
    + shelve.
    + intros Q' st1 H1. apply wp_update_seq, wp_update_if, wp_update_if.
      eapply wp_mono; [exact H1|]. by intros [] st'.
    + intros st1 Hch Ec1 Ec2. rewrite Eid in Hch. apply wp_bind.
      apply (wp_remove_current st1 id g'); [apply Hch|done|apply Hch|done|].
      intros st' Hch'. apply wp_ret, HQ2; [done|]. by eapply changes_two.
  - apply wp_bind, wp_ret. assert (Ec : s_client s = c).
    { rewrite bool_decide_not in Ecase. apply orb_false_iff in Ecase as [Ec _].
      by apply negb_false_iff, bool_decide_eq_true_1 in Ec. }
    rewrite bool_decide_eq_true_2 in HQ2 by done. apply orb_false_iff in Ecase as [_ Eo].
    rewrite Eo in HQ2. apply wp_bind. apply (wp_remove_current st id g); [done|done|done|congruence|].
    intros st' Hch. apply wp_ret, HQ2; [done|]. by apply changes_one.
  Unshelve. cbn beta. rewrite (modify_begin_ok s g) by done.
  destruct b1 eqn:E1, b2 eqn:E2; try done; try run_setters.
  unfold b1 in E1. rewrite bool_decide_not in E1.
  apply negb_false_iff, bool_decide_eq_true_1 in E1.
  cbn -[d_of_Z]. unfold g'. by rewrite <-E1, Ecl.
Qed.
End unpublish.

(** ** Orphans time out *)

(** The service that a timer is for. *)
Definition timer_for (st : state) (t : loc) (s : service) : Prop :=
  ∃ x, timers st !! t = Some x ∧ services st !! timer_service x = Some s.

Definition fired (t : loc) (x : orphan_timer) (st : state) : state :=
  set_timers <[t := timer_with_pending None x]> st.

Lemma inv_fired st t x : inv st → timers st !! t = Some x → inv (fired t x st).
Proof.
  intros H Hx. pose proof (I_F _ H) as HF. split; try apply H.
  - by eapply O_timer; [apply H|exact Hx|].
  - split; try apply HF. intros l Hl. simpl. rewrite lookup_insert_ne; [by apply HF|].
    intros ->. by rewrite (F_timers _ HF) in Hx.
Qed.

Lemma changed_fired st t x id s st' : inv st → timers st !! t = Some x →
  changed (fired t x st) id None st' → services st' = delete (timer_service x) (services st) →
  services st !! timer_service x = Some s → changed st id None st'.
Proof.
  intros H Hx G Hsv Hs. destruct (G_kept _ _ _ _ G) as [K N].
  split; try apply G. split; [|exact N]. intros t' y Hy.
  destruct (K _ _ Hy) as [Hy'|]; [|by right].
  unfold fired in Hy'. simpl in Hy'.
  apply lookup_insert_Some in Hy' as [[<- <-]|[_ Hy']]; [|by left]. exfalso.
  destruct (O_all _ _ _ (I_O _ (G_inv _ _ _ _ G)) _ _ Hy) as [id' Hid'].
  destruct (O_get _ _ _ (I_O _ (G_inv _ _ _ _ G)) _ _ Hid') as (z & s' & Hz & Hs' & _).
  rewrite Hy in Hz. simplify_eq. simpl in Hs'. by rewrite Hsv, lookup_delete_eq in Hs'.
Qed.

Lemma timer_for_orphan st t s : inv st → timer_for st t s → s_orphan s = true.
Proof.
  intros H (x & Hx & Hs). destruct (O_all _ _ _ (I_O _ H) _ _ Hx) as [id Hid].
  destruct (O_get _ _ _ (I_O _ H) _ _ Hid) as (y & s' & Hy & Hs' & _ & Ho). congruence.
Qed.

Lemma wp_timeout st t s (Q : unit → state → Prop) :
  inv st → timer_for st t s → connected st (s_client s) = false →
  (∀ st', changed st (service_id s) None st' → Q tt st') →
  wp (orphan_timeout_cb t) Q st.
Proof.
  intros H (x & Hx & Hs) Hdis HQ. pose proof (inv_fired _ _ _ H Hx) as H1.
  destruct (owner_facts st _ s H Hs) as (lc & cl & cn & k & Edb & Hcl & Eid & Hin & Hk & Ek & Hg).
  destruct (S_ok _ _ (I_S _ H) _ _ Hs) as (Hi & _ & g & Hcur & Hgok).
  assert (Ha : client_is_connected cl = false).
  { unfold connected, client_at in Hdis. rewrite Edb in Hdis. simpl in Hdis.
    by rewrite Hcl in Hdis. }
  assert (Hown : service_get_client_id s = Ok (s_client s)).
  { unfold service_get_client_id, service_get, s_client. by rewrite Hcur. }
  unfold orphan_timeout_cb. apply wp_bind. eapply wp_update; [exact Hx|reflexivity|].
  apply wp_bind. eapply wp_read; [apply lookup_insert_eq|reflexivity|].
  unfold purge_orphan. apply wp_bind. eapply wp_read; [exact Hs|exact Hown|].
  apply wp_bind, wp_gets. apply wp_bind. eapply wp_read; [exact Hs|reflexivity|].
  apply wp_bind. eapply (wp_lift _ lc); [simpl; by rewrite Edb|]. unfold client_purge_orphan.
  apply wp_bind. eapply wp_load; [exact Hcl|]. apply wp_bind.
  eapply wp_lift; [by rewrite Ha|]. apply wp_bind, wp_gets, wp_bind.
  eapply (wp_lift _ (timer_service x)); [simpl; by rewrite (S_db _ _ (I_S _ H) _ _ Hs)|]. apply wp_bind.
  eapply wp_read; [exact Hs|exact Hown|]. apply wp_bind.
  eapply wp_lift; [by rewrite Eid, bool_decide_eq_true_2|].
  apply (wp_remove_service _ H1 (timer_service x) s Hs lc cl Hcl Eid).
  intros st' G Hsv. apply HQ. by eapply changed_fired.
Qed.
