(* ===== verification/SdSubs.v ===== *)
(** * Subscribing (src/sd/client.c: [client_create_sub], [client_activate_sub],
    [client_unsubscribe])

    Each operation keeps the invariant, and what it does to the subscriptions. *)

From S2P Require Import Prelude CLib Pvalue Props Filter FilterParse Double Service Sub Amap Heap Client Sd SdWp SdInv SdOps SdRemove.

(** ** Filters of subscriptions *)

Lemma filter_wf_strings_ok f : filter_wf f → strings_ok f.
Proof.
  induction f as [op key s|key|key i m fin|g IH|op gs IH] using filter_nested_ind.
  - intros ([H _] & Hs & _). done.
  - by intros [H _].
  - intros ([H _] & Hi & Hf & Hm & _). split_and!; [done| | |].
    + destruct i as [x|]; [apply Hi|apply not_elem_of_nil].
    + destruct m as [x|]; [|by apply Forall_nil_2]. destruct Hm as [_ Hm].
      eapply Forall_impl; [exact Hm|]. by intros y [Hy _].
    + destruct fin as [x|]; [apply Hf|apply not_elem_of_nil].
  - done.
  - cbn [filter_wf strings_ok]. rewrite !foldr_and_Forall. intros (_ & _ & Hgs).
    rewrite Forall_forall in IH, Hgs |- *. auto.
Qed.

(** The filter of a request: none, or the one its string stands for. *)
Definition request_filter (fs : option cstr) : option (option filter_t) :=
  match fs with
  | None => Some None
  | Some s => match filter_parse s with Ok (Some f) => Some (Some f) | _ => None end
  end.

Lemma request_filter_ok fs f : request_filter fs = Some f →
  match f with Some g => simple g | None => True end → filter_ok f.
Proof.
  unfold request_filter. destruct fs as [s|]; [|by intros [= <-]].
  destruct (filter_parse_wp s) as (r & E & Hr). rewrite E. destruct r as [g|]; [|done].
  intros [= <-] Hs. split; [done|]. by apply filter_wf_strings_ok.
Qed.

Lemma filter_clone_non_null_id f : filter_clone_non_null f = f.
Proof. destruct f as [f|]; simpl; [by rewrite filter_clone_id|done]. Qed.

(** ** What subscribing leaves alone *)

Record same_services (st st' : state) : Prop := {
  SS_services : services st' = services st;
  SS_dbs : db_services st' = db_services st;
  SS_clients : clients st' = clients st;
  SS_dbc : db_clients st' = db_clients st;
  SS_timers : timers st' = timers st
}.

Lemma sub_at_spec st id s : inv st → sub_at st id = Some s →
  ∃ l, amap_get (db_subs st) id = Some l ∧ subs st !! l = Some s ∧ sub_id s = id.
Proof.
  intros H Hs. unfold sub_at in Hs. destruct (amap_get (db_subs st) id) as [l|] eqn:E; [|done].
  destruct (U_get _ _ _ _ (I_U _ H) _ _ E) as (s' & Hs' & Eid). simpl in Hs. simplify_eq. eauto.
Qed.

Lemma sub_at_None st id : inv st → sub_at st id = None → amap_get (db_subs st) id = None.
Proof.
  intros H Hs. unfold sub_at in Hs. destruct (amap_get (db_subs st) id) as [l|] eqn:E; [|done].
  destruct (U_get _ _ _ _ (I_U _ H) _ _ E) as (s' & Hs' & Eid). simpl in Hs. congruence.
Qed.

(** ** Creating a subscription *)

Definition new_sub (id : Z) (f : option filter_t) (c cb_data : Z) : sub := Sub id f c cb_data 2.

Section create.
Context (st : state) (c : Z) (lc : loc) (cl : client) (a : loc) (ka : conn).
Context (HA : active_client st c lc cl a ka) (H : inv st).

Definition created (id : Z) (s : sub) : state :=
  State (services st) (<[next_loc st := s]> (subs st))
    (<[a := conn_with_subs (conn_subs ka ++ [(id, next_loc st)]) ka]> (conns st))
    (clients st) (timers st) (db_clients st) (db_services st)
    (db_subs st ++ [(id, next_loc st)]) (orphans st) (Pos.succ (next_loc st)) (clock st)
    (tick st) (outputs st).

Lemma inv_created id f cb_data : (0 ≤ id)%Z → filter_ok f →
  amap_get (db_subs st) id = None → inv (created id (new_sub id f c cb_data)).
Proof.
  intros Hid Hf Hnone. pose proof (I_F _ H) as HF.
  assert (Hl : subs st !! next_loc st = None) by (by apply HF).
  split; simpl; try apply H.
  - by apply (C_same _ _ _ a ka); [apply H|apply HA| | |by rewrite (A_connected _ _ _ _ _ _ HA)].
  - by apply (H_conn _ _ _ a ka); [apply H|apply HA|..].
  - apply (U_add _ _ _ _ _ (new_sub id f c cb_data)); [apply H|done..|apply HA|].
    rewrite (A_client _ _ _ _ _ _ HA), (client_ids_lookup _ _ _ (A_cl _ _ _ _ _ _ HA)).
    by rewrite (A_id _ _ _ _ _ _ HA).
  - split; simpl; intros l Hl'; try (apply HF; lia).
    + rewrite lookup_insert_ne by lia. apply HF. lia.
    + rewrite lookup_insert_ne; [apply HF; lia|]. intros <-.
      pose proof (A_conn _ _ _ _ _ _ HA) as Ha. rewrite (F_conns _ HF) in Ha by lia. done.
Qed.

Lemma wp_client_create_sub id f cb_data (Q : Z → state → Prop) : (0 ≤ id)%Z → filter_ok f →
  (sub_at st id ≠ None → Q SD_ERR_SUB_ALREADY_EXISTS st) →
  (sub_at st id = None → Q 0%Z (created id (new_sub id f c cb_data))) →
  wp (client_create_sub lc id f cb_data) Q st.
Proof.
  intros Hid Hf HQ1 HQ2. unfold client_create_sub.
  apply wp_bind, (wp_assert_connected st c lc cl a ka HA), wp_bind, wp_gets.
  unfold amap_has. destruct (sub_at st id) as [s|] eqn:Es.
  { destruct (sub_at_spec _ _ _ H Es) as (l & -> & _). by apply wp_ret, HQ1. }
  pose proof (sub_at_None _ _ H Es) as Hnone. rewrite Hnone. specialize (HQ2 eq_refl).
  apply wp_bind, (wp_client_id st c lc cl a ka HA). unfold sub_create. apply wp_bind, wp_alloc.
  apply wp_bind, (wp_client_active st c lc cl a ka HA); [done|].
  apply wp_bind. unfold conn_add_sub, map_add_cnted. apply wp_bind.
  eapply wp_sub_inc_ref; [apply lookup_insert_eq|done|]. apply wp_bind.
  eapply wp_conn_subs_at; [apply HA|]. apply wp_bind. eapply wp_lift.
  { apply amap_add_None. destruct (amap_get (conn_subs ka) id) as [l|] eqn:E; [|done].
    destruct (U_held _ _ _ _ (I_U _ H) _ _ _ _ (A_conn _ _ _ _ _ _ HA) E) as (s & Hs & Eid & _).
    pose proof (U_db _ _ _ _ (I_U _ H) _ _ Hs). congruence. }
  eapply wp_update; [apply HA|reflexivity|]. apply wp_bind.
  unfold db_add_sub, map_add_cnted. apply wp_bind.
  eapply wp_lift; [by rewrite bool_decide_eq_true_2|]. apply wp_bind.
  eapply wp_sub_inc_ref; [apply lookup_insert_eq|done|]. apply wp_bind, wp_gets, wp_bind.
  eapply wp_lift; [by apply amap_add_None|]. apply wp_modify. apply wp_bind.
  eapply wp_sub_dec_ref; [apply lookup_insert_eq|done|]. apply wp_ret.
  refine (eq_ind _ (Q 0%Z) HQ2 _ _). apply state_ext; try reflexivity. simpl.
  rewrite !insert_insert_eq. unfold sub_with_ref_cnt. simpl. by rewrite filter_clone_non_null_id.
Qed.

Lemma wp_create_sub id fs cb_data (Q : Z → state → Prop) : (0 ≤ id)%Z →
  match request_filter fs with Some (Some f) => simple f | _ => True end →
  (request_filter fs = None → Q SD_ERR_INVALID_FILTER st) →
  (∀ f, request_filter fs = Some f → sub_at st id ≠ None → Q SD_ERR_SUB_ALREADY_EXISTS st) →
  (∀ f, request_filter fs = Some f → filter_ok f → sub_at st id = None →
     Q 0%Z (created id (new_sub id f c cb_data))) →
  wp (sd_create_sub c id fs cb_data) Q st.
Proof.
  intros Hid Hs HQ1 HQ2 HQ3. apply (wp_with_client st c lc cl a ka HA).
  pose proof (request_filter_ok fs) as Hok. unfold request_filter in *.
  destruct fs as [s|].
  - destruct (filter_parse_wp s) as (r & E & _). apply wp_bind. eapply wp_lift; [exact E|].
    rewrite E in *. destruct r as [f|]; [|by apply wp_ret, HQ1].
    pose proof (Hok (Some f) eq_refl Hs). apply wp_client_create_sub; eauto.
  - apply wp_client_create_sub; eauto.
Qed.
End create.

(** ** Activating a subscription *)

(** The subscription [s] at [l] is told of all services that it selects. *)
Definition activation (st : state) (l : loc) (s : sub) : list (loc * Z * sub_match_type * Z) :=
  omap (λ kv : Z * loc,
    srv ← services st !! kv.2;
    if sees s (current srv ≫= gen_props)
    then Some (l, match_cb_data s, sub_match_type_appeared, kv.1) else None) (db_services st).

(** The reports that make these calls. *)
Definition introduction (st : state) (l : loc) (s : sub) (m : amap loc) : list report :=
  omap (λ kv : Z * loc,
    srv ← services st !! kv.2;
    if sees s (current srv ≫= gen_props)
    then Some (l, match_cb_data s, sub_match_type_appeared, kv.1, current srv) else None) m.

Lemma introduction_calls st l s : (introduction st l s (db_services st)).*1 = activation st l s.
Proof.
  apply omap_fst. intros [i x]. simpl. destruct (services st !! x) as [srv|]; [|done]. simpl.
  by destruct (sees s _).
Qed.

Lemma introduced_calls st l s os : omap report_of os = introduction st l s (db_services st) →
  omap match_of os = activation st l s.
Proof. intros E. by rewrite <-reports_match, E, introduction_calls. Qed.

Lemma inv_outputs st os : inv st → inv (set_outputs (λ x, x ++ os) st).
Proof. intros H. split; try apply H. split; apply (I_F _ H). Qed.

Lemma wp_activate_loop l s (m : amap loc) st (Q : unit → state → Prop) :
  subs st !! l = Some s → filter_ok (sub_filter s) →
  (∀ id x, (id, x) ∈ m → ∃ srv, services st !! x = Some srv ∧ service_id srv = id ∧
     ∃ g, current srv = Some g ∧ gen_ok g) →
  (∀ os, omap report_of os = introduction st l s m → Q tt (set_outputs (λ x, x ++ os) st)) →
  wp (mforeach (λ kv, s ← lift (deref (Some l)); sub_notify s service_change_type_added kv.2) m) Q st.
Proof.
  revert st Q. induction m as [|[id x] m IH]; intros st Q Hl Hf Hm HQ.
  - apply wp_ret. rewrite <-(set_outputs_nil st). by apply HQ.
  - destruct (Hm id x) as (srv & Hx & Eid & g & Hg & Hgok); [left|].
    cbn [mforeach]. apply wp_bind, wp_bind. eapply wp_lift; [done|].
    eapply wp_sub_notify; [exact Hl|done|exact Hx| |].
    { simpl. rewrite Hg. apply Hgok. }
    set (o1 := option_list _). apply IH; [done|done| |].
    { intros id' x' Hin. apply Hm. by right. }
    intros os Eos. rewrite set_outputs_app. apply HQ. simpl in Eos.
    unfold introduction in *. rewrite omap_app, Eos, omap_cons_eq. unfold o1, notification. simpl. rewrite Hl, Hx. simpl. rewrite Hg. simpl.
    destruct (sees s (gen_props g)); csimpl; [by rewrite Eid, Hg|done].
Qed.

(** ** Subscriptions and their clients *)

Section active_subs.
Context (st : state) (c : Z) (lc : loc) (cl : client) (a : loc) (ka : conn).
Context (HA : active_client st c lc cl a ka) (H : inv st).

(** The active connection holds the subscriptions of the client, no other. *)
Lemma active_holds_sub id l s : amap_get (db_subs st) id = Some l → subs st !! l = Some s →
  (amap_get (conn_subs ka) id = Some l ∧ sub_client_id s = c) ∨
  (amap_get (conn_subs ka) id = None ∧ sub_client_id s ≠ c).
Proof.
  intros Hdb Hs. pose proof (I_U _ H) as HU. pose proof (I_C _ H) as HC.
  destruct (U_get _ _ _ _ HU _ _ Hdb) as (s' & Hs' & Eid). simplify_eq.
  destruct (amap_get (conn_subs ka) (sub_id s)) as [l'|] eqn:E.
  - left. destruct (U_held _ _ _ _ HU _ _ _ _ (A_conn _ _ _ _ _ _ HA) E) as (s' & Hs' & E' & Ec).
    pose proof (U_db _ _ _ _ HU _ _ Hs') as Hdb'. rewrite E', Hdb in Hdb'. simplify_eq.
    split; [done|]. rewrite (A_client _ _ _ _ _ _ HA) in Ec.
    rewrite (client_ids_lookup _ _ _ (A_cl _ _ _ _ _ _ HA)), (A_id _ _ _ _ _ _ HA) in Ec. congruence.
  - right. split; [done|]. intros Ec.
    destruct (U_owner _ _ _ _ HU _ _ Hs) as (cn & k & Hk & Hg).
    destruct (U_held _ _ _ _ HU _ _ _ _ Hk Hg) as (s' & Hs'' & _ & Eck).
    assert (s' = s) as -> by congruence.
    destruct (C_conn _ _ _ HC _ _ Hk) as (cl0 & Hcl0 & Hin).
    rewrite (client_ids_lookup _ _ _ Hcl0) in Eck. injection Eck as Eck.
    pose proof (C_db _ _ _ HC _ _ Hcl0) as Hdb0. rewrite Eck, Ec, (A_db _ _ _ _ _ _ HA) in Hdb0.
    injection Hdb0 as Elc. rewrite <-Elc, (A_cl _ _ _ _ _ _ HA) in Hcl0. simplify_eq.
    apply elem_client_conns in Hin as [Ha|Hi].
    + rewrite (A_active _ _ _ _ _ _ HA) in Ha. simplify_eq.
      rewrite (A_conn _ _ _ _ _ _ HA) in Hk. congruence.
    + destruct (C_inactive _ _ _ HC _ _ _ (A_cl _ _ _ _ _ _ HA) Hi)
        as (k' & Hk' & _ & _ & Es). simplify_eq. by rewrite Es in Hg.
Qed.

Lemma wp_activate_sub id s l (Q : unit → state → Prop) :
  amap_get (db_subs st) id = Some l → subs st !! l = Some s →
  (∀ os, omap report_of os = introduction st l s (db_services st) → Q tt (set_outputs (λ x, x ++ os) st)) →
  wp (sd_activate_sub c id) Q st.
Proof.
  intros Hdb Hs HQ. unfold sd_activate_sub. apply wp_bind, wp_gets.
  rewrite (A_db _ _ _ _ _ _ HA). apply wp_bind. eapply wp_lift; [done|].
  unfold client_activate_sub. apply wp_bind, (wp_assert_connected st c lc cl a ka HA).
  apply wp_bind, wp_gets. rewrite Hdb. unfold db_foreach_service. apply wp_bind, wp_gets.
  destruct (U_ok _ _ _ _ (I_U _ H) _ _ Hs) as (_ & Hf & _).
  apply (wp_activate_loop l s); [done|done| |exact HQ].
  intros id' x Hin. apply amap_get_elem in Hin; [|apply (S_nodup _ _ (I_S _ H))].
  destruct (S_get _ _ (I_S _ H) _ _ Hin) as (srv & Hsrv & Eid).
  destruct (S_ok _ _ (I_S _ H) _ _ Hsrv) as (_ & _ & g & Hg & Hok). eauto 10.
Qed.

(** ** Unsubscribing *)

Definition unsubscribed (id : Z) (l : loc) : state :=
  State (services st) (delete l (subs st))
    (<[a := conn_with_subs (amap_remove (conn_subs ka) id) ka]> (conns st))
    (clients st) (timers st) (db_clients st) (db_services st)
    (amap_remove (db_subs st) id) (orphans st) (next_loc st) (clock st) (tick st) (outputs st).

Lemma inv_unsubscribed id l : amap_get (conn_subs ka) id = Some l →
  amap_get (db_subs st) id = Some l → inv (unsubscribed id l).
Proof.
  intros Hg Hdb. pose proof (I_F _ H) as HF. pose proof (I_U _ H) as HU.
  pose proof (U_nodup _ _ _ _ HU) as Hnd.
  pose proof (U_knodup _ _ _ _ HU _ _ (A_conn _ _ _ _ _ _ HA)) as Hknd.
  split; simpl; try apply H.
  - by apply (C_same _ _ _ a ka); [apply H|apply HA| | |by rewrite (A_connected _ _ _ _ _ _ HA)].
  - by apply (H_conn _ _ _ a ka); [apply H|apply HA|..].
  - apply (U_drop {[id]} (subs st) _ (db_subs st) _ _ _ a ka); [done|apply HA|done| |..].
    + intros id' ->%elem_of_singleton. by exists l.
    + by apply amap_remove_nodup.
    + by apply amap_remove_nodup.
    + intros id'. rewrite amap_get_remove by done. do 2 case_decide; set_solver.
    + intros id'. simpl. rewrite amap_get_remove by done. do 2 case_decide; set_solver.
    + intros l' s'. rewrite lookup_delete_Some, not_elem_of_singleton.
      destruct (U_get _ _ _ _ HU _ _ Hdb) as (s & Hs & Eid). split.
      * intros [Hne Hs']. split; [done|]. intros E. apply Hne.
        pose proof (U_db _ _ _ _ HU _ _ Hs'). congruence.
      * intros [Hs' Hne]. split; [|done]. intros <-. congruence.
  - split; simpl; intros x Hx; try (apply HF; done).
    + rewrite lookup_delete_None. right. by apply HF.
    + rewrite lookup_insert_ne; [by apply HF|]. intros <-.
      pose proof (A_conn _ _ _ _ _ _ HA) as Ha. rewrite (F_conns _ HF) in Ha; done.
Qed.

Lemma wp_unsubscribe id (Q : Z → state → Prop) :
  (sub_at st id = None → Q SD_ERR_NO_SUCH_SUB st) →
  (∀ s, sub_at st id = Some s → sub_client_id s ≠ c → Q SD_ERR_PERM_DENIED st) →
  (∀ s l, sub_at st id = Some s → sub_client_id s = c → amap_get (conn_subs ka) id = Some l →
     amap_get (db_subs st) id = Some l → Q 0%Z (unsubscribed id l)) →
  wp (sd_unsubscribe c id) Q st.
Proof.
  intros HQ1 HQ2 HQ3. apply (wp_with_client st c lc cl a ka HA). unfold client_unsubscribe.
  apply wp_bind, (wp_assert_connected st c lc cl a ka HA), wp_bind, wp_gets. unfold amap_has.
  destruct (sub_at st id) as [s|] eqn:Es.
  2: { rewrite (sub_at_None _ _ H Es). by apply wp_ret, HQ1. }
  destruct (sub_at_spec _ _ _ H Es) as (l & Hdb & Hs & Eid). rewrite Hdb.
  apply wp_bind, (wp_client_active st c lc cl a ka HA); [done|].
  apply wp_bind. unfold conn_has_sub. apply wp_bind. eapply wp_conn_subs_at; [apply HA|].
  apply wp_ret. unfold amap_has.
  destruct (active_holds_sub id l s Hdb Hs) as [[Eg Ec]|[Eg Ec]]; rewrite Eg;
    [|apply wp_ret; by eapply HQ2].
  destruct (U_ok _ _ _ _ (I_U _ H) _ _ Hs) as (H0 & _ & Hr).
  apply wp_bind. unfold conn_del_sub, map_del_cnted. apply wp_bind.
  eapply wp_conn_subs_at; [apply HA|]. apply wp_bind.
  eapply wp_lift; [by eapply amap_del_Some|]. apply wp_bind.
  eapply wp_update; [apply HA|reflexivity|]. rewrite Eg.
  eapply wp_sub_dec_ref; [exact Hs|lia|]. apply wp_bind.
  unfold db_del_sub, map_del_cnted. apply wp_bind.
  eapply wp_lift; [rewrite bool_decide_eq_true_2; [done|congruence]|].
  apply wp_bind, wp_gets, wp_bind. eapply wp_lift; [by eapply amap_del_Some|].
  apply wp_bind, wp_modify. cbn [db_subs set_subs set_heap sub_Obj conn_Obj set_conns]. rewrite Hdb.
  eapply wp_sub_dec_ref_last; [apply lookup_insert_eq|simpl; lia|]. apply wp_ret.
  refine (eq_ind _ (Q 0%Z) (HQ3 s l eq_refl Ec Eg Hdb) _ _). apply state_ext; try reflexivity.
  simpl. by rewrite delete_insert_eq.
Qed.
End active_subs.
