(* ===== verification/SdDisconnect.v ===== *)
(** * Disconnecting (src/sd/client.c: [client_disconnect])

    The subscriptions of the connection go, the services that it holds become
    orphans, and the connection becomes an inactive one of its client, unless
    it holds nothing; a client that is left with nothing goes, too. *)

From S2P Require Import Prelude CLib Pvalue Props Filter FilterParse Double Service Sub Amap Heap Client Sd SdWp SdInv SdOps SdRemove SdSubs.

(** ** Dropping subscriptions *)

Lemma alter_as_insert {A} (f : A → A) (l : loc) (m : gmap loc A) x :
  m !! l = Some x → alter f l m = <[l := f x]> m.
Proof.
  intros Hx. apply map_eq. intros i. rewrite lookup_alter, lookup_insert.
  case_decide; [|done]. subst. by rewrite Hx.
Qed.

Definition drop_refs (m : amap loc) (sb : gmap loc sub) : gmap loc sub :=
  foldl (λ sb kv, alter (λ s, sub_with_ref_cnt (sub_ref_cnt s - 1) s) kv.2 sb) sb m.

Definition remove_keys (m : amap loc) (dbu : amap loc) : amap loc :=
  foldl (λ d kv, amap_remove d kv.1) dbu m.

Definition delete_subs (m : amap loc) (sb : gmap loc sub) : gmap loc sub :=
  foldl (λ sb kv, delete kv.2 sb) sb m.

Lemma amap_keys_cons id (l : loc) (m : amap loc) : amap_keys ((id, l) :: m) = id :: amap_keys m.
Proof. done. Qed.

Lemma remove_keys_spec m dbu id : NoDup (amap_keys dbu) →
  NoDup (amap_keys (remove_keys m dbu)) ∧
  amap_get (remove_keys m dbu) id = if decide (id ∈ amap_keys m) then None else amap_get dbu id.
Proof.
  revert dbu. induction m as [|[i l] m IH]; intros dbu Hnd.
  - split; [done|]. rewrite decide_False; [done|]. apply not_elem_of_nil.
  - change (remove_keys ((i, l) :: m) dbu) with (remove_keys m (amap_remove dbu i)).
    destruct (IH (amap_remove dbu i)) as [H1 H2]; [by apply amap_remove_nodup|].
    split; [done|]. rewrite H2, amap_get_remove by done.
    rewrite amap_keys_cons. repeat case_decide; set_solver.
Qed.

Lemma delete_subs_lookup m sb l :
  delete_subs m sb !! l = if decide (l ∈ m.*2) then None else sb !! l.
Proof.
  revert sb. induction m as [|[i x] m IH]; intros sb.
  - rewrite decide_False; [done|]. apply not_elem_of_nil.
  - simpl. rewrite IH. destruct (decide (x = l)) as [<-|Hne].
    + rewrite lookup_delete_eq. repeat case_decide; set_solver.
    + rewrite lookup_delete_ne by done. repeat case_decide; set_solver.
Qed.

Lemma drop_refs_lookup m sb l : NoDup m.*2 →
  drop_refs m sb !! l =
  if decide (l ∈ m.*2) then (λ s, sub_with_ref_cnt (sub_ref_cnt s - 1) s) <$> sb !! l
  else sb !! l.
Proof.
  revert sb. induction m as [|[i x] m IH]; intros sb Hnd.
  - rewrite decide_False; [done|]. apply not_elem_of_nil.
  - simpl in Hnd. apply NoDup_cons in Hnd as [Hx Hnd]. simpl. rewrite IH by done.
    destruct (decide (x = l)) as [<-|Hne].
    + rewrite decide_False, lookup_alter_eq by done. rewrite decide_True; [done|left].
    + rewrite lookup_alter_ne by done. repeat case_decide; set_solver.
Qed.

(** What the connection's map of subscriptions is to the two others. *)
Definition subs_of (sb : gmap loc sub) (dbu : amap loc) (m : amap loc) : Prop :=
  NoDup (amap_keys m) ∧ ∀ id l, (id, l) ∈ m → amap_get dbu id = Some l ∧
    ∃ s, sb !! l = Some s ∧ sub_id s = id ∧ (0 ≤ id)%Z ∧ sub_ref_cnt s = 2%Z.

Lemma subs_of_locs sb dbu m : subs_of sb dbu m → NoDup m.*2.
Proof.
  intros [Hnd Hm]. unfold amap_keys in Hnd. induction m as [|[id l] m IH]; [apply NoDup_nil_2|].
  csimpl in *. apply NoDup_cons in Hnd as [Hid Hnd]. apply NoDup_cons. split.
  - intros Hl. apply list_elem_of_fmap in Hl as ([id' l'] & -> & Hin). apply Hid.
    destruct (Hm id l') as (_ & s & Hs & E & _); [left|].
    destruct (Hm id' l') as (_ & s' & Hs' & E' & _); [by right|].
    assert (s' = s) as -> by congruence.
    apply list_elem_of_fmap. exists (id', l'). split; [simpl; congruence|done].
  - apply IH; [done|]. intros id' l' Hin. apply Hm. by right.
Qed.

Lemma wp_db_del_sub id l s (Q : unit → state → Prop) st : (0 ≤ id)%Z →
  amap_get (db_subs st) id = Some l → subs st !! l = Some s → (1 < sub_ref_cnt s)%Z →
  Q tt (set_subs (alter (λ s, sub_with_ref_cnt (sub_ref_cnt s - 1) s) l)
         (set_db_subs (λ d, amap_remove d id) st)) →
  wp (db_del_sub id) Q st.
Proof.
  intros H0 Hdb Hs Hr HQ. unfold db_del_sub, map_del_cnted. apply wp_bind.
  eapply wp_lift; [by rewrite bool_decide_eq_true_2|]. apply wp_bind, wp_gets, wp_bind.
  eapply wp_lift; [by eapply amap_del_Some|]. apply wp_bind, wp_modify. rewrite Hdb.
  eapply wp_sub_dec_ref; [exact Hs|done|].
  refine (eq_ind _ (Q tt) HQ _ _). apply state_ext; try reflexivity. simpl.
  by erewrite alter_as_insert.
Qed.

Lemma wp_del_subs m st (Q : unit → state → Prop) : NoDup (amap_keys (db_subs st)) →
  subs_of (subs st) (db_subs st) m →
  Q tt (set_subs (drop_refs m) (set_db_subs (remove_keys m) st)) →
  wp (mforeach (λ kv, db_del_sub kv.1) m) Q st.
Proof.
  revert st. induction m as [|[id l] m IH]; intros st Hdbnd [Hnd Hm] HQ.
  - apply wp_ret. by destruct st.
  - cbn [mforeach]. rewrite amap_keys_cons in Hnd. apply NoDup_cons in Hnd as [Hid Hnd].
    destruct (Hm id l) as (Hdb & s & Hs & Eid & H0 & Hr); [left|].
    apply wp_bind. eapply wp_db_del_sub; [done|exact Hdb|exact Hs|lia|].
    apply IH; [by apply amap_remove_nodup| |exact HQ]. split; [done|]. simpl.
    intros id' l' Hin. destruct (Hm id' l') as (Hdb' & s' & Hs' & Eid' & H0' & Hr'); [by right|].
    assert (id ≠ id').
    { intros ->. apply Hid, list_elem_of_fmap. by exists (id', l'). }
    rewrite amap_get_remove, decide_False by done. split; [done|]. exists s'.
    rewrite lookup_alter_ne; [done|]. intros ->. simplify_eq.
Qed.

Lemma wp_drop_subs m st (Q : unit → state → Prop) : NoDup m.*2 →
  (∀ id l, (id, l) ∈ m → ∃ s, subs st !! l = Some s ∧ sub_ref_cnt s = 1%Z) →
  Q tt (set_subs (delete_subs m) st) →
  wp (mforeach (λ kv, sub_dec_ref kv.2) m) Q st.
Proof.
  revert st. induction m as [|[id l] m IH]; intros st Hnd Hm HQ.
  - apply wp_ret. by destruct st.
  - cbn [mforeach]. csimpl in Hnd. apply NoDup_cons in Hnd as [Hl Hnd].
    destruct (Hm id l) as (s & Hs & Hr); [left|].
    apply wp_bind. eapply wp_sub_dec_ref_last; [exact Hs|done|].
    apply IH; [done| |exact HQ]. intros id' l' Hin.
    destruct (Hm id' l') as (s' & Hs' & Hr'); [by right|]. exists s'. split; [|done]. simpl.
    rewrite lookup_delete_ne; [done|]. intros ->. apply Hl, list_elem_of_fmap. by exists (id', l').
Qed.

(** ** Orphaning services *)

Definition orphaned (t : double) (g : generation) : generation :=
  Generation (gen_generation g) (gen_props g) (gen_ttl g) t (gen_client_id g).

Definition orphan_service (t : double) (s : service) : service :=
  match current s with Some g => modified_service (orphaned t g) s | None => s end.

Definition orphan_services (t : double) (m : amap loc) (sv : gmap loc service)
    : gmap loc service := foldl (λ sv kv, alter (orphan_service t) kv.2 sv) sv m.

Lemma orphan_services_lookup t m sv l : NoDup m.*2 →
  orphan_services t m sv !! l =
  if decide (l ∈ m.*2) then orphan_service t <$> sv !! l else sv !! l.
Proof.
  revert sv. induction m as [|[i x] m IH]; intros sv Hnd.
  - rewrite decide_False; [done|]. apply not_elem_of_nil.
  - simpl in Hnd. apply NoDup_cons in Hnd as [Hx Hnd]. simpl. rewrite IH by done.
    destruct (decide (x = l)) as [<-|Hne].
    + rewrite decide_False, lookup_alter_eq by done. rewrite decide_True; [done|left].
    + rewrite lookup_alter_ne by done. repeat case_decide; set_solver.
Qed.

Lemma orphaned_ok t g : gen_ok g → time_ok t → gen_ok (orphaned t g).
Proof.
  intros (H1 & H2 & H3 & H4) Ht. split_and!; [|done|done|by right].
  assert (Hn : negb (isnan t) = true) by (destruct Ht as [_ Ht]; by destruct t).
  unfold generation_is_consistent in *.
  cbn [gen_generation gen_props gen_ttl gen_orphan_since gen_client_id orphaned].
  rewrite !andb_true_iff, !bool_decide_eq_true in *. naive_solver.
Qed.

Lemma wp_orphan_service st t l s g (Q : unit → state → Prop) :
  svc_inv st → services st !! l = Some s → current s = Some g → s_orphan s = false → time_ok t →
  (∀ st', svc_inv st' → same_rest st st' →
     services st' = alter (orphan_service t) l (services st) →
     outputs_after st service_change_type_modified (committed (orphaned t g) s) st' → Q tt st') →
  wp (service_handle_conn_inactivation service_changed t l) Q st.
Proof.
  intros HV Hs Hg Ho Ht HQ. destruct (S_ok _ _ (V_S _ HV) _ _ Hs) as (Hi & _ & g0 & Hg0 & Hok).
  assert (g0 = g) as -> by congruence.
  unfold service_handle_conn_inactivation. apply wp_update_seq.
  eapply (wp_modify_commit st HV l s Hs (orphaned t g)).
  - by apply orphaned_ok.
  - cbn beta. rewrite (modify_begin_ok s g) by done. reflexivity.
  - by rewrite Ho.
  - intros st' HV' HR Hsv Hout. apply HQ; [done..| |done]. rewrite Hsv. symmetry.
    erewrite alter_as_insert; [|exact Hs]. unfold orphan_service. by rewrite Hg.
Qed.

(** What the subscribers are told. *)
Definition told_orphans (st : state) (t : double) (m : amap loc)
    : list (loc * Z * sub_match_type * Z) :=
  m ≫= (λ kv, match (services st !! kv.2) ≫= current with
              | Some g => told st kv.1 (Some g) (Some (orphaned t g))
              | None => []
              end).

Lemma told_orphans_cons st t id l m : told_orphans st t ((id, l) :: m) =
  match (services st !! l) ≫= current with
  | Some g => told st id (Some g) (Some (orphaned t g))
  | None => []
  end ++ told_orphans st t m.
Proof. done. Qed.

Definition reported_orphans (st : state) (t : double) (m : amap loc) : list report :=
  m ≫= (λ kv, match (services st !! kv.2) ≫= current with
              | Some g => reported st kv.1 (Some g) (Some (orphaned t g))
              | None => []
              end).

Lemma reported_told_orphans st t m : (reported_orphans st t m).*1 = told_orphans st t m.
Proof.
  induction m as [|[id l] m IH]; [done|]. unfold reported_orphans, told_orphans in *. csimpl.
  rewrite fmap_app, IH. f_equal. destruct ((services st !! l) ≫= current); [apply reported_told|done].
Qed.

Lemma same_rest_trans st st1 st' : same_rest st st1 → same_rest st1 st' → same_rest st st'.
Proof.
  intros R1 R2.
  split; [rewrite (R_subs _ _ R2)|rewrite (R_conns _ _ R2)|rewrite (R_clients _ _ R2)
    |rewrite (R_dbc _ _ R2)|rewrite (R_dbs _ _ R2)|rewrite (R_dbu _ _ R2)|]; try apply R1.
  eapply kept_trans; [apply R1|apply R2].
Qed.

Lemma same_rest_refl st : same_rest st st.
Proof. split; try done. by apply kept_same. Qed.

(** Services that are held, and no orphans. *)
Definition held_services (sv : gmap loc service) (m : amap loc) : Prop :=
  NoDup m.*2 ∧ ∀ id l, (id, l) ∈ m → ∃ s g, sv !! l = Some s ∧ service_id s = id ∧
    current s = Some g ∧ s_orphan s = false.

Lemma held_services_tail sv id l m : held_services sv ((id, l) :: m) →
  (l ∉ m.*2) ∧ held_services sv m.
Proof.
  intros [Hnd Hm]. csimpl in Hnd. apply NoDup_cons in Hnd as [Hl Hnd]. split; [done|].
  split; [done|]. intros id' l' Hin. apply Hm. by right.
Qed.

Lemma wp_orphan_services t m st (Q : unit → state → Prop) :
  svc_inv st → time_ok t → held_services (services st) m →
  (∀ st', svc_inv st' → same_rest st st' →
     services st' = orphan_services t m (services st) →
     reports st' = reports st ++ reported_orphans st t m → Q tt st') →
  wp (mforeach (λ kv, service_handle_conn_inactivation service_changed t kv.2) m) Q st.
Proof.
  intros HV Ht. revert st HV Q. induction m as [|[id l] m IH]; intros st HV Q Hm HQ.
  - apply wp_ret, HQ; [done|apply same_rest_refl|done|]. unfold reported_orphans. simpl. by rewrite app_nil_r.
  - cbn [mforeach]. apply wp_bind.
    destruct (proj2 Hm id l) as (s & g & Hs & Eid & Hg & Ho); [left|].
    apply held_services_tail in Hm as [Hl Hm].
    eapply (wp_orphan_service st t l s g); [done..|]. intros st1 HV1 HR1 Hsv1 Hout.
    assert (Hother : ∀ l', l' ∈ m.*2 → services st1 !! l' = services st !! l').
    { intros l' Hin. rewrite Hsv1, lookup_alter_ne; [done|]. by intros ->. }
    apply IH; [done| |].
    { split; [apply Hm|]. intros id' l' Hin.
      rewrite Hother by (apply list_elem_of_fmap; by exists (id', l')). by apply Hm. }
    intros st' HV' HR' Hsv' Hcalls. apply HQ; [done|by eapply same_rest_trans| |].
    + rewrite Hsv', Hsv1. done.
    + rewrite Hcalls, (outputs_after_reported _ _ _ _ Hout), <-app_assoc. f_equal.
      rewrite notifications_reported. unfold reported_orphans at 2. csimpl. rewrite Hs. csimpl.
      rewrite Hg. csimpl. unfold committed. simpl. rewrite ?Hg, Eid. simpl. f_equal.
      unfold reported_orphans. clear - Hother HR1. induction m as [|[id' l'] m IH]; [done|].
      csimpl. rewrite IH by (intros x Hx; apply Hother; by right). f_equal.
      rewrite Hother by left. destruct ((services st !! l') ≫= current) as [g'|]; [|done].
      apply reported_same; apply HR1.
Qed.

(** The holder of services that become orphans must be disconnected. *)
Lemma H_services sv sv' cns cid : H_inv sv cns cid →
  (∀ l s, sv !! l = Some s → ∃ s', sv' !! l = Some s' ∧ service_id s' = service_id s ∧
     s_client s' = s_client s ∧
     (∀ cn k, cns !! cn = Some k → amap_get (conn_services k) (service_id s) = Some l →
        conn_is_connected k = true → s_orphan s' = false)) →
  (∀ l s', sv' !! l = Some s' → is_Some (sv !! l)) →
  H_inv sv' cns cid.
Proof.
  intros H H1 H2. split; [apply H| |apply H|].
  - intros cn k id l Hk Hg. destruct (H_get _ _ _ H _ _ _ _ Hk Hg) as (s & Hs & E & Ec & Eo).
    destruct (H1 _ _ Hs) as (s' & Hs' & E' & Ec' & Eo'). exists s'.
    split_and!; [done|congruence|congruence|]. eapply Eo'; [done|]. by rewrite E.
  - intros l s' Hs'. destruct (H2 _ _ Hs') as [s Hs].
    destruct (H1 _ _ Hs) as (s'' & Hs'' & E' & _). simplify_eq. rewrite E'. by eapply H_owner.
Qed.

(** ** Disconnecting *)

Section disconnect.
Context (st : state) (c : Z) (lc : loc) (cl : client) (a : loc) (ka : conn).
Context (HA : active_client st c lc cl a ka) (H : inv st).

(** When, the connection then, and the subscriptions then. *)
Definition now_at : double := ut_timespec_to_f (clock st (tick st)).

Definition left_conn : conn :=
  Conn (remote_addr ka) (connected_at ka) now_at (conn_client ka) (conn_services ka) [].

Definition left_subs : gmap loc sub :=
  delete_subs (conn_subs ka) (drop_refs (conn_subs ka) (subs st)).

(** The state in which the services become orphans. *)
Definition detached : state :=
  State (services st) left_subs (<[a := left_conn]> (conns st))
    (<[lc := client_with_active None cl]> (clients st)) (timers st) (db_clients st)
    (db_services st) (remove_keys (conn_subs ka) (db_subs st)) (orphans st) (next_loc st)
    (clock st) (S (tick st)) (outputs st).

Lemma now_at_ok : time_ok now_at.
Proof. apply ut_timespec_to_f_ok, (I_K _ H). Qed.

Lemma left_conn_disconnected : conn_is_connected left_conn = false.
Proof.
  unfold conn_is_connected. cbn [disconnected_at left_conn]. pose proof now_at_ok as [_ Hn].
  by destruct now_at as [[]|[]| |[]].
Qed.

Lemma ka_subs_of : subs_of (subs st) (db_subs st) (conn_subs ka).
Proof.
  pose proof (I_U _ H) as HU. pose proof (A_conn _ _ _ _ _ _ HA) as Hka.
  pose proof (U_knodup _ _ _ _ HU _ _ Hka) as Hnd. split; [done|].
  intros id l Hin%amap_get_elem; [|done].
  destruct (U_held _ _ _ _ HU _ _ _ _ Hka Hin) as (s & Hs & Eid & _).
  destruct (U_ok _ _ _ _ HU _ _ Hs) as (H0 & _ & Hr).
  rewrite <-Eid. split; [by apply (U_db _ _ _ _ HU)|]. by exists s.
Qed.

Lemma left_subs_lookup l s : left_subs !! l = Some s ↔
  subs st !! l = Some s ∧ sub_id s ∉ amap_keys (conn_subs ka).
Proof.
  pose proof ka_subs_of as Hof. pose proof (subs_of_locs _ _ _ Hof) as Hnd.
  destruct Hof as [_ Hm]. pose proof (I_U _ H) as HU.
  unfold left_subs. rewrite delete_subs_lookup, drop_refs_lookup by done.
  case_decide as Hin.
  - split; [done|]. intros [Hs Hid]. destruct Hid.
    apply list_elem_of_fmap in Hin as ([id x] & -> & Hin).
    destruct (Hm _ _ Hin) as (_ & s' & Hs' & E & _). simpl in Hs. simplify_eq.
    apply list_elem_of_fmap. eexists; by split; [|exact Hin].
  - split; [|naive_solver]. intros Hs. split; [done|]. intros Hid. apply Hin.
    apply list_elem_of_fmap in Hid as ([id x] & E & Hx). simpl in E. subst.
    destruct (Hm _ _ Hx) as (Hdb & _). pose proof (U_db _ _ _ _ HU _ _ Hs) as Hdb'.
    simplify_eq. apply list_elem_of_fmap. eexists; by split; [|exact Hx].
Qed.

Lemma U_detached :
  U_inv left_subs (remove_keys (conn_subs ka) (db_subs st)) (<[a := left_conn]> (conns st))
    (client_ids (clients st)).
Proof.
  pose proof (I_U _ H) as HU. pose proof (U_nodup _ _ _ _ HU) as Hnd.
  set (X := list_to_set (amap_keys (conn_subs ka)) : gset Z).
  assert (HX : ∀ id, id ∈ X ↔ id ∈ amap_keys (conn_subs ka)) by (intros id; apply elem_of_list_to_set).
  assert (Hget : ∀ id, id ∈ X ↔ is_Some (amap_get (conn_subs ka) id)).
  { intros id. rewrite HX. destruct (amap_get (conn_subs ka) id) as [x|] eqn:E.
    - split; [by eexists|]. intros _. apply amap_get_Some_elem in E.
      apply list_elem_of_fmap. by exists (id, x).
    - apply amap_get_None in E. split; [done|]. by intros [? ?]. }
  apply (U_drop X (subs st) _ (db_subs st) _ _ _ a ka); [done|apply HA|done| | | | | |].
  - intros id Hid. by apply Hget.
  - by apply (remove_keys_spec _ _ 0).
  - apply NoDup_nil_2.
  - intros id. destruct (remove_keys_spec (conn_subs ka) (db_subs st) id Hnd) as [_ ->].
    do 2 case_decide; [done|..|done]; naive_solver.
  - intros id. simpl. case_decide as Hid; [done|]. rewrite Hget in Hid.
    destruct (amap_get (conn_subs ka) id); [|done]. destruct Hid. by eexists.
  - intros l s. rewrite left_subs_lookup, HX. done.
Qed.

Lemma svc_inv_detached : svc_inv detached.
Proof.
  pose proof (inv_svc _ H) as HV. pose proof (I_F _ H) as HF.
  split; try apply HV.
  - eapply U_subs_ok, U_detached.
  - split; simpl; try apply HF; intros l Hl.
    + destruct (left_subs !! l) as [s|] eqn:E; [|done].
      apply left_subs_lookup in E as [E _]. by rewrite (F_subs _ HF) in E.
    + rewrite lookup_insert_ne; [by apply HF|]. intros <-.
      pose proof (A_conn _ _ _ _ _ _ HA) as Ha. by rewrite (F_conns _ HF) in Ha.
    + rewrite lookup_insert_ne; [by apply HF|]. intros <-.
      pose proof (A_cl _ _ _ _ _ _ HA) as Ha. by rewrite (F_clients _ HF) in Ha.
Qed.

Lemma ka_held : held_services (services st) (conn_services ka).
Proof.
  pose proof (I_H _ H) as HH. pose proof (A_conn _ _ _ _ _ _ HA) as Hka.
  pose proof (H_nodup _ _ _ HH _ _ Hka) as Hnd.
  assert (Hm : ∀ id l, (id, l) ∈ conn_services ka → ∃ s g, services st !! l = Some s ∧
            service_id s = id ∧ current s = Some g ∧ s_orphan s = false).
  { intros id l Hin%amap_get_elem; [|done].
    destruct (H_get _ _ _ HH _ _ _ _ Hka Hin) as (s & Hs & Eid & _ & Ho).
    destruct (S_ok _ _ (I_S _ H) _ _ Hs) as (_ & _ & g & Hg & _). exists s, g.
    split_and!; [done..|apply Ho, HA]. }
  split; [|done]. revert Hnd Hm. generalize (conn_services ka). intros m.
  induction m as [|[id l] m IH]; [by constructor|]. intros Hnd Hm. csimpl in *.
  unfold amap_keys in Hnd. csimpl in Hnd. apply NoDup_cons in Hnd as [Hid Hnd].
  apply NoDup_cons. split; [|apply IH; [done|]; intros id' l' Hin; apply Hm; by right].
  intros Hl. apply list_elem_of_fmap in Hl as ([id' l'] & -> & Hin). apply Hid.
  destruct (Hm id l') as (s & _ & Hs & E & _); [left|].
  destruct (Hm id' l') as (s' & _ & Hs' & E' & _); [by right|].
  assert (s' = s) as -> by congruence.
  apply list_elem_of_fmap. exists (id', l'). split; [simpl; congruence|done].
Qed.

(** What the services are afterwards. *)
Definition orphans_now : gmap loc service :=
  orphan_services now_at (conn_services ka) (services st).

Lemma orphans_now_lookup l s : services st !! l = Some s →
  orphans_now !! l =
  Some (if amap_has (conn_services ka) (service_id s) then orphan_service now_at s else s).
Proof.
  intros Hs. pose proof ka_held as [Hnd Hm]. pose proof (I_H _ H) as HH.
  pose proof (A_conn _ _ _ _ _ _ HA) as Hka. unfold orphans_now.
  rewrite orphan_services_lookup by done.
  destruct (amap_has (conn_services ka) (service_id s)) eqn:E.
  - apply amap_has_get in E as [x Hx].
    destruct (H_get _ _ _ HH _ _ _ _ Hka Hx) as (s' & Hs' & Eid & _).
    assert (x = l) as -> by (eapply (S_ids_inj _ _ (I_S _ H)); [exact Hs'|exact Hs|done]).
    rewrite decide_True; [by rewrite Hs|]. apply amap_get_Some_elem in Hx.
    apply list_elem_of_fmap. by exists (service_id s, l).
  - apply amap_has_false in E. rewrite decide_False; [done|]. intros Hin.
    apply list_elem_of_fmap in Hin as ([id x] & -> & Hin). simpl in Hs.
    destruct (Hm _ _ Hin) as (s' & _ & Hs' & Eid & _). simplify_eq.
    apply amap_get_elem in Hin; [congruence|]. by eapply H_nodup.
Qed.

Lemma orphan_service_same t s : service_id (orphan_service t s) = service_id s ∧
  s_client (orphan_service t s) = s_client s.
Proof.
  unfold orphan_service, s_client. destruct (current s) as [g|] eqn:E; simpl; [done|].
  by rewrite E.
Qed.

Lemma H_orphans_now :
  H_inv orphans_now (<[a := left_conn]> (conns st)) (client_ids (clients st)).
Proof.
  pose proof (A_conn _ _ _ _ _ _ HA) as Hka.
  assert (HH : H_inv (services st) (<[a := left_conn]> (conns st)) (client_ids (clients st))).
  { apply (H_conn _ _ _ a ka); [apply H|done|done|done|]. by rewrite left_conn_disconnected. }
  eapply H_services; [exact HH| |].
  - intros l s Hs. rewrite (orphans_now_lookup _ _ Hs). eexists. split; [done|].
    destruct (orphan_service_same now_at s) as [E1 E2].
    destruct (amap_has _ _) eqn:E; [split_and!; [done|done|]|split_and!; [done|done|]].
    + intros cn k Hk Hg Hcon. apply amap_has_get in E as [x Hx].
      assert (cn = a) as ->.
      { apply (H_uniq _ _ _ HH _ _ (service_id s) l x); [by exists k|].
        exists left_conn. by rewrite lookup_insert_eq. }
      rewrite lookup_insert_eq in Hk. injection Hk as <-. by rewrite left_conn_disconnected in Hcon.
    + intros cn k Hk Hg Hcon. destruct (H_get _ _ _ HH _ _ _ _ Hk Hg) as (s' & Hs' & _ & _ & Ho).
      simplify_eq. auto.
  - intros l s' Hs'. destruct (services st !! l) as [s|] eqn:E; [by eexists|].
    unfold orphans_now in Hs'. pose proof ka_held as [Hnd _].
    rewrite orphan_services_lookup, E in Hs' by done. by case_decide.
Qed.

(** The client, and the connections, when the connection is put away. *)
Definition left_stale : bool := bool_decide (amap_size (conn_services ka) = 0).

Definition away_conns : gmap loc conn :=
  if left_stale then delete a (conns st) else <[a := left_conn]> (conns st).

Definition away_client : client :=
  if left_stale then client_with_active None cl
  else client_with_inactive (inactive_conns cl ++ [a]) (client_with_active None cl).

Lemma rel_away :
  rel_inv orphans_now away_conns (<[lc := away_client]> (clients st)) (db_clients st)
    left_subs (remove_keys (conn_subs ka) (db_subs st)).
Proof.
  pose proof (A_conn _ _ _ _ _ _ HA) as Hka. pose proof (I_C _ H) as HC.
  pose proof (A_active _ _ _ _ _ _ HA) as Hact. pose proof (A_cl _ _ _ _ _ _ HA) as Hcl.
  assert (Hids : client_ids (<[lc := away_client]> (clients st)) = client_ids (clients st)).
  { apply (client_ids_update _ _ cl); [done|]. unfold away_client. by destruct left_stale. }
  pose proof H_orphans_now as HH. pose proof U_detached as HU.
  split; rewrite ?Hids; unfold away_conns, away_client; destruct left_stale eqn:Est.
  - eapply C_drop_conn; [done|exact Hcl| |done|done| | |].
    + apply elem_client_conns. by left.
    + intros x. simpl. split; [done|]. intros [Hx Hne]. congruence.
    + intros x. simpl. split; [|naive_solver]. intros Hx. split; [done|]. intros ->.
      destruct (C_inactive _ _ _ HC _ _ _ Hcl Hx) as (k & Hk & _ & Ed & _).
      rewrite Hka in Hk. simplify_eq. pose proof (A_connected _ _ _ _ _ _ HA). congruence.
    + apply (C_ok _ _ _ HC _ _ Hcl).
  - eapply C_disconnect; [done|exact Hcl|done| |apply left_conn_disconnected|done].
    apply (A_client _ _ _ _ _ _ HA).
  - rewrite <-(delete_insert_eq (conns st) a left_conn).
    eapply H_conns_del; [exact HH|by intros cn k [_ ?]%lookup_delete_Some|].
    intros cn k Hk. destruct (decide (a = cn)) as [<-|Hne]; [|left; by rewrite lookup_delete_ne].
    right. rewrite lookup_insert_eq in Hk. injection Hk as <-. unfold left_stale in Est.
    apply bool_decide_eq_true_1 in Est. simpl. by destruct (conn_services ka).
  - done.
  - rewrite <-(delete_insert_eq (conns st) a left_conn).
    eapply U_conns_del; [exact HU|by intros cn k [_ ?]%lookup_delete_Some|].
    intros cn k Hk. destruct (decide (a = cn)) as [<-|Hne]; [|left; by rewrite lookup_delete_ne].
    right. rewrite lookup_insert_eq in Hk. by injection Hk as <-.
  - done.
Qed.

(** *** Putting the connection away *)

(** The state in which the services have become orphans. *)
Record all_orphaned (st1 : state) : Prop := {
  AO_V : svc_inv st1;
  AO_R : same_rest detached st1;
  AO_services : services st1 = orphans_now
}.

(** The client of [c] and its connections afterwards. *)
Definition away_stale : bool := client_stale away_conns away_client.

Record put_away (st1 st' : state) : Prop := {
  PA_inv : inv st';
  PA_services : services st' = services st1;
  PA_dbs : db_services st' = db_services st1;
  PA_subs : subs st' = subs st1;
  PA_dbu : db_subs st' = db_subs st1;
  PA_outputs : outputs st' = outputs st1;
  PA_timers : timers st' = timers st1;
  PA_next : next_loc st' = next_loc st1;
  PA_clients : clients st' = if away_stale then delete lc (clients st)
                             else <[lc := away_client]> (clients st);
  PA_dbc : db_clients st' = if away_stale then amap_remove (db_clients st) c else db_clients st;
  PA_conns : conns st' = if away_stale then drop_conns (client_conns away_client) away_conns
                         else away_conns
}.

Lemma away_client_id : client_id away_client = c.
Proof. unfold away_client. destruct left_stale; apply (A_id _ _ _ _ _ _ HA). Qed.

Lemma inv_put_away st1 (cns : gmap loc conn) (cls : gmap loc client) dbc :
  all_orphaned st1 →
  rel_inv orphans_now cns cls dbc left_subs (remove_keys (conn_subs ka) (db_subs st)) →
  (∀ x, conns st1 !! x = None → cns !! x = None) →
  (∀ x, clients st1 !! x = None → cls !! x = None) →
  inv (set_db_clients (λ _, dbc) (set_clients (λ _, cls) (set_conns (λ _, cns) st1))).
Proof.
  intros [HV HR Hsv] HL H1 H2. pose proof (svc_inv_clients st1 cns cls HV H1 H2) as HV'.
  apply rel_svc_inv.
  - split; try apply HV'. split; apply (V_F _ HV').
  - simpl. by rewrite (R_subs _ _ HR), (R_dbu _ _ HR), Hsv.
Qed.

Lemma away_conns_None st1 x : all_orphaned st1 → conns st1 !! x = None → away_conns !! x = None.
Proof.
  intros [_ HR _]. rewrite (R_conns _ _ HR). simpl. intros [Hx Hne]%lookup_insert_None.
  unfold away_conns. destruct left_stale.
  - rewrite lookup_delete_None. by right.
  - by rewrite lookup_insert_ne.
Qed.

Lemma away_clients_None st1 x cl' : all_orphaned st1 → clients st1 !! x = None →
  <[lc := cl']> (clients st) !! x = None.
Proof.
  intros [_ HR _]. rewrite (R_clients _ _ HR). simpl. intros [Hx Hne]%lookup_insert_None.
  by rewrite lookup_insert_ne.
Qed.

Lemma wp_put_conn_away st1 (Q : unit → state → Prop) : all_orphaned st1 →
  Q tt (set_clients (λ _, <[lc := away_client]> (clients st)) (set_conns (λ _, away_conns) st1)) →
  wp (stale ← conn_is_stale a;
      if (stale : bool) then conn_destroy a
      else update lc (λ c, Ok (client_with_inactive (inactive_conns c ++ [a]) c))) Q st1.
Proof.
  intros HO HQ. pose proof (AO_R _ HO) as HR.
  assert (Ec : conns st1 = <[a := left_conn]> (conns st)) by apply (R_conns _ _ HR).
  assert (Ecl : clients st1 = <[lc := client_with_active None cl]> (clients st))
    by apply (R_clients _ _ HR).
  apply wp_bind. eapply wp_conn_is_stale; [rewrite Ec; apply lookup_insert_eq|].
  assert (Est : stale left_conn = left_stale).
  { unfold stale. by rewrite left_conn_disconnected. }
  rewrite Est. unfold away_client, away_conns in HQ. destruct left_stale eqn:E.
  - unfold left_stale in E. apply bool_decide_eq_true_1 in E.
    eapply wp_conn_destroy_empty; [rewrite Ec; apply lookup_insert_eq| |done|].
    { simpl. by destruct (conn_services ka). }
    refine (eq_ind _ (Q tt) HQ _ _). apply state_ext; try reflexivity; simpl.
    + by rewrite Ec, delete_insert_eq.
    + by rewrite Ecl.
  - eapply wp_update; [simpl; rewrite Ecl; apply lookup_insert_eq|reflexivity|].
    refine (eq_ind _ (Q tt) HQ _ _). apply state_ext; try reflexivity; simpl.
    + by rewrite Ec.
    + by rewrite Ecl, insert_insert_eq.
Qed.

Lemma wp_put_client_away st1 (Q : unit → state → Prop) : all_orphaned st1 →
  (∀ st', put_away st1 st' → Q tt st') →
  wp (client_stale ← client_is_stale lc;
      if (client_stale : bool) then id ← read lc (λ c, Ok (client_id c)); db_del_client id
      else mret tt) Q
    (set_clients (λ _, <[lc := away_client]> (clients st)) (set_conns (λ _, away_conns) st1)).
Proof.
  intros HO HQ. pose proof (AO_R _ HO) as HR. pose proof rel_away as HL.
  assert (Hcl : <[lc := away_client]> (clients st) !! lc = Some away_client)
    by apply lookup_insert_eq.
  destruct (C_ok _ _ _ (L_C _ _ _ _ _ _ HL) _ _ Hcl) as (H0 & Hr & _).
  apply wp_bind. eapply wp_client_is_stale; [exact Hcl| |].
  { intros cn' Hin. by eapply rel_conns_exist. }
  change (client_stale _ _) with away_stale.
  destruct away_stale eqn:Est.
  - pose proof (client_stale_nothing _ _ _ _ _ _ HL _ _ Hcl Est) as Hnothing.
    pose proof (rel_drop_client _ _ _ _ _ _ HL _ _ Hcl Hnothing) as HL'.
    rewrite delete_insert_eq, away_client_id in HL'.
    eapply wp_db_del_client; [exact Hcl|done| |].
    { simpl. rewrite (R_dbc _ _ HR), away_client_id. apply (A_db _ _ _ _ _ _ HA). }
    eapply wp_client_dec_ref_last; [exact Hcl|done| |exact Hnothing|].
    { exact (client_conns_nodup _ _ _ _ _ _ HL _ _ Hcl). }
    refine (eq_ind _ (Q tt) (HQ (set_db_clients (λ _, amap_remove (db_clients st) c)
      (set_clients (λ _, delete lc (clients st))
        (set_conns (λ _, drop_conns (client_conns away_client) away_conns) st1))) _) _ _).
    + split; rewrite ?Est; try done. apply inv_put_away; [done|done|intros x Hx..].
      * destruct (decide (x ∈ client_conns away_client)); [by apply drop_conns_in|].
        rewrite drop_conns_notin by done. by eapply away_conns_None.
      * rewrite lookup_delete_None. destruct (decide (x = lc)) as [|Hne]; [by left|right].
        pose proof (away_clients_None st1 x away_client HO Hx) as E.
        by rewrite lookup_insert_ne in E by done.
    + apply state_ext; try reflexivity; simpl.
      * by rewrite delete_insert_eq.
      * by rewrite (R_dbc _ _ HR), away_client_id.
  - apply wp_ret.
    refine (eq_ind _ (Q tt) (HQ (set_db_clients (λ _, db_clients st)
      (set_clients (λ _, <[lc := away_client]> (clients st))
        (set_conns (λ _, away_conns) st1))) _) _ _).
    + split; rewrite ?Est; try done. apply inv_put_away; [done|done|intros x Hx..].
      * by eapply away_conns_None.
      * by eapply away_clients_None.
    + apply state_ext; try reflexivity; simpl. by rewrite (R_dbc _ _ HR).
Qed.

(** *** The whole operation *)

(** The services that the active connection holds become orphans, the
    subscriptions of the client go. *)
Record disconnected_from (st' : state) : Prop := {
  DF_inv : inv st';
  DF_connected : ∀ c', connected st' c' = if decide (c' = c) then false else connected st c';
  DF_svc : ∀ id, svc_at st' id =
    if amap_has (conn_services ka) id then orphan_service now_at <$> svc_at st id
    else svc_at st id;
  DF_sub : ∀ id, sub_at st' id =
    s ← sub_at st id; if decide (sub_client_id s = c) then None else Some s;
  DF_held : ∀ c' i, held st' c' i = if decide (c' = c) then false else held st c' i;
  DF_reported : reports st' = reports st ++ reported_orphans detached now_at (conn_services ka);
  DF_subs : subs st' = left_subs;
  DF_dbu : db_subs st' = remove_keys (conn_subs ka) (db_subs st);
  DF_kept : kept st st'
}.

Lemma left_sub_at id :
  (l ← amap_get (remove_keys (conn_subs ka) (db_subs st)) id; left_subs !! l) =
  s ← sub_at st id; if decide (sub_client_id s = c) then None else Some s.
Proof.
  pose proof (I_U _ H) as HU. pose proof (U_nodup _ _ _ _ HU) as Hnd.
  destruct (remove_keys_spec (conn_subs ka) (db_subs st) id Hnd) as [_ ->].
  destruct (sub_at st id) as [s|] eqn:Es; simpl.
  - destruct (sub_at_spec _ _ _ H Es) as (l & Hdb & Hs & Eid). rewrite Hdb.
    destruct (active_holds_sub st c lc cl a ka HA H id l s Hdb Hs) as [[Eg Ec]|[Eg Ec]].
    + rewrite (decide_True (P := sub_client_id s = c)) by done.
      rewrite decide_True; [done|]. apply amap_get_Some_elem in Eg.
      apply list_elem_of_fmap. by exists (id, l).
    + apply amap_get_None in Eg. rewrite !decide_False by done. simpl.
      apply left_subs_lookup. by rewrite Eid.
  - rewrite (sub_at_None _ _ H Es). by case_decide.
Qed.

(** The connections of the other clients are there as before. *)
Lemma away_conns_other st1 st' x k : put_away st1 st' → conns st !! x = Some k → conn_client k ≠ lc →
  conns st' !! x = Some k.
Proof.
  intros P Hx Hne. pose proof (I_C _ H) as HC. pose proof (A_cl _ _ _ _ _ _ HA) as Hcl.
  assert (Hxa : x ≠ a).
  { intros ->. rewrite (A_conn _ _ _ _ _ _ HA) in Hx. simplify_eq. apply Hne, HA. }
  assert (Haway : away_conns !! x = Some k).
  { unfold away_conns. destruct left_stale; by rewrite ?lookup_delete_ne, ?lookup_insert_ne. }
  rewrite (PA_conns _ _ P). destruct away_stale; [|done]. rewrite drop_conns_notin; [done|].
  intros Hin%elem_client_conns. unfold away_client in Hin.
  assert (Hi : x ∈ inactive_conns cl).
  { destruct left_stale; simpl in Hin; destruct Hin as [?|Hin]; try done.
    apply elem_of_app in Hin as [?|Hin%list_elem_of_singleton]; [done|congruence]. }
  destruct (C_inactive _ _ _ HC _ _ _ Hcl Hi) as (k' & Hk' & E & _). congruence.
Qed.

Lemma held_connected st0 c' i : held st0 c' i = true → connected st0 c' = true.
Proof.
  unfold held, active_conn_of, connected. destruct (client_at st0 c') as [cl'|]; [|done]. simpl.
  unfold client_is_connected. by destruct (active_conn cl').
Qed.

Lemma put_away_client_at st1 st' c' : put_away st1 st' → c' ≠ c → client_at st' c' = client_at st c'.
Proof.
  intros P Ec. pose proof (I_C _ H) as HC. unfold client_at. rewrite (PA_dbc _ _ P), (PA_clients _ _ P).
  assert (Hother : ∀ lc', amap_get (db_clients st) c' = Some lc' → lc ≠ lc').
  { intros lc' Hget <-. destruct (C_get _ _ _ HC _ _ Hget) as (cl0 & Hcl0 & E0).
    rewrite (A_cl _ _ _ _ _ _ HA) in Hcl0. simplify_eq. apply Ec, (A_id _ _ _ _ _ _ HA). }
  destruct away_stale; [rewrite amap_get_remove, decide_False by (done || apply HC)|];
    (destruct (amap_get (db_clients st) c') as [lc'|] eqn:E; [|done]); simpl.
  - rewrite lookup_delete_ne; [done|]. by apply Hother.
  - rewrite lookup_insert_ne; [done|]. by apply Hother.
Qed.

Lemma put_away_connected st1 st' c' : put_away st1 st' →
  connected st' c' = if decide (c' = c) then false else connected st c'.
Proof.
  intros P. case_decide as Ec; [subst c'|unfold connected; by rewrite (put_away_client_at _ _ _ P Ec)].
  unfold connected, client_at. rewrite (PA_dbc _ _ P), (PA_clients _ _ P). destruct away_stale.
  - rewrite amap_get_remove, decide_True; [done..|apply (I_C _ H)].
  - rewrite (A_db _ _ _ _ _ _ HA). simpl. rewrite lookup_insert_eq. unfold away_client. by destruct left_stale.
Qed.

Lemma put_away_held st1 st' c' i : put_away st1 st' →
  held st' c' i = if decide (c' = c) then false else held st c' i.
Proof.
  intros P. pose proof (I_C _ H) as HC. pose proof (put_away_connected _ _ c' P) as Hcon. case_decide as Ec.
  - destruct (held st' c' i) eqn:E; [|done]. apply held_connected in E. congruence.
  - unfold held. enough (active_conn_of st' c' = active_conn_of st c') as -> by done.
    unfold active_conn_of. rewrite (put_away_client_at _ _ _ P Ec). unfold client_at.
    destruct (amap_get (db_clients st) c') as [lc'|] eqn:E; [|done]. simpl.
    destruct (C_get _ _ _ HC _ _ E) as (cl' & Hcl' & Eid). rewrite Hcl'. simpl.
    destruct (active_conn cl') as [cn|] eqn:Ea; [|done]. simpl.
    destruct (C_active _ _ _ HC _ _ _ Hcl' Ea) as (k & Hk & Ek & _).
    rewrite Hk, (away_conns_other st1 st' cn k P Hk); [done|].
    rewrite Ek. intros ->. rewrite (A_cl _ _ _ _ _ _ HA) in Hcl'. simplify_eq.
    apply Ec, (A_id _ _ _ _ _ _ HA).
Qed.

Lemma DF_told st' : disconnected_from st' →
  match_calls st' = match_calls st ++ told_orphans detached now_at (conn_services ka).
Proof. intros D. rewrite <-reported_told_orphans. apply calls_appended, D. Qed.

Lemma put_away_disconnected st1 st' : all_orphaned st1 → put_away st1 st' →
  reports st1 = reports st ++ reported_orphans detached now_at (conn_services ka) →
  disconnected_from st'.
Proof.
  intros [HV HR Hsv] P Hcalls. split.
  - apply P.
  - intros c'. by eapply put_away_connected.
  - intros id. unfold svc_at. rewrite (PA_dbs _ _ P), (PA_services _ _ P), (R_dbs _ _ HR), Hsv. simpl.
    destruct (amap_get (db_services st) id) as [l|] eqn:E; simpl.
    + destruct (S_get _ _ (I_S _ H) _ _ E) as (s & Hs & Eid). rewrite Hs.
      rewrite (orphans_now_lookup _ _ Hs), Eid. simpl. by destruct (amap_has _ _).
    + by destruct (amap_has _ _).
  - intros id. unfold sub_at at 1. rewrite (PA_subs _ _ P), (PA_dbu _ _ P), (R_subs _ _ HR), (R_dbu _ _ HR).
    apply left_sub_at.
  - intros c' i. by eapply put_away_held.
  - unfold reports. by rewrite (PA_outputs _ _ P).
  - by rewrite (PA_subs _ _ P), (R_subs _ _ HR).
  - by rewrite (PA_dbu _ _ P), (R_dbu _ _ HR).
  - apply (kept_trans _ detached); [by apply kept_same|].
    apply (kept_trans _ st1); [apply HR|].
    apply kept_same; [apply P|]. by rewrite (PA_next _ _ P).
Qed.

Lemma wp_detach (Q : unit → state → Prop) : Q tt detached →
  wp (_ ← client_set_active lc None; _ ← conn_mark_disconnected a;
      _ ← conn_foreach_sub a (λ id _, db_del_sub id); conn_clear_subs a) Q st.
Proof.
  intros HQ. pose proof ka_subs_of as Hof. pose proof (subs_of_locs _ _ _ Hof) as Hnd.
  apply wp_bind. eapply wp_update; [apply HA|reflexivity|]. apply wp_bind.
  unfold conn_mark_disconnected. apply wp_bind. eapply wp_load; [apply HA|].
  apply wp_bind. eapply wp_lift; [by rewrite (A_connected _ _ _ _ _ _ HA)|].
  apply wp_bind. unfold wp at 1, ut_ftime. apply wp_modify.
  apply wp_bind. unfold conn_foreach_sub. apply wp_bind.
  eapply wp_conn_subs_at; [apply lookup_insert_eq|].
  apply (wp_del_subs (conn_subs ka)); [apply (U_nodup _ _ _ _ (I_U _ H))|exact Hof|].
  unfold conn_clear_subs, map_clear_cnted. apply wp_bind.
  eapply wp_conn_subs_at; [apply lookup_insert_eq|]. apply wp_bind.
  apply (wp_drop_subs (conn_subs ka)); [exact Hnd| |].
  - intros id l Hin. destruct (proj2 Hof _ _ Hin) as (_ & s & Hs & _ & _ & Hr). simpl.
    rewrite drop_refs_lookup by done. rewrite decide_True.
    + rewrite Hs. simpl. eexists. split; [done|]. simpl. lia.
    + apply list_elem_of_fmap. by exists (id, l).
  - eapply wp_update; [apply lookup_insert_eq|reflexivity|].
    refine (eq_ind _ (Q tt) HQ _ _). apply state_ext; try reflexivity. simpl.
    by rewrite insert_insert_eq.
Qed.

Lemma wp_disconnect (Q : Z → state → Prop) : (∀ st', disconnected_from st' → Q 0%Z st') →
  wp (sd_client_disconnect c) Q st.
Proof.
  intros HQ. apply (wp_with_client st c lc cl a ka HA). unfold client_disconnect.
  apply wp_bind, (wp_assert_connected st c lc cl a ka HA), wp_bind,
    (wp_client_active st c lc cl a ka HA); [done|].
  apply wp_seq4, wp_detach.
  apply wp_bind. eapply (wp_read _ _ _ now_at); [apply lookup_insert_eq|done|].
  apply wp_bind. unfold conn_foreach_service. apply wp_bind.
  eapply wp_conn_services_at; [apply lookup_insert_eq|].
  apply wp_orphan_services; [apply svc_inv_detached|apply now_at_ok|apply ka_held|].
  intros st1 HV HR Hsv Hcalls. assert (HO : all_orphaned st1) by (by split).
  apply wp_assoc_if, wp_put_conn_away; [done|]. apply wp_assoc_if, (wp_put_client_away st1); [done|].
  intros st' P. apply wp_ret, HQ. by eapply put_away_disconnected.
Qed.
End disconnect.
