(* ===== verification/SdRun.v ===== *)
(** * Runs of the core

    The requests of the protocol layer (src/proto/proto_conn.c) and libevent's
    timeouts as events, and sequences of them.  Every event that its caller may
    cause keeps the invariant; the subscribers' view of the services is
    followed through a run. *)

From S2P Require Import Prelude CLib Pvalue Props Filter FilterParse Double Service Sub Amap Heap Client Sd SdWp SdInv SdOps SdRemove SdSubs SdDisconnect.

(** ** Events *)

(** [handle_subscribe] creates the subscription and, if that succeeds,
    activates it. *)
Definition subscribe (c id : Z) (fs : option cstr) (cb_data : Z) : M state Z :=
  r ← sd_create_sub c id fs cb_data;
  _ ← (if bool_decide (r = 0)%Z then sd_activate_sub c id else mret tt);
  mret r.

Inductive event :=
  | EConnect (c : Z) (addr : option cstr)
  | EDisconnect (c : Z)
  | EPublish (c id gen : Z) (p : props) (ttl : Z)
  | EUnpublish (c id : Z)
  | ESubscribe (c id : Z) (fs : option cstr) (cb_data : Z)
  | EUnsubscribe (c id : Z)
  | ETimeout (t : loc).

Definition run_event (e : event) : M state Z :=
  match e with
  | EConnect c addr => sd_client_connect c addr
  | EDisconnect c => sd_client_disconnect c
  | EPublish c id gen p ttl => sd_publish c id gen p ttl
  | EUnpublish c id => sd_unpublish c id
  | ESubscribe c id fs cb_data => subscribe c id fs cb_data
  | EUnsubscribe c id => sd_unsubscribe c id
  | ETimeout t => _ ← orphan_timeout_cb t; mret 0%Z
  end.

Fixpoint run_events (evs : list event) : M state (list Z) :=
  match evs with
  | [] => mret []
  | e :: evs' => r ← run_event e; rs ← run_events evs'; mret (r :: rs)
  end.

(** ** What the callers see to *)

(** The client is connected, or not known. *)
Definition caller_ok (st : state) (c : Z) : bool :=
  match client_at st c with Some cl => client_is_connected cl | None => true end.

Fixpoint simple_b (f : filter_t) : bool :=
  match f with
  | FSubstring _ _ m fin =>
      match default [] m with
      | [] => true
      | [_] => match fin with None => true | Some _ => false end
      | _ => false
      end
  | FNot g => simple_b g
  | FComposite _ gs => forallb simple_b gs
  | _ => true
  end.

Lemma simple_b_spec f : simple_b f = true ↔ simple f.
Proof.
  induction f as [op key s|key|key i m fin|g IH|op gs IH] using filter_nested_ind; simpl; try done.
  - destruct (default [] m) as [|? []]; [done| |done]. by destruct fin.
  - rewrite foldr_and_Forall, forallb_forall, !Forall_forall in *. split.
    + intros Hb g Hg. apply IH; [done|]. by apply Hb, list_elem_of_In.
    + intros Hf g Hg%list_elem_of_In. apply IH; auto.
Qed.

(** Requests carry non-negative numbers ([uint63] fields); times to live are
    below 2^32 seconds, strings have the sizes that fit a message, patterns
    have no part behind a wildcard in the middle (see [Filter.simple]).  A
    timer fires when it is pending; that of a service whose owner is connected
    again must not, see [timeout_after_reconnect]. *)
Definition allowed (st : state) (e : event) : bool :=
  match e with
  | EConnect c _ => bool_decide (0 ≤ c)%Z
  | EDisconnect c => caller_ok st c
  | EPublish c id gen p ttl =>
      caller_ok st c && bool_decide (0 ≤ id)%Z && bool_decide (0 ≤ gen)%Z &&
      bool_decide (0 ≤ ttl ≤ 2 ^ 32)%Z && bool_decide (props_fit p)
  | EUnpublish c _ => caller_ok st c
  | ESubscribe c id fs _ =>
      caller_ok st c && bool_decide (0 ≤ id)%Z &&
      match request_filter fs with Some (Some f) => simple_b f | _ => true end
  | EUnsubscribe c _ => caller_ok st c
  | ETimeout t =>
      match timers st !! t with
      | Some x =>
          match services st !! timer_service x with
          | Some s => negb (connected st (s_client s))
          | None => false
          end
      | None => false
      end
  end.

Fixpoint admissible (st : state) (evs : list event) : bool :=
  match evs with
  | [] => true
  | e :: evs' =>
      allowed st e &&
      match run_event e st with Ok (_, st') => admissible st' evs' | Fail _ => true end
  end.

(** ** What subscribers know *)

(** The services a subscriber knows, as its match callback is called; a call
    that does not fit what it knows is an error. *)
Definition replay1 (X : gset Z) (m : sub_match_type) (id : Z) : option (gset Z) :=
  match m with
  | sub_match_type_appeared => if decide (id ∈ X) then None else Some ({[id]} ∪ X)
  | sub_match_type_modified => if decide (id ∈ X) then Some X else None
  | sub_match_type_disappeared => if decide (id ∈ X) then Some (X ∖ {[id]}) else None
  end.

Fixpoint replay (l : loc) (calls : list (loc * Z * sub_match_type * Z)) (X : gset Z)
    : option (gset Z) :=
  match calls with
  | [] => Some X
  | (l', _, m, id) :: calls' =>
      if decide (l' = l) then X' ← replay1 X m id; replay l calls' X' else replay l calls' X
  end.

(** What a subscriber writes down that keeps the generations of the services it
    is told of; a report that does not fit what it has is an error. *)
Definition table1 (T : gmap Z generation) (m : sub_match_type) (id : Z) (g : option generation)
    : option (gmap Z generation) :=
  match m, g with
  | sub_match_type_appeared, Some g => if decide (is_Some (T !! id)) then None else Some (<[id := g]> T)
  | sub_match_type_modified, Some g => if decide (is_Some (T !! id)) then Some (<[id := g]> T) else None
  | sub_match_type_disappeared, _ => if decide (is_Some (T !! id)) then Some (delete id T) else None
  | _, None => None
  end.

Fixpoint tabulate (l : loc) (rs : list report) (T : gmap Z generation) : option (gmap Z generation) :=
  match rs with
  | [] => Some T
  | (l', _, m, id, g) :: rs' =>
      if decide (l' = l) then T' ← table1 T m id g; tabulate l rs' T' else tabulate l rs' T
  end.

(** What a subscription is to know of a service. *)
Definition selected (s : sub) (g : option generation) : option generation :=
  if sees s (g ≫= gen_props) then g else None.

Definition view_ok (st : state) (l : loc) (s : sub) : Prop :=
  ∃ T, tabulate l (reports st) ∅ = Some T ∧ ∀ id, T !! id = selected s (gen_at st id).

Lemma selected_is_Some s g : is_Some (selected s g) ↔ sees s (g ≫= gen_props) = true.
Proof.
  unfold selected. destruct (sees s _) eqn:E; [|split; [by intros [? [=]]|done]].
  split; [done|]. intros _. destruct g; [by eexists|done].
Qed.

(** The table has the services that the calls tell of. *)
Lemma tabulate_replay l rs : ∀ T T', tabulate l rs T = Some T' →
  replay l rs.*1 (dom T) = Some (dom T').
Proof.
  induction rs as [|[[[[l' d] m] id] g] rs IH]; intros T T' E; [by injection E as <-|]. csimpl in *.
  case_decide; [|by apply IH]. apply bind_Some in E as (T1 & E1 & E). apply IH in E. clear IH.
  destruct m, g as [g|]; simpl in *; try done; repeat case_decide;
    try (rewrite elem_of_dom in * ); try done; injection E1 as <-;
    rewrite ?dom_insert_L, ?dom_delete_L in E; simpl; try done.
  rewrite <-E. f_equal. set_unfold. intros x. rewrite elem_of_dom. naive_solver.
Qed.

Lemma tabulate_app l r1 r2 T : tabulate l (r1 ++ r2) T = T' ← tabulate l r1 T; tabulate l r2 T'.
Proof.
  revert T. induction r1 as [|[[[[l' d] m] id] g] r1 IH]; intros T; [done|]. simpl.
  case_decide; [|apply IH]. destruct (table1 T m id g); simpl; [apply IH|done].
Qed.

(** Reports to other subscriptions do not matter. *)
Lemma tabulate_other l rs T : Forall (λ r, r.1.1.1.1 ≠ l) rs → tabulate l rs T = Some T.
Proof.
  induction 1 as [|[[[[l' d] m] id] g] rs Hne _ IH]; [done|]. simpl in *. by rewrite decide_False.
Qed.

Lemma told_locs st id g g' c : c ∈ told st id g g' → ∃ i, (i, c.1.1.1) ∈ db_subs st.
Proof.
  unfold told. rewrite list_elem_of_omap. intros ([i l] & Hin & Hc). simpl in Hc.
  destruct (subs st !! l) as [s|]; [|done]. simpl in Hc.
  destruct (transition _ _); [|done]. simpl in Hc. simplify_eq. by exists i.
Qed.

(** A subscription is told of a change at most once. *)
Lemma told_split sb dbu cns cid i l : U_inv sb dbu cns cid → amap_get dbu i = Some l →
  ∃ d1 d2, dbu = d1 ++ (i, l) :: d2 ∧
    Forall (λ kv, kv.2 ≠ l) d1 ∧ Forall (λ kv, kv.2 ≠ l) d2.
Proof.
  intros HU Hi. pose proof (U_nodup _ _ _ _ HU) as Hnd.
  destruct (U_get _ _ _ _ HU _ _ Hi) as (s & Hs & Eid).
  apply amap_get_Some_elem, list_elem_of_split in Hi as (d1 & d2 & Edb).
  exists d1, d2. split; [done|]. unfold amap_keys in Hnd. rewrite Edb, fmap_app in Hnd.
  apply NoDup_app in Hnd as (_ & Hd1 & Hd2). csimpl in *.
  apply NoDup_cons in Hd2 as [Hd2 _].
  assert (Hlocs : ∀ j, (j, l) ∈ dbu → j = i).
  { intros j Hj. apply amap_get_elem in Hj; [|apply HU].
    destruct (U_get _ _ _ _ HU _ _ Hj) as (s' & Hs' & E'). congruence. }
  split; apply Forall_forall; intros [j x] Hin E; simpl in E; subst x.
  - assert (j = i) as ->. { apply Hlocs. rewrite Edb. apply elem_of_app. by left. }
    apply (Hd1 i); [apply list_elem_of_fmap; by exists (i, l)|left].
  - assert (j = i) as ->. { apply Hlocs. rewrite Edb. apply elem_of_app. right. by right. }
    apply Hd2, list_elem_of_fmap. by exists (i, l).
Qed.

(** Following one change. *)
Lemma tabulate_reported st cns cid id g g' i l s T : U_inv (subs st) (db_subs st) cns cid →
  amap_get (db_subs st) i = Some l → subs st !! l = Some s → T !! id = selected s g →
  ∃ T', tabulate l (reported st id g g') T = Some T' ∧
    T' !! id = selected s g' ∧ (∀ j, j ≠ id → T' !! j = T !! j).
Proof.
  intros HU Hi Hs HT. destruct (told_split _ _ _ _ _ _ HU Hi) as (d1 & d2 & E & H1 & H2).
  set (f := λ kv : Z * loc, s ← subs st !! kv.2;
    t ← transition (sees s (g ≫= gen_props)) (sees s (g' ≫= gen_props));
    Some (kv.2, match_cb_data s, t, id, content t g')).
  assert (Hskip : ∀ d Y, Forall (λ kv : Z * loc, kv.2 ≠ l) d → tabulate l (omap f d) Y = Some Y).
  { intros d Y Hd. apply tabulate_other, Forall_forall. intros c Hc.
    apply list_elem_of_omap in Hc as ([j x] & Hin & Hc). simpl in Hc.
    rewrite Forall_forall in Hd. specialize (Hd _ Hin). simpl in Hd. unfold f in Hc. simpl in Hc.
    destruct (subs st !! x); [|done]. simpl in Hc. destruct (transition _ _); [|done].
    simpl in Hc. by simplify_eq. }
  unfold reported. fold f. rewrite E, omap_app, tabulate_app, (Hskip d1 T H1).
  cbn [mbind option_bind]. rewrite omap_cons_eq.
  assert (Ef : f (i, l) = t ← transition (sees s (g ≫= gen_props)) (sees s (g' ≫= gen_props));
    Some (l, match_cb_data s, t, id, content t g')) by (unfold f; simpl; by rewrite Hs).
  rewrite Ef. unfold selected in *.
  assert (Hn : sees s (None ≫= gen_props) = false) by done.
  destruct (sees s (g ≫= gen_props)) eqn:Eg, (sees s (g' ≫= gen_props)) eqn:Eg';
    cbn [transition mbind option_bind content tabulate]; try rewrite decide_True by done.
  - destruct g as [g|], g' as [g'|]; try done. simpl. rewrite decide_True by (rewrite HT; by eexists).
    simpl. rewrite (Hskip d2 _ H2). eexists. split; [done|]. split; [apply lookup_insert_eq|].
    intros j Hj. by rewrite lookup_insert_ne.
  - destruct g as [g|]; [|done]. simpl. rewrite decide_True by (rewrite HT; by eexists). simpl.
    rewrite (Hskip d2 _ H2). eexists. split; [done|]. split; [apply lookup_delete_eq|].
    intros j Hj. by rewrite lookup_delete_ne.
  - destruct g' as [g'|]; [|done]. simpl. rewrite decide_False by (rewrite HT; by intros []). simpl.
    rewrite (Hskip d2 _ H2). eexists. split; [done|]. split; [apply lookup_insert_eq|].
    intros j Hj. by rewrite lookup_insert_ne.
  - rewrite (Hskip d2 T H2). by exists T.
Qed.

Lemma tabulate_reported_all st cns cid id gs i l s : U_inv (subs st) (db_subs st) cns cid →
  amap_get (db_subs st) i = Some l → subs st !! l = Some s →
  ∀ g T, T !! id = selected s g →
  ∃ T', tabulate l (reported_all st id g gs) T = Some T' ∧
    T' !! id = selected s (last_gen g gs) ∧ (∀ j, j ≠ id → T' !! j = T !! j).
Proof.
  intros HU Hi Hs. induction gs as [|g' gs IH]; intros g T HT; [by exists T|].
  destruct (tabulate_reported st cns cid id g g' i l s T HU Hi Hs HT) as (T1 & E1 & H1 & HO1).
  destruct (IH g' T1 H1) as (T2 & E2 & H2 & HO2). exists T2. cbn [reported_all].
  rewrite tabulate_app, E1. cbn [mbind option_bind]. split_and!; [done|exact H2|].
  intros j Hj. by rewrite HO2, HO1.
Qed.

(** ** Good states *)

Record good (st : state) : Prop := {
  Good_inv : inv st;
  Good_pending : pending_inv (timers st);
  Good_calls : Forall (λ c, (c.1.1.1 < next_loc st)%positive) (match_calls st);
  Good_views : ∀ l s, subs st !! l = Some s → view_ok st l s
}.

(** What a subscriber knows that follows the calls alone. *)
Definition knows (s : sub) (gens : Z → option generation) (X : gset Z) : Prop :=
  ∀ id, id ∈ X ↔ sees s (gens id ≫= gen_props) = true.

Lemma Good_sets st l s : good st → subs st !! l = Some s →
  ∃ X, replay l (match_calls st) ∅ = Some X ∧ knows s (gen_at st) X.
Proof.
  intros G Hs. destruct (Good_views _ G _ _ Hs) as (T & HT & HK). exists (dom T). split.
  - apply tabulate_replay in HT. by rewrite dom_empty_L, reports_calls in HT.
  - intros id. by rewrite elem_of_dom, HK, selected_is_Some.
Qed.

Lemma good_create clk : (∀ n, timespec_ok (clk n)) → good (sd_create clk).
Proof. intros H. split; [by apply inv_create|done|by apply Forall_nil_2|done]. Qed.

Lemma calls_kept st st' : kept st st' →
  Forall (λ c, (c.1.1.1 < next_loc st)%positive) (match_calls st) →
  Forall (λ c, (c.1.1.1 < next_loc st')%positive) (match_calls st).
Proof.
  intros [_ N] Hc. eapply Forall_impl; [exact Hc|]. simpl. intros c. lia.
Qed.

Lemma sub_loc_fresh st i l : inv st → amap_get (db_subs st) i = Some l → (l < next_loc st)%positive.
Proof.
  intros H Hi. destruct (U_get _ _ _ _ (I_U _ H) _ _ Hi) as (s & Hs & _).
  destruct (decide (l < next_loc st)%positive) as [|Hn]; [done|].
  rewrite (F_subs _ (I_F _ H)) in Hs by lia. done.
Qed.

Lemma told_fresh st id g g' : inv st →
  Forall (λ c, (c.1.1.1 < next_loc st)%positive) (told st id g g').
Proof.
  intros H. apply Forall_forall. intros c (i & Hi)%told_locs.
  apply amap_get_elem in Hi; [|apply (U_nodup _ _ _ _ (I_U _ H))]. by eapply sub_loc_fresh.
Qed.

Lemma told_all_fresh st id gs : inv st → ∀ g,
  Forall (λ c, (c.1.1.1 < next_loc st)%positive) (told_all st id g gs).
Proof.
  intros H. induction gs as [|g' gs IH]; intros g; [by apply Forall_nil_2|].
  cbn [told_all]. apply Forall_app. split; [by apply told_fresh|apply IH].
Qed.

(** One service has changed. *)
Lemma good_changes st id gs st' : good st → changes st id gs st' → good st'.
Proof.
  intros G C. pose proof (Good_inv _ G) as H. destruct (GS_kept _ _ _ _ C) as [_ N]. split.
  - apply C.
  - eapply kept_pending; [apply C|apply G].
  - rewrite (GS_told _ _ _ _ C). apply Forall_app. split.
    + eapply calls_kept; [apply C|apply G].
    + eapply Forall_impl; [by apply told_all_fresh|]. simpl. intros c. lia.
  - intros l s Hs. rewrite (GS_subs _ _ _ _ C) in Hs.
    destruct (Good_views _ G _ _ Hs) as (T & HT & HK).
    pose proof (U_db _ _ _ _ (I_U _ H) _ _ Hs) as Hi.
    destruct (tabulate_reported_all st _ _ id gs _ l s (I_U _ H) Hi Hs (gen_at st id) T (HK id))
      as (T' & HT' & Hid & Hother).
    exists T'. rewrite (GS_reported _ _ _ _ C), tabulate_app, HT. split; [done|].
    intros j. destruct (decide (j = id)) as [->|Hne].
    + by rewrite Hid, (GS_gen _ _ _ _ C).
    + rewrite Hother by done. unfold gen_at. rewrite (GS_other _ _ _ _ C) by done. apply HK.
Qed.

Lemma good_changed st id g st' : good st → changed st id g st' → good st'.
Proof. intros G C. by eapply good_changes, changes_one. Qed.

(** The services and the subscriptions are as before. *)
Lemma good_same st st' : good st → inv st' → kept st st' → services st' = services st →
  db_services st' = db_services st → outputs st' = outputs st →
  (∀ l s, subs st' !! l = Some s → subs st !! l = Some s) → good st'.
Proof.
  intros G H' K E1 E2 E3 E4. split; [done|by eapply kept_pending; [|apply G]| |].
  - unfold match_calls. rewrite E3. by eapply calls_kept; [|apply G].
  - intros l s Hs%E4. destruct (Good_views _ G _ _ Hs) as (T & HT & HK). exists T.
    unfold reports. rewrite E3. split; [done|]. intros id. rewrite (HK id).
    unfold gen_at, svc_at. by rewrite E1, E2.
Qed.

(** ** Disconnecting keeps the views *)

Lemma orphaned_props t g : gen_props (orphaned t g) = gen_props g.
Proof. done. Qed.

Section disconnected.
Context (st : state) (c : Z) (lc : loc) (cl : client) (a : loc) (ka : conn).
Context (HA : active_client st c lc cl a ka) (G : good st).

Lemma gen_at_services id l s : services st !! l = Some s → service_id s = id →
  gen_at st id = current s.
Proof. intros Hs <-. unfold gen_at. by rewrite (gen_at_db _ _ _ (Good_inv _ G) Hs). Qed.

Definition now_orphaned (m : amap loc) (id : Z) : option generation :=
  if amap_has m id then orphaned (now_at st) <$> gen_at st id else gen_at st id.

Lemma tabulate_orphans m l s i T :
  let dst := detached st lc cl a ka in
  amap_get (db_subs dst) i = Some l → subs dst !! l = Some s → NoDup (amap_keys m) →
  (∀ id, T !! id = selected s (gen_at st id)) →
  (∀ id x, (id, x) ∈ m → ∃ s', services st !! x = Some s' ∧ service_id s' = id) →
  ∃ T', tabulate l (reported_orphans dst (now_at st) m) T = Some T' ∧
    ∀ id, T' !! id = selected s (now_orphaned m id).
Proof.
  intros dst Hi Hs Hnd HT Hm.
  enough (∃ T', tabulate l (reported_orphans dst (now_at st) m) T = Some T' ∧
    ∀ id, T' !! id = if amap_has m id then selected s (now_orphaned m id) else T !! id) as (T' & E & H').
  { exists T'. split; [done|]. intros id. rewrite H'. unfold now_orphaned.
    by destruct (amap_has m id). }
  assert (HTm : ∀ id, id ∈ amap_keys m → T !! id = selected s (gen_at st id)) by auto. clear HT.
  revert T HTm. unfold amap_keys in *. induction m as [|[id x] m IH]; intros T HT; [by exists T|].
  csimpl in Hnd. apply NoDup_cons in Hnd as [Hid Hnd].
  unfold reported_orphans. csimpl. fold (reported_orphans dst (now_at st) m).
  destruct (Hm id x) as (srv & Hx & Eid); [left|]. rewrite Hx. csimpl.
  pose proof (gen_at_services _ _ _ Hx Eid) as Egen.
  assert (Hrest : ∃ T1, tabulate l match current srv with
      | Some g => reported dst id (Some g) (Some (orphaned (now_at st) g)) | None => [] end T = Some T1 ∧
      T1 !! id = selected s (orphaned (now_at st) <$> gen_at st id) ∧ ∀ j, j ≠ id → T1 !! j = T !! j).
  { rewrite Egen. assert (HTid : T !! id = selected s (current srv)) by (rewrite HT by left; by rewrite Egen).
    destruct (current srv) as [g|]; [|by exists T].
    exact (tabulate_reported dst _ _ id (Some g) (Some (orphaned (now_at st) g)) i l s T
      (U_detached st c lc cl a ka HA (Good_inv _ G)) Hi Hs HTid). }
  destruct Hrest as (T1 & E1 & H1 & HO1). rewrite tabulate_app, E1. cbn [mbind option_bind].
  destruct (IH Hnd ltac:(intros id' x' Hin; apply Hm; by right) T1) as (T' & E' & H').
  { intros j Hj. rewrite HO1 by (intros ->; done). apply HT. by right. }
  exists T'. split; [done|]. intros j. rewrite H'. unfold now_orphaned, amap_has. simpl.
  destruct (decide (id = j)) as [<-|Hne].
  - by rewrite (proj2 (amap_get_None m id) Hid).
  - destruct (amap_get m j); [done|]. by rewrite HO1.
Qed.

Lemma gen_at_disconnected st' id : disconnected_from st c lc cl a ka st' →
  gen_at st' id = now_orphaned (conn_services ka) id.
Proof.
  intros D. unfold now_orphaned, gen_at. rewrite (DF_svc _ _ _ _ _ _ _ D). destruct (amap_has _ _); [|done].
  destruct (svc_at st id) as [s|]; [|done]. simpl. unfold orphan_service.
  destruct (current s) as [g|] eqn:E; simpl; [done|by rewrite E].
Qed.

Lemma good_disconnected st' : disconnected_from st c lc cl a ka st' → good st'.
Proof.
  intros D. pose proof (Good_inv _ G) as H. destruct (DF_kept _ _ _ _ _ _ _ D) as [_ N].
  assert (Hsubs : ∀ l s, subs st' !! l = Some s → subs st !! l = Some s).
  { intros l s. rewrite (DF_subs _ _ _ _ _ _ _ D). intros Hs.
    by apply (left_subs_lookup st c lc cl a ka HA H) in Hs as [? _]. }
  split.
  - apply D.
  - eapply kept_pending; [apply D|apply G].
  - rewrite (DF_told _ _ _ _ _ _ _ D). apply Forall_app. split.
    { eapply calls_kept; [apply D|apply G]. }
    apply Forall_forall. intros x Hx. unfold told_orphans in Hx.
    apply list_elem_of_bind in Hx as ([id y] & Hx & _). simpl in Hx.
    destruct (_ ≫= _) as [g|]; [|by apply not_elem_of_nil in Hx].
    apply told_locs in Hx as (i & Hi).
    assert (Hl : (i, x.1.1.1) ∈ db_subs st') by (by rewrite (DF_dbu _ _ _ _ _ _ _ D)).
    apply amap_get_elem in Hl; [|apply (U_nodup _ _ _ _ (I_U _ (DF_inv _ _ _ _ _ _ _ D)))].
    eapply sub_loc_fresh; [apply D|exact Hl].
  - intros l s Hs. destruct (Good_views _ G _ _ (Hsubs _ _ Hs)) as (T & HT & HK).
    pose proof (U_db _ _ _ _ (I_U _ (DF_inv _ _ _ _ _ _ _ D)) _ _ Hs) as Hi.
    rewrite (DF_subs _ _ _ _ _ _ _ D) in Hs. rewrite (DF_dbu _ _ _ _ _ _ _ D) in Hi.
    destruct (tabulate_orphans (conn_services ka) l s _ T Hi Hs) as (T' & HT' & HK').
    { apply (H_nodup _ _ _ (I_H _ H) _ _ (A_conn _ _ _ _ _ _ HA)). }
    { done. }
    { intros id x Hin. destruct (ka_held st c lc cl a ka HA H) as [_ Hm].
      destruct (Hm _ _ Hin) as (s' & _ & ? & ? & _). eauto. }
    exists T'. rewrite (DF_reported _ _ _ _ _ _ _ D), tabulate_app, HT. split; [done|].
    intros id. by rewrite (gen_at_disconnected _ _ D).
Qed.
End disconnected.

(** ** Subscribing starts a view *)

Lemma tabulate_introduction st l s (m : amap loc) T :
  NoDup (amap_keys m) → (∀ id, is_Some (T !! id) → id ∉ amap_keys m) →
  ∃ T', tabulate l (introduction st l s m) T = Some T' ∧
    ∀ id, T' !! id = if amap_has m id
      then selected s (x ← amap_get m id; srv ← services st !! x; current srv) else T !! id.
Proof.
  unfold amap_keys, introduction. revert T. induction m as [|[id x] m IH]; intros T Hnd HT; [by exists T|].
  csimpl in Hnd. apply NoDup_cons in Hnd as [Hid Hnd]. rewrite omap_cons_eq. cbn [fst snd].
  assert (HTid : T !! id = None).
  { destruct (T !! id) eqn:E; [|done]. destruct (HT id); [by eexists|left]. }
  assert (Hget : amap_get m id = None) by (by apply amap_get_None).
  set (g := srv ← services st !! x; current srv).
  set (o := srv ← services st !! x; if sees s (current srv ≫= gen_props)
    then Some (l, match_cb_data s, sub_match_type_appeared, id, current srv) else None).
  assert (H1 : ∃ T1, tabulate l (option_list o) T = Some T1 ∧
      T1 !! id = selected s g ∧ ∀ j, j ≠ id → T1 !! j = T !! j).
  { unfold o, g, selected. destruct (services st !! x) as [srv|]; [|by exists T]. cbn [mbind option_bind].
    destruct (current srv) as [g0|]; [|by exists T]. destruct (sees s _); [|by exists T]. simpl.
    rewrite !decide_True, decide_False by (done || rewrite HTid; by intros []). eexists.
    split; [done|]. split; [apply lookup_insert_eq|]. intros j Hj. by rewrite lookup_insert_ne. }
  destruct H1 as (T1 & E1 & H1 & HO).
  destruct (IH T1 Hnd) as (T' & E' & H').
  { intros j Hj Hin. assert (j ≠ id) by congruence. rewrite HO in Hj by done.
    apply (HT j Hj). by right. }
  exists T'. split.
  - fold o. destruct o as [r|]; [|injection E1 as ->; exact E'].
    match goal with |- tabulate l (r :: ?rs) T = _ => change (tabulate l ([r] ++ rs) T = Some T') end.
    rewrite tabulate_app. simpl option_list in E1. by rewrite E1.
  - intros j. rewrite H'. unfold amap_has. simpl. destruct (decide (id = j)) as [<-|Hne].
    + rewrite Hget. exact H1.
    + destruct (amap_get m j); [done|]. by rewrite HO.
Qed.

(** ** Every allowed event keeps good states good *)

Lemma wp_unknown_client st c (f : loc → M state Z) (Q : Z → state → Prop) : inv st →
  client_at st c = None → Q SD_ERR_NO_SUCH_CLIENT st → wp (with_client c f) Q st.
Proof.
  intros H Hc HQ. apply wp_bind, wp_gets. rewrite (client_at_None _ _ H Hc). by apply wp_ret.
Qed.

Lemma caller_known st c : inv st → caller_ok st c = true → client_at st c ≠ None →
  ∃ lc cl a ka, active_client st c lc cl a ka.
Proof.
  intros H Hc Hn. apply connected_active; [done|]. unfold connected, caller_ok in *.
  by destruct (client_at st c).
Qed.

Lemma good_created st c lc cl a ka id f cb_data os :
  active_client st c lc cl a ka → good st → filter_ok f → (0 ≤ id)%Z → sub_at st id = None →
  let s := new_sub id f c cb_data in
  omap report_of os = introduction (created st a ka id s) (next_loc st) s (db_services st) →
  good (set_outputs (λ x, x ++ os) (created st a ka id s)).
Proof.
  intros HA G Hf Hid Hnone s Eos. pose proof (Good_inv _ G) as H.
  set (st' := set_outputs _ _).
  assert (H' : inv st').
  { apply inv_outputs. by apply (inv_created st c lc cl a ka HA H); [|done|apply sub_at_None]. }
  set (intro := introduction (created st a ka id s) (next_loc st) s (db_services st)) in *.
  assert (Hrep : reports st' = reports st ++ intro).
  { unfold reports. simpl. by rewrite omap_app, Eos. }
  assert (Hint : Forall (λ x, x.1.1.1.1 = next_loc st) intro).
  { apply Forall_forall. intros x Hx. apply list_elem_of_omap in Hx as ([i y] & _ & Hx).
    destruct (services _ !! _) as [srv|]; [|done]. csimpl in Hx.
    destruct (sees _ _); [|done]. by injection Hx as <-. }
  split; [done|apply G| |].
  - rewrite (calls_appended _ _ _ Hrep). apply Forall_app. split.
    + apply (calls_kept st st'); [apply kept_same; [done|simpl; lia]|apply G].
    + apply Forall_fmap. eapply Forall_impl; [exact Hint|]. simpl. intros x ->. lia.
  - intros l s' Hs'. unfold st', created in Hs'. simpl in Hs'.
    apply lookup_insert_Some in Hs' as [[<- <-]|[Hne Hs']]; unfold view_ok;
      rewrite Hrep, tabulate_app.
    + rewrite (tabulate_other (next_loc st)).
      2: { pose proof (Good_calls _ G) as Hc. rewrite <-reports_calls, Forall_fmap in Hc.
           eapply Forall_impl; [exact Hc|]. simpl. intros x Hx E. lia. }
      destruct (tabulate_introduction (created st a ka id s) (next_loc st) s (db_services st) ∅)
        as (T & E & HT).
      { apply (S_nodup _ _ (I_S _ H)). }
      { intros j. rewrite lookup_empty. by intros []. }
      exists T. split; [exact E|]. intros j. rewrite HT. unfold gen_at, svc_at, amap_has. simpl.
      destruct (amap_get (db_services st) j) as [x|]; simpl; [|by rewrite lookup_empty].
      by destruct (services st !! x).
    + destruct (Good_views _ G _ _ Hs') as (T & HT & HK). exists T. rewrite HT.
      split; [|exact HK]. cbn [mbind option_bind]. apply tabulate_other.
      eapply Forall_impl; [exact Hint|]. simpl. intros x ->. done.
Qed.

Lemma event_good st e : good st → allowed st e = true →
  wp (run_event e) (λ _ st', good st') st.
Proof.
  intros G Ha. pose proof (Good_inv _ G) as H.
  destruct e as [c addr|c|c id gen p ttl|c id|c id fs cb_data|c id|t]; simpl in Ha.
  - apply bool_decide_eq_true_1 in Ha. destruct (client_at st c) as [cl|] eqn:Ec.
    + eapply wp_reconnect; [done|exact Ec|done|]. intros _ st' H' E1 E2 E3 E4 E5 K _ _ _.
      eapply good_same; try done. by rewrite E3.
    + apply wp_connect_new; [done..|]. intros st' H' E1 E2 E3 E4 E5 K _ _ _.
      eapply good_same; try done. by rewrite E3.
  - destruct (decide (client_at st c = None)) as [E|E]; [by apply wp_unknown_client|].
    destruct (caller_known _ _ H Ha E) as (lc & cl & a & ka & HA).
    eapply wp_disconnect; [done|done|]. intros st' D. by eapply good_disconnected.
  - rewrite !andb_true_iff, !bool_decide_eq_true in Ha. destruct Ha as ((((Hc & H1) & H2) & H3) & H4).
    destruct (decide (client_at st c = None)) as [E|E]; [by apply wp_unknown_client|].
    destruct (caller_known _ _ H Hc E) as (lc & cl & a & ka & HA).
    eapply wp_mono; [by eapply (wp_publish st c lc cl a ka HA H id gen p ttl)|].
    intros r st'. destruct (published _ _ _ _ _) as [r0 g'].
    intros [_ Hq]. destruct (quiet _ _ _ _ _); [by destruct Hq as [-> _]|by eapply good_changed].
  - destruct (decide (client_at st c = None)) as [E|E]; [by apply wp_unknown_client|].
    destruct (caller_known _ _ H Ha E) as (lc & cl & a & ka & HA).
    eapply (wp_unpublish st c lc cl a ka HA H); [done|]. intros g st' _ C. by eapply good_changes.
  - rewrite !andb_true_iff, !bool_decide_eq_true in Ha. destruct Ha as ((Hc & Hid) & Hf).
    apply wp_bind. destruct (decide (client_at st c = None)) as [E|E].
    { apply wp_unknown_client; [done|done|]. apply wp_bind, wp_ret. by apply wp_ret. }
    destruct (caller_known _ _ H Hc E) as (lc & cl & a & ka & HA).
    eapply (wp_create_sub st c lc cl a ka HA H id fs cb_data); [done| | | |].
    + destruct (request_filter fs) as [[f|]|]; [by apply simple_b_spec|done|done].
    + intros _. apply wp_bind, wp_ret. by apply wp_ret.
    + intros f _ _. apply wp_bind, wp_ret. by apply wp_ret.
    + intros f _ Hok Hnone. apply wp_bind. cbn [bool_decide]. 
      set (s := new_sub id f c cb_data).
      pose proof (inv_created st c lc cl a ka HA H id f cb_data Hid Hok (sub_at_None _ _ H Hnone)) as H'.
      assert (HA' : active_client (created st a ka id s) c lc cl a
                      (conn_with_subs (conn_subs ka ++ [(id, next_loc st)]) ka)).
      { split; try apply HA. apply lookup_insert_eq. }
      eapply (wp_activate_sub _ c lc cl a _ HA' H' id s (next_loc st)).
      * simpl. rewrite amap_get_add by (by apply sub_at_None). by rewrite decide_True.
      * apply lookup_insert_eq.
      * intros os Eos. apply wp_ret. by eapply good_created.
  - destruct (decide (client_at st c = None)) as [E|E]; [by apply wp_unknown_client|].
    destruct (caller_known _ _ H Ha E) as (lc & cl & a & ka & HA).
    eapply (wp_unsubscribe st c lc cl a ka HA H); [done|done|].
    intros s l _ _ Hg Hdb. eapply good_same; try done.
    + by eapply (inv_unsubscribed st c lc cl a ka HA H).
    + by apply kept_same.
    + intros l' s'. simpl. by intros [_ ?]%lookup_delete_Some.
  - destruct (timers st !! t) as [x|] eqn:Hx; [|done].
    destruct (services st !! timer_service x) as [s|] eqn:Hs; [|done].
    apply negb_true_iff in Ha. apply wp_bind.
    eapply (wp_timeout st t s); [done|by exists x|done|]. intros st' C. apply wp_ret.
    by eapply good_changed.
Qed.

Lemma run_good st evs : good st → admissible st evs = true →
  wp (run_events evs) (λ rs st', good st' ∧ length rs = length evs) st.
Proof.
  revert st. induction evs as [|e evs IH]; intros st G Ha; [by apply wp_ret|].
  simpl in Ha. apply andb_true_iff in Ha as [Ha Hr]. cbn [run_events]. apply wp_bind.
  pose proof (event_good st e G Ha) as Hw. unfold wp in Hw |- *.
  destruct (run_event e st) as [[r st']|]; [|done].
  pose proof (IH st' Hw Hr) as Hw'. unfold wp in Hw'. rewrite M_bind_eq.
  destruct (run_events evs st') as [[rs st'']|]; [|done]. simpl. destruct Hw' as [? ->]. done.
Qed.
