(* ===== verification/SdTeardown.v ===== *)
(** * Tearing down the core

    [sd_destroy] of src/sd/sd.c drops the references that the orphan timers and
    the maps of the database hold, and with them those that the connections of
    the clients hold.  The reference counts come out even: in every state that
    the core can be in, it ends, and leaves nothing in memory. *)

From S2P Require Import Prelude CLib Pvalue Props Filter Double Service Sub Amap Heap Client Sd SdWp SdInv SdRemove SdRun.

(** ** Counting references *)

Definition occ (l : loc) (R : list loc) : nat := count_occ Pos.eq_dec R l.

(** Every object of [h] has as many references as it occurs in [R], and [R]
    names no other objects. *)
Definition owes {T} (cnt : T → Z) (h : gmap loc T) (R : list loc) : Prop :=
  ∀ l, match h !! l with
       | Some x => cnt x = Z.of_nat (occ l R) ∧ (0 < occ l R)%nat
       | None => occ l R = 0
       end.

Section owes.
Context {T : Type} (cnt : T → Z).
Implicit Types h : gmap loc T.

Lemma occ_app l R R' : occ l (R ++ R') = occ l R + occ l R'.
Proof. apply count_occ_app. Qed.

Lemma occ_cons l l' R : occ l (l' :: R) = (if decide (l' = l) then 1 else 0) + occ l R.
Proof.
  unfold occ. case_decide as E; [by rewrite count_occ_cons_eq|by rewrite count_occ_cons_neq].
Qed.

Lemma owes_perm h R R' : R ≡ₚ R' → owes cnt h R → owes cnt h R'.
Proof.
  intros HR H l. specialize (H l). unfold occ in *.
  by rewrite (proj1 (Permutation_count_occ Pos.eq_dec R R') HR l) in H.
Qed.

Lemma owes_nil h : owes cnt h [] → h = ∅.
Proof.
  intros H. apply map_eq. intros l. rewrite lookup_empty. specialize (H l).
  destruct (h !! l); [|done]. destruct H as [_ H]. unfold occ in H. simpl in H. lia.
Qed.

(** One reference less. *)
Lemma owes_dec dec h l R : (∀ x, cnt (dec x) = (cnt x - 1)%Z) → owes cnt h (l :: R) →
  ∃ x, h !! l = Some x ∧
    (cnt x = 1%Z ∧ owes cnt (delete l h) R ∨ (1 < cnt x)%Z ∧ owes cnt (<[l := dec x]> h) R).
Proof.
  intros Hdec H. pose proof (H l) as Hl. rewrite occ_cons, decide_True in Hl by done.
  destruct (h !! l) as [x|] eqn:E; [|lia]. exists x. split; [done|]. destruct Hl as [Hn _].
  assert (Hne : ∀ l', l' ≠ l → occ l' (l :: R) = occ l' R).
  { intros l' Hl'. rewrite occ_cons, decide_False; [done|congruence]. }
  destruct (decide (occ l R = 0)) as [E0|E0]; [left|right]; (split; [lia|]); intros l';
    (destruct (decide (l' = l)) as [->|Hl']; [|specialize (H l'); rewrite Hne in H by done]).
  - by rewrite lookup_delete_eq.
  - by rewrite lookup_delete_ne.
  - rewrite lookup_insert_eq, Hdec. split; lia.
  - by rewrite lookup_insert_ne.
Qed.
End owes.

(** ** Dropping references *)

Abbreviation services_owe := (owes service_ref_cnt).
Abbreviation subs_owe := (owes sub_ref_cnt).

Lemma wp_service_owed l R (Q : unit → state → Prop) st : services_owe (services st) (l :: R) →
  (∀ sv, services_owe sv R → Q tt (set_services (λ _, sv) st)) → wp (service_dec_ref l) Q st.
Proof.
  intros H HQ.
  destruct (owes_dec _ (λ s, with_ref_cnt (service_ref_cnt s - 1) s) _ _ _ (λ _, eq_refl) H)
    as (s & Hs & [[Hn H']|[Hn H']]).
  - eapply wp_service_dec_ref_last; [exact Hs|exact Hn|]. by apply (HQ _ H').
  - eapply wp_service_dec_ref; [exact Hs|exact Hn|]. by apply (HQ _ H').
Qed.

Lemma wp_sub_owed l R (Q : unit → state → Prop) st : subs_owe (subs st) (l :: R) →
  (∀ sb, subs_owe sb R → Q tt (set_subs (λ _, sb) st)) → wp (sub_dec_ref l) Q st.
Proof.
  intros H HQ.
  destruct (owes_dec _ (λ s, sub_with_ref_cnt (sub_ref_cnt s - 1) s) _ _ _ (λ _, eq_refl) H)
    as (s & Hs & [[Hn H']|[Hn H']]).
  - eapply wp_sub_dec_ref_last; [exact Hs|exact Hn|]. by apply (HQ _ H').
  - eapply wp_sub_dec_ref; [exact Hs|exact Hn|]. by apply (HQ _ H').
Qed.

Lemma wp_release_services (m : amap loc) R : ∀ (Q : unit → state → Prop) st,
  services_owe (services st) (m.*2 ++ R) →
  (∀ sv, services_owe sv R → Q tt (set_services (λ _, sv) st)) →
  wp (mforeach (λ kv, service_dec_ref kv.2) m) Q st.
Proof.
  induction m as [|[k l] m IH]; intros Q st H HQ.
  - apply wp_ret. specialize (HQ _ H). by destruct st.
  - cbn [mforeach]. apply wp_bind. eapply wp_service_owed; [exact H|]. intros sv Hsv.
    by apply IH.
Qed.

Lemma wp_release_subs (m : amap loc) R : ∀ (Q : unit → state → Prop) st,
  subs_owe (subs st) (m.*2 ++ R) →
  (∀ sb, subs_owe sb R → Q tt (set_subs (λ _, sb) st)) →
  wp (mforeach (λ kv, sub_dec_ref kv.2) m) Q st.
Proof.
  induction m as [|[k l] m IH]; intros Q st H HQ.
  - apply wp_ret. specialize (HQ _ H). by destruct st.
  - cbn [mforeach]. apply wp_bind. eapply wp_sub_owed; [exact H|]. intros sb Hsb.
    by apply IH.
Qed.

(** The state with other services, subscriptions and connections. *)
Definition with_heaps (sv : gmap loc service) (sb : gmap loc sub) (cns : gmap loc conn) (st : state)
    : state := set_conns (λ _, cns) (set_subs (λ _, sb) (set_services (λ _, sv) st)).

Lemma wp_conn_destroy cn k R U (Q : unit → state → Prop) st : conns st !! cn = Some k →
  services_owe (services st) ((conn_services k).*2 ++ R) →
  subs_owe (subs st) ((conn_subs k).*2 ++ U) →
  (∀ sv sb, services_owe sv R → subs_owe sb U →
     Q tt (with_heaps sv sb (delete cn (conns st)) st)) →
  wp (conn_destroy cn) Q st.
Proof.
  intros Hk Hsv Hsb HQ. unfold conn_destroy, map_clear_cnted.
  apply wp_bind, wp_bind. eapply wp_conn_services_at; [exact Hk|].
  apply wp_bind. eapply wp_release_services; [exact Hsv|]. intros sv Hsv'.
  eapply wp_update; [exact Hk|reflexivity|].
  apply wp_bind, wp_bind. eapply wp_conn_subs_at; [apply lookup_insert_eq|]. simpl.
  apply wp_bind. eapply wp_release_subs; [exact Hsb|]. intros sb Hsb'.
  eapply wp_update; [apply lookup_insert_eq|reflexivity|].
  eapply wp_free; [apply lookup_insert_eq|].
  eapply eq_ind; [by apply (HQ sv sb)|]. apply state_ext; try reflexivity. simpl.
  by rewrite insert_insert_eq, delete_insert_eq.
Qed.

(** ** The clients *)

Section clients.
(** What the connections and clients are before. *)
Context (cns : gmap loc conn) (cls : gmap loc client).

Definition conn_refs (cn : loc) : list loc :=
  match cns !! cn with Some k => (conn_services k).*2 | None => [] end.
Definition conn_sub_refs (cn : loc) : list loc :=
  match cns !! cn with Some k => (conn_subs k).*2 | None => [] end.
Definition conns_of (lc : loc) : list loc :=
  match cls !! lc with Some cl => client_conns cl | None => [] end.

(** The connections [rest] remain as they were. *)
Definition remaining (rest : list loc) (cns' : gmap loc conn) : Prop :=
  ∀ cn, cns' !! cn = if decide (cn ∈ rest) then cns !! cn else None.

Lemma remaining_delete cn rest cns' : cn ∉ rest → remaining (cn :: rest) cns' →
  remaining rest (delete cn cns').
Proof.
  intros Hn H x. destruct (decide (x = cn)) as [->|Hne].
  - by rewrite lookup_delete_eq, decide_False.
  - rewrite lookup_delete_ne, H by done. by destruct (decide (x ∈ rest)), (decide (x ∈ cn :: rest)); set_solver.
Qed.

Lemma wp_destroy_conns l : ∀ rest R U (Q : unit → state → Prop) st, NoDup (l ++ rest) →
  Forall (λ cn, is_Some (cns !! cn)) l → remaining (l ++ rest) (conns st) →
  services_owe (services st) ((l ≫= conn_refs) ++ R) →
  subs_owe (subs st) ((l ≫= conn_sub_refs) ++ U) →
  (∀ sv sb cns', services_owe sv R → subs_owe sb U → remaining rest cns' →
     Q tt (with_heaps sv sb cns' st)) →
  wp (mforeach conn_destroy l) Q st.
Proof.
  induction l as [|cn l IH]; intros rest R U Q st Hnd Hl Hr Hsv Hsb HQ.
  - apply wp_ret. specialize (HQ _ _ _ Hsv Hsb Hr). by destruct st.
  - apply NoDup_cons in Hnd as [Hn Hnd]. apply Forall_cons in Hl as [[k Hk] Hl].
    assert (E1 : conn_refs cn = (conn_services k).*2) by (unfold conn_refs; by rewrite Hk).
    assert (E2 : conn_sub_refs cn = (conn_subs k).*2) by (unfold conn_sub_refs; by rewrite Hk).
    cbn [mforeach]. apply wp_bind. rewrite bind_cons, E1, <-app_assoc in Hsv.
    rewrite bind_cons, E2, <-app_assoc in Hsb.
    eapply wp_conn_destroy; [|exact Hsv|exact Hsb|].
    { rewrite Hr. rewrite decide_True; [done|left]. }
    intros sv sb Hsv' Hsb'. eapply IH; [exact Hnd|exact Hl| |exact Hsv'|exact Hsb'|].
    + by apply remaining_delete.
    + intros sv2 sb2 cns2 H1 H2 H3. by apply (HQ sv2 sb2 cns2).
Qed.

Lemma wp_destroy_client lc cl rest R U (Q : unit → state → Prop) st :
  clients st !! lc = Some cl → cls !! lc = Some cl → client_ref_cnt cl = 1%Z →
  NoDup (conns_of lc ++ rest) →
  Forall (λ cn, is_Some (cns !! cn)) (conns_of lc) → remaining (conns_of lc ++ rest) (conns st) →
  services_owe (services st) ((conns_of lc ≫= conn_refs) ++ R) →
  subs_owe (subs st) ((conns_of lc ≫= conn_sub_refs) ++ U) →
  (∀ sv sb cns', services_owe sv R → subs_owe sb U → remaining rest cns' →
     Q tt (set_clients (delete lc) (with_heaps sv sb cns' st))) →
  wp (client_dec_ref lc) Q st.
Proof.
  intros Hcl Hcl0 Hn. unfold conns_of. rewrite Hcl0. intros Hnd Hl Hr Hsv Hsb HQ.
  unfold client_dec_ref. apply wp_bind.
  eapply wp_update; [exact Hcl|rewrite Hn; reflexivity|].
  apply wp_bind. eapply wp_read; [apply lookup_insert_eq|reflexivity|]. simpl.
  unfold client_destroy. apply wp_bind. eapply wp_load; [apply lookup_insert_eq|].
  apply wp_bind. eapply wp_destroy_conns; [exact Hnd|exact Hl|exact Hr|exact Hsv|exact Hsb|].
  intros sv sb cns' H1 H2 H3. eapply wp_free; [apply lookup_insert_eq|].
  eapply eq_ind; [by apply (HQ sv sb cns')|]. apply state_ext; try reflexivity. simpl.
  by rewrite delete_insert_eq.
Qed.

Lemma wp_destroy_clients (m : amap loc) : ∀ R U (Q : unit → state → Prop) st,
  NoDup m.*2 → (∀ lc, lc ∈ m.*2 → ∃ cl, cls !! lc = Some cl ∧ client_ref_cnt cl = 1%Z) →
  (∀ lc, clients st !! lc = if decide (lc ∈ m.*2) then cls !! lc else None) →
  NoDup (m.*2 ≫= conns_of) → Forall (λ cn, is_Some (cns !! cn)) (m.*2 ≫= conns_of) →
  remaining (m.*2 ≫= conns_of) (conns st) →
  services_owe (services st) (((m.*2 ≫= conns_of) ≫= conn_refs) ++ R) →
  subs_owe (subs st) (((m.*2 ≫= conns_of) ≫= conn_sub_refs) ++ U) →
  (∀ sv sb, services_owe sv R → subs_owe sb U →
     Q tt (set_clients (λ _, ∅) (with_heaps sv sb ∅ st))) →
  wp (mforeach (λ kv, client_dec_ref kv.2) m) Q st.
Proof.
  induction m as [|[c lc] m IH]; intros R U Q st Hm Hcls Hc Hnd Hl Hr Hsv Hsb HQ.
  - apply wp_ret. specialize (HQ _ _ Hsv Hsb). eapply eq_ind; [exact HQ|].
    apply state_ext; try reflexivity; simpl; apply map_eq; intros l; rewrite lookup_empty;
      [specialize (Hr l)|specialize (Hc l)]; symmetry; [rewrite Hr|rewrite Hc];
      by rewrite decide_False by set_solver.
  - cbn [mforeach]. apply wp_bind. rewrite fmap_cons in Hm, Hcls, Hc, Hnd, Hl, Hr, Hsv, Hsb.
    cbn [snd] in Hm, Hcls, Hc, Hnd, Hl, Hr, Hsv, Hsb.
    apply NoDup_cons in Hm as [Hlc Hm]. rewrite bind_cons in Hnd, Hl, Hr, Hsv, Hsb.
    rewrite bind_app, <-app_assoc in Hsv, Hsb. apply Forall_app in Hl as [Hl1 Hl2].
    destruct (Hcls lc) as (cl & Hcl & Href); [left|].
    eapply wp_destroy_client; [|exact Hcl|exact Href|exact Hnd|exact Hl1|exact Hr|exact Hsv|exact Hsb|].
    { rewrite Hc. rewrite decide_True; [done|left]. }
    intros sv sb cns' H1 H2 H3. apply NoDup_app in Hnd as (_ & _ & Hnd).
    eapply IH; [exact Hm| | |exact Hnd|exact Hl2|exact H3|exact H1|exact H2|].
    + intros lc' Hin. apply Hcls. by right.
    + intros lc'. simpl. destruct (decide (lc' = lc)) as [->|Hne].
      * by rewrite lookup_delete_eq, decide_False.
      * rewrite lookup_delete_ne, Hc by done.
        by destruct (decide (lc' ∈ m.*2)), (decide (lc' ∈ lc :: m.*2)); set_solver.
    + intros sv2 sb2 H4 H5. by apply (HQ sv2 sb2).
Qed.
End clients.

(** ** The timers *)

Section timers.
Context (tms : gmap loc orphan_timer).

Definition timer_refs (t : loc) : list loc :=
  match tms !! t with Some x => [timer_service x] | None => [] end.

Lemma wp_destroy_timers (m : amap loc) : ∀ R (Q : unit → state → Prop) st,
  NoDup m.*2 → Forall (λ t, is_Some (tms !! t)) m.*2 →
  (∀ t, timers st !! t = if decide (t ∈ m.*2) then tms !! t else None) →
  services_owe (services st) ((m.*2 ≫= timer_refs) ++ R) →
  (∀ sv os, services_owe sv R →
     Q tt (set_outputs (λ o, o ++ os) (set_timers (λ _, ∅) (set_services (λ _, sv) st)))) →
  wp (mforeach (λ kv, orphan_timer_destroy kv.2) m) Q st.
Proof.
  induction m as [|[id t] m IH]; intros R Q st Hnd Hall Ht Hsv HQ.
  - apply wp_ret. eapply eq_ind; [exact (HQ _ [] Hsv)|].
    apply state_ext; try reflexivity; simpl; [|by rewrite app_nil_r].
    apply map_eq. intros l. by rewrite lookup_empty, Ht, decide_False by set_solver.
  - rewrite fmap_cons in Hnd, Hall, Ht, Hsv. cbn [snd] in Hnd, Hall, Ht, Hsv.
    apply NoDup_cons in Hnd as [Hn Hnd]. apply Forall_cons in Hall as [[x Hx] Hall].
    rewrite bind_cons in Hsv. assert (Ex : timer_refs t = [timer_service x])
      by (unfold timer_refs; by rewrite Hx). rewrite Ex in Hsv. cbn [app] in Hsv.
    cbn [mforeach snd]. apply wp_bind. unfold orphan_timer_destroy.
    apply wp_bind. eapply wp_event_del; [rewrite Ht, decide_True by left; exact Hx|].
    apply wp_bind. eapply wp_read; [apply lookup_insert_eq|reflexivity|]. cbn [timer_service timer_with_pending].
    apply wp_bind. eapply wp_service_owed; [exact Hsv|]. intros sv Hsv'.
    eapply wp_free; [apply lookup_insert_eq|].
    eapply IH; [exact Hnd|exact Hall| |exact Hsv'|].
    + intros t'. simpl. rewrite delete_insert_eq. destruct (decide (t' = t)) as [->|Hne].
      * by rewrite lookup_delete_eq, decide_False.
      * rewrite lookup_delete_ne, Ht by done.
        by destruct (decide (t' ∈ m.*2)), (decide (t' ∈ t :: m.*2)); set_solver.
    + intros sv2 os H2. eapply eq_ind; [exact (HQ sv2 ([OEventDel t] ++ os) H2)|].
      apply state_ext; try reflexivity. simpl. by rewrite <-app_assoc.
Qed.
End timers.

(** ** The references that there are *)

Lemma occ_nodup l R : NoDup R → occ l R = if decide (l ∈ R) then 1 else 0.
Proof.
  intros Hnd. unfold occ. case_decide as Hin.
  - apply NoDup_count_occ'; [by apply NoDup_ListNoDup|by apply list_elem_of_In].
  - apply count_occ_not_In. by rewrite <-list_elem_of_In.
Qed.

Lemma amap_values_elem (m : amap loc) l : NoDup (amap_keys m) →
  l ∈ m.*2 ↔ ∃ i, amap_get m i = Some l.
Proof.
  intros Hnd. rewrite list_elem_of_fmap. split.
  - intros ([i l'] & -> & Hin). exists i. by apply amap_get_elem.
  - intros [i Hi]. exists (i, l). split; [done|]. by apply amap_get_Some_elem.
Qed.

Lemma amap_values_nodup (m : amap loc) : NoDup (amap_keys m) →
  (∀ i i' l, amap_get m i = Some l → amap_get m i' = Some l → i = i') → NoDup m.*2.
Proof.
  intros Hnd Hinj. apply NoDup_fmap_2_strong; [|by eapply NoDup_fmap_1].
  intros [i l] [i' l'] H1 H2 E. simpl in E. subst l'. f_equal.
  eapply Hinj; by apply amap_get_elem.
Qed.

Section references.
Context (st : state) (H : inv st).
Abbreviation timer_services := ((orphans st).*2 ≫= timer_refs (timers st)).
Abbreviation all_conns := ((db_clients st).*2 ≫= conns_of (clients st)).

Lemma db_services_refs : NoDup (db_services st).*2 ∧
  ∀ l, l ∈ (db_services st).*2 ↔ is_Some (services st !! l).
Proof.
  pose proof (I_S _ H) as HS. split.
  - apply amap_values_nodup; [apply HS|]. intros i i' l Hi Hi'.
    destruct (S_get _ _ HS _ _ Hi) as (s & Hs & <-).
    destruct (S_get _ _ HS _ _ Hi') as (s' & Hs' & <-). by simplify_eq.
  - intros l. rewrite amap_values_elem by apply HS. split.
    + intros [i (s & Hs & _)%(S_get _ _ HS)]. by exists s.
    + intros [s Hs]. eexists. by eapply (S_db _ _ HS).
Qed.

Lemma db_subs_refs : NoDup (db_subs st).*2 ∧
  ∀ l, l ∈ (db_subs st).*2 ↔ is_Some (subs st !! l).
Proof.
  pose proof (I_U _ H) as HU. split.
  - apply amap_values_nodup; [apply HU|]. intros i i' l Hi Hi'.
    destruct (U_get _ _ _ _ HU _ _ Hi) as (s & Hs & <-).
    destruct (U_get _ _ _ _ HU _ _ Hi') as (s' & Hs' & <-). by simplify_eq.
  - intros l. rewrite amap_values_elem by apply HU. split.
    + intros [i (s & Hs & _)%(U_get _ _ _ _ HU)]. by exists s.
    + intros [s Hs]. eexists. by eapply (U_db _ _ _ _ HU).
Qed.

Lemma db_clients_refs : NoDup (db_clients st).*2 ∧
  ∀ lc, lc ∈ (db_clients st).*2 ↔ is_Some (clients st !! lc).
Proof.
  pose proof (I_C _ H) as HC. split.
  - apply amap_values_nodup; [apply HC|]. intros i i' l Hi Hi'.
    destruct (C_get _ _ _ HC _ _ Hi) as (s & Hs & <-).
    destruct (C_get _ _ _ HC _ _ Hi') as (s' & Hs' & <-). by simplify_eq.
  - intros l. rewrite amap_values_elem by apply HC. split.
    + intros [i (s & Hs & _)%(C_get _ _ _ HC)]. by exists s.
    + intros [s Hs]. eexists. by eapply (C_db _ _ _ HC).
Qed.

Lemma orphans_refs : NoDup (orphans st).*2 ∧
  ∀ t, t ∈ (orphans st).*2 ↔ is_Some (timers st !! t).
Proof.
  pose proof (I_O _ H) as HO. split.
  - apply amap_values_nodup; [apply HO|]. intros i i' l Hi Hi'.
    destruct (O_get _ _ _ HO _ _ Hi) as (x & s & Hx & Hs & <- & _).
    destruct (O_get _ _ _ HO _ _ Hi') as (x' & s' & Hx' & Hs' & <- & _). by simplify_eq.
  - intros t. rewrite amap_values_elem by apply HO. split.
    + intros [i (x & s & Hx & _)%(O_get _ _ _ HO)]. by exists x.
    + intros [x Hx]. by apply (O_all _ _ _ HO _ _ Hx).
Qed.

(** The timers refer to the orphans, each once. *)
Lemma timer_services_refs : NoDup timer_services ∧
  ∀ l, l ∈ timer_services ↔ ∃ s, services st !! l = Some s ∧ s_orphan s = true.
Proof.
  pose proof (I_O _ H) as HO. pose proof (S_ids_inj _ _ (I_S _ H)) as Hinj.
  destruct orphans_refs as [Hnd Hin].
  assert (Hel : ∀ t l, t ∈ (orphans st).*2 → l ∈ timer_refs (timers st) t → ∃ i x s,
    amap_get (orphans st) i = Some t ∧ timers st !! t = Some x ∧ timer_service x = l ∧
    services st !! l = Some s ∧ service_id s = i ∧ s_orphan s = true).
  { intros t l Ht Hl. apply amap_values_elem in Ht as [i Hi]; [|apply HO].
    destruct (O_get _ _ _ HO _ _ Hi) as (x & s & Hx & Hs & Es & Eo). unfold timer_refs in Hl.
    rewrite Hx in Hl. apply list_elem_of_singleton in Hl as ->. by exists i, x, s. }
  split.
  - apply NoDup_bind; [| |done].
    + intros t t' l Ht Ht' (i & x & s & Hi & _ & _ & Hs & Es & _)%Hel (i' & x' & s' & Hi' & _ & _ & Hs' & Es' & _)%Hel;
        [|done..]. congruence.
    + intros t _. unfold timer_refs. destruct (timers st !! t); [apply NoDup_singleton|constructor].
  - intros l. rewrite list_elem_of_bind. split.
    + intros (t & Hl & Ht). destruct (Hel t l Ht Hl) as (i & x & s & _ & _ & _ & Hs & _ & Eo). by exists s.
    + intros (s & Hs & Eo). destruct (O_orphan _ _ _ HO _ _ Hs Eo) as (t & x & Ht & Hx & <-).
      exists t. split; [unfold timer_refs; rewrite Hx; left|].
      apply amap_values_elem; [apply HO|]. by eexists.
Qed.

(** Every connection belongs to one client. *)
Lemma all_conns_refs : NoDup all_conns ∧ ∀ cn, cn ∈ all_conns ↔ is_Some (conns st !! cn).
Proof.
  pose proof (I_C _ H) as HC. destruct db_clients_refs as [Hnd Hin].
  assert (Hel : ∀ lc cn, cn ∈ conns_of (clients st) lc → ∃ k, conns st !! cn = Some k ∧ conn_client k = lc).
  { intros lc cn. unfold conns_of. destruct (clients st !! lc) as [cl|] eqn:Hcl; [|set_solver].
    intros [Ha|Hi]%elem_client_conns.
    - destruct (C_active _ _ _ HC _ _ _ Hcl Ha) as (k & ? & ? & _). by exists k.
    - destruct (C_inactive _ _ _ HC _ _ _ Hcl Hi) as (k & ? & ? & _). by exists k. }
  split.
  - apply NoDup_bind; [| |done].
    + intros lc lc' cn _ _ (k & Hk & E)%Hel (k' & Hk' & E')%Hel. congruence.
    + intros lc _. unfold conns_of. destruct (clients st !! lc) as [cl|] eqn:Hcl; [|constructor].
      exact (client_conns_nodup _ _ _ _ _ _ (inv_rel st H) _ _ Hcl).
  - intros cn. rewrite list_elem_of_bind. split.
    + intros (lc & (k & Hk & _)%Hel & _). by exists k.
    + intros [k Hk]. destruct (C_conn _ _ _ HC _ _ Hk) as (cl & Hcl & Hi). exists (conn_client k).
      split; [unfold conns_of; by rewrite Hcl|]. apply Hin. by exists cl.
Qed.

(** The connections hold every service and every subscription once. *)
Lemma conn_services_refs : NoDup (all_conns ≫= conn_refs (conns st)) ∧
  ∀ l, l ∈ all_conns ≫= conn_refs (conns st) ↔ is_Some (services st !! l).
Proof.
  pose proof (I_H _ H) as HH. destruct all_conns_refs as [Hnd Hin].
  assert (Hel : ∀ cn l, l ∈ conn_refs (conns st) cn ↔ ∃ i, holds (conns st) cn i l).
  { intros cn l. unfold conn_refs, holds. destruct (conns st !! cn) as [k|] eqn:Hk.
    - rewrite amap_values_elem by by eapply H_nodup. split; [intros [i Hi]; by exists i, k|].
      intros (i & k' & [= <-] & Hi). by exists i.
    - split; [set_solver|]. by intros (i & k & ? & _). }
  assert (Hid : ∀ cn i l, holds (conns st) cn i l → ∃ s, services st !! l = Some s ∧ service_id s = i).
  { intros cn i l (k & Hk & Hg). destruct (H_get _ _ _ HH _ _ _ _ Hk Hg) as (s & Hs & Es & _). by exists s. }
  split.
  - apply NoDup_bind; [| |done].
    + intros cn cn' l _ _ [i Hi]%Hel [i' Hi']%Hel.
      destruct (Hid _ _ _ Hi) as (s & Hs & <-). destruct (Hid _ _ _ Hi') as (s' & Hs' & <-).
      simplify_eq. by eapply (H_uniq _ _ _ HH).
    + intros cn _. unfold conn_refs. destruct (conns st !! cn) as [k|] eqn:Hk; [|constructor].
      apply amap_values_nodup; [by eapply H_nodup|]. intros i i' l Hi Hi'.
      destruct (Hid cn i l) as (s & Hs & <-); [by exists k|].
      destruct (Hid cn i' l) as (s' & Hs' & <-); [by exists k|]. by simplify_eq.
  - intros l. rewrite list_elem_of_bind. split.
    + intros (cn & [i (s & Hs & _)%Hid]%Hel & _). by exists s.
    + intros [s Hs]. destruct (H_owner _ _ _ HH _ _ Hs) as [cn Hcn]. exists cn.
      split; [apply Hel; by eexists|]. apply Hin. destruct Hcn as (k & Hk & _). by exists k.
Qed.

Lemma conn_subs_refs : NoDup (all_conns ≫= conn_sub_refs (conns st)) ∧
  ∀ l, l ∈ all_conns ≫= conn_sub_refs (conns st) ↔ is_Some (subs st !! l).
Proof.
  pose proof (I_U _ H) as HU. destruct all_conns_refs as [Hnd Hin].
  assert (Hel : ∀ cn l, l ∈ conn_sub_refs (conns st) cn ↔ ∃ i, sub_holds (conns st) cn i l).
  { intros cn l. unfold conn_sub_refs, sub_holds. destruct (conns st !! cn) as [k|] eqn:Hk.
    - rewrite amap_values_elem by by eapply U_knodup. split; [intros [i Hi]; by exists i, k|].
      intros (i & k' & [= <-] & Hi). by exists i.
    - split; [set_solver|]. by intros (i & k & ? & _). }
  assert (Hid : ∀ cn i l, sub_holds (conns st) cn i l → ∃ s, subs st !! l = Some s ∧ sub_id s = i).
  { intros cn i l (k & Hk & Hg). destruct (U_held _ _ _ _ HU _ _ _ _ Hk Hg) as (s & Hs & Es & _). by exists s. }
  split.
  - apply NoDup_bind; [| |done].
    + intros cn cn' l _ _ [i Hi]%Hel [i' Hi']%Hel.
      destruct (Hid _ _ _ Hi) as (s & Hs & <-). destruct (Hid _ _ _ Hi') as (s' & Hs' & <-).
      simplify_eq. by eapply (U_uniq _ _ _ _ HU).
    + intros cn _. unfold conn_sub_refs. destruct (conns st !! cn) as [k|] eqn:Hk; [|constructor].
      apply amap_values_nodup; [by eapply U_knodup|]. intros i i' l Hi Hi'.
      destruct (Hid cn i l) as (s & Hs & <-); [by exists k|].
      destruct (Hid cn i' l) as (s' & Hs' & <-); [by exists k|]. by simplify_eq.
  - intros l. rewrite list_elem_of_bind. split.
    + intros (cn & [i (s & Hs & _)%Hid]%Hel & _). by exists s.
    + intros [s Hs]. destruct (U_owner _ _ _ _ HU _ _ Hs) as [cn Hcn]. exists cn.
      split; [apply Hel; by eexists|]. apply Hin. destruct Hcn as (k & Hk & _). by exists k.
Qed.

(** The reference counts are right. *)
Lemma services_owe_all : services_owe (services st)
  (timer_services ++ (all_conns ≫= conn_refs (conns st)) ++ (db_services st).*2).
Proof.
  destruct timer_services_refs as [N1 E1], conn_services_refs as [N2 E2], db_services_refs as [N3 E3].
  intros l. rewrite !occ_app, !occ_nodup by done. destruct (services st !! l) as [s|] eqn:Hs.
  - rewrite (decide_True (P := l ∈ all_conns ≫= _)), (decide_True (P := l ∈ (db_services st).*2))
      by (first [apply E2|apply E3]; by exists s).
    pose proof (S_refs _ _ (I_S _ H) _ _ Hs) as Hr. unfold refs_ok in Hr. rewrite Hr.
    destruct (s_orphan s) eqn:Eo.
    + rewrite decide_True by (apply E1; by exists s). split; lia.
    + rewrite decide_False; [split; lia|]. intros (s' & Hs' & Eo')%E1. congruence.
  - rewrite !decide_False; [done|..]; first [intros (s & Hs' & _)%E1|intros [s Hs']%E2|intros [s Hs']%E3]; congruence.
Qed.

Lemma subs_owe_all : subs_owe (subs st)
  ((all_conns ≫= conn_sub_refs (conns st)) ++ (db_subs st).*2).
Proof.
  destruct conn_subs_refs as [N2 E2], db_subs_refs as [N3 E3].
  intros l. rewrite !occ_app, !occ_nodup by done. destruct (subs st !! l) as [s|] eqn:Hs.
  - rewrite (decide_True (P := l ∈ all_conns ≫= _)), (decide_True (P := l ∈ (db_subs st).*2))
      by (first [apply E2|apply E3]; by exists s).
    destruct (U_ok _ _ _ _ (I_U _ H) _ _ Hs) as (_ & _ & Hr). rewrite Hr. split; lia.
  - rewrite !decide_False; [done|..]; first [intros [s Hs']%E2|intros [s Hs']%E3]; congruence.
Qed.
End references.

(** ** The whole *)

Lemma wp_sd_destroy st : inv st → wp sd_destroy (λ _ st',
  services st' = ∅ ∧ subs st' = ∅ ∧ conns st' = ∅ ∧ clients st' = ∅ ∧ timers st' = ∅ ∧
  db_clients st' = [] ∧ db_services st' = [] ∧ db_subs st' = [] ∧ orphans st' = []) st.
Proof.
  intros H. unfold sd_destroy. apply wp_bind, wp_gets. apply wp_bind.
  destruct (orphans_refs st H) as [No Eo], (db_clients_refs st H) as [Nc Ec].
  destruct (all_conns_refs st H) as [Na Ea].
  eapply wp_destroy_timers; [exact No| | |exact (services_owe_all st H)|].
  { apply Forall_forall. intros t Ht. by apply Eo. }
  { intros t. case_decide as Ht; [done|]. destruct (timers st !! t) eqn:E; [|done].
    destruct Ht. apply Eo. by eexists. }
  intros sv os Hsv. apply wp_bind, wp_modify. unfold db_destroy, map_clear_cnted.
  apply wp_bind, wp_bind, wp_gets, wp_bind.
  eapply (wp_destroy_clients (conns st) (clients st)); [exact Nc| | |exact Na| | |exact Hsv| |].
  { intros lc [cl Hcl]%Ec. exists cl. split; [done|]. by apply (C_ok _ _ _ (I_C _ H) _ _ Hcl). }
  { intros lc. case_decide as Hlc; [done|]. simpl. destruct (clients st !! lc) eqn:E; [|done].
    destruct Hlc. apply Ec. by eexists. }
  { apply Forall_forall. intros cn Hcn. by apply Ea. }
  { intros cn. case_decide as Hcn; [done|]. simpl. destruct (conns st !! cn) eqn:E; [|done].
    destruct Hcn. apply Ea. by eexists. }
  { exact (subs_owe_all st H). }
  intros sv2 sb2 Hsv2 Hsb2. apply wp_modify. apply wp_bind, wp_bind, wp_gets, wp_bind.
  eapply (wp_release_services _ []); [by rewrite app_nil_r|]. intros sv3 Hsv3.
  apply wp_modify, wp_bind, wp_gets, wp_bind.
  eapply (wp_release_subs _ []); [by rewrite app_nil_r|]. intros sb3 Hsb3. apply wp_modify.
  apply owes_nil in Hsv3 as ->. apply owes_nil in Hsb3 as ->. by split_and!.
Qed.
