(* ===== verification/SdSpec.v ===== *)
(** * What the service discovery core promises

    The properties of the operations of src/sd/sd.c, in the states that the
    server can reach ([reachable]); and three behaviours of the code that are
    not what its comments and its users expect. *)

From S2P Require Import Prelude CLib Pvalue Props Filter FilterParse Double Service Sub Amap Heap Client Sd SdWp SdInv SdOps SdRemove SdSubs SdDisconnect SdRun.

(** ** Reachable states *)

Definition clock_fine (clk : nat → timespec) : Prop := ∀ n, timespec_ok (clk n).

Definition reachable (st : state) : Prop := ∃ clk evs rs,
  clock_fine clk ∧ admissible (sd_create clk) evs = true ∧
  run_events evs (sd_create clk) = Ok (rs, st).

Lemma reachable_good st : reachable st → good st.
Proof.
  intros (clk & evs & rs & Hclk & Ha & E).
  pose proof (run_good _ _ (good_create _ Hclk) Ha) as Hw. unfold wp in Hw. rewrite E in Hw. apply Hw.
Qed.

Lemma reachable_inv st : reachable st → inv st.
Proof. intros H. apply Good_inv, reachable_good, H. Qed.

Lemma wp_run {A} (m : M state A) Q st : wp m Q st → ∃ a st', m st = Ok (a, st') ∧ Q a st'.
Proof. unfold wp. destruct (m st) as [[a st']|]; [|done]. eauto. Qed.

(** A concrete history, for the witnesses: client 1 publishes service 7, client
    2 subscribes to everything. *)
Definition clk0 : nat → timespec := λ n, Timespec (Z.min (Z.of_nat n) 1000) 0.

Lemma clk0_fine : clock_fine clk0.
Proof. intros n. unfold timespec_ok, clk0. simpl. lia. Qed.

Definition history : list event :=
  [EConnect 1 None; EPublish 1 7 1 [(C "name", value_str (C "a"))] 30; EConnect 2 None;
   ESubscribe 2 5 None 0].

(** The state after some events. *)
Definition after (evs : list event) : state :=
  match run_events evs (sd_create clk0) with Ok (_, st) => st | Fail _ => sd_create clk0 end.

Lemma reachable_after evs : admissible (sd_create clk0) evs = true → reachable (after evs).
Proof.
  intros Ha. pose proof (run_good _ _ (good_create _ clk0_fine) Ha) as Hw.
  destruct (wp_run _ _ _ Hw) as (rs & st & E & _). exists clk0, evs, rs.
  split_and!; [apply clk0_fine|done|]. unfold after. by rewrite E.
Qed.

Lemma after_run evs : admissible (sd_create clk0) evs = true →
  ∃ rs, run_events evs (sd_create clk0) = Ok (rs, after evs).
Proof.
  intros Ha. pose proof (run_good _ _ (good_create _ clk0_fine) Ha) as Hw.
  destruct (wp_run _ _ _ Hw) as (rs & st & E & _). exists rs. unfold after. by rewrite E.
Qed.

#[global] Opaque after.

(** ** Safety *)

(** C1: no sequence of requests and timeouts that the callers may cause makes
    the core fail: every operation ends, no assertion fails, no freed or null
    object is used, and the invariant holds afterwards (reference counts are
    exactly the references there are, the maps agree with each other, every
    service has one owner). *)
Theorem sd_runs_safely (clk : nat → timespec) (evs : list event) :
  clock_fine clk → admissible (sd_create clk) evs = true →
  ∃ rs st', run_events evs (sd_create clk) = Ok (rs, st') ∧ length rs = length evs ∧ inv st'.
Proof.
  intros Hclk Ha. destruct (wp_run _ _ _ (run_good _ _ (good_create _ Hclk) Ha))
    as (rs & st' & E & G & Hl). exists rs, st'. split_and!; [done|done|apply G].
Qed.

Lemma sd_runs_safely_witness :
  ∃ rs st', run_events history (sd_create clk0) = Ok (rs, st') ∧ length rs = 4.
Proof.
  destruct (sd_runs_safely clk0 history) as (rs & st' & E & Hl & _);
    [apply clk0_fine|by vm_compute|]. exists rs, st'. exact (conj E Hl).
Defined.

(** C3: in every state the server reaches, each subscriber is up to date: what its
    match calls report, from its subscription on, fits together (a service appears
    only when it is unknown, is modified or disappears only when it is known), and
    a subscriber that keeps the generations that it is told of has exactly the
    current generations of the services whose properties its filter selects. *)
Theorem subscribers_up_to_date (st : state) (l : loc) (s : sub) :
  reachable st → subs st !! l = Some s →
  ∃ T, tabulate l (reports st) ∅ = Some T ∧ replay l (match_calls st) ∅ = Some (dom T) ∧
    ∀ id g, T !! id = Some g ↔ gen_at st id = Some g ∧ ∃ p, gen_props g = Some p ∧
      match sub_filter s with Some f => means f p | None => True end.
Proof.
  intros Hr Hs. destruct (Good_views _ (reachable_good _ Hr) _ _ Hs) as (T & HT & HK).
  exists T. split; [done|]. split.
  - apply tabulate_replay in HT. by rewrite dom_empty_L, reports_calls in HT.
  - intros id g. rewrite HK. unfold selected. destruct (gen_at st id) as [g'|]; [|naive_solver]. simpl.
    destruct (gen_props g') as [p|] eqn:Ep; simpl; [|naive_solver].
    assert (E : selects s p = true ↔ match sub_filter s with Some f => means f p | None => True end).
    { unfold selects. destruct (sub_filter s) as [f|]; [apply fsat_means|done]. }
    destruct (selects s p); naive_solver.
Qed.

Lemma subscribers_up_to_date_witness :
  ∃ l s, subs (after history) !! l = Some s ∧
    ∃ T g, tabulate l (reports (after history)) ∅ = Some T ∧ T !! 7%Z = Some g ∧ gen_generation g = 1%Z.
Proof.
  assert (∃ l s, subs (after history) !! l = Some s ∧ sub_filter s = None) as (l & s & Hs & Hf).
  { exists 6%positive. eexists. split; by vm_compute. }
  exists l, s. split; [exact Hs|].
  destruct (subscribers_up_to_date (after history) l s) as (T & HT & _ & HK);
    [apply reachable_after; by vm_compute|exact Hs|].
  destruct (gen_at (after history) 7) as [g|] eqn:Eg; [|by vm_compute in Eg].
  exists T, g. split; [exact HT|]. split.
  - apply HK. rewrite Hf. split; [exact Eg|]. vm_compute in Eg. injection Eg as <-.
    eexists. split; [reflexivity|exact I].
  - vm_compute in Eg. injection Eg as <-. reflexivity.
Defined.

(** ** Publishing *)

(** C12: publishing decides by the generation that is there: none or an older
    one is replaced; the same one with the same properties and time to live is
    taken over (and is no orphan any more); the same one with other data, or a
    newer one, is an error, which leaves the state as it was.  No other service
    changes, and every subscriber is told what the change means to it. *)
Theorem sd_publish_correct (st : state) (c id gen : Z) (p : props) (ttl : Z) :
  reachable st → connected st c = true →
  (0 ≤ id)%Z → (0 ≤ gen)%Z → (0 ≤ ttl ≤ 2 ^ 32)%Z → props_fit p →
  let old := gen_at st id in
  let new := (published old c gen p ttl).2 in
  ∃ st', sd_publish c id gen p ttl st = Ok ((published old c gen p ttl).1, st') ∧
    gen_at st' id = new ∧ (∀ id', id' ≠ id → gen_at st' id' = gen_at st id') ∧
    (∀ i, sub_at st' i = sub_at st i) ∧ (∀ c', connected st' c' = connected st c') ∧
    match_calls st' = match_calls st ++
      (if quiet old c gen p ttl then [] else told st id old new) ∧
    (quiet old c gen p ttl = true → st' = st).
Proof.
  intros Hr Hc Hid Hgen Httl Hp old new. pose proof (reachable_inv _ Hr) as H.
  destruct (connected_active _ _ H Hc) as (lc & cl & a & ka & HA).
  destruct (wp_run _ _ _ (wp_publish st c lc cl a ka HA H id gen p ttl Hid Hgen Httl Hp))
    as (r & st' & E & HQ). fold old in HQ. exists st'. subst new. rewrite E.
  destruct (published old c gen p ttl) as [r0 g']. destruct HQ as [-> HQ]. simpl.
  destruct (quiet old c gen p ttl).
  - destruct HQ as [-> HQ]. rewrite app_nil_r. done.
  - split_and!; [done|apply HQ| | |apply HQ|apply (G_told _ _ _ _ HQ)|done].
    + intros id' Hne. unfold gen_at. by rewrite (G_other _ _ _ _ HQ).
    + intros i. unfold sub_at. by rewrite (G_subs _ _ _ _ HQ), (G_dbu _ _ _ _ HQ).
Qed.

(** Client 2 publishes a newer generation of the service of client 1. *)
Lemma sd_publish_correct_witness :
  ∃ st', sd_publish 2 7 2 [] 10 (after history) = Ok (0%Z, st') ∧
    gen_at st' 7 = Some (Generation 2 (Some []) 10 (d_of_Z (-1)) 2) ∧
    match_calls st' = match_calls (after history) ++ [(6%positive, 0%Z, sub_match_type_modified, 7%Z)].
Proof.
  destruct (sd_publish_correct (after history) 2 7 2 [] 10) as (st' & E & Hg & _ & _ & _ & Hm & _).
  - apply reachable_after. by vm_compute.
  - by vm_compute.
  - lia.
  - lia.
  - lia.
  - apply (bool_decide_eq_true_1 _). by vm_compute.
  - exists st'. assert (Eg : gen_at (after history) 7 =
      Some (Generation 1 (Some [(C "name", value_str (C "a"))]) 30 (d_of_Z (-1)) 1))
      by (by vm_compute).
    rewrite Eg in E, Hg, Hm. split; [exact E|]. split; [exact Hg|]. rewrite Hm.
    f_equal; by vm_compute.
Defined.

(** C15: unpublishing removes the service, whoever published it, and is an
    error when there is none; a service of another client, or an orphan, is
    first taken over, which the subscribers are told as a modification. *)
Theorem sd_unpublish_correct (st : state) (c id : Z) :
  reachable st → connected st c = true →
  ∃ r st', sd_unpublish c id st = Ok (r, st') ∧
    match gen_at st id with
    | None => r = SD_ERR_NO_SUCH_SERVICE ∧ st' = st
    | Some g =>
        r = 0%Z ∧ gen_at st' id = None ∧ (∀ id', id' ≠ id → gen_at st' id' = gen_at st id') ∧
        (∀ i, sub_at st' i = sub_at st i) ∧ (∀ c', connected st' c' = connected st c') ∧
        match_calls st' = match_calls st ++ told_all st id (Some g) (unpublished g c)
    end.
Proof.
  intros Hr Hc. pose proof (reachable_inv _ Hr) as H.
  destruct (connected_active _ _ H Hc) as (lc & cl & a & ka & HA).
  apply wp_run. eapply (wp_unpublish st c lc cl a ka HA H).
  - intros ->. done.
  - intros g st' Eg C. rewrite Eg. split_and!; [done| | | |apply C|].
    + rewrite (GS_gen _ _ _ _ C). unfold unpublished. by destruct (_ && _).
    + intros id' Hne. unfold gen_at. by rewrite (GS_other _ _ _ _ C).
    + intros i. unfold sub_at. by rewrite (GS_subs _ _ _ _ C), (GS_dbu _ _ _ _ C).
    + by rewrite (GS_told _ _ _ _ C), Eg.
Qed.

(** Client 2 unpublishes the service of client 1. *)
Lemma sd_unpublish_correct_witness :
  ∃ st', sd_unpublish 2 7 (after history) = Ok (0%Z, st') ∧ gen_at st' 7 = None ∧
    match_calls st' = match_calls (after history) ++
      [(6%positive, 0%Z, sub_match_type_modified, 7%Z); (6%positive, 0%Z, sub_match_type_disappeared, 7%Z)].
Proof.
  destruct (sd_unpublish_correct (after history) 2 7) as (r & st' & E & HQ).
  - apply reachable_after. by vm_compute.
  - by vm_compute.
  - assert (Eg : gen_at (after history) 7 =
      Some (Generation 1 (Some [(C "name", value_str (C "a"))]) 30 (d_of_Z (-1)) 1))
      by (by vm_compute).
    rewrite Eg in HQ. destruct HQ as (-> & Hg & _ & _ & _ & Hm). exists st'.
    split; [exact E|]. split; [exact Hg|]. rewrite Hm. f_equal; by vm_compute.
Defined.

(** ** Connections *)

Lemma active_conn_of_eq st c lc cl a ka : active_client st c lc cl a ka →
  active_conn_of st c = Some ka.
Proof.
  intros HA. unfold active_conn_of, client_at. rewrite (A_db _ _ _ _ _ _ HA). simpl.
  rewrite (A_cl _ _ _ _ _ _ HA). simpl. rewrite (A_active _ _ _ _ _ _ HA). simpl. apply HA.
Qed.

Section disconnected.
Context (st : state) (c : Z) (lc : loc) (cl : client) (a : loc) (ka : conn).
Context (HA : active_client st c lc cl a ka) (H : inv st).
Context (st' : state) (D : disconnected_from st c lc cl a ka st').

Lemma held_active id : held st c id = amap_has (conn_services ka) id.
Proof. unfold held. by rewrite (active_conn_of_eq _ _ _ _ _ _ HA). Qed.

Lemma held_keys id : id ∈ amap_keys (conn_services ka) ↔ held st c id = true.
Proof.
  rewrite held_active, amap_has_get. split.
  - intros Hin. destruct (amap_get (conn_services ka) id) as [l|] eqn:El; [by eexists|].
    by apply amap_get_None in El.
  - intros [l Hl%amap_get_Some_elem]. apply list_elem_of_fmap. by exists (id, l).
Qed.

Lemma disconnected_gen id :
  gen_at st' id = if held st c id then orphaned (now_at st) <$> gen_at st id else gen_at st id.
Proof.
  unfold gen_at. rewrite (DF_svc _ _ _ _ _ _ _ D), held_active.
  destruct (amap_has _ _); [|done]. destruct (svc_at st id) as [s|] eqn:Es; [|done]. simpl.
  destruct (svc_at_spec _ _ _ H Es) as (l & _ & Hs & _).
  destruct (S_ok _ _ (I_S _ H) _ _ Hs) as (_ & _ & g & Hg & _).
  unfold orphan_service. by rewrite Hg.
Qed.

Lemma disconnected_told : match_calls st' = match_calls st ++
  (amap_keys (conn_services ka) ≫= λ id, told st' id (gen_at st id) (gen_at st' id)).
Proof.
  rewrite (DF_told _ _ _ _ _ _ _ D). f_equal.
  pose proof (ka_held st c lc cl a ka HA H) as [_ Hm].
  assert (Hin : ∀ id l, (id, l) ∈ conn_services ka → held st c id = true).
  { intros id l Hin. apply held_keys, list_elem_of_fmap. by exists (id, l). }
  revert Hm Hin. generalize (conn_services ka). intros m Hm Hin.
  induction m as [|[id l] m IH]; [done|].
  rewrite told_orphans_cons, amap_keys_cons, bind_cons.
  rewrite IH; [|intros id' l' Hi; apply Hm; by right|intros id' l' Hi; eapply Hin; by right].
  f_equal. destruct (Hm id l) as (s & g & Hs & Eid & Hg & _); [left|]. cbn [services detached].
  rewrite Hs. cbn [mbind option_bind].
  assert (Egen : gen_at st id = Some g).
  { unfold gen_at. rewrite <-Eid, (gen_at_db _ _ _ H Hs). done. }
  rewrite Hg, (disconnected_gen id), (Hin id l), Egen by left. simpl.
  symmetry. apply told_same; apply D.
Qed.
End disconnected.

(** C13: when a client disconnects, the services that its connection holds
    become orphans at that time, and stay known; the client's subscriptions
    are gone; no other service, client or subscription changes; and the
    remaining subscribers of an orphaned service are told of the modification. *)
Theorem sd_disconnect_correct (st : state) (c : Z) :
  reachable st → connected st c = true →
  let now := ut_timespec_to_f (clock st (tick st)) in
  ∃ st' ids, sd_client_disconnect c st = Ok (0%Z, st') ∧
    (∀ c', connected st' c' = if decide (c' = c) then false else connected st c') ∧
    (∀ id, gen_at st' id = if held st c id then orphaned now <$> gen_at st id else gen_at st id) ∧
    (∀ id g, held st c id = true → gen_at st' id = Some g → gen_orphan (Some g) = true) ∧
    (∀ i, sub_at st' i = s ← sub_at st i; if decide (sub_client_id s = c) then None else Some s) ∧
    (∀ id, id ∈ ids ↔ held st c id = true) ∧
    match_calls st' = match_calls st ++
      (ids ≫= λ id, told st' id (gen_at st id) (gen_at st' id)).
Proof.
  intros Hr Hc now. pose proof (reachable_inv _ Hr) as H.
  destruct (connected_active _ _ H Hc) as (lc & cl & a & ka & HA).
  assert (HQ : wp (sd_client_disconnect c) (λ r st', r = 0%Z ∧ disconnected_from st c lc cl a ka st') st)
    by (by apply (wp_disconnect st c lc cl a ka HA H)).
  destruct (wp_run _ _ _ HQ) as (r & st' & E & -> & D). clear HQ.
  pose proof (disconnected_gen _ _ _ _ _ _ HA H _ D) as Hgen.
  exists st', (amap_keys (conn_services ka)). split_and!; [exact E|apply D|exact Hgen| |apply D| |].
  - intros id g Hh Hg. rewrite Hgen, Hh in Hg. destruct (gen_at st id) as [g0|]; [|done].
    simpl in Hg. injection Hg as <-. simpl. apply (now_at_ok st H).
  - by eapply held_keys.
  - by eapply disconnected_told.
Qed.

(** Client 1 disconnects. *)
Lemma sd_disconnect_correct_witness :
  ∃ st' g, sd_client_disconnect 1 (after history) = Ok (0%Z, st') ∧
    connected st' 1 = false ∧ gen_at st' 7 = Some g ∧ gen_orphan (Some g) = true.
Proof.
  destruct (sd_disconnect_correct (after history) 1) as (st' & ids & E & Hc & Hg & Ho & _).
  - apply reachable_after. by vm_compute.
  - by vm_compute.
  - assert (Eh : held (after history) 1 7 = true) by (by vm_compute).
    specialize (Hg 7%Z). rewrite Eh in Hg.
    assert (Eg : gen_at (after history) 7 =
      Some (Generation 1 (Some [(C "name", value_str (C "a"))]) 30 (d_of_Z (-1)) 1))
      by (by vm_compute).
    rewrite Eg in Hg. cbn [fmap option_fmap option_map] in Hg. eexists st', _.
    split; [exact E|]. split; [exact (Hc 1%Z)|]. split; [exact Hg|].
    apply (Ho 7%Z); [exact Eh|exact Hg].
Defined.

(** Connecting makes the client connected, with a connection that holds
    nothing, and is an error, without effect, when the client is connected
    already; nothing else changes. *)
Theorem sd_connect_correct (st : state) (c : Z) (addr : option cstr) :
  reachable st → (0 ≤ c)%Z →
  ∃ r st', sd_client_connect c addr st = Ok (r, st') ∧ connected st' c = true ∧
    (if connected st c then r = SD_ERR_CLIENT_ALREADY_EXISTS ∧ st' = st
     else r = 0%Z ∧ ∀ id, held st' c id = false) ∧
    (∀ c', c' ≠ c → connected st' c' = connected st c') ∧
    (∀ id, gen_at st' id = gen_at st id) ∧ (∀ i, sub_at st' i = sub_at st i) ∧
    match_calls st' = match_calls st.
Proof.
  intros Hr Hc. pose proof (reachable_inv _ Hr) as H. apply wp_run.
  assert (Hheld : ∀ st' cl cn k, client_at st' c = Some cl → active_conn cl = Some cn →
            conns st' !! cn = Some k → conn_services k = [] → ∀ id, held st' c id = false).
  { intros st' cl cn k E1 E2 E3 E4 id. unfold held, active_conn_of.
    rewrite E1. simpl. rewrite E2. simpl. by rewrite E3, E4. }
  assert (Hother : ∀ st', (∀ c', c' ≠ c → client_at st' c' = client_at st c') →
            ∀ c', c' ≠ c → connected st' c' = connected st c').
  { intros st' E c' Hne. unfold connected. by rewrite E. }
  destruct (client_at st c) as [cl|] eqn:Ec.
  - assert (Econ : connected st c = client_is_connected cl) by (unfold connected; by rewrite Ec).
    rewrite Econ. eapply wp_reconnect; [done|exact Ec| |].
    + intros Hcon. by rewrite Hcon, Econ.
    + intros Hcon st' _ E1 E2 E3 E4 E5 _ (cn & k & E6 & E7 & E8 & _) E9 _. rewrite Hcon.
      split_and!; [|done|by eapply Hheld|by apply Hother| | |].
      * unfold connected. by rewrite E6.
      * intros id. unfold gen_at, svc_at. by rewrite E1, E2.
      * intros i. unfold sub_at. by rewrite E3, E4.
      * unfold match_calls. by rewrite E5.
  - assert (Econ : connected st c = false) by (unfold connected; by rewrite Ec).
    rewrite Econ. eapply wp_connect_new; [done|exact Ec|done|].
    intros st' _ E1 E2 E3 E4 E5 _ (cn & k & E6 & E7 & E8 & _) E9 _.
    split_and!; [|done|by eapply Hheld|by apply Hother| | |].
    * unfold connected. by rewrite E6.
    * intros id. unfold gen_at, svc_at. by rewrite E1, E2.
    * intros i. unfold sub_at. by rewrite E3, E4.
    * unfold match_calls. by rewrite E5.
Qed.

(** Client 2 tries again; client 3 is new. *)
Lemma sd_connect_correct_witness :
  (∃ st', sd_client_connect 2 None (after history) = Ok (SD_ERR_CLIENT_ALREADY_EXISTS, st')) ∧
  ∃ st', sd_client_connect 3 None (after history) = Ok (0%Z, st') ∧ connected st' 3 = true.
Proof.
  assert (Hr : reachable (after history)) by (apply reachable_after; by vm_compute).
  split.
  - destruct (sd_connect_correct (after history) 2 None Hr) as (r & st' & E & _ & HQ & _); [lia|].
    assert (Ec : connected (after history) 2 = true) by (by vm_compute). rewrite Ec in HQ.
    destruct HQ as [-> _]. exists st'. exact E.
  - destruct (sd_connect_correct (after history) 3 None Hr) as (r & st' & E & Hc & HQ & _); [lia|].
    assert (Ec : connected (after history) 3 = false) by (by vm_compute). rewrite Ec in HQ.
    destruct HQ as [-> _]. exists st'. split; [exact E|exact Hc].
Defined.

(** ** Subscriptions *)

(** What a new subscription is told, by the identifiers of the services. *)
Lemma activation_gens st a ka id s l : inv st →
  activation (created st a ka id s) l s = omap (λ i,
    if sees s (gen_at st i ≫= gen_props)
    then Some (l, match_cb_data s, sub_match_type_appeared, i) else None) (amap_keys (db_services st)).
Proof.
  intros H. pose proof (I_S _ H) as HS. unfold activation, amap_keys. simpl.
  assert (Hm : ∀ i x, (i, x) ∈ db_services st → gen_at st i = services st !! x ≫= current).
  { intros i x Hin. apply amap_get_elem in Hin; [|apply HS]. unfold gen_at, svc_at. by rewrite Hin. }
  assert (Hex : ∀ i x, (i, x) ∈ db_services st → is_Some (services st !! x)).
  { intros i x Hin. apply amap_get_elem in Hin; [|apply HS].
    destruct (S_get _ _ HS _ _ Hin) as (srv & ? & _). by eexists. }
  revert Hm Hex. generalize (db_services st). intros m Hm Hex.
  induction m as [|[i x] m IH]; [done|]. rewrite fmap_cons, !omap_cons_eq. cbn [fst snd].
  rewrite (Hm i x) by left. destruct (Hex i x) as [srv Hsrv]; [left|]. rewrite Hsrv.
  cbn [mbind option_bind]. rewrite IH; [by destruct (sees _ _)| |].
  - intros i' x' Hin. apply Hm. by right.
  - intros i' x' Hin. eapply Hex. by right.
Qed.

(** C18: subscribing with a string that is no filter, or with an identifier in
    use, is an error without effect; otherwise the subscription is there
    afterwards, with its filter, and is told that each service it selects has
    appeared, in the order of the database; nothing else changes. *)
Theorem sd_subscribe_correct (st : state) (c id : Z) (fs : option cstr) (cb_data : Z) :
  reachable st → connected st c = true → (0 ≤ id)%Z →
  match request_filter fs with Some (Some f) => simple f | _ => True end →
  ∃ r st', subscribe c id fs cb_data st = Ok (r, st') ∧
    match request_filter fs, sub_at st id with
    | None, _ => r = SD_ERR_INVALID_FILTER ∧ st' = st
    | _, Some _ => r = SD_ERR_SUB_ALREADY_EXISTS ∧ st' = st
    | Some f, None =>
        r = 0%Z ∧ ∃ l, let s := Sub id f c cb_data 2 in
        subs st' !! l = Some s ∧ sub_at st' id = Some s ∧
        (∀ i, i ≠ id → sub_at st' i = sub_at st i) ∧
        (∀ i, gen_at st' i = gen_at st i) ∧ (∀ c', connected st' c' = connected st c') ∧
        match_calls st' = match_calls st ++ omap (λ i,
          if sees s (gen_at st i ≫= gen_props)
          then Some (l, cb_data, sub_match_type_appeared, i) else None)
            (amap_keys (db_services st))
    end.
Proof.
  intros Hr Hc Hid Hf. pose proof (reachable_inv _ Hr) as H. apply wp_run.
  destruct (connected_active _ _ H Hc) as (lc & cl & a & ka & HA). unfold subscribe. apply wp_bind.
  eapply (wp_create_sub st c lc cl a ka HA H id fs cb_data); [done|done| | |].
  - intros E. apply wp_bind, wp_ret, wp_ret. by rewrite E.
  - intros f E Hs. apply wp_bind, wp_ret, wp_ret. rewrite E. by destruct (sub_at st id).
  - intros f E Hok Hnone. apply wp_bind. cbn [bool_decide]. rewrite E, Hnone.
    pose proof (sub_at_None _ _ H Hnone) as Hdb. set (s := new_sub id f c cb_data).
    pose proof (inv_created st c lc cl a ka HA H id f cb_data Hid Hok Hdb) as H'.
    assert (HA' : active_client (created st a ka id s) c lc cl a
                    (conn_with_subs (conn_subs ka ++ [(id, next_loc st)]) ka)).
    { split; try apply HA. apply lookup_insert_eq. }
    eapply (wp_activate_sub _ c lc cl a _ HA' H' id s (next_loc st)).
    + simpl. rewrite amap_get_add by done. by rewrite decide_True.
    + apply lookup_insert_eq.
    + intros os Eos. apply wp_ret. split; [done|]. exists (next_loc st). split_and!.
      * apply lookup_insert_eq.
      * unfold sub_at. simpl. rewrite amap_get_add, decide_True by done. simpl. apply lookup_insert_eq.
      * intros i Hne. unfold sub_at. simpl. rewrite amap_get_add, decide_False by done.
        destruct (amap_get (db_subs st) i) as [l|] eqn:El; [|done]. simpl.
        rewrite lookup_insert_ne; [done|]. pose proof (sub_loc_fresh _ _ _ H El). lia.
      * done.
      * done.
      * unfold match_calls. simpl. by rewrite omap_app, (introduced_calls _ _ _ _ Eos), activation_gens.
Qed.

(** Client 1 subscribes to the services with a name. *)
Lemma sd_subscribe_correct_witness :
  ∃ st' l, subscribe 1 9 (Some (C "(name=*)")) 4 (after history) = Ok (0%Z, st') ∧
    match_calls st' = match_calls (after history) ++ [(l, 4%Z, sub_match_type_appeared, 7%Z)].
Proof.
  assert (Ef : request_filter (Some (C "(name=*)")) = Some (Some (FPresent (C "name"))))
    by (by vm_compute).
  destruct (sd_subscribe_correct (after history) 1 9 (Some (C "(name=*)")) 4) as (r & st' & E & HQ).
  - apply reachable_after. by vm_compute.
  - by vm_compute.
  - lia.
  - by rewrite Ef.
  - assert (Es : sub_at (after history) 9 = None) by (by vm_compute). rewrite Ef, Es in HQ.
    destruct HQ as (-> & l & _ & _ & _ & _ & _ & Hm). exists st', l. split; [exact E|].
    rewrite Hm. f_equal; by vm_compute.
Defined.

(** C19: unsubscribing ends a subscription of the client; one that does not
    exist, or that is another client's, is an error without effect. *)
Theorem sd_unsubscribe_correct (st : state) (c id : Z) :
  reachable st → connected st c = true →
  ∃ r st', sd_unsubscribe c id st = Ok (r, st') ∧
    match sub_at st id with
    | None => r = SD_ERR_NO_SUCH_SUB ∧ st' = st
    | Some s =>
        if decide (sub_client_id s = c)
        then r = 0%Z ∧ sub_at st' id = None ∧ (∀ i, i ≠ id → sub_at st' i = sub_at st i) ∧
             (∀ i, gen_at st' i = gen_at st i) ∧ (∀ c', connected st' c' = connected st c') ∧
             match_calls st' = match_calls st
        else r = SD_ERR_PERM_DENIED ∧ st' = st
    end.
Proof.
  intros Hr Hc. pose proof (reachable_inv _ Hr) as H. apply wp_run.
  destruct (connected_active _ _ H Hc) as (lc & cl & a & ka & HA).
  eapply (wp_unsubscribe st c lc cl a ka HA H).
  - by intros ->.
  - intros s -> Hne. by rewrite decide_False.
  - intros s l Es Ec Hg Hdb. rewrite Es, decide_True by done.
    pose proof (U_nodup _ _ _ _ (I_U _ H)) as Hnd. split_and!; [done| | |done|done|done].
    + unfold sub_at. simpl. rewrite amap_get_remove, decide_True; done.
    + intros i Hne. unfold sub_at. simpl. rewrite amap_get_remove, decide_False by done.
      destruct (amap_get (db_subs st) i) as [l'|] eqn:El; [|done]. simpl.
      rewrite lookup_delete_ne; [done|]. intros <-.
      destruct (U_get _ _ _ _ (I_U _ H) _ _ El) as (s1 & Hs1 & E1).
      destruct (U_get _ _ _ _ (I_U _ H) _ _ Hdb) as (s2 & Hs2 & E2). congruence.
Qed.

(** Client 2 ends its subscription; client 1 cannot. *)
Lemma sd_unsubscribe_correct_witness :
  (∃ st', sd_unsubscribe 2 5 (after history) = Ok (0%Z, st') ∧ sub_at st' 5 = None) ∧
  ∃ st', sd_unsubscribe 1 5 (after history) = Ok (SD_ERR_PERM_DENIED, st').
Proof.
  assert (Hr : reachable (after history)) by (apply reachable_after; by vm_compute).
  assert (Es : sub_at (after history) 5 = Some (Sub 5 None 2 0 2)) by (by vm_compute). split.
  - destruct (sd_unsubscribe_correct (after history) 2 5 Hr) as (r & st' & E & HQ); [by vm_compute|].
    rewrite Es in HQ. destruct HQ as (-> & Hn & _). exists st'. split; [exact E|exact Hn].
  - destruct (sd_unsubscribe_correct (after history) 1 5 Hr) as (r & st' & E & HQ); [by vm_compute|].
    rewrite Es in HQ. destruct HQ as (-> & _). exists st'. exact E.
Defined.

(** ** Orphans *)

(** C16: the services that are orphans and the timers correspond one to one:
    each orphan has exactly one timer, each timer is pending and is for a
    service that is known and is an orphan. *)
Theorem orphans_have_timers (st : state) :
  reachable st →
  (∀ l s, services st !! l = Some s → s_orphan s = true →
     ∃ t x, timers st !! t = Some x ∧ timer_service x = l) ∧
  (∀ t x, timers st !! t = Some x → is_Some (timer_pending x) ∧
     ∃ s, services st !! timer_service x = Some s ∧ s_orphan s = true) ∧
  (∀ t t' x x', timers st !! t = Some x → timers st !! t' = Some x' →
     timer_service x = timer_service x' → t = t').
Proof.
  intros Hr. pose proof (reachable_good _ Hr) as G. pose proof (I_O _ (Good_inv _ G)) as HO.
  assert (Ht : ∀ t x, timers st !! t = Some x → ∃ s, services st !! timer_service x = Some s ∧
            s_orphan s = true ∧ amap_get (orphans st) (service_id s) = Some t).
  { intros t x Hx. destruct (O_all _ _ _ HO _ _ Hx) as [id Hid].
    destruct (O_get _ _ _ HO _ _ Hid) as (y & s & Hy & Hs & <- & Ho).
    assert (y = x) as -> by congruence. by exists s. }
  split_and!.
  - intros l s Hs Ho. destruct (O_orphan _ _ _ HO _ _ Hs Ho) as (t & x & _ & Hx & El). by exists t, x.
  - intros t x Hx. split; [by apply (Good_pending _ G t)|].
    destruct (Ht _ _ Hx) as (s & ? & ? & _). by exists s.
  - intros t t' x x' Hx Hx' E. destruct (Ht _ _ Hx) as (s & Hs & _ & Hid).
    destruct (Ht _ _ Hx') as (s' & Hs' & _ & Hid'). rewrite E, Hs' in Hs. congruence.
Qed.

Definition history_orphan : list event := history ++ [EDisconnect 1].

Lemma orphans_have_timers_witness :
  ∃ l s t x, services (after history_orphan) !! l = Some s ∧ service_id s = 7%Z ∧
    timers (after history_orphan) !! t = Some x ∧ timer_service x = l.
Proof.
  destruct (orphans_have_timers (after history_orphan)) as (H1 & _).
  - apply reachable_after. by vm_compute.
  - assert (∃ s, services (after history_orphan) !! 3%positive = Some s ∧ service_id s = 7%Z ∧
              s_orphan s = true) as (s & Hs & Eid & Ho).
    { eexists. split_and!; [by vm_compute|done|by vm_compute]. }
    destruct (H1 _ _ Hs Ho) as (t & x & Hx & El). exists 3%positive, s, t, x.
    exact (conj Hs (conj Eid (conj Hx El))).
Defined.

(** C14: when the timer of an orphan fires and its last owner is not
    connected, the service is removed and its subscribers are told so. *)
Theorem orphan_timeout_correct (st : state) (t : loc) (s : service) :
  reachable st → timer_for st t s → connected st (s_client s) = false →
  ∃ st', orphan_timeout_cb t st = Ok (tt, st') ∧ gen_at st' (service_id s) = None ∧
    (∀ id, id ≠ service_id s → gen_at st' id = gen_at st id) ∧
    (∀ i, sub_at st' i = sub_at st i) ∧ (∀ c, connected st' c = connected st c) ∧
    match_calls st' = match_calls st ++ told st (service_id s) (current s) None.
Proof.
  intros Hr Ht Hc. pose proof (reachable_inv _ Hr) as H.
  assert (HQ : wp (orphan_timeout_cb t) (λ r st', changed st (service_id s) None st') st)
    by (by eapply wp_timeout).
  destruct (wp_run _ _ _ HQ) as ([] & st' & E & C). destruct Ht as (x & Hx & Hs). exists st'.
  assert (Eg : gen_at st (service_id s) = current s)
    by (unfold gen_at; by rewrite (gen_at_db _ _ _ H Hs)).
  split_and!; [done|apply C| | |apply C|].
  - intros id Hne. unfold gen_at. by rewrite (G_other _ _ _ _ C).
  - intros i. unfold sub_at. by rewrite (G_subs _ _ _ _ C), (G_dbu _ _ _ _ C).
  - by rewrite (G_told _ _ _ _ C), Eg.
Qed.

(** The orphan of client 1 is purged. *)
Lemma orphan_timeout_correct_witness :
  ∃ st', orphan_timeout_cb 7 (after history_orphan) = Ok (tt, st') ∧ gen_at st' 7 = None ∧
    match_calls st' = match_calls (after history_orphan) ++
      [(6%positive, 0%Z, sub_match_type_disappeared, 7%Z)].
Proof.
  assert (∃ s, timer_for (after history_orphan) 7 s ∧ service_id s = 7%Z ∧ s_client s = 1%Z ∧
            told (after history_orphan) 7 (current s) None =
            [(6%positive, 0%Z, sub_match_type_disappeared, 7%Z)])
    as (s & Ht & Eid & Ec & Etold).
  { eexists. split_and!; [eexists; split; by vm_compute|done|by vm_compute|by vm_compute]. }
  destruct (orphan_timeout_correct (after history_orphan) 7 s) as (st' & E & Hg & _ & _ & _ & Hm).
  - apply reachable_after. by vm_compute.
  - exact Ht.
  - rewrite Ec. by vm_compute.
  - exists st'. rewrite Eid in Hg, Hm. rewrite Hm, Etold. exact (conj E (conj Hg eq_refl)).
Defined.

(** ** Where the code does not do what it means to *)

Lemma timeout_aborts st t s : inv st → timer_for st t s → connected st (s_client s) = true →
  orphan_timeout_cb t st = Fail AssertFailed.
Proof.
  intros H (x & Hx & Hs) Hc.
  destruct (owner_facts st _ s H Hs) as (lc & cl & cn & k & Edb & Hcl & _).
  destruct (S_ok _ _ (I_S _ H) _ _ Hs) as (_ & _ & g & Hcur & _).
  unfold connected, client_at in Hc. rewrite Edb in Hc. simpl in Hc. rewrite Hcl in Hc.
  unfold orphan_timeout_cb. rewrite M_bind_eq, update_eq. simpl. rewrite Hx. simpl.
  unfold read at 1. rewrite !M_bind_eq. unfold load. simpl. rewrite lookup_insert_eq. simpl.
  unfold purge_orphan, read. rewrite !M_bind_eq. unfold load. simpl. rewrite Hs. simpl.
  unfold service_get_client_id, service_get. rewrite Hcur. simpl.
  unfold s_client in Edb. rewrite Hcur in Edb.
  unfold db_get_client, gets. rewrite M_bind_eq. simpl. rewrite !M_bind_eq. simpl. rewrite Hs. simpl.
  rewrite M_bind_eq. rewrite Edb. simpl. unfold client_purge_orphan. rewrite M_bind_eq. unfold load.
  simpl. rewrite Hcl. simpl. rewrite M_bind_eq. unfold lift. by rewrite Hc.
Qed.

(** Whether or not the owner of its service is connected, a pending timer may
    fire; requests are as in [allowed]. *)
Definition possible_event (st : state) (e : event) : bool :=
  match e with
  | ETimeout t => bool_decide (is_Some (timers st !! t))
  | _ => allowed st e
  end.

Fixpoint possible (st : state) (evs : list event) : bool :=
  match evs with
  | [] => true
  | e :: evs' =>
      possible_event st e &&
      match run_event e st with Ok (_, st') => possible st' evs' | Fail _ => true end
  end.

(** The timer of an orphan whose owner has connected again. *)
Definition reconnected (st : state) (t : loc) : Prop :=
  ∃ s, timer_for st t s ∧ connected st (s_client s) = true.

Lemma possible_cases st e : inv st → possible_event st e = true →
  allowed st e = true ∨ ∃ t, e = ETimeout t ∧ reconnected st t.
Proof.
  intros H Hp. destruct e as [| | | | | |t]; try (by left).
  apply bool_decide_eq_true in Hp as [x Hx].
  destruct (O_all _ _ _ (I_O _ H) _ _ Hx) as [id Hid].
  destruct (O_get _ _ _ (I_O _ H) _ _ Hid) as (x' & s & Hx' & Hs & _). assert (x' = x) as -> by congruence.
  simpl. rewrite Hx, Hs. destruct (connected st (s_client s)) eqn:Ec; [right|by left].
  exists t. split; [done|]. exists s. split; [by exists x|done].
Qed.

Lemma reconnected_aborts st t : inv st → reconnected st t →
  orphan_timeout_cb t st = Fail AssertFailed.
Proof. intros H (s & Ht & Hc). by eapply timeout_aborts. Qed.

(** C29: when the timer of an orphan fires and its last owner has connected
    again in the meantime, an assertion fails, and the server aborts:
    [client_purge_orphan] expects an owner that is not connected, but neither
    a reconnection nor anything else stops the timer. *)
Theorem timeout_after_reconnect (st : state) (t : loc) (s : service) :
  reachable st → timer_for st t s → connected st (s_client s) = true →
  orphan_timeout_cb t st = Fail AssertFailed.
Proof. intros Hr. apply timeout_aborts, reachable_inv, Hr. Qed.

Definition history_reconnected : list event := history_orphan ++ [EConnect 1 None].

(** The requests of two well-behaved clients bring that about. *)
Lemma timeout_after_reconnect_witness :
  admissible (sd_create clk0) history_reconnected = true ∧
  orphan_timeout_cb 7 (after history_reconnected) = Fail AssertFailed.
Proof.
  assert (Ha : admissible (sd_create clk0) history_reconnected = true) by (by vm_compute).
  assert (∃ s, timer_for (after history_reconnected) 7 s ∧ s_client s = 1%Z) as (s & Ht & Ec).
  { eexists. split; [eexists; split; by vm_compute|by vm_compute]. }
  split; [exact Ha|]. apply (timeout_after_reconnect _ 7 s); [by apply reachable_after|exact Ht|].
  rewrite Ec. by vm_compute.
Defined.

Lemma held_not_orphan st c id g : inv st → gen_at st id = Some g → held st c id = true →
  gen_orphan (Some g) = false.
Proof.
  intros H Hg Hh. apply held_iff in Hh as (cn & k & Hk & Hopen & _ & Hin); [|done].
  apply amap_has_get in Hin as [l Hl].
  destruct (H_get _ _ _ (I_H _ H) _ _ _ _ Hk Hl) as (s & Hs & Eid & _ & Ho).
  unfold gen_at in Hg. rewrite <-Eid, (gen_at_db _ _ _ H Hs) in Hg. simpl in Hg.
  specialize (Ho Hopen). unfold s_orphan in Ho. by rewrite Hg in Ho.
Qed.

Lemma timer_gen st t s : inv st → timer_for st t s →
  ∃ g, gen_at st (service_id s) = Some g ∧ gen_orphan (Some g) = true.
Proof.
  intros H (x & Hx & Hs). destruct (O_all _ _ _ (I_O _ H) _ _ Hx) as [i Hi].
  destruct (O_get _ _ _ (I_O _ H) _ _ Hi) as (x' & s' & Hx' & Hs' & _ & Ho).
  assert (x' = x) as -> by congruence. assert (s' = s) as -> by congruence.
  unfold gen_at. rewrite (gen_at_db _ _ _ H Hs). simpl. unfold s_orphan in Ho. destruct (current s) as [g|]; [|done].
  by exists g.
Qed.

(** C30: a service that its owner republishes after having reconnected stays
    with the owner's old connection.  Whenever a connected client publishes, with
    success, a service of its own that is an orphan, the service is no orphan any
    more, but the owner's next disconnection does not make it one, as it does the
    services that the connection holds: the service is still known, its owner is
    not connected, and no timer is set for it. *)
Theorem republished_not_orphaned (st : state) (c id gen : Z) (g : generation) (p : props) (ttl : Z) :
  reachable st → connected st c = true →
  gen_at st id = Some g → gen_client_id g = c → gen_orphan (Some g) = true →
  (0 ≤ id)%Z → (0 ≤ gen)%Z → (0 ≤ ttl ≤ 2 ^ 32)%Z → props_fit p →
  (published (Some g) c gen p ttl).1 = 0%Z →
  ∃ st1 st2 g', sd_publish c id gen p ttl st = Ok (0%Z, st1) ∧
    sd_client_disconnect c st1 = Ok (0%Z, st2) ∧
    gen_at st1 id = Some g' ∧ gen_at st2 id = Some g' ∧
    gen_client_id g' = c ∧ connected st2 c = false ∧ gen_orphan (Some g') = false ∧
    ∀ t s, timer_for st2 t s → service_id s ≠ id.
Proof.
  intros Hr Hc Hg Hown Ho Hid Hgen Httl Hp Hok. pose proof (reachable_inv _ Hr) as H.
  destruct (connected_active _ _ H Hc) as (lc & cl & a & ka & HA).
  destruct (wp_run _ _ _ (wp_publish st c lc cl a ka HA H id gen p ttl Hid Hgen Httl Hp))
    as (r & st1 & E1 & HQ). rewrite Hg in HQ.
  assert (Hq : quiet (Some g) c gen p ttl = false).
  { unfold quiet. rewrite Hok, Ho, andb_false_r, orb_false_r.
    apply bool_decide_eq_false_2. intros Hne. by apply Hne. }
  rewrite Hq in HQ. destruct (published (Some g) c gen p ttl) as [r0 g'] eqn:Ep.
  destruct HQ as [-> C]. simpl in Hok. subst r0.
  assert (∃ n q, g' = Some (Generation n q ttl (d_of_Z (-1)) c)) as (n & q & ->).
  { unfold published in Ep. repeat case_match; simplify_eq; eauto. }
  set (g' := Generation n q ttl (d_of_Z (-1)) c) in *.
  pose proof (G_inv _ _ _ _ C) as H1. pose proof (G_connected _ _ _ _ C c) as Hc1. rewrite Hc in Hc1.
  assert (Hh : held st1 c id = false).
  { rewrite (G_held _ _ _ _ C), decide_True by done. unfold holder_after. rewrite Hg. simpl.
    rewrite decide_True by congruence. destruct (held st c id) eqn:E; [|done].
    by rewrite (held_not_orphan st c id g H Hg E) in Ho. }
  destruct (connected_active _ _ H1 Hc1) as (lc1 & cl1 & a1 & ka1 & HA1).
  assert (HQ : wp (sd_client_disconnect c) (λ r st', r = 0%Z ∧ disconnected_from st1 c lc1 cl1 a1 ka1 st') st1)
    by (by apply (wp_disconnect st1 c lc1 cl1 a1 ka1 HA1 H1)).
  destruct (wp_run _ _ _ HQ) as (r & st2 & E2 & -> & D).
  assert (Hg2 : gen_at st2 id = Some g').
  { rewrite (disconnected_gen _ _ _ _ _ _ HA1 H1 _ D), Hh. apply C. }
  exists st1, st2, g'. split_and!; [done|done|apply C|done|done| |done|].
  - rewrite (DF_connected _ _ _ _ _ _ _ D). by rewrite decide_True.
  - intros t s Ht <-. destruct (timer_gen st2 t s) as (g2 & Hg2' & Ho2); [apply D|done|].
    rewrite Hg2 in Hg2'. by injection Hg2' as <-.
Qed.

(** Client 1 publishes its orphan again, and leaves. *)
Lemma republished_not_orphaned_witness :
  ∃ st1 st2 g', sd_publish 1 7 2 [] 30 (after history_reconnected) = Ok (0%Z, st1) ∧
    sd_client_disconnect 1 st1 = Ok (0%Z, st2) ∧ gen_at st2 7 = Some g' ∧
    connected st2 1 = false ∧ gen_orphan (Some g') = false.
Proof.
  destruct (gen_at (after history_reconnected) 7) as [g|] eqn:Eg; [|by vm_compute in Eg].
  assert (H : gen_client_id g = 1%Z ∧ gen_orphan (Some g) = true ∧
    (published (Some g) 1 2 [] 30).1 = 0%Z).
  { vm_compute in Eg. injection Eg as <-. split_and!; by vm_compute. }
  destruct H as (Hown & Ho & Hpub).
  destruct (republished_not_orphaned (after history_reconnected) 1 7 2 g [] 30) as
    (st1 & st2 & g' & E1 & E2 & _ & Hg & _ & Hc & Hn & _);
    [apply reachable_after; by vm_compute|by vm_compute|exact Eg|exact Hown|exact Ho|lia|lia|lia| |exact Hpub|].
  - apply (bool_decide_eq_true_1 _). by vm_compute.
  - exists st1, st2, g'. exact (conj E1 (conj E2 (conj Hg (conj Hc Hn)))).
Defined.

(** A client that loses its last service to another one stays known
    when it is not connected, with a connection that holds nothing: capturing
    a service does not tidy up behind itself as removing one does. *)
Theorem captured_client_stays :
  let evs := [EConnect 1 None; EPublish 1 7 1 [] 30; EDisconnect 1; EConnect 2 None;
              EPublish 2 7 2 [] 30] in
  ∃ rs st cl, run_events evs (sd_create clk0) = Ok (rs, st) ∧
    admissible (sd_create clk0) evs = true ∧
    client_at st 1 = Some cl ∧ active_conn cl = None ∧
    ∃ cn k, inactive_conns cl = [cn] ∧ conns st !! cn = Some k ∧
      conn_services k = [] ∧ conn_subs k = [].
Proof.
  do 3 eexists. split_and!; [by vm_compute..|]. do 2 eexists. split_and!; by vm_compute.
Qed.
