(* ===== verification/SdAbs.v ===== *)
(** * A service directory

    What the service discovery core is for, without how it does it: no
    connections that stay behind, no reference counts, no timers, no order in
    the databases.  A directory holds the services on offer, the interests of
    the subscribers, and the clients that are attached with the services that
    leave with them.  Each event has one result, one next directory, and tells
    each interest some news of each service.  [SdRefine] shows that the core
    does what the directory does. *)

From S2P Require Import Prelude CLib Pvalue Props Filter FilterParse Double Service Sub Amap Heap Client Sd SdWp SdInv SdOps SdRemove SdSubs.

(** ** The directory *)

Record offer := Offer {
  offer_generation : Z;
  offer_props : props;
  offer_ttl : Z;
  offer_orphaned : option double;
  offer_owner : Z
}.

Record interest := Interest {
  interest_owner : Z;
  interest_filter : option filter_t;
  interest_data : Z
}.

Record directory := Directory {
  offers : gmap Z offer;
  interests : gmap Z interest;
  attached : gmap Z (gset Z)
}.

Definition empty_directory : directory := Directory ∅ ∅ ∅.

(** Does the service leave when the client does? *)
Definition holds (d : directory) (c id : Z) : bool :=
  bool_decide (id ∈ default ∅ (attached d !! c)).

(** ** News *)

(** Does the interest select what is on offer? *)
Definition wants (s : interest) (o : option offer) : bool :=
  match o with
  | Some o => match interest_filter s with Some f => fsat f (offer_props o) | None => true end
  | None => false
  end.

(** What an interest is told as an offer changes, step by step. *)
Fixpoint heard (s : interest) (o : option offer) (os : list (option offer))
    : list (Z * sub_match_type) :=
  match os with
  | [] => []
  | o' :: os' =>
      match transition (wants s o) (wants s o') with
      | Some m => [(interest_data s, m)]
      | None => []
      end ++ heard s o' os'
  end.

(** What an interest is told of a service. *)
Definition news : Type := Z → Z → list (Z * sub_match_type).

Definition no_news : news := λ _ _, [].

Definition news_of (d : directory) (id : Z) (os : list (option offer)) : news := λ i j,
  if decide (j = id) then
    match interests d !! i with Some s => heard s (offers d !! id) os | None => [] end
  else [].

(** ** Changing an offer *)

Definition detach (id : Z) (m : gmap Z (gset Z)) : gmap Z (gset Z) := (λ X, X ∖ {[id]}) <$> m.

(** A service stays with the client it is with, unless it changes owners. *)
Definition put_offer (id : Z) (d : directory) (o : option offer) : directory :=
  Directory (partial_alter (λ _, o) id (offers d)) (interests d)
    match o with
    | None => detach id (attached d)
    | Some o' =>
        if decide (offer_owner <$> offers d !! id = Some (offer_owner o')) then attached d
        else alter (λ X, {[id]} ∪ X) (offer_owner o') (detach id (attached d))
    end.

Definition put_offers (id : Z) (d : directory) (os : list (option offer)) : directory :=
  foldl (put_offer id) d os.

Definition claimed (c : Z) (o : offer) : offer :=
  Offer (offer_generation o) (offer_props o) (offer_ttl o) None c.

Definition orphaned_at (now : double) (o : offer) : offer :=
  Offer (offer_generation o) (offer_props o) (offer_ttl o) (Some now) (offer_owner o).

(** In the hands of [c], who is there. *)
Definition owned_by (c : Z) (o : offer) : bool :=
  bool_decide (offer_owner o = c) && bool_decide (offer_orphaned o = None).

(** ** The events *)

Inductive dir_event :=
  | DConnect (c : Z)
  | DDisconnect (c : Z) (now : double)
  | DPublish (c id gen : Z) (p : props) (ttl : Z)
  | DUnpublish (c id : Z)
  | DSubscribe (c id : Z) (fs : option cstr) (data : Z)
  | DUnsubscribe (c id : Z)
  | DExpire (id : Z).

Definition reaction : Type := Z * directory * news.

Definition refused (err : Z) (d : directory) : reaction := (err, d, no_news).

Definition changed_offers (id : Z) (os : list (option offer)) (d : directory) : reaction :=
  (0%Z, put_offers id d os, news_of d id os).

Definition dir_connect (c : Z) (d : directory) : reaction :=
  match attached d !! c with
  | Some _ => refused SD_ERR_CLIENT_ALREADY_EXISTS d
  | None => (0%Z, Directory (offers d) (interests d) (<[c := ∅]> (attached d)), no_news)
  end.

(** The services that [c] holds are orphans from [now] on, its interests end,
    and the others are told. *)
Definition dir_disconnect (c : Z) (now : double) (d : directory) : reaction :=
  let staying := filter (λ kv, interest_owner kv.2 ≠ c) (interests d) in
  (0%Z,
   Directory (map_imap (λ id o, Some (if holds d c id then orphaned_at now o else o)) (offers d))
     staying (delete c (attached d)),
   λ i j, match staying !! i, offers d !! j with
          | Some s, Some o => if holds d c j then heard s (Some o) [Some (orphaned_at now o)] else []
          | _, _ => []
          end).

Definition dir_publish (c id gen : Z) (p : props) (ttl : Z) (d : directory) : reaction :=
  match offers d !! id with
  | None => changed_offers id [Some (Offer gen p ttl None c)] d
  | Some o =>
      if bool_decide (gen = offer_generation o) then
        if props_equal p (offer_props o) && bool_decide (ttl = offer_ttl o) then
          if owned_by c o then refused 0 d else changed_offers id [Some (claimed c o)] d
        else refused SD_ERR_SERVICE_SAME_GENERATION_BUT_DIFFERENT_DATA d
      else if bool_decide (offer_generation o < gen)%Z
      then changed_offers id [Some (Offer gen p ttl None c)] d
      else refused SD_ERR_NEWER_SERVICE_GENERATION_EXISTS d
  end.

(** Anyone may take a service down, after taking it over. *)
Definition dir_unpublish (c id : Z) (d : directory) : reaction :=
  match offers d !! id with
  | None => refused SD_ERR_NO_SUCH_SERVICE d
  | Some o => changed_offers id (if owned_by c o then [None] else [Some (claimed c o); None]) d
  end.

Definition dir_subscribe (c id : Z) (fs : option cstr) (data : Z) (d : directory) : reaction :=
  match request_filter fs, interests d !! id with
  | None, _ => refused SD_ERR_INVALID_FILTER d
  | _, Some _ => refused SD_ERR_SUB_ALREADY_EXISTS d
  | Some f, None =>
      let s := Interest c f data in
      (0%Z, Directory (offers d) (<[id := s]> (interests d)) (attached d),
       λ i j, if decide (i = id) then heard s None [offers d !! j] else [])
  end.

Definition dir_unsubscribe (c id : Z) (d : directory) : reaction :=
  match interests d !! id with
  | None => refused SD_ERR_NO_SUCH_SUB d
  | Some s =>
      if bool_decide (interest_owner s = c)
      then (0%Z, Directory (offers d) (delete id (interests d)) (attached d), no_news)
      else refused SD_ERR_PERM_DENIED d
  end.

(** Only an orphan whose owner is away expires. *)
Definition dir_expire (id : Z) (d : directory) : option reaction :=
  o ← offers d !! id;
  _ ← offer_orphaned o;
  match attached d !! offer_owner o with
  | Some _ => None
  | None => Some (changed_offers id [None] d)
  end.

(** Everyone but who connects must be attached. *)
Definition if_attached (c : Z) (d : directory) (r : reaction) : option reaction :=
  Some (match attached d !! c with Some _ => r | None => refused SD_ERR_NO_SUCH_CLIENT d end).

Definition dir_step (e : dir_event) (d : directory) : option reaction :=
  match e with
  | DConnect c => Some (dir_connect c d)
  | DDisconnect c now => if_attached c d (dir_disconnect c now d)
  | DPublish c id gen p ttl => if_attached c d (dir_publish c id gen p ttl d)
  | DUnpublish c id => if_attached c d (dir_unpublish c id d)
  | DSubscribe c id fs data => if_attached c d (dir_subscribe c id fs data d)
  | DUnsubscribe c id => if_attached c d (dir_unsubscribe c id d)
  | DExpire id => dir_expire id d
  end.

(** ** What holds of directories *)

Lemma holds_put_offer id d o c i :
  (∀ o', o = Some o' → is_Some (attached d !! offer_owner o')) →
  holds (put_offer id d o) c i =
  if decide (i = id) then
    match o with
    | None => false
    | Some o' => if decide (offer_owner <$> offers d !! id = Some (offer_owner o')) then holds d c id
                 else bool_decide (c = offer_owner o')
    end
  else holds d c i.
Proof.
  intros Ho. unfold holds, put_offer, detach. cbn [attached].
  assert (Hd : ∀ c', default ∅ (((λ X : gset Z, X ∖ {[id]}) <$> attached d) !! c') =
            default ∅ (attached d !! c') ∖ {[id]}).
  { intros c'. rewrite lookup_fmap. destruct (attached d !! c') as [X|]; simpl; set_solver. }
  destruct o as [o'|]; [case_decide as E|].
  - by case_decide; subst.
  - destruct (Ho o' eq_refl) as [X HX]. destruct (decide (c = offer_owner o')) as [->|Hne].
    + rewrite lookup_alter_eq, lookup_fmap, HX. simpl.
      rewrite (bool_decide_eq_true_2 (_ = _)) by done.
      case_decide; [apply bool_decide_eq_true_2|apply bool_decide_ext]; set_solver.
    + rewrite lookup_alter_ne, Hd by done. rewrite (bool_decide_eq_false_2 (_ = _)) by done.
      case_decide; [apply bool_decide_eq_false_2|apply bool_decide_ext]; set_solver.
  - rewrite Hd. case_decide; [apply bool_decide_eq_false_2|apply bool_decide_ext]; set_solver.
Qed.

Lemma attached_put_offer id d o c : is_Some (attached (put_offer id d o) !! c) ↔ is_Some (attached d !! c).
Proof.
  unfold put_offer, detach. cbn [attached]. destruct o as [o'|]; [case_decide; [done|]|].
  - destruct (decide (c = offer_owner o')) as [->|]; [rewrite lookup_alter_eq|rewrite lookup_alter_ne by done];
      rewrite ?fmap_is_Some, lookup_fmap, ?fmap_is_Some; done.
  - by rewrite lookup_fmap, fmap_is_Some.
Qed.

Lemma attached_put_offers id os d c :
  is_Some (attached (put_offers id d os) !! c) ↔ is_Some (attached d !! c).
Proof.
  unfold put_offers. revert d. induction os as [|o os IH]; intros d; [done|]. simpl.
  by rewrite IH, attached_put_offer.
Qed.

Lemma offers_put_offers id os d j :
  offers (put_offers id d os) !! j = if decide (j = id) then foldl (λ _ o, o) (offers d !! id) os else offers d !! j.
Proof.
  unfold put_offers. revert d. induction os as [|o os IH]; intros d; [by case_decide; subst|].
  simpl. rewrite IH. unfold put_offer. cbn [offers]. rewrite lookup_partial_alter_eq.
  case_decide; [done|]. by rewrite lookup_partial_alter_ne.
Qed.

Lemma interests_put_offers id os d : interests (put_offers id d os) = interests d.
Proof. unfold put_offers. revert d. induction os as [|o os IH]; intros d; [done|]. simpl. by rewrite IH. Qed.

(** ** The directories that events lead to *)

Inductive reached : directory → Prop :=
  | reached_empty : reached empty_directory
  | reached_step d a r d' n : reached d → dir_step a d = Some (r, d', n) → reached d'.

(** What a client holds is its own and no orphan; interests are those of
    clients that are attached. *)
Record directory_ok (d : directory) : Prop := {
  Dir_held : ∀ c id, holds d c id = true → ∃ o, offers d !! id = Some o ∧ owned_by c o = true;
  Dir_interests : ∀ i s, interests d !! i = Some s → is_Some (attached d !! interest_owner s)
}.

Lemma owned_by_true c o : owned_by c o = true ↔ offer_owner o = c ∧ offer_orphaned o = None.
Proof. unfold owned_by. by rewrite andb_true_iff, !bool_decide_eq_true. Qed.

Definition offer_ok (d : directory) (o : option offer) : Prop :=
  ∀ o', o = Some o' → is_Some (attached d !! offer_owner o') ∧ offer_orphaned o' = None.

Lemma put_offer_ok id d o : directory_ok d → offer_ok d o → directory_ok (put_offer id d o).
Proof.
  intros [Hh Hi] Ho. split.
  - intros c i. rewrite holds_put_offer by (intros o' E; by apply Ho).
    unfold put_offer. cbn [offers]. case_decide as Ei.
    + subst i. rewrite lookup_partial_alter_eq. destruct o as [o'|]; [|done].
      destruct (Ho o' eq_refl) as [_ Hn]. intros Hc. exists o'. split; [done|]. apply owned_by_true.
      split; [|done]. case_decide as Eo; [|by apply bool_decide_eq_true_1 in Hc].
      destruct (Hh _ _ Hc) as (o1 & E1 & [E2 _]%owned_by_true). rewrite E1 in Eo. simpl in Eo. congruence.
    + rewrite lookup_partial_alter_ne by done. apply Hh.
  - intros i s Hs. apply attached_put_offer. by apply (Hi i).
Qed.

Lemma put_offers_ok id os : ∀ d, directory_ok d → Forall (offer_ok d) os → directory_ok (put_offers id d os).
Proof.
  unfold put_offers. induction os as [|o os IH]; intros d H Hos; [done|].
  apply Forall_cons in Hos as [Ho Hos]. simpl. apply IH; [by apply put_offer_ok|].
  eapply Forall_impl; [exact Hos|]. intros o1 Ho1 o' E. rewrite attached_put_offer. by apply Ho1.
Qed.

Lemma offer_ok_mine d c o : is_Some (attached d !! c) → offer_owner o = c → offer_orphaned o = None →
  offer_ok d (Some o).
Proof. by intros Hc <- Hn o' [= <-]. Qed.

Lemma disconnect_ok c now d : directory_ok d → directory_ok (dir_disconnect c now d).1.2.
Proof.
  intros [Hh Hi]. unfold dir_disconnect. cbn [fst snd]. split; cbn [offers interests].
  - intros c' id. unfold holds at 1. cbn [attached]. destruct (decide (c' = c)) as [->|Hne].
    + by rewrite lookup_delete_eq, bool_decide_eq_false_2.
    + rewrite lookup_delete_ne by done. fold (holds d c' id). intros Hc'.
      destruct (Hh _ _ Hc') as (o & Ho & Hown). exists o. split; [|done].
      rewrite map_lookup_imap, Ho. simpl. destruct (holds d c id) eqn:Hc; [|done].
      destruct (Hh _ _ Hc) as (o1 & Ho1 & [E1 _]%owned_by_true).
      apply owned_by_true in Hown as [E2 _]. congruence.
  - intros i s [Hs Hne]%map_lookup_filter_Some. cbn [attached]. simpl in Hne.
    rewrite lookup_delete_ne by done. by apply (Hi i).
Qed.

Lemma connect_ok c d : directory_ok d → directory_ok (dir_connect c d).1.2.
Proof.
  intros [Hh Hi]. unfold dir_connect. destruct (attached d !! c) eqn:Ec; [by split|]. cbn [fst snd].
  split; cbn [offers interests attached].
  - intros c' id. unfold holds. cbn [attached]. destruct (decide (c' = c)) as [->|Hne].
    + by rewrite lookup_insert_eq, bool_decide_eq_false_2.
    + rewrite lookup_insert_ne by done. apply Hh.
  - intros i s Hs. destruct (decide (interest_owner s = c)) as [->|Hne].
    + rewrite lookup_insert_eq. by eexists.
    + rewrite lookup_insert_ne by done. by apply (Hi i).
Qed.

Lemma publish_ok c id gen p ttl d : is_Some (attached d !! c) → directory_ok d →
  directory_ok (dir_publish c id gen p ttl d).1.2.
Proof.
  intros Hc H. unfold dir_publish.
  assert (Hput : ∀ o, offer_owner o = c → offer_orphaned o = None →
    directory_ok (put_offers id d [Some o])).
  { intros o E1 E2. apply put_offers_ok; [done|]. apply Forall_singleton. by eapply offer_ok_mine. }
  destruct (offers d !! id) as [o|]; [|by apply Hput].
  destruct (bool_decide (gen = _)); [destruct (_ && bool_decide _); [destruct (owned_by c o)|]|
    destruct (bool_decide (_ < gen)%Z)]; try done; by apply Hput.
Qed.

Lemma unpublish_ok c id d : is_Some (attached d !! c) → directory_ok d →
  directory_ok (dir_unpublish c id d).1.2.
Proof.
  intros Hc H. unfold dir_unpublish. destruct (offers d !! id) as [o|]; [|done].
  apply put_offers_ok; [done|]. assert (offer_ok d None) by done.
  destruct (owned_by c o); [by apply Forall_singleton|].
  apply Forall_cons. split; [by eapply offer_ok_mine|by apply Forall_singleton].
Qed.

Lemma subscribe_ok c id fs data d : is_Some (attached d !! c) → directory_ok d →
  directory_ok (dir_subscribe c id fs data d).1.2.
Proof.
  intros Hc [Hh Hi]. unfold dir_subscribe. destruct (request_filter fs) as [f|]; [|by split].
  destruct (interests d !! id); [by split|]. split; cbn [fst snd offers interests attached]; [exact Hh|].
  intros i s [[<- <-]|[_ Hs]]%lookup_insert_Some; [done|by apply (Hi i)].
Qed.

Lemma unsubscribe_ok c id d : directory_ok d → directory_ok (dir_unsubscribe c id d).1.2.
Proof.
  intros [Hh Hi]. unfold dir_unsubscribe. destruct (interests d !! id) as [x|]; [|by split].
  destruct (bool_decide _); [|by split]. split; cbn [fst snd offers interests attached]; [exact Hh|].
  intros i s [_ Hs]%lookup_delete_Some. by apply (Hi i).
Qed.

Lemma dir_step_ok a d r d' n : directory_ok d → dir_step a d = Some (r, d', n) → directory_ok d'.
Proof.
  intros H E.
  assert (Hatt : ∀ c x, (is_Some (attached d !! c) → directory_ok x.1.2) →
    if_attached c d x = Some (r, d', n) → directory_ok d').
  { intros c x Hx Ex. unfold if_attached in Ex. injection Ex as Ex.
    destruct (attached d !! c) eqn:Ec; [|by injection Ex as _ <- _].
    rewrite Ex in Hx. by apply Hx. }
  destruct a as [c|c now|c id gen p ttl|c id|c id fs data|c id|id]; cbn [dir_step] in E.
  - injection E as E. pose proof (connect_ok c d H) as Hc. by rewrite E in Hc.
  - eapply Hatt; [|exact E]. intros _. by apply disconnect_ok.
  - eapply Hatt; [|exact E]. intros Hc. by apply publish_ok.
  - eapply Hatt; [|exact E]. intros Hc. by apply unpublish_ok.
  - eapply Hatt; [|exact E]. intros Hc. by apply subscribe_ok.
  - eapply Hatt; [|exact E]. intros Hc. by apply unsubscribe_ok.
  - unfold dir_expire in E. destruct (offers d !! id) as [o|]; [|done]. simpl in E.
    destruct (offer_orphaned o); [|done]. simpl in E. destruct (attached d !! offer_owner o); [done|].
    injection E as _ <- _. apply put_offer_ok; [done|]. by intros o1 [=].
Qed.

Lemma reached_ok d : reached d → directory_ok d.
Proof.
  induction 1 as [|d a r d' n _ IH E]; [|by eapply dir_step_ok].
  split; [by intros c id|intros i s E; cbn [empty_directory interests] in E; by rewrite lookup_empty in E].
Qed.
