(* ===== verification/SdRefine.v ===== *)
(** * The core implements the directory

    A simulation: in states that represent a directory, every event that its
    caller may cause has in the core the result that it has in the directory,
    leads to a state that represents the next directory, and calls the match
    callbacks with the news of the directory. *)

From S2P Require Import Prelude CLib Pvalue Props Filter FilterParse Double Service Sub Amap Heap Client Sd SdWp SdInv SdOps SdRemove SdSubs SdDisconnect SdRun SdSpec SdAbs.

(** ** Which directory a state represents *)

Definition offer_of (g : generation) : offer :=
  Offer (gen_generation g) (default [] (gen_props g)) (gen_ttl g)
    (if gen_orphan (Some g) then Some (gen_orphan_since g) else None) (gen_client_id g).

Definition offers_of (gs : list (option generation)) : list (option offer) :=
  (λ g : option generation, offer_of <$> g) <$> gs.

Definition interest_of (s : sub) : interest :=
  Interest (sub_client_id s) (sub_filter s) (match_cb_data s).

Record represents (st : state) (d : directory) : Prop := {
  R_offers : ∀ id, offers d !! id = offer_of <$> gen_at st id;
  R_interests : ∀ i, interests d !! i = interest_of <$> sub_at st i;
  R_attached : ∀ c, is_Some (attached d !! c) ↔ connected st c = true;
  R_holds : ∀ c id, held st c id = holds d c id
}.

(** The timer that fires is for a service; a disconnection has a time. *)
Definition abstract_event (st : state) (e : event) : dir_event :=
  match e with
  | EConnect c _ => DConnect c
  | EDisconnect c => DDisconnect c (now_at st)
  | EPublish c id gen p ttl => DPublish c id gen p ttl
  | EUnpublish c id => DUnpublish c id
  | ESubscribe c id fs data => DSubscribe c id fs data
  | EUnsubscribe c id => DUnsubscribe c id
  | ETimeout t => DExpire (default 0 (x ← timers st !! t; service_id <$> services st !! timer_service x))%Z
  end.

(** The calls for a subscription about a service. *)
Definition call_for (l : loc) (j : Z) (x : loc * Z * sub_match_type * Z) : option (Z * sub_match_type) :=
  let '(l', data, m, id) := x in if decide (l' = l ∧ id = j) then Some (data, m) else None.

Definition calls_to (st : state) (calls : list (loc * Z * sub_match_type * Z)) : news := λ i j,
  match amap_get (db_subs st) i with Some l => omap (call_for l j) calls | None => [] end.

(** The calls are the news, for subscriptions that there are. *)
Definition delivered (st : state) (calls : list (loc * Z * sub_match_type * Z)) (n : news) : Prop :=
  (∀ i j, calls_to st calls i j = n i j) ∧
  Forall (λ x, ∃ i, amap_get (db_subs st) i = Some x.1.1.1) calls.

(** ** Selecting *)

Lemma gen_at_ok st id g : inv st → gen_at st id = Some g → gen_ok g.
Proof.
  intros H Hg. unfold gen_at in Hg. destruct (svc_at st id) as [s|] eqn:Es; [|done]. simpl in Hg.
  destruct (svc_at_spec _ _ _ H Es) as (l & _ & Hs & _).
  destruct (S_ok _ _ (I_S _ H) _ _ Hs) as (_ & _ & g' & Hg' & Hok). congruence.
Qed.

Lemma gen_ok_props g : gen_ok g → is_Some (gen_props g).
Proof. intros (_ & Hp & _). simpl in Hp. destruct (gen_props g); [by eexists|done]. Qed.

Definition full (o : option generation) : Prop := ∀ g, o = Some g → is_Some (gen_props g).

Lemma gen_at_full st id : inv st → full (gen_at st id).
Proof. intros H g Hg. by eapply gen_ok_props, gen_at_ok. Qed.

Lemma wants_of s o : full o → wants (interest_of s) (offer_of <$> o) = sees s (o ≫= gen_props).
Proof.
  intros Ho. destruct o as [g|]; [|done]. destruct (Ho g eq_refl) as [p Hp]. simpl.
  unfold selects. by rewrite Hp.
Qed.

(** ** Hearing *)

Lemma calls_to_app st c1 c2 i j : calls_to st (c1 ++ c2) i j = calls_to st c1 i j ++ calls_to st c2 i j.
Proof. unfold calls_to. destruct (amap_get _ _); [|done]. by rewrite omap_app. Qed.

Lemma calls_to_told st id g g' i j : inv st → full g → full g' →
  calls_to st (told st id g g') i j =
  if decide (j = id) then
    match sub_at st i with
    | Some s => heard (interest_of s) (offer_of <$> g) [offer_of <$> g']
    | None => []
    end
  else [].
Proof.
  intros H Hg Hg'. unfold calls_to.
  destruct (amap_get (db_subs st) i) as [l|] eqn:Hi.
  2: { unfold sub_at. rewrite Hi. by case_decide. }
  destruct (told_split _ _ _ _ _ _ (I_U _ H) Hi) as (d1 & d2 & E & H1 & H2).
  destruct (U_get _ _ _ _ (I_U _ H) _ _ Hi) as (s & Hs & _).
  assert (Hskip : ∀ d, Forall (λ kv : Z * loc, kv.2 ≠ l) d → omap (λ kv : Z * loc,
      call ← (s ← subs st !! kv.2;
      t ← transition (sees s (g ≫= gen_props)) (sees s (g' ≫= gen_props));
      Some (kv.2, match_cb_data s, t, id)); call_for l j call) d = []).
  { intros d Hd. induction Hd as [|[i' l'] d Hne _ IH]; [done|]. rewrite omap_cons_eq, IH. simpl in *.
    destruct (subs st !! l') as [s'|]; [|done]. simpl. destruct (transition _ _); [|done]. simpl.
    rewrite decide_False; naive_solver. }
  assert (Esub : sub_at st i = Some s) by (unfold sub_at; by rewrite Hi).
  unfold told. rewrite Esub, omap_omap, E, omap_app, omap_cons_eq, !Hskip by done.
  cbn [snd mbind option_bind]. rewrite Hs. cbn [mbind option_bind heard].
  rewrite !wants_of, app_nil_r by done.
  destruct (transition _ _) as [t|]; simpl; [|by case_decide]. destruct (decide (l = l ∧ id = j)) as [[_ ->]|Hn]; case_decide as E2; try done. exfalso. auto.
Qed.

Lemma calls_to_told_all st id gs i j : inv st → ∀ g, full g → Forall full gs →
  calls_to st (told_all st id g gs) i j =
  if decide (j = id) then
    match sub_at st i with
    | Some s => heard (interest_of s) (offer_of <$> g) (offers_of gs)
    | None => []
    end
  else [].
Proof.
  intros H. induction gs as [|g' gs IH]; intros g Hg Hgs.
  - unfold calls_to. destruct (amap_get _ _); simpl; case_decide; try done; by destruct (sub_at st i).
  - apply Forall_cons in Hgs as [Hg' Hgs]. cbn [told_all]. rewrite calls_to_app, calls_to_told, IH by done.
    case_decide; [|done]. destruct (sub_at st i); [|done]. csimpl. by rewrite app_nil_r.
Qed.

Lemma told_to_known st id g g' : inv st →
  Forall (λ x, ∃ i, amap_get (db_subs st) i = Some x.1.1.1) (told st id g g').
Proof.
  intros H. apply Forall_forall. intros x (i & Hi)%told_locs. exists i.
  apply amap_get_elem; [|done]. apply (U_nodup _ _ _ _ (I_U _ H)).
Qed.

Lemma told_all_to_known st id gs : inv st → ∀ g,
  Forall (λ x, ∃ i, amap_get (db_subs st) i = Some x.1.1.1) (told_all st id g gs).
Proof.
  intros H. induction gs as [|g' gs IH]; intros g; [by apply Forall_nil_2|].
  cbn [told_all]. apply Forall_app. split; [by apply told_to_known|apply IH].
Qed.

Lemma delivered_same st st' calls n : db_subs st' = db_subs st → delivered st calls n → delivered st' calls n.
Proof. unfold delivered, calls_to. by intros ->. Qed.

Lemma delivered_none st : delivered st [] no_news.
Proof. split; [|by apply Forall_nil_2]. intros i j. unfold calls_to. by destruct (amap_get _ _). Qed.

(** ** One service changes *)

Lemma last_gen_offer gs : ∀ g, offer_of <$> last_gen g gs =
  foldl (λ _ o, o) (offer_of <$> g) (offers_of gs).
Proof. induction gs as [|g' gs IH]; intros g; [done|]. simpl. by rewrite IH. Qed.

Lemma holder_put_offers id c i gs : ∀ d g,
  offers d !! id = offer_of <$> g →
  (∀ g', Some g' ∈ gs → is_Some (attached d !! gen_client_id g')) →
  holds (put_offers id d (offers_of gs)) c i =
  if decide (i = id) then holder_all g gs (holds d c id) c else holds d c i.
Proof.
  induction gs as [|g' gs IH]; intros d g Hg Hc; [by case_decide; subst|].
  csimpl. unfold put_offers in *. cbn [foldl].
  assert (Hc1 : ∀ o', offer_of <$> g' = Some o' → is_Some (attached d !! offer_owner o')).
  { intros o' E. destruct g' as [g1|]; [|done]. simpl in E. simplify_eq. simpl. apply Hc. by left. }
  rewrite (IH _ g').
  - rewrite !holds_put_offer by done. case_decide; [|done]. rewrite decide_True by done. f_equal.
    rewrite Hg. unfold holder_after. destruct g' as [g1|]; [|done]. cbn [fmap option_fmap option_map].
    rewrite <-option_fmap_compose. unfold compose. done.
  - unfold put_offer. cbn [offers]. by rewrite lookup_partial_alter_eq.
  - intros g1 Hg1. apply attached_put_offer, Hc. by right.
Qed.

Lemma represents_changes st d id gs st' :
  inv st → represents st d → changes st id gs st' → Forall full gs →
  (∀ g, Some g ∈ gs → connected st (gen_client_id g) = true) →
  let os := offers_of gs in
  represents st' (put_offers id d os) ∧ ∃ calls, match_calls st' = match_calls st ++ calls ∧
    delivered st' calls (news_of d id os).
Proof.
  intros H R C Hgs Hc os. subst os. split; [split|].
  - intros j. rewrite offers_put_offers, !(R_offers _ _ R). case_decide as E.
    + subst j. by rewrite (GS_gen _ _ _ _ C), last_gen_offer.
    + unfold gen_at. by rewrite (GS_other _ _ _ _ C).
  - intros i. rewrite interests_put_offers, (R_interests _ _ R). unfold sub_at.
    by rewrite (GS_subs _ _ _ _ C), (GS_dbu _ _ _ _ C).
  - intros c. by rewrite attached_put_offers, (GS_connected _ _ _ _ C), (R_attached _ _ R).
  - intros c i. rewrite (GS_held _ _ _ _ C), (holder_put_offers _ _ _ _ _ (gen_at st id)).
    + by rewrite !(R_holds _ _ R).
    + apply R.
    + intros g Hg. by apply (R_attached _ _ R), Hc.
  - exists (told_all st id (gen_at st id) gs). split; [apply (GS_told _ _ _ _ C)|].
    apply (delivered_same st); [apply C|]. split; [|by apply told_all_to_known].
    intros i j. rewrite calls_to_told_all; [|done|by apply gen_at_full|done].
    unfold news_of. rewrite (R_interests _ _ R), (R_offers _ _ R). by destruct (sub_at st i).
Qed.

(** ** Reactions *)

(** The core has done, with result [r], what the directory does. *)
Definition reacts (st : state) (r : Z) (st' : state) (x : reaction) : Prop :=
  let '(r', d', n) := x in
  r' = r ∧ represents st' d' ∧
  ∃ calls, match_calls st' = match_calls st ++ calls ∧ delivered st' calls n.

Lemma reacts_refused st d err : represents st d → reacts st err st (refused err d).
Proof.
  intros R. split_and!; [done|done|]. exists []. split; [by rewrite app_nil_r|apply delivered_none].
Qed.

Lemma reacts_changes st d id gs st' : inv st → represents st d → changes st id gs st' →
  Forall full gs → (∀ g, Some g ∈ gs → connected st (gen_client_id g) = true) →
  reacts st 0 st' (changed_offers id (offers_of gs) d).
Proof. intros H R C H1 H2. split; [done|]. by apply represents_changes. Qed.

Lemma attached_lookup st d c : represents st d →
  if connected st c then is_Some (attached d !! c) else attached d !! c = None.
Proof.
  intros R. pose proof (R_attached _ _ R c) as Hc. destruct (connected st c); [by apply Hc|].
  destruct (attached d !! c); [|done]. discriminate (proj1 Hc (ex_intro _ _ eq_refl)).
Qed.

Lemma owned_by_of c g :
  owned_by c (offer_of g) = bool_decide (gen_client_id g = c) && negb (gen_orphan (Some g)).
Proof. unfold owned_by, offer_of. cbn [offer_owner offer_orphaned]. by destruct (gen_orphan (Some g)). Qed.

(** ** Publishing and unpublishing *)

Lemma dir_publish_of st d c id gen p ttl : represents st d →
  dir_publish c id gen p ttl d =
  let '(r, g') := published (gen_at st id) c gen p ttl in
  if quiet (gen_at st id) c gen p ttl then refused r d else changed_offers id (offers_of [g']) d.
Proof.
  intros R. unfold dir_publish, quiet, published. rewrite (R_offers _ _ R).
  destruct (gen_at st id) as [g|]; [|done]. cbn [fmap option_fmap option_map].
  rewrite owned_by_of. cbn [offer_of offer_generation offer_props offer_ttl].
  destruct (bool_decide (gen = _)) eqn:Eg; [destruct (_ && bool_decide (ttl = _)) eqn:Es|].
  - cbn [fst]. rewrite (bool_decide_eq_false_2 (0 ≠ 0)%Z) by lia. cbn [orb andb].
    destruct (bool_decide (gen_client_id g = c) && _); [done|]. unfold claimed, offers_of.
    apply andb_true_iff in Es as [_ ->%bool_decide_eq_true_1]. apply bool_decide_eq_true_1 in Eg as ->.
    done.
  - done.
  - destruct (bool_decide (_ < gen)%Z); [|done]. done.
Qed.

Lemma published_full old c gen p ttl : full old → full (published old c gen p ttl).2.
Proof.
  intros Ho g. unfold published. destruct old as [g0|]; [|intros [= <-]; by eexists].
  destruct (bool_decide _); [destruct (_ && _)|destruct (bool_decide _)]; intros [= <-]; simpl;
    first [exact (Ho _ eq_refl)|by eexists].
Qed.

Lemma published_owner old c gen p ttl g :
  quiet old c gen p ttl = false → (published old c gen p ttl).2 = Some g → gen_client_id g = c.
Proof.
  unfold quiet, published. destruct old as [g0|]; [|by intros _ [= <-]].
  destruct (bool_decide (gen = _)); [destruct (_ && bool_decide (ttl = _))|destruct (bool_decide (_ < _)%Z)];
    try done; by intros _ [= <-].
Qed.

(** A connection changes, but not what it holds. *)
Lemma held_conn st st' x k k' c i : conns st !! x = Some k → conns st' = <[x := k']> (conns st) →
  conn_services k' = conn_services k → clients st' = clients st → db_clients st' = db_clients st →
  held st' c i = held st c i.
Proof.
  intros Hk E1 E2 E3 E4. unfold held, active_conn_of, client_at. rewrite E1, E3, E4.
  destruct (l ← amap_get (db_clients st) c; clients st !! l) as [cl|]; [|done]. simpl.
  destruct (active_conn cl) as [cn|]; [|done]. simpl.
  destruct (decide (x = cn)) as [->|]; [|by rewrite lookup_insert_ne].
  rewrite lookup_insert_eq, Hk. by rewrite E2.
Qed.

Section client.
Context (st : state) (d : directory) (H : inv st) (R : represents st d).
Context (c : Z) (lc : loc) (cl : client) (a : loc) (ka : conn) (HA : active_client st c lc cl a ka).

Lemma active_connected : connected st c = true.
Proof.
  unfold connected, client_at. rewrite (A_db _ _ _ _ _ _ HA). simpl. rewrite (A_cl _ _ _ _ _ _ HA).
  simpl. unfold client_is_connected. by rewrite (A_active _ _ _ _ _ _ HA).
Qed.

Lemma publish_refines id gen p ttl : (0 ≤ id)%Z → (0 ≤ gen)%Z → ttl_ok ttl → props_fit p →
  wp (sd_publish c id gen p ttl) (λ r st', reacts st r st' (dir_publish c id gen p ttl d)) st.
Proof.
  intros H1 H2 H3 H4. rewrite (dir_publish_of st) by done.
  eapply wp_mono; [by eapply (wp_publish st c lc cl a ka HA H)|]. intros r st'.
  pose proof (published_full (gen_at st id) c gen p ttl (gen_at_full _ _ H)) as Hf.
  pose proof (published_owner (gen_at st id) c gen p ttl) as Ho.
  destruct (published _ _ _ _ _) as [r0 g'] eqn:Ep. intros [-> Hq].
  destruct (quiet _ _ _ _ _) eqn:Eq.
  - destruct Hq as [-> _]. by apply reacts_refused.
  - assert (r0 = 0%Z) as ->.
    { unfold quiet in Eq. rewrite Ep in Eq. destruct (gen_at st id); [|by unfold published in Ep; simplify_eq].
      apply orb_false_iff in Eq as [Eq _]. apply bool_decide_eq_false_1 in Eq. simpl in Eq. lia. }
    apply reacts_changes; [done|done|by apply changes_one| |].
    + by apply Forall_singleton.
    + intros g Eg%list_elem_of_singleton. rewrite (Ho g); [by eapply active_connected|done|done].
Qed.

Lemma unpublished_offers g : offers_of (unpublished g c) =
  if owned_by c (offer_of g) then [None] else [Some (claimed c (offer_of g)); None].
Proof. rewrite owned_by_of. unfold unpublished. by destruct (_ && _). Qed.

Lemma unpublish_refines id :
  wp (sd_unpublish c id) (λ r st', reacts st r st' (dir_unpublish c id d)) st.
Proof.
  unfold dir_unpublish. rewrite (R_offers _ _ R). eapply (wp_unpublish st c lc cl a ka HA H).
  - intros ->. by apply reacts_refused.
  - intros g st' Eg C. rewrite Eg. cbn [fmap option_fmap option_map]. rewrite <-unpublished_offers.
    apply reacts_changes; [done|done|done| |].
    + assert (is_Some (gen_props g)) as [p Hp] by (by eapply gen_at_full).
      assert (full None) by (intros g1 [=]). unfold unpublished.
      destruct (_ && _); [by apply Forall_singleton|].
      apply Forall_cons. split; [|by apply Forall_singleton]. intros g1 [= <-]. by exists p.
    + intros g1 Hg1. assert (gen_client_id g1 = c) as ->; [|apply active_connected].
      unfold unpublished in Hg1. destruct (_ && _); [by apply list_elem_of_singleton in Hg1|].
      apply elem_of_cons in Hg1 as [[= ->]|Hg1]; [done|by apply list_elem_of_singleton in Hg1].
Qed.

(** ** Disconnecting *)

Lemma calls_to_bind st0 (f g : Z → option generation) ids i j : inv st0 → NoDup ids →
  (∀ id, full (f id)) → (∀ id, full (g id)) →
  calls_to st0 (ids ≫= λ id, told st0 id (f id) (g id)) i j =
  if decide (j ∈ ids) then
    match sub_at st0 i with
    | Some s => heard (interest_of s) (offer_of <$> f j) [offer_of <$> g j]
    | None => []
    end
  else [].
Proof.
  intros H0 Hnd Hf Hg. induction Hnd as [|id ids Hid _ IH].
  - unfold calls_to. destruct (amap_get _ _); by rewrite decide_False by apply not_elem_of_nil.
  - rewrite bind_cons, calls_to_app, calls_to_told, IH by done. destruct (decide (j = id)) as [->|Hne].
    + rewrite (decide_False (P := id ∈ ids)), app_nil_r by done. by rewrite decide_True by left.
    + simpl. destruct (decide (j ∈ ids)) as [Hj|Hj]; [by rewrite decide_True by (by right)|].
      rewrite decide_False; [done|]. by intros [?|?]%elem_of_cons.
Qed.

Lemma disconnected_represents st' now : now = now_at st → disconnected_from st c lc cl a ka st' →
  represents st' (dir_disconnect c now d).1.2.
Proof.
  intros -> D. unfold dir_disconnect. cbn [fst snd].
  split; cbn [offers interests attached].
  - intros id. rewrite map_lookup_imap, (R_offers _ _ R), (disconnected_gen _ _ _ _ _ _ HA H _ D),
      (R_holds _ _ R).
    destruct (gen_at st id) as [g|] eqn:Eg; [|by destruct (holds _ _ _)]. simpl.
    destruct (holds d c id); [|done].
    assert (Eo : gen_orphan (Some (orphaned (now_at st) g)) = true) by apply (now_at_ok st H).
    cbn [fmap option_fmap option_map]. unfold offer_of at 2. by rewrite Eo.
  - intros i. rewrite (DF_sub _ _ _ _ _ _ _ D), map_lookup_filter, (R_interests _ _ R).
    destruct (sub_at st i) as [s|]; [|done]. simpl.
    case_guard as E1; case_decide as E2; simpl in E1; done || congruence.
  - intros c'. rewrite lookup_delete_is_Some, (R_attached _ _ R), (DF_connected _ _ _ _ _ _ _ D).
    case_decide; naive_solver.
  - intros c' i. rewrite (DF_held _ _ _ _ _ _ _ D). unfold holds. cbn [attached].
    case_decide as E; [subst c'; rewrite lookup_delete_eq|rewrite lookup_delete_ne by done].
    + by rewrite bool_decide_eq_false_2.
    + apply R.
Qed.

Lemma disconnected_news st' : disconnected_from st c lc cl a ka st' →
  delivered st' (amap_keys (conn_services ka) ≫= λ id, told st' id (gen_at st id) (gen_at st' id))
    (dir_disconnect c (now_at st) d).2.
Proof.
  intros D. pose proof (disconnected_represents st' _ eq_refl D) as R'.
  pose proof (DF_inv _ _ _ _ _ _ _ D) as H'. split.
  - intros i j. rewrite (calls_to_bind st' (gen_at st) (gen_at st')); [|done| | |].
    + pose proof (R_interests _ _ R' i) as Ei. pose proof (R_offers _ _ R' j) as Ej.
      unfold dir_disconnect in *. cbn [fst snd interests offers] in *. rewrite Ei.
      rewrite <-Ej, map_lookup_imap, (R_offers _ _ R), <-(R_holds _ _ R).
      destruct (sub_at st' i) as [s|]; [|by case_decide].
      destruct (gen_at st j) as [g|] eqn:Eg; cbn [fmap option_fmap option_map mbind option_bind];
        destruct (held st c j) eqn:Eh.
      * by rewrite decide_True by (by eapply held_keys).
      * rewrite decide_False; [done|]. intros Hin%(held_keys _ _ _ _ _ _ HA). congruence.
      * by case_decide.
      * by case_decide.
    + apply (H_nodup _ _ _ (I_H _ H) _ _ (A_conn _ _ _ _ _ _ HA)).
    + intros id. by apply gen_at_full.
    + intros id. by apply gen_at_full.
  - apply Forall_forall. intros x (id & Hx & _)%list_elem_of_bind.
    revert x Hx. apply Forall_forall. by apply told_to_known.
Qed.

Lemma disconnect_refines :
  wp (sd_client_disconnect c) (λ r st', reacts st r st' (dir_disconnect c (now_at st) d)) st.
Proof.
  eapply (wp_disconnect st c lc cl a ka HA H). intros st' D.
  pose proof (disconnected_represents st' _ eq_refl D) as R'.
  pose proof (disconnected_news st' D) as Hn.
  split; [done|]. split; [exact R'|]. eexists. split; [by eapply disconnected_told|exact Hn].
Qed.

(** ** Subscribing and unsubscribing *)

Lemma calls_to_activation l l' data (f : Z → bool) ids j : NoDup ids →
  omap (call_for l j) (omap (λ i, if f i then Some (l', data, sub_match_type_appeared, i) else None) ids) =
  if decide (l' = l ∧ j ∈ ids ∧ f j = true) then [(data, sub_match_type_appeared)] else [].
Proof.
  intros Hnd. induction Hnd as [|i ids Hi _ IH].
  - rewrite decide_False; [done|]. intros (_ & Hj & _). by apply not_elem_of_nil in Hj.
  - rewrite omap_cons_eq. destruct (f i) eqn:Ef; [rewrite omap_cons_eq; cbn [call_for]|].
    + rewrite IH. destruct (decide (l' = l ∧ i = j)) as [[-> ->]|Hne].
      * rewrite decide_False, decide_True; [done| |naive_solver]. split_and!; [done|by left|done].
      * apply decide_ext. rewrite elem_of_cons. naive_solver.
    + rewrite IH. apply decide_ext. rewrite elem_of_cons. split; [naive_solver|].
      intros (? & [->|?] & ?); [congruence|done].
Qed.

Lemma no_gen id : id ∉ amap_keys (db_services st) → gen_at st id = None.
Proof. intros Hid%amap_get_None. unfold gen_at, svc_at. by rewrite Hid. Qed.

(** The state with the new, activated, subscription. *)
Lemma subscribed_reacts id f data os : sub_at st id = None →
  let s := new_sub id f c data in
  omap match_of os = activation (created st a ka id s) (next_loc st) s →
  reacts st 0 (set_outputs (λ x, x ++ os) (created st a ka id s))
    (0%Z, Directory (offers d) (<[id := Interest c f data]> (interests d)) (attached d),
     λ i j, if decide (i = id) then heard (Interest c f data) None [offers d !! j] else []).
Proof.
  intros Hnone s Eos. pose proof (sub_at_None _ _ H Hnone) as Hdb.
  set (st' := set_outputs _ _).
  assert (Hget : ∀ i, amap_get (db_subs st') i = if decide (id = i) then Some (next_loc st) else amap_get (db_subs st) i)
    by (intros i; simpl; by apply amap_get_add).
  assert (Hfresh : ∀ i l, amap_get (db_subs st) i = Some l → l ≠ next_loc st).
  { intros i l El. pose proof (sub_loc_fresh _ _ _ H El). lia. }
  split; [done|]. split; [split; cbn [offers interests attached]|].
  - apply R.
  - intros i. rewrite lookup_insert, (R_interests _ _ R). unfold sub_at. rewrite Hget.
    destruct (decide (id = i)) as [<-|Hne].
    + simpl. by rewrite lookup_insert_eq.
    + destruct (amap_get (db_subs st) i) as [l|] eqn:El; [|done]. simpl.
      rewrite lookup_insert_ne; [done|]. apply not_eq_sym. by eapply Hfresh.
  - apply R.
  - intros c' i. change (held st' c' i = holds d c' i). rewrite <-(R_holds _ _ R).
    by eapply (held_conn st st' a ka); [apply HA|..].
  - exists (activation (created st a ka id s) (next_loc st) s). split.
    { unfold match_calls. simpl. by rewrite omap_app, Eos. }
    rewrite activation_gens by done. split.
    + intros i j. unfold calls_to. rewrite Hget. destruct (decide (id = i)) as [<-|Hne]; [rewrite (decide_True (P := id = id)) by done|rewrite (decide_False (P := i = id)) by done].
      * rewrite calls_to_activation by apply (S_nodup _ _ (I_S _ H)). cbn [heard].
        rewrite (R_offers _ _ R), app_nil_r. change (Interest c f data) with (interest_of s).
        rewrite wants_of by by apply gen_at_full. cbn [wants].
        destruct (sees s (gen_at st j ≫= gen_props)) eqn:Es; simpl.
        -- rewrite decide_True; [done|]. split_and!; [done| |done].
           destruct (decide (j ∈ amap_keys (db_services st))) as [|Hj%no_gen]; [done|].
           by rewrite Hj in Es.
        -- by rewrite decide_False by naive_solver.
      * destruct (amap_get (db_subs st) i) as [l|] eqn:El; [|done].
        rewrite calls_to_activation by apply (S_nodup _ _ (I_S _ H)).
        rewrite decide_False; [done|]. intros [<- _]. by eapply Hfresh.
    + apply Forall_forall. intros x (i & _ & Hx)%list_elem_of_omap. destruct (sees _ _); [|done].
      simplify_eq. exists id. rewrite Hget. by rewrite decide_True.
Qed.

Lemma subscribe_refines id fs data : (0 ≤ id)%Z →
  match request_filter fs with Some (Some f) => simple f | _ => True end →
  wp (subscribe c id fs data) (λ r st', reacts st r st' (dir_subscribe c id fs data d)) st.
Proof.
  intros Hid Hf. unfold subscribe, dir_subscribe. rewrite (R_interests _ _ R). apply wp_bind.
  eapply (wp_create_sub st c lc cl a ka HA H id fs data); [done|done| | |].
  - intros ->. apply wp_bind, wp_ret, wp_ret. by apply reacts_refused.
  - intros f -> Hs. apply wp_bind, wp_ret, wp_ret. destruct (sub_at st id); [|done].
    by apply reacts_refused.
  - intros f -> Hok Hnone. rewrite Hnone. apply wp_bind. cbn [bool_decide fmap option_fmap option_map].
    set (s := new_sub id f c data).
    pose proof (inv_created st c lc cl a ka HA H id f data Hid Hok (sub_at_None _ _ H Hnone)) as H'.
    assert (HA' : active_client (created st a ka id s) c lc cl a
                    (conn_with_subs (conn_subs ka ++ [(id, next_loc st)]) ka)).
    { split; try apply HA. apply lookup_insert_eq. }
    eapply (wp_activate_sub _ c lc cl a _ HA' H' id s (next_loc st)).
    + simpl. rewrite amap_get_add by (by apply sub_at_None). by rewrite decide_True.
    + apply lookup_insert_eq.
    + intros os Eos. apply wp_ret. by apply subscribed_reacts; [|apply introduced_calls].
Qed.

Lemma unsubscribed_represents id l s : sub_at st id = Some s → amap_get (db_subs st) id = Some l →
  represents (unsubscribed st a ka id l) (Directory (offers d) (delete id (interests d)) (attached d)).
Proof.
  intros Es Hdb. pose proof (U_nodup _ _ _ _ (I_U _ H)) as Hnd. split; cbn [offers interests attached].
  - apply R.
  - intros i. unfold sub_at. simpl. rewrite amap_get_remove by done.
    destruct (decide (i = id)) as [->|Hne]; [by rewrite lookup_delete_eq, decide_True|].
    rewrite lookup_delete_ne, (R_interests _ _ R), decide_False by done. unfold sub_at.
    destruct (amap_get (db_subs st) i) as [l'|] eqn:El; [|done]. simpl.
    rewrite lookup_delete_ne; [done|]. intros <-.
    destruct (U_get _ _ _ _ (I_U _ H) _ _ El) as (s1 & Hs1 & E1).
    destruct (U_get _ _ _ _ (I_U _ H) _ _ Hdb) as (s2 & Hs2 & E2). congruence.
  - apply R.
  - intros c' i. rewrite (held_conn st _ a ka (conn_with_subs (amap_remove (conn_subs ka) id) ka));
      [apply R|apply HA|done..].
Qed.

Lemma unsubscribe_refines id :
  wp (sd_unsubscribe c id) (λ r st', reacts st r st' (dir_unsubscribe c id d)) st.
Proof.
  unfold dir_unsubscribe. rewrite (R_interests _ _ R).
  eapply (wp_unsubscribe st c lc cl a ka HA H).
  - intros ->. by apply reacts_refused.
  - intros s -> Hne. simpl. rewrite bool_decide_eq_false_2 by done. by apply reacts_refused.
  - intros s l Es Ec _ Hdb. rewrite Es. simpl. rewrite bool_decide_eq_true_2 by done.
    split; [done|]. split; [by eapply unsubscribed_represents|]. exists [].
    split; [by rewrite app_nil_r|apply delivered_none].
Qed.
End client.

(** ** Connecting *)

(** A client connects, the rest is as before. *)
Lemma connected_reacts st d c st' cn k : represents st d → connected st c = false → inv st → inv st' →
  services st' = services st → db_services st' = db_services st →
  subs st' = subs st → db_subs st' = db_subs st → outputs st' = outputs st →
  conns st' !! cn = Some k → conn_services k = [] →
  connected st' c = true → active_conn_of st' c = Some k →
  (∀ c', c' ≠ c → client_at st' c' = client_at st c') →
  (∀ x k, conns st !! x = Some k → conns st' !! x = Some k) →
  reacts st 0 st' (dir_connect c d).
Proof.
  intros R Hc H H' E1 E2 E3 E4 E5 Hk Hks Hc' Ha Hother Hkept. unfold dir_connect.
  pose proof (attached_lookup st d c R) as Hat. rewrite Hc in Hat. rewrite Hat.
  split; [done|]. split; [split; cbn [offers interests attached]|].
  - intros id. rewrite (R_offers _ _ R). unfold gen_at, svc_at. by rewrite E1, E2.
  - intros i. rewrite (R_interests _ _ R). unfold sub_at. by rewrite E3, E4.
  - intros c'. destruct (decide (c' = c)) as [->|Hne].
    + rewrite lookup_insert_eq. rewrite Hc'. split; [done|by eexists].
    + rewrite lookup_insert_ne, (R_attached _ _ R) by done. unfold connected. by rewrite Hother.
  - intros c' i. unfold holds. cbn [attached]. destruct (decide (c' = c)) as [->|Hne].
    + rewrite lookup_insert_eq. unfold held. by rewrite Ha, Hks.
    + rewrite lookup_insert_ne by done. fold (holds d c' i). rewrite <-(R_holds _ _ R).
      unfold held, active_conn_of. rewrite Hother by done.
      destruct (client_at st c') as [cl|] eqn:Ecl; [|done]. simpl.
      destruct (active_conn cl) as [x|] eqn:Ea; [|done]. simpl.
      destruct (client_at_spec _ _ _ H Ecl) as (lc & _ & Hcl & _).
      destruct (C_active _ _ _ (I_C _ H) _ _ _ Hcl Ea) as (k' & Hk' & _).
      by rewrite Hk', (Hkept _ _ Hk').
  - exists []. split; [|apply delivered_none]. unfold match_calls. by rewrite E5, app_nil_r.
Qed.

Lemma connect_refines st d c addr : inv st → represents st d → (0 ≤ c)%Z →
  wp (sd_client_connect c addr) (λ r st', reacts st r st' (dir_connect c d)) st.
Proof.
  intros H R Hc. destruct (client_at st c) as [cl|] eqn:Ec.
  - assert (Econ : connected st c = client_is_connected cl) by (unfold connected; by rewrite Ec).
    eapply wp_reconnect; [done|exact Ec| |].
    + rewrite <-Econ. intros Hcon. pose proof (attached_lookup st d c R) as Hat. rewrite Hcon in Hat.
      unfold dir_connect. destruct Hat as [X ->]. by apply reacts_refused.
    + rewrite <-Econ. intros Hcon st' H' E1 E2 E3 E4 E5 _ (cn & k & E6 & E7 & E8 & _) E9 E10.
      eapply (connected_reacts st d c st' cn k); try done.
      * unfold connected. by rewrite E6.
      * unfold active_conn_of. by rewrite E6.
  - assert (Econ : connected st c = false) by (unfold connected; by rewrite Ec).
    eapply wp_connect_new; [done|exact Ec|done|].
    intros st' H' E1 E2 E3 E4 E5 _ (cn & k & E6 & E7 & E8 & _) E9 E10.
    eapply (connected_reacts st d c st' cn k); try done.
    + unfold connected. by rewrite E6.
    + unfold active_conn_of. by rewrite E6.
Qed.

(** ** Expiry *)

Lemma timeout_refines st d t s : inv st → represents st d → timer_for st t s →
  connected st (s_client s) = false →
  wp (orphan_timeout_cb t) (λ _ st', ∃ x, dir_expire (service_id s) d = Some x ∧ reacts st 0 st' x) st.
Proof.
  intros H R Ht Hc. pose proof (timer_for_orphan _ _ _ H Ht) as Ho.
  eapply (wp_timeout st t s); [done|done|done|]. intros st' C.
  destruct Ht as (x & _ & Hs). destruct (S_ok _ _ (I_S _ H) _ _ Hs) as (_ & _ & g & Hg & _).
  assert (Eg : gen_at st (service_id s) = Some g) by (unfold gen_at; by rewrite (gen_at_db _ _ _ H Hs)).
  exists (changed_offers (service_id s) (offers_of [None]) d). split.
  - unfold dir_expire. rewrite (R_offers _ _ R), Eg. cbn [fmap option_fmap option_map mbind option_bind].
    unfold s_orphan in Ho. unfold s_client in Hc. rewrite Hg in Ho, Hc.
    assert (Eo : offer_orphaned (offer_of g) = Some (gen_orphan_since g)).
    { unfold offer_of. cbn [offer_orphaned]. by rewrite Ho. }
    pose proof (attached_lookup st d (offer_owner (offer_of g)) R) as Hat.
    change (offer_owner (offer_of g)) with (gen_client_id g) in *. rewrite Hc in Hat.
    by rewrite Eo, Hat.
  - apply reacts_changes; [done|done|by apply changes_one| |].
    + apply Forall_singleton. by intros g1 [=].
    + intros g1 Hg1. by apply list_elem_of_singleton in Hg1.
Qed.

(** ** Every event *)

(** One event of the core is one step of the directory. *)
Definition simulates (st : state) (d : directory) (a : dir_event) (r : Z) (st' : state) : Prop :=
  ∃ x, dir_step a d = Some x ∧ reacts st r st' x.

(** A request of a client that is not known is refused; else the client is connected. *)
Lemma simulates_client st d c a (x : reaction) (m : M state Z) : inv st → represents st d →
  caller_ok st c = true →
  dir_step a d = if_attached c d x →
  (client_at st c = None → wp m (λ r st', r = SD_ERR_NO_SUCH_CLIENT ∧ st' = st) st) →
  (∀ lc cl a ka, active_client st c lc cl a ka → wp m (λ r st', reacts st r st' x) st) →
  wp m (λ r st', simulates st d a r st') st.
Proof.
  intros H R Hc Ea Hnone Hsome. pose proof (attached_lookup st d c R) as Hat.
  unfold simulates. rewrite Ea. unfold if_attached.
  destruct (decide (client_at st c = None)) as [E|E].
  - assert (Econ : connected st c = false) by (unfold connected; by rewrite E). rewrite Econ in Hat.
    rewrite Hat. eapply wp_mono; [by apply Hnone|]. intros r st' [-> ->]. eexists. split; [done|].
    by apply reacts_refused.
  - destruct (caller_known _ _ H Hc E) as (lc & cl & cn & ka & HA).
    rewrite (active_connected st c lc cl cn ka HA) in Hat. destruct Hat as [X ->].
    eapply wp_mono; [by eapply Hsome|]. intros r st' Hr. by exists x.
Qed.

Lemma event_simulates st d e : inv st → represents st d → allowed st e = true →
  wp (run_event e) (λ r st', simulates st d (abstract_event st e) r st') st.
Proof.
  intros H R Ha. destruct e as [c addr|c|c id gen p ttl|c id|c id fs data|c id|t]; simpl in Ha;
    cbn [run_event abstract_event].
  - apply bool_decide_eq_true_1 in Ha. eapply wp_mono; [by apply connect_refines|].
    intros r st' Hr. by eexists.
  - eapply simulates_client; [done|done|exact Ha|done| |].
    + intros E. by apply wp_unknown_client.
    + intros lc cl a ka HA. by eapply disconnect_refines.
  - rewrite !andb_true_iff, !bool_decide_eq_true in Ha. destruct Ha as ((((Hc & H1) & H2) & H3) & H4).
    eapply simulates_client; [done|done|exact Hc|done| |].
    + intros E. by apply wp_unknown_client.
    + intros lc cl a ka HA. by eapply publish_refines.
  - eapply simulates_client; [done|done|exact Ha|done| |].
    + intros E. by apply wp_unknown_client.
    + intros lc cl a ka HA. by eapply unpublish_refines.
  - rewrite !andb_true_iff, !bool_decide_eq_true in Ha. destruct Ha as ((Hc & Hid) & Hf).
    eapply simulates_client; [done|done|exact Hc|done| |].
    + intros E. unfold subscribe. apply wp_bind, wp_unknown_client; [done|done|].
      by apply wp_bind, wp_ret, wp_ret.
    + intros lc cl a ka HA. eapply subscribe_refines; [done|done|exact HA|done|].
      destruct (request_filter fs) as [[f|]|]; [by apply simple_b_spec|done|done].
  - eapply simulates_client; [done|done|exact Ha|done| |].
    + intros E. by apply wp_unknown_client.
    + intros lc cl a ka HA. by eapply unsubscribe_refines.
  - destruct (timers st !! t) as [x|] eqn:Hx; [|done].
    destruct (services st !! timer_service x) as [s|] eqn:Hs; [|done].
    apply negb_true_iff in Ha. apply wp_bind. cbn [mbind option_bind]. rewrite Hs.
    eapply wp_mono; [by eapply timeout_refines; [..|by exists x|]|].
    intros [] st' (y & Ey & Hy). apply wp_ret. by exists y.
Qed.

(** ** Every run *)

(** The core and the directory go through the events side by side. *)
Inductive follows : state → directory → list event → list Z → state → directory → Prop :=
  | follows_nil st d : follows st d [] [] st d
  | follows_cons st d e r st1 d1 n evs rs st' d' :
      run_event e st = Ok (r, st1) →
      dir_step (abstract_event st e) d = Some (r, d1, n) →
      represents st1 d1 →
      (∃ calls, match_calls st1 = match_calls st ++ calls ∧ delivered st1 calls n) →
      follows st1 d1 evs rs st' d' →
      follows st d (e :: evs) (r :: rs) st' d'.

Lemma follows_runs st d evs rs st' d' : follows st d evs rs st' d' → run_events evs st = Ok (rs, st').
Proof.
  induction 1 as [|st d e r st1 d1 n evs rs st' d' E _ _ _ _ IH]; [done|].
  cbn [run_events]. by rewrite M_bind_eq, E, M_bind_eq, IH.
Qed.

Lemma represents_create clk : represents (sd_create clk) empty_directory.
Proof. split; [done|done| |done]. intros c. split; [by intros [? ?]|done]. Qed.

Lemma possible_follows evs : ∀ st d, good st → represents st d → possible st evs = true →
  (∃ rs st' d', follows st d evs rs st' d' ∧ represents st' d') ∨
  (∃ evs1 t evs2 rs st1 d1, evs = evs1 ++ ETimeout t :: evs2 ∧ follows st d evs1 rs st1 d1 ∧
     represents st1 d1 ∧ reconnected st1 t ∧ run_events evs st = Fail AssertFailed).
Proof.
  induction evs as [|e evs IH]; intros st d G R Hp; [left; by eexists [], st, d; split; [constructor|]|].
  simpl in Hp. apply andb_true_iff in Hp as [Hp Hr].
  destruct (possible_cases st e (Good_inv _ G) Hp) as [Ha|(t & -> & Ht)].
  - pose proof (event_good st e G Ha) as Hg. pose proof (event_simulates st d e (Good_inv _ G) R Ha) as Hs.
    unfold wp in Hg, Hs. destruct (run_event e st) as [[r st1]|] eqn:E; [|done].
    destruct Hs as ([[r1 d1] n] & Es & -> & R1 & Hn).
    destruct (IH st1 d1 Hg R1 Hr) as [(rs & st' & d' & F & R')|(evs1 & t & evs2 & rs & st2 & d2 & -> & F & R2 & Ht & Ef)].
    + left. exists (r :: rs), st', d'. split; [|done]. by econstructor.
    + right. exists (e :: evs1), t, evs2, (r :: rs), st2, d2. split; [done|]. split; [by econstructor|].
      split_and!; [done..|]. cbn [run_events]. by rewrite M_bind_eq, E, M_bind_eq, Ef.
  - right. exists [], t, evs, [], st, d. split_and!; [done|by constructor|done|done|].
    cbn [run_events run_event]. by rewrite !M_bind_eq, (reconnected_aborts st t (Good_inv _ G) Ht).
Qed.

(** C4: the core is a service directory.  A sequence of requests within the limits
    of [allowed] and of timeouts of pending timers, with a clock that shows times
    until 2242, is run to its end with the results of the directory, the state of
    the core represents that of the directory after each event, and each
    subscription's match callback is called with the news of each service that
    the directory has for it, in that order, and no other.  The one exception is
    the timeout of an orphan whose owner has connected again: up to the first
    such timeout all of that holds, and there the core aborts. *)
Theorem sd_refines_directory (clk : nat → timespec) (evs : list event) :
  clock_fine clk → possible (sd_create clk) evs = true →
  (∃ rs st' d', run_events evs (sd_create clk) = Ok (rs, st') ∧
    follows (sd_create clk) empty_directory evs rs st' d' ∧ represents st' d') ∨
  (∃ evs1 t evs2 rs st1 d1, evs = evs1 ++ ETimeout t :: evs2 ∧
    follows (sd_create clk) empty_directory evs1 rs st1 d1 ∧ represents st1 d1 ∧
    reconnected st1 t ∧ run_events evs (sd_create clk) = Fail AssertFailed).
Proof.
  intros Hclk Hp.
  destruct (possible_follows _ _ _ (good_create _ Hclk) (represents_create clk) Hp)
    as [(rs & st' & d' & F & R)|H]; [left|by right].
  exists rs, st', d'. split; [by eapply follows_runs|done].
Qed.

(** Clients 1 and 2 publish and subscribe, client 1 leaves, its service expires. *)
Definition history_expired : list event := history_orphan ++ [ETimeout 7].

Lemma sd_refines_directory_witness :
  ∃ st' d', run_events history_expired (sd_create clk0) = Ok ([0; 0; 0; 0; 0; 0]%Z, st') ∧
    follows (sd_create clk0) empty_directory history_expired [0; 0; 0; 0; 0; 0]%Z st' d' ∧
    interests d' !! 5%Z = Some (Interest 2 None 0) ∧ offers d' !! 7%Z = None.
Proof.
  destruct (sd_refines_directory clk0 history_expired)
    as [(rs & st' & d' & E & F & R)|(evs1 & t & evs2 & rs & st1 & d1 & _ & _ & _ & _ & Ef)];
    [apply clk0_fine|by vm_compute| |by vm_compute in Ef].
  assert (∃ st1, run_events history_expired (sd_create clk0) = Ok ([0; 0; 0; 0; 0; 0]%Z, st1) ∧
    sub_at st1 5 = Some (Sub 5 None 2 0 2) ∧ gen_at st1 7 = None) as (st1 & E1 & Es & Eg).
  { eexists. split_and!; by vm_compute. }
  pose proof (eq_trans (eq_sym E1) E) as E2. injection E2 as <- <-.
  exists st1, d'. refine (conj E (conj F (conj _ _))).
  - rewrite (R_interests _ _ R), Es. reflexivity.
  - rewrite (R_offers _ _ R), Eg. reflexivity.
Defined.
