(* ===== verification/SdOut.v ===== *)
(** * What the core hands out

    The match callbacks are given services.  This file shows what holds of every
    service that any operation of the core keeps or hands out, between and
    within operations: its numbers are in the range of the protocol's integers,
    its properties have a property that all published ones have, and its current
    generation is complete.  [keeps] is a Hoare triple for partial correctness
    over this invariant; it composes along the code, and each operation's proof
    follows its definition. *)

From S2P Require Import Prelude CLib Pvalue Props Filter FilterParse Double Service Sub Amap Heap Client Sd SdWp SdInv.

Create HintDb keeps.

Section out.
Context (P : props → Prop).

(** ** Values *)

Definition in63 (z : Z) : Prop := (0 ≤ z ≤ int64_max)%Z.

Definition gen_fine (g : generation) : Prop :=
  (gen_generation g ≤ int64_max)%Z ∧ (gen_ttl g ≤ int64_max)%Z ∧
  (gen_client_id g ≤ int64_max)%Z ∧ (isnan (gen_orphan_since g) = false → since_ok (gen_orphan_since g)) ∧ ∀ p, gen_props g = Some p → P p.

Definition oprop {A} (R : A → Prop) (x : option A) : Prop :=
  match x with Some a => R a | None => True end.

Definition service_fine (s : service) : Prop :=
  in63 (service_id s) ∧ oprop gen_fine (current s) ∧ oprop gen_fine (prev s) ∧
  oprop gen_fine (next s) ∧ oprop (λ g, generation_is_consistent g = true) (current s).

Definition output_fine (o : output) : Prop :=
  match o with
  | OMatch _ _ m srv => service_fine srv ∧ (m ≠ sub_match_type_disappeared → current srv ≠ None)
  | _ => True
  end.

Definition times_ok (k : conn) : Prop := time_ok (connected_at k) ∧ since_ok (disconnected_at k).

Record fine (st : state) : Prop := {
  Fine_services : ∀ l s, services st !! l = Some s → service_fine s;
  Fine_clients : ∀ l c, clients st !! l = Some c → (client_id c ≤ int64_max)%Z;
  Fine_subs : ∀ l s, subs st !! l = Some s → (sub_id s ≤ int64_max)%Z;
  Fine_conns : ∀ l k, conns st !! l = Some k → times_ok k;
  Fine_clock : clock_ok st;
  Fine_outputs : Forall output_fine (outputs st)
}.

Definition keeps {A} (m : M state A) (R : A → Prop) : Prop := ∀ st a st',
  fine st → m st = Ok (a, st') → fine st' ∧ R a ∧ outputs st `prefix_of` outputs st'.

(** ** Rules *)

Lemma keeps_mono {A} (m : M state A) (R R' : A → Prop) :
  keeps m R → (∀ a, R a → R' a) → keeps m R'.
Proof. intros H HR st a st' F E. destruct (H _ _ _ F E) as (? & ? & ?). auto. Qed.

Lemma keeps_ret {A} (a : A) : keeps (mret a) (λ x, x = a).
Proof. intros st b st' F [= <- <-]. by split_and!. Qed.

Lemma keeps_bind {A B} (m : M state A) (f : A → M state B) R R' :
  keeps m R → (∀ a, R a → keeps (f a) R') → keeps (m ≫= f) R'.
Proof.
  intros Hm Hf st b st'' F (a & st' & E1 & E2)%M_bind_Ok.
  destruct (Hm _ _ _ F E1) as (F' & Ra & P1). destruct (Hf a Ra _ _ _ F' E2) as (F'' & Rb & P2).
  split_and!; [done|done|by etrans].
Qed.

Lemma keeps_fmap {A B} (g : A → B) (m : M state A) R : keeps m R → keeps (g <$> m) (λ _, True).
Proof.
  intros Hm st b st' F E. unfold fmap, M_fmap in E. destruct (m st) as [[a st1]|] eqn:Em; [|done].
  simplify_eq. destruct (Hm _ _ _ F Em) as (? & _ & ?). auto.
Qed.

Lemma keeps_lift {A} (o : outcome A) : keeps (lift o) (λ a, o = Ok a).
Proof. intros st a st' F E. unfold lift in E. destruct o; [|done]. simplify_eq. by split_and!. Qed.

Lemma keeps_gets {A} (f : state → A) : keeps (gets f) (λ _, True).
Proof. intros st a st' F [= <- <-]. by split_and!. Qed.

Lemma keeps_fault {A} e R : keeps (A := A) (fault_with e) R.
Proof. by intros st a st' F E. Qed.

(** Changes of what the invariant does not look at. *)
Lemma keeps_modify f : (∀ st, services (f st) = services st) → (∀ st, clients (f st) = clients st) →
  (∀ st, subs (f st) = subs st) → (∀ st, conns (f st) = conns st) → (∀ st, clock (f st) = clock st) →
  (∀ st, outputs (f st) = outputs st) → keeps (modify f) (λ _, True).
Proof.
  intros E1 E2 E6 E3 E4 E5 st [] st' F [= <-]. split_and!; [|done|by rewrite E5].
  split; [rewrite E1|rewrite E2|rewrite E6|rewrite E3|unfold clock_ok; rewrite E4|rewrite E5]; apply F.
Qed.

Lemma keeps_ftime : keeps ut_ftime time_ok.
Proof.
  intros st a st' F [= <- <-]. split_and!; [split; apply F| |done].
  apply ut_timespec_to_f_ok, F.
Qed.

Lemma keeps_ftime_any : keeps ut_ftime (λ _, True).
Proof. eapply keeps_mono; [apply keeps_ftime|done]. Qed.

Lemma keeps_output o : output_fine o → keeps (output_call o) (λ _, True).
Proof.
  intros Ho st [] st' F [= <-]. split_and!; [|done|by eexists].
  split; try apply F. apply Forall_app. split; [apply F|by constructor].
Qed.

(** ** Objects *)

Class Obj_fine (T : Type) `{!Obj T} := {
  obj_fine : T → Prop;
  obj_lookup st l x : fine st → heap st !! l = Some x → obj_fine x;
  obj_insert st l x : fine st → obj_fine x → fine (set_heap <[l := x]> st);
  obj_delete st l : fine st → fine (set_heap (delete l) st);
  obj_outputs f st : outputs (set_heap f st) = outputs st
}.

#[export] Program Instance service_Obj_fine : Obj_fine service := {| obj_fine := service_fine |}.
Next Obligation. intros st l x F. apply F. Qed.
Next Obligation.
  intros st l x F Hx. split; try apply F. simpl. intros l' s' [[<- <-]|[_ Hs]]%lookup_insert_Some;
    [done|by eapply F].
Qed.
Next Obligation.
  intros st l F. split; try apply F. simpl. intros l' s' [_ Hs]%lookup_delete_Some. by eapply F.
Qed.
Next Obligation. done. Qed.

#[export] Program Instance client_Obj_fine : Obj_fine client :=
  {| obj_fine := λ c, (client_id c ≤ int64_max)%Z |}.
Next Obligation. intros st l x F. apply F. Qed.
Next Obligation.
  intros st l x F Hx. split; try apply F. simpl. intros l' s' [[<- <-]|[_ Hs]]%lookup_insert_Some;
    [done|by eapply F].
Qed.
Next Obligation.
  intros st l F. split; try apply F. simpl. intros l' s' [_ Hs]%lookup_delete_Some. by eapply F.
Qed.
Next Obligation. done. Qed.

#[export] Program Instance sub_Obj_fine : Obj_fine sub :=
  {| obj_fine := λ s, (sub_id s ≤ int64_max)%Z |}.
Next Obligation. intros st l x F. apply F. Qed.
Next Obligation.
  intros st l x F Hx. split; try apply F. simpl. intros l' s' [[<- <-]|[_ Hs]]%lookup_insert_Some;
    [done|by eapply F].
Qed.
Next Obligation.
  intros st l F. split; try apply F. simpl. intros l' s' [_ Hs]%lookup_delete_Some. by eapply F.
Qed.
Next Obligation. done. Qed.

#[export] Program Instance conn_Obj_fine : Obj_fine conn :=
  {| obj_fine := times_ok |}.
Next Obligation. intros st l x F. apply F. Qed.
Next Obligation.
  intros st l x F Hx. split; try apply F. simpl. intros l' s' [[<- <-]|[_ Hs]]%lookup_insert_Some;
    [done|by eapply F].
Qed.
Next Obligation.
  intros st l F. split; try apply F. simpl. intros l' s' [_ Hs]%lookup_delete_Some. by eapply F.
Qed.
Next Obligation. done. Qed.

#[export] Program Instance timer_Obj_fine : Obj_fine orphan_timer := {| obj_fine := λ _, True |}.
Next Obligation. done. Qed.
Next Obligation. intros st l x F _. split; apply F. Qed.
Next Obligation. intros st l F. split; apply F. Qed.
Next Obligation. done. Qed.

Section objects.
Context {T : Type} `{!Obj T, !Obj_fine T}.

Lemma keeps_load l : keeps (load (T := T) l) obj_fine.
Proof.
  intros st x st' F E. unfold load in E. destruct (heap st !! l) eqn:Ex; [|done]. simplify_eq.
  split_and!; [done|by eapply obj_lookup|done].
Qed.

Lemma keeps_store l (x : T) : obj_fine x → keeps (store l x) (λ _, True).
Proof.
  intros Hx st [] st' F [= <-]. split_and!; [by apply obj_insert|done|by rewrite obj_outputs].
Qed.

Lemma keeps_alloc (x : T) : obj_fine x → keeps (alloc x) (λ _, True).
Proof.
  intros Hx st l st' F [= <- <-].
  split_and!; [|done|change (outputs st `prefix_of` outputs (set_heap <[next_loc st := x]> st));
                    by rewrite obj_outputs].
  pose proof (obj_insert st (next_loc st) x F Hx) as F'. split; apply F'.
Qed.

Lemma keeps_free l : keeps (free (T := T) l) (λ _, True).
Proof.
  eapply keeps_bind; [apply keeps_load|]. intros x _ st [] st' F [= <-].
  split_and!; [by apply obj_delete|done|by rewrite obj_outputs].
Qed.

Lemma keeps_read {A} l (f : T → outcome A) : keeps (read l f) (λ a, ∃ x, obj_fine x ∧ f x = Ok a).
Proof.
  eapply keeps_bind; [apply keeps_load|]. intros x Hx.
  eapply keeps_mono; [apply keeps_lift|]. eauto.
Qed.

Lemma keeps_update l (f : T → outcome T) : (∀ x y, obj_fine x → f x = Ok y → obj_fine y) →
  keeps (update l f) (λ _, True).
Proof.
  intros Hf. eapply keeps_bind; [apply keeps_load|]. intros x Hx.
  eapply keeps_bind; [apply keeps_lift|]. intros y Hy. apply keeps_store. eauto.
Qed.
End objects.

Lemma keeps_mforeach {A} (f : A → M state unit) l : (∀ x, keeps (f x) (λ _, True)) →
  keeps (mforeach f l) (λ _, True).
Proof.
  intros Hf. induction l as [|x l IH]; simpl.
  - eapply keeps_mono; [apply keeps_ret|done].
  - eapply keeps_bind; [apply Hf|]. by intros _ _.
Qed.

Lemma keeps_mfind {A} (p : A → M state bool) l : (∀ x, keeps (p x) (λ _, True)) →
  keeps (mfind p l) (λ _, True).
Proof.
  intros Hp. induction l as [|x l IH]; simpl.
  - eapply keeps_mono; [apply keeps_ret|done].
  - eapply keeps_bind; [apply Hp|]. intros b _. destruct b; [|exact IH].
    eapply keeps_mono; [apply keeps_ret|done].
Qed.

Lemma keeps_if {A} (b : bool) (m n : M state A) R : keeps m R → keeps n R →
  keeps (if b then m else n) R.
Proof. by destruct b. Qed.

Lemma keeps_ret_any {A} (a : A) : keeps (mret a) (λ _, True).
Proof. eapply keeps_mono; [apply keeps_ret|done]. Qed.

Lemma keeps_lift_any {A} (o : outcome A) : keeps (lift o) (λ _, True).
Proof. eapply keeps_mono; [apply keeps_lift|done]. Qed.

Lemma keeps_load_any {T} `{!Obj T, !Obj_fine T} l : keeps (load (T := T) l) (λ _, True).
Proof. eapply keeps_mono; [apply keeps_load|done]. Qed.

Lemma keeps_read_any {T A} `{!Obj T, !Obj_fine T} l (f : T → outcome A) :
  keeps (read l f) (λ _, True).
Proof. eapply keeps_mono; [apply keeps_read|done]. Qed.

(** ** Changes of a service *)

Lemma service_set_fine f s s' : (∀ g, gen_fine g → gen_fine (f g)) →
  service_fine s → service_set f s = Ok s' → service_fine s'.
Proof.
  intros Hf (H1 & H2 & H3 & H4 & H5) E. unfold service_set in E.
  destruct (has_ongoing_change s) as [[]|]; try done. simpl in E.
  destruct (next s) as [g|] eqn:Eg; [|done]. simplify_eq/=.
  split; [|split; [|split; [|split]]]; simpl; auto.
Qed.

Lemma modify_begin_fine s s' : service_fine s → service_modify_begin s = Ok s' → service_fine s'.
Proof.
  intros (H1 & H2 & H3 & H4 & H5) E. unfold service_modify_begin in E.
  destruct (has_ongoing_change s) as [[]|]; try done. simpl in E.
  destruct (current s) as [g|] eqn:Eg; [|done]. simpl in E. unfold generation_clone in E.
  destruct (gen_props g) as [p|] eqn:Ep; [|done]. simplify_eq/=.
  split; [|split; [|split; [|split]]]; simpl; auto; [by rewrite Eg|idtac|by rewrite Eg].
  destruct H2 as (? & ? & ? & ? & Hp). split_and!; try done.
  intros q [= <-]. rewrite props_clone_id. auto.
Qed.

Lemma add_begin_fine s s' : service_fine s → service_add_begin s = Ok s' → service_fine s'.
Proof.
  intros (H1 & H2 & H3 & H4 & H5) E. unfold service_add_begin in E.
  destruct (has_ongoing_change s) as [[]|]; try done. simplify_eq/=.
  split; [|split; [|split; [|split]]]; simpl; auto.
  by split_and!.
Qed.

Lemma commit_fine s s' ct : service_fine s → service_commit_change s = Ok (s', ct) → service_fine s'.
Proof.
  intros (H1 & H2 & H3 & H4 & H5) E. unfold service_commit_change in E.
  destruct (has_ongoing_change s) as [[]|]; try done. simpl in E.
  destruct (next s) as [g|] eqn:Eg; [|done]. simpl in E.
  destruct (generation_is_consistent g) eqn:Ec; [|done]. simplify_eq/=.
  by split; [|split; [|split; [|split]]].
Qed.

Lemma remove_fine s s' ct : service_fine s → service_remove_change s = Ok (s', ct) → service_fine s'.
Proof.
  intros (H1 & H2 & H3 & H4 & H5) E. unfold service_remove_change in E.
  destruct (has_ongoing_change s) as [[]|]; try done. simplify_eq/=.
  by split; [|split; [|split; [|split]]].
Qed.

Lemma keeps_set_service l f : (∀ g, gen_fine g → gen_fine (f g)) →
  keeps (update l (service_set f)) (λ _, True).
Proof. intros Hf. apply keeps_update. intros x y. by apply service_set_fine. Qed.

Lemma keeps_set_generation l v : in63 v → keeps (update l (service_set_generation v)) (λ _, True).
Proof. intros Hv. apply keeps_set_service. intros g (? & ? & ? & ? & ?). unfold in63 in Hv. split_and!; simpl; try done; lia. Qed.

Lemma keeps_set_ttl l v : in63 v → keeps (update l (service_set_ttl v)) (λ _, True).
Proof. intros Hv. apply keeps_set_service. intros g (? & ? & ? & ? & ?). unfold in63 in Hv. split_and!; simpl; try done; lia. Qed.

Lemma keeps_set_client_id l v : (v ≤ int64_max)%Z →
  keeps (update l (service_set_client_id v)) (λ _, True).
Proof. intros Hv. apply keeps_set_service. intros g (? & ? & ? & ? & ?). by split_and!. Qed.

Lemma keeps_set_props l p : P p → keeps (update l (service_set_props p)) (λ _, True).
Proof.
  intros Hp. apply keeps_set_service. intros g (? & ? & ? & ? & ?). split_and!; try done.
  intros q [= <-]. by rewrite props_clone_id.
Qed.

Lemma keeps_set_orphan_since l t : since_ok t → keeps (update l (service_set_orphan_since t)) (λ _, True).
Proof. intros Ht. apply keeps_set_service. intros g (? & ? & ? & ? & ?). by split_and!. Qed.

Lemma keeps_set_non_orphan l : keeps (update l service_set_non_orphan) (λ _, True).
Proof. apply keeps_set_orphan_since. by left. Qed.

Lemma keeps_modify_begin l : keeps (update l service_modify_begin) (λ _, True).
Proof. apply keeps_update, modify_begin_fine. Qed.

Lemma keeps_add_begin l : keeps (update l service_add_begin) (λ _, True).
Proof. apply keeps_update, add_begin_fine. Qed.

(** ** The operations of the core

    [keeps] follows the code; the lemmas of the calls are hints. *)

Ltac keeps_step :=
  lazymatch goal with
  | |- ∀ _, _ => intros ?
  | |- keeps (_ ≫= _) _ => eapply (keeps_bind _ _ (λ _, True)); [|intros ? _]
  | |- keeps (if _ then _ else _) _ => apply keeps_if
  | |- keeps (match ?x with _ => _ end) _ => destruct x
  end.
Ltac keeps := repeat first [by eauto 2 with keeps nocore | keeps_step].

Hint Resolve keeps_ret_any keeps_lift_any keeps_gets keeps_fault keeps_ftime_any keeps_set_non_orphan keeps_modify_begin
  keeps_add_begin : keeps.
Hint Extern 1 (keeps (load _) _) => apply keeps_load_any : keeps.
Hint Extern 1 (keeps (read _ _) _) => apply keeps_read_any : keeps.
Hint Extern 1 (keeps (free _) _) => apply keeps_free : keeps.
Hint Extern 1 (keeps (modify _) _) => apply keeps_modify; done : keeps.
Hint Extern 3 (keeps (mforeach _ _) _) => apply keeps_mforeach; keeps : keeps.
Hint Extern 3 (keeps (_ <$> _) _) => eapply keeps_fmap, keeps_load_any : keeps.

(** An update that the invariant does not look at. *)
Lemma keeps_update_any {T} `{!Obj T, !Obj_fine T} l (f : T → outcome T) :
  (∀ x y, obj_fine x → f x = Ok y → obj_fine y) → keeps (update l f) (λ _, True).
Proof. apply keeps_update. Qed.

Lemma keeps_update_sub l (f : sub → outcome sub) :
  (∀ s s', f s = Ok s' → sub_id s' = sub_id s) → keeps (update l f) (λ _, True).
Proof. intros Hf. apply keeps_update. intros s s' Hs E. cbn. by rewrite (Hf s s' E). Qed.
Lemma keeps_update_conn l (f : conn → outcome conn) :
  (∀ k k', f k = Ok k' → connected_at k' = connected_at k ∧ disconnected_at k' = disconnected_at k) → keeps (update l f) (λ _, True).
Proof.
  intros Hf. apply keeps_update. intros k k' Hk E. destruct (Hf k k' E) as [E1 E2]. cbn. unfold times_ok.
  by rewrite E1, E2.
Qed.
Lemma keeps_update_timer l (f : orphan_timer → outcome orphan_timer) : keeps (update l f) (λ _, True).
Proof. by apply keeps_update. Qed.
Lemma keeps_update_client l (f : client → outcome client) :
  (∀ c c', f c = Ok c' → client_id c' = client_id c) → keeps (update l f) (λ _, True).
Proof. intros Hf. apply keeps_update. intros c c' Hc E. cbn. by rewrite (Hf c c' E). Qed.
Hint Resolve keeps_update_timer : keeps.

Lemma keeps_count (f : Z → Z) l :
  keeps (update l (λ s, _ ← ut_assert (bool_decide (0 < service_ref_cnt s)%Z);
                        Ok (with_ref_cnt (f (service_ref_cnt s)) s))) (λ _, True).
Proof.
  apply keeps_update. intros s s' Hs E. destruct (ut_assert _); [|done]. by simplify_eq/=.
Qed.

Lemma keeps_service_inc_ref l : keeps (service_inc_ref l) (λ _, True).
Proof. apply (keeps_count (λ n, n + 1)%Z). Qed.

Lemma keeps_service_dec_ref l : keeps (service_dec_ref l) (λ _, True).
Proof. unfold service_dec_ref. keeps_step; [apply (keeps_count (λ n, n - 1)%Z)|]. keeps. Qed.

Lemma keeps_sub_inc_ref l : keeps (sub_inc_ref l) (λ _, True).
Proof.
  apply keeps_update_sub. intros s s' E. destruct (ut_assert _); [|done]. by simplify_eq/=.
Qed.

Lemma keeps_sub_dec_ref l : keeps (sub_dec_ref l) (λ _, True).
Proof.
  unfold sub_dec_ref. keeps_step; [|keeps].
  apply keeps_update_sub. intros s s' E. destruct (ut_assert _); [|done]. by simplify_eq/=.
Qed.
Hint Resolve keeps_service_inc_ref keeps_service_dec_ref keeps_sub_inc_ref keeps_sub_dec_ref : keeps.

Section maps.
Context (inc dec : loc → M state unit) (map : M state (amap loc)) (set_map : amap loc → M state unit).
Hypothesis Hinc : ∀ l, keeps (inc l) (λ _, True).
Hypothesis Hdec : ∀ l, keeps (dec l) (λ _, True).
Hypothesis Hmap : keeps map (λ _, True).
Hypothesis Hset : ∀ m, keeps (set_map m) (λ _, True).

Lemma keeps_map_add id l : keeps (map_add_cnted inc map set_map id l) (λ _, True).
Proof using Hinc Hmap Hset. unfold map_add_cnted. keeps. Qed.

Lemma keeps_map_del id : keeps (map_del_cnted dec map set_map id) (λ _, True).
Proof using Hdec Hmap Hset. unfold map_del_cnted. keeps. Qed.

Lemma keeps_map_clear : keeps (map_clear_cnted dec map set_map) (λ _, True).
Proof using Hdec Hmap Hset. unfold map_clear_cnted. keeps. Qed.
End maps.

(** *** Connections, clients and the database *)

Lemma keeps_conn_services_at cn : keeps (conn_services_at cn) (λ _, True).
Proof. unfold conn_services_at. keeps. Qed.
Lemma keeps_conn_subs_at cn : keeps (conn_subs_at cn) (λ _, True).
Proof. unfold conn_subs_at. keeps. Qed.
Lemma keeps_set_conn_services_at cn m : keeps (set_conn_services_at cn m) (λ _, True).
Proof. apply keeps_update_conn. by intros k k' [= <-]. Qed.
Lemma keeps_set_conn_subs_at cn m : keeps (set_conn_subs_at cn m) (λ _, True).
Proof. apply keeps_update_conn. by intros k k' [= <-]. Qed.
Hint Resolve keeps_conn_services_at keeps_conn_subs_at keeps_set_conn_services_at
  keeps_set_conn_subs_at keeps_map_add keeps_map_del keeps_map_clear : keeps.

Lemma keeps_conn_is_stale cn : keeps (conn_is_stale cn) (λ _, True).
Proof. unfold conn_is_stale. keeps. Qed.
Lemma keeps_conn_mark_disconnected cn : keeps (conn_mark_disconnected cn) (λ _, True).
Proof.
  unfold conn_mark_disconnected. eapply keeps_bind; [apply keeps_load|]. intros c [Hc _].
  keeps_step; [keeps|]. eapply keeps_bind; [apply keeps_ftime|]. intros t Ht. apply keeps_store.
  split; [done|by right].
Qed.
Lemma keeps_conn_add_service cn id l : keeps (conn_add_service cn id l) (λ _, True).
Proof. apply keeps_map_add; auto with keeps. Qed.
Lemma keeps_conn_del_service cn id : keeps (conn_del_service cn id) (λ _, True).
Proof. apply keeps_map_del; auto with keeps. Qed.
Lemma keeps_conn_has_service cn id : keeps (conn_has_service cn id) (λ _, True).
Proof. unfold conn_has_service. keeps. Qed.
Lemma keeps_conn_add_sub cn id l : keeps (conn_add_sub cn id l) (λ _, True).
Proof. apply keeps_map_add; auto with keeps. Qed.
Lemma keeps_conn_del_sub cn id : keeps (conn_del_sub cn id) (λ _, True).
Proof. apply keeps_map_del; auto with keeps. Qed.
Lemma keeps_conn_has_sub cn id : keeps (conn_has_sub cn id) (λ _, True).
Proof. unfold conn_has_sub. keeps. Qed.
Lemma keeps_conn_clear_subs cn : keeps (conn_clear_subs cn) (λ _, True).
Proof. apply keeps_map_clear; auto with keeps. Qed.
Lemma keeps_conn_destroy cn : keeps (conn_destroy cn) (λ _, True).
Proof.
  unfold conn_destroy. keeps_step; [apply keeps_map_clear; auto with keeps|].
  intros. keeps_step; [apply keeps_map_clear; auto with keeps|]. keeps.
Qed.
Lemma keeps_conn_create cl addr : keeps (conn_create cl addr) (λ _, True).
Proof.
  unfold conn_create. eapply keeps_bind; [apply keeps_ftime|]. intros t Ht. apply keeps_alloc.
  split; [done|by left].
Qed.
Hint Resolve keeps_conn_is_stale keeps_conn_mark_disconnected keeps_conn_add_service
  keeps_conn_del_service keeps_conn_has_service keeps_conn_add_sub keeps_conn_del_sub
  keeps_conn_has_sub keeps_conn_clear_subs keeps_conn_destroy keeps_conn_create : keeps.

Lemma keeps_client_set_active cl a : keeps (client_set_active cl a) (λ _, True).
Proof. apply keeps_update_client. by intros c c' [= <-]. Qed.
Lemma keeps_client_inc_ref l : keeps (client_inc_ref l) (λ _, True).
Proof.
  apply keeps_update_client. intros c c' E. destruct (ut_assert _); [|done]. by simplify_eq/=.
Qed.
Lemma keeps_client_destroy l : keeps (client_destroy l) (λ _, True).
Proof. unfold client_destroy. keeps. Qed.
Hint Resolve keeps_client_set_active keeps_client_inc_ref keeps_client_destroy : keeps.
Lemma keeps_client_dec_ref l : keeps (client_dec_ref l) (λ _, True).
Proof.
  unfold client_dec_ref. keeps_step; [|keeps].
  apply keeps_update_client. intros c c' E. destruct (ut_assert _); [|done]. by simplify_eq/=.
Qed.
Hint Resolve keeps_client_dec_ref : keeps.

Lemma keeps_db_get_client id : keeps (db_get_client id) (λ _, True).
Proof. apply keeps_gets. Qed.
Lemma keeps_db_get_service id : keeps (db_get_service id) (λ _, True).
Proof. apply keeps_gets. Qed.
Lemma keeps_db_get_sub id : keeps (db_get_sub id) (λ _, True).
Proof. apply keeps_gets. Qed.
Lemma keeps_db_has_sub id : keeps (db_has_sub id) (λ _, True).
Proof. apply keeps_gets. Qed.
Lemma keeps_db_add_client id l : keeps (db_add_client id l) (λ _, True).
Proof. unfold db_add_client. keeps. Qed.
Lemma keeps_db_del_client id : keeps (db_del_client id) (λ _, True).
Proof. unfold db_del_client. keeps. Qed.
Lemma keeps_db_add_service id l : keeps (db_add_service id l) (λ _, True).
Proof. unfold db_add_service. keeps. Qed.
Lemma keeps_db_del_service id : keeps (db_del_service id) (λ _, True).
Proof. unfold db_del_service. keeps. Qed.
Lemma keeps_db_add_sub id l : keeps (db_add_sub id l) (λ _, True).
Proof. unfold db_add_sub. keeps. Qed.
Lemma keeps_db_del_sub id : keeps (db_del_sub id) (λ _, True).
Proof. unfold db_del_sub. keeps. Qed.
Hint Resolve keeps_db_get_client keeps_db_get_service keeps_db_get_sub keeps_db_has_sub
  keeps_db_add_client keeps_db_del_client keeps_db_add_service keeps_db_del_service
  keeps_db_add_sub keeps_db_del_sub : keeps.

Lemma keeps_assert_connected cl : keeps (assert_connected cl) (λ _, True).
Proof. unfold assert_connected. keeps. Qed.
Lemma keeps_client_active cl : keeps (client_active cl) (λ _, True).
Proof. apply keeps_read_any. Qed.
Lemma keeps_client_is_stale cl : keeps (client_is_stale cl) (λ _, True).
Proof.
  unfold client_is_stale. keeps_step; [keeps|]. intros. keeps_step; [|keeps].
  apply keeps_mfind. intros cn. eapply keeps_fmap, keeps_conn_is_stale.
Qed.
Lemma keeps_get_service_conn cl id : keeps (get_service_conn cl id) (λ _, True).
Proof. unfold get_service_conn. keeps. apply keeps_mfind. auto with keeps. Qed.
Hint Resolve keeps_assert_connected keeps_client_active keeps_client_is_stale
  keeps_get_service_conn : keeps.

(** *** The change callback *)

Lemma notify_match_fine s ct srv m : sub_notify_match s ct srv = Ok (Some m) →
  m ≠ sub_match_type_disappeared → current srv ≠ None.
Proof.
  intros E Hm Hc.
  assert (Hg : service_get_props srv = Fail Undefined) by (unfold service_get_props, service_get; by rewrite Hc).
  unfold sub_notify_match in E. destruct ct; rewrite ?Hg in E; try done.
  - destruct (service_get_prev_props srv); done.
  - destruct (service_get_prev_props srv); simpl in E; [|done].
    destruct (matches s _) as [[]|]; simpl in E; congruence.
Qed.

Lemma keeps_sub_notify l ct srv : keeps (sub_notify l ct srv) (λ _, True).
Proof.
  unfold sub_notify. keeps_step; [keeps|]. intros s.
  eapply keeps_bind; [apply keeps_load|]. intros x Hx.
  eapply keeps_bind; [apply keeps_lift|]. intros [m|] E; [|keeps].
  apply keeps_output. split; [done|]. by eapply notify_match_fine.
Qed.
Hint Resolve keeps_sub_notify : keeps.

Lemma keeps_db_foreach_sub cb : (∀ id l, keeps (cb id l) (λ _, True)) →
  keeps (db_foreach_sub cb) (λ _, True).
Proof. intros Hcb. unfold db_foreach_sub. keeps. Qed.
Lemma keeps_service_orphan_time_left l : keeps (service_orphan_time_left l) (λ _, True).
Proof. unfold service_orphan_time_left. keeps. Qed.
Lemma keeps_event_add t tv : keeps (event_add t tv) (λ _, True).
Proof. unfold event_add. keeps. by apply keeps_output. Qed.
Lemma keeps_event_del t : keeps (event_del t) (λ _, True).
Proof. unfold event_del. keeps. by apply keeps_output. Qed.
Lemma keeps_orphan_map_add id t : keeps (orphan_map_add id t) (λ _, True).
Proof. unfold orphan_map_add. keeps. Qed.
Lemma keeps_orphan_map_del id : keeps (orphan_map_del id) (λ _, True).
Proof. unfold orphan_map_del. keeps. Qed.
Lemma keeps_orphan_map_get id : keeps (orphan_map_get id) (λ _, True).
Proof. apply keeps_gets. Qed.
Hint Resolve keeps_db_foreach_sub keeps_service_orphan_time_left keeps_event_add keeps_event_del
  keeps_orphan_map_add keeps_orphan_map_del keeps_orphan_map_get : keeps.
Lemma keeps_orphan_timer_create srv : keeps (orphan_timer_create srv) (λ _, True).
Proof. unfold orphan_timer_create. keeps_step; [by apply keeps_alloc|]. keeps. Qed.
Lemma keeps_orphan_timer_destroy t : keeps (orphan_timer_destroy t) (λ _, True).
Proof. unfold orphan_timer_destroy. keeps. Qed.
Hint Resolve keeps_orphan_timer_create keeps_orphan_timer_destroy : keeps.
Lemma keeps_add_orphan_timer srv : keeps (add_orphan_timer srv) (λ _, True).
Proof. unfold add_orphan_timer. keeps. Qed.
Lemma keeps_update_orphan_timer srv : keeps (update_orphan_timer srv) (λ _, True).
Proof. unfold update_orphan_timer. keeps. Qed.
Lemma keeps_remove_orphan_timer srv : keeps (remove_orphan_timer srv) (λ _, True).
Proof. unfold remove_orphan_timer. keeps. Qed.
Hint Resolve keeps_add_orphan_timer keeps_update_orphan_timer keeps_remove_orphan_timer : keeps.
Lemma keeps_service_changed srv ct : keeps (service_changed srv ct) (λ _, True).
Proof. unfold service_changed. keeps. unfold maintain_orphans. keeps. Qed.
Hint Resolve keeps_service_changed : keeps.

Lemma keeps_change l (f : service → outcome (service * service_change_type)) :
  (∀ s s' ct, service_fine s → f s = Ok (s', ct) → service_fine s') →
  keeps (s ← load l; '(s', ct) ← lift (f s); _ ← store l s'; service_changed l ct) (λ _, True).
Proof.
  intros Hf. eapply keeps_bind; [apply keeps_load|]. intros s Hs.
  eapply keeps_bind; [apply keeps_lift|]. intros [s' ct] E.
  keeps_step; [|keeps]. apply keeps_store. by eapply Hf.
Qed.
Lemma keeps_service_commit l : keeps (service_commit service_changed l) (λ _, True).
Proof. apply keeps_change, commit_fine. Qed.
Lemma keeps_service_remove l : keeps (service_remove service_changed l) (λ _, True).
Proof. apply keeps_change, remove_fine. Qed.
Hint Resolve keeps_service_commit keeps_service_remove : keeps.

(** *** client.c and sd.c *)

(** The identifier of a client, which its services are given. *)
Lemma keeps_client_id {A} cl (k : Z → M state A) R :
  (∀ id, (id ≤ int64_max)%Z → keeps (k id) R) → keeps (id ← read cl (λ c, Ok (client_id c)); k id) R.
Proof.
  intros Hk. eapply keeps_bind; [apply keeps_read|]. intros id (c & Hc & [= <-]). by apply Hk.
Qed.

Lemma keeps_capture_service cl srv : keeps (capture_service cl srv) (λ _, True).
Proof. unfold capture_service. keeps. Qed.
Lemma keeps_remove_conn cl cn : keeps (remove_conn cl cn) (λ _, True).
Proof.
  unfold remove_conn. keeps_step; [|keeps]. apply keeps_update_client. intros c c' E.
  destruct (list_del_first _ _); [|done]. by simplify_eq/=.
Qed.
Hint Resolve keeps_capture_service keeps_remove_conn : keeps.
Lemma keeps_remove_service cl id : keeps (remove_service service_changed cl id) (λ _, True).
Proof. unfold remove_service. keeps. Qed.
Hint Resolve keeps_remove_service : keeps.
Lemma keeps_handle_inactivation t l : since_ok t →
  keeps (service_handle_conn_inactivation service_changed t l) (λ _, True).
Proof. intros Ht. unfold service_handle_conn_inactivation. pose proof (keeps_set_orphan_since). keeps. Qed.
Lemma keeps_client_disconnect cl : keeps (client_disconnect service_changed cl) (λ _, True).
Proof.
  unfold client_disconnect, conn_foreach_sub, conn_foreach_service. do 6 (keeps_step; [keeps|]; intros).
  eapply keeps_bind; [apply keeps_read|]. intros t (k & [_ Ht] & [= <-]).
  pose proof (λ l, keeps_handle_inactivation _ l Ht). keeps. apply keeps_update_client. by intros c c' [= <-].
Qed.
Lemma keeps_client_unpublish cl id : keeps (client_unpublish service_changed cl id) (λ _, True).
Proof.
  unfold client_unpublish. keeps_step; [keeps|]. intros. apply keeps_client_id. intros my_id Hid.
  pose proof (keeps_set_client_id). keeps.
Qed.
Lemma keeps_client_publish cl id g p ttl : in63 id → in63 g → P p → in63 ttl →
  keeps (client_publish service_changed cl id g p ttl) (λ _, True).
Proof.
  intros Hid Hg Hp Httl. unfold client_publish. keeps_step; [keeps|]. intros.
  apply keeps_client_id. intros my_id Hm.
  pose proof keeps_set_client_id. pose proof keeps_set_generation. pose proof keeps_set_ttl.
  pose proof keeps_set_props.
  assert (Hc : keeps (service_create id) (λ _, True)) by (by apply keeps_alloc).
  keeps; unfold publish_same, publish_newer, publish_new; keeps.
Qed.

Lemma keeps_client_purge_orphan cl id : keeps (client_purge_orphan service_changed cl id) (λ _, True).
Proof. unfold client_purge_orphan. keeps. Qed.
Lemma keeps_client_connect cl addr : keeps (client_connect cl addr) (λ _, True).
Proof. unfold client_connect. keeps. Qed.
Lemma keeps_client_reconnect cl addr : keeps (client_reconnect cl addr) (λ _, True).
Proof. unfold client_reconnect. keeps. Qed.
Lemma keeps_client_create_sub cl id f d : in63 id → keeps (client_create_sub cl id f d) (λ _, True).
Proof. intros [_ Hid]. unfold client_create_sub. keeps. by apply keeps_alloc. Qed.
Lemma keeps_client_activate_sub cl id : keeps (client_activate_sub cl id) (λ _, True).
Proof. unfold client_activate_sub, db_foreach_service. keeps. Qed.
Lemma keeps_client_unsubscribe cl id : keeps (client_unsubscribe cl id) (λ _, True).
Proof. unfold client_unsubscribe. keeps. Qed.
Hint Resolve keeps_client_disconnect keeps_client_unpublish keeps_client_publish
  keeps_client_purge_orphan keeps_client_connect keeps_client_reconnect keeps_client_create_sub
  keeps_client_activate_sub keeps_client_unsubscribe : keeps.

Lemma keeps_with_client id f : (∀ cl, keeps (f cl) (λ _, True)) → keeps (with_client id f) (λ _, True).
Proof. intros Hf. unfold with_client. keeps. Qed.

Lemma keeps_sd_client_connect id addr : in63 id → keeps (sd_client_connect id addr) (λ _, True).
Proof.
  intros Hid. unfold sd_client_connect.
  assert (Hc : keeps (client_create id) (λ _, True)) by (apply keeps_alloc, Hid).
  keeps.
Qed.
Lemma keeps_sd_client_disconnect id : keeps (sd_client_disconnect id) (λ _, True).
Proof. apply keeps_with_client. auto with keeps. Qed.
Lemma keeps_sd_publish cid id g p ttl : in63 id → in63 g → P p → in63 ttl →
  keeps (sd_publish cid id g p ttl) (λ _, True).
Proof. intros. apply keeps_with_client. auto with keeps. Qed.
Lemma keeps_sd_unpublish cid id : keeps (sd_unpublish cid id) (λ _, True).
Proof. apply keeps_with_client. auto with keeps. Qed.
Lemma keeps_sd_create_sub cid id fs d : in63 id → keeps (sd_create_sub cid id fs d) (λ _, True).
Proof. intros Hid. apply keeps_with_client. intros cl. keeps. Qed.
Lemma keeps_sd_activate_sub cid id : keeps (sd_activate_sub cid id) (λ _, True).
Proof. unfold sd_activate_sub. keeps. Qed.
Lemma keeps_sd_unsubscribe cid id : keeps (sd_unsubscribe cid id) (λ _, True).
Proof. apply keeps_with_client. auto with keeps. Qed.
Lemma keeps_orphan_timeout_cb t : keeps (orphan_timeout_cb t) (λ _, True).
Proof. unfold orphan_timeout_cb, purge_orphan. keeps. Qed.

End out.

(** ** Runs *)

Lemma fine_create (P : props → Prop) clk : (∀ n, timespec_ok (clk n)) → fine P (sd_create clk).
Proof. intros Hclk. by split. Qed.

(** Total correctness and the invariant together, with the outputs that are new. *)
Lemma wp_keeps {A} (P : props → Prop) (m : M state A) Q st : keeps P m (λ _, True) → fine P st →
  wp m (λ a st', fine P st' → ∀ os, outputs st' = outputs st ++ os → Forall (output_fine P) os →
          Q a st') st → wp m Q st.
Proof.
  intros Hk F Hw. unfold wp in *. destruct (m st) as [[a st']|] eqn:E; [|done].
  destruct (Hk _ _ _ F E) as (F' & _ & os & Eos). eapply Hw; [done|done|].
  pose proof (Fine_outputs _ _ F') as Ho. rewrite Eos in Ho. by apply Forall_app in Ho as [_ ?].
Qed.
