(* ===== verification/SdCalls.v ===== *)
(** * The operations of the core as the protocol layer sees them

    For each operation: that it succeeds in a good state, its result codes, and
    what it does to the state that connections depend on, which is the
    subscriptions, which clients are connected, and the match calls, each of
    which is for a subscription that is there. *)

From S2P Require Import Prelude CLib Pvalue Props Filter FilterParse Double Service Sub Amap Heap Client Sd SdWp SdInv SdOps SdRemove SdSubs SdDisconnect SdRun SdOut.

(** ** Match calls *)

(** The call is for a subscription that is there, with its data. *)
Definition told_by (sb : gmap loc sub) (call : loc * Z * sub_match_type * Z) : Prop :=
  ∃ s, sb !! call.1.1.1 = Some s ∧ match_cb_data s = call.1.1.2.

Lemma told_told_by st id g g' : Forall (told_by (subs st)) (told st id g g').
Proof.
  apply Forall_forall. intros c Hc. unfold told in Hc.
  apply list_elem_of_omap in Hc as ([i l] & _ & Hc). simpl in Hc.
  destruct (subs st !! l) as [s|] eqn:Hs; [|done]. simpl in Hc.
  destruct (transition _ _); [|done]. simpl in Hc. simplify_eq. by exists s.
Qed.

Lemma told_all_told_by st id gs : ∀ g, Forall (told_by (subs st)) (told_all st id g gs).
Proof.
  induction gs as [|g' gs IH]; intros g; [by apply Forall_nil_2|].
  cbn [told_all]. apply Forall_app. split; [apply told_told_by|apply IH].
Qed.

Lemma told_orphans_told_by st t m : Forall (told_by (subs st)) (told_orphans st t m).
Proof.
  unfold told_orphans. apply Forall_forall. intros c Hc.
  apply list_elem_of_bind in Hc as ([id l] & Hc & _). simpl in Hc.
  destruct (_ ≫= _); [|by apply elem_of_nil in Hc].
  pose proof (told_told_by st id (Some g) (Some (orphaned t g))) as H.
  rewrite Forall_forall in H. by apply H.
Qed.

Lemma activation_told_by st l s : subs st !! l = Some s →
  Forall (told_by (subs st)) (activation st l s).
Proof.
  intros Hs. apply Forall_forall. intros c Hc. unfold activation in Hc.
  apply list_elem_of_omap in Hc as ([i y] & _ & Hc). simpl in Hc.
  destruct (services st !! y) as [srv|]; [|done]. csimpl in Hc. destruct (sees _ _); [|done].
  simplify_eq. by exists s.
Qed.

(** The match calls between two states. *)
Definition calls_told (st st' : state) : Prop :=
  ∃ calls, match_calls st' = match_calls st ++ calls ∧ Forall (told_by (subs st')) calls.

Lemma no_calls_told st st' : match_calls st' = match_calls st → calls_told st st'.
Proof. intros E. exists []. by rewrite E, app_nil_r. Qed.

(** ** Operations that change services *)

(** Only services have changed. *)
Record settled (st st' : state) : Prop := {
  Se_good : good st';
  Se_subs : subs st' = subs st;
  Se_connected : ∀ c, connected st' c = connected st c;
  Se_calls : calls_told st st'
}.

Lemma settled_refl st : good st → settled st st.
Proof. intros G. split; try done. by apply no_calls_told. Qed.

Lemma changes_settled st id gs st' : good st → changes st id gs st' → settled st st'.
Proof.
  intros G C. split; [by eapply good_changes|apply C|apply C|].
  exists (told_all st id (gen_at st id) gs). split; [apply (GS_told _ _ _ _ C)|].
  rewrite (GS_subs _ _ _ _ C). apply told_all_told_by.
Qed.

Lemma changed_settled st id g st' : good st → changed st id g st' → settled st st'.
Proof. intros G C. by eapply changes_settled, changes_one. Qed.

Section calls.
Context (st : state) (c : Z) (G : good st) (Hc : connected st c = true).

Lemma active_now : ∃ lc cl a ka, active_client st c lc cl a ka.
Proof using G Hc. apply connected_active; [apply G|done]. Qed.

Lemma call_publish id gen p ttl :
  (0 ≤ id)%Z → (0 ≤ gen)%Z → ttl_ok ttl → props_fit p →
  wp (sd_publish c id gen p ttl) (λ r st', settled st st' ∧
    (r = 0 ∨ r = SD_ERR_SERVICE_SAME_GENERATION_BUT_DIFFERENT_DATA ∨
     r = SD_ERR_NEWER_SERVICE_GENERATION_EXISTS)%Z) st.
Proof using G Hc.
  intros H1 H2 H3 H4. destruct active_now as (lc & cl & a & ka & HA).
  eapply wp_mono; [by eapply (wp_publish st c lc cl a ka HA (Good_inv _ G))|].
  intros r st' Hq.
  assert (Hr : let r0 := (published (gen_at st id) c gen p ttl).1 in
    (r0 = 0 ∨ r0 = SD_ERR_SERVICE_SAME_GENERATION_BUT_DIFFERENT_DATA ∨
     r0 = SD_ERR_NEWER_SERVICE_GENERATION_EXISTS)%Z).
  { unfold published. destruct (gen_at st id); simpl; [|auto].
    repeat case_bool_decide; simpl; auto; destruct (props_equal _ _); simpl; auto. }
  destruct (published _ _ _ _ _) as [r0 g']. destruct Hq as [-> Hq]. split; [|done].
  destruct (quiet _ _ _ _ _); [|by eapply changed_settled].
  destruct Hq as [-> _]. by apply settled_refl.
Qed.

Lemma call_unpublish id : wp (sd_unpublish c id) (λ r st', settled st st' ∧
  (r = 0 ∨ r = SD_ERR_NO_SUCH_SERVICE)%Z) st.
Proof using G Hc.
  destruct active_now as (lc & cl & a & ka & HA).
  eapply (wp_unpublish st c lc cl a ka HA (Good_inv _ G)).
  - intros _. split; [by apply settled_refl|auto].
  - intros g st' _ C. split; [by eapply changes_settled|auto].
Qed.

(** ** Subscriptions *)

(** The state in which a subscription has been created, and not yet been
    activated. *)
Record creating (id : Z) (d : Z) (l : loc) (s : sub) (st1 : state) : Prop := {
  Cr_new : subs st !! l = None;
  Cr_subs : subs st1 = <[l := s]> (subs st);
  Cr_sub : sub_id s = id ∧ sub_client_id s = c ∧ match_cb_data s = d;
  Cr_connected : ∀ c, connected st1 c = connected st c;
  Cr_calls : match_calls st1 = match_calls st;
  Cr_fresh : ∀ x s', subs st !! x = Some s' → sub_id s' ≠ id;
  Cr_activate : wp (sd_activate_sub c id) (λ _ st', good st' ∧ subs st' = subs st1 ∧
    (∀ c, connected st' c = connected st1 c) ∧ calls_told st1 st') st1
}.

Lemma call_create_sub id fs d : (0 ≤ id)%Z →
  match request_filter fs with Some (Some f) => simple f | _ => True end →
  wp (sd_create_sub c id fs d) (λ r st',
    (r = SD_ERR_INVALID_FILTER ∨ r = SD_ERR_SUB_ALREADY_EXISTS) ∧ st' = st ∨
    r = 0%Z ∧ ∃ l s, creating id d l s st') st.
Proof using G Hc.
  intros Hid Hf. pose proof (Good_inv _ G) as H. destruct active_now as (lc & cl & a & ka & HA).
  eapply (wp_create_sub st c lc cl a ka HA H id fs d); [done|done|auto|auto|].
  intros f _ Hok Hnone. right. split; [done|]. set (s := new_sub id f c d).
  exists (next_loc st), s.
  pose proof (inv_created st c lc cl a ka HA H id f d Hid Hok (sub_at_None _ _ H Hnone)) as H'.
  assert (HA' : active_client (created st a ka id s) c lc cl a
                  (conn_with_subs (conn_subs ka ++ [(id, next_loc st)]) ka)).
  { split; try apply HA. apply lookup_insert_eq. }
  split; try done.
  - apply (F_subs _ (I_F _ H)). lia.
  - intros x s' Hs' E. pose proof (U_db _ _ _ _ (I_U _ H) _ _ Hs') as Hdb.
    rewrite E, (sub_at_None _ _ H Hnone) in Hdb. done.
  - eapply (wp_activate_sub _ c lc cl a _ HA' H' id s (next_loc st)).
    + simpl. rewrite amap_get_add by (by apply sub_at_None). by rewrite decide_True.
    + apply lookup_insert_eq.
    + intros os Eos. split; [by apply (good_created st c lc cl a ka id f d os)|]. split; [done|]. split; [done|].
      exists (activation (created st a ka id s) (next_loc st) s). split.
      * unfold match_calls. simpl. by rewrite omap_app, (introduced_calls _ _ _ _ Eos).
      * apply (activation_told_by (created st a ka id s)). apply lookup_insert_eq.
Qed.

Lemma call_unsubscribe id : wp (sd_unsubscribe c id) (λ r st',
  (r = SD_ERR_NO_SUCH_SUB ∨ r = SD_ERR_PERM_DENIED) ∧ st' = st ∨
  r = 0%Z ∧ ∃ l s, subs st !! l = Some s ∧ sub_id s = id ∧ sub_client_id s = c ∧
    good st' ∧ subs st' = delete l (subs st) ∧ (∀ c, connected st' c = connected st c) ∧
    match_calls st' = match_calls st) st.
Proof using G Hc.
  pose proof (Good_inv _ G) as H. destruct active_now as (lc & cl & a & ka & HA).
  eapply (wp_unsubscribe st c lc cl a ka HA H); [auto|auto|].
  intros s l Hs Ec Hg Hdb. right. split; [done|].
  destruct (sub_at_spec _ _ _ H Hs) as (l' & Hdb' & Hsl & Eid).
  assert (l' = l) as -> by congruence.
  exists l, s. split; [done|]. split; [done|]. split; [done|]. split; [|done].
  eapply good_same; try done.
  - by eapply (inv_unsubscribed st c lc cl a ka HA H).
  - by apply kept_same.
  - intros l1 s1. simpl. by intros [_ ?]%lookup_delete_Some.
Qed.

(** ** Disconnecting *)

Lemma call_disconnect : wp (sd_client_disconnect c) (λ _ st', good st' ∧
  (∀ l s, subs st' !! l = Some s ↔ subs st !! l = Some s ∧ sub_client_id s ≠ c) ∧
  (∀ c', connected st' c' = if decide (c' = c) then false else connected st c') ∧
  calls_told st st') st.
Proof using G Hc.
  pose proof (Good_inv _ G) as H. destruct active_now as (lc & cl & a & ka & HA).
  eapply (wp_disconnect st c lc cl a ka HA H). intros st' D.
  pose proof (DF_inv _ _ _ _ _ _ _ D) as H'.
  assert (Hold : ∀ l s, subs st' !! l = Some s → subs st !! l = Some s).
  { intros l s. rewrite (DF_subs _ _ _ _ _ _ _ D). intros Hs.
    by apply (left_subs_lookup st c lc cl a ka HA H) in Hs as [? _]. }
  assert (Hat : ∀ st l s, inv st → subs st !! l = Some s → sub_at st (sub_id s) = Some s).
  { intros st0 l s H0 Hs. unfold sub_at. by rewrite (U_db _ _ _ _ (I_U _ H0) _ _ Hs). }
  split; [by eapply good_disconnected|]. split; [|split; [apply D|]].
  - intros l s. split.
    + intros Hs. split; [by apply Hold|]. pose proof (Hat _ _ _ H' Hs) as Es.
      rewrite (DF_sub _ _ _ _ _ _ _ D), (Hat _ _ _ H (Hold _ _ Hs)) in Es. simpl in Es.
      by case_decide.
    + intros [Hs Hne]. pose proof (DF_sub _ _ _ _ _ _ _ D (sub_id s)) as Es.
      rewrite (Hat _ _ _ H Hs) in Es. simpl in Es. rewrite decide_False in Es by done.
      destruct (sub_at_spec _ _ _ H' Es) as (l' & _ & Hs' & _).
      pose proof (U_db _ _ _ _ (I_U _ H) _ _ (Hold _ _ Hs')) as E1.
      pose proof (U_db _ _ _ _ (I_U _ H) _ _ Hs) as E2. congruence.
  - exists (told_orphans (detached st lc cl a ka) (now_at st) (conn_services ka)).
    split; [apply (DF_told _ _ _ _ _ _ _ D)|]. rewrite (DF_subs _ _ _ _ _ _ _ D).
    apply (told_orphans_told_by (detached st lc cl a ka)).
Qed.
End calls.

(** ** Connecting and timeouts *)

Lemma call_connect st c addr : good st → (0 ≤ c)%Z → wp (sd_client_connect c addr) (λ r st',
  r = SD_ERR_CLIENT_ALREADY_EXISTS ∧ st' = st ∧ connected st c = true ∨
  r = 0%Z ∧ good st' ∧ subs st' = subs st ∧ match_calls st' = match_calls st ∧
    connected st c = false ∧
    ∀ c', connected st' c' = if decide (c' = c) then true else connected st c') st.
Proof.
  intros G H0. pose proof (Good_inv _ G) as H.
  assert (Hcon : ∀ st' cl cn, client_at st' c = Some cl → active_conn cl = Some cn →
            (∀ c', c' ≠ c → client_at st' c' = client_at st c') →
            ∀ c', connected st' c' = if decide (c' = c) then true else connected st c').
  { intros st' cl cn E1 E2 E3 c'. unfold connected. case_decide as Ec; [|by rewrite E3].
    subst c'. rewrite E1. unfold client_is_connected. by rewrite E2. }
  destruct (client_at st c) as [cl|] eqn:Ec.
  - assert (Econ : connected st c = client_is_connected cl) by (unfold connected; by rewrite Ec).
    eapply wp_reconnect; [done|exact Ec| |].
    + intros E. left. by rewrite Econ.
    + intros E st' H' E1 E2 E3 E4 E5 K (cn & k & E6 & _) E7 _. right.
      split; [done|]. split; [eapply good_same; try done; by rewrite E3|]. split; [done|].
      split; [unfold match_calls; by rewrite E5|]. split; [by rewrite Econ|]. by eapply Hcon.
  - eapply wp_connect_new; [done|exact Ec|done|].
    intros st' H' E1 E2 E3 E4 E5 K (cn & k & E6 & _) E7 _. right.
    split; [done|]. split; [eapply good_same; try done; by rewrite E3|]. split; [done|].
    split; [unfold match_calls; by rewrite E5|].
    split; [unfold connected; by rewrite Ec|]. by eapply Hcon.
Qed.

Lemma call_timeout st t : good st → allowed st (ETimeout t) = true →
  wp (orphan_timeout_cb t) (λ _ st', settled st st') st.
Proof.
  intros G Ha. simpl in Ha. destruct (timers st !! t) as [x|] eqn:Hx; [|done].
  destruct (services st !! timer_service x) as [s|] eqn:Hs; [|done].
  apply negb_true_iff in Ha.
  eapply (wp_timeout st t s); [apply G|by exists x|done|]. intros st' C.
  by eapply changed_settled.
Qed.
