(* ===== verification/SdGrow.v ===== *)
(** * What no operation of the core takes back

    The core only appends to its outputs, does not use the location of an object
    again, and changes nothing of a subscription but its reference count.  This
    holds of every operation that ends, in any state: [grows] composes along the
    code, and the proof of each operation is one tactic. *)

From S2P Require Import Prelude CLib Pvalue Props Filter FilterParse Double Service Sub Amap Heap Client Sd SdWp SdInv SdOps.

Create HintDb grows.

(** A subscription without its reference count. *)
Definition sub_ident (s : sub) : sub := sub_with_ref_cnt 0 s.

(** An object of [st'] at [l] is new. *)
Definition new_loc (st st' : state) (l : loc) : Prop := (next_loc st ≤ l < next_loc st')%positive.

(** A match call is for a subscription that has been there, with its data. *)
Definition call_placed (st : state) (call : loc * Z * sub_match_type * Z) : Prop :=
  (call.1.1.1 < next_loc st)%positive ∧
  ∀ s, subs st !! call.1.1.1 = Some s → match_cb_data s = call.1.1.2.

(** The locations of subscriptions have been given out. *)
Definition subs_bounded (st : state) : Prop := ∀ l s, subs st !! l = Some s → (l < next_loc st)%positive.

Record grown (st st' : state) : Prop := {
  Gr_outputs : ∃ os, outputs st' = outputs st ++ os ∧
    (subs_bounded st → Forall (call_placed st') (omap match_of os));
  Gr_next : (next_loc st ≤ next_loc st')%positive;
  Gr_subs : ∀ l s', subs st' !! l = Some s' →
    (∃ s, subs st !! l = Some s ∧ sub_ident s' = sub_ident s) ∨ new_loc st st' l
}.

Lemma grown_bounded st st' : grown st st' → subs_bounded st → subs_bounded st'.
Proof.
  intros G B l s Hs. destruct (Gr_subs _ _ G _ _ Hs) as [(s0 & Hs0 & _)|[_ Hl]]; [|done].
  pose proof (B _ _ Hs0). pose proof (Gr_next _ _ G). lia.
Qed.

Lemma ident_cb_data s s' : sub_ident s' = sub_ident s → match_cb_data s' = match_cb_data s.
Proof. by intros [= ? ? ? ?]. Qed.

Lemma call_placed_grown st st' call : grown st st' → call_placed st call → call_placed st' call.
Proof.
  intros G [Hl Hc]. pose proof (Gr_next _ _ G). split; [lia|]. intros s Hs.
  destruct (Gr_subs _ _ G _ _ Hs) as [(s0 & Hs0 & E)|[? _]]; [|lia].
  rewrite (ident_cb_data _ _ E). by apply Hc.
Qed.

#[export] Instance grown_preorder : PreOrder grown.
Proof.
  split.
  - intros st. split; [exists []; by rewrite app_nil_r|lia|]. intros l s Hs. left. by exists s.
  - intros st1 st2 st3 H1 H2. pose proof (Gr_next _ _ H1). pose proof (Gr_next _ _ H2). split.
    + destruct (Gr_outputs _ _ H1) as (os1 & E1 & C1), (Gr_outputs _ _ H2) as (os2 & E2 & C2).
      exists (os1 ++ os2). rewrite E2, E1, app_assoc. split; [done|]. intros B.
      rewrite omap_app. apply Forall_app. split; [|by eapply C2, grown_bounded].
      eapply Forall_impl; [by apply C1|]. intros call. by apply call_placed_grown.
    + lia.
    + intros l s3 Hs3. destruct (Gr_subs _ _ H2 _ _ Hs3) as [(s2 & Hs2 & E2)|[]]; [|by right; split; lia].
      destruct (Gr_subs _ _ H1 _ _ Hs2) as [(s1 & Hs1 & E1)|[]]; [|by right; split; lia].
      left. exists s1. by rewrite E2.
Qed.

Lemma grown_same st st' : outputs st' = outputs st → next_loc st' = next_loc st →
  subs st' = subs st → grown st st'.
Proof.
  intros E1 E2 E3. split; rewrite ?E1, ?E2, ?E3; [exists []; by rewrite app_nil_r|lia|].
  intros l s Hs. left. by exists s.
Qed.

(** The same outputs. *)
Lemma no_outputs st st' : outputs st' = outputs st → ∃ os, outputs st' = outputs st ++ os ∧
  (subs_bounded st → Forall (call_placed st') (omap match_of os)).
Proof. intros E. exists []. by rewrite app_nil_r. Qed.

Definition grows {A} (m : M state A) : Prop := ∀ st a st', m st = Ok (a, st') → grown st st'.

(** ** Rules *)

Lemma grows_pure {A} (m : M state A) : (∀ st a st', m st = Ok (a, st') → st' = st) → grows m.
Proof. intros H st a st' E. by rewrite (H _ _ _ E). Qed.

Lemma grows_ret {A} (a : A) : grows (mret a).
Proof. apply grows_pure. by intros st b st' [= _ <-]. Qed.

Lemma grows_lift {A} (o : outcome A) : grows (lift o).
Proof. apply grows_pure. intros st b st' E. unfold lift in E. destruct o; by simplify_eq. Qed.

Lemma grows_gets {A} (f : state → A) : grows (gets f).
Proof. apply grows_pure. by intros st b st' [= _ <-]. Qed.

Lemma grows_fault {A} e : grows (A := A) (fault_with e).
Proof. by intros st a st'. Qed.

Lemma grows_bind {A B} (m : M state A) (f : A → M state B) :
  grows m → (∀ a, grows (f a)) → grows (m ≫= f).
Proof. intros Hm Hf st b st'' (a & st' & E1 & E2)%M_bind_Ok. etrans; [by eapply Hm|by eapply Hf]. Qed.

Lemma grows_fmap {A B} (g : A → B) (m : M state A) : grows m → grows (g <$> m).
Proof.
  intros Hm st b st' E. unfold fmap, M_fmap in E. destruct (m st) as [[a st1]|] eqn:Em; [|done].
  simplify_eq. by eapply Hm.
Qed.

Lemma grows_if {A} (b : bool) (m n : M state A) : grows m → grows n → grows (if b then m else n).
Proof. by destruct b. Qed.

Lemma grows_mforeach {A} (f : A → M state unit) l : (∀ x, grows (f x)) → grows (mforeach f l).
Proof.
  intros Hf. induction l as [|x l IH]; simpl; [apply grows_ret|]. by apply grows_bind.
Qed.

Lemma grows_mfind {A} (p : A → M state bool) l : (∀ x, grows (p x)) → grows (mfind p l).
Proof.
  intros Hp. induction l as [|x l IH]; simpl; [apply grows_ret|].
  apply grows_bind; [apply Hp|]. intros []; [apply grows_ret|exact IH].
Qed.

Lemma grows_modify f : (∀ st, outputs (f st) = outputs st) → (∀ st, next_loc (f st) = next_loc st) →
  (∀ st, subs (f st) = subs st) → grows (modify f).
Proof. intros E1 E2 E3 st [] st' [= <-]. by apply grown_same. Qed.

Lemma grows_ftime : grows ut_ftime.
Proof. intros st a st' [= _ <-]. by apply grown_same. Qed.

(** An output that is no match call. *)
Lemma grows_output o : match_of o = None → grows (output_call o).
Proof.
  intros Ho st [] st' [= <-]. split; simpl; [|lia|intros l s Hs; left; by exists s].
  exists [o]. split; [done|]. intros _. simpl. by rewrite Ho.
Qed.

(** ** Objects *)

(** Objects other than subscriptions. *)
Class Obj_aside (T : Type) `{!Obj T} := {
  aside_outputs f st : outputs (set_heap f st) = outputs st;
  aside_next f st : next_loc (set_heap f st) = next_loc st;
  aside_subs f st : subs (set_heap f st) = subs st
}.

#[export] Instance service_aside : Obj_aside service. Proof. by split. Qed.
#[export] Instance conn_aside : Obj_aside conn. Proof. by split. Qed.
#[export] Instance client_aside : Obj_aside client. Proof. by split. Qed.
#[export] Instance timer_aside : Obj_aside orphan_timer. Proof. by split. Qed.

Lemma grows_load {T} `{!Obj T} l : grows (load (T := T) l).
Proof. apply grows_pure. intros st a st' E. unfold load in E. destruct (heap st !! l); by simplify_eq. Qed.

Lemma grows_read {T A} `{!Obj T} l (f : T → outcome A) : grows (read l f).
Proof. apply grows_bind; [apply grows_load|]. intros. apply grows_lift. Qed.

Section aside.
Context {T : Type} `{!Obj T, !Obj_aside T}.

Lemma grows_set_heap f : grows (modify (set_heap f)).
Proof. apply grows_modify; intros; [apply aside_outputs|apply aside_next|apply aside_subs]. Qed.

Lemma grows_store l (x : T) : grows (store l x).
Proof. apply grows_set_heap. Qed.

Lemma grows_free l : grows (free (T := T) l).
Proof. apply grows_bind; [apply grows_load|]. intros. apply grows_set_heap. Qed.

Lemma grows_update l (f : T → outcome T) : grows (update l f).
Proof.
  apply grows_bind; [apply grows_load|]. intros x. apply grows_bind; [apply grows_lift|].
  intros. apply grows_store.
Qed.

Lemma grows_alloc (x : T) : grows (alloc x).
Proof.
  intros st l st' [= _ <-]. split; simpl.
  - exists []. by rewrite aside_outputs, app_nil_r.
  - rewrite aside_next. lia.
  - intros l' s'. rewrite aside_subs. eauto.
Qed.
End aside.

Lemma grows_sub_alloc (s : sub) : grows (alloc s).
Proof.
  intros st l st' [= _ <-]. split; [by apply no_outputs|simpl; lia|].
  simpl. intros l' s' [[<- <-]|[_ Hs]]%lookup_insert_Some; [|eauto]. right. split; simpl; lia.
Qed.

Lemma grows_sub_free l : grows (free (T := sub) l).
Proof.
  apply grows_bind; [apply grows_load|]. intros _ st [] st' [= <-].
  split; [by apply no_outputs|simpl; lia|].
  simpl. intros l' s' [_ Hs]%lookup_delete_Some. eauto.
Qed.

Lemma grows_sub_update l (f : sub → outcome sub) :
  (∀ s s', f s = Ok s' → sub_ident s' = sub_ident s) → grows (update l f).
Proof.
  intros Hf st [] st' (s & st1 & E1 & (s' & st2 & E2 & E3)%M_bind_Ok)%M_bind_Ok.
  unfold load in E1. simpl in E1. destruct (subs st !! l) as [x|] eqn:Hx; [|done].
  injection E1 as <- <-. unfold lift in E2. destruct (f x) as [y|] eqn:Ey; [|done].
  injection E2 as <- <-. injection E3 as <-. split; [by apply no_outputs|simpl; lia|].
  simpl. intros l' s' [[<- <-]|[_ Hs]]%lookup_insert_Some; eauto.
Qed.

(** ** The operations *)

Ltac grows_step :=
  lazymatch goal with
  | |- ∀ _, _ => intros ?
  | |- grows (_ ≫= _) => apply grows_bind
  | |- grows (if _ then _ else _) => apply grows_if
  | |- grows (match ?x with _ => _ end) => destruct x
  end.
Ltac grow := repeat first [by eauto 2 with grows nocore | grows_step].

#[export] Hint Resolve grows_ret grows_lift grows_gets grows_fault grows_ftime : grows.
#[export] Hint Extern 1 (grows (output_call _)) => by apply grows_output : grows.
#[export] Hint Extern 1 (grows (load _)) => apply grows_load : grows.
#[export] Hint Extern 1 (grows (read _ _)) => apply grows_read : grows.
#[export] Hint Extern 1 (grows (store _ _)) => apply grows_store : grows.
#[export] Hint Extern 1 (grows (free _)) => apply grows_free : grows.
#[export] Hint Extern 1 (grows (update _ _)) => apply grows_update : grows.
#[export] Hint Extern 1 (grows (alloc _)) => first [apply grows_alloc | apply grows_sub_alloc] : grows.
#[export] Hint Extern 1 (grows (modify _)) => apply grows_modify; reflexivity : grows.
#[export] Hint Extern 3 (grows (mforeach _ _)) => apply grows_mforeach; grow : grows.
#[export] Hint Extern 3 (grows (mfind _ _)) => apply grows_mfind; grow : grows.
#[export] Hint Extern 3 (grows (_ <$> _)) => apply grows_fmap; grow : grows.

Lemma grows_sub_count l (f : Z → Z) :
  grows (update l (λ s, _ ← ut_assert (bool_decide (0 < sub_ref_cnt s)%Z);
                        Ok (sub_with_ref_cnt (f (sub_ref_cnt s)) s))).
Proof. apply grows_sub_update. intros s s' E. destruct (ut_assert _); by simplify_eq/=. Qed.

Lemma grows_service_inc_ref l : grows (service_inc_ref l).
Proof. unfold service_inc_ref. grow. Qed.
Lemma grows_service_dec_ref l : grows (service_dec_ref l).
Proof. unfold service_dec_ref. grow. Qed.
Lemma grows_sub_inc_ref l : grows (sub_inc_ref l).
Proof. apply (grows_sub_count l (λ n, n + 1)%Z). Qed.
Lemma grows_sub_dec_ref l : grows (sub_dec_ref l).
Proof.
  unfold sub_dec_ref. apply grows_bind; [apply (grows_sub_count l (λ n, n - 1)%Z)|].
  pose proof (grows_sub_free l). grow.
Qed.
#[export] Hint Resolve grows_service_inc_ref grows_service_dec_ref grows_sub_inc_ref
  grows_sub_dec_ref : grows.

Section maps.
Context (inc dec : loc → M state unit) (map : M state (amap loc)) (set_map : amap loc → M state unit).
Hypothesis Hinc : ∀ l, grows (inc l).
Hypothesis Hdec : ∀ l, grows (dec l).
Hypothesis Hmap : grows map.
Hypothesis Hset : ∀ m, grows (set_map m).

Lemma grows_map_add id l : grows (map_add_cnted inc map set_map id l).
Proof using Hinc Hmap Hset. unfold map_add_cnted. grow. Qed.
Lemma grows_map_del id : grows (map_del_cnted dec map set_map id).
Proof using Hdec Hmap Hset. unfold map_del_cnted. grow. Qed.
Lemma grows_map_clear : grows (map_clear_cnted dec map set_map).
Proof using Hdec Hmap Hset. unfold map_clear_cnted. grow. Qed.
End maps.
#[export] Hint Extern 2 (grows (map_add_cnted _ _ _ _ _)) => apply grows_map_add; grow : grows.
#[export] Hint Extern 2 (grows (map_del_cnted _ _ _ _)) => apply grows_map_del; grow : grows.
#[export] Hint Extern 2 (grows (map_clear_cnted _ _ _)) => apply grows_map_clear; grow : grows.

(** *** conn.c, db.c and the clients as objects *)

Lemma grows_conn_services_at cn : grows (conn_services_at cn).
Proof. unfold conn_services_at. grow. Qed.
Lemma grows_conn_subs_at cn : grows (conn_subs_at cn).
Proof. unfold conn_subs_at. grow. Qed.
Lemma grows_set_conn_services_at cn m : grows (set_conn_services_at cn m).
Proof. unfold set_conn_services_at. grow. Qed.
Lemma grows_set_conn_subs_at cn m : grows (set_conn_subs_at cn m).
Proof. unfold set_conn_subs_at. grow. Qed.
#[export] Hint Resolve grows_conn_services_at grows_conn_subs_at grows_set_conn_services_at
  grows_set_conn_subs_at : grows.

Lemma grows_conn_is_stale cn : grows (conn_is_stale cn).
Proof. unfold conn_is_stale. grow. Qed.
Lemma grows_conn_has_service cn id : grows (conn_has_service cn id).
Proof. unfold conn_has_service. grow. Qed.
Lemma grows_conn_destroy cn : grows (conn_destroy cn).
Proof. unfold conn_destroy. grow. Qed.
Lemma grows_conn_create cl addr : grows (conn_create cl addr).
Proof. unfold conn_create. grow. Qed.
#[export] Hint Resolve grows_conn_is_stale grows_conn_has_service grows_conn_destroy
  grows_conn_create : grows.

Lemma grows_client_inc_ref l : grows (client_inc_ref l).
Proof. unfold client_inc_ref. grow. Qed.
Lemma grows_client_dec_ref l : grows (client_dec_ref l).
Proof. unfold client_dec_ref, client_destroy. grow. Qed.
#[export] Hint Resolve grows_client_inc_ref grows_client_dec_ref : grows.

(** The database and the queries unfold to the maps. *)
Lemma grows_db_add_client id l : grows (db_add_client id l).
Proof. unfold db_add_client. grow. Qed.
Lemma grows_db_del_client id : grows (db_del_client id).
Proof. unfold db_del_client. grow. Qed.
Lemma grows_db_add_service id l : grows (db_add_service id l).
Proof. unfold db_add_service. grow. Qed.
Lemma grows_db_del_service id : grows (db_del_service id).
Proof. unfold db_del_service. grow. Qed.
Lemma grows_db_add_sub id l : grows (db_add_sub id l).
Proof. unfold db_add_sub. grow. Qed.
Lemma grows_db_del_sub id : grows (db_del_sub id).
Proof. unfold db_del_sub. grow. Qed.
#[export] Hint Resolve grows_db_add_client grows_db_del_client grows_db_add_service
  grows_db_del_service grows_db_add_sub grows_db_del_sub : grows.
#[export] Hint Extern 1 (grows (db_get_client _)) => apply grows_gets : grows.
#[export] Hint Extern 1 (grows (db_get_service _)) => apply grows_gets : grows.
#[export] Hint Extern 1 (grows (db_get_sub _)) => apply grows_gets : grows.
#[export] Hint Extern 1 (grows (db_has_sub _)) => apply grows_gets : grows.
#[export] Hint Extern 1 (grows (client_active _)) => apply grows_read : grows.
#[export] Hint Extern 1 (grows (client_set_active _ _)) => apply grows_update : grows.

Lemma grows_assert_connected cl : grows (assert_connected cl).
Proof. unfold assert_connected. grow. Qed.
Lemma grows_client_is_stale cl : grows (client_is_stale cl).
Proof. unfold client_is_stale. grow. Qed.
Lemma grows_get_service_conn cl id : grows (get_service_conn cl id).
Proof. unfold get_service_conn. grow. Qed.
#[export] Hint Resolve grows_assert_connected grows_client_is_stale grows_get_service_conn : grows.

(** *** Changes and timers *)

Lemma grows_sub_notify l ct srv : grows (sub_notify l ct srv).
Proof.
  intros st [] st'. unfold sub_notify, mbind, M_bind, load. simpl.
  destruct (subs st !! l) as [s|] eqn:Hs; [|done]. destruct (services st !! srv) as [x|]; [|done].
  unfold lift. destruct (sub_notify_match s ct x) as [[m|]|]; [|by intros [= <-]|done].
  intros [= <-]. split; simpl; [|lia|intros l' s' Hs'; left; by exists s'].
  exists [OMatch l (match_cb_data s) m x]. split; [done|]. intros B. simpl.
  constructor; [|constructor]. split; simpl; [by eapply B|]. intros s' Hs'. by simplify_eq.
Qed.
Lemma grows_orphan_time_left l : grows (service_orphan_time_left l).
Proof. unfold service_orphan_time_left. grow. Qed.
Lemma grows_event_add t tv : grows (event_add t tv).
Proof. unfold event_add. grow. Qed.
Lemma grows_event_del t : grows (event_del t).
Proof. unfold event_del. grow. Qed.
#[export] Hint Resolve grows_sub_notify grows_orphan_time_left grows_event_add grows_event_del : grows.

Lemma grows_timer_create srv : grows (orphan_timer_create srv).
Proof. unfold orphan_timer_create. grow. Qed.
Lemma grows_timer_destroy t : grows (orphan_timer_destroy t).
Proof. unfold orphan_timer_destroy. grow. Qed.
#[export] Hint Resolve grows_timer_create grows_timer_destroy : grows.

Lemma grows_service_changed srv ct : grows (service_changed srv ct).
Proof.
  unfold service_changed, db_foreach_sub, maintain_orphans, add_orphan_timer, update_orphan_timer,
    remove_orphan_timer, orphan_map_add, orphan_map_del, orphan_map_get. grow.
Qed.
#[export] Hint Resolve grows_service_changed : grows.

Lemma grows_service_commit l : grows (service_commit service_changed l).
Proof. unfold service_commit. grow. Qed.
Lemma grows_service_remove l : grows (service_remove service_changed l).
Proof. unfold service_remove. grow. Qed.
#[export] Hint Resolve grows_service_commit grows_service_remove : grows.

(** *** client.c and sd.c *)

Lemma grows_capture_service cl srv : grows (capture_service cl srv).
Proof. unfold capture_service, conn_del_service, conn_add_service. grow. Qed.
#[export] Hint Resolve grows_capture_service : grows.

Lemma grows_remove_service cl id : grows (remove_service service_changed cl id).
Proof. unfold remove_service, remove_conn, conn_del_service. grow. Qed.
#[export] Hint Resolve grows_remove_service : grows.

Lemma grows_with_client id f : (∀ cl, grows (f cl)) → grows (with_client id f).
Proof. intros Hf. unfold with_client. grow. Qed.

Lemma grows_sd_client_connect id addr : grows (sd_client_connect id addr).
Proof. unfold sd_client_connect, client_create, client_connect, client_reconnect. grow. Qed.

Lemma grows_sd_client_disconnect id : grows (sd_client_disconnect id).
Proof.
  apply grows_with_client. intros cl. unfold client_disconnect, conn_mark_disconnected,
    conn_foreach_sub, conn_clear_subs, conn_foreach_service, service_handle_conn_inactivation. grow.
Qed.

Lemma grows_sd_publish c id g p ttl : grows (sd_publish c id g p ttl).
Proof.
  apply grows_with_client. intros cl. unfold client_publish, publish_same, publish_newer, publish_new,
    service_create, conn_add_service. grow.
Qed.

Lemma grows_sd_unpublish c id : grows (sd_unpublish c id).
Proof. apply grows_with_client. intros cl. unfold client_unpublish. grow. Qed.

Lemma grows_sd_create_sub c id fs d : grows (sd_create_sub c id fs d).
Proof.
  apply grows_with_client. intros cl. unfold client_create_sub, sub_create, conn_add_sub. grow.
Qed.

Lemma grows_sd_activate_sub c id : grows (sd_activate_sub c id).
Proof. unfold sd_activate_sub, client_activate_sub, db_foreach_service. grow. Qed.

Lemma grows_sd_unsubscribe c id : grows (sd_unsubscribe c id).
Proof.
  apply grows_with_client. intros cl. unfold client_unsubscribe, conn_has_sub, conn_del_sub. grow.
Qed.

Lemma grows_orphan_timeout_cb t : grows (orphan_timeout_cb t).
Proof. unfold orphan_timeout_cb, purge_orphan, client_purge_orphan. grow. Qed.
#[export] Hint Resolve grows_sd_client_connect grows_sd_client_disconnect grows_sd_publish
  grows_sd_unpublish grows_sd_create_sub grows_sd_activate_sub grows_sd_unsubscribe
  grows_orphan_timeout_cb : grows.
