(* ===== verification/ProtoConn.v ===== *)
(** * Protocol connections (src/proto/proto_conn.c)

    A connection of a client: it reads requests, calls the core for them, and
    queues the responses.  The state is that of the whole server: the core, the
    transactions and connections, which are heap objects, the lists of server.c,
    and the messages that the sockets have taken.

    The core lists its match callbacks as outputs (Heap.v); here each call of
    the core is followed by the callbacks it has made, in their order.  They
    only queue messages and do not call the core, so that this is what calling
    them at once does.  The socket library (xcm) is outside: what it receives
    and whether it takes a message are inputs of [conn_process], the address of
    a peer is a parameter.  The two callbacks of a connection, which server.c
    gives, are parameters of the handlers. *)

From S2P Require Import Prelude CLib Pvalue Props Filter FilterParse Double Service Sub Amap Heap Client Sd Json ProtoTa.

(** ** The state of the server *)

(** What a socket is to wait for ([xcm_await]). *)
Record condition := Condition { sendable : bool; receivable : bool }.

#[export] Instance condition_eq_dec : EqDecision condition.
Proof. solve_decision. Defined.

(** [struct proto_conn]; [sock_event] says whether the event of the socket has
    been added, [awaited] what the socket waits for. *)
Record proto_conn := ProtoConn {
  sock : Z;
  sock_event : bool;
  established_at : double;
  pc_client_id : Z;
  sub_tas : amap loc;
  out_queue : list msg;
  pc_term : bool;
  awaited : condition
}.

(** The core, the transactions and the connections in memory, the two lists of
    [struct server] and whether it runs, and what has been sent on which
    socket. *)
Record world := World {
  core : state;
  tas : gmap loc proto_ta;
  pconns : gmap loc proto_conn;
  next_obj : loc;
  client_conns : list loc;
  clientless_conns : list loc;
  running : bool;
  wire : list (Z * msg)
}.

Definition set_core (st : state) (w : world) : world :=
  World st (tas w) (pconns w) (next_obj w) (client_conns w) (clientless_conns w)
    (running w) (wire w).
Definition set_tas (f : gmap loc proto_ta → gmap loc proto_ta) (w : world) : world :=
  World (core w) (f (tas w)) (pconns w) (next_obj w) (client_conns w) (clientless_conns w)
    (running w) (wire w).
Definition set_pconns (f : gmap loc proto_conn → gmap loc proto_conn) (w : world) : world :=
  World (core w) (tas w) (f (pconns w)) (next_obj w) (client_conns w) (clientless_conns w)
    (running w) (wire w).
Definition set_next_obj (f : loc → loc) (w : world) : world :=
  World (core w) (tas w) (pconns w) (f (next_obj w)) (client_conns w) (clientless_conns w)
    (running w) (wire w).
Definition set_client_conns (f : list loc → list loc) (w : world) : world :=
  World (core w) (tas w) (pconns w) (next_obj w) (f (client_conns w)) (clientless_conns w)
    (running w) (wire w).
Definition set_clientless_conns (f : list loc → list loc) (w : world) : world :=
  World (core w) (tas w) (pconns w) (next_obj w) (client_conns w) (f (clientless_conns w))
    (running w) (wire w).
Definition set_running (b : bool) (w : world) : world :=
  World (core w) (tas w) (pconns w) (next_obj w) (client_conns w) (clientless_conns w) b (wire w).
Definition set_wire (f : list (Z * msg) → list (Z * msg)) (w : world) : world :=
  World (core w) (tas w) (pconns w) (next_obj w) (client_conns w) (clientless_conns w)
    (running w) (f (wire w)).

Definition with_client_id (id : Z) (c : proto_conn) : proto_conn :=
  ProtoConn (sock c) (sock_event c) (established_at c) id (sub_tas c) (out_queue c) (pc_term c)
    (awaited c).
Definition with_sock_event (b : bool) (c : proto_conn) : proto_conn :=
  ProtoConn (sock c) b (established_at c) (pc_client_id c) (sub_tas c) (out_queue c) (pc_term c)
    (awaited c).
Definition with_sub_tas (m : amap loc) (c : proto_conn) : proto_conn :=
  ProtoConn (sock c) (sock_event c) (established_at c) (pc_client_id c) m (out_queue c) (pc_term c)
    (awaited c).
Definition with_out_queue (q : list msg) (c : proto_conn) : proto_conn :=
  ProtoConn (sock c) (sock_event c) (established_at c) (pc_client_id c) (sub_tas c) q (pc_term c)
    (awaited c).
Definition with_term (b : bool) (c : proto_conn) : proto_conn :=
  ProtoConn (sock c) (sock_event c) (established_at c) (pc_client_id c) (sub_tas c) (out_queue c) b
    (awaited c).
Definition with_awaited (a : condition) (c : proto_conn) : proto_conn :=
  ProtoConn (sock c) (sock_event c) (established_at c) (pc_client_id c) (sub_tas c) (out_queue c)
    (pc_term c) a.

(** ** Objects *)

Definition load_pconn (l : loc) : M world proto_conn := λ w,
  match pconns w !! l with Some c => Ok (c, w) | None => Fail Undefined end.
Definition update_pconn (l : loc) (f : proto_conn → proto_conn) : M world unit :=
  c ← load_pconn l; modify (set_pconns <[l := f c]>).
Definition free_pconn (l : loc) : M world unit :=
  _ ← load_pconn l; modify (set_pconns (delete l)).
Definition alloc_pconn (c : proto_conn) : M world loc := λ w,
  Ok (next_obj w, set_next_obj Pos.succ (set_pconns <[next_obj w := c]> w)).

Definition load_ta (l : loc) : M world proto_ta := λ w,
  match tas w !! l with Some t => Ok (t, w) | None => Fail Undefined end.
Definition alloc_ta (t : proto_ta) : M world loc := λ w,
  Ok (next_obj w, set_next_obj Pos.succ (set_tas <[next_obj w := t]> w)).

(** A function of proto_ta.c that reads, or changes, the transaction. *)
Definition with_ta {A} (l : loc) (f : proto_ta → outcome A) : M world A :=
  t ← load_ta l; lift (f t).
Definition on_ta {A} (l : loc) (f : proto_ta → outcome (A * proto_ta)) : M world A :=
  t ← load_ta l;
  '(a, t') ← lift (f t);
  _ ← modify (set_tas <[l := t']>);
  mret a.

(** [proto_ta_destroy] *)
Definition destroy_ta (l : loc) : M world unit :=
  _ ← with_ta l proto_ta_destroy;
  modify (set_tas (delete l)).

(** A part of the core's work that makes no callbacks. *)
Definition in_core (A : Type) (op : M state A) : M world A := λ w,
  match op (core w) with
  | Ok (a, st') => Ok (a, set_core st' w)
  | Fail e => Fail e
  end.
Arguments in_core {A} _.

(** ** Sending *)

Definition MAX_SEND_BATCH : nat := 64.
Definition SOFT_OUT_WIRE_LIMIT : nat := 128.

Definition has_finished_handshake (c : proto_conn) : bool := bool_decide (0 ≤ pc_client_id c)%Z.

(** The typed queue; pqueue.c is a FIFO queue (Pqueue.v). *)
Definition msg_queue_push (q : list msg) (m : msg) : list msg := q ++ [m].
Definition msg_queue_pop (q : list msg) : list msg := tail q.
Definition msg_queue_peek (q : list msg) : option msg := head q.
Definition msg_queue_len (q : list msg) : nat := length q.

Definition await_condition (c : proto_conn) : condition :=
  if negb (pc_term c) then
    Condition (bool_decide (0 < msg_queue_len (out_queue c)))
      (bool_decide (msg_queue_len (out_queue c) < SOFT_OUT_WIRE_LIMIT))
  else Condition false false.

Definition await_update (conn : loc) : M world unit :=
  update_pconn conn (λ c, with_awaited (await_condition c) c).

Definition queue_response (conn : loc) (m : msg) : M world unit :=
  _ ← update_pconn conn (λ c, with_out_queue (msg_queue_push (out_queue c) m) c);
  await_update conn.

Section handlers.
Context {json_t : Type} `{!Jansson json_t}.

Definition ta_accept (ta : loc) (ap : list (option field_value)) : M world msg :=
  on_ta ta (λ t, proto_ta_accept (json_t := json_t) t ap).
Definition ta_notify (ta : loc) (ap : list (option field_value)) : M world msg :=
  on_ta ta (λ t, proto_ta_notify (json_t := json_t) t ap).
Definition ta_complete (ta : loc) (ap : list (option field_value)) : M world msg :=
  on_ta ta (λ t, proto_ta_complete (json_t := json_t) t ap).
Definition ta_fail (ta : loc) (reason : cstr) : M world msg :=
  on_ta ta (λ t, proto_ta_fail (json_t := json_t) t [Some (FStr reason)]).

(** ** Matches *)

(** The time since when a service is an orphan, or a null pointer. *)
Definition orphan_since_arg (srv : service) : outcome (option field_value) :=
  is_orphan ← service_is_orphan srv;
  if (is_orphan : bool) then
    t ← service_get_orphan_since srv; Ok (Some (FNumber t))
  else Ok None.

Definition notify_sub_match (s : loc) (srv : service) (match_type : sub_match_type)
    (conn : loc) : M world unit :=
  c ← load_pconn conn;
  sub_id ← in_core (read s (λ x, Ok (sub_id x)));
  let sub_ta := amap_get (sub_tas c) sub_id in
  response ←
    (if decide (match_type = sub_match_type_disappeared) then
       ta ← lift (deref sub_ta);
       ta_notify ta [Some (FMatchType match_type); Some (FUint63 (service_id srv));
                     None; None; None; None; None]
     else
       generation ← lift (service_get_generation srv);
       p ← lift (service_get_props srv);
       ttl ← lift (service_get_ttl srv);
       client_id ← lift (service_get_client_id srv);
       orphan_since ← lift (orphan_since_arg srv);
       ta ← lift (deref sub_ta);
       ta_notify ta [Some (FMatchType match_type); Some (FUint63 (service_id srv));
                     Some (FUint63 generation); FProps <$> p; Some (FUint63 ttl);
                     Some (FUint63 client_id); orphan_since]);
  queue_response conn response.

(** The callbacks the core has made; the data of a subscription is the
    connection. *)
Definition deliver (o : output) : M world unit :=
  match o with
  | OMatch s (Z.pos conn) match_type srv => notify_sub_match s srv match_type conn
  | OMatch _ _ _ _ => fault_with Undefined
  | _ => mret tt
  end.

(** A call of the core. *)
Definition sd_call {A} (op : M state A) : M world A := λ w,
  match op (core w) with
  | Ok (a, st') =>
      (_ ← mforeach deliver (drop (length (outputs (core w))) (outputs st')); mret a)
        (set_core st' w)
  | Fail e => Fail e
  end.

(** ** Requests *)

Section conn.
Context (xcm_remote_addr : Z → option cstr).
Context (handshake_cb term_cb : loc → M world unit).

Definition handle_hello (conn ta : loc) : M world unit :=
  client_id ← with_ta ta (λ t, proto_ta_get_req_field_uint63_value t 0);
  min_version ← with_ta ta (λ t, proto_ta_get_req_field_uint63_value t 1);
  max_version ← with_ta ta (λ t, proto_ta_get_req_field_uint63_value t 2);
  c ← load_pconn conn;
  response ←
    (if has_finished_handshake c then
       if bool_decide (pc_client_id c ≠ client_id)
       then ta_fail ta PROTO_FAIL_REASON_PERMISSION_DENIED
       else ta_complete ta [Some (FUint63 PROTO_VERSION)]
     else if bool_decide (PROTO_VERSION < min_version)%Z ||
             bool_decide (max_version < PROTO_VERSION)%Z
     then ta_fail ta PROTO_FAIL_REASON_UNSUPPORTED_PROTOCOL_VERSION
     else
       rc ← sd_call (sd_client_connect client_id (xcm_remote_addr (sock c)));
       if bool_decide (rc = SD_ERR_CLIENT_ALREADY_EXISTS)
       then ta_fail ta PROTO_FAIL_REASON_CLIENT_ID_EXISTS
       else
         _ ← lift (ut_assert (bool_decide (rc = 0)%Z));
         _ ← update_pconn conn (with_client_id client_id);
         _ ← lift (ut_assert (bool_decide (rc = 0)%Z));
         _ ← handshake_cb conn;
         ta_complete ta [Some (FUint63 PROTO_VERSION)]);
  queue_response conn response.

Definition handle_no_hello (conn ta : loc) : M world unit :=
  response ← ta_fail ta PROTO_FAIL_REASON_NO_HELLO;
  queue_response conn response.

Definition proto_ta_map_add (conn : loc) (id : Z) (ta : loc) : M world unit :=
  c ← load_pconn conn;
  m ← lift (amap_add (sub_tas c) id ta);
  update_pconn conn (with_sub_tas m).

Definition proto_ta_map_del (conn : loc) (id : Z) : M world unit :=
  c ← load_pconn conn;
  m ← lift (amap_del (sub_tas c) id);
  update_pconn conn (with_sub_tas m).

Definition handle_subscribe (conn ta : loc) : M world unit :=
  sub_id ← with_ta ta (λ t, proto_ta_get_req_field_uint63_value t 0);
  filter_s ← with_ta ta (λ t, proto_ta_get_opt_req_field_str_value t 0);
  c ← load_pconn conn;
  rc ← sd_call (sd_create_sub (pc_client_id c) sub_id filter_s (Z.pos conn));
  if bool_decide (rc = SD_ERR_SUB_ALREADY_EXISTS) then
    response ← ta_fail ta PROTO_FAIL_REASON_SUBSCRIPTION_ID_EXISTS;
    queue_response conn response
  else if bool_decide (rc = SD_ERR_INVALID_FILTER) then
    response ← ta_fail ta PROTO_FAIL_REASON_INVALID_FILTER_SYNTAX;
    queue_response conn response
  else
    _ ← lift (ut_assert (bool_decide (rc = 0)%Z));
    _ ← proto_ta_map_add conn sub_id ta;
    response ← ta_accept ta [];
    _ ← queue_response conn response;
    sd_call (sd_activate_sub (pc_client_id c) sub_id).

Definition handle_unsubscribe (conn unsub_ta : loc) : M world unit :=
  sub_id ← with_ta unsub_ta (λ t, proto_ta_get_req_field_uint63_value t 0);
  c ← load_pconn conn;
  rc ← sd_call (sd_unsubscribe (pc_client_id c) sub_id);
  '(unsub_response, sub_response) ←
    (if bool_decide (rc = SD_ERR_NO_SUCH_SUB) then
       m ← ta_fail unsub_ta PROTO_FAIL_REASON_NON_EXISTENT_SUBSCRIPTION_ID; mret (m, None)
     else if bool_decide (rc = SD_ERR_PERM_DENIED) then
       m ← ta_fail unsub_ta PROTO_FAIL_REASON_PERMISSION_DENIED; mret (m, None)
     else if bool_decide (rc = 0)%Z then
       unsub_response ← ta_complete unsub_ta [];
       c ← load_pconn conn;
       let sub_ta := amap_get (sub_tas c) sub_id in
       _ ← proto_ta_map_del conn sub_id;
       sub_ta ← lift (deref sub_ta);
       sub_response ← ta_complete sub_ta [];
       _ ← destroy_ta sub_ta;
       mret (unsub_response, Some sub_response)
     else fault_with AssertFailed);
  _ ← queue_response conn unsub_response;
  match sub_response with
  | Some m => queue_response conn m
  | None => mret tt
  end.

Definition handle_publish (conn ta : loc) : M world unit :=
  service_id ← with_ta ta (λ t, proto_ta_get_req_field_uint63_value t 0);
  generation ← with_ta ta (λ t, proto_ta_get_req_field_uint63_value t 1);
  p ← with_ta ta (λ t, proto_ta_get_req_field_props_value t 2);
  ttl ← with_ta ta (λ t, proto_ta_get_req_field_uint63_value t 3);
  c ← load_pconn conn;
  rc ← sd_call (sd_publish (pc_client_id c) service_id generation p ttl);
  response ←
    (if bool_decide (rc = SD_ERR_SERVICE_SAME_GENERATION_BUT_DIFFERENT_DATA)
     then ta_fail ta PROTO_FAIL_REASON_SAME_GENERATION_BUT_DIFFERENT
     else if bool_decide (rc = SD_ERR_NEWER_SERVICE_GENERATION_EXISTS)
     then ta_fail ta PROTO_FAIL_REASON_OLD_GENERATION
     else if bool_decide (rc = 0)%Z then ta_complete ta []
     else fault_with AssertFailed);
  queue_response conn response.

Definition handle_unpublish (conn ta : loc) : M world unit :=
  service_id ← with_ta ta (λ t, proto_ta_get_req_field_uint63_value t 0);
  c ← load_pconn conn;
  rc ← sd_call (sd_unpublish (pc_client_id c) service_id);
  response ←
    (if bool_decide (rc = SD_ERR_NO_SUCH_SERVICE)
     then ta_fail ta PROTO_FAIL_REASON_NON_EXISTENT_SERVICE_ID
     else if bool_decide (rc = 0)%Z then ta_complete ta []
     else fault_with AssertFailed);
  queue_response conn response.

Definition handle_ping (conn ta : loc) : M world unit :=
  response ← ta_complete ta [];
  queue_response conn response.

(** The lists: what the callbacks of the three foreach functions queue. *)
Definition service_notify_cb (conn ta : loc) (service_id : Z) (srv : loc) : M world unit :=
  s ← in_core (load srv);
  generation ← lift (service_get_generation s);
  p ← lift (service_get_props s);
  ttl ← lift (service_get_ttl s);
  client_id ← lift (service_get_client_id s);
  orphan_since ← lift (orphan_since_arg s);
  m ← ta_notify ta [Some (FUint63 service_id); Some (FUint63 generation); FProps <$> p;
                    Some (FUint63 ttl); Some (FUint63 client_id); orphan_since];
  queue_response conn m.

Definition handle_services (conn ta : loc) : M world unit :=
  filter_s ← with_ta ta (λ t, proto_ta_get_opt_req_field_str_value t 0);
  filter ← (match filter_s with
            | Some s => f ← lift (filter_parse s); mret (Some f)
            | None => mret None
            end);
  match filter with
  | Some None =>
      response ← ta_fail ta PROTO_FAIL_REASON_INVALID_FILTER_SYNTAX;
      queue_response conn response
  | _ =>
      response ← ta_accept ta [];
      _ ← queue_response conn response;
      _ ← sd_foreach_service (@in_core) (filter ≫= id) (service_notify_cb conn ta);
      response ← ta_complete ta [];
      queue_response conn response
  end.

Definition sub_notify_cb (conn ta : loc) (sub_id : Z) (l : loc) : M world unit :=
  s ← in_core (load l);
  m ← ta_notify ta [Some (FUint63 sub_id); Some (FUint63 (sub_client_id s));
                    FStr <$> sub_get_filter_str s];
  queue_response conn m.

Definition handle_subscriptions (conn ta : loc) : M world unit :=
  response ← ta_accept ta [];
  _ ← queue_response conn response;
  _ ← sd_foreach_sub (@in_core) (sub_notify_cb conn ta);
  response ← ta_complete ta [];
  queue_response conn response.

Definition client_notify_cb (conn ta : loc) (client_id : Z) (l : loc) : M world unit :=
  cl ← in_core (load l);
  if client_is_connected cl then
    a ← lift (deref (active_conn cl));
    k ← in_core (load a);
    connection_time ← lift (d_trunc (connected_at k));
    m ← ta_notify ta [Some (FUint63 client_id); FStr <$> remote_addr k;
                      Some (FUint63 connection_time)];
    queue_response conn m
  else mret tt.

Definition handle_clients (conn ta : loc) : M world unit :=
  response ← ta_accept ta [];
  _ ← queue_response conn response;
  _ ← sd_foreach_client (@in_core) (client_notify_cb conn ta);
  response ← ta_complete ta [];
  queue_response conn response.

(** ** Processing *)

Definition term (conn : loc) : M world unit :=
  c ← load_pconn conn;
  _ ← lift (ut_assert (negb (pc_term c)));
  _ ← (if has_finished_handshake c
       then _ ← sd_call (sd_client_disconnect (pc_client_id c)); mret tt
       else mret tt);
  _ ← update_pconn conn (with_sock_event false);
  _ ← update_pconn conn (with_term true);
  term_cb conn.

(** The handler of each command but "hello". *)
Definition dispatch (cmd_name : cstr) : loc → loc → M world unit :=
  let same s := bool_decide (strcmp cmd_name s = 0)%Z in
  if same PROTO_CMD_SUBSCRIBE then handle_subscribe
  else if same PROTO_CMD_UNSUBSCRIBE then handle_unsubscribe
  else if same PROTO_CMD_PUBLISH then handle_publish
  else if same PROTO_CMD_UNPUBLISH then handle_unpublish
  else if same PROTO_CMD_PING then handle_ping
  else if same PROTO_CMD_SERVICES then handle_services
  else if same PROTO_CMD_SUBSCRIPTIONS then handle_subscriptions
  else if same PROTO_CMD_CLIENTS then handle_clients
  else λ _ _, fault_with AssertFailed.

Definition handle_req (conn : loc) (req_msg : msg) : M world Z :=
  ta ← alloc_ta proto_ta_create;
  rc ← on_ta ta (λ t, proto_ta_req (json_t := json_t) t req_msg);
  if bool_decide (rc < 0)%Z then
    _ ← destroy_ta ta;
    mret (-1)%Z
  else
    cmd_name ← with_ta ta (λ t, deref (proto_ta_get_cmd t));
    _ ← (if bool_decide (strcmp cmd_name PROTO_CMD_HELLO = 0)%Z then handle_hello conn ta
         else
           c ← load_pconn conn;
           if negb (has_finished_handshake c) then handle_no_hello conn ta
           else dispatch cmd_name conn ta);
    has_term ← with_ta ta (λ t, Ok (proto_ta_has_term t));
    _ ← (if (has_term : bool) then destroy_ta ta else mret tt);
    mret 0%Z.

(** What [xcm_receive] returns: the bytes of a message (none when the peer has
    closed the connection), or an error. *)
Inductive received := Received (data : list ascii) | ReceiveError (again : bool).

(** The buffer has 65536 bytes, one of them for the terminating zero. *)
Definition try_receive (conn : loc) (xcm_received : received) : M world Z :=
  match xcm_received with
  | Received data =>
      _ ← lift (if bool_decide (Z.of_nat (length data) ≤ 65535)%Z then Ok tt
                else Fail Undefined);
      if bool_decide (0 < length data) then
        rc ← handle_req conn (msg_create data (length data));
        if bool_decide (rc < 0)%Z then _ ← term conn; mret (-1)%Z
        else _ ← await_update conn; mret 0%Z
      else _ ← term conn; mret (-1)%Z
  | ReceiveError again =>
      if negb again then _ ← term conn; mret (-1)%Z
      else _ ← await_update conn; mret 0%Z
  end.

(** What [xcm_send] returns for each message; no further answer is [EAGAIN]. *)
Inductive sent := SendOk | SendError (again : bool).

Fixpoint send_loop (n : nat) (conn : loc) (answers : list sent) : M world Z :=
  match n with
  | O => _ ← await_update conn; mret 0%Z
  | S n' =>
      c ← load_pconn conn;
      match msg_queue_peek (out_queue c) with
      | None => mret 0%Z
      | Some out_msg =>
          match answers with
          | [] | SendError true :: _ => mret 0%Z
          | SendError false :: _ => _ ← term conn; mret (-1)%Z
          | SendOk :: answers' =>
              _ ← modify (set_wire (λ ms, ms ++ [(sock c, out_msg)]));
              _ ← update_pconn conn (λ c, with_out_queue (msg_queue_pop (out_queue c)) c);
              send_loop n' conn answers'
          end
      end
  end.

Definition try_send (conn : loc) (answers : list sent) : M world Z :=
  send_loop MAX_SEND_BATCH conn answers.

(** The callback of the socket's event. *)
Definition conn_process (conn : loc) (r : received) (answers : list sent) : M world unit :=
  rc ← try_receive conn r;
  if bool_decide (rc < 0)%Z then mret tt
  else
    rc ← try_send conn answers;
    if bool_decide (rc < 0)%Z then mret tt else mret tt.
End conn.
End handlers.

(** ** Creation and destruction *)

Definition proto_conn_create (conn_sock : Z) : M world loc :=
  now ← in_core ut_ftime;
  alloc_pconn (ProtoConn conn_sock true now (-1) [] [] false (Condition false true)).

(** The queued messages go with the queue. *)
Definition proto_conn_destroy (conn : loc) : M world unit :=
  _ ← update_pconn conn (with_sock_event false);
  c ← load_pconn conn;
  _ ← mforeach (λ kv, destroy_ta kv.2) (sub_tas c);
  free_pconn conn.
