(* ===== verification/Server.v ===== *)
(** * The server (src/proto/server.c)

    The server accepts connections, keeps them in two lists, before and after
    their handshake, and drops those that take too long for it.  Its events are
    libevent's callbacks: the listening socket, the socket of a connection, the
    clean-out timer, and the orphan timers of the core. *)

From S2P Require Import Prelude CLib Pvalue Props Filter FilterParse Double Service Sub Amap Heap Client Sd Json ProtoTa ProtoConn.

Definition CLEAN_OUT_INTERVAL : double := d_of_Z 1.
Definition MAX_HANDSHAKE_TIME : double := d_of_Z 2.

(** [server_create], with what [xcm_server] returns: no socket, no server. *)
Definition server_create (clock : nat → timespec) (server_sock : option Z) : option world :=
  match server_sock with
  | None => None
  | Some _ => Some (World (sd_create clock) ∅ ∅ 1 [] [] false [])
  end.

(** ** The lists of connections *)

(** [proto_conn_list_index_of] and [proto_conn_list_del]. *)
Definition clientless_del (conn : loc) : M world unit := λ w,
  match list_del_first conn (clientless_conns w) with
  | Ok l => Ok (tt, set_clientless_conns (λ _, l) w)
  | Fail e => Fail e
  end.

Definition client_conns_del (conn : loc) : M world unit := λ w,
  match list_del_first conn (client_conns w) with
  | Ok l => Ok (tt, set_client_conns (λ _, l) w)
  | Fail e => Fail e
  end.

(** ** The callbacks of connections *)

Definition conn_handshake_cb (conn : loc) : M world unit :=
  _ ← clientless_del conn;
  modify (set_client_conns (λ l, l ++ [conn])).

Definition conn_term_cb (conn : loc) : M world unit :=
  clientless ← gets clientless_conns;
  _ ← (if decide (conn ∈ clientless) then clientless_del conn else client_conns_del conn);
  proto_conn_destroy conn.

(** ** Events *)

(** What [xcm_accept] returns. *)
Definition accept_cb (conn_sock : option Z) : M world unit :=
  match conn_sock with
  | None => mret tt
  | Some s =>
      conn ← proto_conn_create s;
      modify (set_clientless_conns (λ l, l ++ [conn]))
  end.

Definition consider_disconnect (conn : loc) : M world bool :=
  now ← in_core ut_ftime;
  c ← load_pconn conn;
  let handshake_time := d_sub now (established_at c) in
  mret (d_lt MAX_HANDSHAKE_TIME handshake_time).

(** The list [expired] that the first loop of [clean_out_cb] makes. *)
Fixpoint expired_conns (l : list loc) : M world (list loc) :=
  match l with
  | [] => mret []
  | conn :: l' =>
      b ← consider_disconnect conn;
      expired ← expired_conns l';
      mret (if (b : bool) then conn :: expired else expired)
  end.

Definition do_disconnect (conn : loc) : M world unit :=
  _ ← load_pconn conn;
  _ ← clientless_del conn;
  proto_conn_destroy conn.

Definition clean_out_cb : M world unit :=
  l ← gets clientless_conns;
  expired ← expired_conns l;
  mforeach do_disconnect expired.

(** [server_start], with the results of the calls of xcm. *)
Definition server_start (set_blocking_rc await_rc fd : Z) : M world Z :=
  r ← gets running;
  _ ← lift (ut_assert (negb r));
  if bool_decide (set_blocking_rc < 0)%Z then mret (-1)%Z
  else if bool_decide (await_rc < 0)%Z then mret (-1)%Z
  else if bool_decide (fd < 0)%Z then mret (-1)%Z
  else
    _ ← lift (ut_f_to_timeval CLEAN_OUT_INTERVAL);
    _ ← modify (set_running true);
    mret 0%Z.

(** [server_destroy] *)
Definition server_destroy : M world unit :=
  l ← gets client_conns;
  _ ← mforeach proto_conn_destroy l;
  _ ← modify (set_client_conns (λ _, []));
  l ← gets clientless_conns;
  _ ← mforeach proto_conn_destroy l;
  _ ← modify (set_clientless_conns (λ _, []));
  in_core sd_destroy.

Section events.
Context {json_t : Type} `{!Jansson json_t}.
Context (xcm_remote_addr : Z → option cstr).

Inductive server_event :=
  | SAccept (conn_sock : option Z)
  | SProcess (conn : loc) (r : received) (answers : list sent)
  | SCleanOut
  | STimeout (t : loc).

Definition run_server_event (e : server_event) : M world unit :=
  match e with
  | SAccept conn_sock => accept_cb conn_sock
  | SProcess conn r answers =>
      conn_process (json_t := json_t) xcm_remote_addr conn_handshake_cb conn_term_cb conn r answers
  | SCleanOut => clean_out_cb
  | STimeout t => sd_call (json_t := json_t) (orphan_timeout_cb t)
  end.

Fixpoint run_server (evs : list server_event) : M world unit :=
  match evs with
  | [] => mret tt
  | e :: evs' => _ ← run_server_event e; run_server evs'
  end.
End events.
