(* ===== verification/ServerOut.v ===== *)
(** * What the connections are told

    Which messages a step of the protocol layer (src/proto/proto_conn.c,
    src/proto/server.c) adds to the stream of each connection, which is what has
    been sent on its socket and what waits in its queue.  A message is a
    notification of a match, made for one match call of the core, or a reply to
    a request; each call of the core is one notification, on the connection
    that the call names, and in order.  This holds of each function that ends,
    in any state whose locations have been given out ([tidy]). *)

From S2P Require Import Prelude CLib Pvalue Props Filter FilterParse Double Service Sub Amap Heap Client Sd SdWp SdInv SdOps SdGrow Json ProtoTa ProtoTaSpec ProtoConn Server.

Create HintDb tells.

(** A match call with what it says, the transaction it is told with, and the
    identifier of that transaction. *)
Record notice := Notice { n_report : report; n_ta : loc; n_id : Z }.

Definition n_sub (n : notice) : loc := (n_report n).1.1.1.1.

(** The reports that a list of messages tells of, and those for a connection. *)
Definition reports_in (ms : list (msg * option notice)) : list report := omap (λ x, n_report <$> x.2) ms.
Definition reports_for (conn : loc) (calls : list report) : list report :=
  filter (λ x, x.1.1.1.2 = Z.pos conn) calls.

Definition on_sock (s : Z) (ws : list (Z * msg)) : list msg := (filter (λ x, x.1 = s) ws).*2.

Section out.
Context {json_t : Type} `{!Jansson json_t}.

(** ** Messages *)

(** The arguments of a notification of a match. *)
Definition match_args (mt : sub_match_type) (srv : service) : outcome (list (option field_value)) :=
  if decide (mt = sub_match_type_disappeared) then
    Ok [Some (FMatchType mt); Some (FUint63 (service_id srv)); None; None; None; None; None]
  else
    generation ← service_get_generation srv;
    p ← service_get_props srv;
    ttl ← service_get_ttl srv;
    client_id ← service_get_client_id srv;
    orphan_since ← orphan_since_arg srv;
    Ok [Some (FMatchType mt); Some (FUint63 (service_id srv)); Some (FUint63 generation);
        FProps <$> p; Some (FUint63 ttl); Some (FUint63 client_id); orphan_since].

(** The message that notifies of a call. *)
Definition note_made (m : msg) (n : notice) : Prop :=
  let '(_, mt, id, g) := n_report n in
  ∃ srv ap t t', service_id srv = id ∧ content mt (current srv) = g ∧ match_args mt srv = Ok ap ∧
    ta_id t = n_id n ∧ ta_sound t ∧ proto_ta_notify (json_t := json_t) t ap = Ok (m, t').

(** Any other message: its first argument is no match type. *)
Definition reply_made (m : msg) : Prop :=
  ∃ t t' ap, (∀ mt, head ap ≠ Some (Some (FMatchType mt))) ∧
    (proto_ta_accept (json_t := json_t) t ap = Ok (m, t') ∨
     proto_ta_notify (json_t := json_t) t ap = Ok (m, t') ∨
     proto_ta_complete (json_t := json_t) t ap = Ok (m, t') ∨
     proto_ta_fail (json_t := json_t) t ap = Ok (m, t')).

Definition made (x : msg * option notice) : Prop :=
  match x.2 with Some n => note_made x.1 n | None => reply_made x.1 end.

(** ** Steps *)

Record tidy (w : world) : Prop := {
  Td_conns : ∀ conn c, pconns w !! conn = Some c →
    (conn < next_obj w)%positive ∧ NoDup (amap_keys (sub_tas c));
  Td_tas : ∀ t ta, tas w !! t = Some ta → (t < next_obj w)%positive ∧ ta_sound ta;
  Td_subs : subs_bounded (core w)
}.

(** [R] says how the transactions that a connection keeps may change; [sender] is
    the one connection that may send messages, and [fresh] are the sockets that
    new connections may have. *)
Section steps.
Context (R : amap loc → amap loc → Prop) `{!PreOrder R} (sender : option loc) (fresh : list Z).

(** The transaction of a notification is the one that its connection kept for
    the subscription, when it was made. *)
Record fit (w : world) (c : proto_conn) (n : notice) : Prop := {
  Fit_ta : (n_ta n < next_obj w)%positive;
  Fit_id : ∀ ta, tas w !! n_ta n = Some ta → ta_id ta = n_id n;
  Fit_loc : (n_sub n < next_loc (core w))%positive;
  Fit_kept : ∀ s, subs (core w) !! n_sub n = Some s →
    ∃ m, amap_get m (sub_id s) = Some (n_ta n) ∧ R m (sub_tas c)
}.

(** The queue [q0] that the connection had before, if it is not new. *)
Inductive start (w : world) (conn : loc) (c' : proto_conn) (q0 : list msg) : Prop :=
  | Old c : pconns w !! conn = Some c → sock c = sock c' → R (sub_tas c) (sub_tas c') →
      out_queue c = q0 → start w conn c' q0
  | New : (next_obj w ≤ conn)%positive → q0 = [] → sock c' ∈ fresh → start w conn c' q0.

(** The connection's stream has grown by [ms], which tells it its calls. *)
Definition stream_grows (calls : list report) (ws : list (Z * msg)) (w w' : world) (conn : loc)
    (c' : proto_conn) : Prop :=
  ∃ q0 sent ms, start w conn c' q0 ∧ sent `sublist_of` on_sock (sock c') ws ∧
    sent ++ out_queue c' = q0 ++ ms.*1 ∧ reports_in ms = reports_for conn calls ∧
    Forall made ms ∧ Forall (fit w' c') (omap snd ms) ∧
    (sender = Some conn → (conn < next_obj w)%positive → sent = ws.*2).

(** The messages went to the sender's socket. *)
Definition from_sender (w : world) (x : Z * msg) : Prop :=
  ∃ l, sender = Some l ∧
    ((next_obj w ≤ l)%positive ∨ ∃ c, pconns w !! l = Some c ∧ x.1 = sock c).

Record step (calls : list report) (w w' : world) : Prop := {
  T_next : (next_obj w ≤ next_obj w')%positive;
  T_core : grown (core w) (core w');
  T_tas : ∀ t ta', tas w' !! t = Some ta' → (t < next_obj w)%positive →
    ∃ ta, tas w !! t = Some ta ∧ ta_id ta' = ta_id ta;
  T_calls : Forall (λ x, ∃ conn, x.1.1.1.2 = Z.pos conn ∧ (conn < next_obj w')%positive) calls;
  T_wire : ∃ ws, wire w' = wire w ++ ws ∧ Forall (from_sender w) ws ∧
    ∀ conn c', pconns w' !! conn = Some c' → stream_grows calls ws w w' conn c'
}.

Lemma fit_step calls w w' c c' n : step calls w w' → R (sub_tas c) (sub_tas c') →
  fit w c n → fit w' c' n.
Proof using PreOrder0.
  intros S HR [F1 F2 F3 F4]. pose proof (T_next _ _ _ S).
  pose proof (Gr_next _ _ (T_core _ _ _ S)). split; [lia| |lia|].
  - intros ta' Hta'. destruct (T_tas _ _ _ S _ _ Hta' F1) as (ta & Hta & E). rewrite E. by apply F2.
  - intros s' Hs'. destruct (Gr_subs _ _ (T_core _ _ _ S) _ _ Hs') as [(s & Hs & E)|[]]; [|lia].
    destruct (F4 _ Hs) as (m & Hi & Hm). exists m. split; [|by etrans].
    assert (sub_id s' = sub_id s) as -> by (by injection E). done.
Qed.

Lemma reports_for_app conn l k : reports_for conn (l ++ k) = reports_for conn l ++ reports_for conn k.
Proof. apply filter_app. Qed.

Lemma reports_in_app ms ns : reports_in (ms ++ ns) = reports_in ms ++ reports_in ns.
Proof. apply omap_app. Qed.

Lemma on_sock_app s l k : on_sock s (l ++ k) = on_sock s l ++ on_sock s k.
Proof. unfold on_sock. by rewrite filter_app, fmap_app. Qed.

(** Calls are for connections that have been there. *)
Lemma reports_for_new conn (n : loc) calls :
  Forall (λ x : report, ∃ conn', x.1.1.1.2 = Z.pos conn' ∧ (conn' < n)%positive) calls →
  (n ≤ conn)%positive → reports_for conn calls = [].
Proof.
  intros Hc Hn. induction Hc as [|x calls (conn' & E & Hlt) _ IH]; [done|].
  unfold reports_for. rewrite filter_cons_False; [done|]. rewrite E. intros [= ->]. lia.
Qed.

Lemma step_trans c1 c2 w w1 w2 : step c1 w w1 → step c2 w1 w2 → step (c1 ++ c2) w w2.
Proof using PreOrder0.
  intros S1 S2. pose proof (T_next _ _ _ S1) as N1. pose proof (T_next _ _ _ S2) as N2. split.
  - lia.
  - etrans; by eapply T_core.
  - intros t ta2 H2 Hlt. destruct (T_tas _ _ _ S2 _ _ H2) as (ta1 & H1 & E1); [lia|].
    destruct (T_tas _ _ _ S1 _ _ H1 Hlt) as (ta & H & E). exists ta. by rewrite E1.
  - apply Forall_app. split; [|apply S2]. eapply Forall_impl; [apply S1|].
    intros x (conn & E & Hlt). exists conn. split; [done|lia].
  - destruct (T_wire _ _ _ S1) as (ws1 & W1 & P1 & H1), (T_wire _ _ _ S2) as (ws2 & W2 & P2 & H2).
    exists (ws1 ++ ws2). rewrite W2, W1, app_assoc. split; [done|]. split.
    { apply Forall_app. split; [done|]. eapply Forall_impl; [exact P2|].
      intros x (l & El & [Hn|(c & Hc & Ex)]); exists l; (split; [done|]); [left; lia|].
      destruct (H1 _ _ Hc) as (_ & _ & _ & [c0 H0 E0 _ _|Hn _ _] & _); [|by left].
      right. exists c0. by rewrite E0. }
    intros conn cc Hcc.
    destruct (H2 _ _ Hcc) as (q2 & sent2 & ms2 & St2 & Hs2 & Q2 & C2 & M2 & F2 & X2).
    unfold stream_grows. rewrite reports_for_app, on_sock_app. destruct St2 as [c Hc Es HR <-|Hn -> Hfr].
    + destruct (H1 _ _ Hc) as (q1 & sent1 & ms1 & St1 & Hs1 & Q1 & C1 & M1 & F1 & X1).
      exists q1, (sent1 ++ sent2), (ms1 ++ ms2).
      rewrite reports_in_app, C1, C2, fmap_app, omap_app, <-app_assoc, Q2, app_assoc, Q1, app_assoc.
      split_and!; [|by rewrite Es in Hs1; apply sublist_app|done|done|by apply Forall_app| |].
      * destruct St1 as [c0 H0 E0 HR0 E0'|Hn1 -> Hfr]; [|apply New; [done|done|by rewrite <-Es]].
        eapply Old; [exact H0|by rewrite E0|by etrans|done].
      * apply Forall_app. split; [|done]. eapply Forall_impl; [exact F1|]. intros n. by eapply fit_step.
      * intros E Hlt. rewrite fmap_app, X1, X2 by (done || lia). done.
    + rewrite (reports_for_new _ _ _ (T_calls _ _ _ S1) Hn). exists [], sent2, ms2.
      split_and!; [apply New; [lia|done|done]|by apply sublist_inserts_l|done..|lia].
Qed.

(** A step that tells nothing. *)
Lemma step_quiet w w' : (next_obj w ≤ next_obj w')%positive → grown (core w) (core w') →
  (∀ t ta', tas w' !! t = Some ta' → (t < next_obj w)%positive →
     ∃ ta, tas w !! t = Some ta ∧ ta_id ta' = ta_id ta) →
  wire w' = wire w →
  (∀ conn c', pconns w' !! conn = Some c' → start w conn c' (out_queue c')) →
  step [] w w'.
Proof.
  intros Hn Hg Ht Hw Hc. split; [done|done|done|constructor|]. exists []. rewrite app_nil_r.
  split; [done|]. split; [constructor|]. intros conn c' Hc'. exists (out_queue c'), [], []. rewrite app_nil_r.
  split_and!; [by apply Hc|apply sublist_nil_l|done..|constructor|constructor|done].
Qed.

Lemma old_start w conn c : pconns w !! conn = Some c → start w conn c (out_queue c).
Proof using PreOrder0. intros Hc. by eapply Old. Qed.

Lemma step_refl w : step [] w w.
Proof using PreOrder0. apply step_quiet; [done|done|eauto|done|apply old_start]. Qed.

(** ** Triples *)

(** [m] keeps the state tidy, returns [Q], and tells of the calls it makes. *)
Definition tells {A} (m : M world A) (Q : A → Prop) : Prop := ∀ w a w', tidy w → m w = Ok (a, w') →
  tidy w' ∧ Q a ∧ ∃ calls, reports (core w') = reports (core w) ++ calls ∧ step calls w w'.

Lemma tells_quiet {A} (m : M world A) (Q : A → Prop) :
  (∀ w a w', tidy w → m w = Ok (a, w') →
     tidy w' ∧ Q a ∧ outputs (core w') = outputs (core w) ∧ step [] w w') → tells m Q.
Proof.
  intros H w a w' T E. destruct (H w a w' T E) as (T' & Ha & Eo & S). split_and!; [done|done|].
  exists []. unfold reports. by rewrite Eo, app_nil_r.
Qed.

Lemma tells_same {A} (m : M world A) (Q : A → Prop) :
  (∀ w a w', tidy w → m w = Ok (a, w') → w' = w ∧ Q a) → tells m Q.
Proof using PreOrder0.
  intros H. apply tells_quiet. intros w a w' T E. destruct (H _ _ _ T E) as [-> Ha].
  by split_and!; [| |done|apply step_refl].
Qed.

Lemma tells_ret {A} (a : A) (Q : A → Prop) : Q a → tells (mret a) Q.
Proof using PreOrder0. intros Ha. apply tells_same. by intros w b w' _ [= <- <-]. Qed.

Lemma tells_lift {A} (o : outcome A) : tells (lift o) (λ _, True).
Proof using PreOrder0. apply tells_same. intros w a w' _ E. unfold lift in E. destruct o; by simplify_eq. Qed.

Lemma tells_gets {A} (f : world → A) : tells (gets f) (λ _, True).
Proof using PreOrder0. apply tells_same. by intros w a w' _ [= _ <-]. Qed.

Lemma tells_fault {A} e (Q : A → Prop) : tells (fault_with e) Q.
Proof. by intros w a w'. Qed.

Lemma tells_bind {A B} (P : A → Prop) (m : M world A) (f : A → M world B) Q :
  tells m P → (∀ a, P a → tells (f a) Q) → tells (m ≫= f) Q.
Proof using PreOrder0.
  intros Hm Hf w b w2 T (a & w1 & E1 & E2)%M_bind_Ok.
  destruct (Hm _ _ _ T E1) as (T1 & Ha & c1 & C1 & S1).
  destruct (Hf a Ha _ _ _ T1 E2) as (T2 & Hb & c2 & C2 & S2). split_and!; [done|done|].
  exists (c1 ++ c2). rewrite C2, C1, app_assoc. split; [done|]. by eapply step_trans.
Qed.

Lemma tells_if {A} (b : bool) (m n : M world A) Q : tells m Q → tells n Q →
  tells (if b then m else n) Q.
Proof. by destruct b. Qed.

Lemma tells_mforeach {A} (f : A → M world unit) l : (∀ x, tells (f x) (λ _, True)) →
  tells (mforeach f l) (λ _, True).
Proof using PreOrder0.
  intros Hf. induction l as [|x l IH]; simpl; [by apply tells_ret|].
  by apply (tells_bind (λ _, True)).
Qed.

(** *** The lists and the objects *)

(** A change of the lists, or the removal of objects. *)
Lemma tells_modify f : (∀ w, core (f w) = core w) → (∀ w, next_obj (f w) = next_obj w) →
  (∀ w, wire (f w) = wire w) → (∀ w, tas (f w) ⊆ tas w) → (∀ w, pconns (f w) ⊆ pconns w) →
  tells (modify f) (λ _, True).
Proof using PreOrder0.
  intros E1 E2 E3 Ht Hc. apply tells_quiet. intros w [] w' T [= <-].
  assert (Ht' : ∀ t ta, tas (f w) !! t = Some ta → tas w !! t = Some ta)
    by (intros t ta Hta; by eapply lookup_weaken).
  assert (Hc' : ∀ l c, pconns (f w) !! l = Some c → pconns w !! l = Some c)
    by (intros l c Hl; by eapply lookup_weaken).
  split_and!; [|done|by rewrite E1|].
  - split; rewrite ?E1, ?E2; [|intros t ta Hta%Ht'; by eapply Td_tas|apply T].
    intros l c Hl%Hc'. by apply (Td_conns _ T) in Hl.
  - apply step_quiet; rewrite ?E1, ?E2, ?E3; [done|done|eauto|done|].
    intros l c Hl%Hc'. by apply old_start.
Qed.

Lemma tells_load_pconn l : tells (load_pconn l) (λ _, True).
Proof using PreOrder0.
  apply tells_same. intros w a w' _ E. unfold load_pconn in E. destruct (pconns w !! l); by simplify_eq.
Qed.

Lemma load_pconn_Ok l w a w' : load_pconn l w = Ok (a, w') → w' = w ∧ pconns w !! l = Some a.
Proof. unfold load_pconn. destruct (pconns w !! l); [by intros [= -> ->]|done]. Qed.

(** Putting a connection that tells nothing new. *)
Lemma put_quiet w l c c' : tidy w → pconns w !! l = Some c → sock c' = sock c →
  out_queue c' = out_queue c → R (sub_tas c) (sub_tas c') → NoDup (amap_keys (sub_tas c')) →
  tidy (set_pconns <[l := c']> w) ∧ step [] w (set_pconns <[l := c']> w).
Proof using PreOrder0.
  intros T Hc Es Eq HR Hn. destruct (Td_conns _ T _ _ Hc). split.
  - split; [|apply T|apply T]. simpl. intros l' x [[<- <-]|[_ Hx]]%lookup_insert_Some; [done|].
    by apply (Td_conns _ T) in Hx.
  - apply step_quiet; [done|done|simpl; eauto|done|].
    simpl. intros l' x [[<- <-]|[_ Hx]]%lookup_insert_Some; [by eapply Old|by apply old_start].
Qed.

Lemma tells_update l f : (∀ c, sock (f c) = sock c) → (∀ c, out_queue (f c) = out_queue c) →
  (∀ c, sub_tas (f c) = sub_tas c) → tells (update_pconn l f) (λ _, True).
Proof using PreOrder0.
  intros E1 E2 E3. apply tells_quiet.
  intros w [] w' T (c & w1 & [-> Hc]%load_pconn_Ok & [= <-])%M_bind_Ok.
  destruct (put_quiet w l c (f c) T Hc (E1 c) (E2 c)) as [T' S]; rewrite ?E3; [done| |].
  - by destruct (Td_conns _ T _ _ Hc).
  - done.
Qed.


(** *** Transactions *)

Lemma load_ta_Ok l w a w' : load_ta l w = Ok (a, w') → w' = w ∧ tas w !! l = Some a.
Proof. unfold load_ta. destruct (tas w !! l); [by intros [= -> ->]|done]. Qed.

Lemma tells_with_ta {A} l (f : proto_ta → outcome A) : tells (with_ta l f) (λ _, True).
Proof using PreOrder0.
  apply (tells_bind (λ _, True)); [|intros; apply tells_lift]. apply tells_same.
  intros w a w' _ E. by apply load_ta_Ok in E as [-> _].
Qed.

(** [on_ta], taken apart. *)
Lemma on_ta_Ok {A} l (f : proto_ta → outcome (A * proto_ta)) w a w' : on_ta l f w = Ok (a, w') →
  ∃ ta ta', tas w !! l = Some ta ∧ f ta = Ok (a, ta') ∧ w' = set_tas <[l := ta']> w.
Proof.
  intros (ta & w1 & [-> Hta]%load_ta_Ok & E)%M_bind_Ok.
  apply M_bind_Ok in E as ([b ta'] & w2 & E1 & E2). unfold lift in E1.
  destruct (f ta) as [x|] eqn:Ef; [|done]. injection E1 as -> <-. injection E2 as <- <-. eauto.
Qed.

Lemma put_ta w l ta ta' : tidy w → tas w !! l = Some ta → ta_ident ta' = ta_ident ta →
  tidy (set_tas <[l := ta']> w) ∧ step [] w (set_tas <[l := ta']> w).
Proof using PreOrder0.
  intros T Hta E. assert (Ei : ta_id ta' = ta_id ta) by (by injection E). split.
  - split; [apply T| |apply T]. simpl. intros t x [[<- <-]|[_ Hx]]%lookup_insert_Some.
    + destruct (Td_tas _ T _ _ Hta) as [Hl Hs]. split; [done|]. by eapply ta_sound_ident.
    + by eapply Td_tas.
  - apply step_quiet; [done|done| |done|simpl; intros; by apply old_start].
    simpl. intros t x [[<- <-]|[_ Hx]]%lookup_insert_Some; eauto.
Qed.

Lemma tells_on_ta {A} l (f : proto_ta → outcome (A * proto_ta)) (Q : A → Prop) :
  (∀ ta a ta', f ta = Ok (a, ta') → ta_ident ta' = ta_ident ta ∧ Q a) → tells (on_ta l f) Q.
Proof using PreOrder0.
  intros Hf. apply tells_quiet. intros w a w' T (ta & ta' & Hta & E & ->)%on_ta_Ok.
  destruct (Hf _ _ _ E) as [Ei Ha]. destruct (put_ta w l ta ta' T Hta Ei). done.
Qed.

(** The responses keep the identifier and the type. *)
Lemma accept_id t ap m t' : proto_ta_accept (json_t := json_t) t ap = Ok (m, t') → ta_ident t' = ta_ident t.
Proof.
  by intros (? & _ & (? & _ & (? & _ & [= _ <-])%outcome_bind_Ok)%outcome_bind_Ok)%outcome_bind_Ok.
Qed.

Lemma notify_id t ap m t' : proto_ta_notify (json_t := json_t) t ap = Ok (m, t') → t' = t.
Proof.
  by intros (? & _ & (? & _ & (? & _ & [= _ <-])%outcome_bind_Ok)%outcome_bind_Ok)%outcome_bind_Ok.
Qed.

Lemma complete_id t ap m t' : proto_ta_complete (json_t := json_t) t ap = Ok (m, t') →
  ta_ident t' = ta_ident t.
Proof.
  by intros (? & _ & (? & _ & (? & _ & [= _ <-])%outcome_bind_Ok)%outcome_bind_Ok)%outcome_bind_Ok.
Qed.

Lemma fail_id t ap m t' : proto_ta_fail (json_t := json_t) t ap = Ok (m, t') → ta_ident t' = ta_ident t.
Proof. by intros (? & _ & (? & _ & [= _ <-])%outcome_bind_Ok)%outcome_bind_Ok. Qed.

Lemma tells_accept l : tells (ta_accept (json_t := json_t) l []) reply_made.
Proof using PreOrder0.
  apply tells_on_ta. intros ta m ta' E. split; [by eapply accept_id|]. exists ta, ta', []. eauto.
Qed.

Lemma tells_notify l ap : (∀ mt, head ap ≠ Some (Some (FMatchType mt))) →
  tells (ta_notify (json_t := json_t) l ap) reply_made.
Proof using PreOrder0.
  intros Ha. apply tells_on_ta. intros ta m ta' E. split; [by apply notify_id in E as ->|].
  exists ta, ta', ap. eauto.
Qed.

Lemma tells_complete l ap : (∀ mt, head ap ≠ Some (Some (FMatchType mt))) →
  tells (ta_complete (json_t := json_t) l ap) reply_made.
Proof using PreOrder0.
  intros Ha. apply tells_on_ta. intros ta m ta' E. split; [by eapply complete_id|].
  exists ta, ta', ap. eauto.
Qed.

Lemma tells_fail l reason : tells (ta_fail (json_t := json_t) l reason) reply_made.
Proof using PreOrder0.
  apply tells_on_ta. intros ta m ta' E. split; [by eapply fail_id|].
  exists ta, ta', [Some (FStr reason)]. eauto.
Qed.

(** *** Queues *)

(** A message that is queued; it tells of a call, or is a reply. *)
Lemma put_message w l c m o : tidy w → pconns w !! l = Some c → made (m, o) →
  (∀ n, o = Some n → (n_report n).1.1.1.2 = Z.pos l ∧ fit w c n) →
  step (reports_in [(m, o)]) w (set_pconns <[l := with_out_queue (msg_queue_push (out_queue c) m) c]> w).
Proof using PreOrder0.
  intros T Hc Hm Ho. destruct (Td_conns _ T _ _ Hc) as [Hl _]. split; [done|done|simpl; eauto| |].
  { destruct o as [n|]; [|constructor]. destruct (Ho n eq_refl) as [E _].
    constructor; [by exists l|constructor]. }
  exists []. rewrite app_nil_r. split; [done|]. split; [constructor|]. simpl.
  intros conn x [[<- <-]|[Hne Hx]]%lookup_insert_Some.
  - exists (out_queue c), [], [(m, o)]. split_and!; [by eapply Old|done|done| |by constructor| |done].
    + destruct o as [n|]; [|done]. destruct (Ho n eq_refl) as [E _]. simpl.
      unfold reports_for. by rewrite filter_cons_True.
    + destruct o as [n|]; simpl; [|constructor]. constructor; [|constructor].
      destruct (Ho n eq_refl) as [_ F]. split; apply F.
  - exists (out_queue x), [], []. rewrite app_nil_r.
    split_and!; [by apply old_start|done|done| |constructor|constructor|done].
    destruct o as [n|]; [|done]. destruct (Ho n eq_refl) as [E _]. simpl.
    unfold reports_for. rewrite filter_cons_False; [done|]. rewrite E. congruence.
Qed.

Lemma queue_Ok l m w a w' : queue_response l m w = Ok (a, w') → ∃ c, pconns w !! l = Some c ∧
  await_update l (set_pconns <[l := with_out_queue (msg_queue_push (out_queue c) m) c]> w) = Ok (a, w').
Proof.
  intros (b & w1 & (c & w2 & [-> Hc]%load_pconn_Ok & [= <- <-])%M_bind_Ok & E)%M_bind_Ok. eauto.
Qed.

Lemma tells_await l : tells (await_update l) (λ _, True).
Proof using PreOrder0. by apply tells_update. Qed.

Lemma queue_told l m o w a w' : tidy w → queue_response l m w = Ok (a, w') → made (m, o) →
  (∀ n c, o = Some n → pconns w !! l = Some c → (n_report n).1.1.1.2 = Z.pos l ∧ fit w c n) →
  tidy w' ∧ core w' = core w ∧ step (reports_in [(m, o)]) w w'.
Proof using PreOrder0.
  intros T (c & Hc & E)%queue_Ok Hm Ho.
  pose proof (put_message w l c m o T Hc Hm (λ n En, Ho n c En Hc)) as S. destruct (Td_conns _ T _ _ Hc).
  assert (T1 : tidy (set_pconns <[l := with_out_queue (msg_queue_push (out_queue c) m) c]> w)).
  { split; [|apply T|apply T]. simpl. intros l' x [[<- <-]|[_ Hx]]%lookup_insert_Some; [done|].
    by apply (Td_conns _ T) in Hx. }
  apply M_bind_Ok in E as (c1 & w1 & [-> Hc1]%load_pconn_Ok & [= <- <-]).
  destruct (put_quiet _ l c1 (with_awaited (await_condition c1) c1) T1 Hc1) as [T2 S2]; try done.
  { by destruct (Td_conns _ T1 _ _ Hc1). }
  split_and!; [done|done|]. rewrite <-(app_nil_r (reports_in _)). by eapply step_trans.
Qed.

Lemma tells_queue l m : reply_made m → tells (queue_response l m) (λ _, True).
Proof using PreOrder0.
  intros Hm. apply tells_quiet. intros w a w' T E.
  destruct (queue_told l m None w a w' T E) as (T' & Ec & S); [done|done|].
  split_and!; [done|done|by rewrite Ec|done].
Qed.

(** *** The core *)

Lemma in_core_Ok {A} (op : M state A) w a w' : in_core op w = Ok (a, w') →
  ∃ st', op (core w) = Ok (a, st') ∧ w' = set_core st' w.
Proof. unfold in_core. destruct (op (core w)) as [[b st']|]; [intros [= -> <-]; eauto|done]. Qed.

Lemma tells_reads {A} (op : M state A) : (∀ st a st', op st = Ok (a, st') → st' = st) →
  tells (in_core op) (λ _, True).
Proof using PreOrder0.
  intros H. apply tells_same. intros w a w' _ (st' & ->%H & ->)%in_core_Ok. by destruct w.
Qed.

Lemma load_reads {T} `{!Obj T} l st (x : T) st' : load l st = Ok (x, st') → st' = st.
Proof. unfold load. destruct (heap st !! l); [by intros [= _ ->]|done]. Qed.

Lemma read_reads {T A} `{!Obj T} l (f : T → outcome A) st a st' : read l f st = Ok (a, st') → st' = st.
Proof.
  intros (x & st1 & ->%load_reads & E)%M_bind_Ok. unfold lift in E. destruct (f x); [by injection E|done].
Qed.

Lemma step_core w st' : grown (core w) st' → step [] w (set_core st' w).
Proof using PreOrder0. intros G. apply step_quiet; [done|done|simpl; eauto|done|intros; by apply old_start]. Qed.

Lemma tidy_core w st' : tidy w → grown (core w) st' → tidy (set_core st' w).
Proof. intros T G. split; [apply T|apply T|]. by eapply grown_bounded, T. Qed.

Lemma tells_ftime : tells (in_core ut_ftime) (λ _, True).
Proof using PreOrder0.
  apply tells_quiet. intros w a w' T (st' & E & ->)%in_core_Ok.
  pose proof (grows_ftime _ _ _ E) as G. injection E as _ <-.
  split_and!; [by apply tidy_core|done|done|by apply step_core].
Qed.

Lemma lift_Ok {S A} (o : outcome A) (w : S) a w' : lift o w = Ok (a, w') → w' = w ∧ o = Ok a.
Proof. unfold lift. destruct o; [by intros [= -> ->]|done]. Qed.

(** The response of [notify_sub_match]. *)
Lemma match_response mt srv (kept : option loc) w m w1 :
  (if decide (mt = sub_match_type_disappeared) then
     ta ← lift (deref kept);
     ta_notify (json_t := json_t) ta [Some (FMatchType mt); Some (FUint63 (service_id srv));
                                      None; None; None; None; None]
   else
     generation ← lift (service_get_generation srv);
     p ← lift (service_get_props srv);
     ttl ← lift (service_get_ttl srv);
     client_id ← lift (service_get_client_id srv);
     orphan_since ← lift (orphan_since_arg srv);
     ta ← lift (deref kept);
     ta_notify (json_t := json_t) ta [Some (FMatchType mt); Some (FUint63 (service_id srv));
                                      Some (FUint63 generation); FProps <$> p; Some (FUint63 ttl);
                                      Some (FUint63 client_id); orphan_since]) w = Ok (m, w1) →
  ∃ t ap, kept = Some t ∧ match_args mt srv = Ok ap ∧ ta_notify (json_t := json_t) t ap w = Ok (m, w1).
Proof.
  unfold match_args. destruct (decide _); intros E.
  - apply M_bind_Ok in E as (t & w2 & [-> Hk]%lift_Ok & E). destruct kept; [|done]. simplify_eq/=. eauto.
  - apply M_bind_Ok in E as (g & w2 & [-> ->]%lift_Ok & E).
    apply M_bind_Ok in E as (p & w2 & [-> ->]%lift_Ok & E).
    apply M_bind_Ok in E as (ttl & w2 & [-> ->]%lift_Ok & E).
    apply M_bind_Ok in E as (c & w2 & [-> ->]%lift_Ok & E).
    apply M_bind_Ok in E as (o & w2 & [-> ->]%lift_Ok & E).
    apply M_bind_Ok in E as (t & w2 & [-> Hk]%lift_Ok & E). destruct kept; [|done].
    injection Hk as ->. do 2 eexists. split; [done|]. by split.
Qed.

(** The notification of a match, with the transaction that the connection keeps
    for the subscription. *)
Lemma note_told s srv mt l w w' : tidy w →
  notify_sub_match (json_t := json_t) s srv mt l w = Ok (tt, w') →
  tidy w' ∧ core w' = core w ∧ step [(s, Z.pos l, mt, service_id srv, content mt (current srv))] w w'.
Proof using PreOrder0.
  intros T (c & w1 & [-> Hc]%load_pconn_Ok & E)%M_bind_Ok.
  apply M_bind_Ok in E as (i & w1 & (st1 & Er & ->)%in_core_Ok & E).
  apply M_bind_Ok in Er as (x & st2 & Ex & [= <- <-]).
  assert (subs (core w) !! s = Some x ∧ st2 = core w) as [Hs ->].
  { unfold load in Ex. simpl in Ex. destruct (subs (core w) !! s); [by injection Ex as -> ->|done]. }
  assert (Ew : set_core (core w) w = w) by (by destruct w). rewrite Ew in E. clear Ew.
  apply M_bind_Ok in E as (m & w1 & (t & ap & Ek & Eap & E)%match_response & Eq).
  apply on_ta_Ok in E as (ta & ta' & Hta & Em & ->).
  pose proof Em as Eta. apply notify_id in Eta as ->.
  destruct (put_ta w t ta ta T Hta eq_refl) as [T1 S1].
  destruct (queue_told l m (Some (Notice (s, Z.pos l, mt, service_id srv, content mt (current srv)) t (ta_id ta))) _ tt w' T1 Eq)
    as (T2 & E2 & S2).
  - exists srv, ap, ta, ta. split_and!; try done. by apply (Td_tas _ T _ _ Hta).
  - intros n c' [= <-]. simpl. rewrite Hc. intros [= <-]. split; [done|]. split; simpl.
    + by apply (Td_tas _ T _ _ Hta).
    + intros ta'. rewrite lookup_insert_eq. by intros [= <-].
    + by eapply Td_subs.
    + intros s' Hs'. assert (s' = x) as -> by (unfold n_sub in Hs'; simpl in Hs'; congruence).
      by exists (sub_tas c).
  - split_and!; [done|by rewrite E2|]. by eapply (step_trans []).
Qed.

Lemma deliver_told o w w' : tidy w → deliver (json_t := json_t) o w = Ok (tt, w') →
  tidy w' ∧ core w' = core w ∧ step (omap report_of [o]) w w'.
Proof using PreOrder0.
  intros T E. destruct o as [s d mt srv|t tv|t]; simpl in E.
  - destruct d as [|conn|]; [done| |done]. by apply note_told.
  - injection E as <-. split_and!; [done|done|by apply step_refl].
  - injection E as <-. split_and!; [done|done|by apply step_refl].
Qed.

Lemma deliver_all_told os w w' : tidy w → mforeach (deliver (json_t := json_t)) os w = Ok (tt, w') →
  tidy w' ∧ core w' = core w ∧ step (omap report_of os) w w'.
Proof using PreOrder0.
  revert w. induction os as [|o os IH]; intros w T E.
  - injection E as <-. split_and!; [done|done|by apply step_refl].
  - apply M_bind_Ok in E as ([] & w1 & E1 & E2). apply deliver_told in E1 as (T1 & C1 & S1); [|done].
    apply IH in E2 as (T2 & C2 & S2); [|done]. split_and!; [done|by rewrite C2|].
    change (o :: os) with ([o] ++ os). rewrite omap_app. by eapply step_trans.
Qed.

Lemma tells_sd_call {A} (op : M state A) : grows op → tells (sd_call (json_t := json_t) op) (λ _, True).
Proof using PreOrder0.
  intros G w a w' T E. unfold sd_call in E. destruct (op (core w)) as [[b st']|] eqn:Eop; [|done].
  apply G in Eop. pose proof (Gr_outputs _ _ Eop) as (os & Eo & _). rewrite Eo, drop_app_length in E.
  apply M_bind_Ok in E as ([] & w1 & E & [= _ <-]).
  apply deliver_all_told in E as (T1 & C1 & S1); [|by apply tidy_core].
  split_and!; [done|done|]. exists (omap report_of os). rewrite C1. simpl.
  unfold reports. rewrite Eo, omap_app. split; [done|]. eapply (step_trans []); [|exact S1].
  by apply step_core.
Qed.

(** *** New objects *)

Lemma tells_accept_conn s : (∀ x, s = Some x → x ∈ fresh) → tells (accept_cb s) (λ _, True).
Proof using PreOrder0.
  intros Hfr. destruct s as [s|]; [|by apply tells_ret]. specialize (Hfr s eq_refl). apply (tells_bind (λ _, True)).
  2: { intros a _. by apply tells_modify. }
  apply (tells_bind (λ _, True)); [apply tells_ftime|]. intros now _. apply tells_quiet.
  intros w a w' T [= <- <-]. split_and!; [|done|done|].
  - split; simpl; [| |apply T].
    + intros l c [[<- <-]|[_ Hc]]%lookup_insert_Some; [split; [lia|constructor]|].
      destruct (Td_conns _ T _ _ Hc). split; [lia|done].
    + intros t ta Hta. destruct (Td_tas _ T _ _ Hta). split; [lia|done].
  - apply step_quiet; simpl; [lia|done|eauto|done|].
    intros l c [[<- <-]|[_ Hc]]%lookup_insert_Some; [by apply New|by apply old_start].
Qed.

(** A transaction for a request. *)
Lemma tells_new_ta `{!JanssonLaws json_t} m : tells (ta ← alloc_ta proto_ta_create;
  rc ← on_ta ta (λ t, proto_ta_req (json_t := json_t) t m); mret (ta, rc)) (λ _, True).
Proof using PreOrder0.
  apply tells_quiet. intros w a w' T (l & w1 & [= <- <-] & E)%M_bind_Ok.
  apply M_bind_Ok in E as (rc & w1 & (ta & ta' & Hta & Er & ->)%on_ta_Ok & [= _ <-]).
  simpl in Hta. rewrite lookup_insert_eq in Hta. injection Hta as <-.
  split_and!; [|done|done|].
  - split; simpl; [| |apply T].
    + intros l c Hc. destruct (Td_conns _ T _ _ Hc). split; [lia|done].
    + intros t x [[<- <-]|[_ [[<- <-]|[_ Hx]]%lookup_insert_Some]]%lookup_insert_Some.
      * split; [lia|]. eapply (proto_ta_req_sound m proto_ta_create); [by intros ty|exact Er].
      * split; [lia|by intros ty].
      * destruct (Td_tas _ T _ _ Hx). split; [lia|done].
  - apply step_quiet; simpl; [lia|done| |done|intros; by apply old_start].
    intros t x. rewrite !lookup_insert_Some. intros [[<- _]|[_ [[<- _]|[_ Hx]]]] Hlt; [lia|lia|eauto].
Qed.
End steps.
End out.

(** ** The handlers *)

(** The relation allows subscriptions to be added, or taken away. *)
Definition adds (R : amap loc → amap loc → Prop) : Prop :=
  ∀ m i t m', amap_add m i t = Ok m' → R m m'.
Definition dels (R : amap loc → amap loc → Prop) : Prop :=
  ∀ m i m', NoDup (amap_keys m) → amap_del m i = Ok m' → R m m'.

(** What the triple asks of a message, or two of them, that a part of a handler
    returns. *)
Definition replies_made {json_t} `{!Jansson json_t} (x : msg * option msg) : Prop :=
  reply_made (json_t := json_t) x.1 ∧ ∀ m, x.2 = Some m → reply_made (json_t := json_t) m.

Lemma replies_one {json_t} `{!Jansson json_t} m : reply_made (json_t := json_t) m →
  replies_made (json_t := json_t) (m, None).
Proof. intros H. by split. Qed.
Lemma replies_two {json_t} `{!Jansson json_t} m n : reply_made (json_t := json_t) m →
  reply_made (json_t := json_t) n → replies_made (json_t := json_t) (m, Some n).
Proof. intros Hm Hn. split; [done|]. by intros ? [= <-]. Qed.
Lemma replies_fst {json_t} `{!Jansson json_t} m o : replies_made (json_t := json_t) (m, o) →
  reply_made (json_t := json_t) m.
Proof. by intros [H _]. Qed.
Lemma replies_snd {json_t} `{!Jansson json_t} m n : replies_made (json_t := json_t) (m, Some n) →
  reply_made (json_t := json_t) n.
Proof. intros [_ H]. by apply H. Qed.
#[export] Hint Resolve replies_one replies_two replies_fst replies_snd : tells.

Ltac tells_step :=
  lazymatch goal with
  | |- ∀ _, _ => intros ?
  | |- tells _ _ _ (@mbind _ _ msg _ _ _) _ => apply (tells_bind _ _ _ (reply_made (json_t := _)))
  | |- tells _ _ _ (@mbind _ _ (msg * option msg) _ _ _) _ => apply (tells_bind _ _ _ (replies_made (json_t := _)))
  | |- tells _ _ _ (_ ≫= _) _ => apply (tells_bind _ _ _ (λ _, True))
  | |- tells _ _ _ (if ?b then _ else _) _ => first [apply tells_if|destruct b]
  | |- tells _ _ _ (match ?x with _ => _ end) _ => destruct x
  end.
Ltac tell := repeat first [by eauto 2 with tells nocore | tells_step].

#[export] Hint Extern 1 (tells _ _ _ (lift _) _) => apply tells_lift; exact _ : tells.
#[export] Hint Extern 1 (tells _ _ _ (gets _) _) => apply tells_gets; exact _ : tells.
#[export] Hint Extern 1 (tells _ _ _ (load_pconn _) _) => apply tells_load_pconn; exact _ : tells.
#[export] Hint Extern 1 (tells _ _ _ (fault_with _) _) => apply tells_fault; exact _ : tells.
#[export] Hint Extern 1 (tells _ _ _ (in_core ut_ftime) _) => apply tells_ftime; exact _ : tells.
#[export] Hint Extern 1 (tells _ _ _ (ta_accept _ _) _) => apply tells_accept; exact _ : tells.
#[export] Hint Extern 1 (tells _ _ _ (ta_fail _ _) _) => apply tells_fail; exact _ : tells.
#[export] Hint Extern 1 (tells _ _ _ (await_update _) _) => apply tells_await; exact _ : tells.
#[export] Hint Extern 1 (tells _ _ _ (with_ta _ _) _) => apply tells_with_ta; exact _ : tells.
#[export] Hint Extern 1 (tells _ _ _ (mret _) _) => apply tells_ret; first [exact _|exact I|by eauto 2 with tells nocore] : tells.
#[export] Hint Extern 1 (tells _ _ _ (ta_complete _ _) _) => by apply tells_complete : tells.
#[export] Hint Extern 1 (tells _ _ _ (ta_notify _ _) _) => by apply tells_notify : tells.
#[export] Hint Extern 1 (tells _ _ _ (queue_response _ _) _) =>
  apply tells_queue; first [exact _|by eauto 2 with tells nocore] : tells.
#[export] Hint Extern 1 (tells _ _ _ (update_pconn _ _) _) => by apply tells_update : tells.
#[export] Hint Extern 1 (tells _ _ _ (modify _) _) =>
  apply tells_modify; intros; simpl; first [exact _|reflexivity|apply delete_subseteq] : tells.
#[export] Hint Extern 1 (tells _ _ _ (in_core (load _)) _) => apply tells_reads; [exact _|apply load_reads] : tells.
#[export] Hint Extern 1 (tells _ _ _ (in_core (gets _)) _) => apply tells_reads; [exact _|by intros ? ? ? [= _ ->]] : tells.
#[export] Hint Extern 1 (tells _ _ _ (sd_call _) _) => apply tells_sd_call; by eauto 2 with grows nocore : tells.
#[export] Hint Extern 3 (tells _ _ _ (mforeach _ _) _) => apply tells_mforeach; tell : tells.

Section handlers.
Context {json_t : Type} `{!Jansson json_t}.
Context (R : amap loc → amap loc → Prop) `{!PreOrder R} (sender : option loc) (fresh : list Z).
Context (xcm_remote_addr : Z → option cstr).
Abbreviation tells m := (tells (json_t := json_t) R sender fresh m (λ _, True)).

Lemma tells_destroy_ta l : tells (destroy_ta l).
Proof using PreOrder0. unfold destroy_ta. tell. Qed.

Lemma tells_clientless_del conn : tells (clientless_del conn).
Proof using PreOrder0.
  intros w a w' T E. unfold clientless_del in E.
  destruct (list_del_first conn (clientless_conns w)) as [l|]; [|done]. injection E as <- <-.
  assert (H : tells (modify (set_clientless_conns (λ _, l)))) by tell. by apply (H w tt).
Qed.

Lemma tells_client_conns_del conn : tells (client_conns_del conn).
Proof using PreOrder0.
  intros w a w' T E. unfold client_conns_del in E.
  destruct (list_del_first conn (ProtoConn.client_conns w)) as [l|]; [|done]. injection E as <- <-.
  assert (H : tells (modify (set_client_conns (λ _, l)))) by tell. by apply (H w tt).
Qed.
End handlers.

#[export] Hint Extern 1 (tells _ _ _ (destroy_ta _) _) => apply tells_destroy_ta; exact _ : tells.
#[export] Hint Extern 1 (tells _ _ _ (clientless_del _) _) => apply tells_clientless_del; exact _ : tells.
#[export] Hint Extern 1 (tells _ _ _ (client_conns_del _) _) => apply tells_client_conns_del; exact _ : tells.

Section requests.
Context {json_t : Type} `{!Jansson json_t, !JanssonLaws json_t}.
Context (R : amap loc → amap loc → Prop) `{!PreOrder R} (sender : option loc) (fresh : list Z).
Context (xcm_remote_addr : Z → option cstr).
Abbreviation tells m := (tells (json_t := json_t) R sender fresh m (λ _, True)).

Lemma tells_conn_handshake_cb conn : tells (conn_handshake_cb conn).
Proof using PreOrder0. unfold conn_handshake_cb. tell. Qed.
Hint Extern 1 (ServerOut.tells _ _ _ (conn_handshake_cb _) _) => apply tells_conn_handshake_cb; exact _ : tells.

Lemma tells_proto_conn_destroy conn : tells (proto_conn_destroy conn).
Proof using PreOrder0. unfold proto_conn_destroy, free_pconn. tell. Qed.
Hint Extern 1 (ServerOut.tells _ _ _ (proto_conn_destroy _) _) => apply tells_proto_conn_destroy; exact _ : tells.

Lemma tells_conn_term_cb conn : tells (conn_term_cb conn).
Proof using PreOrder0. unfold conn_term_cb. tell. Qed.
Hint Extern 1 (ServerOut.tells _ _ _ (conn_term_cb _) _) => apply tells_conn_term_cb; exact _ : tells.

Lemma tells_term conn : tells (term (json_t := json_t) conn_term_cb conn).
Proof using PreOrder0. unfold term. tell. Qed.

(** *** Requests that leave the subscriptions of their connection *)

Lemma tells_hello conn ta :
  tells (handle_hello (json_t := json_t) xcm_remote_addr conn_handshake_cb conn ta).
Proof using PreOrder0. unfold handle_hello. tell. Qed.

Lemma tells_no_hello conn ta : tells (handle_no_hello (json_t := json_t) conn ta).
Proof using PreOrder0. unfold handle_no_hello. tell. Qed.

Lemma tells_publish conn ta : tells (handle_publish (json_t := json_t) conn ta).
Proof using PreOrder0. unfold handle_publish. tell. Qed.

Lemma tells_unpublish conn ta : tells (handle_unpublish (json_t := json_t) conn ta).
Proof using PreOrder0. unfold handle_unpublish. tell. Qed.

Lemma tells_ping conn ta : tells (handle_ping (json_t := json_t) conn ta).
Proof using PreOrder0. unfold handle_ping. tell. Qed.

Lemma tells_forward filter cb id srv : tells (cb id srv) →
  tells (forward_if_matches (@in_core) filter cb id srv).
Proof using PreOrder0.
  intros Hcb. unfold forward_if_matches. apply (tells_bind _ _ _ (λ _, True)); [|tell].
  apply tells_reads; [exact _|]. intros st a st' E. destruct filter as [f|]; [|by injection E].
  apply M_bind_Ok in E as (p & st1 & ->%read_reads & E). apply M_bind_Ok in E as (x & st1 & [-> _]%lift_Ok & E).
  by apply lift_Ok in E as [-> _].
Qed.
Hint Extern 1 (ServerOut.tells _ _ _ (forward_if_matches _ _ _ _ _) _) => apply tells_forward; tell : tells.

Lemma tells_services conn ta : tells (handle_services (json_t := json_t) conn ta).
Proof using PreOrder0.
  unfold handle_services, sd_foreach_service, service_notify_cb. tell.
Qed.

Lemma tells_subscriptions conn ta : tells (handle_subscriptions (json_t := json_t) conn ta).
Proof using PreOrder0. unfold handle_subscriptions, sd_foreach_sub, sub_notify_cb. tell. Qed.

Lemma tells_clients conn ta : tells (handle_clients (json_t := json_t) conn ta).
Proof using PreOrder0. unfold handle_clients, sd_foreach_client, client_notify_cb. tell. Qed.

(** *** Subscriptions *)

Lemma tells_map_set (f : amap loc → outcome (amap loc)) conn :
  (∀ m m', NoDup (amap_keys m) → f m = Ok m' → R m m' ∧ NoDup (amap_keys m')) →
  tells (c ← load_pconn conn; m ← lift (f (sub_tas c)); update_pconn conn (with_sub_tas m)).
Proof using PreOrder0.
  intros Hf. apply tells_quiet. intros w [] w' T (c & w1 & [-> Hc]%load_pconn_Ok & E)%M_bind_Ok.
  apply M_bind_Ok in E as (m & w1 & [-> Em]%lift_Ok & E).
  apply M_bind_Ok in E as (c1 & w1 & [-> Hc1]%load_pconn_Ok & [= <-]). assert (c1 = c) as -> by congruence.
  destruct (Td_conns _ T _ _ Hc) as [_ Hn]. destruct (Hf _ _ Hn Em) as [HR Hn'].
  destruct (put_quiet R sender fresh w conn c (with_sub_tas m c) T Hc) as [T' S]; done.
Qed.

Lemma tells_map_add conn i t : adds R → tells (proto_ta_map_add conn i t).
Proof using PreOrder0.
  intros HR. apply (tells_map_set (λ m, amap_add m i t)). intros m m' Hn Em. split; [by eapply HR|].
  apply amap_add_Ok in Em as [Hi ->]. by apply amap_add_nodup.
Qed.

Lemma tells_map_del conn i : dels R → tells (proto_ta_map_del conn i).
Proof using PreOrder0.
  intros HR. apply (tells_map_set (λ m, amap_del m i)). intros m m' Hn Em. split; [by eapply HR|].
  apply amap_del_Ok in Em as ->. by apply amap_remove_nodup.
Qed.

Lemma tells_subscribe conn ta : adds R → tells (handle_subscribe (json_t := json_t) conn ta).
Proof using PreOrder0. intros HR. pose proof tells_map_add. unfold handle_subscribe. tell. Qed.

Lemma tells_unsubscribe conn ta : dels R → tells (handle_unsubscribe (json_t := json_t) conn ta).
Proof using PreOrder0.
  intros HR. pose proof tells_map_del. unfold handle_unsubscribe. tell.
Qed.

(** *** All requests *)

Definition is_cmd (s cmd : cstr) : Prop := strcmp cmd s = 0%Z.

Lemma tells_dispatch cmd conn ta : (is_cmd PROTO_CMD_SUBSCRIBE cmd → adds R) →
  (is_cmd PROTO_CMD_UNSUBSCRIBE cmd → dels R) → tells (dispatch (json_t := json_t) cmd conn ta).
Proof using PreOrder0.
  intros Ha Hd. unfold dispatch.
  case_bool_decide; [by apply tells_subscribe, Ha|].
  case_bool_decide; [by apply tells_unsubscribe, Hd|].
  case_bool_decide; [apply tells_publish|]. case_bool_decide; [apply tells_unpublish|].
  case_bool_decide; [apply tells_ping|]. case_bool_decide; [apply tells_services|].
  case_bool_decide; [apply tells_subscriptions|]. case_bool_decide; [apply tells_clients|].
  apply tells_fault.
Qed.

(** The command of a request. *)
Definition request_cmd (m : msg) : option cstr :=
  match proto_ta_req (json_t := json_t) proto_ta_create m with
  | Ok (rc, t) => if bool_decide (rc < 0)%Z then None else proto_ta_get_cmd t
  | Fail _ => None
  end.

(** The relation suits the command. *)
Definition suits (m : msg) : Prop := ∀ cmd, request_cmd m = Some cmd →
  (is_cmd PROTO_CMD_SUBSCRIBE cmd → adds R) ∧ (is_cmd PROTO_CMD_UNSUBSCRIBE cmd → dels R).

Lemma tells_handled conn ta cmd : (is_cmd PROTO_CMD_SUBSCRIBE cmd → adds R) →
  (is_cmd PROTO_CMD_UNSUBSCRIBE cmd → dels R) →
  tells (_ ← (if bool_decide (strcmp cmd PROTO_CMD_HELLO = 0)%Z then
                handle_hello (json_t := json_t) xcm_remote_addr conn_handshake_cb conn ta
              else
                c ← load_pconn conn;
                if negb (has_finished_handshake c) then handle_no_hello (json_t := json_t) conn ta
                else dispatch (json_t := json_t) cmd conn ta);
         has_term ← with_ta ta (λ t, Ok (proto_ta_has_term t));
         _ ← (if (has_term : bool) then destroy_ta ta else mret tt);
         mret 0%Z).
Proof using PreOrder0.
  intros Ha Hd. apply (tells_bind _ _ _ (λ _, True)); [|intros; tell].
  apply tells_if; [apply tells_hello|]. apply (tells_bind _ _ _ (λ _, True)); [tell|]. intros c _.
  apply tells_if; [apply tells_no_hello|by apply tells_dispatch].
Qed.

Lemma tells_handle_req conn m : suits m →
  tells (handle_req (json_t := json_t) xcm_remote_addr conn_handshake_cb conn m).
Proof using JanssonLaws0 PreOrder0.
  intros Hm w a w' T E. apply M_bind_Ok in E as (ta & w1 & E1 & E).
  apply M_bind_Ok in E as (rc & w2 & E2 & E).
  destruct (tells_new_ta R sender fresh m w (ta, rc) w2 T) as (T2 & _ & c2 & C2 & S2).
  { unfold mbind, M_bind. rewrite E1. cbn beta iota. rewrite E2. done. }
  pose proof E2 as (t & t' & Ht & Er & ->)%on_ta_Ok. injection E1 as <- <-.
  simpl in Ht. rewrite lookup_insert_eq in Ht. injection Ht as <-.
  set (w2 := set_tas _ _) in *.
  assert (Hgo : ∀ m', tells m' → m' w2 = Ok (a, w') →
    tidy w' ∧ True ∧ ∃ calls, reports (core w') = reports (core w) ++ calls ∧
      step (json_t := json_t) R sender fresh calls w w').
  { intros m' Hm' E'. destruct (Hm' w2 a w' T2 E') as (T' & _ & c3 & C3 & S3).
    split_and!; [done|done|]. exists (c2 ++ c3). rewrite C3, C2, app_assoc. split; [done|].
    by eapply step_trans. }
  destruct (bool_decide (rc < 0)%Z) eqn:Erc.
  - eapply Hgo; [|exact E]. tell.
  - apply M_bind_Ok in E as (cmd & w3 & (t & w4 & [-> Ht]%load_ta_Ok & Ec)%M_bind_Ok & E).
    apply lift_Ok in Ec as [-> Ec]. simpl in Ht. rewrite lookup_insert_eq in Ht. injection Ht as <-.
    assert (Hc : request_cmd m = Some cmd).
    { unfold request_cmd. rewrite Er, Erc. destruct (proto_ta_get_cmd t'); [by injection Ec as ->|done]. }
    destruct (Hm _ Hc) as [Ha Hd]. eapply Hgo; [by apply (tells_handled conn (next_obj w) cmd)|exact E].
Qed.

Definition suits_received (r : received) : Prop :=
  match r with
  | Received data => suits (msg_create data (length data))
  | ReceiveError _ => True
  end.

Lemma tells_try_receive conn r : suits_received r →
  tells (try_receive (json_t := json_t) xcm_remote_addr conn_handshake_cb conn_term_cb conn r).
Proof using JanssonLaws0 PreOrder0.
  intros Hr. pose proof tells_term. pose proof tells_handle_req. unfold try_receive. tell.
Qed.

(** *** Sending *)

Lemma step_sent w conn c m q : sender = Some conn → pconns w !! conn = Some c → out_queue c = m :: q →
  step (json_t := json_t) R sender fresh [] w
    (set_pconns <[conn := with_out_queue q c]> (set_wire (λ ms, ms ++ [(sock c, m)]) w)).
Proof using JanssonLaws0 PreOrder0.
  intros Es Hc Hq. split; [done|done|simpl; eauto|constructor|]. exists [(sock c, m)]. split; [done|].
  split; [constructor; [exists conn; split; [done|]; right; by exists c|constructor]|].
  simpl. intros l x [[<- <-]|[Hne Hx]]%lookup_insert_Some.
  - exists (out_queue c), [m], []. rewrite Hq, app_nil_r.
    split_and!; [by eapply Old| |done..|constructor|constructor|done].
    unfold on_sock. by rewrite filter_cons_True.
  - exists (out_queue x), [], []. rewrite app_nil_r.
    split_and!; [by apply old_start|apply sublist_nil_l|done..|constructor|constructor|congruence].
Qed.

Lemma tells_send_loop n conn answers : sender = Some conn →
  tells (send_loop (json_t := json_t) conn_term_cb n conn answers).
Proof using JanssonLaws0 PreOrder0.
  intros Es. pose proof tells_term. revert answers. induction n as [|n IH]; intros answers; simpl; [tell|].
  intros w a w' T E. apply M_bind_Ok in E as (c & w1 & [-> Hc]%load_pconn_Ok & E).
  assert (Hstop : tells (_ ← term (json_t := json_t) conn_term_cb conn; mret (-1)%Z)) by tell.
  assert (H0 : tells (mret 0%Z)) by tell.
  destruct (out_queue c) as [|m q] eqn:Hq; simpl in E; [by eapply H0|].
  destruct answers as [|[|[]] answers]; [by eapply H0| |by eapply H0|by eapply Hstop].
  apply M_bind_Ok in E as ([] & w1 & [= <-] & E).
  apply M_bind_Ok in E as ([] & w1 & (c1 & w2 & [-> Hc1]%load_pconn_Ok & [= <-])%M_bind_Ok & E).
  simpl in Hc1. assert (c1 = c) as -> by congruence. rewrite Hq in E. simpl in E.
  pose proof (step_sent w conn c m q Es Hc Hq) as S. destruct (Td_conns _ T _ _ Hc).
  apply IH in E as (T' & _ & calls & C & S').
  - split_and!; [done|done|]. exists calls. split; [exact C|]. by eapply (step_trans _ _ _ []).
  - split; [|apply T|apply T]. simpl. intros l x [[<- <-]|[_ Hx]]%lookup_insert_Some; [done|].
    by apply (Td_conns _ T) in Hx.
Qed.

(** *** Events *)

Definition suits_event (e : server_event) : Prop :=
  match e with
  | SAccept s => ∀ x, s = Some x → x ∈ fresh
  | SProcess conn r _ => sender = Some conn ∧ suits_received r
  | _ => True
  end.

Lemma tells_expired l : tells (expired_conns l).
Proof using JanssonLaws0 PreOrder0.
  induction l as [|conn l IH]; simpl; [tell|]. unfold consider_disconnect. tell.
Qed.

Lemma tells_event e : suits_event e → tells (run_server_event (json_t := json_t) xcm_remote_addr e).
Proof using JanssonLaws0 PreOrder0.
  destruct e as [s|conn r answers| |t]; simpl; intros He.
  - by apply tells_accept_conn.
  - destruct He as [Es He]. pose proof (λ n answers, tells_send_loop n conn answers Es). pose proof tells_try_receive. unfold conn_process, try_send. tell.
  - pose proof tells_expired. unfold clean_out_cb, do_disconnect. tell.
  - tell.
Qed.
End requests.
