(* ===== verification/ServerInv.v ===== *)
(** * The invariant of the server

    How the state of the connections (src/proto/proto_conn.c), the lists of
    src/proto/server.c and the core fit together between events: each
    subscription of the core belongs to a connection, which keeps the accepted
    transaction of its request, and each transaction in memory is kept by one
    connection, or is being handled; connections that have finished their
    handshake are those of the connected clients. *)

From S2P Require Import Prelude CLib Pvalue Props Filter FilterParse Double Service Sub Amap Heap Client Sd SdWp SdInv SdOps SdRemove SdSubs SdDisconnect SdRun SdOut SdCalls Json ProtoTa ProtoTaSpec ProtoTaResp ProtoTaSafe ProtoConn Server.

(** ** Connections without their queues *)

Record peer := Peer { p_id : Z; p_subs : amap loc; p_term : bool }.

Definition peer_of (c : proto_conn) : peer := Peer (pc_client_id c) (sub_tas c) (pc_term c).

Definition peers (w : world) : gmap loc peer := peer_of <$> pconns w.

Lemma peers_lookup w conn p : peers w !! conn = Some p ↔
  ∃ c, pconns w !! conn = Some c ∧ p = peer_of c.
Proof. unfold peers. rewrite lookup_fmap, fmap_Some. done. Qed.

(** The connection keeps this transaction for the subscription [i]. *)
Definition holds_ta (ps : gmap loc peer) (conn : loc) (i : Z) (t : loc) : Prop :=
  ∃ p, ps !! conn = Some p ∧ amap_get (p_subs p) i = Some t.

Definition ta_subscribed {json_t} `{!Jansson json_t} (ta : proto_ta) : Prop :=
  ∃ rq, ta_ok (json_t := json_t) subscribe_ta proto_ta_state_accepted rq ta.

Section inv.
Context {json_t : Type} `{!Jansson json_t}.

(** The subscriptions of the core and of the connections; [X] is the
    transaction that is being handled. *)
Record links (X : option loc) (sb : gmap loc sub) (ts : gmap loc proto_ta) (ps : gmap loc peer)
    : Prop := {
  L_nodup : ∀ conn p, ps !! conn = Some p → NoDup (amap_keys (p_subs p));
  L_sub : ∀ l s, sb !! l = Some s → ∃ conn p t, match_cb_data s = Z.pos conn ∧
    ps !! conn = Some p ∧ p_id p = sub_client_id s ∧ amap_get (p_subs p) (sub_id s) = Some t;
  L_entry : ∀ conn p i t, ps !! conn = Some p → amap_get (p_subs p) i = Some t →
    ∃ l s, sb !! l = Some s ∧ sub_id s = i ∧ sub_client_id s = p_id p;
  L_ta : ∀ conn i t, holds_ta ps conn i t →
    ∃ ta, ts !! t = Some ta ∧ ta_subscribed (json_t := json_t) ta;
  L_uniq : ∀ conn conn' i i' t, holds_ta ps conn i t → holds_ta ps conn' i' t →
    conn = conn' ∧ i = i';
  L_own : ∀ t ta, ts !! t = Some ta → X = Some t ∨ ∃ conn i, holds_ta ps conn i t;
  L_free : ∀ t conn i, X = Some t → ¬ holds_ta ps conn i t
}.

(** Connections and clients, and the two lists. *)
Record peers_inv (st : state) (ps : gmap loc peer) (cc cl : list loc) : Prop := {
  P_term : ∀ conn p, ps !! conn = Some p → p_term p = false;
  P_connected : ∀ conn p, ps !! conn = Some p → (0 ≤ p_id p)%Z →
    connected st (p_id p) = true ∧ (p_id p ≤ int64_max)%Z;
  P_hello : ∀ conn p, ps !! conn = Some p → (p_id p < 0)%Z → p_subs p = [];
  P_uniq : ∀ conn conn' p p', ps !! conn = Some p → ps !! conn' = Some p' →
    (0 ≤ p_id p)%Z → p_id p = p_id p' → conn = conn';
  P_client : ∀ c, connected st c = true → (0 ≤ c)%Z ∧ ∃ conn p, ps !! conn = Some p ∧ p_id p = c;
  P_cc : NoDup cc;
  P_cl : NoDup cl;
  P_in_cc : ∀ conn, conn ∈ cc ↔ ∃ p, ps !! conn = Some p ∧ (0 ≤ p_id p)%Z;
  P_in_cl : ∀ conn, conn ∈ cl ↔ ∃ p, ps !! conn = Some p ∧ (p_id p < 0)%Z
}.

Record winv (X : option loc) (w : world) : Prop := {
  W_good : good (core w);
  W_fine : fine (props_text (json_t := json_t)) (core w);
  W_links : links X (subs (core w)) (tas w) (peers w);
  W_peers : peers_inv (core w) (peers w) (client_conns w) (clientless_conns w);
  W_fresh_tas : ∀ t, (next_obj w ≤ t)%positive → tas w !! t = None;
  W_fresh_conns : ∀ l, (next_obj w ≤ l)%positive → peers w !! l = None
}.

(** ** Steps that only queue messages *)

Record only_queues (w w' : world) : Prop := {
  Q_core : core w' = core w;
  Q_tas : tas w' = tas w;
  Q_peers : peers w' = peers w;
  Q_next : next_obj w' = next_obj w;
  Q_cc : ProtoConn.client_conns w' = ProtoConn.client_conns w;
  Q_cl : clientless_conns w' = clientless_conns w;
  Q_running : running w' = running w;
  Q_wire : wire w' = wire w;
  Q_grows : ∀ l c, pconns w !! l = Some c →
    ∃ c', pconns w' !! l = Some c' ∧ out_queue c `prefix_of` out_queue c'
}.

#[export] Instance only_queues_preorder : PreOrder only_queues.
Proof.
  split.
  - intros w. split; try done. intros l c Hc. by exists c.
  - intros w1 w2 w3 H1 H2. split.
    + by rewrite (Q_core _ _ H2), (Q_core _ _ H1).
    + by rewrite (Q_tas _ _ H2), (Q_tas _ _ H1).
    + by rewrite (Q_peers _ _ H2), (Q_peers _ _ H1).
    + by rewrite (Q_next _ _ H2), (Q_next _ _ H1).
    + by rewrite (Q_cc _ _ H2), (Q_cc _ _ H1).
    + by rewrite (Q_cl _ _ H2), (Q_cl _ _ H1).
    + by rewrite (Q_running _ _ H2), (Q_running _ _ H1).
    + by rewrite (Q_wire _ _ H2), (Q_wire _ _ H1).
    + intros l c Hc. destruct (Q_grows _ _ H1 _ _ Hc) as (c1 & Hc1 & P1).
      destruct (Q_grows _ _ H2 _ _ Hc1) as (c2 & Hc2 & P2). exists c2. split; [done|by etrans].
Qed.

Lemma winv_only_queues X w w' : winv X w → only_queues w w' → winv X w'.
Proof.
  intros W Q. split; rewrite ?(Q_core _ _ Q), ?(Q_tas _ _ Q), ?(Q_peers _ _ Q), ?(Q_next _ _ Q),
    ?(Q_cc _ _ Q), ?(Q_cl _ _ Q); apply W.
Qed.

(** ** Objects *)

Lemma wp_load_pconn conn c (Q : proto_conn → world → Prop) w :
  pconns w !! conn = Some c → Q c w → wp (load_pconn conn) Q w.
Proof. intros Hc HQ. unfold wp, load_pconn. by rewrite Hc. Qed.

Lemma wp_load_peer conn p (Q : proto_conn → world → Prop) w :
  peers w !! conn = Some p → (∀ c, pconns w !! conn = Some c → peer_of c = p → Q c w) →
  wp (load_pconn conn) Q w.
Proof. intros (c & Hc & ->)%peers_lookup HQ. eapply wp_load_pconn; eauto. Qed.

Lemma wp_update_pconn conn c f (Q : unit → world → Prop) w :
  pconns w !! conn = Some c → Q tt (set_pconns <[conn := f c]> w) → wp (update_pconn conn f) Q w.
Proof. intros Hc HQ. apply wp_bind. eapply wp_load_pconn; [exact Hc|]. by apply wp_modify. Qed.

Lemma wp_load_ta t ta (Q : proto_ta → world → Prop) w :
  tas w !! t = Some ta → Q ta w → wp (load_ta t) Q w.
Proof. intros Ht HQ. unfold wp, load_ta. by rewrite Ht. Qed.

Lemma wp_with_ta {A} t ta (f : proto_ta → outcome A) a (Q : A → world → Prop) w :
  tas w !! t = Some ta → f ta = Ok a → Q a w → wp (with_ta t f) Q w.
Proof. intros Ht E HQ. apply wp_bind. eapply wp_load_ta; [exact Ht|]. by eapply wp_lift. Qed.

Lemma wp_on_ta {A} t ta (f : proto_ta → outcome (A * proto_ta)) a ta' (Q : A → world → Prop) w :
  tas w !! t = Some ta → f ta = Ok (a, ta') → Q a (set_tas <[t := ta']> w) → wp (on_ta t f) Q w.
Proof.
  intros Ht E HQ. apply wp_bind. eapply wp_load_ta; [exact Ht|]. apply wp_bind.
  eapply wp_lift; [exact E|]. apply wp_bind, wp_modify. by apply wp_ret.
Qed.

(** An update of a connection that leaves its peer, and appends to its queue. *)
Lemma only_queues_update w conn c c' : pconns w !! conn = Some c → peer_of c' = peer_of c →
  out_queue c `prefix_of` out_queue c' → only_queues w (set_pconns <[conn := c']> w).
Proof.
  intros Hc Ep Hq. split; try done.
  - unfold peers. simpl. rewrite fmap_insert, Ep. apply insert_id. by rewrite lookup_fmap, Hc.
  - simpl. intros l c0 Hc0. destruct (decide (conn = l)) as [<-|Hne].
    + rewrite lookup_insert_eq. simplify_eq. eauto.
    + rewrite lookup_insert_ne by done. eauto.
Qed.

Lemma wp_await_update conn p (Q : unit → world → Prop) w :
  peers w !! conn = Some p → (∀ w', only_queues w w' → Q tt w') → wp (await_update conn) Q w.
Proof.
  intros (c & Hc & ->)%peers_lookup HQ. eapply wp_update_pconn; [exact Hc|]. apply HQ.
  by eapply only_queues_update.
Qed.

(** The queue of a connection begins with [q0]; [m] has been queued behind it. *)
Definition queue_from (w : world) (conn : loc) (q0 : list msg) : Prop :=
  ∃ c, pconns w !! conn = Some c ∧ q0 `prefix_of` out_queue c.

Definition queued (w : world) (conn : loc) (q0 : list msg) (m : msg) : Prop :=
  ∃ c new, pconns w !! conn = Some c ∧ out_queue c = q0 ++ new ∧ m ∈ new.

Lemma queue_from_only_queues w w' conn q0 :
  only_queues w w' → queue_from w conn q0 → queue_from w' conn q0.
Proof.
  intros O (c & Hc & Hq). destruct (Q_grows _ _ O _ _ Hc) as (c' & Hc' & Hq').
  exists c'. split; [done|]. by etrans.
Qed.

(** An update that leaves the queue. *)
Lemma queue_from_update w conn c c' q0 : pconns w !! conn = Some c → out_queue c' = out_queue c →
  queue_from w conn q0 → queue_from (set_pconns <[conn := c']> w) conn q0.
Proof.
  intros Hc E (c0 & Hc0 & Hq). simplify_eq. exists c'. simpl. by rewrite lookup_insert_eq, E.
Qed.

Lemma queued_only_queues w w' conn q0 m :
  only_queues w w' → queued w conn q0 m → queued w' conn q0 m.
Proof.
  intros O (c & new & Hc & Hq & Hm). destruct (Q_grows _ _ O _ _ Hc) as (c' & Hc' & more & E).
  exists c', (new ++ more). rewrite E, Hq, app_assoc. split_and!; [done|done|set_solver].
Qed.

Lemma wp_queue_message conn p m (Q : unit → world → Prop) w : peers w !! conn = Some p →
  (∀ w', only_queues w w' → (∀ q0, queue_from w conn q0 → queued w' conn q0 m) → Q tt w') →
  wp (queue_response conn m) Q w.
Proof.
  intros Hp HQ. pose proof Hp as (c & Hc & ->)%peers_lookup. apply wp_bind.
  eapply wp_update_pconn; [exact Hc|].
  assert (O : only_queues w (set_pconns <[conn := with_out_queue (msg_queue_push (out_queue c) m) c]> w)).
  { eapply only_queues_update; [exact Hc|done|]. by eexists. }
  eapply wp_await_update; [by rewrite (Q_peers _ _ O)|].
  intros w' O'. apply HQ; [by etrans|]. intros q0 (c' & Hc' & new & E). simplify_eq.
  eapply queued_only_queues; [exact O'|]. eexists _, (new ++ [m]). simpl.
  rewrite lookup_insert_eq. split; [done|]. simpl. unfold msg_queue_push. rewrite E, app_assoc.
  split; [done|set_solver].
Qed.

Lemma wp_queue_response conn p m (Q : unit → world → Prop) w :
  peers w !! conn = Some p → (∀ w', only_queues w w' → Q tt w') → wp (queue_response conn m) Q w.
Proof. intros Hp HQ. eapply wp_queue_message; [exact Hp|]. intros w' O _. by apply HQ. Qed.
End inv.

(** ** Responses *)

Section responses.
Context {json_t : Type} `{!Jansson json_t, !JanssonLaws json_t}.

Section step.
Context (t : loc) (ta : proto_ta) (ty : proto_ta_type) (s : proto_ta_state) (rq : request) (w : world).
Context (Ht : tas w !! t = Some ta) (Hta : ta_ok (json_t := json_t) ty s rq ta).

Lemma wp_respond k ap s' (Q : msg → world → Prop) : next_state (ia_type ty) s k = Some s' →
  args_safe (json_t := json_t) ty k ap →
  (∀ m, is_response (json_t := json_t) (rq_type rq) (rq_id rq) k m →
     Q m (set_tas <[t := ta_with_state s' ta]> w)) →
  wp (on_ta t (λ ta, respond (json_t := json_t) ta (Response k ap))) Q w.
Proof using Ht Hta JanssonLaws0.
  intros Hs Ha HQ. destruct (respond_ok _ _ _ _ _ _ _ Hta Hs Ha) as (m & E & Hm).
  eapply wp_on_ta; [exact Ht|exact E|by apply HQ].
Qed.

Lemma wp_ta_fail reason (Q : msg → world → Prop) :
  next_state (ia_type ty) s proto_msg_type_fail = Some proto_ta_state_failed →
  (∀ m, is_response (json_t := json_t) (rq_type rq) (rq_id rq) proto_msg_type_fail m →
     Q m (set_tas <[t := ta_with_state proto_ta_state_failed ta]> w)) →
  wp (ta_fail (json_t := json_t) t reason) Q w.
Proof using Ht Hta JanssonLaws0.
  intros Hs HQ. eapply (wp_respond proto_msg_type_fail); [exact Hs| |exact HQ].
  apply fail_args_safe. apply (To_at _ _ _ _ Hta).
Qed.

Lemma wp_ta_accept (Q : msg → world → Prop) :
  next_state (ia_type ty) s proto_msg_type_accept = Some proto_ta_state_accepted →
  (∀ m, is_response (json_t := json_t) (rq_type rq) (rq_id rq) proto_msg_type_accept m →
     Q m (set_tas <[t := ta_with_state proto_ta_state_accepted ta]> w)) →
  wp (ta_accept (json_t := json_t) t []) Q w.
Proof using Ht Hta JanssonLaws0.
  intros Hs HQ. eapply (wp_respond proto_msg_type_accept); [exact Hs| |exact HQ].
  apply accept_args_safe.
Qed.

Lemma wp_ta_complete ap (Q : msg → world → Prop) :
  next_state (ia_type ty) s proto_msg_type_complete = Some proto_ta_state_completed →
  Forall2 (safe_arg (json_t := json_t) false) (complete_fields ty) ap →
  (∀ m, is_response (json_t := json_t) (rq_type rq) (rq_id rq) proto_msg_type_complete m →
     Q m (set_tas <[t := ta_with_state proto_ta_state_completed ta]> w)) →
  wp (ta_complete (json_t := json_t) t ap) Q w.
Proof using Ht Hta JanssonLaws0.
  intros Hs Ha HQ. eapply (wp_respond proto_msg_type_complete); [exact Hs| |exact HQ].
  by apply complete_args_safe.
Qed.

(** A notification leaves the transaction as it is. *)
Lemma wp_ta_notify ap (Q : msg → world → Prop) : ia_type ty = proto_ia_type_multi_response →
  s = proto_ta_state_accepted → args_safe (json_t := json_t) ty proto_msg_type_notify ap →
  (∀ m, Q m w) → wp (ta_notify (json_t := json_t) t ap) Q w.
Proof using Ht Hta JanssonLaws0.
  intros Hi Hs Ha HQ.
  eapply (wp_respond proto_msg_type_notify _ proto_ta_state_accepted);
    [by rewrite Hi, Hs|exact Ha|].
  intros m _. assert (E : ta_with_state proto_ta_state_accepted ta = ta).
  { destruct (To_at _ _ _ _ Hta) as (_ & Es & _). destruct ta. simpl in *. by subst. }
  rewrite E. assert (E' : set_tas <[t := ta]> w = w); [|by rewrite E'].
  destruct w. unfold set_tas. simpl in *. by rewrite insert_id.
Qed.
End step.

Lemma wp_destroy_ta t ta (Q : unit → world → Prop) w : tas w !! t = Some ta →
  proto_ta_destroy ta = Ok tt → Q tt (set_tas (delete t) w) → wp (destroy_ta t) Q w.
Proof.
  intros Ht E HQ. apply wp_bind. eapply wp_with_ta; [exact Ht|exact E|]. by apply wp_modify.
Qed.

(** ** Matches *)

(** A call for the subscription [s] with data [d] finds its way. *)
Definition heard (w : world) (s : loc) (d : Z) : Prop :=
  ∃ sb conn p t ta, subs (core w) !! s = Some sb ∧ d = Z.pos conn ∧ peers w !! conn = Some p ∧
    amap_get (p_subs p) (sub_id sb) = Some t ∧ tas w !! t = Some ta ∧
    ta_subscribed (json_t := json_t) ta.

Lemma heard_only_queues w w' s d : only_queues w w' → heard w s d → heard w' s d.
Proof. intros Q. unfold heard. by rewrite (Q_core _ _ Q), (Q_peers _ _ Q), (Q_tas _ _ Q). Qed.

Definition output_heard (w : world) (o : output) : Prop :=
  match o with OMatch s d _ _ => heard w s d | _ => True end.

Abbreviation P := (props_text (json_t := json_t)).

(** What a service hands out can be sent. *)
Lemma service_args srv : service_fine P srv → current srv ≠ None →
  ∃ g p, current srv = Some g ∧ gen_props g = Some p ∧ props_text (json_t := json_t) p ∧
    (0 ≤ service_id srv ≤ int64_max)%Z ∧ (0 ≤ gen_generation g ≤ int64_max)%Z ∧
    (0 ≤ gen_ttl g ≤ int64_max)%Z ∧ (0 ≤ gen_client_id g ≤ int64_max)%Z ∧
    since_ok (gen_orphan_since g).
Proof.
  intros (Hid & Hg & _ & _ & Hc) Hn. destruct (current srv) as [g|]; [|done]. simpl in Hg, Hc.
  destruct Hg as (H1 & H2 & H3 & H4 & H5). unfold generation_is_consistent in Hc.
  rewrite !andb_true_iff, !bool_decide_eq_true in Hc. destruct Hc as ((((C1 & C2) & C3) & C4%negb_true_iff) & C5).
  destruct (gen_props g) as [p|] eqn:Ep; [|done]. exists g, p. unfold in63 in Hid.
  split_and!; auto; lia.
Qed.

Lemma orphan_since_ok srv g : current srv = Some g →
  orphan_since_arg srv = Ok (if gen_orphan (Some g) then Some (FNumber (gen_orphan_since g)) else None).
Proof.
  intros Hg. unfold orphan_since_arg. rewrite service_is_orphan_eq by (by rewrite Hg).
  unfold s_orphan. rewrite Hg. cbn [mbind outcome_bind]. destruct (gen_orphan (Some g)); [|done].
  unfold service_get_orphan_since, service_get. by rewrite Hg.
Qed.

Lemma wp_in_core_read {A} w (l : loc) sb (f : sub → outcome A) a (Q : A → world → Prop) :
  subs (core w) !! l = Some sb → f sb = Ok a → Q a w → wp (in_core (read l f)) Q w.
Proof.
  intros Hs E HQ. unfold wp, in_core.
  assert (Er : read l f (core w) = Ok (a, core w)).
  { unfold read, mbind, M_bind, load. simpl. rewrite Hs. unfold lift. by rewrite E. }
  rewrite Er. assert (Ew : set_core (core w) w = w) by (by destruct w). by rewrite Ew.
Qed.

Lemma wp_notify_sub_match w s d srv mt (Q : unit → world → Prop) conn :
  heard w s d → d = Z.pos conn → output_fine P (OMatch s d mt srv) →
  (∀ w', only_queues w w' → Q tt w') → wp (notify_sub_match (json_t := json_t) s srv mt conn) Q w.
Proof.
  intros (sb & conn' & p & t & ta & Hs & Hd & Hp & Ht & Hta & rq & Hok) E [Hf Hcur] HQ.
  assert (conn' = conn) as -> by congruence. clear E Hd. unfold notify_sub_match.
  apply wp_bind. eapply wp_load_peer; [exact Hp|]. intros c Hc Ec.
  apply wp_bind. eapply wp_in_core_read; [exact Hs|reflexivity|].
  assert (Eg : amap_get (sub_tas c) (sub_id sb) = Some t) by (by rewrite <-Ht, <-Ec).
  rewrite Eg. apply wp_bind.
  assert (Hgo : ∀ ap, args_safe (json_t := json_t) subscribe_ta proto_msg_type_notify ap →
    wp (ta_notify (json_t := json_t) t ap) (λ m, wp (queue_response conn m) Q) w).
  { intros ap Ha. eapply wp_ta_notify; [exact Hta|exact Hok|done|done|done|]. intros m.
    by eapply wp_queue_response. }
  destruct (decide (mt = sub_match_type_disappeared)) as [Em|Em].
  - apply wp_bind. eapply wp_lift; [done|]. apply Hgo.
    eexists [_; _], [_; _; _; _; _], []. split; [done|].
    split; repeat constructor; apply Hf.
  - destruct (service_args srv Hf (Hcur Em)) as (g & pr & Ecur & Epr & Hpr & H1 & H2 & H3 & H4 & _).
    do 4 (apply wp_bind; eapply wp_lift;
      [unfold service_get_generation, service_get_props, service_get_ttl, service_get_client_id,
        service_get; rewrite Ecur; reflexivity|]).
    apply wp_bind. eapply wp_lift; [by apply orphan_since_ok|].
    apply wp_bind. eapply wp_lift; [done|]. apply Hgo. rewrite Epr.
    eexists [_; _], [_; _; _; _; _], []. split; [done|].
    split; repeat (apply Forall2_cons; split; [by split|]); [constructor|].
    apply Forall2_cons. split; [|constructor]. destruct (gen_orphan (Some g)); [by split|by left].
Qed.

Lemma wp_deliver w o (Q : unit → world → Prop) : output_heard w o → output_fine P o →
  (∀ w', only_queues w w' → Q tt w') → wp (deliver (json_t := json_t) o) Q w.
Proof.
  destruct o as [s d mt srv|t tv|t]; simpl; intros Hh Hf HQ; try (apply wp_ret, HQ; done).
  pose proof Hh as (sb & conn & p & t & ta & _ & -> & _).
  by eapply wp_notify_sub_match.
Qed.

Lemma wp_deliver_all w os (Q : unit → world → Prop) : Forall (output_heard w) os →
  Forall (output_fine P) os → (∀ w', only_queues w w' → Q tt w') →
  wp (mforeach (deliver (json_t := json_t)) os) Q w.
Proof.
  intros Hh Hf HQ. eapply wp_mono.
  - apply (wp_mforeach _ (λ _ w', only_queues w w')); [done|].
    intros pre o post w1 -> O. eapply wp_deliver.
    + apply Forall_app in Hh as [_ Hh]. apply Forall_cons in Hh as [Hh _].
      destruct o; try done. by eapply heard_only_queues.
    + apply Forall_app in Hf as [_ Hf]. by apply Forall_cons in Hf as [Hf _].
    + intros w2 O2. by etrans.
  - intros [] w'. apply HQ.
Qed.

(** ** Calls of the core *)

Lemma match_calls_new st st' os calls : outputs st' = outputs st ++ os →
  match_calls st' = match_calls st ++ calls → omap match_of os = calls.
Proof.
  intros E1 E2. unfold match_calls in E2. rewrite E1, omap_app in E2. by apply app_inv_head in E2.
Qed.

Lemma reports_new st st' os rs : outputs st' = outputs st ++ os →
  reports st' = reports st ++ rs → omap report_of os = rs.
Proof.
  intros E1 E2. unfold reports in E2. rewrite E1, omap_app in E2. by apply app_inv_head in E2.
Qed.

(** An operation of the core, with its match calls. *)
Lemma wp_sd_call {A} (op : M state A) w (Q : A → world → Prop) :
  keeps P op (λ _, True) → fine P (core w) →
  wp op (λ a st', ∃ calls, match_calls st' = match_calls (core w) ++ calls ∧
    Forall (λ call, heard (set_core st' w) call.1.1.1 call.1.1.2) calls ∧
    (fine P st' → ∀ w', only_queues (set_core st' w) w' → Q a w')) (core w) →
  wp (sd_call (json_t := json_t) op) Q w.
Proof.
  intros Hk F Hw. unfold sd_call, wp. unfold wp in Hw.
  destruct (op (core w)) as [[a st']|] eqn:E; [|done]. destruct Hw as (calls & Ec & Hh & HQ).
  destruct (Hk _ _ _ F E) as (F' & _ & os & Eos).
  rewrite Eos, drop_app_length. pose proof (Fine_outputs _ _ F') as Ho. rewrite Eos in Ho.
  apply Forall_app in Ho as [_ Ho]. pose proof (match_calls_new _ _ _ _ Eos Ec) as Em.
  assert (Hos : Forall (output_heard (set_core st' w)) os).
  { clear -Em Hh. revert calls Em Hh. induction os as [|o os IH]; intros calls Em Hh; [constructor|].
    rewrite omap_cons_eq in Em. destruct o as [s d mt srv|t tv|t]; simpl in Em.
    - subst calls. apply Forall_cons in Hh as [Hh1 Hh]. constructor; [exact Hh1|by eapply IH].
    - constructor; [done|by eapply IH].
    - constructor; [done|by eapply IH]. }
  assert (Hgo : wp (_ ← mforeach (deliver (json_t := json_t)) os; mret a) Q (set_core st' w));
    [|exact Hgo].
  apply wp_bind. apply wp_deliver_all; [done|done|]. intros w' O. apply wp_ret. by apply HQ.
Qed.

(** Calls for subscriptions that were there before are heard. *)
Lemma calls_heard X w st' : links (json_t := json_t) X (subs (core w)) (tas w) (peers w) →
  subs st' ⊆ subs (core w) → calls_told (core w) st' →
  ∃ calls, match_calls st' = match_calls (core w) ++ calls ∧
    Forall (λ call, heard (set_core st' w) call.1.1.1 call.1.1.2) calls.
Proof.
  intros L Hsub (calls & E & Hc). exists calls. split; [done|].
  eapply Forall_impl; [exact Hc|]. intros call (sb & Hs & Ed).
  pose proof (lookup_weaken _ _ _ _ Hs Hsub) as Hs0.
  destruct (L_sub _ _ _ _ L _ _ Hs0) as (conn & p & t & Hd & Hp & Hid & Ht).
  destruct (L_ta _ _ _ _ L conn (sub_id sb) t) as (ta & Hta & Hok); [by exists p|].
  exists sb, conn, p, t, ta. by rewrite <-Ed.
Qed.
End responses.
