(* ===== verification/ServerSteps.v ===== *)
(** * How the server's invariant changes

    The relations of ServerInv.v under the steps of the handlers: transactions
    come and go, subscriptions start and end, clients say hello, connections
    come and go. *)

From S2P Require Import Prelude CLib Pvalue Props Filter FilterParse Double Service Sub Amap Heap Client Sd SdWp SdInv SdOps SdRemove SdSubs SdDisconnect SdRun SdOut SdCalls Json ProtoTa ProtoTaSpec ProtoTaResp ProtoTaSafe ProtoConn Server ServerInv.

Section links.
Context {json_t : Type} `{!Jansson json_t}.
Abbreviation links := (links (json_t := json_t)).
Context (X : option loc) (sb : gmap loc sub) (ts : gmap loc proto_ta) (ps : gmap loc peer).
Context (L : links X sb ts ps).

(** ** Transactions *)

Lemma held_not_handled conn i t : holds_ta ps conn i t → X ≠ Some t.
Proof using L. intros Hh E. by eapply L_free. Qed.

(** The transaction that is being handled may change. *)
Lemma links_ta_insert t ta : X = Some t → links X sb (<[t := ta]> ts) ps.
Proof using L.
  intros E. split; try apply L.
  - intros conn i t' Hh. pose proof (held_not_handled _ _ _ Hh).
    rewrite lookup_insert_ne by congruence. by eapply L_ta.
  - intros t' ta' [[<- <-]|[_ Ht]]%lookup_insert_Some; [by left|by eapply L_own].
Qed.

Lemma links_ta_new t ta : X = None → ts !! t = None → links (Some t) sb (<[t := ta]> ts) ps.
Proof using L.
  intros E Hnone. assert (Hne : ∀ conn i, ¬ holds_ta ps conn i t).
  { intros conn i Hh. destruct (L_ta _ _ _ _ L _ _ _ Hh) as (ta' & Ht & _). congruence. }
  split; try apply L.
  - intros conn i t' Hh. rewrite lookup_insert_ne by (intros ->; by eapply Hne). by eapply L_ta.
  - intros t' ta' [[<- <-]|[_ Ht]]%lookup_insert_Some; [by left|].
    destruct (L_own _ _ _ _ L _ _ Ht); [congruence|by right].
  - intros t' conn i [= <-]. apply Hne.
Qed.

Lemma links_ta_delete t : X = Some t → links None sb (delete t ts) ps.
Proof using L.
  intros E. split; try apply L; [| |done].
  - intros conn i t' Hh. pose proof (held_not_handled _ _ _ Hh).
    rewrite lookup_delete_ne by congruence. by eapply L_ta.
  - intros t' ta' [Hne Ht]%lookup_delete_Some.
    destruct (L_own _ _ _ _ L _ _ Ht); [congruence|by right].
Qed.

(** ** Connections without subscriptions *)

Definition idle_at (conn : loc) : Prop := ∀ p, ps !! conn = Some p → p_subs p = [].

Lemma holds_other conn conn' i t : idle_at conn → holds_ta ps conn' i t → conn' ≠ conn.
Proof using. intros Hi (p & Hp & Hg) ->. by rewrite (Hi _ Hp) in Hg. Qed.

Lemma links_idle ps' conn : idle_at conn →
  (∀ p, ps' !! conn = Some p → p_subs p = []) →
  (∀ conn', conn' ≠ conn → ps' !! conn' = ps !! conn') → links X sb ts ps'.
Proof using L.
  intros Hi Hi' Hne.
  assert (Hh : ∀ conn' i t, holds_ta ps' conn' i t ↔ holds_ta ps conn' i t).
  { intros conn' i t. destruct (decide (conn' = conn)) as [->|E].
    - split; intros (p & Hp & Hg); [by rewrite (Hi' _ Hp) in Hg|by rewrite (Hi _ Hp) in Hg].
    - unfold holds_ta. by rewrite Hne. }
  split.
  - intros conn' p Hp. destruct (decide (conn' = conn)) as [->|E].
    + rewrite (Hi' _ Hp). apply NoDup_nil_2.
    + rewrite Hne in Hp by done. by eapply L_nodup.
  - intros l s Hs. destruct (L_sub _ _ _ _ L _ _ Hs) as (c & p & t & Hd & Hp & Hid & Ht).
    exists c, p, t. split_and!; [done| |done|done]. rewrite Hne; [done|].
    eapply holds_other; [done|]. by exists p.
  - intros c p i t Hp Hg. destruct (decide (c = conn)) as [->|E].
    + by rewrite (Hi' _ Hp) in Hg.
    + rewrite Hne in Hp by done. by eapply L_entry.
  - intros c i t. rewrite Hh. apply L.
  - intros c c' i i' t. rewrite !Hh. apply L.
  - intros t ta Ht. setoid_rewrite Hh. by eapply L_own.
  - intros t c i E. rewrite Hh. by apply L.
Qed.

(** ** Subscriptions *)

Lemma holds_subscribed conn p i t c' i' t' : ps !! conn = Some p → amap_get (p_subs p) i = None →
  holds_ta (<[conn := Peer (p_id p) (p_subs p ++ [(i, t)]) (p_term p)]> ps) c' i' t' ↔
  (c' = conn ∧ i' = i ∧ t' = t) ∨ holds_ta ps c' i' t'.
Proof using.
  intros Hp Hi. unfold holds_ta. destruct (decide (c' = conn)) as [->|E].
  - rewrite lookup_insert_eq. split.
    + intros (p' & [= <-] & Hg). simpl in Hg. rewrite amap_get_add in Hg by done.
      case_decide; [|right; by exists p]. left. by simplify_eq.
    + intros Hor. eexists. split; [done|]. simpl. rewrite amap_get_add by done.
      destruct Hor as [(_ & -> & ->)|(p' & Hp' & Hg)]; [by rewrite decide_True|].
      simplify_eq. rewrite decide_False; [done|]. congruence.
  - rewrite lookup_insert_ne by done. naive_solver.
Qed.

(** The subscription [s] is there, and the connection keeps its transaction. *)
Lemma links_subscribe t ta conn p l s : X = Some t → ps !! conn = Some p → sb !! l = None →
  (∀ x s', sb !! x = Some s' → sub_id s' ≠ sub_id s) →
  match_cb_data s = Z.pos conn → sub_client_id s = p_id p → ts !! t = Some ta →
  ta_subscribed (json_t := json_t) ta →
  amap_get (p_subs p) (sub_id s) = None ∧
  links None (<[l := s]> sb) ts
    (<[conn := Peer (p_id p) (p_subs p ++ [(sub_id s, t)]) (p_term p)]> ps).
Proof using L.
  intros EX Hp Hl Hfresh Hd Hc Ht Hta.
  assert (Hnone : amap_get (p_subs p) (sub_id s) = None).
  { destruct (amap_get (p_subs p) (sub_id s)) as [t'|] eqn:E; [|done].
    destruct (L_entry _ _ _ _ L _ _ _ _ Hp E) as (x & s' & Hs' & Eid & _).
    by destruct (Hfresh _ _ Hs'). }
  split; [done|]. split.
  - intros c' p' [[<- <-]|[_ Hp']]%lookup_insert_Some; [|by eapply L_nodup].
    simpl. apply amap_add_nodup; [done|by eapply L_nodup].
  - intros l' s' [[<- <-]|[Hne Hs']]%lookup_insert_Some.
    + eexists conn, _, t. rewrite lookup_insert_eq. split_and!; [done|done|done|].
      simpl. by rewrite amap_get_add, decide_True.
    + destruct (L_sub _ _ _ _ L _ _ Hs') as (c' & p' & t' & Hd' & Hp' & Hid' & Ht').
      destruct (decide (c' = conn)) as [->|E].
      * simplify_eq. eexists conn, _, t'. rewrite lookup_insert_eq. split_and!; [done|done|done|].
        simpl. rewrite amap_get_add by done. rewrite decide_False; [done|].
        pose proof (Hfresh _ _ Hs'). congruence.
      * exists c', p', t'. by rewrite lookup_insert_ne.
  - assert (Hent : ∀ c' p' i t', ps !! c' = Some p' → amap_get (p_subs p') i = Some t' →
      ∃ x s', <[l := s]> sb !! x = Some s' ∧ sub_id s' = i ∧ sub_client_id s' = p_id p').
    { intros c' p' i t' Hp' Hg. destruct (L_entry _ _ _ _ L _ _ _ _ Hp' Hg) as (x & s' & Hs' & E1 & E2).
      exists x, s'. rewrite lookup_insert_ne by congruence. done. }
    intros c' p' i t' [[<- <-]|[_ Hp']]%lookup_insert_Some Hg; [|by eapply Hent].
    simpl in Hg. rewrite amap_get_add in Hg by done. case_decide as Ei; [|by apply (Hent conn p i t')].
    subst i. exists l, s. by rewrite lookup_insert_eq.
  - intros c' i t' [(_ & _ & ->)|Hh]%holds_subscribed; [by exists ta|by eapply L_ta|done|done].
  - intros c1 c2 i1 i2 t' H1 H2. apply holds_subscribed in H1, H2; try done.
    destruct H1 as [(-> & -> & ->)|H1], H2 as [(-> & -> & E)|H2]; try done.
    + by destruct (L_free _ _ _ _ L t c2 i2).
    + subst. by destruct (L_free _ _ _ _ L t c1 i1).
    + by eapply L_uniq.
  - intros t' ta' Ht'. right. setoid_rewrite holds_subscribed; [|done..].
    destruct (L_own _ _ _ _ L _ _ Ht') as [E|(c' & i & Hh)].
    + exists conn, (sub_id s). left. split_and!; [done|done|]. congruence.
    + exists c', i. by right.
  - done.
Qed.

(** Connections of clients have distinct identifiers. *)
Definition distinct_ids : Prop := ∀ conn conn' p p', ps !! conn = Some p → ps !! conn' = Some p' →
  (0 ≤ p_id p)%Z → p_id p = p_id p' → conn = conn'.

Definition subs_of_clients : Prop := ∀ conn p, ps !! conn = Some p → (p_id p < 0)%Z → p_subs p = [].

(** The entry of a subscription. *)
Lemma links_entry conn p l s : distinct_ids → ps !! conn = Some p → (0 ≤ p_id p)%Z →
  sb !! l = Some s → sub_client_id s = p_id p →
  ∃ t, amap_get (p_subs p) (sub_id s) = Some t ∧ match_cb_data s = Z.pos conn.
Proof using L.
  intros Hd Hp H0 Hs Hc. destruct (L_sub _ _ _ _ L _ _ Hs) as (c' & p' & t & Hd' & Hp' & Hid & Ht).
  assert (conn = c') as <- by (eapply Hd; [done..|congruence]). simplify_eq. by exists t.
Qed.

Lemma links_unsubscribe conn p l s t : distinct_ids → subs_of_clients → ps !! conn = Some p →
  (∀ x s', sb !! x = Some s' → sub_id s' = sub_id s → x = l) →
  sb !! l = Some s → sub_client_id s = p_id p → amap_get (p_subs p) (sub_id s) = Some t →
  links X (delete l sb) (delete t ts)
    (<[conn := Peer (p_id p) (amap_remove (p_subs p) (sub_id s)) (p_term p)]> ps).
Proof using L.
  intros Hdist Hcl Hp Huniq Hs Hc Ht. pose proof (L_nodup _ _ _ _ L _ _ Hp) as Hnd.
  assert (H0 : (0 ≤ p_id p)%Z).
  { destruct (decide (0 ≤ p_id p)%Z); [done|]. rewrite (Hcl _ _ Hp) in Ht by lia. done. }
  set (p1 := Peer (p_id p) (amap_remove (p_subs p) (sub_id s)) (p_term p)).
  assert (Hget : ∀ i, amap_get (p_subs p1) i =
    if decide (sub_id s = i) then None else amap_get (p_subs p) i)
    by (intros i; by apply amap_get_remove).
  assert (Hh : ∀ c' i' t', holds_ta (<[conn := p1]> ps) c' i' t' ↔
    holds_ta ps c' i' t' ∧ ¬ (c' = conn ∧ i' = sub_id s)).
  { intros c' i' t'. unfold holds_ta. destruct (decide (c' = conn)) as [->|E].
    - rewrite lookup_insert_eq. split.
      + intros (p' & [= <-] & Hg). rewrite Hget in Hg. case_decide; [done|].
        split; [by exists p|naive_solver].
      + intros [(p' & Hp' & Hg) Hne]. exists p1. split; [done|].
        rewrite Hget, decide_False by naive_solver. congruence.
    - rewrite lookup_insert_ne by done. naive_solver. }
  assert (Hht : holds_ta ps conn (sub_id s) t) by (by exists p).
  split.
  - intros c' p' [[<- <-]|[_ Hp']]%lookup_insert_Some; [|by eapply L_nodup].
    by apply amap_remove_nodup.
  - intros l' s' [Hne Hs']%lookup_delete_Some.
    destruct (L_sub _ _ _ _ L _ _ Hs') as (c' & p' & t' & Hd' & Hp' & Hid' & Ht').
    assert (Hi : sub_id s' ≠ sub_id s) by (intros E; by destruct (Huniq _ _ Hs' E)).
    destruct (decide (c' = conn)) as [->|E].
    + simplify_eq. exists conn, p1, t'. rewrite lookup_insert_eq. split_and!; [done|done|done|].
      by rewrite Hget, decide_False.
    + exists c', p', t'. by rewrite lookup_insert_ne.
  - intros c' p' i t' Hp' Hg.
    assert (Hht' : holds_ta (<[conn := p1]> ps) c' i t') by (by exists p').
    apply Hh in Hht' as [(p0 & Hp0 & Hg0) Hn].
    assert (Eid : p_id p' = p_id p0).
    { apply lookup_insert_Some in Hp' as [[<- <-]|[_ Hp']]; by simplify_eq. }
    destruct (L_entry _ _ _ _ L _ _ _ _ Hp0 Hg0) as (x & sx & Hx & Ex & Ec).
    exists x, sx. rewrite Eid. split_and!; [|done|done]. apply lookup_delete_Some.
    split; [|done]. intros <-. simplify_eq. apply Hn. split; [|done].
    eapply Hdist; [exact Hp0|exact Hp|lia|congruence].
  - intros c' i' t' [Hht' Hn]%Hh. destruct (L_ta _ _ _ _ L _ _ _ Hht') as (ta & Hta & Hok).
    exists ta. split; [|done]. apply lookup_delete_Some. split; [|done]. intros <-.
    apply Hn. by eapply L_uniq.
  - intros c1 c2 i1 i2 t' [H1 _]%Hh [H2 _]%Hh. by eapply L_uniq.
  - intros t' ta [Hne Ht']%lookup_delete_Some.
    destruct (L_own _ _ _ _ L _ _ Ht') as [E|(c' & i & Hht')]; [by left|right].
    exists c', i. apply Hh. split; [done|]. intros [-> ->]. apply Hne.
    destruct Hht as (p2 & Hp2 & Hg2), Hht' as (p3 & Hp3 & Hg3). by simplify_eq.
  - intros t' c' i E Hht'%Hh. by eapply L_free; [| |apply Hht'].
Qed.

(** A connection goes, with its subscriptions and transactions. *)
Lemma links_remove conn p sb' ts' : X = None → distinct_ids → subs_of_clients → ps !! conn = Some p →
  (∀ l s, sb' !! l = Some s ↔ sb !! l = Some s ∧ sub_client_id s ≠ p_id p) →
  (∀ t, ts' !! t = if decide (t ∈ (p_subs p).*2) then None else ts !! t) →
  links None sb' ts' (delete conn ps).
Proof using L.
  intros EX Hdist Hcl Hp Hsb Hts. pose proof (L_nodup _ _ _ _ L _ _ Hp) as Hnd.
  assert (Hin : ∀ t, t ∈ (p_subs p).*2 ↔ ∃ i, holds_ta ps conn i t).
  { intros t. rewrite list_elem_of_fmap. split.
    - intros ([i t'] & -> & Hin). exists i. exists p. split; [done|]. by apply amap_get_elem.
    - intros (i & p' & Hp' & Hg). simplify_eq. exists (i, t). split; [done|].
      by apply amap_get_Some_elem. }
  assert (Hh : ∀ c' i' t', holds_ta (delete conn ps) c' i' t' ↔ c' ≠ conn ∧ holds_ta ps c' i' t').
  { intros c' i' t'. unfold holds_ta. setoid_rewrite lookup_delete_Some. naive_solver. }
  split.
  - intros c' p' [_ Hp']%lookup_delete_Some. by eapply L_nodup.
  - intros l s [Hs Hne]%Hsb.
    destruct (L_sub _ _ _ _ L _ _ Hs) as (c' & p' & t' & Hd' & Hp' & Hid' & Ht').
    exists c', p', t'. rewrite lookup_delete_ne by congruence. done.
  - intros c' p' i t' [Hne Hp']%lookup_delete_Some Hg.
    destruct (L_entry _ _ _ _ L _ _ _ _ Hp' Hg) as (x & s & Hs & E1 & E2).
    exists x, s. split_and!; [|done|done]. apply Hsb. split; [done|]. intros E.
    apply Hne. eapply Hdist; [exact Hp|exact Hp'| |congruence].
    rewrite <-E, E2. destruct (decide (0 ≤ p_id p')%Z); [done|].
    rewrite (Hcl _ _ Hp') in Hg by lia. done.
  - intros c' i' t' [Hne Hht]%Hh. destruct (L_ta _ _ _ _ L _ _ _ Hht) as (ta & Hta & Hok).
    exists ta. split; [|done]. rewrite Hts, decide_False; [done|]. intros (i & Hht')%Hin.
    apply Hne. by eapply L_uniq.
  - intros c1 c2 i1 i2 t [_ H1]%Hh [_ H2]%Hh. by eapply L_uniq.
  - intros t ta. rewrite Hts. case_decide as Hn; [done|]. intros Ht.
    destruct (L_own _ _ _ _ L _ _ Ht) as [E|(c' & i & Hht)]; [congruence|]. right.
    exists c', i. apply Hh. split; [|done]. intros ->. apply Hn, Hin. by exists i.
  - done.
Qed.
End links.

(** ** Connections and clients *)

Section peers.
Context (st : state) (ps : gmap loc peer) (cc cl : list loc).
Context (PI : peers_inv st ps cc cl).

Lemma peers_connected st' : (∀ c, connected st' c = connected st c) → peers_inv st' ps cc cl.
Proof using PI.
  intros E. split; try apply PI.
  - intros conn p Hp H0. rewrite E. by eapply P_connected.
  - intros c. rewrite E. by eapply P_client.
Qed.

(** The subscriptions of a client's connection change. *)
Lemma peers_subs conn p m : ps !! conn = Some p → (0 ≤ p_id p)%Z →
  peers_inv st (<[conn := Peer (p_id p) m (p_term p)]> ps) cc cl.
Proof using PI.
  intros Hp H0. set (p1 := Peer _ _ _).
  assert (Hold : ∀ c' p', <[conn := p1]> ps !! c' = Some p' → ∃ p0, ps !! c' = Some p0 ∧
    p_id p0 = p_id p' ∧ p_term p0 = p_term p').
  { intros c' p' [[<- <-]|[_ Hp']]%lookup_insert_Some; [by exists p|by exists p']. }
  assert (Hnew : ∀ c' p0, ps !! c' = Some p0 → ∃ p', <[conn := p1]> ps !! c' = Some p' ∧
    p_id p0 = p_id p').
  { intros c' p0 Hp0. destruct (decide (c' = conn)) as [->|].
    - exists p1. rewrite lookup_insert_eq. by simplify_eq.
    - exists p0. by rewrite lookup_insert_ne. }
  split; try apply PI.
  - intros c' p' (p0 & Hp0 & _ & <-)%Hold. by eapply P_term.
  - intros c' p' (p0 & Hp0 & <- & _)%Hold. by eapply P_connected.
  - intros c' p' [[<- <-]|[_ Hp']]%lookup_insert_Some; [simpl; lia|by eapply P_hello].
  - intros c1 c2 p1' p2' (p0 & Hp0 & <- & _)%Hold (p0' & Hp0' & <- & _)%Hold. by eapply P_uniq.
  - intros c Hc. destruct (P_client _ _ _ _ PI _ Hc) as (H0' & c' & p0 & Hp0 & <-). split; [done|].
    destruct (Hnew _ _ Hp0) as (p' & Hp' & E). eauto.
  - intros c'. rewrite (P_in_cc _ _ _ _ PI). split.
    + intros (p0 & Hp0 & Hid). destruct (Hnew _ _ Hp0) as (p' & Hp' & E). exists p'. by rewrite <-E.
    + intros (p' & (p0 & Hp0 & E & _)%Hold & Hid). exists p0. by rewrite E.
  - intros c'. rewrite (P_in_cl _ _ _ _ PI). split.
    + intros (p0 & Hp0 & Hid). destruct (Hnew _ _ Hp0) as (p' & Hp' & E). exists p'. by rewrite <-E.
    + intros (p' & (p0 & Hp0 & E & _)%Hold & Hid). exists p0. by rewrite E.
Qed.

(** A connection finishes its handshake. *)
Lemma peers_handshake conn p id st' cl' : ps !! conn = Some p → (p_id p < 0)%Z →
  (0 ≤ id ≤ int64_max)%Z → connected st id = false →
  (∀ c, connected st' c = if decide (c = id) then true else connected st c) →
  NoDup cl' → (∀ c, c ∈ cl' ↔ c ∈ cl ∧ c ≠ conn) →
  peers_inv st' (<[conn := Peer id (p_subs p) (p_term p)]> ps) (cc ++ [conn]) cl'.
Proof using PI.
  intros Hp Hneg Hid Hnc Hcon Hnd Hcl. set (p1 := Peer _ _ _).
  assert (Hne : ∀ c' p', ps !! c' = Some p' → (0 ≤ p_id p')%Z → c' ≠ conn ∧ p_id p' ≠ id).
  { intros c' p' Hp' H0. split; [intros ->; simplify_eq; lia|]. intros E.
    destruct (P_connected _ _ _ _ PI _ _ Hp' H0) as [Hc' _]. congruence. }
  split.
  - intros c' p' [[<- <-]|[_ Hp']]%lookup_insert_Some; [exact (P_term _ _ _ _ PI _ _ Hp)|].
    by eapply P_term.
  - intros c' p' [[<- <-]|[_ Hp']]%lookup_insert_Some H0.
    + rewrite Hcon. simpl. rewrite decide_True by done. split; [done|lia].
    + destruct (P_connected _ _ _ _ PI _ _ Hp' H0) as [Hc' Hr]. rewrite Hcon, Hc'.
      by destruct (decide _).
  - intros c' p' [[<- <-]|[_ Hp']]%lookup_insert_Some; [simpl; lia|by eapply P_hello].
  - intros c1 c2 p1' p2' [[<- <-]|[Hn1 H1]]%lookup_insert_Some [[<- <-]|[Hn2 H2]]%lookup_insert_Some
      H0 E; try done.
    + simpl in E, H0. destruct (Hne _ _ H2) as [_ Hid']; [lia|congruence].
    + simpl in E. destruct (Hne _ _ H1) as [_ Hid']; [lia|congruence].
    + by eapply P_uniq.
  - intros c. rewrite Hcon. case_decide as Ec.
    + intros _. subst c. split; [lia|]. exists conn, p1. by rewrite lookup_insert_eq.
    + intros Hc. destruct (P_client _ _ _ _ PI _ Hc) as (H0' & c' & p0 & Hp0 & Eid). split; [done|].
      exists c', p0. rewrite lookup_insert_ne; [done|]. intros <-. simplify_eq. lia.
  - apply NoDup_app. split; [apply PI|]. split; [|apply NoDup_singleton].
    intros c' Hc' ->%list_elem_of_singleton. apply (P_in_cc _ _ _ _ PI) in Hc' as (p' & Hp' & H0).
    simplify_eq. lia.
  - done.
  - intros c'. rewrite elem_of_app, list_elem_of_singleton, (P_in_cc _ _ _ _ PI). split.
    + intros [(p' & Hp' & H0)| ->].
      * exists p'. rewrite lookup_insert_ne; [done|]. intros <-. simplify_eq. lia.
      * exists p1. rewrite lookup_insert_eq. split; [done|]. simpl. lia.
    + intros (p' & [[<- <-]|[_ Hp']]%lookup_insert_Some & H0); [by right|left; by exists p'].
  - intros c'. rewrite Hcl, (P_in_cl _ _ _ _ PI). split.
    + intros [(p' & Hp' & H0) Hn]. exists p'. by rewrite lookup_insert_ne.
    + intros (p' & [[<- <-]|[Hn Hp']]%lookup_insert_Some & H0); [simpl in H0; lia|].
      split; [by exists p'|done].
Qed.

(** A new connection. *)
Lemma peers_accept conn p : ps !! conn = None → (p_id p < 0)%Z → p_subs p = [] →
  p_term p = false → peers_inv st (<[conn := p]> ps) cc (cl ++ [conn]).
Proof using PI.
  intros Hnone Hneg Hsubs Hterm. split.
  - intros c' p' [[<- <-]|[_ Hp']]%lookup_insert_Some; [done|by eapply P_term].
  - intros c' p' [[<- <-]|[_ Hp']]%lookup_insert_Some; [lia|by eapply P_connected].
  - intros c' p' [[<- <-]|[_ Hp']]%lookup_insert_Some; [done|by eapply P_hello].
  - intros c1 c2 p1 p2 [[<- <-]|[_ H1]]%lookup_insert_Some [[<- <-]|[_ H2]]%lookup_insert_Some H0 E;
      [done|lia|lia|by eapply P_uniq].
  - intros c Hc. destruct (P_client _ _ _ _ PI _ Hc) as (H0 & c' & p0 & Hp0 & Eid). split; [done|].
    exists c', p0. rewrite lookup_insert_ne; [done|]. congruence.
  - apply PI.
  - apply NoDup_app. split; [apply PI|]. split; [|apply NoDup_singleton].
    intros c' Hc' ->%list_elem_of_singleton. apply (P_in_cl _ _ _ _ PI) in Hc' as (p' & Hp' & _).
    congruence.
  - intros c'. rewrite (P_in_cc _ _ _ _ PI). split.
    + intros (p' & Hp' & H0). exists p'. rewrite lookup_insert_ne; [done|]. congruence.
    + intros (p' & [[<- <-]|[_ Hp']]%lookup_insert_Some & H0); [lia|by exists p'].
  - intros c'. rewrite elem_of_app, list_elem_of_singleton, (P_in_cl _ _ _ _ PI). split.
    + intros [(p' & Hp' & H0)| ->].
      * exists p'. rewrite lookup_insert_ne; [done|]. congruence.
      * exists p. by rewrite lookup_insert_eq.
    + intros (p' & [[<- <-]|[_ Hp']]%lookup_insert_Some & H0); [by right|left; by exists p'].
Qed.

(** A connection goes, and its client is disconnected. *)
Lemma peers_remove conn p st' cc' cl' : ps !! conn = Some p →
  (∀ c, connected st' c = if decide (c = p_id p) then false else connected st c) →
  (NoDup cc' ∧ ∀ c, c ∈ cc' ↔ c ∈ cc ∧ c ≠ conn) → (NoDup cl' ∧ ∀ c, c ∈ cl' ↔ c ∈ cl ∧ c ≠ conn) →
  peers_inv st' (delete conn ps) cc' cl'.
Proof using PI.
  intros Hp Hcon [Hnd1 Hcc] [Hnd2 Hcl]. split.
  - intros c' p' [_ Hp']%lookup_delete_Some. by eapply P_term.
  - intros c' p' [Hne Hp']%lookup_delete_Some H0. rewrite Hcon.
    rewrite decide_False; [by eapply P_connected|]. intros E. apply Hne.
    by eapply (P_uniq _ _ _ _ PI); [exact Hp|exact Hp'|lia|].
  - intros c' p' [_ Hp']%lookup_delete_Some. by eapply P_hello.
  - intros c1 c2 p1 p2 [_ H1]%lookup_delete_Some [_ H2]%lookup_delete_Some. by eapply P_uniq.
  - intros c. rewrite Hcon. case_decide as E; [done|]. intros Hc.
    destruct (P_client _ _ _ _ PI _ Hc) as (H0 & c' & p0 & Hp0 & Eid). split; [done|].
    exists c', p0. rewrite lookup_delete_ne; [done|]. congruence.
  - done.
  - done.
  - intros c'. rewrite Hcc, (P_in_cc _ _ _ _ PI). setoid_rewrite lookup_delete_Some. naive_solver.
  - intros c'. rewrite Hcl, (P_in_cl _ _ _ _ PI). setoid_rewrite lookup_delete_Some. naive_solver.
Qed.
End peers.
