(* ===== verification/ServerReq.v ===== *)
(** * Requests keep the server's invariant

    Each handler of src/proto/proto_conn.c, started in a good state of the
    server with an accepted request of its command, ends without a fault in a
    good state, with the transaction completed, failed, or kept by the
    connection. *)

From S2P Require Import Prelude CLib Pvalue Props Filter FilterParse Double Service Sub Amap Heap Client Sd SdWp SdInv SdOps SdRemove SdSubs SdDisconnect SdRun SdOut SdCalls Json ProtoTa ProtoTaSpec ProtoTaResp ProtoTaSafe ProtoConn Server ServerInv ServerSteps.

Section requests.
Context {json_t : Type} `{!Jansson json_t, !JanssonLaws json_t}.
Abbreviation winv := (winv (json_t := json_t)).
Abbreviation P := (props_text (json_t := json_t)).
Abbreviation ta_ok := (ta_ok (json_t := json_t)).

(** ** Steps of the whole state *)

Lemma winv_settled X w st' : winv X w → settled (core w) st' → fine P st' → winv X (set_core st' w).
Proof.
  intros W S F. split; try apply W; [apply S|done| |].
  - simpl. rewrite (Se_subs _ _ S). apply W.
  - eapply peers_connected; [apply W|apply S].
Qed.

Lemma winv_ta_insert t ta w : winv (Some t) w → is_Some (tas w !! t) →
  winv (Some t) (set_tas <[t := ta]> w).
Proof.
  intros W [ta0 Ht]. split; try apply W.
  - eapply links_ta_insert; [apply W|done].
  - simpl. intros t' Hle. rewrite lookup_insert_ne; [by apply W|]. intros <-.
    rewrite (W_fresh_tas _ _ W) in Ht by done. done.
Qed.

Lemma winv_ta_new w ta : winv None w →
  winv (Some (next_obj w)) (set_next_obj Pos.succ (set_tas <[next_obj w := ta]> w)).
Proof.
  intros W. split; try apply W.
  - eapply links_ta_new; [apply W|done|]. apply (W_fresh_tas _ _ W). lia.
  - simpl. intros t' Hle. rewrite lookup_insert_ne by lia. apply (W_fresh_tas _ _ W). lia.
  - simpl. intros l Hle. apply (W_fresh_conns _ _ W). lia.
Qed.

Lemma winv_ta_delete t w : winv (Some t) w → winv None (set_tas (delete t) w).
Proof.
  intros W. split; try apply W.
  - eapply links_ta_delete; [apply W|done].
  - simpl. intros t' Hle. rewrite lookup_delete_None. right. by apply W.
Qed.

(** A call of the core that only changes services. *)
Lemma wp_settled_call {A} (op : M state A) X w R (Q : A → world → Prop) :
  keeps P op (λ _, True) → winv X w →
  wp op (λ r st', settled (core w) st' ∧ R r) (core w) →
  (∀ r w', R r → winv X w' → tas w' = tas w → peers w' = peers w →
     (∀ conn q0, queue_from w conn q0 → queue_from w' conn q0) → Q r w') →
  wp (sd_call (json_t := json_t) op) Q w.
Proof.
  intros Hk W Hw HQ. apply wp_sd_call; [done|apply W|].
  eapply wp_mono; [exact Hw|]. intros r st' [S HR].
  destruct (calls_heard X w st') as (calls & E & Hh); [apply W|by rewrite (Se_subs _ _ S)|apply S|].
  exists calls. split; [done|]. split; [done|]. intros F w' O.
  apply HQ; [done| |by rewrite (Q_tas _ _ O)|by rewrite (Q_peers _ _ O)|].
  - eapply winv_only_queues; [|exact O]. by apply winv_settled.
  - intros conn q0 Hq. by eapply queue_from_only_queues.
Qed.

(** ** A handled request *)

(** The request has been responded to, behind the messages [q0]: it has been
    completed or has failed, or is a subscription that has been accepted. *)
Definition answered (conn : loc) (q0 : list msg) (rq : request) (w : world) : Prop :=
  ∃ k m, queued w conn q0 m ∧ is_response (json_t := json_t) (rq_type rq) (rq_id rq) k m ∧
    (k = proto_msg_type_complete ∨ k = proto_msg_type_fail ∨
     k = proto_msg_type_accept ∧ rq_type rq = subscribe_ta).

Record handled (conn ta : loc) (q0 : list msg) (rq : request) (w : world) : Prop := {
  Hd_conn : ∃ p, peers w !! conn = Some p;
  Hd_ta : (winv (Some ta) w ∧ ∃ t ty s, tas w !! ta = Some t ∧ ta_ok ty s rq t ∧ final s) ∨
          (winv None w ∧ ∃ t, tas w !! ta = Some t ∧ proto_ta_has_term t = false);
  Hd_answered : answered conn q0 rq w
}.

Section request.
Context (conn ta : loc) (q0 : list msg) (ty : proto_ta_type) (rq : request).

(** In a good state the transaction and the connection are there. *)
Record handling (s : proto_ta_state) (w : world) : Prop := {
  Hg_winv : winv (Some ta) w;
  Hg_ta : ∃ t, tas w !! ta = Some t ∧ ta_ok ty s rq t;
  Hg_conn : ∃ p, peers w !! conn = Some p;
  Hg_queue : queue_from w conn q0
}.

Lemma handling_only_queues s w w' : handling s w → only_queues w w' → handling s w'.
Proof.
  intros [W Ht Hp Hq] O. split; [by eapply winv_only_queues| | |].
  - by rewrite (Q_tas _ _ O).
  - by rewrite (Q_peers _ _ O).
  - by eapply queue_from_only_queues.
Qed.

Lemma handling_same s w w' : handling s w → winv (Some ta) w' → tas w' = tas w →
  peers w' = peers w → (queue_from w conn q0 → queue_from w' conn q0) → handling s w'.
Proof.
  intros [W Ht Hp Hq] W' E1 E2 E3. split; [done|by rewrite E1|by rewrite E2|by apply E3].
Qed.

Lemma handling_state s s' t w : handling s w → tas w !! ta = Some t → ta_ok ty s rq t →
  handling s' (set_tas <[ta := ta_with_state s' t]> w).
Proof.
  intros [W _ Hp Hq] Ht Hok. split; [..|exact Hq].
  - apply winv_ta_insert; [done|by eexists].
  - eexists. simpl. rewrite lookup_insert_eq. split; [done|]. by eapply ta_ok_with_state.
  - done.
Qed.

Lemma handling_handled s w : handling s w → final s → answered conn q0 rq w →
  handled conn ta q0 rq w.
Proof.
  intros [W (t & Ht & Hok) Hp _] Hs Ha. split; [done| |done]. left. split; [done|]. by exists t, ty, s.
Qed.

Lemma wp_queue s w m (Q : unit → world → Prop) : handling s w →
  (∀ w', handling s w' → queued w' conn q0 m → Q tt w') → wp (queue_response conn m) Q w.
Proof.
  intros H HQ. destruct (Hg_conn _ _ H) as [p Hp]. eapply wp_queue_message; [exact Hp|].
  intros w' O Hm. apply HQ; [by eapply handling_only_queues|apply Hm, H].
Qed.

Abbreviation response k m := (is_response (json_t := json_t) (rq_type rq) (rq_id rq) k m).

(** The last response. *)
Lemma wp_queue_last s w k m : handling s w → final s → response k m →
  k = proto_msg_type_complete ∨ k = proto_msg_type_fail →
  wp (queue_response conn m) (λ _ w', handled conn ta q0 rq w') w.
Proof.
  intros H Hs Hm Hk. eapply wp_queue; [exact H|]. intros w' H' Hq.
  eapply handling_handled; [exact H'|exact Hs|]. exists k, m. tauto.
Qed.

(** The responses. *)
Lemma wp_fail s w reason (Q : msg → world → Prop) : handling s w → ¬ final s →
  (∀ m w', handling proto_ta_state_failed w' → response proto_msg_type_fail m → Q m w') →
  s ≠ proto_ta_state_initialized → wp (ta_fail (json_t := json_t) ta reason) Q w.
Proof.
  intros H Hf HQ Hi. destruct (Hg_ta _ _ H) as (t & Ht & Hok).
  eapply wp_ta_fail; [exact Ht|exact Hok| |].
  - unfold final in Hf. destruct s, (ia_type ty); try done; (exfalso; by auto).
  - intros m Hm. eapply HQ; [|exact Hm]. by eapply handling_state.
Qed.

Lemma wp_complete s w ap (Q : msg → world → Prop) : handling s w →
  next_state (ia_type ty) s proto_msg_type_complete = Some proto_ta_state_completed →
  Forall2 (safe_arg (json_t := json_t) false) (complete_fields ty) ap →
  (∀ m w', handling proto_ta_state_completed w' → response proto_msg_type_complete m → Q m w') →
  wp (ta_complete (json_t := json_t) ta ap) Q w.
Proof.
  intros H Hs Ha HQ. destruct (Hg_ta _ _ H) as (t & Ht & Hok).
  eapply wp_ta_complete; [exact Ht|exact Hok|done|done|]. intros m Hm.
  eapply HQ; [|exact Hm]. by eapply handling_state.
Qed.

Lemma wp_accept w (Q : msg → world → Prop) : handling proto_ta_state_requested w →
  ia_type ty = proto_ia_type_multi_response →
  (∀ m w', handling proto_ta_state_accepted w' → Q m w') →
  wp (ta_accept (json_t := json_t) ta []) Q w.
Proof.
  intros H Hi HQ. destruct (Hg_ta _ _ H) as (t & Ht & Hok).
  eapply wp_ta_accept; [exact Ht|exact Hok|by rewrite Hi|]. intros m _. by eapply HQ, handling_state.
Qed.

Lemma wp_notify w ap (Q : msg → world → Prop) : handling proto_ta_state_accepted w →
  ia_type ty = proto_ia_type_multi_response →
  args_safe (json_t := json_t) ty proto_msg_type_notify ap →
  (∀ m, Q m w) → wp (ta_notify (json_t := json_t) ta ap) Q w.
Proof.
  intros H Hi Ha HQ. destruct (Hg_ta _ _ H) as (t & Ht & Hok). by eapply wp_ta_notify.
Qed.

(** A response that ends the request, and its queueing. *)
Lemma wp_fail_queue s w reason : handling s w → ¬ final s → s ≠ proto_ta_state_initialized →
  wp (m ← ta_fail (json_t := json_t) ta reason; queue_response conn m)
    (λ _ w', handled conn ta q0 rq w') w.
Proof.
  intros H Hf Hi. apply wp_bind. eapply wp_fail; [exact H|done| |done]. intros m w1 H1 Hm.
  eapply wp_queue_last; [exact H1|by right|exact Hm|by right].
Qed.

Lemma wp_complete_queue s w ap : handling s w →
  next_state (ia_type ty) s proto_msg_type_complete = Some proto_ta_state_completed →
  Forall2 (safe_arg (json_t := json_t) false) (complete_fields ty) ap →
  wp (m ← ta_complete (json_t := json_t) ta ap; queue_response conn m)
    (λ _ w', handled conn ta q0 rq w') w.
Proof.
  intros H Hs Ha. apply wp_bind. eapply wp_complete; [exact H|done|done|]. intros m w1 H1 Hm.
  eapply wp_queue_last; [exact H1|by left|exact Hm|by left].
Qed.

(** Reading a field of the request. *)
Lemma wp_uint63 s w i name (Q : Z → world → Prop) : handling s w →
  req_fields ty !! i = Some (Field name proto_field_type_uint63) →
  (∀ z, rq_values rq !! i = Some (Some (FUint63 z)) → (0 ≤ z ≤ int64_max)%Z → Q z w) →
  wp (with_ta ta (λ t, proto_ta_get_req_field_uint63_value t i)) Q w.
Proof.
  intros H Hf HQ. destruct (Hg_ta _ _ H) as (t & Ht & Hok).
  destruct (get_uint63_ok _ _ _ _ _ _ Hok Hf) as (z & Hz & Hr & E).
  eapply wp_with_ta; [exact Ht|exact E|by apply HQ].
Qed.

Lemma wp_props s w i name (Q : props → world → Prop) : handling s w →
  req_fields ty !! i = Some (Field name proto_field_type_props) →
  (∀ p, rq_values rq !! i = Some (Some (FProps p)) → P p → Q p w) →
  wp (with_ta ta (λ t, proto_ta_get_req_field_props_value t i)) Q w.
Proof.
  intros H Hf HQ. destruct (Hg_ta _ _ H) as (t & Ht & Hok).
  destruct (get_props_ok _ _ _ _ _ _ Hok Hf) as (p & Hp & Hr & E).
  eapply wp_with_ta; [exact Ht|exact E|by apply HQ].
Qed.

Lemma wp_opt_str s w i name (Q : option cstr → world → Prop) : handling s w →
  opt_req_fields ty !! i = Some (Field name proto_field_type_str) →
  (∀ v, rq_opt_values rq !! i = Some (FStr <$> v) → Q v w) →
  wp (with_ta ta (λ t, proto_ta_get_opt_req_field_str_value t i)) Q w.
Proof.
  intros H Hf HQ. destruct (Hg_ta _ _ H) as (t & Ht & Hok).
  destruct (get_opt_str_ok _ _ _ _ _ _ Hok Hf) as (v & Hv & E).
  eapply wp_with_ta; [exact Ht|exact E|by apply HQ].
Qed.

(** The connection of a client. *)
Lemma wp_client s w p (Q : proto_conn → world → Prop) : handling s w → peers w !! conn = Some p →
  (0 ≤ p_id p)%Z →
  (∀ c, peer_of c = p → connected (core w) (p_id p) = true → (p_id p ≤ int64_max)%Z → Q c w) →
  wp (load_pconn conn) Q w.
Proof.
  intros H Hp H0 HQ. eapply wp_load_peer; [exact Hp|]. intros c _ Ec.
  destruct (P_connected _ _ _ _ (W_peers _ _ (Hg_winv _ _ H)) _ _ Hp H0). by apply HQ.
Qed.
End request.

(** ** Limits of requests

    Times to live are below 2^32 seconds, values have the lengths of strings in
    memory, and patterns have no part behind a wildcard in the middle (see
    [Filter.simple]). *)
Definition filter_fine (fs : option cstr) : bool :=
  match request_filter fs with Some (Some f) => simple_b f | _ => true end.

Definition within_limits (rq : request) : bool :=
  forallb (λ v, match v with Some (FProps p) => bool_decide (props_fit p) | _ => true end)
    (rq_values rq) &&
  forallb (λ v, match v with Some (FStr s) => filter_fine (Some s) | _ => true end)
    (rq_opt_values rq) &&
  match cmd (rq_type rq), rq_values rq !! 3 with
  | name, Some (Some (FUint63 ttl)) =>
      bool_decide (name = PROTO_CMD_PUBLISH → (ttl ≤ 2 ^ 32)%Z)
  | _, _ => true
  end.

Lemma limits_props rq i p : within_limits rq = true → rq_values rq !! i = Some (Some (FProps p)) →
  props_fit p.
Proof.
  unfold within_limits. rewrite !andb_true_iff, !forallb_forall. intros [[H _] _] Hi.
  eapply bool_decide_eq_true_1, (H (Some (FProps p))). apply list_elem_of_In.
  by eapply list_elem_of_lookup_2.
Qed.

Lemma limits_filter rq i v : within_limits rq = true → rq_opt_values rq !! i = Some (FStr <$> v) →
  match request_filter v with Some (Some f) => simple f | _ => True end.
Proof.
  unfold within_limits. rewrite !andb_true_iff, !forallb_forall. intros [[_ H] _] Hi.
  destruct v as [s|]; [|done]. specialize (H (Some (FStr s))). unfold filter_fine in H.
  destruct (request_filter (Some s)) as [[f|]|]; [|done|done]. apply simple_b_spec, H.
  apply list_elem_of_In. by eapply list_elem_of_lookup_2.
Qed.

Lemma limits_ttl rq ttl : within_limits rq = true → rq_type rq = publish_ta →
  rq_values rq !! 3 = Some (Some (FUint63 ttl)) → (ttl ≤ 2 ^ 32)%Z.
Proof.
  unfold within_limits. rewrite !andb_true_iff. intros [_ H] Ety E. rewrite E, Ety in H.
  by apply (bool_decide_eq_true_1 _ H).
Qed.

(** ** Handlers that only change services *)

Section handlers.
Context (conn ta : loc) (q0 : list msg) (rq : request).
Abbreviation handling := (handling conn ta q0).
Abbreviation handled := (handled conn ta q0 rq).

Lemma handle_ping_ok w : handling ping_ta rq proto_ta_state_requested w →
  wp (handle_ping (json_t := json_t) conn ta) (λ _ w', handled w') w.
Proof. intros H. by eapply wp_complete_queue; [exact H| |constructor]. Qed.

Lemma handle_no_hello_ok ty w : handling ty rq proto_ta_state_requested w →
  wp (handle_no_hello (json_t := json_t) conn ta) (λ _ w', handled w') w.
Proof. intros H. eapply wp_fail_queue; [exact H|by intros []|done]. Qed.

Lemma not_final_requested : ¬ final proto_ta_state_requested.
Proof. by intros []. Qed.

(** The result code decides the response. *)
Ltac fails := (eapply wp_fail; [eassumption|by intros []| |done]).

Lemma handle_publish_ok w p : handling publish_ta rq proto_ta_state_requested w →
  peers w !! conn = Some p → (0 ≤ p_id p)%Z → within_limits rq = true → rq_type rq = publish_ta →
  wp (handle_publish (json_t := json_t) conn ta) (λ _ w', handled w') w.
Proof.
  intros H Hp H0 Hl Ety. unfold handle_publish.
  apply wp_bind. eapply wp_uint63; [exact H|done|]. intros id Eid Hid.
  apply wp_bind. eapply wp_uint63; [exact H|done|]. intros gen Egen Hgen.
  apply wp_bind. eapply wp_props; [exact H|done|]. intros pr Epr Hpr.
  apply wp_bind. eapply wp_uint63; [exact H|done|]. intros ttl Ettl Httl.
  apply wp_bind. eapply wp_client; [exact H|exact Hp|done|]. intros c Ec Hcon Hmax.
  assert (Eid' : pc_client_id c = p_id p) by (by rewrite <-Ec).
  pose proof (limits_props _ _ _ Hl Epr) as Hfit. pose proof (limits_ttl _ _ Hl Ety Ettl) as Hlim.
  apply wp_bind. eapply wp_settled_call; [|apply H| |].
  - by apply keeps_sd_publish.
  - rewrite Eid'. apply call_publish; [apply H|done|apply Hid|apply Hgen| |done].
    unfold ttl_ok. lia.
  - intros r w1 Hr W1 E1 E2 E3. assert (H1 : handling publish_ta rq proto_ta_state_requested w1)
      by (eapply handling_same; eauto).
    apply wp_bind. destruct Hr as [->|[->| ->]]; cbn [bool_decide].
    + eapply wp_complete; [exact H1|done|constructor|]. intros m w2 H2 Hm.
      eapply wp_queue_last; [exact H2|by left|exact Hm|by left].
    + fails. intros m w2 H2 Hm. eapply wp_queue_last; [exact H2|by right|exact Hm|by right].
    + fails. intros m w2 H2 Hm. eapply wp_queue_last; [exact H2|by right|exact Hm|by right].
Qed.

Lemma handle_unpublish_ok w p : handling unpublish_ta rq proto_ta_state_requested w →
  peers w !! conn = Some p → (0 ≤ p_id p)%Z →
  wp (handle_unpublish (json_t := json_t) conn ta) (λ _ w', handled w') w.
Proof.
  intros H Hp H0. unfold handle_unpublish.
  apply wp_bind. eapply wp_uint63; [exact H|done|]. intros id Eid Hid.
  apply wp_bind. eapply wp_client; [exact H|exact Hp|done|]. intros c Ec Hcon Hmax.
  assert (Eid' : pc_client_id c = p_id p) by (by rewrite <-Ec).
  apply wp_bind. eapply wp_settled_call; [|apply H| |].
  - apply keeps_sd_unpublish.
  - rewrite Eid'. apply call_unpublish; [apply H|done].
  - intros r w1 Hr W1 E1 E2 E3. assert (H1 : handling unpublish_ta rq proto_ta_state_requested w1)
      by (eapply handling_same; eauto).
    destruct Hr as [->| ->]; cbn [bool_decide].
    + by eapply wp_complete_queue; [exact H1| |constructor].
    + by eapply wp_fail_queue; [exact H1|apply not_final_requested|].
Qed.

(** ** Lists *)

Lemma wp_in_core {A} (op : M state A) (Q : A → world → Prop) w :
  wp op (λ a st', st' = core w ∧ Q a w) (core w) → wp (in_core op) Q w.
Proof.
  unfold wp, in_core. destruct (op (core w)) as [[a st']|]; [|done]. intros [-> HQ].
  by destruct w.
Qed.

(** A loop over a map of the core, whose body only responds. *)
Lemma wp_foreach ty w (get : state → amap loc) (cb : Z → loc → M world unit) :
  handling ty rq proto_ta_state_accepted w →
  (∀ id l w1, (id, l) ∈ get (core w) → handling ty rq proto_ta_state_accepted w1 →
     core w1 = core w →
     wp (cb id l) (λ _ w2, handling ty rq proto_ta_state_accepted w2 ∧ core w2 = core w) w1) →
  wp (m ← in_core (gets get); mforeach (λ kv, cb kv.1 kv.2) m)
    (λ _ w', handling ty rq proto_ta_state_accepted w') w.
Proof.
  intros H Hcb. apply wp_bind, wp_in_core, wp_gets. split; [done|].
  eapply (wp_mono _ (λ _ w', handling ty rq proto_ta_state_accepted w' ∧ core w' = core w));
    [|by intros [] w' [Hw _]].
  apply (wp_mforeach _ (λ _ w', handling ty rq proto_ta_state_accepted w' ∧ core w' = core w)); [done|].
  intros pre [id l] post w1 E [H1 E1]. apply Hcb; [|done|done].
  rewrite E. apply elem_of_app. right. left.
Qed.

(** A notification is queued. *)
Lemma wp_notify_queue ty w ap st : handling ty rq proto_ta_state_accepted w → core w = st →
  ia_type ty = proto_ia_type_multi_response →
  args_safe (json_t := json_t) ty proto_msg_type_notify ap →
  wp (m ← ta_notify (json_t := json_t) ta ap; queue_response conn m)
    (λ _ w2, handling ty rq proto_ta_state_accepted w2 ∧ core w2 = st) w.
Proof.
  intros H E Hi Ha. apply wp_bind. eapply wp_notify; [exact H|done|done|]. intros m.
  destruct (Hg_conn _ _ _ _ _ _ _ H) as [p Hp]. eapply wp_queue_response; [exact Hp|].
  intros w' O. split; [by eapply handling_only_queues|]. by rewrite (Q_core _ _ O).
Qed.

(** The services in the database. *)
Lemma db_service_fine w id l : winv (Some ta) w → (id, l) ∈ db_services (core w) →
  ∃ srv g p, services (core w) !! l = Some srv ∧ service_id srv = id ∧ current srv = Some g ∧
    gen_props g = Some p ∧ props_fit p ∧ P p ∧ (0 ≤ id ≤ int64_max)%Z ∧
    (0 ≤ gen_generation g ≤ int64_max)%Z ∧ (0 ≤ gen_ttl g ≤ int64_max)%Z ∧
    (0 ≤ gen_client_id g ≤ int64_max)%Z.
Proof.
  intros W Hin. pose proof (I_S _ (Good_inv _ (W_good _ _ W))) as HS.
  apply amap_get_elem in Hin; [|apply HS].
  destruct (S_get _ _ HS _ _ Hin) as (srv & Hsrv & Eid).
  destruct (S_ok _ _ HS _ _ Hsrv) as (_ & _ & g & Hg & Hok).
  pose proof (Fine_services _ _ (W_fine _ _ W) _ _ Hsrv) as Hf.
  destruct (service_args srv Hf) as (g' & p & Hg' & Hp & Ht & H1 & H2 & H3 & H4 & _); [by rewrite Hg|].
  assert (g' = g) as -> by congruence. rewrite <-Eid. exists srv, g, p. split_and!; try done; try lia.
  destruct Hok as (_ & Hpr & _). simpl in Hpr. by rewrite Hp in Hpr.
Qed.

Lemma service_notify_cb_ok w id l st : handling services_ta rq proto_ta_state_accepted w →
  core w = st → (id, l) ∈ db_services st →
  wp (service_notify_cb (json_t := json_t) conn ta id l)
    (λ _ w2, handling services_ta rq proto_ta_state_accepted w2 ∧ core w2 = st) w.
Proof.
  intros H E Hin. rewrite <-E in Hin.
  destruct (db_service_fine _ _ _ (Hg_winv _ _ _ _ _ _ _ H) Hin)
    as (srv & g & p & Hsrv & Eid & Hg & Hp & _ & Ht & H1 & H2 & H3 & H4).
  unfold service_notify_cb. apply wp_bind, wp_in_core. eapply wp_load; [exact Hsrv|].
  split; [done|].
  do 4 (apply wp_bind; eapply wp_lift;
    [unfold service_get_generation, service_get_props, service_get_ttl, service_get_client_id,
      service_get; rewrite Hg; reflexivity|]).
  apply wp_bind. eapply wp_lift; [by apply orphan_since_ok|]. rewrite Hp.
  apply wp_notify_queue; [done|done|done|].
  eexists [_; _; _; _; _], [_], []. split; [done|].
  split; repeat (apply Forall2_cons; split; [by split|]); [constructor|].
  apply Forall2_cons. split; [|constructor]. destruct (gen_orphan (Some g)); [by split|by left].
Qed.

Lemma handle_services_ok w : handling services_ta rq proto_ta_state_requested w →
  within_limits rq = true →
  wp (handle_services (json_t := json_t) conn ta) (λ _ w', handled w') w.
Proof.
  intros H Hl. unfold handle_services.
  apply wp_bind. eapply wp_opt_str; [exact H|done|]. intros fs Efs.
  pose proof (limits_filter _ _ _ Hl Efs) as Hf. apply wp_bind.
  set (Q := λ (o : option (option filter_t)) (w' : world), w' = w ∧
    match o with Some None => True | _ => match o ≫= id with Some f => simple f ∧ strings_ok f | None => True end end).
  assert (Hgo : ∀ o, Q o w → wp (match o with
      | Some None => response ← ta_fail (json_t := json_t) ta PROTO_FAIL_REASON_INVALID_FILTER_SYNTAX;
          queue_response conn response
      | _ => response ← ta_accept (json_t := json_t) ta [];
          _ ← queue_response conn response;
          _ ← sd_foreach_service (@in_core) (o ≫= id) (service_notify_cb (json_t := json_t) conn ta);
          response ← ta_complete (json_t := json_t) ta [];
          queue_response conn response end) (λ _ w', handled w') w).
  { intros o [_ Ho].
    assert (Hlist : match o ≫= id with Some f => simple f ∧ strings_ok f | None => True end →
      wp (response ← ta_accept (json_t := json_t) ta [];
          _ ← queue_response conn response;
          _ ← sd_foreach_service (@in_core) (o ≫= id) (service_notify_cb (json_t := json_t) conn ta);
          response ← ta_complete (json_t := json_t) ta [];
          queue_response conn response) (λ _ w', handled w') w).
    { intros Hok. apply wp_bind. eapply wp_accept; [exact H|done|]. intros m w1 H1.
      apply wp_bind. eapply wp_queue; [exact H1|]. intros w2 H2 _. apply wp_bind.
      eapply (wp_mono _ (λ _ w3, handling services_ta rq proto_ta_state_accepted w3));
    [|intros [] w3 H3; by eapply wp_complete_queue; [exact H3| |constructor]].
      apply (wp_foreach services_ta w2 db_services); [exact H2|].
      intros i l w3 Hin H3 E3. unfold forward_if_matches. apply wp_bind, wp_in_core.
      rewrite <-E3 in Hin. destruct (db_service_fine _ _ _ (Hg_winv _ _ _ _ _ _ _ H3) Hin)
        as (srv & g & p & Hsrv & Eid & Hg & Hp & Hfit & _).
      assert (Hcb : wp (service_notify_cb (json_t := json_t) conn ta i l)
        (λ _ w4, handling services_ta rq proto_ta_state_accepted w4 ∧ core w4 = core w2) w3).
      { apply service_notify_cb_ok; [done|done|]. by rewrite <-E3. }
      destruct (o ≫= id) as [f|]; [|apply wp_ret; by split].
      apply wp_bind. eapply (wp_read _ _ _ (Some p)); [exact Hsrv| |].
      { unfold service_get_props, service_get. rewrite Hg. simpl. by rewrite Hp. }
      apply wp_bind. eapply wp_lift; [done|]. destruct Hok as [Hs1 Hs2], Hfit as [Hp1 Hp2].
      eapply wp_lift; [by apply filter_matches_fsat|]. split; [done|].
      destruct (fsat f p); [done|]. apply wp_ret. by split. }
    destruct o as [[f|]|]; [by apply Hlist| |by apply Hlist].
    by eapply wp_fail_queue; [exact H|apply not_final_requested|]. }
  assert (Hw : wp (match fs with
      | Some s => f ← lift (filter_parse s); mret (Some f) | None => mret None end) Q w).
  { destruct fs as [s|]; [|by apply wp_ret].
    destruct (filter_parse_wp s) as (r & E & Hr). apply wp_bind. eapply wp_lift; [exact E|].
    apply wp_ret. split; [done|]. destruct r as [f|]; [|done]. simpl.
    pose proof (request_filter_ok (Some s) (Some f)) as Hok. unfold request_filter in Hok, Hf.
    rewrite E in Hok, Hf. by apply Hok. }
  eapply wp_mono; [exact Hw|]. intros o w' [-> Ho]. by apply Hgo.
Qed.

Lemma handle_subscriptions_ok w : handling subscriptions_ta rq proto_ta_state_requested w →
  wp (handle_subscriptions (json_t := json_t) conn ta) (λ _ w', handled w') w.
Proof.
  intros H. unfold handle_subscriptions.
  apply wp_bind. eapply wp_accept; [exact H|done|]. intros m w1 H1.
  apply wp_bind. eapply wp_queue; [exact H1|]. intros w2 H2 _. apply wp_bind.
  eapply (wp_mono _ (λ _ w3, handling subscriptions_ta rq proto_ta_state_accepted w3));
    [|intros [] w3 H3; by eapply wp_complete_queue; [exact H3| |constructor]].
  apply (wp_foreach subscriptions_ta w2 db_subs); [exact H2|].
  intros id l w3 Hin H3 E3. unfold sub_notify_cb. apply wp_bind, wp_in_core.
  rewrite <-E3 in Hin. pose proof (Hg_winv _ _ _ _ _ _ _ H3) as W.
  pose proof (I_U _ (Good_inv _ (W_good _ _ W))) as HU. apply amap_get_elem in Hin; [|apply HU].
  destruct (U_get _ _ _ _ HU _ _ Hin) as (s & Hs & <-). destruct (U_ok _ _ _ _ HU _ _ Hs) as (H0 & _).
  pose proof (Fine_subs _ _ (W_fine _ _ W) _ _ Hs) as Hmax.
  eapply wp_load; [exact Hs|]. split; [done|].
  destruct (L_sub _ _ _ _ (W_links _ _ W) _ _ Hs) as (c & p & t & _ & Hp & <- & Ht).
  assert (Hcid : (0 ≤ p_id p ≤ int64_max)%Z).
  { destruct (decide (0 ≤ p_id p)%Z) as [Hn|Hn].
    - by destruct (P_connected _ _ _ _ (W_peers _ _ W) _ _ Hp Hn).
    - rewrite (P_hello _ _ _ _ (W_peers _ _ W) _ _ Hp) in Ht by lia. done. }
  apply wp_notify_queue; [done|done|done|].
  eexists [_; _], [_], []. split; [done|].
  split; repeat (apply Forall2_cons; split; [by split|]); [constructor|].
  apply Forall2_cons. split; [|constructor]. destruct (sub_get_filter_str s); [by split|by left].
Qed.

Lemma handle_clients_ok w : handling clients_ta rq proto_ta_state_requested w →
  wp (handle_clients (json_t := json_t) conn ta) (λ _ w', handled w') w.
Proof.
  intros H. unfold handle_clients.
  apply wp_bind. eapply wp_accept; [exact H|done|]. intros m w1 H1.
  apply wp_bind. eapply wp_queue; [exact H1|]. intros w2 H2 _. apply wp_bind.
  eapply (wp_mono _ (λ _ w3, handling clients_ta rq proto_ta_state_accepted w3));
    [|intros [] w3 H3; by eapply wp_complete_queue; [exact H3| |constructor]].
  apply (wp_foreach clients_ta w2 db_clients); [exact H2|].
  intros id l w3 Hin H3 E3. unfold client_notify_cb. apply wp_bind, wp_in_core.
  rewrite <-E3 in Hin. pose proof (Hg_winv _ _ _ _ _ _ _ H3) as W.
  pose proof (I_C _ (Good_inv _ (W_good _ _ W))) as HC. apply amap_get_elem in Hin; [|apply HC].
  destruct (C_get _ _ _ HC _ _ Hin) as (cl & Hcl & <-). destruct (C_ok _ _ _ HC _ _ Hcl) as (H0 & _).
  pose proof (Fine_clients _ _ (W_fine _ _ W) _ _ Hcl) as Hmax.
  eapply wp_load; [exact Hcl|]. split; [done|]. unfold client_is_connected.
  destruct (active_conn cl) as [a|] eqn:Ea; [|apply wp_ret; by split].
  destruct (C_active _ _ _ HC _ _ _ Hcl Ea) as (k & Hk & _).
  apply wp_bind. eapply wp_lift; [done|]. apply wp_bind, wp_in_core. eapply wp_load; [exact Hk|].
  split; [done|].
  destruct (d_trunc_time _ (proj1 (Fine_conns _ _ (W_fine _ _ W) _ _ Hk))) as (z & Ez & Hz).
  apply wp_bind. eapply wp_lift; [exact Ez|].
  apply wp_notify_queue; [done|done|done|].
  assert (Hz' : (0 ≤ z ≤ int64_max)%Z) by (unfold int64_max; lia).
  eexists [_; _; _], [], []. split; [done|]. split; [|constructor].
  apply Forall2_cons. split; [by split|]. apply Forall2_cons. split.
  { destruct (remote_addr k); [by split|by right]. }
  apply Forall2_cons. split; [by split|constructor].
Qed.

(** ** Hello *)

Lemma peers_insert w l c : peers (set_pconns <[l := c]> w) = <[l := peer_of c]> (peers w).
Proof. unfold peers. simpl. apply fmap_insert. Qed.

Lemma winv_handshake X w w1 c id st' cl' : winv X w → only_queues (set_core st' w) w1 →
  pconns w1 !! conn = Some c → (pc_client_id c < 0)%Z → (0 ≤ id ≤ int64_max)%Z →
  connected (core w) id = false → good st' → fine P st' → subs st' = subs (core w) →
  (∀ c', connected st' c' = if decide (c' = id) then true else connected (core w) c') →
  NoDup cl' → (∀ x, x ∈ cl' ↔ x ∈ clientless_conns w1 ∧ x ≠ conn) →
  winv X (set_client_conns (λ l, l ++ [conn]) (set_clientless_conns (λ _, cl')
            (set_pconns <[conn := with_client_id id c]> w1))).
Proof.
  intros W O Hc Hneg Hid Hnc G F Hsubs Hcon Hnd Hcl.
  assert (Epeers : peers w1 = peers w) by exact (Q_peers _ _ O).
  assert (Hp : peers w !! conn = Some (peer_of c)).
  { rewrite <-Epeers. apply peers_lookup. eauto. }
  pose proof (P_hello _ _ _ _ (W_peers _ _ W) _ _ Hp Hneg) as Hidle.
  split; simpl; rewrite ?(Q_core _ _ O); [done|done| | | |].
  - rewrite (Q_tas _ _ O). simpl. rewrite Hsubs. unfold peers. simpl. rewrite fmap_insert.
    change (peer_of <$> pconns w1) with (peers w1). rewrite Epeers.
    eapply (links_idle _ _ _ _ (W_links _ _ W) _ conn).
    + intros p Hp'. congruence.
    + intros p. rewrite lookup_insert_eq. by intros [= <-].
    + intros conn' Hne. by rewrite lookup_insert_ne.
  - rewrite (Q_cc _ _ O). unfold peers. simpl. rewrite fmap_insert.
    change (peer_of <$> pconns w1) with (peers w1). rewrite Epeers.
    pose proof (peers_handshake (core w) _ _ _ (W_peers _ _ W) conn (peer_of c) id st' cl') as HP.
    apply HP; try done. intros x. by rewrite Hcl, (Q_cl _ _ O).
  - rewrite (Q_tas _ _ O), (Q_next _ _ O). apply W.
  - rewrite (Q_next _ _ O). intros l Hle. unfold peers. simpl. rewrite fmap_insert.
    rewrite lookup_insert_ne.
    + change (peer_of <$> pconns w1) with (peers w1). rewrite Epeers.
      by apply (W_fresh_conns _ _ W).
    + intros <-. by rewrite (W_fresh_conns _ _ W) in Hp.
Qed.

Lemma handle_hello_ok xcm_remote_addr w : handling hello_ta rq proto_ta_state_requested w →
  wp (handle_hello (json_t := json_t) xcm_remote_addr conn_handshake_cb conn ta)
    (λ _ w', handled w') w.
Proof.
  intros H. unfold handle_hello.
  apply wp_bind. eapply wp_uint63; [exact H|done|]. intros id Eid Hid.
  apply wp_bind. eapply wp_uint63; [exact H|done|]. intros minv _ _.
  apply wp_bind. eapply wp_uint63; [exact H|done|]. intros maxv _ _.
  destruct (Hg_conn _ _ _ _ _ _ _ H) as [p Hp].
  apply wp_bind. eapply wp_load_peer; [exact Hp|]. intros c Hc Ec.
  assert (Hfail : ∀ w1 reason, handling hello_ta rq proto_ta_state_requested w1 →
    wp (ta_fail (json_t := json_t) ta reason)
      (λ m w2, wp (queue_response conn m) (λ _ w', handled w') w2) w1).
  { intros w1 reason H1. fails. intros m w2 H2 Hm.
    eapply wp_queue_last; [exact H2|by right|exact Hm|by right]. }
  assert (Hdone : ∀ w1, handling hello_ta rq proto_ta_state_requested w1 →
    wp (ta_complete (json_t := json_t) ta [Some (FUint63 PROTO_VERSION)])
      (λ m w2, wp (queue_response conn m) (λ _ w', handled w') w2) w1).
  { intros w1 H1. eapply wp_complete; [exact H1|done| |].
    { apply Forall2_cons. split; [by split|constructor]. }
    intros m w2 H2 Hm. eapply wp_queue_last; [exact H2|by left|exact Hm|by left]. }
  apply wp_bind. unfold has_finished_handshake.
  destruct (bool_decide (0 ≤ pc_client_id c)%Z) eqn:Eh.
  { destruct (bool_decide (pc_client_id c ≠ id)); [by apply Hfail|by apply Hdone]. }
  apply bool_decide_eq_false_1 in Eh.
  destruct (_ || _); [by apply Hfail|].
  apply wp_bind. apply wp_sd_call; [by apply keeps_sd_client_connect|apply H|].
  pose proof (Hg_winv _ _ _ _ _ _ _ H) as W.
  eapply wp_mono; [apply (call_connect _ id); [apply W|apply Hid]|].
  intros r st' [(-> & -> & _)|(-> & G & Hsubs & Hcalls & Hnc & Hcon)]; exists [].
  - rewrite app_nil_r. split; [done|]. split; [constructor|]. intros _ w1 O. apply Hfail.
    eapply handling_only_queues; [|exact O]. by destruct w.
  - rewrite app_nil_r. split; [done|]. split; [constructor|]. intros F w1 O. cbn [bool_decide].
    apply wp_bind. eapply wp_lift; [done|]. apply wp_bind.
    assert (Hp1 : peers w1 !! conn = Some p) by (by rewrite (Q_peers _ _ O)).
    pose proof Hp1 as (c1 & Hc1 & Ec1)%peers_lookup.
    assert (Hneg : (pc_client_id c1 < 0)%Z).
    { change (pc_client_id c1) with (p_id (peer_of c1)). rewrite <-Ec1, <-Ec. simpl. lia. }
    eapply wp_update_pconn; [exact Hc1|]. apply wp_bind. eapply wp_lift; [done|].
    apply wp_bind. unfold conn_handshake_cb. apply wp_bind.
    assert (Hin : conn ∈ clientless_conns w1).
    { rewrite (Q_cl _ _ O). apply (P_in_cl _ _ _ _ (W_peers _ _ W)). exists p. split; [done|].
      rewrite Ec1. done. }
    destruct (list_del_first_ok conn (clientless_conns w1)) as (cl' & Ecl & Hnd & Hcl); [done| |].
    { rewrite (Q_cl _ _ O). apply (P_cl _ _ _ _ (W_peers _ _ W)). }
    unfold clientless_del, wp at 1. simpl. rewrite Ecl. apply wp_modify. apply Hdone. split.
    + by eapply winv_handshake.
    + destruct (Hg_ta _ _ _ _ _ _ _ H) as (t & Ht & Hok). exists t. simpl.
      by rewrite (Q_tas _ _ O).
    + eexists. unfold peers. simpl. rewrite fmap_insert. apply lookup_insert_eq.
    + pose proof (queue_from_only_queues _ _ _ _ O (Hg_queue _ _ _ _ _ _ _ H)) as (c2 & Hc2 & Hq).
      simplify_eq. eexists. simpl. by rewrite lookup_insert_eq.
Qed.

(** ** Subscriptions *)

(** Failing after a call of the core that has changed nothing. *)
Lemma wp_refused ty w w1 reason : handling ty rq proto_ta_state_requested w →
  only_queues (set_core (core w) w) w1 →
  wp (m ← ta_fail (json_t := json_t) ta reason; queue_response conn m)
    (λ _ w', handled w') w1.
Proof.
  intros H O. eapply wp_fail_queue; [|apply not_final_requested|done].
  eapply handling_only_queues; [exact H|]. by destruct w.
Qed.

(** The new subscription is linked to the connection. *)
Lemma winv_subscribed w w4 p st1 l s t c1 :
  handling subscribe_ta rq proto_ta_state_requested w → peers w !! conn = Some p → (0 ≤ p_id p)%Z →
  tas w !! ta = Some t → ta_ok subscribe_ta proto_ta_state_requested rq t →
  subs (core w) !! l = None → subs st1 = <[l := s]> (subs (core w)) →
  (∀ x s', subs (core w) !! x = Some s' → sub_id s' ≠ sub_id s) →
  match_cb_data s = Z.pos conn → sub_client_id s = p_id p →
  peer_of c1 = Peer (p_id p) (p_subs p ++ [(sub_id s, ta)]) (p_term p) →
  only_queues (set_tas <[ta := ta_with_state proto_ta_state_accepted t]>
                 (set_pconns <[conn := c1]> (set_core st1 w))) w4 →
  links (json_t := json_t) None (subs (core w4)) (tas w4) (peers w4) ∧
  ∀ st', good st' → fine P st' → subs st' = subs (core w4) →
    (∀ c, connected st' c = connected (core w) c) → winv None (set_core st' w4).
Proof.
  intros H Hp H0 Ht Hok Hl Hsubs Hfresh Hd Hc Ec O. pose proof (Hg_winv _ _ _ _ _ _ _ H) as W.
  assert (Epeers : peers w4 = <[conn := peer_of c1]> (peers w)).
  { rewrite (Q_peers _ _ O). unfold peers. simpl. apply fmap_insert. }
  assert (Ecore : core w4 = st1) by apply O.
  assert (Etas : tas w4 = <[ta := ta_with_state proto_ta_state_accepted t]> (tas w)) by apply O.
  pose proof (links_ta_insert _ _ _ _ (W_links _ _ W) ta
    (ta_with_state proto_ta_state_accepted t) eq_refl) as L.
  destruct (links_subscribe _ _ _ _ L ta (ta_with_state proto_ta_state_accepted t) conn p l s)
    as [_ L']; try done.
  { apply lookup_insert_eq. }
  { exists rq. by eapply ta_ok_with_state. }
  assert (L4 : links (json_t := json_t) None (subs (core w4)) (tas w4) (peers w4)).
  { by rewrite Ecore, Hsubs, Etas, Epeers, Ec. }
  split; [done|]. intros st' G F Es Econ. split; simpl; [done|done| | | |].
  - by rewrite Es.
  - rewrite (Q_cc _ _ O), (Q_cl _ _ O). change (peers (set_core st' w4)) with (peers w4).
    rewrite Epeers, Ec. eapply peers_connected; [|exact Econ].
    apply peers_subs; [apply W|done|done].
  - rewrite Etas, (Q_next _ _ O). simpl. intros t' Hle.
    rewrite lookup_insert_ne; [by apply (W_fresh_tas _ _ W)|].
    intros <-. by rewrite (W_fresh_tas _ _ W) in Ht.
  - change (peers (set_core st' w4)) with (peers w4). rewrite Epeers, (Q_next _ _ O). simpl.
    intros l' Hle. rewrite lookup_insert_ne; [by apply (W_fresh_conns _ _ W)|].
    intros <-. by rewrite (W_fresh_conns _ _ W) in Hp.
Qed.

Lemma handle_subscribe_ok w p : handling subscribe_ta rq proto_ta_state_requested w →
  peers w !! conn = Some p → (0 ≤ p_id p)%Z → within_limits rq = true →
  wp (handle_subscribe (json_t := json_t) conn ta) (λ _ w', handled w') w.
Proof.
  intros H Hp H0 Hl. unfold handle_subscribe. pose proof (Hg_winv _ _ _ _ _ _ _ H) as W.
  apply wp_bind. eapply wp_uint63; [exact H|done|]. intros id Eid Hid.
  apply wp_bind. eapply wp_opt_str; [exact H|done|]. intros fs Efs.
  apply wp_bind. eapply wp_client; [exact H|exact Hp|done|]. intros c Ec Hcon Hmax.
  assert (Eid' : pc_client_id c = p_id p) by (by rewrite <-Ec).
  apply wp_bind, wp_sd_call; [by apply keeps_sd_create_sub|apply W|]. rewrite Eid'.
  eapply wp_mono; [apply (call_create_sub _ _ (W_good _ _ W) Hcon id fs (Z.pos conn));
    [apply Hid|by eapply limits_filter]|].
  intros r st1 [[Hr ->]|(-> & l & s & Cr)]; exists [].
  - rewrite app_nil_r. split; [done|]. split; [constructor|]. intros _ w1 O.
    destruct Hr as [-> | ->]; cbn [bool_decide]; by apply (wp_refused subscribe_ta w).
  - rewrite app_nil_r. split; [apply Cr|]. split; [constructor|]. intros F1 w1 O. cbn [bool_decide].
    apply wp_bind. eapply wp_lift; [done|]. apply wp_bind.
    destruct Cr as [Hl0 Hsubs (Esid & Escl & Escb) Hcon1 _ Hfresh Hact].
    destruct (Hg_ta _ _ _ _ _ _ _ H) as (t & Ht & Hok).
    assert (Hp1 : peers w1 !! conn = Some p) by (by rewrite (Q_peers _ _ O)).
    pose proof Hp1 as (c1 & Hc1 & Ec1)%peers_lookup.
    assert (Hnone : amap_get (sub_tas c1) id = None).
    { change (sub_tas c1) with (p_subs (peer_of c1)). rewrite <-Ec1.
      destruct (amap_get (p_subs p) id) as [t'|] eqn:E; [|done].
      destruct (L_entry _ _ _ _ (W_links _ _ W) _ _ _ _ Hp E) as (x & s' & Hs' & E' & _).
      by destruct (Hfresh _ _ Hs'). }
    unfold proto_ta_map_add. apply wp_bind. eapply wp_load_pconn; [exact Hc1|].
    apply wp_bind. eapply wp_lift; [by apply amap_add_None|].
    eapply wp_update_pconn; [exact Hc1|]. apply wp_bind.
    set (c2 := with_sub_tas _ c1).
    eapply wp_ta_accept; [|exact Hok|done|]. { simpl. by rewrite (Q_tas _ _ O). }
    intros m Hm. apply wp_bind. set (w2 := set_tas _ _).
    assert (Hp2 : peers w2 !! conn = Some (peer_of c2)).
    { unfold w2, peers. simpl. rewrite fmap_insert. apply lookup_insert_eq. }
    eapply wp_queue_message; [exact Hp2|]. intros w4 O4 Hq.
    assert (Ha : answered conn q0 rq w4).
    { exists proto_msg_type_accept, m. split_and!; [|exact Hm|].
      - apply Hq. eapply (queue_from_update w1); [exact Hc1|done|].
        eapply queue_from_only_queues; [exact O|apply H].
      - right. right. split; [done|apply Hok]. }
    set (w3 := set_tas <[ta := ta_with_state proto_ta_state_accepted t]>
                 (set_pconns <[conn := c2]> (set_core st1 w))).
    assert (O2 : only_queues w3 w2).
    { unfold w2, w3. split; simpl; try apply O.
      - by rewrite (Q_tas _ _ O).
      - unfold peers. simpl. rewrite !fmap_insert. f_equal. apply (Q_peers _ _ O).
      - intros l' c' [[<- <-]|[Hne Hc']]%lookup_insert_Some.
        + exists c2. by rewrite lookup_insert_eq.
        + rewrite lookup_insert_ne by done. by apply (Q_grows _ _ O). }
    assert (O3 : only_queues w3 w4) by by etrans.
    assert (Ec2 : peer_of c2 = Peer (p_id p) (p_subs p ++ [(sub_id s, ta)]) (p_term p)).
    { rewrite Ec1, Esid. done. }
    destruct (winv_subscribed w w4 p st1 l s t c2 H Hp H0 Ht Hok Hl0 Hsubs) as [L4 Hnew]; try done.
    { intros x s' Hs'. rewrite Esid. by eapply Hfresh. }
    assert (Ecore : core w4 = st1) by apply O3.
    apply wp_sd_call; [apply keeps_sd_activate_sub|by rewrite Ecore|].
    rewrite Ecore. eapply wp_mono; [exact Hact|]. intros [] st' (G' & Esubs' & Econ' & Hcalls).
    destruct (calls_heard None w4 st') as (calls & Ecalls & Hh).
    { exact L4. }
    { by rewrite Ecore, Esubs'. }
    { by rewrite Ecore. }
    rewrite Ecore in Ecalls. exists calls. split; [done|]. split; [done|]. intros F' w5 O5.
    assert (W5 : winv None (set_core st' w4)).
    { apply Hnew; [done|done|by rewrite Ecore|]. intros x. by rewrite Econ', Hcon1. }
    split.
    + exists (peer_of c2). rewrite (Q_peers _ _ O5). change (peers (set_core st' w4)) with (peers w4).
      by rewrite (Q_peers _ _ O4).
    + right. split; [by eapply winv_only_queues|].
      exists (ta_with_state proto_ta_state_accepted t). rewrite (Q_tas _ _ O5). simpl.
      rewrite (Q_tas _ _ O3). simpl. by rewrite lookup_insert_eq.
    + destruct Ha as (k & m' & Hq' & Hm'). exists k, m'. split; [|done].
      eapply queued_only_queues; [exact O5|exact Hq'].
Qed.

Lemma winv_unsubscribed w w1 p st' l s t t' c2 :
  handling unsubscribe_ta rq proto_ta_state_requested w → peers w !! conn = Some p → (0 ≤ p_id p)%Z →
  tas w !! ta = Some t → ta_ok unsubscribe_ta proto_ta_state_requested rq t →
  subs (core w) !! l = Some s → sub_client_id s = p_id p →
  amap_get (p_subs p) (sub_id s) = Some t' →
  good st' → fine P st' → subs st' = delete l (subs (core w)) →
  (∀ c, connected st' c = connected (core w) c) →
  only_queues (set_core st' w) w1 →
  peer_of c2 = Peer (p_id p) (amap_remove (p_subs p) (sub_id s)) (p_term p) →
  queue_from (set_pconns <[conn := c2]> w1) conn q0 →
  let tc := ta_with_state proto_ta_state_completed t in
  handling unsubscribe_ta rq proto_ta_state_completed
    (set_tas (λ m, delete t' (<[ta := tc]> m)) (set_pconns <[conn := c2]> w1)).
Proof.
  intros H Hp H0 Ht Hok Hs Hc Hg G F Hsubs Hcon O Ec2 Hq tc. pose proof (Hg_winv _ _ _ _ _ _ _ H) as W.
  assert (Epeers : peers w1 = peers w) by exact (Q_peers _ _ O).
  assert (Hne : t' ≠ ta).
  { intros ->. eapply (L_free _ _ _ _ (W_links _ _ W) ta); [done|]. by exists p. }
  pose proof (links_ta_insert _ _ _ _ (W_links _ _ W) ta tc eq_refl) as L.
  split; [split|..]; simpl; rewrite ?(Q_core _ _ O); [done|done| | | | | | |exact Hq].
  - rewrite (Q_tas _ _ O). simpl. rewrite Hsubs. unfold peers. simpl. rewrite fmap_insert.
    change (peer_of <$> pconns w1) with (peers w1). rewrite Epeers, Ec2.
    eapply links_unsubscribe; [exact L|exact (P_uniq _ _ _ _ (W_peers _ _ W))|
      exact (P_hello _ _ _ _ (W_peers _ _ W))|done| |done|done|done].
    intros x s' Hs' E. pose proof (I_U _ (Good_inv _ (W_good _ _ W))) as HU.
    pose proof (U_db _ _ _ _ HU _ _ Hs') as E1. pose proof (U_db _ _ _ _ HU _ _ Hs) as E2.
    congruence.
  - rewrite (Q_cc _ _ O), (Q_cl _ _ O). unfold peers. simpl. rewrite fmap_insert.
    change (peer_of <$> pconns w1) with (peers w1). rewrite Epeers, Ec2.
    eapply peers_connected; [|exact Hcon]. apply peers_subs; [apply W|done|done].
  - rewrite (Q_tas _ _ O), (Q_next _ _ O). simpl. intros x Hle. apply lookup_delete_None. right.
    rewrite lookup_insert_ne; [by apply (W_fresh_tas _ _ W)|].
    intros <-. by rewrite (W_fresh_tas _ _ W) in Ht.
  - unfold peers. simpl. rewrite fmap_insert. change (peer_of <$> pconns w1) with (peers w1).
    rewrite Epeers, (Q_next _ _ O). simpl. intros x Hle.
    rewrite lookup_insert_ne; [by apply (W_fresh_conns _ _ W)|].
    intros <-. by rewrite (W_fresh_conns _ _ W) in Hp.
  - exists tc. rewrite (Q_tas _ _ O). simpl. rewrite lookup_delete_ne, lookup_insert_eq by done.
    split; [done|]. by eapply ta_ok_with_state.
  - eexists. unfold peers. simpl. rewrite fmap_insert. apply lookup_insert_eq.
Qed.

Lemma handle_unsubscribe_ok w p : handling unsubscribe_ta rq proto_ta_state_requested w →
  peers w !! conn = Some p → (0 ≤ p_id p)%Z →
  wp (handle_unsubscribe (json_t := json_t) conn ta) (λ _ w', handled w') w.
Proof.
  intros H Hp H0. unfold handle_unsubscribe. pose proof (Hg_winv _ _ _ _ _ _ _ H) as W.
  apply wp_bind. eapply wp_uint63; [exact H|done|]. intros id Eid Hid.
  apply wp_bind. eapply wp_client; [exact H|exact Hp|done|]. intros c Ec Hcon Hmax.
  assert (Eid' : pc_client_id c = p_id p) by (by rewrite <-Ec).
  apply wp_bind, wp_sd_call; [by apply keeps_sd_unsubscribe|apply W|]. rewrite Eid'.
  eapply wp_mono; [apply (call_unsubscribe _ _ (W_good _ _ W) Hcon)|].
  assert (Hrefused : ∀ w1 reason, only_queues (set_core (core w) w) w1 →
    wp (m ← ta_fail (json_t := json_t) ta reason; mret (m, None))
      (λ a w2, wp (let '(unsub_response, sub_response) := a in
         _ ← queue_response conn unsub_response;
         match sub_response with Some m => queue_response conn m | None => mret tt end)
         (λ _ w', handled w') w2) w1).
  { intros w1 reason O. assert (H1 : handling unsubscribe_ta rq proto_ta_state_requested w1).
    { eapply handling_only_queues; [exact H|]. by destruct w. }
    apply wp_bind. fails. intros m w2 H2 Hm. apply wp_ret, wp_bind.
    eapply wp_mono; [eapply wp_queue_last; [exact H2|by right|exact Hm|by right]|].
    intros [] w3 H3. by apply wp_ret. }
  intros r st' [[Hr ->]|(-> & l & s & Hs & Esid & Escl & G & Hsubs & Hcon' & Hcalls)]; exists [].
  - rewrite app_nil_r. split; [done|]. split; [constructor|]. intros _ w1 O. apply wp_bind.
    destruct Hr as [-> | ->]; cbn [bool_decide]; by apply Hrefused.
  - rewrite app_nil_r. split; [done|]. split; [constructor|]. intros F w1 O. cbn [bool_decide].
    destruct (Hg_ta _ _ _ _ _ _ _ H) as (t & Ht & Hok).
    destruct (links_entry _ _ _ _ (W_links _ _ W) conn p l s
      (P_uniq _ _ _ _ (W_peers _ _ W)) Hp H0 Hs Escl) as (t' & Ht' & _).
    destruct (L_ta _ _ _ _ (W_links _ _ W) conn (sub_id s) t') as (ta' & Hta' & rq' & Hok');
      [by exists p|].
    assert (Hne : t' ≠ ta).
    { intros ->. eapply (L_free _ _ _ _ (W_links _ _ W) ta); [done|]. by exists p. }
    apply wp_bind, wp_bind.
    eapply wp_ta_complete; [|exact Hok|done|constructor|]. { rewrite (Q_tas _ _ O). exact Ht. }
    intros m Hm. set (tc := ta_with_state _ t). set (w2 := set_tas _ _).
    assert (Hp2 : peers w2 !! conn = Some p) by (change (peers w2) with (peers w1); by rewrite (Q_peers _ _ O)).
    pose proof Hp2 as (c1 & Hc1 & Ec1)%peers_lookup.
    apply wp_bind. eapply wp_load_pconn; [exact Hc1|].
    assert (Eg : amap_get (sub_tas c1) id = Some t').
    { rewrite <-Esid, <-Ht', Ec1. done. }
    rewrite Eg. unfold proto_ta_map_del. apply wp_bind, wp_bind.
    eapply wp_load_pconn; [exact Hc1|]. apply wp_bind.
    eapply wp_lift; [by eapply amap_del_Some|]. eapply wp_update_pconn; [exact Hc1|].
    set (c2 := with_sub_tas _ c1). apply wp_bind. eapply wp_lift; [done|]. apply wp_bind.
    eapply wp_ta_complete; [|exact Hok'|done|constructor|].
    { simpl. rewrite lookup_insert_ne by done. rewrite (Q_tas _ _ O). exact Hta'. }
    intros m' _. apply wp_bind. eapply wp_destroy_ta; [apply lookup_insert_eq| |].
    { eapply destroy_ok, ta_ok_with_state, Hok'. }
    apply wp_ret.
    assert (H3 : handling unsubscribe_ta rq proto_ta_state_completed
      (set_tas (λ m, delete t' (<[ta := tc]> m)) (set_pconns <[conn := c2]> w1))).
    { eapply (winv_unsubscribed w w1 p st' l s t t' c2 H Hp H0 Ht Hok Hs); try done.
      - rewrite Ec1, Esid. done.
      - eapply queue_from_update; [exact Hc1|done|].
        eapply queue_from_only_queues; [exact O|apply H]. }
    set (w3 := set_tas (delete t') _).
    assert (E3 : w3 = set_tas (λ m, delete t' (<[ta := tc]> m)) (set_pconns <[conn := c2]> w1)).
    { unfold w3, w2. destruct w1. unfold set_tas, set_pconns. simpl.
      by rewrite delete_insert_eq. }
    rewrite E3. apply wp_bind. eapply wp_queue; [exact H3|]. intros w4 H4 Hq.
    destruct (Hg_conn _ _ _ _ _ _ _ H4) as [p4 Hp4].
    eapply wp_queue_response; [exact Hp4|]. intros w5 O5.
    eapply handling_handled; [by eapply handling_only_queues|by left|].
    exists proto_msg_type_complete, m. split; [by eapply queued_only_queues|auto].
Qed.
End handlers.
End requests.
