(* ===== verification/ServerRun.v ===== *)
(** * Runs of the server

    The events of the server, and sequences of them.  No sequence of events
    that the clients and the event loop may cause makes the server fault, and
    the invariant of ServerInv.v holds after each of them. *)

From S2P Require Import Prelude CLib Pvalue Props Filter FilterParse Double Service Sub Amap Heap Client Sd SdWp SdInv SdOps SdRemove SdSubs SdDisconnect SdRun SdSpec SdOut SdCalls Json JsonTree ProtoTa ProtoTaSpec ProtoTaResp ProtoTaSafe ProtoConn Server ServerInv ServerSteps ServerReq.

Section run.
Context {json_t : Type} `{!Jansson json_t, !JanssonLaws json_t}.
Context (xcm_remote_addr : Z → option cstr).
Abbreviation winv := (winv (json_t := json_t)).
Abbreviation P := (props_text (json_t := json_t)).

(** ** Requests *)

(** The request that a message is, if it is one. *)
Definition request_in (data : list ascii) : option request :=
  json_loadb (json_t := json_t) data ≫= request_of.

Lemma dispatch_ok conn ta q0 ty rq w p :
  handling (json_t := json_t) conn ta q0 ty rq proto_ta_state_requested w →
  rq_type rq = ty → ty ∈ proto_ta_types → ty ≠ hello_ta → peers w !! conn = Some p →
  (0 ≤ p_id p)%Z → within_limits rq = true →
  wp (dispatch (json_t := json_t) (cmd ty) conn ta)
    (λ _ w', handled (json_t := json_t) conn ta q0 rq w') w.
Proof.
  intros H Ety Hty Hne Hp H0 Hl. unfold proto_ta_types in Hty.
  repeat (apply elem_of_cons in Hty as [->|Hty]; [try done|]); [..|by apply elem_of_nil in Hty].
  - change (dispatch (json_t := json_t) (cmd publish_ta)) with (handle_publish (json_t := json_t)).
    by eapply handle_publish_ok.
  - change (dispatch (json_t := json_t) (cmd unpublish_ta)) with (handle_unpublish (json_t := json_t)).
    by eapply handle_unpublish_ok.
  - change (dispatch (json_t := json_t) (cmd subscribe_ta)) with (handle_subscribe (json_t := json_t)).
    by eapply handle_subscribe_ok.
  - change (dispatch (json_t := json_t) (cmd unsubscribe_ta)) with (handle_unsubscribe (json_t := json_t)).
    by eapply handle_unsubscribe_ok.
  - change (dispatch (json_t := json_t) (cmd ping_ta)) with (handle_ping (json_t := json_t)).
    by eapply handle_ping_ok.
  - change (dispatch (json_t := json_t) (cmd services_ta)) with (handle_services (json_t := json_t)).
    by eapply handle_services_ok.
  - change (dispatch (json_t := json_t) (cmd subscriptions_ta))
      with (handle_subscriptions (json_t := json_t)).
    by eapply handle_subscriptions_ok.
  - change (dispatch (json_t := json_t) (cmd clients_ta)) with (handle_clients (json_t := json_t)).
    by eapply handle_clients_ok.
Qed.

Lemma hello_cmd ty : ty ∈ proto_ta_types →
  bool_decide (strcmp (cmd ty) PROTO_CMD_HELLO = 0)%Z = true ∧ ty = hello_ta ∨
  bool_decide (strcmp (cmd ty) PROTO_CMD_HELLO = 0)%Z = false ∧ ty ≠ hello_ta.
Proof.
  revert ty. apply Forall_forall. unfold proto_ta_types.
  repeat (apply Forall_cons; split; [first [by left|by right]|]). constructor.
Qed.

Definition alive (conn : loc) (w : world) : Prop := ∃ p, peers w !! conn = Some p.

(** A message that is a request is answered, any other is an error. *)
Definition req_outcome (conn : loc) (q0 : list msg) (req : option request) (r : Z) (w : world)
    : Prop :=
  match req with
  | Some rq => r = 0%Z ∧ answered (json_t := json_t) conn q0 rq w
  | None => r = (-1)%Z
  end.

Lemma req_outcome_rc conn q0 req r w : req_outcome conn q0 req r w → r = 0%Z ∨ r = (-1)%Z.
Proof. destruct req; [intros [-> _]; by left|by right]. Qed.

Lemma wp_handle_req conn q0 m w : winv None w → alive conn w → queue_from w conn q0 →
  (∀ rq, request_in (take (msg_len m) (msg_data m)) = Some rq → within_limits rq = true) →
  wp (handle_req (json_t := json_t) xcm_remote_addr conn_handshake_cb conn m)
    (λ r w', winv None w' ∧ alive conn w' ∧
       req_outcome conn q0 (request_in (take (msg_len m) (msg_data m))) r w') w.
Proof.
  intros W [p Hp] Hq0 Hl. unfold handle_req. apply wp_bind. unfold alloc_ta, wp at 1.
  set (ta := next_obj w). set (w0 := set_next_obj _ _).
  pose proof (winv_ta_new w proto_ta_create W) as W0. fold ta w0 in W0.
  assert (Ht0 : tas w0 !! ta = Some proto_ta_create) by apply lookup_insert_eq.
  pose proof (proto_ta_req_spec (json_t := json_t) m) as Hreq. fold (request_in (take (msg_len m) (msg_data m))) in Hreq.
  apply wp_bind. destruct (request_in _) as [rq|] eqn:Erq.
  - specialize (Hl rq eq_refl). eapply wp_on_ta; [exact Ht0|exact Hreq|]. cbn [bool_decide].
    set (w1 := set_tas _ w0).
    assert (H1 : handling (json_t := json_t) conn ta q0 (rq_type rq) rq proto_ta_state_requested w1).
    { apply bind_Some in Erq as (j & Ej & Erq). split.
      - apply winv_ta_insert; [done|by eexists].
      - eexists. unfold w1. simpl. rewrite lookup_insert_eq. split; [done|].
        eapply requested_ok; [by eapply loadb_valid|done].
      - by exists p.
      - exact Hq0. }
    assert (Hp1 : peers w1 !! conn = Some p) by done.
    destruct (Hg_ta _ _ _ _ _ _ _ H1) as (t & Ht & Hok). pose proof (To_at _ _ _ _ Hok) as (Ety & _ & Hin & _).
    apply wp_bind. eapply (wp_with_ta _ t _ (cmd (rq_type rq))); [exact Ht| |].
    { unfold proto_ta_get_cmd. by rewrite Ety. }
    apply wp_bind. eapply (wp_mono _ (λ _ w', handled (json_t := json_t) conn ta q0 rq w')).
    { destruct (hello_cmd _ Hin) as [[-> E]|[-> E]].
      - rewrite E in H1. apply (handle_hello_ok conn ta q0 rq xcm_remote_addr w1 H1).
      - apply wp_bind. eapply wp_load_peer; [exact Hp1|]. intros c _ Ec.
        unfold has_finished_handshake. case_bool_decide as Hn; cbn [negb].
        + eapply dispatch_ok; [exact H1|done|done|done|exact Hp1| |done]. by rewrite <-Ec.
        + by eapply handle_no_hello_ok. }
    intros [] w2 [Hconn [[W2 (t2 & ty2 & s2 & Ht2 & Hok2 & Hf2)]|[W2 (t2 & Ht2 & Hterm)]] Hans].
    + apply wp_bind. eapply wp_with_ta; [exact Ht2|reflexivity|].
      rewrite (proj2 (has_term_final _ _ _ (To_at _ _ _ _ Hok2)) Hf2).
      apply wp_bind. eapply wp_destroy_ta; [exact Ht2|by eapply destroy_ok|]. apply wp_ret.
      split; [by apply winv_ta_delete|]. split; [exact Hconn|]. by split.
    + apply wp_bind. eapply wp_with_ta; [exact Ht2|reflexivity|]. rewrite Hterm.
      apply wp_bind, wp_ret, wp_ret. split; [done|]. split; [exact Hconn|]. by split.
  - destruct Hreq as (t & Et & Href). eapply wp_on_ta; [exact Ht0|exact Et|]. cbn [bool_decide].
    apply wp_bind. eapply wp_destroy_ta; [apply lookup_insert_eq|by apply refused_destroy|].
    apply wp_ret. split; [|by split; [exists p|]].
    apply winv_ta_delete. apply winv_ta_insert; [done|by eexists].
Qed.

(** ** Removing a connection *)

Lemma winv_same X w w' : winv X w → core w' = core w → tas w' = tas w → peers w' = peers w →
  next_obj w' = next_obj w → ProtoConn.client_conns w' = ProtoConn.client_conns w →
  clientless_conns w' = clientless_conns w → winv X w'.
Proof. intros W E1 E2 E3 E4 E5 E6. split; rewrite ?E1, ?E2, ?E3, ?E4, ?E5, ?E6; apply W. Qed.

(** The subscriptions of a connection before its handshake: none. *)
Lemma no_client_subs w p conn : winv None w → peers w !! conn = Some p → (p_id p < 0)%Z →
  (∀ l s, subs (core w) !! l = Some s ↔ subs (core w) !! l = Some s ∧ sub_client_id s ≠ p_id p) ∧
  (∀ c, connected (core w) c = if decide (c = p_id p) then false else connected (core w) c).
Proof.
  intros W Hp Hneg. split.
  - intros l s. split; [|naive_solver]. intros Hs. split; [done|].
    destruct (L_sub _ _ _ _ (W_links _ _ W) _ _ Hs) as (c & p' & t & _ & Hp' & <- & Ht).
    destruct (decide (p_id p' < 0)%Z) as [Hn|]; [|lia].
    by rewrite (P_hello _ _ _ _ (W_peers _ _ W) _ _ Hp' Hn) in Ht.
  - intros c. case_decide as E; [|done]. destruct (connected (core w) c) eqn:Hc; [|done].
    destruct (P_client _ _ _ _ (W_peers _ _ W) _ Hc). lia.
Qed.

Lemma winv_removed w conn p w' : winv None w → peers w !! conn = Some p →
  good (core w') → fine P (core w') →
  (∀ l s, subs (core w') !! l = Some s ↔ subs (core w) !! l = Some s ∧ sub_client_id s ≠ p_id p) →
  (∀ c, connected (core w') c = if decide (c = p_id p) then false else connected (core w) c) →
  (∀ t, tas w' !! t = if decide (t ∈ (p_subs p).*2) then None else tas w !! t) →
  peers w' = delete conn (peers w) → next_obj w' = next_obj w →
  (NoDup (ProtoConn.client_conns w') ∧
   ∀ c, c ∈ ProtoConn.client_conns w' ↔ c ∈ ProtoConn.client_conns w ∧ c ≠ conn) →
  (NoDup (clientless_conns w') ∧ ∀ c, c ∈ clientless_conns w' ↔ c ∈ clientless_conns w ∧ c ≠ conn) →
  winv None w'.
Proof.
  intros W Hp G F Hsubs Hcon Htas Hpeers Hnext Hcc Hcl. split; [done|done| | | |].
  - rewrite Hpeers. eapply links_remove; [apply W|done|exact (P_uniq _ _ _ _ (W_peers _ _ W))|
      exact (P_hello _ _ _ _ (W_peers _ _ W))|exact Hp|done|done].
  - rewrite Hpeers. eapply peers_remove; [apply W|exact Hp|done|done|done].
  - rewrite Hnext. intros t Hle. rewrite Htas. case_decide; [done|]. by apply W.
  - rewrite Hnext, Hpeers. intros l Hle. rewrite lookup_delete_None. right. by apply W.
Qed.

(** The transactions a connection keeps can be freed. *)
Lemma peer_tas X w conn p : winv X w → peers w !! conn = Some p →
  NoDup (p_subs p).*2 ∧
  ∀ t, t ∈ (p_subs p).*2 → ∃ ta, tas w !! t = Some ta ∧ proto_ta_destroy ta = Ok tt.
Proof.
  intros W Hp. pose proof (L_nodup _ _ _ _ (W_links _ _ W) _ _ Hp) as Hnd.
  assert (Hh : ∀ i t, (i, t) ∈ p_subs p → holds_ta (peers w) conn i t).
  { intros i t Hin. exists p. split; [done|]. by apply amap_get_elem. }
  split.
  - apply NoDup_fmap_2_strong; [|by eapply NoDup_fmap_1].
    intros [i t] [i' t'] H1 H2 E. simpl in E. subst t'.
    destruct (L_uniq _ _ _ _ (W_links _ _ W) _ _ _ _ _ (Hh _ _ H1) (Hh _ _ H2)) as [_ ->]. done.
  - intros t ([i t'] & -> & Hin)%list_elem_of_fmap.
    destruct (L_ta _ _ _ _ (W_links _ _ W) _ _ _ (Hh _ _ Hin)) as (ta & Hta & rq & Hok).
    exists ta. split; [done|]. by eapply destroy_ok.
Qed.

Definition freed (l : list loc) (ts0 ts : gmap loc proto_ta) : Prop :=
  ∀ t, ts !! t = if decide (t ∈ l) then None else ts0 !! t.

Lemma wp_destroy_tas (m : amap loc) w (Q : unit → world → Prop) : NoDup m.*2 →
  (∀ t, t ∈ m.*2 → ∃ ta, tas w !! t = Some ta ∧ proto_ta_destroy ta = Ok tt) →
  (∀ ts, freed m.*2 (tas w) ts →
     Q tt (set_tas (λ _, ts) w)) →
  wp (mforeach (λ kv, destroy_ta kv.2) m) Q w.
Proof.
  intros Hnd Hm HQ. eapply (wp_mono _ (λ _ w', ∃ ts, w' = set_tas (λ _, ts) w ∧
    freed m.*2 (tas w) ts)).
  2: { intros [] w' (ts & -> & Hts). by apply HQ. }
  apply (wp_mforeach _ (λ d w', ∃ ts, w' = set_tas (λ _, ts) w ∧
    freed d.*2 (tas w) ts)).
  { exists (tas w). split; [by destruct w|done]. }
  intros d [i x] rest w' -> (ts & -> & Hts). rewrite fmap_app, fmap_cons in Hnd, Hm.
  apply NoDup_app in Hnd as (_ & Hd & [Hx _]%NoDup_cons).
  assert (Hxd : x ∉ d.*2). { intros Hin. apply (Hd _ Hin). left. }
  destruct (Hm x) as (ta & Hta & E); [set_solver|].
  eapply wp_destroy_ta; [|exact E|].
  { simpl. rewrite Hts. by rewrite decide_False. }
  eexists. split; [done|]. intros t. simpl. rewrite fmap_app. csimpl.
  destruct (decide (x = t)) as [<-|Hne].
  - rewrite lookup_delete_eq, decide_True by set_solver. done.
  - rewrite lookup_delete_ne, Hts by done. destruct (decide (t ∈ d.*2)).
    + by rewrite decide_True by set_solver.
    + rewrite decide_False; [done|]. set_solver.
Qed.

Lemma wp_proto_conn_destroy conn c w (Q : unit → world → Prop) : pconns w !! conn = Some c →
  NoDup (sub_tas c).*2 →
  (∀ t, t ∈ (sub_tas c).*2 → ∃ ta, tas w !! t = Some ta ∧ proto_ta_destroy ta = Ok tt) →
  (∀ ts, freed (sub_tas c).*2 (tas w) ts →
     Q tt (set_pconns (delete conn) (set_tas (λ _, ts) w))) →
  wp (proto_conn_destroy conn) Q w.
Proof.
  intros Hc Hnd Hm HQ. unfold proto_conn_destroy.
  apply wp_bind. eapply wp_update_pconn; [exact Hc|].
  apply wp_bind. eapply wp_load_pconn; [apply lookup_insert_eq|].
  apply wp_bind. apply wp_destroy_tas; [done|done|]. intros ts Hts.
  apply wp_bind. eapply wp_load_pconn; [apply lookup_insert_eq|]. apply wp_modify.
  specialize (HQ ts Hts). destruct w. unfold set_pconns, set_tas in *. simpl in *.
  by rewrite delete_insert_eq.
Qed.

(** [conn_term_cb]: the connection leaves its list and is destroyed. *)
Lemma wp_conn_term_cb w w1 conn c (Q : unit → world → Prop) : winv None w →
  pconns w1 !! conn = Some c → (∃ p, peers w !! conn = Some p ∧ p_subs p = sub_tas c) →
  tas w1 = tas w → ProtoConn.client_conns w1 = ProtoConn.client_conns w →
  clientless_conns w1 = clientless_conns w →
  (∀ ts cc cl, freed (sub_tas c).*2 (tas w) ts →
     (NoDup cc ∧ ∀ x, x ∈ cc ↔ x ∈ ProtoConn.client_conns w ∧ x ≠ conn) →
     (NoDup cl ∧ ∀ x, x ∈ cl ↔ x ∈ clientless_conns w ∧ x ≠ conn) →
     Q tt (set_pconns (delete conn) (set_tas (λ _, ts)
             (set_client_conns (λ _, cc) (set_clientless_conns (λ _, cl) w1))))) →
  wp (conn_term_cb conn) Q w1.
Proof.
  intros W Hc (p & Hp & Ep) Etas Ecc Ecl HQ. pose proof (W_peers _ _ W) as PI.
  destruct (peer_tas _ _ _ _ W Hp) as [Hnd Hm]. rewrite Ep in Hnd, Hm.
  assert (Hgo : ∀ cc cl,
    (NoDup cc ∧ ∀ x, x ∈ cc ↔ x ∈ ProtoConn.client_conns w ∧ x ≠ conn) →
    (NoDup cl ∧ ∀ x, x ∈ cl ↔ x ∈ clientless_conns w ∧ x ≠ conn) →
    wp (proto_conn_destroy conn) Q
      (set_client_conns (λ _, cc) (set_clientless_conns (λ _, cl) w1))).
  { intros cc cl Hcc Hcl. eapply wp_proto_conn_destroy; [exact Hc|done| |].
    - intros t Ht. simpl. rewrite Etas. by apply Hm.
    - intros ts Hts. apply HQ; [|done|done]. intros t. rewrite Hts. simpl. by rewrite Etas. }
  unfold conn_term_cb. apply wp_bind, wp_gets.
  assert (Hsplit : ∀ x, x ∈ clientless_conns w → x ∈ ProtoConn.client_conns w → False).
  { intros x (p1 & H1 & L1)%(P_in_cl _ _ _ _ PI) (p2 & H2 & L2)%(P_in_cc _ _ _ _ PI).
    simplify_eq. lia. }
  apply wp_bind. rewrite Ecl. destruct (decide _) as [Hin|Hin].
  - unfold clientless_del, wp at 1. rewrite Ecl.
    destruct (list_del_first_ok conn (clientless_conns w) Hin) as (l & -> & Hl);
      [apply PI|].
    specialize (Hgo (ProtoConn.client_conns w1) l). destruct w1. unfold set_client_conns, set_clientless_conns in *. simpl in *.
    apply Hgo; [|exact Hl]. rewrite Ecc. split; [apply PI|]. intros x. split; [|naive_solver].
    intros Hx. split; [done|]. intros ->. by eapply Hsplit.
  - assert (Hin' : conn ∈ ProtoConn.client_conns w).
    { apply (P_in_cc _ _ _ _ PI). exists p. split; [done|].
      destruct (decide (0 ≤ p_id p)%Z); [done|]. destruct Hin. apply (P_in_cl _ _ _ _ PI).
      exists p. split; [done|lia]. }
    unfold client_conns_del, wp at 1. rewrite Ecc.
    destruct (list_del_first_ok conn (ProtoConn.client_conns w) Hin') as (l & -> & Hl);
      [apply PI|].
    specialize (Hgo l (clientless_conns w1)). destruct w1. unfold set_client_conns, set_clientless_conns in *. simpl in *.
    apply Hgo; [exact Hl|]. rewrite Ecl. split; [apply PI|]. intros x. split; [|naive_solver].
    intros Hx. split; [done|]. by intros ->.
Qed.

(** [term]: the client is disconnected and the connection goes. *)
Lemma wp_term conn w : winv None w → alive conn w →
  wp (term (json_t := json_t) conn_term_cb conn) (λ _ w', winv None w' ∧ ¬ alive conn w') w.
Proof.
  intros W [p Hp]. unfold term. pose proof (W_peers _ _ W) as PI.
  apply wp_bind. eapply wp_load_peer; [exact Hp|]. intros c Hc Ec.
  pose proof (P_term _ _ _ _ PI _ _ Hp) as Hterm. rewrite <-Ec in Hterm. simpl in Hterm.
  apply wp_bind. eapply wp_lift; [by rewrite Hterm|].
  assert (Hgo : ∀ st' w1, good st' → fine P st' →
    (∀ l s, subs st' !! l = Some s ↔ subs (core w) !! l = Some s ∧ sub_client_id s ≠ p_id p) →
    (∀ c, connected st' c = if decide (c = p_id p) then false else connected (core w) c) →
    only_queues (set_core st' w) w1 →
    wp (_ ← update_pconn conn (with_sock_event false); _ ← update_pconn conn (with_term true);
        conn_term_cb conn) (λ _ w', winv None w' ∧ ¬ alive conn w') w1).
  { intros st' w1 G F Hsubs Hcon O. assert (Epeers : peers w1 = peers w) by exact (Q_peers _ _ O).
    pose proof Hp as Hp1. rewrite <-Epeers in Hp1. apply peers_lookup in Hp1 as (c1 & Hc1 & Ec1).
    apply wp_bind. eapply wp_update_pconn; [exact Hc1|].
    apply wp_bind. eapply wp_update_pconn; [apply lookup_insert_eq|].
    eapply (wp_conn_term_cb w); [done|apply lookup_insert_eq| |apply O..|].
    { exists p. split; [done|]. by rewrite Ec1. }
    intros ts cc cl Hts Hcc Hcl.
    set (w' := set_pconns _ _).
    assert (Ew : peers w' = delete conn (peers w)).
    { unfold w', peers. simpl. rewrite !insert_insert_eq, delete_insert_eq, fmap_delete.
      change (peer_of <$> pconns w1) with (peers w1). by rewrite Epeers. }
    split.
    - apply (winv_removed w conn p); simpl; rewrite ?(Q_core _ _ O); try done.
      + intros t. rewrite Hts. by rewrite Ec1.
      + by rewrite (Q_next _ _ O).
    - intros [p' Hp']. rewrite Ew, lookup_delete_eq in Hp'. done. }
  apply wp_bind. unfold has_finished_handshake. case_bool_decide as Hn.
  - assert (H0 : (0 ≤ p_id p)%Z) by (by rewrite <-Ec).
    assert (Eid : pc_client_id c = p_id p) by (by rewrite <-Ec). rewrite Eid.
    destruct (P_connected _ _ _ _ PI _ _ Hp H0) as [Hcon _].
    apply wp_bind, wp_sd_call; [apply keeps_sd_client_disconnect|apply W|].
    eapply wp_mono; [apply (call_disconnect _ _ (W_good _ _ W) Hcon)|].
    intros r st' (G & Hsubs & Hcon' & Hcalls).
    destruct (calls_heard None w st') as (calls & Ecalls & Hh); [apply W| |done|].
    { apply map_subseteq_spec. intros l s. by intros [? _]%Hsubs. }
    exists calls. split; [done|]. split; [done|]. intros F w1 O. apply wp_ret. by eapply Hgo.
  - apply wp_ret. destruct (no_client_subs w p conn W Hp) as [H1 H2].
    { rewrite <-Ec. simpl. lia. }
    apply (Hgo (core w)); [apply W|apply W|done|done|]. by destruct w.
Qed.

(** ** The socket's event *)

(** After a step on a connection: an error means that it is gone. *)
Definition conn_step (conn : loc) (r : Z) (w : world) : Prop :=
  winv None w ∧ (r = 0%Z ∧ alive conn w ∨ r = (-1)%Z ∧ ¬ alive conn w).

Lemma wp_await_step conn w : winv None w → alive conn w →
  wp (_ ← await_update conn; mret 0%Z) (conn_step conn) w.
Proof.
  intros W [p Hp]. apply wp_bind. eapply wp_await_update; [exact Hp|]. intros w' O. apply wp_ret.
  split; [by eapply winv_only_queues|]. left. split; [done|]. exists p. by rewrite (Q_peers _ _ O).
Qed.

Lemma wp_term_step conn w : winv None w → alive conn w →
  wp (_ ← term (json_t := json_t) conn_term_cb conn; mret (-1)%Z) (conn_step conn) w.
Proof.
  intros W Ha. apply wp_bind. eapply wp_mono; [by apply wp_term|]. intros [] w' [W' Hd].
  apply wp_ret. split; [done|by right].
Qed.

(** What a message may be: one that fits the buffer, and a request within the
    limits, if it is a request. *)
Definition receivable_ok (r : received) : bool :=
  match r with
  | Received data =>
      bool_decide (Z.of_nat (length data) ≤ 65535)%Z &&
      match request_in data with Some rq => within_limits rq | None => true end
  | ReceiveError _ => true
  end.

(** A message: a request is answered, anything else ends the connection. *)
Lemma wp_receive_message conn c data w : winv None w → pconns w !! conn = Some c →
  (0 < length data)%nat → receivable_ok (Received data) = true →
  wp (try_receive (json_t := json_t) xcm_remote_addr conn_handshake_cb conn_term_cb conn (Received data))
    (λ r w', conn_step conn r w' ∧ req_outcome conn (out_queue c) (request_in data) r w') w.
Proof.
  intros W Hc Hn Hr. apply andb_true_iff in Hr as [Hlen Hrq]. unfold try_receive. rewrite Hlen.
  apply wp_bind. eapply wp_lift; [done|]. rewrite bool_decide_eq_true_2 by done.
  assert (Edata : take (msg_len (msg_create data (length data)))
    (msg_data (msg_create data (length data))) = data).
  { cbn [msg_len msg_data msg_create]. by rewrite take_take, Nat.min_id, firstn_all. }
  apply wp_bind. eapply wp_mono; [apply (wp_handle_req conn (out_queue c)); [done| | |]|].
  - exists (peer_of c). apply peers_lookup. eauto.
  - by exists c.
  - rewrite Edata. intros rq Erq. by rewrite Erq in Hrq.
  - rewrite Edata. intros rc w1 (W1 & Ha1 & Hout). unfold req_outcome in *.
    destruct (request_in data) as [rq|].
    + destruct Hout as [-> (k & m & Hq & Hm)]. cbn [bool_decide]. destruct Ha1 as [p1 Hp1].
      apply wp_bind. eapply wp_await_update; [exact Hp1|]. intros w2 O. apply wp_ret.
      split; [|split; [done|]; exists k, m; split; [by eapply queued_only_queues|done]].
      split; [by eapply winv_only_queues|]. left. split; [done|]. exists p1. by rewrite (Q_peers _ _ O).
    + subst rc. cbn [bool_decide]. apply wp_bind. eapply wp_mono; [by apply wp_term|].
      intros [] w2 [W2 Hd]. apply wp_ret. split; [|done]. split; [done|by right].
Qed.

Lemma wp_try_receive conn r w : winv None w → alive conn w → receivable_ok r = true →
  wp (try_receive (json_t := json_t) xcm_remote_addr conn_handshake_cb conn_term_cb conn r)
    (conn_step conn) w.
Proof.
  intros W Ha Hr. destruct r as [data|again].
  - destruct (decide (0 < length data)%nat) as [Hn|Hn].
    + pose proof Ha as (p & (c & Hc & _)%peers_lookup).
      eapply wp_mono; [by apply (wp_receive_message conn c)|]. by intros r w' [Hs _].
    + apply andb_true_iff in Hr as [Hlen _]. unfold try_receive. rewrite Hlen.
      apply wp_bind. eapply wp_lift; [done|]. rewrite bool_decide_eq_false_2 by done.
      by apply wp_term_step.
  - unfold try_receive. destruct again; [by apply wp_await_step|by apply wp_term_step].
Qed.

Lemma wp_send_loop conn n : ∀ answers w, winv None w → alive conn w →
  wp (send_loop (json_t := json_t) conn_term_cb n conn answers) (conn_step conn) w.
Proof.
  induction n as [|n IH]; intros answers w W Ha; [by apply wp_await_step|].
  cbn [send_loop]. pose proof Ha as [p Hp]. apply wp_bind. eapply wp_load_peer; [exact Hp|].
  intros c Hc Ec. assert (Hstop : wp (mret 0%Z) (conn_step conn) w).
  { apply wp_ret. split; [done|by left]. }
  destruct (msg_queue_peek (out_queue c)) as [m|]; [|exact Hstop].
  destruct answers as [|[|[]] answers]; [exact Hstop| |exact Hstop|by apply wp_term_step].
  apply wp_bind, wp_modify, wp_bind. eapply wp_update_pconn; [exact Hc|].
  set (w' := set_pconns _ _). assert (Ew : peers w' = peers w).
  { unfold w', peers. simpl. rewrite fmap_insert. apply insert_id. by rewrite lookup_fmap, Hc. }
  apply IH; [by apply (winv_same None w)|]. exists p. by rewrite Ew.
Qed.

Lemma wp_conn_process conn r answers w : winv None w → alive conn w → receivable_ok r = true →
  wp (conn_process (json_t := json_t) xcm_remote_addr conn_handshake_cb conn_term_cb conn r answers)
    (λ _ w', winv None w') w.
Proof.
  intros W Ha Hr. unfold conn_process. apply wp_bind.
  eapply wp_mono; [by apply wp_try_receive|]. intros rc w1 [W1 [[-> Ha1]|[-> _]]]; cbn [bool_decide];
    [|by apply wp_ret].
  apply wp_bind. eapply wp_mono; [by apply wp_send_loop|]. intros rc w2 [W2 _].
  destruct (bool_decide _); by apply wp_ret.
Qed.

(** ** Accepting, cleaning out, timeouts *)

(** Reading the clock. *)
Lemma winv_tick X w : winv X w → winv X (set_core (set_tick S (core w)) w).
Proof.
  intros W. split; simpl; try apply W.
  - pose proof (W_good _ _ W) as G. pose proof (Good_inv _ G) as H.
    eapply good_same; [exact G| |by apply kept_same|done|done|done|done].
    split; try apply H. split; apply H.
  - destruct (W_fine _ _ W). by split.
  - eapply peers_connected; [apply W|done].
Qed.

Lemma wp_now w (Q : double → world → Prop) : (∀ t, time_ok t → Q t (set_core (set_tick S (core w)) w)) →
  fine P (core w) → wp (in_core ut_ftime) Q w.
Proof. intros HQ F. unfold wp, in_core, ut_ftime. apply HQ, ut_timespec_to_f_ok, F. Qed.

Lemma wp_accept_cb s w : winv None w → wp (accept_cb s) (λ _ w', winv None w') w.
Proof.
  intros W. destruct s as [s|]; [|by apply wp_ret]. unfold accept_cb, proto_conn_create.
  apply wp_bind, wp_bind, wp_now; [|apply W]. intros t Ht.
  pose proof (winv_tick _ _ W) as W1. set (w1 := set_core _ w) in *. clearbody w1.
  unfold alloc_pconn, wp at 1. apply wp_modify.
  set (c := ProtoConn _ _ _ _ _ _ _ _). set (conn := next_obj w1).
  assert (Hnone : peers w1 !! conn = None) by (apply (W_fresh_conns _ _ W1); unfold conn; lia).
  assert (Ew : (peer_of <$> <[conn := c]> (pconns w1)) = <[conn := peer_of c]> (peers w1))
    by apply fmap_insert.
  split; simpl; try apply W1; unfold peers; simpl; rewrite ?Ew.
  - eapply (links_idle _ _ _ _ (W_links _ _ W1) _ conn).
    + intros p Hp. congruence.
    + intros p. rewrite lookup_insert_eq. by intros [= <-].
    + intros conn' Hne. by rewrite lookup_insert_ne.
  - apply peers_accept; [apply W1|done|done|done|done].
  - intros t' Hle. apply (W_fresh_tas _ _ W1). unfold conn in *. lia.
  - intros l Hle. rewrite lookup_insert_ne by (unfold conn; lia).
    apply (W_fresh_conns _ _ W1). unfold conn in *. lia.
Qed.

(** Connections whose handshake has not been finished. *)
Definition clientless (w : world) (l : list loc) : Prop :=
  Forall (λ conn, ∃ p, peers w !! conn = Some p ∧ (p_id p < 0)%Z) l.

Lemma wp_do_disconnect conn p w : winv None w → peers w !! conn = Some p → (p_id p < 0)%Z →
  wp (do_disconnect conn) (λ _ w', winv None w' ∧ pconns w' = delete conn (pconns w) ∧
    ProtoConn.client_conns w' = ProtoConn.client_conns w) w.
Proof.
  intros W Hp Hneg. unfold do_disconnect. pose proof (W_peers _ _ W) as PI.
  apply wp_bind. eapply wp_load_peer; [exact Hp|]. intros c Hc Ec. apply wp_bind.
  assert (Hin : conn ∈ clientless_conns w) by (apply (P_in_cl _ _ _ _ PI); by exists p).
  unfold clientless_del, wp at 1.
  destruct (list_del_first_ok conn (clientless_conns w) Hin) as (cl & -> & Hcl); [apply PI|].
  destruct (peer_tas _ _ _ _ W Hp) as [Hnd Hm]. rewrite <-Ec in Hnd, Hm.
  eapply wp_proto_conn_destroy; [exact Hc|exact Hnd|exact Hm|]. intros ts Hts.
  set (w' := set_pconns _ _).
  assert (Ew : peers w' = delete conn (peers w)) by (unfold w', peers; apply fmap_delete).
  split; [|by split]. destruct (no_client_subs w p conn W Hp Hneg) as [H1 H2].
  apply (winv_removed w conn p); try done; try apply W.
  - intros t. rewrite <-Ec. apply Hts.
  - split; [apply PI|]. intros x. split; [|naive_solver]. intros Hx. split; [done|]. intros ->.
    apply (P_in_cc _ _ _ _ PI) in Hx as (p' & Hp' & H0). simplify_eq. lia.
Qed.

Lemma wp_disconnect_all ex : ∀ w, winv None w → NoDup ex → clientless w ex →
  wp (mforeach do_disconnect ex) (λ _ w', winv None w' ∧
    (∀ l, pconns w' !! l = if decide (l ∈ ex) then None else pconns w !! l) ∧
    ProtoConn.client_conns w' = ProtoConn.client_conns w) w.
Proof.
  induction ex as [|conn ex IH]; intros w W Hnd Hex.
  { apply wp_ret. split; [done|]. split; [|done]. intros l. by rewrite decide_False by set_solver. }
  apply NoDup_cons in Hnd as [Hn Hnd]. apply Forall_cons in Hex as [(p & Hp & Hneg) Hex].
  cbn [mforeach]. apply wp_bind. eapply wp_mono; [by eapply wp_do_disconnect|].
  intros [] w1 (W1 & E1 & Ecc). eapply wp_mono; [apply IH; [done|done|]|].
  - rewrite Forall_forall in Hex. apply Forall_forall. intros x Hx. unfold peers. rewrite E1.
    rewrite lookup_fmap, lookup_delete_ne by (by intros ->). rewrite <-lookup_fmap. by apply Hex.
  - intros [] w2 (W2 & E2 & Ecc2). split; [done|]. split; [|by rewrite Ecc2]. intros l. rewrite E2, E1.
    destruct (decide (l ∈ ex)); [by rewrite decide_True by set_solver|].
    destruct (decide (l = conn)) as [->|Hne].
    + rewrite decide_True by set_solver. apply lookup_delete_eq.
    + rewrite decide_False by set_solver. by apply lookup_delete_ne.
Qed.

(** Too long without a handshake, by the clock as it is when the connection at
    position [i] of the list is considered. *)
Definition late (w : world) (i : nat) (c : proto_conn) : bool :=
  d_lt MAX_HANDSHAKE_TIME
    (d_sub (ut_timespec_to_f (clock (core w) (i + tick (core w)))) (established_at c)).

Lemma expired_conns_eq l : ∀ w, Forall (λ conn, is_Some (pconns w !! conn)) l →
  ∃ ex, expired_conns l w = Ok (ex, set_core (set_tick (Nat.add (length l)) (core w)) w) ∧
    ex `sublist_of` l ∧
    ∀ conn, conn ∈ ex ↔ ∃ i c, l !! i = Some conn ∧ pconns w !! conn = Some c ∧ late w i c = true.
Proof.
  induction l as [|conn l IH]; intros w Hl.
  - exists []. split; [by destruct w as [[]]|]. split; [done|]. intros conn.
    split; [by intros ?%elem_of_nil|by intros (i & c & Hi & _)].
  - apply Forall_cons in Hl as [[c Hc] Hl].
    destruct (IH (set_core (set_tick S (core w)) w) Hl) as (ex & E & Hsub & Hex).
    assert (Hlate : ∀ i c, late (set_core (set_tick S (core w)) w) i c = late w (S i) c).
    { intros i c0. unfold late. simpl. by rewrite Nat.add_succ_r. }
    exists (if late w 0 c then conn :: ex else ex).
    split; [|split; [by destruct (late w 0 c); constructor|]].
    + cbn [expired_conns]. unfold mbind, M_bind, consider_disconnect, mbind, M_bind, in_core, ut_ftime,
        load_pconn. cbn [pconns set_core]. rewrite Hc. cbn [mret M_ret]. rewrite E.
      unfold mret, M_ret, late. simpl. do 2 f_equal. destruct w as [[]]. unfold set_core, set_tick. simpl.
      do 2 f_equal. lia.
    + intros conn'. assert (Htail : conn' ∈ ex ↔ ∃ i c', l !! i = Some conn' ∧
        pconns w !! conn' = Some c' ∧ late w (S i) c' = true).
      { rewrite Hex. by setoid_rewrite Hlate. }
      assert (Hhead : conn' ∈ (if late w 0 c then conn :: ex else ex) ↔
        (conn' = conn ∧ late w 0 c = true) ∨ conn' ∈ ex).
      { destruct (late w 0 c); [rewrite elem_of_cons; naive_solver|naive_solver]. }
      rewrite Hhead, Htail. split.
      * intros [[-> Ht]|(i & c' & H1 & H2 & H3)]; [by exists 0, c|by exists (S i), c'].
      * intros ([|i] & c' & H1 & H2 & H3); simpl in H1.
        -- left. split; [by simplify_eq|]. by simplify_eq.
        -- right. by exists i, c'.
Qed.

Lemma winv_ticks n X w : winv X w → winv X (set_core (set_tick (Nat.add n) (core w)) w).
Proof.
  induction n as [|n IH]; intros W; [by destruct w as [[]]|].
  exact (winv_tick _ _ (IH W)).
Qed.

Lemma wp_clean_out_cb w : winv None w → wp clean_out_cb (λ _ w', winv None w' ∧
  ProtoConn.client_conns w' = ProtoConn.client_conns w ∧
  ∀ conn c, pconns w' !! conn = Some c ↔ pconns w !! conn = Some c ∧
    ¬ ∃ i, clientless_conns w !! i = Some conn ∧ late w i c = true) w.
Proof.
  intros W. unfold clean_out_cb. apply wp_bind, wp_gets. pose proof (W_peers _ _ W) as PI.
  assert (Hin : ∀ conn, conn ∈ clientless_conns w → ∃ p c, peers w !! conn = Some p ∧ (p_id p < 0)%Z ∧
    pconns w !! conn = Some c).
  { intros conn (p & Hp & Hneg)%(P_in_cl _ _ _ _ PI). pose proof Hp as (c & Hc & _)%peers_lookup.
    by exists p, c. }
  destruct (expired_conns_eq (clientless_conns w) w) as (ex & E & Hsub & Hex).
  { apply Forall_forall. intros conn (p & c & _ & _ & Hc)%Hin. by exists c. }
  apply wp_bind. unfold wp at 1. rewrite E. eapply wp_mono; [apply wp_disconnect_all|].
  - by apply winv_ticks.
  - exact (sublist_NoDup _ _ (P_cl _ _ _ _ PI) Hsub).
  - apply Forall_forall. intros conn Hc.
    destruct (Hin conn (elem_of_sublist _ _ _ Hc Hsub)) as (p & c & Hp & Hneg & _). by exists p.
  - intros [] w' (W' & E' & Ecc). split; [done|]. split; [done|]. intros conn c. rewrite E'.
    cbn [pconns set_core]. destruct (decide (conn ∈ ex)) as [Hi|Hi].
    + split; [done|]. intros [Hc Hn]. destruct Hn.
      apply Hex in Hi as (i & c' & Hi & Hc' & Ht). simplify_eq. by exists i.
    + split; [|by intros [Hc _]]. intros Hc. split; [done|]. intros (i & Hi' & Ht). apply Hi, Hex.
      by exists i, c.
Qed.

Lemma wp_server_timeout t w : winv None w → allowed (core w) (ETimeout t) = true →
  wp (sd_call (json_t := json_t) (orphan_timeout_cb t)) (λ _ w', winv None w') w.
Proof.
  intros W Ha. eapply (wp_settled_call _ _ _ (λ _, True)); [apply keeps_orphan_timeout_cb|exact W| |].
  - eapply wp_mono; [by apply call_timeout; [apply W|]|]. by intros [] st' S.
  - done.
Qed.

(** ** Runs *)

(** What the event loop sees to: an event of a socket is that of a connection,
    and a timer fires when it is pending (and, see [timeout_after_reconnect],
    the owner of its service is not connected again). *)
Definition server_allowed (w : world) (e : server_event) : bool :=
  match e with
  | SAccept _ => true
  | SProcess conn r _ => bool_decide (is_Some (pconns w !! conn)) && receivable_ok r
  | SCleanOut => true
  | STimeout t => allowed (core w) (ETimeout t)
  end.

Abbreviation run_server_event := (run_server_event (json_t := json_t) xcm_remote_addr).
Abbreviation run_server := (run_server (json_t := json_t) xcm_remote_addr).

Fixpoint server_admissible (w : world) (evs : list server_event) : bool :=
  match evs with
  | [] => true
  | e :: evs' =>
      server_allowed w e &&
      match run_server_event e w with Ok (_, w') => server_admissible w' evs' | Fail _ => true end
  end.

Lemma server_event_ok e w : winv None w → server_allowed w e = true →
  wp (run_server_event e) (λ _ w', winv None w') w.
Proof.
  intros W Ha. destruct e as [s|conn r answers| |t]; simpl in *.
  - by apply wp_accept_cb.
  - apply andb_true_iff in Ha as [[c Hc]%bool_decide_eq_true_1 Hr].
    apply wp_conn_process; [done| |done]. exists (peer_of c). apply peers_lookup. eauto.
  - eapply wp_mono; [by apply wp_clean_out_cb|]. by intros [] w' [W' _].
  - by apply wp_server_timeout.
Qed.

Lemma run_server_ok evs : ∀ w, winv None w → server_admissible w evs = true →
  wp (run_server evs) (λ _ w', winv None w') w.
Proof.
  induction evs as [|e evs IH]; intros w W Ha; [by apply wp_ret|].
  simpl in Ha. apply andb_true_iff in Ha as [Ha Hr]. cbn [Server.run_server]. apply wp_bind.
  pose proof (server_event_ok e w W Ha) as Hw. unfold wp in Hw |- *.
  destruct (run_server_event e w) as [[[] w']|]; [|done]. by apply IH.
Qed.

Lemma winv_create clk s w : clock_fine clk → server_create clk (Some s) = Some w → winv None w.
Proof.
  intros Hclk [= <-]. constructor; simpl; try (intros; by rewrite ?lookup_empty).
  - by apply good_create.
  - split; unfold peers; simpl; rewrite ?fmap_empty; try done.
    + intros conn i t (p & Hp & _). by rewrite lookup_empty in Hp.
    + intros conn conn' i i' t (p & Hp & _). by rewrite lookup_empty in Hp.
  - split; unfold peers; simpl; rewrite ?fmap_empty; try done; try apply NoDup_nil_2;
      intros conn; split; try (by intros ?%elem_of_nil); by intros (p & Hp & _).
Qed.
End run.
