(* ===== verification/ServerLive.v ===== *)
(** * Messages leave the server

    What [try_send] of src/proto/proto_conn.c does with the queue of a
    connection, and what the connection's socket waits for: messages go out in
    their order, a batch per event, and no connection stops listening. *)

From S2P Require Import Prelude CLib Pvalue Props Filter FilterParse Double Service Sub Amap Heap Client Sd SdWp SdRun SdSpec Json JsonTree ProtoTa ProtoConn Server.

(** ** A story, for examples *)

Definition peer_addr : Z → option cstr := λ _, Some (C "ux:peer").

Definition ask (conn : loc) (request : string) : server_event :=
  SProcess conn (Received (Q request)) [].

Definition hello_from (id : string) : string :=
  "{'ta-cmd': 'hello', 'ta-id': 0, 'msg-type': 'request', 'client-id': " +:+ id +:+
  ", 'protocol-minimum-version': 1, 'protocol-maximum-version': 2}".
Definition subscribe_all : string :=
  "{'ta-cmd': 'subscribe', 'ta-id': 1, 'msg-type': 'request', 'subscription-id': 99}".
Definition publish_one : string :=
  "{'ta-cmd': 'publish', 'ta-id': 2, 'msg-type': 'request', 'service-id': 5, 'generation': 1, 'service-props': {'name': ['x']}, 'ttl': 60}".
Definition ping : string := "{'ta-cmd': 'ping', 'ta-id': 3, 'msg-type': 'request'}".

(** A client connects, says hello, subscribes, and publishes a service; another
    one connects and says nothing. *)
Definition story : list server_event :=
  [SAccept (Some 7%Z); ask 1 (hello_from "17"); ask 1 subscribe_all; ask 1 publish_one;
   SAccept (Some 8%Z)].

Definition world_0 : world := World (sd_create clk0) ∅ ∅ 1 [] [] false [].
Definition after_story : world :=
  match run_server (json_t := json) peer_addr story world_0 with Ok (_, w) => w | Fail _ => world_0 end.

Lemma story_run : run_server (json_t := json) peer_addr story world_0 = Ok (tt, after_story).
Proof. vm_compute. reflexivity. Qed.

(** What the first client is told: its requests are answered, and its
    subscription reports the service, before the publication is complete. *)
Example story_answers : (λ c, map (λ m, take (msg_len m) (msg_data m)) (out_queue c)) <$>
    pconns after_story !! 1%positive =
  Some (map Q [
    "{'ta-cmd': 'hello', 'ta-id': 0, 'msg-type': 'complete', 'protocol-version': 2}";
    "{'ta-cmd': 'subscribe', 'ta-id': 1, 'msg-type': 'accept'}";
    "{'ta-cmd': 'subscribe', 'ta-id': 1, 'msg-type': 'notify', 'match-type': 'appeared', 'service-id': 5, 'generation': 1, 'service-props': {'name': ['x']}, 'ttl': 60, 'client-id': 17}";
    "{'ta-cmd': 'publish', 'ta-id': 2, 'msg-type': 'complete'}"]).
Proof. vm_compute. reflexivity. Qed.

Lemma W_bind_eq {A B} (m : M world A) (f : A → M world B) w :
  (m ≫= f) w = match m w with Ok (a, w') => f a w' | Fail e => Fail e end.
Proof. done. Qed.

(** ** A batch *)

(** How many messages the socket takes. *)
Fixpoint taken (answers : list sent) : nat :=
  match answers with SendOk :: answers' => S (taken answers') | _ => 0 end.

(** After [k] messages, the next one makes the socket fail. *)
Definition breaks (n : nat) (q : list msg) (answers : list sent) (k : nat) : bool :=
  bool_decide (k < n) && bool_decide (k < length q) &&
  match answers !! k with Some (SendError false) => true | _ => false end.

(** A connection and the wire after [k] messages have been sent. *)
Definition after_sending (k : nat) (conn : loc) (c : proto_conn) (a : condition) (w : world) : world :=
  set_wire (λ ms, ms ++ (pair (sock c) <$> take k (out_queue c)))
    (set_pconns <[conn := with_awaited a (with_out_queue (drop k (out_queue c)) c)]> w).

Section send.
Context {json_t : Type} `{!Jansson json_t}.
Context (xcm_remote_addr : Z → option cstr).
Abbreviation send_loop := (send_loop (json_t := json_t) conn_term_cb).
Abbreviation conn_process :=
  (conn_process (json_t := json_t) xcm_remote_addr conn_handshake_cb conn_term_cb).
Abbreviation try_receive :=
  (try_receive (json_t := json_t) xcm_remote_addr conn_handshake_cb conn_term_cb).

Lemma after_sending_0 conn c w : pconns w !! conn = Some c →
  after_sending 0 conn c (awaited c) w = w.
Proof.
  intros Hc. unfold after_sending. rewrite take_0, drop_0. destruct w, c.
  unfold set_wire, set_pconns, with_awaited, with_out_queue. simpl in *. by rewrite app_nil_r, insert_id.
Qed.

(** Sending one message and then [k] more. *)
Lemma after_sending_S k conn c m q a w : out_queue c = m :: q →
  let w1 := set_pconns <[conn := with_out_queue q c]> (set_wire (λ ms, ms ++ [(sock c, m)]) w) in
  after_sending k conn (with_out_queue q c) a w1 = after_sending (S k) conn c a w.
Proof.
  intros Eq w1. unfold after_sending, w1, set_wire, set_pconns. simpl. rewrite Eq. simpl.
  rewrite <-app_assoc. by rewrite insert_insert_eq.
Qed.

Lemma update_pconn_eq conn f c w : pconns w !! conn = Some c →
  update_pconn conn f w = Ok (tt, set_pconns <[conn := f c]> w).
Proof. intros Hc. unfold update_pconn, mbind, M_bind, load_pconn. by rewrite Hc. Qed.

Lemma send_loop_eq n : ∀ conn c answers w, pconns w !! conn = Some c →
  let k := (n `min` length (out_queue c)) `min` taken answers in
  ∃ a, send_loop n conn answers w =
      (if breaks n (out_queue c) answers k
       then (_ ← term (json_t := json_t) conn_term_cb conn; mret (-1)%Z) (after_sending k conn c a w)
       else Ok (0%Z, after_sending k conn c a w)) ∧
    a = if decide (k = n) then await_condition (with_out_queue (drop k (out_queue c)) c)
        else awaited c.
Proof.
  induction n as [|n IH]; intros conn c answers w Hc.
  - eexists. split; [|done]. cbn [ProtoConn.send_loop]. unfold await_update. rewrite W_bind_eq.
    rewrite (update_pconn_eq _ _ c) by done. unfold mret, M_ret, after_sending, breaks.
    rewrite bool_decide_eq_false_2 by lia. cbn [andb].
    rewrite take_0, drop_0. destruct w, c.
    unfold set_wire, set_pconns, with_awaited, with_out_queue. simpl. by rewrite app_nil_r.
  - cbn [ProtoConn.send_loop]. rewrite W_bind_eq. unfold load_pconn at 1. rewrite Hc.
    destruct (out_queue c) as [|m q] eqn:Eq; cbn [msg_queue_peek head].
    { exists (awaited c). cbn [length]. rewrite Nat.min_0_r, Nat.min_0_l, decide_False by lia.
      split; [|done]. unfold breaks. cbn [length]. rewrite (bool_decide_eq_false_2 (0 < 0)), andb_false_r by lia.
      by rewrite after_sending_0. }
    destruct answers as [|[|again] answers].
    + exists (awaited c). cbn [taken]. rewrite Nat.min_0_r, decide_False by lia.
      split; [|done]. unfold breaks. cbn [lookup list_lookup]. rewrite andb_false_r. by rewrite after_sending_0.
    + rewrite W_bind_eq. unfold modify at 1. rewrite W_bind_eq.
      rewrite (update_pconn_eq _ _ c) by done. rewrite Eq. cbn [msg_queue_pop tail].
      destruct (IH conn (with_out_queue q c) answers
        (set_pconns <[conn := with_out_queue q c]> (set_wire (λ ms, ms ++ [(sock c, m)]) w)))
        as (a & E & Ea); [apply lookup_insert_eq|].
      cbn [out_queue with_out_queue] in E, Ea. exists a. rewrite E. cbn [length taken].
      set (k := (n `min` length q) `min` taken answers) in *.
      replace ((S n `min` S (length q)) `min` S (taken answers)) with (S k) by lia.
      rewrite (after_sending_S k conn c m q) by done. split.
      { unfold breaks. cbn [length lookup list_lookup].
        rewrite (bool_decide_ext (S k < S n) (k < n)), (bool_decide_ext (S k < S (length q)) (k < length q)) by lia.
        done. }
      rewrite Ea. simpl. destruct (decide (k = n)), (decide (S k = S n)); done || lia.
    + exists (awaited c). cbn [taken]. rewrite Nat.min_0_r, decide_False by lia. split; [|done].
      rewrite after_sending_0 by done. unfold breaks. cbn [length lookup list_lookup].
      rewrite !bool_decide_eq_true_2 by lia. by destruct again.
Qed.

(** An event of a socket: what is received is handled, then messages are sent. *)
Lemma conn_process_sends conn r answers w rc w1 c :
  try_receive conn r w = Ok (rc, w1) → (0 ≤ rc)%Z → pconns w1 !! conn = Some c →
  let k := (MAX_SEND_BATCH `min` length (out_queue c)) `min` taken answers in
  ∃ a, conn_process conn r answers w =
    if breaks MAX_SEND_BATCH (out_queue c) answers k
    then term (json_t := json_t) conn_term_cb conn (after_sending k conn c a w1)
    else Ok (tt, after_sending k conn c a w1).
Proof.
  intros Er Hrc Hc k. unfold ProtoConn.conn_process. rewrite W_bind_eq, Er.
  rewrite bool_decide_eq_false_2, W_bind_eq by lia.
  destruct (send_loop_eq MAX_SEND_BATCH conn c answers w1 Hc) as (a & E & _). fold k in E.
  unfold try_send. exists a. rewrite E. destruct (breaks _ _ _ _).
  - rewrite W_bind_eq. destruct (term _ _ _) as [[[] w2]|]; done.
  - by rewrite bool_decide_eq_false_2 by lia.
Qed.

(** With nothing to receive and no failure. *)
Lemma conn_process_eq conn c answers w : pconns w !! conn = Some c →
  (∀ k, answers !! k ≠ Some (SendError false)) →
  let k := (MAX_SEND_BATCH `min` length (out_queue c)) `min` taken answers in
  ∃ a, conn_process conn (ReceiveError true) answers w = Ok (tt, after_sending k conn c a w).
Proof.
  intros Hc Hf. set (c1 := with_awaited (await_condition c) c).
  set (w1 := set_pconns <[conn := c1]> w).
  assert (Er : try_receive conn (ReceiveError true) w = Ok (0%Z, w1)).
  { unfold ProtoConn.try_receive. cbn [negb]. rewrite W_bind_eq. unfold await_update.
    by rewrite (update_pconn_eq _ _ c) by done. }
  destruct (conn_process_sends conn (ReceiveError true) answers w 0 w1 c1 Er) as [a E];
    [done|apply lookup_insert_eq|]. cbn [out_queue with_awaited c1] in E. exists a. rewrite E.
  assert (Hb : ∀ k, breaks MAX_SEND_BATCH (out_queue c) answers k = false).
  { intros k. unfold breaks. specialize (Hf k). destruct (answers !! k) as [[|[]]|]; by rewrite ?andb_false_r. }
  rewrite Hb. do 2 f_equal.
  unfold after_sending, w1, set_wire, set_pconns. simpl. by rewrite insert_insert_eq.
Qed.

(** C27: how an event of a socket sends.  First a message is received, if there is
    one, and handled; when that ends the connection, nothing is sent.  Otherwise
    the messages then in the queue are sent in their order, as many as the socket
    takes and at most 64, the others stay queued, and nothing else changes; if the
    socket fails at the next message, the connection is terminated after that. *)
Theorem messages_sent_in_order conn r answers w rc w1 : try_receive conn r w = Ok (rc, w1) →
  ((rc < 0)%Z → conn_process conn r answers w = Ok (tt, w1)) ∧
  ((0 ≤ rc)%Z → ∀ c, pconns w1 !! conn = Some c →
    let k := (64 `min` length (out_queue c)) `min` taken answers in
    ∃ w2 c2, conn_process conn r answers w =
        (if breaks 64 (out_queue c) answers k
         then term (json_t := json_t) conn_term_cb conn w2 else Ok (tt, w2)) ∧
      wire w2 = wire w1 ++ (pair (sock c) <$> take k (out_queue c)) ∧
      pconns w2 = <[conn := c2]> (pconns w1) ∧ out_queue c2 = drop k (out_queue c) ∧
      sock c2 = sock c ∧ pc_client_id c2 = pc_client_id c ∧ sub_tas c2 = sub_tas c ∧
      core w2 = core w1 ∧ tas w2 = tas w1 ∧ client_conns w2 = client_conns w1 ∧
      clientless_conns w2 = clientless_conns w1).
Proof.
  intros Er. split.
  - intros Hrc. unfold ProtoConn.conn_process. rewrite W_bind_eq, Er.
    by rewrite bool_decide_eq_true_2 by done.
  - intros Hrc c Hc k. destruct (conn_process_sends conn r answers w rc w1 c Er Hrc Hc) as [a E].
    eexists _, _. split; [exact E|]. by split_and!.
Qed.

(** The event of a socket that has nothing to receive and takes all it is given. *)
Definition can_send (conn : loc) : server_event :=
  SProcess conn (ReceiveError true) (replicate 64 SendOk).

End send.

(** ** What the sockets wait for *)

(** The socket waits for what its queue needed [d] messages ago. *)
Definition stale (d : nat) (c : proto_conn) : Prop :=
  pc_term c = false ∧ sock_event c = true ∧
  awaited c = Condition (bool_decide (0 < length (out_queue c) + d))
    (bool_decide (length (out_queue c) + d < SOFT_OUT_WIRE_LIMIT)).

Definition listening (c : proto_conn) : Prop := ∃ d, (d < MAX_SEND_BATCH)%nat ∧ stale d c.

(** All connections do, [conn] perhaps not. *)
Definition listen_but (conn : loc) (w : world) : Prop :=
  ∀ l c, l ≠ conn → pconns w !! l = Some c → listening c.

Definition listen (w : world) : Prop := ∀ l c, pconns w !! l = Some c → listening c.

Definition conn_is (conn : loc) (R : proto_conn → Prop) (w : world) : Prop :=
  ∀ c, pconns w !! conn = Some c → R c.

Lemma listen_split conn w : listen_but conn w → conn_is conn listening w → listen w.
Proof. intros Hb Hc l c Hl. destruct (decide (l = conn)) as [->|]; eauto. Qed.

Lemma listen_only conn w : listen w → listen_but conn w.
Proof. intros H l c _. apply H. Qed.

(** Partial correctness: what the state is like if a step succeeds. *)
Definition leads {A} (P : world → Prop) (m : M world A) (Q : A → world → Prop) : Prop :=
  ∀ w a w', P w → m w = Ok (a, w') → Q a w'.

Abbreviation keeps_up P m := (leads P m (λ _, P)).

Section leads.
Implicit Types P : world → Prop.

Lemma leads_bind {A B} P (m : M world A) Q (f : A → M world B) R :
  leads P m Q → (∀ a, leads (Q a) (f a) R) → leads P (m ≫= f) R.
Proof.
  intros Hm Hf w b w' HP. rewrite W_bind_eq. destruct (m w) as [[a w1]|] eqn:E; [|done].
  intros E'. by eapply Hf; [eapply Hm|].
Qed.

Lemma leads_ret {A} P (a : A) : keeps_up P (mret a).
Proof. by intros w a' w' HP [= <- <-]. Qed.

Lemma leads_gets {A} P (f : world → A) : keeps_up P (gets f).
Proof. by intros w a' w' HP [= <- <-]. Qed.

Lemma leads_lift {A} P (o : outcome A) : keeps_up P (lift o).
Proof. intros w a w' HP. unfold lift. destruct o; [|done]. by intros [= <- <-]. Qed.

Lemma leads_mono {A} P P' (m : M world A) (Q Q' : A → world → Prop) : leads P m Q →
  (∀ w, P' w → P w) → (∀ a w, Q a w → Q' a w) → leads P' m Q'.
Proof. intros H HP HQ w a w' Hw E. eapply HQ, H; [apply HP, Hw|exact E]. Qed.

Lemma leads_foreach {A} P (f : A → M world unit) l :
  (∀ x, keeps_up P (f x)) → keeps_up P (mforeach f l).
Proof.
  intros Hf. induction l as [|x l IH]; [apply leads_ret|]. cbn [mforeach].
  eapply leads_bind; [apply Hf|]. intros []. exact IH.
Qed.

(** Steps that leave the connections. *)
Definition quiet {A} (m : M world A) : Prop :=
  ∀ w a w', m w = Ok (a, w') → pconns w' = pconns w.

Definition about_conns P : Prop := ∀ w w', pconns w' = pconns w → P w → P w'.

Lemma leads_quiet {A} P (m : M world A) : about_conns P → quiet m → keeps_up P m.
Proof. intros HP Hm w a w' Hw E. eapply HP; [by eapply Hm|done]. Qed.

Lemma quiet_bind {A B} (m : M world A) (f : A → M world B) :
  quiet m → (∀ a, quiet (f a)) → quiet (m ≫= f).
Proof.
  intros Hm Hf w b w'. rewrite W_bind_eq. destruct (m w) as [[a w1]|] eqn:E; [|done].
  intros E'. by rewrite (Hf _ _ _ _ E'), (Hm _ _ _ E).
Qed.

Lemma quiet_modify f : (∀ w, pconns (f w) = pconns w) → quiet (modify f).
Proof. by intros Hf w [] w' [= <-]. Qed.

Lemma quiet_lift {A} (o : outcome A) : quiet (lift o).
Proof. intros w a w'. unfold lift. destruct o; [|done]. by intros [= <- <-]. Qed.

Lemma quiet_ret {A} (a : A) : quiet (mret a).
Proof. by intros w a' w' [= <- <-]. Qed.

Lemma quiet_load_ta t : quiet (load_ta t).
Proof. intros w a w'. unfold load_ta. destruct (_ !! _); [|done]. by intros [= <- <-]. Qed.

Lemma quiet_load_pconn conn : quiet (load_pconn conn).
Proof. intros w a w'. unfold load_pconn. destruct (_ !! _); [|done]. by intros [= <- <-]. Qed.

Lemma quiet_alloc_ta t : quiet (alloc_ta t).
Proof. by intros w a w' [= <- <-]. Qed.

Lemma quiet_in_core {A} (op : M state A) : quiet (in_core op).
Proof. intros w a w'. unfold in_core. destruct (op _) as [[]|]; [|done]. by intros [= <- <-]. Qed.

Lemma quiet_with_ta {A} t (f : proto_ta → outcome A) : quiet (with_ta t f).
Proof. apply quiet_bind; [apply quiet_load_ta|]. intros. apply quiet_lift. Qed.

Lemma quiet_on_ta {A} t (f : proto_ta → outcome (A * proto_ta)) : quiet (on_ta t f).
Proof.
  apply quiet_bind; [apply quiet_load_ta|]. intros x. apply quiet_bind; [apply quiet_lift|].
  intros [a x']. apply quiet_bind; [by apply quiet_modify|]. intros. apply quiet_ret.
Qed.

Lemma quiet_destroy_ta t : quiet (destroy_ta t).
Proof. apply quiet_bind; [apply quiet_with_ta|]. intros. by apply quiet_modify. Qed.

Lemma quiet_clientless_del conn : quiet (clientless_del conn).
Proof. intros w a w'. unfold clientless_del. destruct (list_del_first _ _); [|done]. by intros [= <- <-]. Qed.

Lemma quiet_client_conns_del conn : quiet (client_conns_del conn).
Proof. intros w a w'. unfold client_conns_del. destruct (list_del_first _ _); [|done]. by intros [= <- <-]. Qed.

Lemma listen_about : about_conns listen.
Proof. intros w w' E H l c. rewrite E. apply H. Qed.

Lemma listen_but_about conn : about_conns (listen_but conn).
Proof. intros w w' E H l c. rewrite E. apply H. Qed.

Lemma conn_is_about conn (R : proto_conn → Prop) : about_conns (conn_is conn R).
Proof. intros w w' E H c. rewrite E. apply H. Qed.

(** Updates of a connection. *)
Lemma leads_update conn f (P : proto_conn → Prop) :
  leads (λ w, listen_but conn w ∧ conn_is conn P w) (update_pconn conn f)
    (λ _ w, listen_but conn w ∧ conn_is conn (λ c', ∃ c, P c ∧ c' = f c) w).
Proof.
  intros w [] w' [Hb Hc]. unfold update_pconn. rewrite W_bind_eq. unfold load_pconn.
  destruct (pconns w !! conn) as [c|] eqn:E; [|done]. intros [= <-]. split.
  - intros l c' Hne. simpl. rewrite lookup_insert_ne by done. by apply Hb.
  - intros c'. simpl. rewrite lookup_insert_eq. intros [= <-]. exists c. split; [by apply Hc|done].
Qed.

Lemma listen_conn conn w : listen w → listen_but conn w ∧ conn_is conn listening w.
Proof. intros H. split; [by apply listen_only|]. intros c. apply H. Qed.

(** An update that leaves the queue, and what the socket waits for. *)
Lemma listen_update conn f : (∀ d c, stale d c → stale d (f c)) → keeps_up listen (update_pconn conn f).
Proof.
  intros Hf. eapply leads_mono; [apply (leads_update conn f listening)|apply listen_conn|].
  intros _ w [Hb Hc]. eapply listen_split; [exact Hb|].
  intros c (c0 & (d & Hd & Hs) & ->)%Hc. exists d. split; [done|by apply Hf].
Qed.

Definition live (c : proto_conn) : Prop := pc_term c = false ∧ sock_event c = true.

(** Waiting anew. *)
Lemma leads_await conn (P : proto_conn → Prop) : (∀ c, P c → live c) →
  leads (λ w, listen_but conn w ∧ conn_is conn P w) (await_update conn)
    (λ _ w, listen_but conn w ∧ conn_is conn (stale 0) w).
Proof.
  intros HP. eapply leads_mono; [apply (leads_update conn _ P)|intros w Hw; exact Hw|].
  intros _ w [Hb Hc]. split; [done|]. intros c (c0 & [H1 H2]%HP & ->)%Hc.
  split; [done|]. split; [done|]. simpl. unfold await_condition, msg_queue_len. rewrite H1. simpl.
  by rewrite Nat.add_0_r.
Qed.

Lemma stale_live d c : stale d c → live c.
Proof. intros (? & ? & _). by split. Qed.

Lemma listening_live c : listening c → live c.
Proof. intros (d & _ & Hs). by eapply stale_live. Qed.

Lemma stale_0 c : stale 0 c → listening c.
Proof. exists 0. split; [unfold MAX_SEND_BATCH; lia|done]. Qed.

Lemma listen_stale conn w : listen_but conn w ∧ conn_is conn (stale 0) w → listen w.
Proof. intros [Hb Hc]. eapply listen_split; [exact Hb|]. intros c Hl. by apply stale_0, Hc. Qed.

Lemma keeps_queue_response conn m : keeps_up listen (queue_response conn m).
Proof.
  eapply (leads_mono _ _ _ (λ _ w, listen_but conn w ∧ conn_is conn (stale 0) w));
    [|apply (listen_conn conn)|intros [] w; apply listen_stale].
  eapply leads_bind; [apply (leads_update conn _ listening)|]. intros []. eapply leads_await.
  intros c (c0 & [H1 H2]%listening_live & ->). by split.
Qed.

Lemma keeps_await_update conn : keeps_up listen (await_update conn).
Proof.
  eapply (leads_mono _ _ _ (λ _ w, listen_but conn w ∧ conn_is conn (stale 0) w));
    [|apply (listen_conn conn)|intros [] w; apply listen_stale].
  apply leads_await, listening_live.
Qed.
End leads.

(** ** The handlers *)

Lemma listen_bind {A B} (m : M world A) (f : A → M world B) : keeps_up listen m →
  (∀ a, keeps_up listen (f a)) → keeps_up listen (m ≫= f).
Proof. intros Hm Hf. by eapply leads_bind. Qed.

Lemma keeps_quiet {A} (m : M world A) : quiet m → keeps_up listen m.
Proof. apply leads_quiet, listen_about. Qed.

Lemma listen_fault {A} e : keeps_up listen (fault_with e : M world A).
Proof. by intros w a w' _. Qed.

Create HintDb quiet.
#[export] Hint Resolve quiet_ret quiet_lift quiet_load_ta quiet_load_pconn quiet_alloc_ta quiet_in_core
  quiet_with_ta quiet_on_ta quiet_destroy_ta quiet_clientless_del quiet_client_conns_del : quiet.

Ltac keep := repeat first
  [ apply leads_ret
  | apply leads_lift
  | apply leads_gets
  | apply listen_fault
  | apply keeps_queue_response
  | apply keeps_await_update
  | apply keeps_quiet; solve [auto with quiet | by apply quiet_modify | by apply quiet_on_ta]
  | match goal with |- leads _ (update_pconn _ _) _ => by apply listen_update end
  | apply leads_foreach; intros ?
  | apply listen_bind; [|intros ?]
  | match goal with
    | |- leads _ (if ?b then _ else _) _ => destruct b
    | |- leads _ (match ?x with _ => _ end) _ => destruct x
    | |- leads _ (match ?x with _ => _ end _) _ => destruct x
    end
  | assumption
  | progress cbn beta iota zeta ].

Section keeps.
Context {json_t : Type} `{!Jansson json_t}.
Context (xcm_remote_addr : Z → option cstr).

Lemma keeps_notify_sub_match s srv mt conn :
  keeps_up listen (notify_sub_match (json_t := json_t) s srv mt conn).
Proof. unfold notify_sub_match, ta_notify. keep. Qed.

Lemma keeps_deliver o : keeps_up listen (deliver (json_t := json_t) o).
Proof. unfold deliver. keep; apply keeps_notify_sub_match. Qed.

Lemma keeps_sd_call {A} (op : M state A) : keeps_up listen (sd_call (json_t := json_t) op).
Proof.
  intros w a w' H. unfold sd_call. destruct (op (core w)) as [[b st']|]; [|done].
  assert (K : keeps_up listen (_ ← mforeach (deliver (json_t := json_t))
    (drop (length (outputs (core w))) (outputs st')); mret b)).
  { apply listen_bind; [apply leads_foreach, keeps_deliver|]. intros []. apply leads_ret. }
  apply (K (set_core st' w)). exact H.
Qed.

Lemma keeps_handshake_cb conn : keeps_up listen (conn_handshake_cb conn).
Proof. unfold conn_handshake_cb. keep. Qed.

Hint Resolve keeps_sd_call keeps_handshake_cb : core.

Lemma keeps_handle_hello conn ta :
  keeps_up listen (handle_hello (json_t := json_t) xcm_remote_addr conn_handshake_cb conn ta).
Proof. unfold handle_hello, ta_fail, ta_complete. keep; auto. Qed.

Lemma keeps_handle_no_hello conn ta : keeps_up listen (handle_no_hello (json_t := json_t) conn ta).
Proof. unfold handle_no_hello, ta_fail. keep. Qed.

Lemma keeps_handle_subscribe conn ta : keeps_up listen (handle_subscribe (json_t := json_t) conn ta).
Proof. unfold handle_subscribe, ta_fail, ta_accept, proto_ta_map_add. keep; auto. Qed.

Lemma keeps_handle_unsubscribe conn ta :
  keeps_up listen (handle_unsubscribe (json_t := json_t) conn ta).
Proof. unfold handle_unsubscribe, ta_fail, ta_complete, proto_ta_map_del. keep; auto. Qed.

Lemma keeps_handle_publish conn ta : keeps_up listen (handle_publish (json_t := json_t) conn ta).
Proof. unfold handle_publish, ta_fail, ta_complete. keep; auto. Qed.

Lemma keeps_handle_unpublish conn ta : keeps_up listen (handle_unpublish (json_t := json_t) conn ta).
Proof. unfold handle_unpublish, ta_fail, ta_complete. keep; auto. Qed.

Lemma keeps_handle_ping conn ta : keeps_up listen (handle_ping (json_t := json_t) conn ta).
Proof. unfold handle_ping, ta_complete. keep. Qed.

Lemma keeps_handle_services conn ta : keeps_up listen (handle_services (json_t := json_t) conn ta).
Proof.
  unfold handle_services, ta_fail, ta_accept, ta_complete, sd_foreach_service, forward_if_matches,
    service_notify_cb, ta_notify. keep.
Qed.

Lemma keeps_handle_subscriptions conn ta :
  keeps_up listen (handle_subscriptions (json_t := json_t) conn ta).
Proof. unfold handle_subscriptions, ta_accept, ta_complete, sd_foreach_sub, sub_notify_cb, ta_notify. keep. Qed.

Lemma keeps_handle_clients conn ta : keeps_up listen (handle_clients (json_t := json_t) conn ta).
Proof. unfold handle_clients, ta_accept, ta_complete, sd_foreach_client, client_notify_cb, ta_notify. keep. Qed.

Hint Resolve keeps_handle_hello keeps_handle_no_hello keeps_handle_subscribe keeps_handle_unsubscribe
  keeps_handle_publish keeps_handle_unpublish keeps_handle_ping keeps_handle_services
  keeps_handle_subscriptions keeps_handle_clients : core.

Lemma keeps_dispatch name conn ta : keeps_up listen (dispatch (json_t := json_t) name conn ta).
Proof. unfold dispatch. repeat case_match; auto. apply listen_fault. Qed.

Lemma keeps_handle_req conn m :
  keeps_up listen (handle_req (json_t := json_t) xcm_remote_addr conn_handshake_cb conn m).
Proof. unfold handle_req. pose proof keeps_dispatch. keep; auto. Qed.
End keeps.

(** ** Connections that go *)

Lemma leads_then {A B} P (m : M world A) (f : A → M world B) R :
  keeps_up P m → (∀ a, leads P (f a) R) → leads P (m ≫= f) R.
Proof. apply leads_bind. Qed.

Lemma quiet_but {A} conn (m : M world A) : quiet m → keeps_up (listen_but conn) m.
Proof. apply leads_quiet, listen_but_about. Qed.

Lemma update_but conn f : keeps_up (listen_but conn) (update_pconn conn f).
Proof.
  eapply leads_mono; [apply (leads_update conn f (λ _, True))| |by intros [] w [Hb _]].
  intros w Hb. by split.
Qed.

Lemma free_but conn : leads (listen_but conn) (free_pconn conn) (λ _, listen).
Proof.
  intros w [] w' Hb. unfold free_pconn. rewrite W_bind_eq. unfold load_pconn.
  destruct (pconns w !! conn); [|done]. intros [= <-] l c Hl.
  cbn [pconns set_pconns] in Hl. apply lookup_delete_Some in Hl as [Hne Hl]. by apply (Hb l).
Qed.

Lemma destroy_but conn : leads (listen_but conn) (proto_conn_destroy conn) (λ _, listen).
Proof.
  unfold proto_conn_destroy. apply leads_then; [apply update_but|]. intros [].
  apply leads_then; [apply quiet_but, quiet_load_pconn|]. intros c.
  apply leads_then; [apply leads_foreach; intros kv; apply quiet_but, quiet_destroy_ta|].
  intros []. apply free_but.
Qed.

Lemma keeps_destroy conn : keeps_up listen (proto_conn_destroy conn).
Proof. eapply leads_mono; [apply destroy_but|apply listen_only|done]. Qed.

Lemma term_cb_but conn : leads (listen_but conn) (conn_term_cb conn) (λ _, listen).
Proof.
  unfold conn_term_cb. apply leads_then; [apply leads_gets|]. intros l.
  apply leads_then; [|intros []; apply destroy_but].
  apply quiet_but. case_decide; auto with quiet.
Qed.

Section events.
Context {json_t : Type} `{!Jansson json_t}.
Context (xcm_remote_addr : Z → option cstr).

Lemma keeps_term conn : keeps_up listen (term (json_t := json_t) conn_term_cb conn).
Proof.
  unfold term. apply listen_bind; [apply keeps_quiet; auto with quiet|]. intros c.
  apply listen_bind; [apply leads_lift|]. intros [].
  apply listen_bind; [destruct (has_finished_handshake c); keep; apply keeps_sd_call|]. intros [].
  eapply (leads_bind _ _ (λ _, listen_but conn)).
  - eapply leads_mono; [apply (update_but conn)|apply listen_only|done].
  - intros []. apply leads_then; [apply update_but|]. intros []. apply term_cb_but.
Qed.

(** After a message has been dealt with the socket waits for what its queue
    needs, if the connection is still there. *)
Definition rested (conn : loc) (r : Z) (w : world) : Prop :=
  listen w ∧ ((0 ≤ r)%Z → conn_is conn (stale 0) w).

Lemma leads_rest conn : leads listen (_ ← await_update conn; mret 0%Z) (rested conn).
Proof.
  eapply (leads_bind _ _ (λ _ w, listen_but conn w ∧ conn_is conn (stale 0) w)).
  - eapply leads_mono; [apply (leads_await conn listening), listening_live|apply listen_conn|done].
  - intros []. intros w a w' H [= <- <-]. split; [by eapply listen_stale|]. intros _. apply H.
Qed.

Lemma leads_gone conn n : leads listen (_ ← term (json_t := json_t) conn_term_cb conn; mret (-1)%Z)
  (λ r w, listen w ∧ ((0 ≤ r)%Z → conn_is conn (stale n) w)).
Proof.
  apply leads_then; [apply keeps_term|]. intros []. intros w a w' H [= <- <-]. split; [done|lia].
Qed.

Lemma leads_try_receive conn r : leads listen
  (try_receive (json_t := json_t) xcm_remote_addr conn_handshake_cb conn_term_cb conn r) (rested conn).
Proof.
  unfold try_receive. destruct r as [data|again].
  - apply leads_then; [apply leads_lift|]. intros [].
    destruct (bool_decide (0 < length data)); [|apply leads_gone].
    apply leads_then; [apply keeps_handle_req|]. intros rc.
    destruct (bool_decide (rc < 0)%Z); [apply leads_gone|apply leads_rest].
  - destruct again; [apply leads_rest|apply leads_gone].
Qed.

(** Each message that is sent makes the condition staler by one. *)
Lemma leads_pop conn d : leads (λ w, listen_but conn w ∧ conn_is conn (λ c, stale d c ∧ out_queue c ≠ []) w)
  (update_pconn conn (λ c, with_out_queue (msg_queue_pop (out_queue c)) c))
  (λ _ w, listen_but conn w ∧ conn_is conn (stale (S d)) w).
Proof.
  eapply leads_mono; [apply (leads_update conn _ (λ c, stale d c ∧ out_queue c ≠ []))|by intros w Hw|].
  intros [] w [Hb Hc]. split; [done|]. intros c (c0 & [(H1 & H2 & H3) Hq] & ->)%Hc.
  split; [done|]. split; [done|]. simpl. rewrite H3. destruct (out_queue c0) as [|m q]; [done|].
  simpl. by rewrite Nat.add_succ_r.
Qed.

Lemma leads_send_loop conn n : ∀ d answers, (n + d = MAX_SEND_BATCH)%nat →
  leads (λ w, listen_but conn w ∧ conn_is conn (stale d) w)
    (send_loop (json_t := json_t) conn_term_cb n conn answers) (λ _, listen).
Proof.
  induction n as [|n IH]; intros d answers Hd; cbn [send_loop].
  - eapply leads_bind; [apply (leads_await conn (stale d)); apply stale_live|]. intros [].
    intros w a w' H [= <- <-]. by eapply listen_stale.
  - assert (Hl : ∀ w, listen_but conn w ∧ conn_is conn (stale d) w → listen w).
    { intros w [Hb Hc]. eapply listen_split; [exact Hb|]. intros c Hs. exists d.
      split; [lia|by apply Hc]. }
    assert (Hret : leads (λ w, listen_but conn w ∧ conn_is conn (stale d) w) (mret 0%Z : M world Z)
      (λ _, listen)).
    { intros w a w' H [= <- <-]. by apply Hl. }
    intros w r w' Hw. rewrite W_bind_eq. unfold load_pconn at 1.
    destruct (pconns w !! conn) as [c|] eqn:Ec; [|done].
    destruct (out_queue c) as [|m q] eqn:Eq; cbn [msg_queue_peek head]; [by apply Hret|].
    destruct answers as [|[|[]] answers]; [by apply Hret| |by apply Hret|].
    + rewrite W_bind_eq. unfold modify at 1. set (w1 := set_wire _ w). intros E.
      assert (K : leads (λ w, listen_but conn w ∧ conn_is conn (λ c, stale d c ∧ out_queue c ≠ []) w)
        (_ ← update_pconn conn (λ c, with_out_queue (msg_queue_pop (out_queue c)) c);
         send_loop (json_t := json_t) conn_term_cb n conn answers) (λ _, listen)).
      { eapply leads_bind; [apply leads_pop|]. intros []. apply (IH (S d)). lia. }
      eapply (K w1); [|exact E].
      destruct Hw as [Hb Hc]. split; [exact Hb|]. intros c1 Hc1. simpl in Hc1. simplify_eq.
      split; [by apply Hc|]. by rewrite Eq.
    + intros E. eapply (leads_gone conn 0); [by apply Hl|exact E].
Qed.

Lemma keeps_conn_process conn r answers : keeps_up listen
  (conn_process (json_t := json_t) xcm_remote_addr conn_handshake_cb conn_term_cb conn r answers).
Proof.
  unfold conn_process. eapply leads_bind; [apply leads_try_receive|]. intros rc.
  destruct (bool_decide (rc < 0)%Z) eqn:Erc.
  - intros w [] w' [H _] [= <-]. exact H.
  - apply (leads_mono (λ w, listen w ∧ ((0 ≤ rc)%Z → conn_is conn (stale 0) w)) _ _ (λ _, listen));
      [|done|done].
    intros w [] w' [H Hs]. rewrite W_bind_eq. unfold try_send.
    destruct (send_loop _ _ _ _ w) as [[rc2 w2]|] eqn:E; [|done].
    assert (H2 : listen w2); [|destruct (bool_decide (rc2 < 0)%Z); intros E2; injection E2 as <-; exact H2].
    eapply (leads_send_loop conn MAX_SEND_BATCH 0); [lia| |exact E].
    split; [by apply listen_only|]. apply Hs.
    apply bool_decide_eq_false_1 in Erc. lia.
Qed.

Lemma keeps_accept_cb s : keeps_up listen (accept_cb s).
Proof.
  destruct s as [s|]; [|apply leads_ret]. unfold accept_cb, proto_conn_create.
  apply listen_bind; [|intros conn; apply keeps_quiet; by apply quiet_modify].
  apply listen_bind; [apply keeps_quiet, quiet_in_core|]. intros now w a w' H [= <- <-] l c Hl.
  cbn [pconns set_pconns set_next_obj] in Hl. apply lookup_insert_Some in Hl as [[<- <-]|[_ Hl]].
  - by apply stale_0.
  - by apply (H l).
Qed.

Lemma keeps_clean_out_cb : keeps_up listen clean_out_cb.
Proof.
  assert (Hex : ∀ l, keeps_up listen (expired_conns l)).
  { induction l as [|conn l IH]; [apply leads_ret|]. cbn [expired_conns].
    unfold consider_disconnect. keep. }
  unfold clean_out_cb, do_disconnect. apply listen_bind; [apply leads_gets|]. intros l.
  apply listen_bind; [apply Hex|]. intros ex. apply leads_foreach. intros conn.
  apply listen_bind; [apply keeps_quiet, quiet_load_pconn|]. intros _.
  apply listen_bind; [apply keeps_quiet, quiet_clientless_del|]. intros _. apply keeps_destroy.
Qed.

Lemma keeps_run_server evs : keeps_up listen (run_server (json_t := json_t) xcm_remote_addr evs).
Proof.
  induction evs as [|e evs IH]; [apply leads_ret|]. cbn [run_server].
  apply listen_bind; [|intros _; exact IH]. destruct e; cbn [run_server_event].
  - apply keeps_accept_cb.
  - apply keeps_conn_process.
  - apply keeps_clean_out_cb.
  - apply keeps_sd_call.
Qed.

Lemma listen_create clk s w0 : server_create clk (Some s) = Some w0 → listen w0.
Proof. intros [= <-] l c Hl. cbn [pconns] in Hl. by rewrite lookup_empty in Hl. Qed.

(** What the event loop is to call the connection for. *)
Definition attentive (c : proto_conn) : Prop :=
  sock_event c = true ∧
  (out_queue c ≠ [] → sendable (awaited c) = true) ∧
  (out_queue c = [] → receivable (awaited c) = true) ∧
  ((128 ≤ length (out_queue c))%nat → receivable (awaited c) = false).

Lemma connections_awaiting evs w0 w conn c : listen w0 →
  run_server (json_t := json_t) xcm_remote_addr evs w0 = Ok (tt, w) → pconns w !! conn = Some c →
  attentive c.
Proof.
  intros H E Hc. apply (keeps_run_server evs) in E; [|exact H].
  destruct (E _ _ Hc) as (d & Hd & _ & He & Ea). unfold MAX_SEND_BATCH, SOFT_OUT_WIRE_LIMIT in *.
  unfold attentive. rewrite Ea. cbn [sendable receivable]. split; [done|]. split; [|split].
  - intros Hq. apply bool_decide_eq_true. destruct (out_queue c); [done|simpl; lia].
  - intros ->. apply bool_decide_eq_true. simpl. lia.
  - intros Hl. apply bool_decide_eq_false. lia.
Qed.

(** C21: no connection is forgotten.  Whatever has happened, the event of each
    connection's socket is set; it waits for the socket to take messages when
    some are queued, and for messages when none are; and it does not wait for
    messages when 128 or more are queued. *)
Theorem connections_keep_listening clk s w0 evs w conn c : server_create clk (Some s) = Some w0 →
  run_server (json_t := json_t) xcm_remote_addr evs w0 = Ok (tt, w) → pconns w !! conn = Some c →
  attentive c.
Proof. intros E0. by apply connections_awaiting, (listen_create clk s). Qed.
End events.

(** ** Witnesses *)

(** The first client of the story asks for a pong; its socket then takes two
    messages. *)
Lemma messages_sent_in_order_witness : ∃ w1 c w' c',
  try_receive (json_t := json) peer_addr conn_handshake_cb conn_term_cb 1 (Received (Q ping)) after_story =
    Ok (0%Z, w1) ∧ pconns w1 !! 1%positive = Some c ∧ length (out_queue c) = 5 ∧
  conn_process (json_t := json) peer_addr conn_handshake_cb conn_term_cb 1 (Received (Q ping))
    [SendOk; SendOk; SendError true] after_story = Ok (tt, w') ∧
  wire w' = wire w1 ++ (pair (sock c) <$> take 2 (out_queue c)) ∧
  pconns w' !! 1%positive = Some c' ∧ out_queue c' = drop 2 (out_queue c).
Proof.
  destruct (try_receive (json_t := json) peer_addr conn_handshake_cb conn_term_cb 1 (Received (Q ping))
    after_story) as [[rc w1]|] eqn:Er; [|by vm_compute in Er].
  assert (H : rc = 0%Z ∧ ∃ c, pconns w1 !! 1%positive = Some c ∧ length (out_queue c) = 5).
  { vm_compute in Er. injection Er as <- <-. split; [reflexivity|]. eexists. split; reflexivity. }
  destruct H as (-> & c & Hc & Hl).
  destruct (messages_sent_in_order (json_t := json) peer_addr 1 (Received (Q ping))
    [SendOk; SendOk; SendError true] after_story 0 w1 Er) as [_ H].
  destruct (H (Z.le_refl 0) c Hc) as (w' & c' & E & Hw & Hp & Hq & _).
  unfold breaks in E. rewrite Hl in E, Hw, Hq. simpl Nat.min in E, Hw, Hq. rewrite andb_false_r in E.
  exists w1, c, w', c'. split; [reflexivity|]. split; [exact Hc|]. split; [exact Hl|].
  split; [exact E|]. split; [exact Hw|]. split; [rewrite Hp; apply lookup_insert_eq|exact Hq].
Defined.

Lemma connections_keep_listening_witness : ∃ c, pconns after_story !! 1%positive = Some c ∧
  sock_event c = true ∧ sendable (awaited c) = true.
Proof.
  destruct (pconns after_story !! 1%positive) as [c|] eqn:Hc; [|by vm_compute in Hc].
  destruct (connections_keep_listening (json_t := json) peer_addr clk0 7 world_0 story after_story 1 c)
    as (He & Hs & _); [reflexivity|exact story_run|exact Hc|].
  exists c. split; [reflexivity|]. split; [exact He|]. apply Hs.
  vm_compute in Hc. injection Hc as <-. discriminate.
Defined.
