(* ===== verification/ServerSpec.v ===== *)
(** * What the server guarantees

    Theorems about runs of the server of src/proto/server.c: sequences of
    accepted connections, messages, answers of the sockets, clean-outs and
    timeouts, from its creation on. *)

From S2P Require Import Prelude CLib Pvalue Props Filter FilterParse Double Service Sub Amap Heap Client Sd SdWp SdInv SdOps SdRemove SdSubs SdDisconnect SdRun SdSpec SdOut SdCalls Json JsonTree ProtoTa ProtoTaSpec ProtoTaResp ProtoTaSafe ProtoConn Server ServerInv ServerSteps ServerReq ServerRun ServerLive SdTeardown.

Section spec.
Context {json_t : Type} `{!Jansson json_t, !JanssonLaws json_t}.
Context (xcm_remote_addr : Z → option cstr).
Abbreviation winv := (winv (json_t := json_t)).
Abbreviation run_server := (run_server (json_t := json_t) xcm_remote_addr).
Abbreviation server_admissible := (server_admissible (json_t := json_t) xcm_remote_addr).
Abbreviation try_receive := (try_receive (json_t := json_t) xcm_remote_addr conn_handshake_cb conn_term_cb).

(** The states a server comes to. *)
Definition served (w : world) : Prop := ∃ clk s w0 evs,
  clock_fine clk ∧ server_create clk (Some s) = Some w0 ∧ server_admissible w0 evs = true ∧
  run_server evs w0 = Ok (tt, w).

Lemma served_winv w : served w → winv None w.
Proof.
  intros (clk & s & w0 & evs & Hclk & E0 & Ha & E).
  pose proof (run_server_ok xcm_remote_addr evs w0 (winv_create _ _ _ Hclk E0) Ha) as Hw.
  unfold wp in Hw. by rewrite E in Hw.
Qed.

(** What happens to a server goes on. *)
Lemma run_server_app a b w : run_server (a ++ b) w =
  match run_server a w with Ok (_, w') => run_server b w' | Fail e => Fail e end.
Proof.
  revert w. induction a as [|e a IH]; intros w; [done|]. cbn [app Server.run_server].
  rewrite !W_bind_eq. destruct (run_server_event _ e w) as [[[] w']|]; [apply IH|done].
Qed.

Lemma admissible_app a b w : server_admissible w a = true →
  (∀ w', run_server a w = Ok (tt, w') → server_admissible w' b = true) →
  server_admissible w (a ++ b) = true.
Proof.
  revert w. induction a as [|e a IH]; intros w Ha Hb; [by apply Hb|].
  cbn [app ServerRun.server_admissible] in *. apply andb_true_iff in Ha as [-> Ha]. simpl.
  destruct (run_server_event _ e w) as [[[] w']|] eqn:E; [|done]. apply IH; [done|].
  intros w2 E2. apply Hb. cbn [Server.run_server]. by rewrite W_bind_eq, E.
Qed.

Lemma served_more w evs w' : served w → server_admissible w evs = true →
  run_server evs w = Ok (tt, w') → served w'.
Proof.
  intros (clk & s & w0 & evs0 & Hclk & E0 & Ha0 & R0) Ha E.
  exists clk, s, w0, (evs0 ++ evs). split_and!; [done|done| |by rewrite run_server_app, R0].
  apply admissible_app; [done|]. intros w1 E1. assert (w1 = w) as -> by congruence. exact Ha.
Qed.

Lemma server_runs_ok clk s w0 evs : clock_fine clk → server_create clk (Some s) = Some w0 →
  server_admissible w0 evs = true →
  ∃ w, run_server evs w0 = Ok (tt, w) ∧ served w ∧ inv (core w).
Proof.
  intros Hclk E0 Ha.
  pose proof (run_server_ok xcm_remote_addr evs w0 (winv_create _ _ _ Hclk E0) Ha) as Hw.
  unfold wp in Hw. destruct (run_server evs w0) as [[[] w]|] eqn:E; [|done].
  exists w. split; [done|]. split; [by exists clk, s, w0, evs|apply Good_inv, Hw].
Qed.

(** As [server_allowed], but a pending timer may fire whether or not the owner
    of its service is connected. *)
Definition server_possible_event (w : world) (e : server_event) : bool :=
  match e with
  | STimeout t => possible_event (core w) (ETimeout t)
  | _ => server_allowed (json_t := json_t) w e
  end.

Fixpoint server_possible (w : world) (evs : list server_event) : bool :=
  match evs with
  | [] => true
  | e :: evs' =>
      server_possible_event w e &&
      match run_server_event (json_t := json_t) xcm_remote_addr e w with
      | Ok (_, w') => server_possible w' evs'
      | Fail _ => true
      end
  end.

Lemma possible_admissible evs : ∀ w, winv None w → server_possible w evs = true →
  server_admissible w evs = true ∨
  ∃ evs1 t evs2 w1, evs = evs1 ++ STimeout t :: evs2 ∧ server_admissible w evs1 = true ∧
    run_server evs1 w = Ok (tt, w1) ∧ reconnected (core w1) t ∧ run_server evs w = Fail AssertFailed.
Proof.
  induction evs as [|e evs IH]; intros w W Hp; [by left|].
  simpl in Hp. apply andb_true_iff in Hp as [Hp Hr].
  assert (server_allowed (json_t := json_t) w e = true ∨ ∃ t, e = STimeout t ∧ reconnected (core w) t)
    as [Ha|(t & -> & Ht)].
  { destruct e as [| | |t]; try (by left). simpl in *.
    destruct (possible_cases (core w) (ETimeout t) (Good_inv _ (W_good _ _ W)) Hp) as [Ha|(t1 & Et & Ht)];
      [by left|right]. injection Et as <-. by exists t. }
  - pose proof (server_event_ok xcm_remote_addr e w W Ha) as Hw. unfold wp in Hw.
    simpl. rewrite Ha. cbn [andb Server.run_server]. rewrite W_bind_eq.
    destruct (run_server_event _ e w) as [[[] w']|] eqn:E; [|done].
    destruct (IH w' Hw Hr) as [|(evs1 & t & evs2 & w1 & -> & Ha1 & R1 & Ht & Ef)]; [by left|right].
    exists (e :: evs1), t, evs2, w1. split; [done|]. simpl. rewrite Ha, E.
    split; [done|]. cbn [Server.run_server]. rewrite W_bind_eq, E. done.
  - right. exists [], t, evs, w. split_and!; [done|done|done|done|].
    cbn [Server.run_server run_server_event]. rewrite W_bind_eq. unfold sd_call.
    by rewrite (reconnected_aborts _ t (Good_inv _ (W_good _ _ W)) Ht).
Qed.

(** C2: a sequence of connections, messages, closed connections, socket errors,
    clean-outs and timeouts of pending timers, whatever the order and whether the
    messages are well formed or not, is processed to its end, with no failed
    assertion and no access to memory that is not there, and the references
    between the objects of the core stay right; provided that the clock shows
    times until 2242 and that received requests are within the limits of
    [receivable_ok] (at most 65535 bytes, times to live of at most 2^32 seconds,
    filters without a pattern part behind a wildcard in the middle).  There is one
    exception: at the first timeout of an orphan whose owner has connected again
    the server aborts, and up to there all of this holds. *)
Theorem server_runs_safely clk s w0 evs : clock_fine clk → server_create clk (Some s) = Some w0 →
  server_possible w0 evs = true →
  (∃ w, run_server evs w0 = Ok (tt, w) ∧ served w ∧ inv (core w)) ∨
  (∃ evs1 t evs2 w, evs = evs1 ++ STimeout t :: evs2 ∧ run_server evs1 w0 = Ok (tt, w) ∧
     served w ∧ inv (core w) ∧ reconnected (core w) t ∧ run_server evs w0 = Fail AssertFailed).
Proof.
  intros Hclk E0 Hp.
  destruct (possible_admissible evs w0 (winv_create _ _ _ Hclk E0) Hp)
    as [Ha|(evs1 & t & evs2 & w1 & -> & Ha & R1 & Ht & Ef)].
  - left. by eapply server_runs_ok.
  - right. exists evs1, t, evs2, w1. destruct (server_runs_ok clk s w0 evs1 Hclk E0 Ha) as (w & E & Sv & I).
    assert (w1 = w) as -> by congruence. by split_and!.
Qed.

(** C7: the protocol layer and the core agree in every state of the server.
    A transaction is in memory exactly when a connection keeps it, for one
    subscription, as an accepted subscribe request; the subscriptions of the
    core are those the connections keep; a client is connected to the core
    exactly when one connection has finished its handshake under its identifier,
    and the two lists of the server hold the connections after and before it. *)
Theorem server_state_consistent w : served w →
  (∀ t, is_Some (tas w !! t) ↔ ∃ conn i, holds_ta (peers w) conn i t) ∧
  (∀ t conn conn' i i', holds_ta (peers w) conn i t → holds_ta (peers w) conn' i' t →
     conn = conn' ∧ i = i') ∧
  (∀ t ta, tas w !! t = Some ta → ta_subscribed (json_t := json_t) ta) ∧
  (∀ c i, (∃ l s, subs (core w) !! l = Some s ∧ sub_id s = i ∧ sub_client_id s = c) ↔
     ∃ conn p t, peers w !! conn = Some p ∧ p_id p = c ∧ holds_ta (peers w) conn i t) ∧
  (∀ c, connected (core w) c = true ↔
     (0 ≤ c)%Z ∧ ∃ conn p, peers w !! conn = Some p ∧ p_id p = c) ∧
  (∀ conn conn' p p', peers w !! conn = Some p → peers w !! conn' = Some p' →
     (0 ≤ p_id p)%Z → p_id p = p_id p' → conn = conn') ∧
  NoDup (client_conns w) ∧ NoDup (clientless_conns w) ∧
  (∀ conn, conn ∈ client_conns w ↔ ∃ p, peers w !! conn = Some p ∧ (0 ≤ p_id p)%Z) ∧
  (∀ conn, conn ∈ clientless_conns w ↔ ∃ p, peers w !! conn = Some p ∧ (p_id p < 0)%Z).
Proof.
  intros W%served_winv. pose proof (W_links _ _ W) as L. pose proof (W_peers _ _ W) as PI.
  split_and!; [..|exact (P_uniq _ _ _ _ PI)|apply PI|apply PI|apply PI|apply PI].
  - intros t. split.
    + intros [ta Ht]. by destruct (L_own _ _ _ _ L _ _ Ht).
    + intros (conn & i & Hh). destruct (L_ta _ _ _ _ L _ _ _ Hh) as (ta & Ht & _). by exists ta.
  - intros t conn conn' i i'. apply (L_uniq _ _ _ _ L).
  - intros t ta Ht. destruct (L_own _ _ _ _ L _ _ Ht) as [|(conn & i & Hh)]; [done|].
    destruct (L_ta _ _ _ _ L _ _ _ Hh) as (ta' & Ht' & Hs). by simplify_eq.
  - intros c i. split.
    + intros (l & s & Hs & <- & <-).
      destruct (L_sub _ _ _ _ L _ _ Hs) as (conn & p & t & _ & Hp & Hid & Ht).
      exists conn, p, t. split_and!; [done|done|]. by exists p.
    + intros (conn & p & t & Hp & <- & p' & Hp' & Ht). simplify_eq. by eapply L_entry.
  - intros c. split; [apply (P_client _ _ _ _ PI)|]. intros (H0 & conn & p & Hp & <-).
    by apply (P_connected _ _ _ _ PI _ _ Hp).
Qed.

Lemma message_answered_lemma w conn c data : winv None w → pconns w !! conn = Some c →
  (0 < length data)%nat → receivable_ok (json_t := json_t) (Received data) = true →
  ∃ r w', try_receive conn (Received data) w = Ok (r, w') ∧
    match request_in (json_t := json_t) data with
    | Some rq => r = 0%Z ∧ answered (json_t := json_t) conn (out_queue c) rq w'
    | None => r = (-1)%Z ∧ pconns w' !! conn = None
    end.
Proof.
  intros W Hc Hn Hr.
  pose proof (wp_receive_message xcm_remote_addr conn c data w W Hc Hn Hr) as Hw.
  unfold wp in Hw. destruct (try_receive _ _ w) as [[r w']|]; [|done]. exists r, w'.
  split; [done|]. destruct Hw as [[_ Hs] Ho]. unfold req_outcome in Ho.
  destruct (request_in data); [done|]. subst r. split; [done|].
  destruct Hs as [[? _]|[_ Hd]]; [done|]. destruct (pconns w' !! conn) eqn:E; [|done].
  destruct Hd. eexists. apply peers_lookup. eauto.
Qed.

(** C8: what becomes of a message.  A request is answered: its completion, its
    failure, or, for a subscription, its acceptance is queued on the connection
    it came from, behind what was queued before, with the command and the
    identifier of the request.  A message that is not a request ends the
    connection. *)
Theorem message_answered w conn c data : served w → pconns w !! conn = Some c →
  (0 < length data)%nat → receivable_ok (json_t := json_t) (Received data) = true →
  ∃ r w', try_receive conn (Received data) w = Ok (r, w') ∧
    match request_in (json_t := json_t) data with
    | Some rq => r = 0%Z ∧ answered (json_t := json_t) conn (out_queue c) rq w'
    | None => r = (-1)%Z ∧ pconns w' !! conn = None
    end.
Proof. intros W%served_winv. by apply message_answered_lemma. Qed.

(** Nothing but the failure of the request [rq] is queued. *)
Record only_refused (w : world) (conn : loc) (c : proto_conn) (rq : request) (w' : world) : Prop := {
  R_core : core w' = core w;
  R_tas : tas w' = tas w;
  R_peers : peers w' = peers w;
  R_fail : ∃ m, queued w' conn (out_queue c) m ∧
    is_response (json_t := json_t) (rq_type rq) (rq_id rq) proto_msg_type_fail m
}.

(** Before the handshake a request other than "hello" is only responded to. *)
Lemma wp_no_hello w conn c rq t ta : winv (Some ta) w → pconns w !! conn = Some c →
  tas w !! ta = Some t → ta_ok (json_t := json_t) (rq_type rq) proto_ta_state_requested rq t →
  wp (handle_no_hello (json_t := json_t) conn ta)
    (λ _ w', core w' = core w ∧ peers w' = peers w ∧
       tas w' = <[ta := ta_with_state proto_ta_state_failed t]> (tas w) ∧
       ∃ m, queued w' conn (out_queue c) m ∧
         is_response (json_t := json_t) (rq_type rq) (rq_id rq) proto_msg_type_fail m) w.
Proof.
  intros W Hc Ht Hok. apply wp_bind.
  eapply wp_ta_fail; [exact Ht|exact Hok|by destruct (ia_type _)|]. intros m Hm.
  eapply wp_queue_message.
  - apply peers_lookup. by exists c.
  - intros w' O Hq. split_and!; [apply O..|]. exists m. split; [|exact Hm].
    apply Hq. exists c. by split.
Qed.

(** Handling such a request, from its arrival to the release of its transaction. *)
Lemma wp_req_before_hello w conn c m rq : winv None w → pconns w !! conn = Some c →
  (pc_client_id c < 0)%Z → request_in (json_t := json_t) (take (msg_len m) (msg_data m)) = Some rq →
  rq_type rq ≠ hello_ta →
  wp (handle_req (json_t := json_t) xcm_remote_addr conn_handshake_cb conn m)
    (λ r w', r = 0%Z ∧ only_refused w conn c rq w') w.
Proof.
  intros W Hc Hneg Erq Hty. unfold handle_req. apply wp_bind. unfold alloc_ta, wp at 1.
  set (ta := next_obj w). set (w0 := set_next_obj _ _).
  pose proof (winv_ta_new w proto_ta_create W) as W0. fold ta w0 in W0.
  assert (Ht0 : tas w0 !! ta = Some proto_ta_create) by apply lookup_insert_eq.
  pose proof (proto_ta_req_spec (json_t := json_t) m) as Hreq.
  fold (request_in (json_t := json_t) (take (msg_len m) (msg_data m))) in Hreq. rewrite Erq in Hreq.
  apply wp_bind. eapply wp_on_ta; [exact Ht0|exact Hreq|]. cbn [bool_decide].
  set (w1 := set_tas _ w0). apply bind_Some in Erq as (j & Ej & Erq).
  assert (Hok : ta_ok (json_t := json_t) (rq_type rq) proto_ta_state_requested rq (requested rq)).
  { eapply requested_ok; [by eapply loadb_valid|done]. }
  assert (W1 : winv (Some ta) w1) by (apply winv_ta_insert; [done|by eexists]).
  assert (Ht1 : tas w1 !! ta = Some (requested rq)) by apply lookup_insert_eq.
  pose proof (To_at _ _ _ _ Hok) as (Ety & _ & Hin & _).
  apply wp_bind. eapply wp_with_ta; [exact Ht1|unfold proto_ta_get_cmd; by rewrite Ety|].
  destruct (hello_cmd _ Hin) as [[_ E]|[-> _]]; [done|].
  apply wp_bind, wp_bind. eapply wp_load_pconn; [exact Hc|].
  unfold has_finished_handshake. rewrite bool_decide_eq_false_2 by lia. cbn [negb].
  eapply wp_mono; [by eapply wp_no_hello|].
  intros [] w2 (Ecore & Epeers & Etas & m' & Hq & Hm). set (tf := ta_with_state _ _) in Etas.
  assert (Ht2 : tas w2 !! ta = Some tf) by (rewrite Etas; apply lookup_insert_eq).
  apply wp_bind. eapply wp_with_ta; [exact Ht2|reflexivity|]. cbn [proto_ta_has_term].
  apply wp_bind. eapply wp_destroy_ta; [exact Ht2|eapply destroy_ok, ta_ok_with_state, Hok|].
  apply wp_ret. split; [done|]. split; [done| |done|by exists m'].
  simpl. rewrite Etas. unfold w1, w0. simpl.
  rewrite insert_insert_eq, insert_insert_eq. apply delete_insert_id.
  apply (W_fresh_tas _ _ W). unfold ta. lia.
Qed.

(** C25: a client that has not said hello gets nothing but a failure: a request
    of any other command leaves the core, the connections and the transactions
    as they are, and its failure is queued. *)
Theorem refused_before_hello w conn c data rq : served w → pconns w !! conn = Some c →
  (pc_client_id c < 0)%Z → (0 < length data)%nat → (Z.of_nat (length data) ≤ 65535)%Z →
  request_in (json_t := json_t) data = Some rq → rq_type rq ≠ hello_ta →
  ∃ w', try_receive conn (Received data) w = Ok (0%Z, w') ∧
    only_refused w conn c rq w'.
Proof.
  intros W%served_winv Hc Hneg Hn Hlen Erq Hty.
  assert (Hw : wp (try_receive conn (Received data)) (λ r w', r = 0%Z ∧ only_refused w conn c rq w') w).
  2: { unfold wp in Hw. destruct (try_receive _ _ w) as [[r w']|]; [|done].
       destruct Hw as [-> Hw]. by exists w'. }
  unfold ProtoConn.try_receive. apply wp_bind. eapply wp_lift; [by rewrite bool_decide_eq_true_2|].
  rewrite bool_decide_eq_true_2 by done. apply wp_bind.
  eapply wp_mono; [apply (wp_req_before_hello w conn c _ rq); [done|done|done| |done]|].
  { cbn [msg_len msg_data msg_create]. by rewrite take_take, Nat.min_id, firstn_all. }
  intros r w2 [-> R]. cbn [bool_decide]. apply wp_bind. eapply wp_await_update.
  { rewrite (R_peers _ _ _ _ _ R). apply peers_lookup. by exists c. }
  intros w3 O. apply wp_ret. split; [done|]. split.
  - by rewrite (Q_core _ _ O), (R_core _ _ _ _ _ R).
  - by rewrite (Q_tas _ _ O), (R_tas _ _ _ _ _ R).
  - by rewrite (Q_peers _ _ O), (R_peers _ _ _ _ _ R).
  - destruct (R_fail _ _ _ _ _ R) as (m' & Hq & Hm). exists m'. split; [|done].
    by eapply queued_only_queues.
Qed.

(** The soft limit of the queue is not enforced: a connection with 128 or
    more messages to send does not wait for requests, but an event that it gets
    because its socket takes messages again still receives a request first and
    answers it, so that the queue grows, even when nothing can be sent. *)
Theorem backlog_still_served w conn c data rq : served w → pconns w !! conn = Some c →
  (128 ≤ length (out_queue c))%nat → (0 < length data)%nat →
  receivable_ok (json_t := json_t) (Received data) = true →
  request_in (json_t := json_t) data = Some rq →
  receivable (awaited c) = false ∧
  ∃ w' c', conn_process (json_t := json_t) xcm_remote_addr conn_handshake_cb conn_term_cb conn
      (Received data) [] w = Ok (tt, w') ∧
    pconns w' !! conn = Some c' ∧ (length (out_queue c) < length (out_queue c'))%nat.
Proof.
  intros Hs Hc Hlen Hn Hr Erq. split.
  - destruct Hs as (clk & s & w0 & evs & _ & E0 & _ & E).
    by apply (connections_awaiting xcm_remote_addr evs w0 w conn c (listen_create _ _ _ E0) E Hc).
  - destruct (message_answered_lemma w conn c data (served_winv _ Hs) Hc Hn Hr) as (r & w1 & E & Ho).
    rewrite Erq in Ho. destruct Ho as [-> (k & m & (c' & new & Hc' & Hq & Hm) & _)].
    assert (Hne : out_queue c' ≠ []).
    { rewrite Hq. destruct (out_queue c); [simpl in Hlen; lia|done]. }
    assert (Es : try_send (json_t := json_t) conn_term_cb conn [] w1 = Ok (0%Z, w1)).
    { unfold try_send, MAX_SEND_BATCH. cbn [send_loop]. rewrite W_bind_eq. unfold load_pconn at 1.
      rewrite Hc'. by destruct (out_queue c'). }
    exists w1, c'. unfold conn_process. rewrite W_bind_eq, E, bool_decide_eq_false_2 by lia.
    rewrite W_bind_eq, Es, bool_decide_eq_false_2 by lia. split; [done|]. split; [done|].
    rewrite Hq, length_app. destruct new; [by apply elem_of_nil in Hm|simpl; lia].
Qed.

(** C28: the clean-out drops exactly the connections whose handshake has taken
    longer than two seconds: those in the list of connections before their
    handshake that were established too long before the time at which they are
    considered; clients are not touched. *)
Theorem handshake_deadline w : served w →
  ∃ w', clean_out_cb w = Ok (tt, w') ∧ client_conns w' = client_conns w ∧
    (∀ conn c, pconns w' !! conn = Some c ↔ pconns w !! conn = Some c ∧
       ¬ ∃ i, clientless_conns w !! i = Some conn ∧ late w i c = true) ∧
    (∀ conn, conn ∈ clientless_conns w' ↔
       conn ∈ clientless_conns w ∧ is_Some (pconns w' !! conn)).
Proof.
  intros W%served_winv. pose proof (wp_clean_out_cb xcm_remote_addr w W) as Hw. unfold wp in Hw.
  destruct (clean_out_cb w) as [[[] w']|]; [|done]. destruct Hw as (W' & Ecc & Hp).
  exists w'. split_and!; [done|done|done|]. intros conn.
  rewrite (P_in_cl _ _ _ _ (W_peers _ _ W')), (P_in_cl _ _ _ _ (W_peers _ _ W)). split.
  - intros (p & (c & Hc & ->)%peers_lookup & Hneg). split; [|by eexists].
    exists (peer_of c). split; [|done]. apply peers_lookup. exists c. split; [by apply Hp|done].
  - intros [(p & (c & Hc & ->)%peers_lookup & Hneg) [c' Hc']]. pose proof Hc' as [Hc0 _]%Hp.
    simplify_eq. exists (peer_of c). split; [|done]. apply peers_lookup. eauto.
Qed.

(** ** Tearing down *)

Section destroy.
Context (w : world) (W : winv None w).

(** The connections [rest] are there, with their transactions, and no others;
    [cc] is the list of the clients' connections. *)
Record destroyed_but (cc rest : list loc) (w1 : world) : Prop := {
  D_clients : client_conns w1 = cc;
  D_core : core w1 = core w;
  D_lists : clientless_conns w1 = clientless_conns w;
  D_conns : ∀ x, pconns w1 !! x = if decide (x ∈ rest) then pconns w !! x else None;
  D_kept : ∀ x c t, x ∈ rest → pconns w !! x = Some c → t ∈ (sub_tas c).*2 → tas w1 !! t = tas w !! t;
  D_only : ∀ t, is_Some (tas w1 !! t) → ∃ x c, x ∈ rest ∧ pconns w !! x = Some c ∧ t ∈ (sub_tas c).*2
}.

Lemma held_by x c t : pconns w !! x = Some c → t ∈ (sub_tas c).*2 → ∃ i, holds_ta (peers w) x i t.
Proof.
  intros Hc ([i t'] & -> & Hin)%list_elem_of_fmap.
  assert (Hp : peers w !! x = Some (peer_of c)) by (apply peers_lookup; eauto).
  exists i, (peer_of c). split; [done|]. apply amap_get_elem; [|done].
  exact (L_nodup _ _ _ _ (W_links _ _ W) _ _ Hp).
Qed.

Lemma wp_destroy_conn cc x rest (Q : unit → world → Prop) w1 : x ∉ rest → is_Some (pconns w !! x) →
  destroyed_but cc (x :: rest) w1 →
  (∀ w2, destroyed_but cc rest w2 → Q tt w2) → wp (proto_conn_destroy x) Q w1.
Proof.
  intros Hn [c Hc] D HQ.
  assert (Hc1 : pconns w1 !! x = Some c) by (rewrite (D_conns _ _ _ D), decide_True; [done|left]).
  destruct (peer_tas None w x (peer_of c) W) as [Hnd Hm]; [apply peers_lookup; eauto|].
  eapply (wp_proto_conn_destroy xcm_remote_addr); [exact Hc1|exact Hnd| |].
  { intros t Ht. rewrite (D_kept _ _ _ D x c); [by apply Hm|left|done|done]. }
  intros ts Hts. apply HQ. split; [apply D|apply D|apply D| | |].
  - intros y. simpl. destruct (decide (y = x)) as [->|Hne].
    + by rewrite lookup_delete_eq, decide_False.
    + rewrite lookup_delete_ne, (D_conns _ _ _ D) by done.
      by destruct (decide (y ∈ rest)), (decide (y ∈ x :: rest)); set_solver.
  - intros y cy t Hy Hcy Ht. simpl. rewrite Hts, decide_False.
    + eapply (D_kept _ _ _ D); [by right|done|done].
    + intros Hx. destruct (held_by _ _ _ Hc Hx) as [i Hi], (held_by _ _ _ Hcy Ht) as [i' Hi'].
      destruct (L_uniq _ _ _ _ (W_links _ _ W) _ _ _ _ _ Hi Hi') as [-> _]. done.
  - intros t. simpl. rewrite Hts. case_decide as Ht; [by intros []|].
    intros (y & cy & Hy & Hcy & Hin)%(D_only _ _ _ D).
    apply elem_of_cons in Hy as [->|Hy]; [by simplify_eq|]. by exists y, cy.
Qed.

Lemma wp_destroy_pconns cc l : ∀ rest (Q : unit → world → Prop) w1, NoDup (l ++ rest) →
  Forall (λ x, is_Some (pconns w !! x)) l → destroyed_but cc (l ++ rest) w1 →
  (∀ w2, destroyed_but cc rest w2 → Q tt w2) → wp (mforeach proto_conn_destroy l) Q w1.
Proof.
  induction l as [|x l IH]; intros rest Q w1 Hnd Hl D HQ; [by apply wp_ret, HQ|].
  apply NoDup_cons in Hnd as [Hn Hnd]. apply Forall_cons in Hl as [Hx Hl]. cbn [mforeach].
  apply wp_bind. eapply wp_destroy_conn; [exact Hn|exact Hx|exact D|]. intros w2 D2.
  by apply (IH rest).
Qed.

(** The two lists are all there is. *)
Lemma all_listed : NoDup (client_conns w ++ clientless_conns w).
Proof.
  pose proof (W_peers _ _ W) as PI. apply NoDup_app. split; [apply PI|]. split; [|apply PI].
  intros x (p & Hp & H0)%(P_in_cc _ _ _ _ PI) (p' & Hp' & Hneg)%(P_in_cl _ _ _ _ PI).
  simplify_eq. lia.
Qed.

Lemma listed x c : pconns w !! x = Some c → x ∈ client_conns w ++ clientless_conns w.
Proof.
  intros Hc. pose proof (W_peers _ _ W) as PI. apply elem_of_app.
  assert (Hp : peers w !! x = Some (peer_of c)) by (apply peers_lookup; eauto).
  destruct (decide (0 ≤ p_id (peer_of c))%Z); [left; apply (P_in_cc _ _ _ _ PI)|
    right; apply (P_in_cl _ _ _ _ PI)]; exists (peer_of c); split; (done || lia).
Qed.

Lemma listed_there (l : list loc) (b : peer → Prop) :
  (∀ x, x ∈ l ↔ ∃ p, peers w !! x = Some p ∧ b p) → Forall (λ x, is_Some (pconns w !! x)) l.
Proof.
  intros Hl. apply Forall_forall. intros x (p & (c & Hc & _)%peers_lookup & _)%Hl. by exists c.
Qed.

Lemma destroyed_none : destroyed_but (client_conns w) (client_conns w ++ clientless_conns w) w.
Proof.
  split; [done..| | |].
  - intros x. case_decide as Hx; [done|]. destruct (pconns w !! x) as [c|] eqn:Hc; [|done].
    destruct Hx. by eapply listed.
  - done.
  - intros t [ta Ht].
    destruct (L_own _ _ _ _ (W_links _ _ W) _ _ Ht) as [|(x & i & p & Hp & Hg)]; [done|].
    apply peers_lookup in Hp as (c & Hc & ->). exists x, c. split; [by eapply listed|].
    split; [done|]. apply list_elem_of_fmap. exists (i, t). split; [done|].
    by apply amap_get_Some_elem.
Qed.
End destroy.

(** Nothing of the server is left in memory. *)
Record server_freed (w : world) : Prop := {
  Fr_pconns : pconns w = ∅;
  Fr_tas : tas w = ∅;
  Fr_client_conns : client_conns w = [];
  Fr_clientless_conns : clientless_conns w = [];
  Fr_services : services (core w) = ∅;
  Fr_subs : subs (core w) = ∅;
  Fr_conns : conns (core w) = ∅;
  Fr_clients : clients (core w) = ∅;
  Fr_timers : timers (core w) = ∅
}.

Lemma wp_server_destroy w : winv None w → wp server_destroy (λ _ w', server_freed w') w.
Proof.
  intros W. pose proof (W_peers _ _ W) as PI.
  unfold server_destroy. apply wp_bind, wp_gets, wp_bind.
  eapply (wp_destroy_pconns w W _ _ (clientless_conns w));
    [by apply all_listed|eapply (listed_there w), PI|by apply destroyed_none|].
  intros w2 D2. apply wp_bind, wp_modify, wp_bind, wp_gets, wp_bind. simpl. rewrite (D_lists _ _ _ _ D2).
  eapply (wp_destroy_pconns w W [] _ []); [rewrite app_nil_r; apply PI| |rewrite app_nil_r; by destruct D2|].
  { eapply (listed_there w), PI. }
  intros w3 D3. apply wp_bind, wp_modify. unfold wp, in_core.
  pose proof (wp_sd_destroy (core w3)) as Hd. rewrite (D_core _ _ _ _ D3) in Hd.
  specialize (Hd (Good_inv _ (W_good _ _ W))). unfold wp in Hd. simpl. rewrite (D_core _ _ _ _ D3).
  destruct (sd_destroy (core w)) as [[[] st']|]; [|done].
  destruct Hd as (E1 & E2 & E3 & E4 & E5 & _).
  split; simpl; [..|exact E1|exact E2|exact E3|exact E4|exact E5].
  - apply map_eq. intros x. rewrite lookup_empty, (D_conns _ _ _ _ D3).
    by rewrite decide_False by set_solver.
  - apply map_eq. intros t. rewrite lookup_empty. destruct (tas w3 !! t) eqn:E; [|done].
    destruct (D_only _ _ _ _ D3 t) as (x & c & Hx & _); [by eexists|]. by apply elem_of_nil in Hx.
  - apply D3.
  - done.
Qed.

(** C20: the server gives everything back: in every state that it comes to, it
    can be destroyed; all connections and transactions are freed, each once, and
    the core's services, subscriptions, clients, their connections and the
    timers with them, since the reference counts are right. *)
Theorem server_destroy_frees_all w : served w →
  ∃ w', server_destroy w = Ok (tt, w') ∧ server_freed w'.
Proof.
  intros W%served_winv. pose proof (wp_server_destroy w W) as Hw. unfold wp in Hw.
  destruct (server_destroy w) as [[[] w']|]; [by exists w'|done].
Qed.
End spec.

(** ** Witnesses *)

Lemma served_story : served (json_t := json) peer_addr after_story.
Proof.
  exists clk0, 7%Z, world_0, story. split; [exact clk0_fine|]. split; [reflexivity|].
  split; [vm_compute; reflexivity|exact story_run].
Qed.

Lemma server_runs_safely_witness :
  server_possible (json_t := json) peer_addr world_0 story = true ∧
  ∃ w, run_server (json_t := json) peer_addr story world_0 = Ok (tt, w) ∧
    served (json_t := json) peer_addr w ∧ inv (core w).
Proof.
  assert (Ha : server_possible (json_t := json) peer_addr world_0 story = true)
    by (vm_compute; reflexivity).
  split; [exact Ha|].
  destruct (server_runs_safely (json_t := json) peer_addr clk0 7 world_0 story)
    as [H|(evs1 & t & evs2 & w & _ & _ & _ & _ & _ & Ef)]; [exact clk0_fine|reflexivity|exact Ha|exact H|].
  rewrite story_run in Ef. discriminate Ef.
Defined.

Lemma server_state_consistent_witness :
  connected (core after_story) 17 = true ∧ connected (core after_story) 18 = false ∧
  (∀ conn, conn ∈ client_conns after_story ↔
     ∃ p, peers after_story !! conn = Some p ∧ (0 ≤ p_id p)%Z).
Proof.
  destruct (server_state_consistent (json_t := json) peer_addr after_story served_story)
    as (_ & _ & _ & _ & _ & _ & _ & _ & H & _).
  split; [vm_compute; reflexivity|]. split; [vm_compute; reflexivity|exact H].
Defined.

Lemma message_answered_witness : ∃ c w',
  pconns after_story !! 1%positive = Some c ∧
  try_receive (json_t := json) peer_addr conn_handshake_cb conn_term_cb 1 (Received (Q ping))
    after_story = Ok (0%Z, w') ∧
  ∃ rq, request_in (json_t := json) (Q ping) = Some rq ∧
    answered (json_t := json) 1 (out_queue c) rq w'.
Proof.
  destruct (pconns after_story !! 1%positive) as [c|] eqn:Hc; [|by vm_compute in Hc].
  destruct (message_answered (json_t := json) peer_addr after_story 1 c (Q ping) served_story Hc)
    as (r & w' & E & Ho).
  - vm_compute. lia.
  - vm_compute. reflexivity.
  - destruct (request_in (Q ping)) as [rq|] eqn:Erq; [|by vm_compute in Erq].
    destruct Ho as [-> Ha]. exists c, w'. split; [reflexivity|]. split; [exact E|].
    exists rq. split; [reflexivity|exact Ha].
Defined.

Lemma refused_before_hello_witness : ∃ c w',
  pconns after_story !! 5%positive = Some c ∧
  try_receive (json_t := json) peer_addr conn_handshake_cb conn_term_cb 5 (Received (Q ping))
    after_story = Ok (0%Z, w') ∧ core w' = core after_story.
Proof.
  destruct (pconns after_story !! 5%positive) as [c|] eqn:Hc; [|by vm_compute in Hc].
  destruct (request_in (json_t := json) (Q ping)) as [rq|] eqn:Erq; [|by vm_compute in Erq].
  destruct (refused_before_hello (json_t := json) peer_addr after_story 5 c (Q ping) rq
    served_story Hc) as (w' & E & R).
  - vm_compute in Hc. injection Hc as <-. reflexivity.
  - vm_compute. lia.
  - apply (bool_decide_eq_true_1 _). vm_compute. reflexivity.
  - exact Erq.
  - intros E. vm_compute in Erq. injection Erq as <-. vm_compute in E. discriminate.
  - exists c, w'. split; [reflexivity|]. split; [exact E|exact (R_core _ _ _ _ _ R)].
Defined.

Lemma server_destroy_frees_all_witness :
  ∃ w', server_destroy after_story = Ok (tt, w') ∧ server_freed w'.
Proof. exact (server_destroy_frees_all (json_t := json) peer_addr after_story served_story). Defined.

(** 128 pings that nobody reads the answers of. *)
Definition backlog : list server_event := story ++ replicate 128 (ask 1 ping).

Definition after_events (evs : list server_event) : world :=
  match run_server (json_t := json) peer_addr evs world_0 with Ok (_, w) => w | Fail _ => world_0 end.

Lemma served_after evs : server_admissible (json_t := json) peer_addr world_0 evs = true →
  served (json_t := json) peer_addr (after_events evs).
Proof.
  intros Ha. exists clk0, 7%Z, world_0, evs. split; [exact clk0_fine|]. split; [reflexivity|].
  split; [exact Ha|].
  destruct (server_runs_ok (json_t := json) peer_addr clk0 7 world_0 evs) as (w & E & _ & _);
    [exact clk0_fine|reflexivity|exact Ha|].
  unfold after_events. by rewrite E.
Qed.

Lemma backlog_still_served_witness : ∃ c,
  pconns (after_events backlog) !! 1%positive = Some c ∧ length (out_queue c) = 132 ∧
  ∃ w' c', conn_process (json_t := json) peer_addr conn_handshake_cb conn_term_cb 1
      (Received (Q ping)) [] (after_events backlog) = Ok (tt, w') ∧
    pconns w' !! 1%positive = Some c' ∧ (132 < length (out_queue c'))%nat.
Proof.
  assert (Hs : served (json_t := json) peer_addr (after_events backlog))
    by (apply served_after; vm_compute; reflexivity).
  assert (Hl : (length ∘ out_queue) <$> pconns (after_events backlog) !! 1%positive = Some 132)
    by (vm_compute; reflexivity).
  apply fmap_Some in Hl as (c & Hc & Hl). unfold compose in Hl.
  destruct (request_in (json_t := json) (Q ping)) as [rq|] eqn:Erq; [|by vm_compute in Erq].
  destruct (backlog_still_served (json_t := json) peer_addr (after_events backlog) 1 c (Q ping) rq Hs Hc)
    as (_ & w' & c' & E & Hc' & Hlt).
  - rewrite <-Hl. lia.
  - vm_compute. lia.
  - vm_compute. reflexivity.
  - exact Erq.
  - exists c. split; [exact Hc|]. split; [by rewrite <-Hl|]. exists w', c'.
    split; [exact E|]. split; [exact Hc'|]. by rewrite Hl.
Defined.

(** The second client of the story has said nothing for three seconds. *)
Definition waited : list server_event := story ++ [SCleanOut; SCleanOut].

Lemma handshake_deadline_witness : ∃ w', clean_out_cb (after_events waited) = Ok (tt, w') ∧
  is_Some (pconns (after_events waited) !! 5%positive) ∧ pconns w' !! 5%positive = None ∧
  is_Some (pconns w' !! 1%positive).
Proof.
  assert (Hs : served (json_t := json) peer_addr (after_events waited))
    by (apply served_after; vm_compute; reflexivity).
  destruct (handshake_deadline (json_t := json) peer_addr (after_events waited) Hs)
    as (w' & E & _ & Hp & _).
  assert (Hl : ∃ c, pconns (after_events waited) !! 5%positive = Some c ∧
    clientless_conns (after_events waited) !! 0 = Some 5%positive ∧
    late (after_events waited) 0 c = true).
  { eexists. split; [vm_compute; reflexivity|]. split; vm_compute; reflexivity. }
  destruct Hl as (c & Hc & Hi & Ht). exists w'. split; [exact E|]. split; [by exists c|]. split.
  - destruct (pconns w' !! 5%positive) as [c'|] eqn:E'; [|reflexivity].
    apply Hp in E' as [Hc' Hn]. destruct Hn. exists 0. split; [exact Hi|].
    rewrite Hc in Hc'. injection Hc' as <-. exact Ht.
  - assert (Hc1 : ∃ c1, pconns (after_events waited) !! 1%positive = Some c1)
      by (eexists; vm_compute; reflexivity).
    destruct Hc1 as [c1 Hc1]. exists c1. apply Hp. split; [exact Hc1|].
    intros (i & Hi1 & _). assert (Hcl : clientless_conns (after_events waited) = [5%positive])
      by (vm_compute; reflexivity).
    rewrite Hcl in Hi1. apply list_elem_of_lookup_2, list_elem_of_singleton in Hi1.
    discriminate Hi1.
Defined.

(** ** The limits are needed *)

(** A client publishes a service with the longest time to live there is, and
    closes its connection; another one subscribes with a pattern that has a part
    behind a wildcard in the middle, and publishes a service. *)
Definition publish_longest : string :=
  "{'ta-cmd': 'publish', 'ta-id': 2, 'msg-type': 'request', 'service-id': 7, 'generation': 1, 'service-props': {}, 'ttl': 9223372036854775807}".
Definition subscribe_two_wildcards : string :=
  "{'ta-cmd': 'subscribe', 'ta-id': 1, 'msg-type': 'request', 'subscription-id': 99, 'filter': '(k=*c*a*)'}".
Definition publish_aac : string :=
  "{'ta-cmd': 'publish', 'ta-id': 2, 'msg-type': 'request', 'service-id': 7, 'generation': 1, 'service-props': {'k': ['aac']}, 'ttl': 60}".

Definition first_hello : list server_event := [SAccept (Some 7%Z); ask 1 (hello_from "17")].

(** The server accepts [requests], and the next event of the connection is
    undefined behaviour. *)
Definition undone_by (requests : list string) (last : received) : Prop :=
  ∃ w c, run_server (json_t := json) peer_addr (first_hello ++ map (ask 1) requests) world_0 = Ok (tt, w) ∧
    pconns w !! 1%positive = Some c ∧ length (out_queue c) = S (length requests) ∧
    conn_process (json_t := json) peer_addr conn_handshake_cb conn_term_cb 1 last [] w = Fail Undefined.

(** Without its limits on requests the server is not safe.  It accepts a
    time to live that does not fit a [struct timeval], and its conversion, when
    the publisher disconnects, is undefined; and it accepts a filter whose
    matching reads outside the property's value.  One client can do either. *)
Example limits_needed :
  undone_by [publish_longest] (Received []) ∧
  undone_by [subscribe_two_wildcards] (Received (Q publish_aac)).
Proof.
  split; (eexists _, _; split; [vm_compute; reflexivity|]); split; [reflexivity| |reflexivity|];
    (split; [reflexivity|vm_compute; reflexivity]).
Qed.
