(* ===== verification/ServerTold.v ===== *)
(** * What the clients read

    Over a run of the server, what ServerOut.v says of one event adds up to the
    whole stream of each connection: it is the replies and one notification for
    each match call of the core, in the order of the calls, and each carries the
    identifier of the transaction by which the client subscribed.  With what is
    known of the core's calls this says what a subscriber reads. *)

From S2P Require Import Prelude CLib Pvalue Props Filter FilterParse Double Service Sub Amap Heap Client Sd SdWp SdInv SdOps SdRemove SdSubs SdDisconnect SdRun SdSpec SdOut SdCalls SdGrow Json JsonTree ProtoTa ProtoTaSpec ProtoTaResp ProtoTaSafe ProtoConn Server ServerOut ServerInv ServerSteps ServerReq ServerRun ServerLive ServerSpec.

(** ** What an event does to the subscriptions of a connection *)

(** No event both adds and takes away. *)
Definition keep (m m' : amap loc) : Prop := ∀ i t, amap_get m i = Some t → amap_get m' i = Some t.
Definition drop_some (m m' : amap loc) : Prop := keep m' m.

#[export] Instance keep_preorder : PreOrder keep.
Proof. split; [by intros m i t|]. intros m1 m2 m3 H1 H2 i t Hi. by apply H2, H1. Qed.
#[export] Instance drop_preorder : PreOrder drop_some.
Proof. split; [by intros m i t|]. intros m1 m2 m3 H1 H2 i t Hi. by apply H1, H2. Qed.

(** The socket that an event accepts, and the connection whose socket it is of. *)
Definition accepted_by (e : server_event) : list Z :=
  match e with SAccept (Some s) => [s] | _ => [] end.
Definition sender_of (e : server_event) : option loc :=
  match e with SProcess conn _ _ => Some conn | _ => None end.

(** The sockets that were accepted. *)
Definition accepted (evs : list server_event) : list Z := evs ≫= accepted_by.

Lemma keep_adds : adds keep.
Proof.
  intros m i t m' [Hi ->]%amap_add_Ok j u Hj. rewrite amap_get_add by done. case_decide; [|done].
  by simplify_eq.
Qed.

Lemma drop_dels : dels drop_some.
Proof.
  intros m i m' Hn ->%amap_del_Ok j u. rewrite amap_get_remove by done. by case_decide.
Qed.

Section told.
Context {json_t : Type} `{!Jansson json_t, !JanssonLaws json_t}.
Context (xcm_remote_addr : Z → option cstr).
Abbreviation winv := (winv (json_t := json_t)).
Abbreviation made := (made (json_t := json_t)).

(** The commands of requests are those of the table. *)
Lemma request_cmd_known m c : request_cmd (json_t := json_t) m = Some c →
  ∃ ty, ty ∈ proto_ta_types ∧ c = cmd ty.
Proof.
  unfold request_cmd. pose proof (proto_ta_req_spec (json_t := json_t) m) as H.
  destruct (_ ≫= request_of) as [rq|] eqn:E.
  - rewrite H. cbn. intros [= <-]. exists (rq_type rq). split; [|done].
    apply bind_Some in E as (j & Ej & Erq).
    pose proof (To_at _ _ _ _ (requested_ok j rq (loadb_valid _ _ Ej) Erq)) as (_ & _ & Hty & _). done.
  - destruct H as (ta & -> & _). by cbn.
Qed.

Lemma one_of_both ty : ty ∈ proto_ta_types →
  ¬ (is_cmd PROTO_CMD_SUBSCRIBE (cmd ty) ∧ is_cmd PROTO_CMD_UNSUBSCRIBE (cmd ty)).
Proof.
  revert ty. apply Forall_forall. unfold proto_ta_types.
  repeat (apply Forall_cons; split; [by intros []|]). constructor.
Qed.

(** One of the two relations suits each event. *)
Lemma event_suits e :
  suits_event (json_t := json_t) keep (sender_of e) (accepted_by e) e ∨
  suits_event (json_t := json_t) drop_some (sender_of e) (accepted_by e) e.
Proof.
  destruct e as [s|conn [data|again] answers| |t]; try (by left).
  { left. intros x ->. by left. }
  simpl. unfold suits.
  destruct (request_cmd _) as [c|] eqn:Ec; [|by left]. apply request_cmd_known in Ec as (ty & Hty & ->).
  pose proof (one_of_both _ Hty) as Hone. destruct (decide (strcmp (cmd ty) PROTO_CMD_UNSUBSCRIBE = 0%Z)).
  - right. split; [done|]. intros c [= <-]. split; [naive_solver|]. intros _. exact drop_dels.
  - left. split; [done|]. intros c [= <-]. split; [|done]. intros _. exact keep_adds.
Qed.

(** ** The streams of all connections *)

(** The stream of a connection, when the sockets [acc] have been accepted: what
    was sent is what is on its socket, if each connection has its own. *)
Definition stream_told (acc : list Z) (w : world) (conn : loc) (c : proto_conn) : Prop := ∃ sent ms,
  sent `sublist_of` on_sock (sock c) (wire w) ∧ (NoDup acc → sent = on_sock (sock c) (wire w)) ∧
  sent ++ out_queue c = ms.*1 ∧
  reports_in ms = reports_for conn (reports (core w)) ∧ Forall made ms ∧
  Forall (fit (=) w c) (omap snd ms).

Record recorded (acc : list Z) (w : world) : Prop := {
  Rc_tidy : tidy w;
  Rc_calls : Forall (λ x, ∃ conn, x.1.1.1.2 = Z.pos conn ∧ (conn < next_obj w)%positive)
    (reports (core w));
  Rc_placed : Forall (λ x, call_placed (core w) x.1) (reports (core w));
  Rc_told : ∀ conn c, pconns w !! conn = Some c → stream_told acc w conn c;
  Rc_socks : ∀ conn c, pconns w !! conn = Some c → sock c ∈ acc;
  Rc_wire : Forall (λ x, x.1 ∈ acc) (wire w);
  Rc_apart : NoDup acc → ∀ conn conn' c c', pconns w !! conn = Some c → pconns w !! conn' = Some c' →
    sock c = sock c' → conn = conn'
}.

Lemma recorded_create clk s w : server_create clk (Some s) = Some w → recorded [] w.
Proof.
  intros [= <-]. split; simpl; try (by constructor); try (intros; by rewrite ?lookup_empty in *).
Qed.

Lemma on_sock_none s (ws : list (Z * msg)) : Forall (λ x, x.1 ≠ s) ws → on_sock s ws = [].
Proof.
  intros H. unfold on_sock. induction H as [|x ws Hx _ IH]; [done|]. by rewrite filter_cons_False.
Qed.

Lemma on_sock_all s (ws : list (Z * msg)) : Forall (λ x, x.1 = s) ws → on_sock s ws = ws.*2.
Proof.
  intros H. unfold on_sock. induction H as [|x ws Hx _ IH]; [done|].
  rewrite filter_cons_True by done. csimpl. by f_equal.
Qed.

Lemma tag_call (ms : list (msg * option notice)) n : n ∈ omap snd ms → n_report n ∈ reports_in ms.
Proof.
  intros (x & Hx & E)%list_elem_of_omap. apply list_elem_of_omap. exists x. by rewrite E.
Qed.

Section event.
Context (R : amap loc → amap loc → Prop) `{!PreOrder R} (sender : option loc) (fresh : list Z).
Hypothesis HR : R = keep ∨ R = drop_some.

(** The transaction that a connection kept for a subscription is the one that
    it keeps now. *)
Lemma still_kept w conn c l s m t : winv None w → pconns w !! conn = Some c →
  subs (core w) !! l = Some s → match_cb_data s = Z.pos conn →
  amap_get m (sub_id s) = Some t → R m (sub_tas c) → amap_get (sub_tas c) (sub_id s) = Some t.
Proof using HR PreOrder0.
  intros W Hc Hs Hd Ht Hm. destruct HR as [-> | ->]; [by apply Hm|].
  destruct (L_sub _ _ _ _ (W_links _ _ W) _ _ Hs) as (conn' & p & t' & Hd' & Hp & _ & Ht').
  apply peers_lookup in Hp as (c' & Hc' & ->). assert (conn' = conn) as -> by congruence.
  simplify_eq. simpl in Ht'. pose proof (Hm _ _ Ht'). congruence.
Qed.

Lemma fit_now w conn c n : winv None w → pconns w !! conn = Some c →
  call_placed (core w) (n_report n).1 → (n_report n).1.1.1.2 = Z.pos conn → fit R w c n → fit (=) w c n.
Proof using HR PreOrder0.
  intros W Hc [_ Hp] Hd [F1 F2 F3 F4]. split; [done..|]. intros s Hs.
  destruct (F4 _ Hs) as (m & Ht & Hm). exists (sub_tas c). split; [|done].
  eapply still_kept; [done|exact Hc|exact Hs| |exact Ht|exact Hm]. by rewrite (Hp _ Hs).
Qed.

Lemma fit_any w c n : fit (=) w c n → fit R w c n.
Proof using PreOrder0.
  intros [F1 F2 F3 F4]. split; [done..|]. intros s Hs. destruct (F4 _ Hs) as (m & Ht & ->).
  by exists (sub_tas c).
Qed.

(** What an event needs to be told apart: its sender is there, one that accepts a
    connection sends nothing, and it accepts one. *)
Record told_apart (w w' : world) : Prop := {
  Ap_sender : ∀ l, sender = Some l → is_Some (pconns w !! l);
  Ap_fresh : fresh = [] ∨ sender = None;
  Ap_new : fresh ≠ [] → ∀ conn conn' c c', pconns w' !! conn = Some c → pconns w' !! conn' = Some c' →
    (next_obj w ≤ conn)%positive → (next_obj w ≤ conn')%positive → conn = conn'
}.

Section recorded_step.
Context (calls : list report) (acc : list Z) (w w' : world).
Context (Rc : recorded acc w) (S : step (json_t := json_t) R sender fresh calls w w').
Context (Ap : told_apart w w').

Lemma sender_sock x : from_sender sender w x → ∃ l c, sender = Some l ∧ pconns w !! l = Some c ∧ x.1 = sock c.
Proof using Ap Rc.
  intros (l & El & [Hn|(c & Hc & Ex)]); [|by exists l, c].
  destruct (Ap_sender _ _ Ap l El) as [c Hc]. destruct (Td_conns _ (Rc_tidy _ _ Rc) _ _ Hc). lia.
Qed.

(** What a connection sends in the step is what its socket gets. *)
Lemma sent_is_all ws conn c c' sent : Forall (from_sender sender w) ws → NoDup acc →
  pconns w !! conn = Some c → sock c = sock c' →
  sent `sublist_of` on_sock (sock c') ws →
  (sender = Some conn → (conn < next_obj w)%positive → sent = ws.*2) →
  sent = on_sock (sock c') ws.
Proof using Ap Rc.
  intros Hws Hnd Hc Es Hsub Hsent. destruct (decide (sender = Some conn)) as [Hs|Hs].
  - destruct (Td_conns _ (Rc_tidy _ _ Rc) _ _ Hc) as [Hlt _]. rewrite Hsent by done. symmetry.
    apply on_sock_all. eapply Forall_impl; [exact Hws|]. intros x (l & c1 & El & Hl & ->)%sender_sock.
    assert (l = conn) as -> by congruence. congruence.
  - assert (E : on_sock (sock c') ws = []).
    { apply on_sock_none. eapply Forall_impl; [exact Hws|]. intros x (l & c1 & El & Hl & ->)%sender_sock Ex.
      apply Hs. rewrite El. f_equal. eapply (Rc_apart _ _ Rc Hnd); [done..|]. congruence. }
    rewrite E in Hsub |- *. by apply sublist_nil_r.
Qed.

Lemma new_is_all ws s sent : Forall (from_sender sender w) ws → NoDup (acc ++ fresh) → s ∈ fresh →
  sent `sublist_of` on_sock s ws → sent = on_sock s (wire w ++ ws).
Proof using Ap Rc.
  intros Hws (_ & Hdis & _)%NoDup_app Hs Hsub.
  destruct (Ap_fresh _ _ Ap) as [E|E]; [rewrite E in Hs; by apply elem_of_nil in Hs|].
  assert (ws = []) as ->.
  { destruct Hws as [|x ws (l & El & _) _]; [done|congruence]. }
  apply sublist_nil_r in Hsub as ->. rewrite app_nil_r, on_sock_none; [done|].
  eapply Forall_impl; [apply Rc|]. intros x Hx <-. by apply (Hdis _ Hx).
Qed.

Lemma recorded_socks conn c' : pconns w' !! conn = Some c' → sock c' ∈ acc ++ fresh.
Proof using Rc S.
  intros Hc'. destruct (T_wire _ _ _ _ _ _ S) as (ws & _ & _ & Hws).
  destruct (Hws _ _ Hc') as (_ & _ & _ & [c Hc <- _ _|_ _ Hs] & _); apply elem_of_app; [left|by right].
  by apply (Rc_socks _ _ Rc _ _ Hc).
Qed.

Lemma recorded_wire : Forall (λ x, x.1 ∈ acc ++ fresh) (wire w').
Proof using Ap Rc S.
  destruct (T_wire _ _ _ _ _ _ S) as (ws & -> & Hws & _). apply Forall_app. split.
  - eapply Forall_impl; [apply Rc|]. intros x Hx. apply elem_of_app. by left.
  - eapply Forall_impl; [exact Hws|]. intros x (l & c & _ & Hc & ->)%sender_sock.
    apply elem_of_app. left. by apply (Rc_socks _ _ Rc _ _ Hc).
Qed.

Lemma recorded_apart : NoDup (acc ++ fresh) → ∀ conn conn' c c', pconns w' !! conn = Some c →
  pconns w' !! conn' = Some c' → sock c = sock c' → conn = conn'.
Proof using Ap Rc S.
  intros Hnd conn conn' c c' Hc Hc' E. destruct (T_wire _ _ _ _ _ _ S) as (ws & _ & _ & Hws).
  pose proof Hnd as (Hacc & Hdis & _)%NoDup_app.
  destruct (Hws _ _ Hc) as (_ & _ & _ & [c1 Hc1 E1 _ _|Hn1 _ Hs1] & _),
    (Hws _ _ Hc') as (_ & _ & _ & [c2 Hc2 E2 _ _|Hn2 _ Hs2] & _).
  - eapply (Rc_apart _ _ Rc Hacc); [done..|congruence].
  - exfalso. apply (Hdis (sock c')); [|done]. rewrite <-E, <-E1. by apply (Rc_socks _ _ Rc _ _ Hc1).
  - exfalso. apply (Hdis (sock c)); [|done]. rewrite E, <-E2. by apply (Rc_socks _ _ Rc _ _ Hc2).
  - apply (Ap_new _ _ Ap) with c c'; [|done..]. intros Ef. rewrite Ef in Hs1. by apply elem_of_nil in Hs1.
Qed.

Hypothesis W : winv None w'.
Hypothesis E : reports (core w') = reports (core w) ++ calls.

Lemma recorded_placed : Forall (λ x, call_placed (core w') x.1) (reports (core w')).
Proof using E Rc S.
  pose proof (Rc_tidy _ _ Rc) as T. pose proof (Rc_placed _ _ Rc) as P.
  destruct (Gr_outputs _ _ (T_core _ _ _ _ _ _ S)) as (os & Eo & Ho).
  rewrite E, <-(reports_new _ _ _ _ Eo E). apply Forall_app. split.
  - eapply Forall_impl; [exact P|]. intros x. by eapply call_placed_grown, T_core.
  - change (Forall (call_placed (core w') ∘ fst) (omap report_of os)).
    rewrite <-Forall_fmap, reports_match. by apply Ho, T.
Qed.

Lemma recorded_told conn c' : pconns w' !! conn = Some c' → stream_told (acc ++ fresh) w' conn c'.
Proof using HR PreOrder0 Ap Rc S W E.
  intros Hc'. pose proof recorded_placed as P'. pose proof (Rc_calls _ _ Rc) as C.
  destruct (T_wire _ _ _ _ _ _ S) as (ws & Ew & Hfrom & Hws).
  destruct (Hws _ _ Hc') as (q0 & sent & ms & St & Hs & Q & Cm & M & F & X).
  assert (∃ sent' ms', sent' `sublist_of` on_sock (sock c') (wire w) ∧
    (NoDup (acc ++ fresh) → sent' ++ sent = on_sock (sock c') (wire w ++ ws)) ∧ sent' ++ q0 = ms'.*1 ∧
    reports_in ms' = reports_for conn (reports (core w)) ∧ Forall made ms' ∧
    Forall (fit R w' c') (omap snd ms')) as (sent' & ms' & Hs' & X' & Q' & Cm' & M' & F').
  { destruct St as [c Hc Es HRc <-|Hn -> Hfr].
    - destruct (Rc_told _ _ Rc _ _ Hc) as (sent' & ms' & H1 & H1' & H2 & H3 & H4 & H5). rewrite Es in H1, H1'.
      exists sent', ms'. split_and!; [done| |done..|].
      + intros (Hacc & _)%NoDup_app. rewrite on_sock_app, H1' by done. f_equal.
        by eapply sent_is_all.
      + eapply Forall_impl; [exact H5|]. intros n Fn. eapply fit_step; [done|exact S|exact HRc|by apply fit_any].
    - exists [], []. rewrite (reports_for_new _ _ _ C Hn).
      split_and!; [apply sublist_nil_l| |done|done|constructor|constructor].
      intros Hnd. by apply new_is_all. }
  exists (sent' ++ sent), (ms' ++ ms).
  assert (Ec : reports_in (ms' ++ ms) = reports_for conn (reports (core w')))
    by (by rewrite reports_in_app, Cm', Cm, E, reports_for_app).
  split_and!; [|by rewrite Ew|by rewrite <-app_assoc, Q, app_assoc, Q', fmap_app|done|by apply Forall_app|].
  - rewrite Ew, on_sock_app. by apply sublist_app.
  - apply Forall_forall. intros n Hn. pose proof (tag_call _ _ Hn) as Hcall. rewrite Ec in Hcall.
    apply list_elem_of_filter in Hcall as [Hd Hin]. rewrite Forall_forall in P'.
    eapply fit_now; [done|exact Hc'|by apply P'|done|]. rewrite omap_app in Hn.
    apply elem_of_app in Hn as [Hn|Hn]; rewrite Forall_forall in F, F'; auto.
Qed.

Lemma recorded_step : tidy w' → recorded (acc ++ fresh) w'.
Proof using HR PreOrder0 Ap Rc S W E.
  intros T'. split; [done| |exact recorded_placed|exact recorded_told|exact recorded_socks|
    exact recorded_wire|exact recorded_apart].
  pose proof (T_next _ _ _ _ _ _ S). rewrite E. apply Forall_app. split; [|apply (T_calls _ _ _ _ _ _ S)].
  eapply Forall_impl; [apply Rc|]. intros x (conn & Hx & Hlt). exists conn. split; [done|lia].
Qed.
End recorded_step.
End event.

Lemma event_told_apart e w w' : tidy w →
  server_allowed (json_t := json_t) w e = true →
  run_server_event (json_t := json_t) xcm_remote_addr e w = Ok (tt, w') →
  told_apart (sender_of e) (accepted_by e) w w'.
Proof.
  intros T Ha E. destruct e as [[s|]|conn r answers| |t]; split; simpl; try done; try (by left); try (by right).
  - intros _ conn conn' c c' Hc Hc' Hn Hn'. unfold accept_cb, proto_conn_create in E.
    apply M_bind_Ok in E as (l & w1 & E & [= <-]). apply M_bind_Ok in E as (now & w2 & E2 & [= <- <-]).
    apply in_core_Ok in E2 as (st' & Est & ->). simpl in Hc, Hc', Hn, Hn'.
    assert (Hold : ∀ i x, (next_obj w ≤ i)%positive → pconns w !! i = Some x → False).
    { intros i x Hi Hx. destruct (Td_conns _ T _ _ Hx). lia. }
    apply lookup_insert_Some in Hc as [[<- _]|[_ Hc]]; [|by destruct (Hold _ _ Hn Hc)].
    by apply lookup_insert_Some in Hc' as [[<- _]|[_ Hc']]; [|destruct (Hold _ _ Hn' Hc')].
  - intros l [= <-]. apply andb_true_iff in Ha as [Ha%bool_decide_eq_true_1 _]. exact Ha.
Qed.

Lemma recorded_event e acc w w' : recorded acc w → winv None w → winv None w' →
  server_allowed (json_t := json_t) w e = true →
  run_server_event (json_t := json_t) xcm_remote_addr e w = Ok (tt, w') →
  recorded (acc ++ accepted_by e) w'.
Proof using JanssonLaws0.
  intros Rc W W' Ha E. pose proof (event_told_apart e w w' (Rc_tidy _ _ Rc) Ha E) as Ap. destruct (event_suits e) as [He|He].
  - destruct (tells_event keep (sender_of e) (accepted_by e) xcm_remote_addr e He w tt w' (Rc_tidy _ _ Rc) E)
      as (T & _ & calls & C & S).
    by eapply (recorded_step keep (sender_of e) (accepted_by e) (or_introl eq_refl)).
  - destruct (tells_event drop_some (sender_of e) (accepted_by e) xcm_remote_addr e He w tt w' (Rc_tidy _ _ Rc) E)
      as (T & _ & calls & C & S).
    by eapply (recorded_step drop_some (sender_of e) (accepted_by e) (or_intror eq_refl)).
Qed.

Lemma recorded_run evs : ∀ acc w w', recorded acc w → winv None w →
  server_admissible (json_t := json_t) xcm_remote_addr w evs = true →
  run_server (json_t := json_t) xcm_remote_addr evs w = Ok (tt, w') → recorded (acc ++ accepted evs) w'.
Proof using JanssonLaws0.
  induction evs as [|e evs IH]; intros acc w w' Rc W Ha E;
    [injection E as <-; by rewrite app_nil_r|].
  simpl in Ha. apply andb_true_iff in Ha as [Ha Hrest].
  apply M_bind_Ok in E as ([] & w1 & E1 & E2). rewrite E1 in Hrest.
  pose proof (server_event_ok xcm_remote_addr e w W Ha) as W1. unfold wp in W1. rewrite E1 in W1.
  unfold accepted. rewrite bind_cons, app_assoc.
  eapply IH; [by eapply recorded_event|done|exact Hrest|exact E2].
Qed.

Lemma run_recorded clk s w0 evs w : clock_fine clk → server_create clk (Some s) = Some w0 →
  server_admissible (json_t := json_t) xcm_remote_addr w0 evs = true →
  run_server (json_t := json_t) xcm_remote_addr evs w0 = Ok (tt, w) → recorded (accepted evs) w.
Proof using JanssonLaws0.
  intros Hclk E0 Ha E. change (accepted evs) with ([] ++ accepted evs).
  eapply recorded_run; [by eapply recorded_create|by eapply winv_create|exact Ha|exact E].
Qed.

Lemma served_recorded w : served (json_t := json_t) xcm_remote_addr w → ∃ acc, recorded acc w.
Proof using JanssonLaws0.
  intros (clk & s & w0 & evs & Hclk & E0 & Ha & E). exists (accepted evs). by eapply run_recorded.
Qed.

(** ** What a subscriber reads *)

Lemma tabulate_for conn l rs T : Forall (λ x : report, x.1.1.1.1 = l → x.1.1.1.2 = Z.pos conn) rs →
  tabulate l (reports_for conn rs) T = tabulate l rs T.
Proof.
  intros H. revert T. induction H as [|[[[[l' d] m] id] g] rs Hd _ IH]; intros T; [done|].
  unfold reports_for in *. simpl in Hd. destruct (decide (d = Z.pos conn)) as [->|Hne].
  - rewrite filter_cons_True by done. simpl. case_decide; [|apply IH].
    destruct (table1 T m id g); simpl; [apply IH|done].
  - rewrite filter_cons_False by done. rewrite IH. simpl. rewrite decide_False; [done|].
    intros E. by apply Hne, Hd.
Qed.

(** The messages [ms] are what the connection has been sent, or is to be, when the
    sockets [acc] have been accepted: one notice for each match call, and messages
    that notify of no match. *)
Record reads (acc : list Z) (w : world) (conn : loc) (ms : list (msg * option notice)) : Prop := {
  Rd_stream : ∃ c sent, pconns w !! conn = Some c ∧ sent ++ out_queue c = ms.*1 ∧
    sent `sublist_of` on_sock (sock c) (wire w) ∧ (NoDup acc → sent = on_sock (sock c) (wire w));
  Rd_made : Forall made ms;
  Rd_calls : reports_in ms = reports_for conn (reports (core w))
}.

(** The connection of a subscription, its transaction, the stream, and the table
    that the reports in the stream make. *)
Definition subscribed_on (w : world) (s : sub) (conn : loc) (c : proto_conn) (ta : proto_ta) : Prop :=
  match_cb_data s = Z.pos conn ∧ pconns w !! conn = Some c ∧ pc_client_id c = sub_client_id s ∧
  ∃ t, amap_get (sub_tas c) (sub_id s) = Some t ∧ tas w !! t = Some ta.

Lemma subscriber_reports acc w l s : recorded acc w → winv None w → subs (core w) !! l = Some s →
  ∃ conn c ta ms T, subscribed_on w s conn c ta ∧ reads acc w conn ms ∧
    Forall (λ n, n_sub n = l → n_id n = ta_id ta) (omap snd ms) ∧
    tabulate l (reports_in ms) ∅ = Some T ∧ ∀ id, T !! id = selected s (gen_at (core w) id).
Proof using JanssonLaws0.
  intros Rc W Hs. pose proof (W_links _ _ W) as L.
  destruct (L_sub _ _ _ _ L _ _ Hs) as (conn & p & t & Hd & Hp & Hid & Ht).
  destruct (L_ta _ _ _ _ L conn (sub_id s) t) as (ta & Hta & _); [by exists p|].
  apply peers_lookup in Hp as (c & Hc & ->).
  destruct (Rc_told _ _ Rc _ _ Hc) as (sent & ms & H1 & H1' & H2 & H3 & H4 & H5).
  destruct (Good_views _ (W_good _ _ W) _ _ Hs) as (T & HT & HK).
  exists conn, c, ta, ms, T.
  split_and!; [by split_and!; eauto|split; [by exists c, sent|done|done]| | |exact HK].
  - eapply Forall_impl; [exact H5|]. intros n [_ F _ K] <-.
    destruct (K _ Hs) as (m & Hm & ->). simpl in Ht. symmetry. apply F. congruence.
  - rewrite H3, tabulate_for; [done|]. eapply Forall_impl; [apply (Rc_placed _ _ Rc)|].
    intros x [_ Hx] <-. by rewrite <-(Hx _ Hs).
Qed.
End told.
