(* ===== verification/ServerRead.v ===== *)
(** * What a client reads from its notifications

    From the messages on a socket back to the services: a reader of the
    notifications of a subscription, written with the table of fields of
    src/proto/proto_ta.c and its functions for reading fields, and that such a
    reader has the services, with their generations, properties, times to live,
    owners and orphan times, that the core has. *)

From Stdlib Require Import SpecFloat.
From S2P Require Import Prelude CLib Pvalue Props Filter FilterParse Double Service Sub Amap Heap Client Sd SdWp SdInv SdOps SdRemove SdSubs SdDisconnect SdRun SdSpec SdOut SdCalls SdGrow Json JsonTree ProtoTa ProtoTaSpec ProtoTaResp ProtoTaSafe ProtoConn Server ServerOut ServerInv ServerSteps ServerReq ServerRun ServerLive ServerSpec ServerTold.

(** ** The reader *)

(** What a client writes down of a service. *)
Record entry := Entry {
  e_generation : Z;
  e_props : props;
  e_ttl : Z;
  e_client_id : Z;
  e_orphan_since : option double
}.

(** The entry that the optional fields of a notification make. *)
Definition entry_in (fields : list (option field_value)) : option entry :=
  match fields with
  | Some (FUint63 g) :: Some (FProps p) :: Some (FUint63 ttl) :: Some (FUint63 c) :: since :: _ =>
      match since with
      | Some (FNumber t) => Some (Entry g p ttl c (Some t))
      | None => Some (Entry g p ttl c None)
      | _ => None
      end
  | _ => None
  end.

Section reader.
Context {json_t : Type} `{!Jansson json_t}.

Definition fields_in (j : json_t) (fields : list proto_field) (opt : bool)
    : option (list (option field_value)) :=
  match get_fields j fields opt no_values with Ok (Some _, vs) => Some vs | _ => None end.

(** A notification of a match: the transaction's identifier, the match, the
    identifier of the service, and what is said of it. *)
Definition notice_in (j : json_t) : option (Z * sub_match_type * Z * option entry) :=
  name ← json_object_get j PROTO_FIELD_TA_CMD ≫= string_of;
  id ← json_object_get j PROTO_FIELD_TA_ID ≫= uint63_of;
  type ← json_object_get j PROTO_FIELD_MSG_TYPE ≫= string_of;
  if decide (name = PROTO_CMD_SUBSCRIBE ∧ type = PROTO_MSG_TYPE_NOTIFY) then
    vs ← fields_in j (notify_fields subscribe_ta) false;
    os ← fields_in j (opt_notify_fields subscribe_ta) true;
    match vs with
    | Some (FMatchType m) :: Some (FUint63 service) :: _ => Some (id, m, service, entry_in os)
    | _ => None
    end
  else None.

(** Writing one down; a notification that does not fit what is there is an error. *)
Definition write_down (T : gmap Z entry) (m : sub_match_type) (service : Z) (e : option entry)
    : option (gmap Z entry) :=
  match m, e with
  | sub_match_type_appeared, Some e =>
      if decide (is_Some (T !! service)) then None else Some (<[service := e]> T)
  | sub_match_type_modified, Some e =>
      if decide (is_Some (T !! service)) then Some (<[service := e]> T) else None
  | sub_match_type_disappeared, _ =>
      if decide (is_Some (T !! service)) then Some (delete service T) else None
  | _, None => None
  end.

(** The client of the transaction [id] reads messages. *)
Fixpoint follow (id : Z) (js : list json_t) (T : gmap Z entry) : option (gmap Z entry) :=
  match js with
  | [] => Some T
  | j :: js' =>
      '(i, m, service, e) ← notice_in j;
      if decide (i = id) then T' ← write_down T m service e; follow id js' T' else follow id js' T
  end.

(** The message carries this JSON value. *)
Definition written (m : msg) (j : json_t) : Prop :=
  json_dumps j = Some (msg_data m) ∧ msg_len m = length (msg_data m).
End reader.

(** An entry says what a generation is; the pairs of properties with different
    names may be in another order. *)
Record says (e : entry) (g : generation) : Prop := {
  Says_generation : e_generation e = gen_generation g;
  Says_props : ∃ p, gen_props g = Some p ∧ ∀ n, values_of (e_props e) n = values_of p n;
  Says_ttl : e_ttl e = gen_ttl g;
  Says_client_id : e_client_id e = gen_client_id g;
  Says_orphan_since : e_orphan_since e =
    if gen_orphan (Some g) then Some (gen_orphan_since g) else None
}.

(** The messages that notify of calls for the subscription. *)
Definition told_messages (l : loc) (ms : list (msg * option notice)) : list msg :=
  omap (λ x, n ← x.2; if decide (n_sub n = l) then Some x.1 else None) ms.

(** ** Reading what has been written *)

Section read.
Context {json_t : Type} `{!Jansson json_t, !JanssonLaws json_t}.

(** Only the transactions of subscriptions have notifications with a match. *)
Lemma match_type_only t ty m ap r t' : ta_type t = Some ty → ty ∈ proto_ta_types →
  proto_ta_notify (json_t := json_t) t (Some (FMatchType m) :: ap) = Ok (r, t') → ty = subscribe_ta.
Proof.
  intros Ety Hty E. unfold proto_ta_notify in E. rewrite Ety in E. cbn [deref mbind outcome_bind] in E.
  apply outcome_bind_Ok in E as ([] & Ea & E). apply outcome_bind_Ok in E as (m' & E & _).
  unfold produce_response in E. apply outcome_bind_Ok in E as (j & E & _).
  unfold response_json in E. rewrite Ety in E. cbn [deref mbind outcome_bind] in E.
  revert Hty Ea E. unfold proto_ta_types. rewrite !elem_of_cons, elem_of_nil.
  by intros [->|[->|[->|[->|[->|[->|[->|[->|[->|[]]]]]]]]]].
Qed.

(** Values that are no properties are read as they were written. *)
Lemma same_plain w v : option_Forall2 same_value w (Some v) →
  match v with FProps _ => ∃ p, w = Some (FProps p) ∧ same_value (FProps p) v | _ => w = Some v end.
Proof.
  intros S. inversion S as [x y E|]; subst. destruct v, x; simpl in E; try done; try (by rewrite E); eauto.
Qed.

(** What a notification of a subscription's transaction says. *)
Lemma notification_read t m id os r t' : ta_type t = Some subscribe_ta → (0 ≤ ta_id t ≤ int64_max)%Z →
  (0 ≤ id ≤ int64_max)%Z → Forall2 (arg_ok (json_t := json_t) true) (opt_notify_fields subscribe_ta) os →
  proto_ta_notify (json_t := json_t) t (Some (FMatchType m) :: Some (FUint63 id) :: os) = Ok (r, t') →
  ∃ j vs, written (json_t := json_t) r j ∧ notice_in j = Some (ta_id t, m, id, entry_in (filled vs)) ∧
    Forall2 (option_Forall2 same_value) vs os.
Proof.
  intros Ety Hid Hs Hos E. unfold proto_ta_notify in E. rewrite Ety in E. cbn [deref mbind outcome_bind] in E.
  apply outcome_bind_Ok in E as ([] & _ & E). apply outcome_bind_Ok in E as (m' & E & [= -> _]).
  unfold produce_response in E. apply outcome_bind_Ok in E as (j & E & E2).
  apply outcome_bind_Ok in E2 as (data & Ed & [= <-]).
  destruct (response_json_spec t subscribe_ta proto_msg_type_notify PROTO_MSG_TYPE_NOTIFY
    (notify_fields subscribe_ta) (opt_notify_fields subscribe_ta) [Some (FMatchType m); Some (FUint63 id)]
    os [] Ety) as (j' & Ej & [Hj _] & (H1 & H2 & H3) & F1 & F2 & _); [by do 3 right; left|done|done| |done|].
  { do 2 (apply Forall2_cons; split; [by split|]). constructor. }
  rewrite app_nil_r in Ej. cbn [app] in Ej. assert (j' = j) as -> by congruence.
  destruct (slots_back false _ _ _ F1) as (ws & Hws & Sw); [by repeat constructor|].
  destruct (slots_back true _ _ _ F2) as (vs & Hvs & Sv); [done|].
  exists j, vs. split; [|split; [|done]].
  - split; [|done]. simpl. by destruct (json_dumps j); [injection Ed as ->|].
  - unfold notice_in, PROTO_FIELD_TA_CMD, PROTO_FIELD_TA_ID, PROTO_FIELD_MSG_TYPE, fields_in.
    rewrite H1, H2, H3. cbn [mbind option_bind]. rewrite decide_True by done.
    rewrite !get_fields_spec, Hws, Hvs by (done || (simpl; unfold MAX_FIELDS; lia)). cbn [mbind option_bind].
    apply Forall2_cons_inv_r in Sw as (w1 & ws1 & S1 & Sw & ->).
    apply Forall2_cons_inv_r in Sw as (w2 & ws2 & S2 & Sw & ->). apply Forall2_nil_inv_r in Sw as ->.
    apply same_plain in S1, S2. by rewrite S1, S2.
Qed.

(** ** The notices of a stream *)

Abbreviation P := (props_text (json_t := json_t)).

(** What a generation must be for a message to carry it. *)
Definition sendable_gen (g : generation) : Prop :=
  (∃ p, gen_props g = Some p ∧ P p) ∧ (0 ≤ gen_generation g ≤ int64_max)%Z ∧
  (0 ≤ gen_ttl g ≤ int64_max)%Z ∧ (0 ≤ gen_client_id g ≤ int64_max)%Z ∧
  since_ok (gen_orphan_since g).

(** What a report says can be sent. *)
Definition report_fine (r : report) : Prop :=
  let '(_, _, m, id, g) := r in (0 ≤ id ≤ int64_max)%Z ∧
  (m ≠ sub_match_type_disappeared → ∃ g', g = Some g' ∧ sendable_gen g').

Lemma reports_fine st : fine P st → Forall report_fine (reports st).
Proof.
  intros F. pose proof (Fine_outputs _ _ F) as Ho. unfold reports. induction Ho as [|o os Ho _ IH]; [constructor|].
  rewrite omap_cons_eq. destruct o as [s d m srv| |]; simpl; [|done|done]. constructor; [|done].
  destruct Ho as [Hf Hc]. split; [apply Hf|]. intros Hm.
  destruct (service_args srv Hf (Hc Hm)) as (g & p & Eg & Ep & Hp & _ & H1 & H2 & H3 & H4).
  exists g. split; [by destruct m|]. split_and!; eauto; lia.
Qed.

Lemma since_finite t : since_ok t → finite t = true.
Proof. intros [-> | [H _]]; [by vm_compute|]. by destruct t. Qed.

(** The arguments of a notification for a service with this generation. *)
Definition gen_args (g : generation) : list (option field_value) :=
  [Some (FUint63 (gen_generation g)); FProps <$> gen_props g; Some (FUint63 (gen_ttl g));
   Some (FUint63 (gen_client_id g));
   if gen_orphan (Some g) then Some (FNumber (gen_orphan_since g)) else None].

Lemma match_args_gen m srv g : m ≠ sub_match_type_disappeared → current srv = Some g →
  match_args m srv = Ok (Some (FMatchType m) :: Some (FUint63 (service_id srv)) :: gen_args g).
Proof.
  intros Hm Hg. unfold match_args. rewrite decide_False by done.
  rewrite (orphan_since_ok srv g Hg). unfold service_get_generation, service_get_props, service_get_ttl,
    service_get_client_id, service_get. by rewrite Hg.
Qed.

Lemma gen_args_ok g : sendable_gen g →
  Forall2 (arg_ok (json_t := json_t) true) (opt_notify_fields subscribe_ta) (gen_args g).
Proof.
  intros ((p & Ep & Hp) & H1 & H2 & H3 & H4). unfold gen_args. rewrite Ep.
  do 4 (apply Forall2_cons; split; [by split|]). apply Forall2_cons. split; [|constructor].
  destruct (gen_orphan _); [|by left]. split; [done|by apply since_finite].
Qed.

Lemma entry_said g vs : sendable_gen g → Forall2 (option_Forall2 same_value) vs (gen_args g) →
  ∃ e, entry_in (filled vs) = Some e ∧ says e g.
Proof.
  intros ((p & Ep & Hp) & _) Hv. unfold gen_args in Hv. rewrite Ep in Hv.
  apply Forall2_cons_inv_r in Hv as (v1 & vs1 & S1%same_plain & Hv & ->).
  apply Forall2_cons_inv_r in Hv as (v2 & vs2 & S2%same_plain & Hv & ->).
  apply Forall2_cons_inv_r in Hv as (v3 & vs3 & S3%same_plain & Hv & ->).
  apply Forall2_cons_inv_r in Hv as (v4 & vs4 & S4%same_plain & Hv & ->).
  apply Forall2_cons_inv_r in Hv as (v5 & vs5 & S5 & Hv & ->). apply Forall2_nil_inv_r in Hv as ->.
  destruct S2 as (q & -> & Hq). rewrite S1, S3, S4.
  destruct (gen_orphan (Some g)) eqn:Eo.
  - apply same_plain in S5 as ->. eexists. split; [done|].
    split; cbn [e_generation e_props e_ttl e_client_id e_orphan_since];
      [done|by exists p|done|done|by rewrite Eo].
  - inversion S5; subst. eexists. split; [done|].
    split; cbn [e_generation e_props e_ttl e_client_id e_orphan_since];
      [done|by exists p|done|done|by rewrite Eo].
Qed.

(** A notice is read as the report that it was made for. *)
Lemma notice_read r n : note_made (json_t := json_t) r n → report_fine (n_report n) →
  ∃ j e, written (json_t := json_t) r j ∧
    notice_in j = Some (n_id n, (n_report n).1.1.2, (n_report n).1.2, e) ∧
    ((n_report n).1.1.2 ≠ sub_match_type_disappeared → option_Forall2 says e (n_report n).2).
Proof.
  unfold note_made. destruct (n_report n) as [[[[l d] m] id] g]. simpl.
  intros (srv & ap & t & t' & Ei & Eg & Ea & Et & Hs & E) [Hid Hf]. rewrite <-Et.
  assert (Ety : ∃ ty, ta_type t = Some ty).
  { unfold proto_ta_notify in E. destruct (ta_type t); [by eexists|done]. }
  destruct Ety as [ty Ety]. destruct (Hs _ Ety) as [Hty Htid].
  assert (ty = subscribe_ta) as ->.
  { destruct ap as [|a ap]; [unfold match_args in Ea; destruct (decide _); [done|];
      repeat (apply outcome_bind_Ok in Ea as (? & _ & Ea)); done|].
    assert (a = Some (FMatchType m)) as ->; [|by eapply match_type_only].
    unfold match_args in Ea. destruct (decide _); [by injection Ea|].
    repeat (apply outcome_bind_Ok in Ea as (? & _ & Ea)). by injection Ea. }
  destruct (decide (m = sub_match_type_disappeared)) as [->|Hm].
  - injection Ea as <-. rewrite Ei in E.
    destruct (notification_read t sub_match_type_disappeared id [None; None; None; None; None] r t')
      as (j & vs & Hw & Hn & _); [done|done|done| |done|].
    { do 5 (apply Forall2_cons; split; [by left|]). constructor. }
    exists j, (entry_in (filled vs)). split_and!; [done..|by intros []].
  - destruct (Hf Hm) as (g' & -> & Hg').
    assert (Ecur : current srv = Some g') by (by destruct m).
    rewrite (match_args_gen m srv g' Hm Ecur), Ei in Ea. injection Ea as <-.
    destruct (notification_read t m id (gen_args g') r t') as (j & vs & Hw & Hn & Sv);
      [done|done|done|by apply gen_args_ok|done|].
    destruct (entry_said g' vs Hg' Sv) as (e & Ee & He).
    exists j, (Some e). rewrite Hn, Ee. split_and!; [done..|]. intros _. by constructor.
Qed.

(** ** Following a stream *)

Definition agree (Te : gmap Z entry) (T : gmap Z generation) : Prop :=
  ∀ id, option_Forall2 says (Te !! id) (T !! id).

Lemma agree_is_Some Te T id : agree Te T → is_Some (Te !! id) ↔ is_Some (T !! id).
Proof. intros H. split; intros [x E]; specialize (H id); rewrite E in H; inversion H; by eexists. Qed.

Lemma write_down_agree Te T m id e g T' : agree Te T → table1 T m id g = Some T' →
  (m ≠ sub_match_type_disappeared → option_Forall2 says e g) →
  ∃ Te', write_down Te m id e = Some Te' ∧ agree Te' T'.
Proof.
  intros H E Hs. pose proof (agree_is_Some _ _ id H) as Hi.
  assert (Hin : ∀ e g, says e g → agree (<[id := e]> Te) (<[id := g]> T)).
  { intros e1 g1 He i. destruct (decide (i = id)) as [->|]; [rewrite !lookup_insert_eq; by constructor|].
    by rewrite !lookup_insert_ne. }
  destruct (decide (m = sub_match_type_disappeared)) as [->|Hm].
  - assert (E' : (if decide (is_Some (T !! id)) then Some (delete id T) else None) = Some T')
      by (by destruct g). exists (delete id Te). case_decide; [|done]. injection E' as <-. split.
    + unfold write_down. destruct e; by rewrite decide_True by (by apply Hi).
    + intros i. destruct (decide (i = id)) as [->|]; [rewrite !lookup_delete_eq; by constructor|].
      by rewrite !lookup_delete_ne.
  - specialize (Hs Hm). destruct Hs as [e g Hs|]; [|by destruct m].
    exists (<[id := e]> Te). destruct m; simpl in *; case_decide; simplify_eq;
      (split; [|by apply Hin]); [rewrite decide_False|rewrite decide_True]; tauto.
Qed.

Lemma follow_stream l i ms : ∀ T Te T', Forall (made (json_t := json_t)) ms →
  Forall report_fine (reports_in ms) → Forall (λ n, n_sub n = l → n_id n = i) (omap snd ms) →
  tabulate l (reports_in ms) T = Some T' → agree Te T →
  ∃ js Te', Forall2 (written (json_t := json_t)) (told_messages l ms) js ∧
    follow i js Te = Some Te' ∧ agree Te' T'.
Proof.
  induction ms as [|[r [n|]] ms IH]; intros T Te T' Hm Hf Hi E Ha.
  - injection E as <-. exists [], Te. split; [constructor|done].
  - apply Forall_cons in Hm as [Hm1 Hm]. unfold reports_in, told_messages in *.
    csimpl in *. apply Forall_cons in Hf as [Hf1 Hf].
    apply Forall_cons in Hi as [Hi1 Hi]. destruct (notice_read r n Hm1 Hf1) as (j & e & Hw & Hn & Hs).
    unfold n_sub in *. destruct (n_report n) as [[[[l' d] m] id] g]. simpl in *.
    destruct (decide (l' = l)) as [->|Hne].
    + apply bind_Some in E as (T1 & E1 & E).
      destruct (write_down_agree Te T m id e g T1 Ha E1 Hs) as (Te1 & Ew & Ha1).
      destruct (IH T1 Te1 T' Hm Hf Hi E Ha1) as (js & Te' & Hjs & Ef & Ha').
      exists (j :: js), Te'. split; [by constructor|]. split; [|done]. cbn [follow].
      rewrite Hn. cbn [mbind option_bind]. rewrite decide_True by auto. by rewrite Ew.
    + by apply (IH T Te T').
  - apply Forall_cons in Hm as [_ Hm]. by apply (IH T Te T').
Qed.
End read.

Section served.
Context {json_t : Type} `{!Jansson json_t, !JanssonLaws json_t}.
Context (xcm_remote_addr : Z → option cstr).

(** What the client of a subscription makes of the messages of a stream: those
    for the subscription carry the transaction identifier of the request that
    made it, and a reader that follows them has the services that the core has
    and the subscription selects, with the contents of their generations. *)
Definition reads_right (w : world) (l : loc) (s : sub) (id : Z) (ms : list (msg * option notice)) : Prop :=
  Forall (λ n, n_sub n = l → n_id n = id) (omap snd ms) ∧
  ∃ js T, Forall2 (written (json_t := json_t)) (told_messages l ms) js ∧ follow id js ∅ = Some T ∧
    ∀ i, option_Forall2 says (T !! i) (selected s (gen_at (core w) i)).

Lemma stream_read acc w l s : recorded (json_t := json_t) acc w → winv (json_t := json_t) None w →
  subs (core w) !! l = Some s →
  ∃ conn c ta ms, subscribed_on w s conn c ta ∧ reads (json_t := json_t) acc w conn ms ∧
    reads_right w l s (ta_id ta) ms.
Proof using JanssonLaws0.
  intros Rc W Hs. destruct (subscriber_reports acc w l s Rc W Hs)
    as (conn & c & ta & ms & T & Hon & Hr & Hid & HT & HK).
  exists conn, c, ta, ms. split; [done|]. split; [done|]. split; [done|].
  destruct (follow_stream l (ta_id ta) ms ∅ ∅ T) as (js & Te & Hjs & Ef & Ha); try done.
  - apply Hr.
  - rewrite (Rd_calls _ _ _ _ Hr). apply Forall_forall. intros x [_ Hx]%list_elem_of_filter.
    pose proof (reports_fine _ (W_fine _ _ W)) as Hf.
    rewrite Forall_forall in Hf. by apply Hf.
  - intros i. rewrite !lookup_empty. constructor.
  - exists js, Te. split_and!; [done..|]. intros i. rewrite <-HK. apply Ha.
Qed.

(** C6: from the core to what a client reads, in the state that a sequence of
    admissible events leads to, if each accepted connection has a socket of its
    own.  What is on the socket of a subscription's connection, followed by what
    waits in its queue, consists of one notification for each match call that the
    core made for the connection, in the order of the calls and with what they
    say, and of messages that notify of no match.  A client that reads the
    notifications for its subscription, by the table of fields of the protocol,
    and keeps a table of the services as they say, never meets one that does not
    fit, and ends with exactly the services that its filter selects, each with the
    generation number, properties, time to live, owner and orphan time that it has
    in the core. *)
Theorem subscriber_reads clk s0 w0 evs w l s : clock_fine clk → server_create clk (Some s0) = Some w0 →
  server_admissible (json_t := json_t) xcm_remote_addr w0 evs = true → NoDup (accepted evs) →
  run_server (json_t := json_t) xcm_remote_addr evs w0 = Ok (tt, w) → subs (core w) !! l = Some s →
  ∃ conn c ta ms, subscribed_on w s conn c ta ∧
    on_sock (sock c) (wire w) ++ out_queue c = ms.*1 ∧ Forall (made (json_t := json_t)) ms ∧
    reports_in ms = reports_for conn (reports (core w)) ∧ reads_right w l s (ta_id ta) ms.
Proof using JanssonLaws0.
  intros Hclk E0 Ha Hnd E Hs. pose proof (run_recorded xcm_remote_addr clk s0 w0 evs w Hclk E0 Ha E) as Rc.
  assert (W : winv (json_t := json_t) None w)
    by (eapply served_winv; by exists clk, s0, w0, evs).
  destruct (stream_read (accepted evs) w l s Rc W Hs) as (conn & c & ta & ms & Hon & Hr & Hright).
  destruct (Rd_stream _ _ _ _ Hr) as (c' & sent & Hc' & Hms & _ & Hx). rewrite (Hx Hnd) in Hms.
  assert (c' = c) as -> by (destruct Hon as (_ & Hc & _); congruence).
  exists conn, c, ta, ms. split_and!; [done|done|apply Hr|apply Hr|done].
Qed.

(** ** Catching up *)

Lemma drained n : ∀ w conn c, served (json_t := json_t) xcm_remote_addr w → pconns w !! conn = Some c →
  (length (out_queue c) ≤ 64 * n)%nat →
  ∃ w' c', run_server (json_t := json_t) xcm_remote_addr (replicate n (can_send conn)) w = Ok (tt, w') ∧
    served (json_t := json_t) xcm_remote_addr w' ∧ pconns w' !! conn = Some c' ∧ out_queue c' = [] ∧
    core w' = core w.
Proof using JanssonLaws0.
  induction n as [|n IH]; intros w conn c Sv Hc Hlen.
  - exists w, c. destruct (out_queue c); [|simpl in Hlen; lia]. done.
  - assert (Ht : ∀ m, taken (replicate m SendOk) = m) by (induction m; simpl; congruence).
    destruct (conn_process_eq (json_t := json_t) xcm_remote_addr conn c (replicate 64 SendOk) w Hc) as [a E];
      [by intros k [[=] _]%lookup_replicate|].
    rewrite Ht in E. set (k := (_ `min` _) `min` _) in E. set (w1 := after_sending k conn c a w) in E.
    assert (E1 : run_server (json_t := json_t) xcm_remote_addr [can_send conn] w = Ok (tt, w1)).
    { cbn [Server.run_server]. rewrite W_bind_eq. unfold can_send. cbn [run_server_event]. by rewrite E. }
    assert (Sv1 : served (json_t := json_t) xcm_remote_addr w1).
    { eapply served_more; [exact Sv| |exact E1]. simpl. rewrite bool_decide_eq_true_2 by (by exists c). simpl.
      by destruct (conn_process _ _ _ _ _ _ _) as [[]|]. }
    destruct (IH w1 conn (with_awaited a (with_out_queue (drop k (out_queue c)) c)) Sv1)
      as (w' & c' & E' & Sv' & Hc' & Hq & Ec).
    { apply lookup_insert_eq. }
    { simpl. rewrite length_drop. unfold k, MAX_SEND_BATCH. lia. }
    exists w', c'. split_and!; [|done..].
    change (replicate (S n) (can_send conn)) with ([can_send conn] ++ replicate n (can_send conn)).
    by rewrite (run_server_app xcm_remote_addr), E1.
Qed.

(** C26: a subscriber catches up.  Whatever the state of the server, after a
    number of events in which the socket of the subscription's connection takes
    what it is given, all that the client is to know is on its socket: what it
    has been sent on it, in order, makes it know exactly the services that its
    filter selects, as the core has them. *)
Theorem subscriber_catches_up w l s : served (json_t := json_t) xcm_remote_addr w →
  subs (core w) !! l = Some s →
  ∃ conn n w' c ta ms, match_cb_data s = Z.pos conn ∧
    run_server (json_t := json_t) xcm_remote_addr (replicate n (can_send conn)) w = Ok (tt, w') ∧
    core w' = core w ∧ subscribed_on w' s conn c ta ∧ out_queue c = [] ∧
    ms.*1 `sublist_of` on_sock (sock c) (wire w') ∧
    reports_in ms = reports_for conn (reports (core w')) ∧ reads_right w' l s (ta_id ta) ms.
Proof using JanssonLaws0.
  intros Sv Hs. pose proof (served_winv xcm_remote_addr w Sv) as W.
  destruct (served_recorded xcm_remote_addr w Sv) as [acc Rc].
  destruct (stream_read acc w l s Rc W Hs) as (conn & c & _ & _ & (Hd & Hc & _) & _ & _).
  destruct (drained (length (out_queue c)) w conn c Sv Hc) as (w' & c' & E & Sv' & Hc' & Hq & Ec); [lia|].
  assert (Hs' : subs (core w') !! l = Some s) by (by rewrite Ec).
  pose proof (served_winv xcm_remote_addr w' Sv') as W'.
  destruct (served_recorded xcm_remote_addr w' Sv') as [acc' Rc'].
  destruct (stream_read acc' w' l s Rc' W' Hs') as (conn1 & c1 & ta & ms & Hon & Hr & Hright).
  assert (conn1 = conn) as -> by (destruct Hon as [Hd' _]; congruence).
  assert (c1 = c') as -> by (destruct Hon as (_ & Hc1 & _); congruence).
  destruct (Rd_stream _ _ _ _ Hr) as (c2 & sent & Hc2 & Hms & Hsub & _).
  assert (c2 = c') as -> by congruence. rewrite Hq, app_nil_r in Hms.
  exists conn, (length (out_queue c)), w', c', ta, ms. split_and!; try done; [by rewrite <-Hms|apply Hr|apply Hright..].
Qed.
End served.

(** ** Witnesses *)

Lemma all_subscribed : ∃ l s, subs (core after_story) !! l = Some s ∧
  ∃ g, selected s (gen_at (core after_story) 5) = Some g ∧ gen_generation g = 1%Z ∧ gen_ttl g = 60%Z ∧
    gen_client_id g = 17%Z ∧ gen_orphan (Some g) = false.
Proof.
  destruct (map_to_list (subs (core after_story))) as [|[l s] r] eqn:E; [by vm_compute in E|].
  exists l, s. split.
  - apply elem_of_map_to_list. rewrite E. left.
  - assert (Hf : sub_filter s = None) by (by vm_compute in E; injection E as _ <- _).
    destruct (gen_at (core after_story) 5) as [g|] eqn:Eg; [|by vm_compute in Eg].
    exists g. unfold selected. vm_compute in Eg. injection Eg as <-. simpl. unfold selects. rewrite Hf.
    split_and!; by vm_compute.
Qed.

(** What the first client of the story reads of the service that it published. *)
Lemma subscriber_reads_witness : ∃ l s conn c ta ms js T e,
  subscribed_on after_story s conn c ta ∧ on_sock (sock c) (wire after_story) ++ out_queue c = ms.*1 ∧
  Forall2 (written (json_t := json)) (told_messages l ms) js ∧ follow (ta_id ta) js ∅ = Some T ∧
  T !! 5%Z = Some e ∧ e_generation e = 1%Z ∧ e_ttl e = 60%Z ∧ e_client_id e = 17%Z ∧ e_orphan_since e = None.
Proof.
  destruct all_subscribed as (l & s & Hs & g & Hg & H1 & H2 & H3 & H4).
  assert (Ha : server_admissible (json_t := json) peer_addr world_0 story = true)
    by (vm_compute; reflexivity).
  assert (Hnd : NoDup (accepted story)) by (apply (bool_decide_eq_true_1 _); vm_compute; reflexivity).
  destruct (subscriber_reads (json_t := json) peer_addr clk0 7 world_0 story after_story l s
    clk0_fine eq_refl Ha Hnd story_run Hs)
    as (conn & c & ta & ms & Hon & Hms & _ & _ & _ & js & T & Hjs & Ef & HT).
  exists l, s, conn, c, ta, ms, js, T. specialize (HT 5%Z). rewrite Hg in HT.
  inversion HT as [e g' He Ee Eg|]. exists e. destruct He as [E1 _ E3 E4 E5].
  rewrite H4 in E5. split; [exact Hon|]. split; [exact Hms|]. split; [exact Hjs|]. split; [exact Ef|].
  split; [reflexivity|]. split; [congruence|]. split; [congruence|]. split; [congruence|exact E5].
Defined.

(** The first client of the story, when its socket has taken its messages. *)
Lemma subscriber_catches_up_witness : ∃ l s conn n w' c ta ms js T e,
  match_cb_data s = Z.pos conn ∧
  run_server (json_t := json) peer_addr (replicate n (can_send conn)) after_story = Ok (tt, w') ∧
  ms.*1 `sublist_of` on_sock (sock c) (wire w') ∧
  Forall2 (written (json_t := json)) (told_messages l ms) js ∧ follow (ta_id ta) js ∅ = Some T ∧
  T !! 5%Z = Some e ∧ e_generation e = 1%Z ∧ e_client_id e = 17%Z.
Proof.
  destruct all_subscribed as (l & s & Hs & g & Hg & H1 & H2 & H3 & H4).
  destruct (subscriber_catches_up (json_t := json) peer_addr after_story l s served_story Hs)
    as (conn & n & w' & c & ta & ms & Hd & E & Ec & _ & _ & Hsub & _ & _ & js & T & Hjs & Ef & HT).
  exists l, s, conn, n, w', c, ta, ms, js, T. specialize (HT 5%Z). rewrite Ec, Hg in HT.
  inversion HT as [e g' He Ee Eg|]. exists e. destruct He as [E1 _ _ E4 _].
  split; [exact Hd|]. split; [exact E|]. split; [exact Hsub|]. split; [exact Hjs|].
  split; [exact Ef|]. split; [reflexivity|]. split; congruence.
Defined.
