(* ===== verification/ServerDir.v ===== *)
(** * The server is a service directory

    The directory of SdAbs.v seen through the protocol layer of
    src/proto/proto_conn.c and src/proto/server.c: which event of the core a
    message asks for, that handling the message causes this event and no other,
    and that the response is the one for its result. *)

From S2P Require Import Prelude CLib Pvalue Props Filter FilterParse Double Service Sub Amap Heap Client Sd SdWp SdInv SdOps SdRemove SdSubs SdDisconnect SdRun SdSpec SdAbs SdRefine SdOut SdCalls Json JsonTree ProtoTa ProtoTaSpec ProtoTaResp ProtoTaSafe ProtoConn Server ServerOut ServerInv ServerSteps ServerReq ServerRun ServerLive ServerSpec.

(** ** What a request asks of the core *)

Definition uint63_of (rq : request) (i : nat) : Z :=
  match rq_values rq !! i with Some (Some (FUint63 z)) => z | _ => 0%Z end.

Definition props_of (rq : request) (i : nat) : props :=
  match rq_values rq !! i with Some (Some (FProps p)) => p | _ => [] end.

Definition opt_str_of (rq : request) (i : nat) : option cstr :=
  match rq_opt_values rq !! i with Some (Some (FStr s)) => Some s | _ => None end.

(** Does the client speak the protocol version of the server? *)
Definition version_fits (rq : request) : bool :=
  bool_decide (uint63_of rq 1 ≤ PROTO_VERSION ≤ uint63_of rq 2)%Z.

(** The event of the core that a request on a connection causes, if any: the
    first hello connects the client of the connection, the others act for it. *)
Definition request_event (addr : option cstr) (conn : loc) (c : proto_conn) (rq : request)
    : option event :=
  let asks name := bool_decide (cmd (rq_type rq) = name) in
  let who := pc_client_id c in
  if negb (has_finished_handshake c) then
    if asks PROTO_CMD_HELLO && version_fits rq then Some (EConnect (uint63_of rq 0) addr) else None
  else if asks PROTO_CMD_SUBSCRIBE then
    Some (ESubscribe who (uint63_of rq 0) (opt_str_of rq 0) (Z.pos conn))
  else if asks PROTO_CMD_UNSUBSCRIBE then Some (EUnsubscribe who (uint63_of rq 0))
  else if asks PROTO_CMD_PUBLISH then
    Some (EPublish who (uint63_of rq 0) (uint63_of rq 1) (props_of rq 2) (uint63_of rq 3))
  else if asks PROTO_CMD_UNPUBLISH then Some (EUnpublish who (uint63_of rq 0))
  else None.

(** ** What is said of its result *)

(** The reason that a failure carries. *)
Definition reason_of (code : Z) : cstr :=
  if bool_decide (code = SD_ERR_CLIENT_ALREADY_EXISTS) then PROTO_FAIL_REASON_CLIENT_ID_EXISTS
  else if bool_decide (code = SD_ERR_PERM_DENIED) then PROTO_FAIL_REASON_PERMISSION_DENIED
  else if bool_decide (code = SD_ERR_NO_SUCH_SERVICE) then PROTO_FAIL_REASON_NON_EXISTENT_SERVICE_ID
  else if bool_decide (code = SD_ERR_SERVICE_SAME_GENERATION_BUT_DIFFERENT_DATA)
  then PROTO_FAIL_REASON_SAME_GENERATION_BUT_DIFFERENT
  else if bool_decide (code = SD_ERR_NEWER_SERVICE_GENERATION_EXISTS)
  then PROTO_FAIL_REASON_OLD_GENERATION
  else if bool_decide (code = SD_ERR_SUB_ALREADY_EXISTS) then PROTO_FAIL_REASON_SUBSCRIPTION_ID_EXISTS
  else if bool_decide (code = SD_ERR_INVALID_FILTER) then PROTO_FAIL_REASON_INVALID_FILTER_SYNTAX
  else PROTO_FAIL_REASON_NON_EXISTENT_SUBSCRIPTION_ID.

Create HintDb calm.

Section dir.
Context {json_t : Type} `{!Jansson json_t, !JanssonLaws json_t}.
Context (xcm_remote_addr : Z → option cstr).
Abbreviation winv := (winv (json_t := json_t)).
Abbreviation ta_ok := (ta_ok (json_t := json_t)).

(** The response to a request with this result: a failure with the reason, the
    acceptance of a subscription, or the completion, of hello with the version. *)
Definition response_to (rq : request) (code : Z) (t : proto_ta) : outcome (msg * proto_ta) :=
  if bool_decide (code = 0)%Z then
    if bool_decide (cmd (rq_type rq) = PROTO_CMD_SUBSCRIBE)
    then proto_ta_accept (json_t := json_t) t []
    else if bool_decide (cmd (rq_type rq) = PROTO_CMD_HELLO)
    then proto_ta_complete (json_t := json_t) t [Some (FUint63 PROTO_VERSION)]
    else proto_ta_complete (json_t := json_t) t []
  else proto_ta_fail (json_t := json_t) t [Some (FStr (reason_of code))].

Definition responds (rq : request) (code : Z) (m : msg) : Prop :=
  ∃ t t', ta_ok (rq_type rq) proto_ta_state_requested rq t ∧ response_to rq code t = Ok (m, t').

(** ** Computations that respect a relation *)

Definition respects (R : relation world) {A} (m : M world A) : Prop :=
  ∀ w a w', m w = Ok (a, w') → R w w'.

Section respects.
Context (R : relation world) `{!PreOrder R}.

Lemma respects_same {A} (m : M world A) : (∀ w a w', m w = Ok (a, w') → w' = w) → respects R m.
Proof using PreOrder0. by intros H w a w' ->%H. Qed.

Lemma respects_bind {A B} (m : M world A) (f : A → M world B) :
  respects R m → (∀ a, respects R (f a)) → respects R (m ≫= f).
Proof using PreOrder0.
  intros Hm Hf w b w2 (a & w1 & E1 & E2)%M_bind_Ok. etrans; [by eapply Hm|by eapply Hf].
Qed.

Lemma respects_ret {A} (a : A) : respects R (mret a).
Proof using PreOrder0. apply respects_same. by intros w b w' [= _ <-]. Qed.

Lemma respects_lift {A} (o : outcome A) : respects R (lift o).
Proof using PreOrder0. apply respects_same. intros w a w' E. unfold lift in E. destruct o; by simplify_eq. Qed.

Lemma respects_gets {A} (f : world → A) : respects R (gets f).
Proof using PreOrder0. apply respects_same. by intros w a w' [= _ <-]. Qed.

Lemma respects_fault {A} e : respects R (fault_with (A := A) e).
Proof. by intros w a w'. Qed.

Lemma respects_if {A} (b : bool) (m n : M world A) :
  respects R m → respects R n → respects R (if b then m else n).
Proof. by destruct b. Qed.

Lemma respects_mforeach {A} (f : A → M world unit) l :
  (∀ x, respects R (f x)) → respects R (mforeach f l).
Proof using PreOrder0.
  intros Hf. induction l as [|x l IH]; [apply respects_ret|]. by apply respects_bind.
Qed.

Lemma respects_load_pconn l : respects R (load_pconn l).
Proof using PreOrder0. apply respects_same. by intros w a w' [-> _]%load_pconn_Ok. Qed.

Lemma respects_with_ta {A} l (f : proto_ta → outcome A) : respects R (with_ta l f).
Proof using PreOrder0.
  apply respects_bind; [|intros; apply respects_lift].
  apply respects_same. by intros w a w' [-> _]%load_ta_Ok.
Qed.

(** Operations of the core that only read. *)
Lemma respects_in_core {A} (op : M state A) :
  (∀ s a s', op s = Ok (a, s') → s' = s) → respects R (in_core op).
Proof using PreOrder0.
  intros Hop. apply respects_same. intros w a w' E. unfold in_core in E.
  destruct (op (core w)) as [[b st']|] eqn:Eo; [|done]. apply Hop in Eo as ->.
  injection E as _ <-. by destruct w.
Qed.
End respects.

(** ** Computations that leave the core alone *)

(** Nothing happens to the core, and queues only grow. *)
Record calm (w w' : world) : Prop := {
  Ca_core : core w' = core w;
  Ca_queue : ∀ conn q0, queue_from w conn q0 → queue_from w' conn q0
}.

#[local] Instance calm_preorder : PreOrder calm.
Proof.
  split; [done|]. intros w1 w2 w3 [E1 Q1] [E2 Q2]. split; [by rewrite E2|]. eauto.
Qed.

Lemma queued_calm w w' conn q0 m : calm w w' → queued w conn q0 m → queued w' conn q0 m.
Proof.
  intros C (c & new & Hc & Hq & Hm).
  destruct (Ca_queue _ _ C conn (q0 ++ new)) as (c' & Hc' & more & E).
  { exists c. split; [done|]. by rewrite Hq. }
  exists c', (new ++ more). rewrite E, app_assoc. split_and!; [done|done|]. apply elem_of_app. by left.
Qed.

Lemma calm_modify f : (∀ w, core (f w) = core w) → (∀ w, pconns (f w) = pconns w) →
  respects calm (modify f).
Proof.
  intros E1 E2 w [] w' [= <-]. split; [done|]. intros conn q0 (c & Hc & Hq). exists c. by rewrite E2.
Qed.

Lemma calm_update l f : (∀ c, out_queue c `prefix_of` out_queue (f c)) → respects calm (update_pconn l f).
Proof.
  intros Hf w a w' (c & w1 & [-> Hc]%load_pconn_Ok & [= _ <-])%M_bind_Ok. split; [done|].
  intros conn q0 (c' & Hc' & Hq). unfold queue_from. simpl. destruct (decide (l = conn)) as [->|].
  - exists (f c). rewrite lookup_insert_eq. split; [done|]. simplify_eq. by etrans.
  - exists c'. by rewrite lookup_insert_ne.
Qed.

Lemma calm_put_tas f : respects calm (modify (set_tas f)).
Proof. by apply calm_modify. Qed.

Lemma calm_client_conns f : respects calm (modify (set_client_conns f)).
Proof. by apply calm_modify. Qed.

Lemma calm_sub_tas l m : respects calm (update_pconn l (with_sub_tas m)).
Proof. by apply calm_update. Qed.

Lemma calm_await l : respects calm (await_update l).
Proof. by apply calm_update. Qed.

Lemma calm_push l m :
  respects calm (update_pconn l (λ c, with_out_queue (msg_queue_push (out_queue c) m) c)).
Proof. apply calm_update. intros c. by eexists. Qed.
#[local] Hint Resolve calm_put_tas calm_client_conns calm_sub_tas calm_await calm_push : calm.

Lemma calm_on_ta {A} l (f : proto_ta → outcome (A * proto_ta)) : respects calm (on_ta l f).
Proof. by intros w a w' (ta & ta' & _ & _ & ->)%on_ta_Ok. Qed.

#[local] Hint Resolve calm_on_ta : calm.

Lemma calm_alloc_ta t : respects calm (alloc_ta t).
Proof. by intros w a w' [= _ <-]. Qed.

(** Takes a computation apart as far as its text goes. *)
Ltac calms := repeat lazymatch goal with
  | |- PreOrder _ => typeclasses eauto
  | |- respects _ (mbind _ _) => apply respects_bind
  | |- respects _ (mret _) => apply respects_ret
  | |- respects _ (lift _) => apply respects_lift
  | |- respects _ (gets _) => apply respects_gets
  | |- respects _ (fault_with _) => apply respects_fault
  | |- respects _ (load_pconn _) => apply respects_load_pconn
  | |- respects _ (with_ta _ _) => apply respects_with_ta
  | |- respects _ (mforeach _ _) => apply respects_mforeach
  | |- respects _ (match _ with _ => _ end) => case_match
  | |- respects _ _ => solve [eauto with calm]
  | |- ∀ _, _ => intro
  end.

Lemma calm_destroy_ta l : respects calm (destroy_ta l).
Proof. unfold destroy_ta. calms. Qed.

Lemma calm_queue l m : respects calm (queue_response l m).
Proof. unfold queue_response. calms. Qed.
#[local] Hint Resolve calm_alloc_ta calm_destroy_ta calm_queue : calm.

(** What is queued is in the queue. *)
Lemma queue_Ok_queued conn m w a w' q0 : queue_response conn m w = Ok (a, w') →
  queue_from w conn q0 → queued w' conn q0 m.
Proof.
  intros (c & Hc & E)%queue_Ok (c0 & Hc0 & new & Hq). simplify_eq.
  eapply queued_calm; [eapply calm_update; [|exact E]; by intros x|].
  eexists _, (new ++ [m]). simpl. rewrite lookup_insert_eq. split; [done|].
  split; [unfold msg_queue_push; simpl; by rewrite Hq, app_assoc|]. apply elem_of_app. right. left.
Qed.

Lemma calm_clientless_del conn : respects calm (clientless_del conn).
Proof.
  intros w a w' E. unfold clientless_del in E. destruct (list_del_first _ _); [|done].
  by injection E as _ <-.
Qed.
#[local] Hint Resolve calm_clientless_del : calm.

Lemma calm_handshake conn : respects calm (conn_handshake_cb conn).
Proof. unfold conn_handshake_cb. calms. Qed.

Lemma same_tas_handshake conn w a w' : conn_handshake_cb conn w = Ok (a, w') → tas w' = tas w.
Proof.
  intros ([] & w1 & E & [= _ <-])%M_bind_Ok. unfold clientless_del in E.
  destruct (list_del_first _ _); [|done]. by injection E as <-.
Qed.

Lemma calm_set_id l id w a w' : update_pconn l (with_client_id id) w = Ok (a, w') →
  calm w w' ∧ tas w' = tas w.
Proof.
  intros E. split; [eapply calm_update; [|exact E]; by intros c|].
  by apply M_bind_Ok in E as (c & w1 & [-> _]%load_pconn_Ok & [= _ <-]).
Qed.

Lemma calm_map_add conn id t : respects calm (proto_ta_map_add conn id t).
Proof. unfold proto_ta_map_add. calms. Qed.

Lemma calm_map_del conn id : respects calm (proto_ta_map_del conn id).
Proof. unfold proto_ta_map_del. calms. Qed.
#[local] Hint Resolve calm_handshake calm_map_add calm_map_del : calm.

(** Reading the core. *)
Lemma read_same {A B} `{Obj A} l (f : A → outcome B) (s : state) a s' :
  read l f s = Ok (a, s') → s' = s.
Proof.
  intros (x & s1 & E1 & E2)%M_bind_Ok. unfold Heap.load in E1. destruct (heap (T := A) s !! l); [|done].
  injection E1 as <- <-. unfold lift in E2. destruct (f _); by simplify_eq.
Qed.

Lemma load_same {A} `{Obj A} l (s : state) (a : A) s' : Heap.load l s = Ok (a, s') → s' = s.
Proof. unfold Heap.load. destruct (heap (T := A) s !! l); by intros [= _ <-]. Qed.

Lemma calm_read {A B} `{Obj A} l (f : A → outcome B) : respects calm (in_core (read l f)).
Proof. apply respects_in_core; [apply calm_preorder|]. intros s a s'. apply read_same. Qed.

Lemma calm_load {A} `{Obj A} l : respects calm (in_core (A := A) (Heap.load l)).
Proof. apply respects_in_core; [apply calm_preorder|]. intros s a s'. apply load_same. Qed.

Lemma calm_gets {A} (f : state → A) : respects calm (in_core (gets f)).
Proof. apply respects_in_core; [apply calm_preorder|]. by intros s a s' [= _ <-]. Qed.
#[local] Hint Resolve calm_read calm_load calm_gets : calm.

(** ** Calling the core *)

Lemma calm_notify s srv mt conn : respects calm (notify_sub_match (json_t := json_t) s srv mt conn).
Proof.
  unfold notify_sub_match, ta_notify. calms.
Qed.

#[local] Hint Resolve calm_notify : calm.

Lemma calm_deliver o : respects calm (deliver (json_t := json_t) o).
Proof. unfold deliver. calms. Qed.

(** Transactions do not change when matches are notified. *)
Definition same_tas (w w' : world) : Prop := tas w' = tas w.

#[local] Instance same_tas_preorder : PreOrder same_tas.
Proof. split; [done|]. intros w1 w2 w3 E1 E2. unfold same_tas in *. congruence. Qed.

Lemma same_tas_queue l m : respects same_tas (queue_response l m).
Proof.
  by intros w a w' (c & _ & (c1 & w1 & [-> _]%load_pconn_Ok & [= _ <-])%M_bind_Ok)%queue_Ok.
Qed.

Lemma same_tas_notify_ta l ap : respects same_tas (ta_notify (json_t := json_t) l ap).
Proof.
  intros w a w' (t & t' & Ht & E & ->)%on_ta_Ok. apply notify_id in E as ->.
  by apply insert_id.
Qed.

Lemma same_tas_read {A B} `{Obj A} l (f : A → outcome B) : respects same_tas (in_core (read l f)).
Proof. apply respects_in_core; [apply same_tas_preorder|]. intros s a s'. apply read_same. Qed.
Lemma same_tas_map_add conn id t : respects same_tas (proto_ta_map_add conn id t).
Proof.
  intros w a w' (c & w1 & [-> _]%load_pconn_Ok & E)%M_bind_Ok.
  apply M_bind_Ok in E as (m & w2 & E1 & (c2 & w3 & [-> _]%load_pconn_Ok & [= _ <-])%M_bind_Ok).
  unfold lift in E1. destruct (amap_add _ _ _); by simplify_eq.
Qed.
#[local] Hint Resolve same_tas_queue same_tas_notify_ta same_tas_read calm_deliver : calm.

Lemma same_tas_deliver o : respects same_tas (deliver (json_t := json_t) o).
Proof. unfold deliver, notify_sub_match. calms. Qed.

(** The call of the core, and then only notifications. *)
Lemma sd_call_Ok {A} (op : M state A) w a w' : sd_call (json_t := json_t) op w = Ok (a, w') →
  ∃ st', op (core w) = Ok (a, st') ∧ calm (set_core st' w) w' ∧ tas w' = tas w.
Proof.
  unfold sd_call. destruct (op (core w)) as [[b st']|]; [|done]. intros E.
  apply M_bind_Ok in E as ([] & w1 & E & E1). injection E1 as -> ->. exists st'. split; [done|]. split.
  - eapply (respects_mforeach calm); [|exact E]. apply calm_deliver.
  - pose proof (respects_mforeach same_tas _ _ same_tas_deliver _ _ _ E) as Ht. exact Ht.
Qed.

(** ** Requests as they are handled *)

Section request.
Context (conn ta : loc) (q0 : list msg) (rq : request) (c : proto_conn) (t : proto_ta).

Record arrived (w : world) : Prop := {
  Ar_ta : tas w !! ta = Some t;
  Ar_ok : ta_ok (rq_type rq) proto_ta_state_requested rq t;
  Ar_conn : pconns w !! conn = Some c;
  Ar_queue : queue_from w conn q0
}.

(** The event has happened to the core, and its response waits to be sent. *)
Definition caused (e : event) (w w' : world) : Prop :=
  ∃ code m, run_event e (core w) = Ok (code, core w') ∧ queued w' conn q0 m ∧ responds rq code m.

Lemma with_ta_Ok {A} (f : proto_ta → outcome A) w a w' : tas w !! ta = Some t →
  with_ta ta f w = Ok (a, w') → w' = w ∧ f t = Ok a.
Proof.
  intros Ht (t' & w1 & [-> Ht']%load_ta_Ok & E)%M_bind_Ok. simplify_eq. unfold lift in E.
  destruct (f _); by simplify_eq.
Qed.

Lemma read_uint63 w i name z w' : arrived w →
  req_fields (rq_type rq) !! i = Some (Field name proto_field_type_uint63) →
  with_ta ta (λ t, proto_ta_get_req_field_uint63_value t i) w = Ok (z, w') → w' = w ∧ z = uint63_of rq i.
Proof.
  intros Ar Hf [-> E]%with_ta_Ok; [|apply Ar]. split; [done|].
  destruct (get_uint63_ok _ _ _ _ _ _ (Ar_ok _ Ar) Hf) as (z' & Hz & _ & E').
  unfold uint63_of. rewrite Hz. congruence.
Qed.

Lemma read_props w i name p w' : arrived w →
  req_fields (rq_type rq) !! i = Some (Field name proto_field_type_props) →
  with_ta ta (λ t, proto_ta_get_req_field_props_value t i) w = Ok (p, w') → w' = w ∧ p = props_of rq i.
Proof.
  intros Ar Hf [-> E]%with_ta_Ok; [|apply Ar]. split; [done|].
  destruct (get_props_ok _ _ _ _ _ _ (Ar_ok _ Ar) Hf) as (p' & Hp & _ & E').
  unfold props_of. rewrite Hp. congruence.
Qed.

Lemma read_opt_str w i name v w' : arrived w →
  opt_req_fields (rq_type rq) !! i = Some (Field name proto_field_type_str) →
  with_ta ta (λ t, proto_ta_get_opt_req_field_str_value t i) w = Ok (v, w') → w' = w ∧ v = opt_str_of rq i.
Proof.
  intros Ar Hf [-> E]%with_ta_Ok; [|apply Ar]. split; [done|].
  destruct (get_opt_str_ok _ _ _ _ _ _ (Ar_ok _ Ar) Hf) as (v' & Hv & E').
  unfold opt_str_of. rewrite Hv. destruct v'; simpl; congruence.
Qed.

Lemma read_conn w x w' : arrived w → load_pconn conn w = Ok (x, w') → w' = w ∧ x = c.
Proof. intros Ar [-> E]%load_pconn_Ok. pose proof (Ar_conn _ Ar). split; congruence. Qed.

(** Making the response for a result. *)
Lemma respond code (f : proto_ta → outcome (msg * proto_ta)) w m w' :
  ta_ok (rq_type rq) proto_ta_state_requested rq t → tas w !! ta = Some t →
  (∀ t, f t = response_to rq code t) → on_ta ta f w = Ok (m, w') → calm w w' ∧ responds rq code m.
Proof.
  intros Hok Ht Hf E. split; [by eapply calm_on_ta|].
  apply on_ta_Ok in E as (t' & t1 & Ht' & Er & _). rewrite Hf in Er. simplify_eq. by exists t, t1.
Qed.

(** A call of the core, a response, and its queueing. *)
Lemma call_respond (op : M state Z) (k : Z → M world msg) w w' :
  arrived w → (rc ← sd_call (json_t := json_t) op; m ← k rc; queue_response conn m) w = Ok (tt, w') →
  (∀ rc w1 m w2, tas w1 !! ta = Some t → k rc w1 = Ok (m, w2) → calm w1 w2 ∧ responds rq rc m) →
  ∃ code m, op (core w) = Ok (code, core w') ∧ queued w' conn q0 m ∧ responds rq code m.
Proof.
  intros Ar E Hk. apply M_bind_Ok in E as (rc & w1 & E1 & E).
  apply sd_call_Ok in E1 as (st' & Eop & C1 & Et). apply M_bind_Ok in E as (m & w2 & E2 & E3).
  destruct (Hk rc w1 m w2) as [C2 Hm]; [rewrite Et; apply Ar|done|].
  exists rc, m. pose proof (calm_queue _ _ _ _ _ E3) as C3.
  split; [|split; [|done]].
  - by rewrite (Ca_core _ _ C3), (Ca_core _ _ C2), (Ca_core _ _ C1).
  - eapply queue_Ok_queued; [exact E3|]. apply C2, C1, Ar.
Qed.

(** *** The handlers that call the core *)

(** Reads a field, or the connection, at the head of a handler. *)
Ltac reads E Ar Ety lem :=
  let x := fresh "x" in let w1 := fresh "w" in let E1 := fresh "E" in
  apply M_bind_Ok in E as (x & w1 & E1 & E);
  eapply lem in E1 as [-> ->]; [|exact Ar|try (rewrite Ety; reflexivity)..].

(** Each result has its response. *)
Ltac answers Em Ht Ar Ety :=
  cbn beta in Em; repeat (case_bool_decide; [subst|]); try done;
  (eapply respond; [apply Ar|exact Ht| |exact Em]);
  intros; unfold response_to; rewrite Ety; reflexivity.

Lemma publish_caused w w' : rq_type rq = publish_ta → arrived w →
  handle_publish (json_t := json_t) conn ta w = Ok (tt, w') →
  caused (EPublish (pc_client_id c) (uint63_of rq 0) (uint63_of rq 1) (props_of rq 2) (uint63_of rq 3)) w w'.
Proof.
  intros Ety Ar E. unfold handle_publish in E.
  reads E Ar Ety read_uint63. reads E Ar Ety read_uint63. reads E Ar Ety read_props.
  reads E Ar Ety read_uint63. reads E Ar Ety read_conn.
  eapply call_respond; [exact Ar|exact E|]. intros rc w1 m w2 Ht Em.
  answers Em Ht Ar Ety.
Qed.

Lemma unpublish_caused w w' : rq_type rq = unpublish_ta → arrived w →
  handle_unpublish (json_t := json_t) conn ta w = Ok (tt, w') →
  caused (EUnpublish (pc_client_id c) (uint63_of rq 0)) w w'.
Proof.
  intros Ety Ar E. unfold handle_unpublish in E.
  reads E Ar Ety read_uint63. reads E Ar Ety read_conn.
  eapply call_respond; [exact Ar|exact E|]. intros rc w1 m w2 Ht Em.
  answers Em Ht Ar Ety.
Qed.

Lemma subscribe_caused w w' : rq_type rq = subscribe_ta → arrived w →
  handle_subscribe (json_t := json_t) conn ta w = Ok (tt, w') →
  caused (ESubscribe (pc_client_id c) (uint63_of rq 0) (opt_str_of rq 0) (Z.pos conn)) w w'.
Proof.
  intros Ety Ar E. unfold handle_subscribe in E.
  reads E Ar Ety read_uint63. reads E Ar Ety read_opt_str. reads E Ar Ety read_conn.
  apply M_bind_Ok in E as (rc & w1 & E1 & E).
  apply sd_call_Ok in E1 as (st1 & Eop & C1 & Et).
  pose proof (Ca_queue _ _ C1 conn q0 (Ar_queue _ Ar)) as Hq1.
  assert (Ht1 : tas w1 !! ta = Some t) by (rewrite Et; apply Ar).
  assert (Hrefuse : ∀ reason code, code ≠ 0%Z → rc = code → reason = reason_of code →
    (m ← ta_fail (json_t := json_t) ta reason; queue_response conn m) w1 = Ok (tt, w') →
    caused (ESubscribe (pc_client_id c) (uint63_of rq 0) (opt_str_of rq 0) (Z.pos conn)) w w').
  { intros reason code Hne -> -> (m & w2 & E2 & E3)%M_bind_Ok.
    pose proof (calm_queue _ _ _ _ _ E3) as C3.
    eapply (respond code) in E2 as [C2 Hm]; [|apply Ar|exact Ht1|].
    2: { intros t'. unfold response_to. by rewrite bool_decide_eq_false_2. }
    exists code, m. split; [|split; [eapply queue_Ok_queued; [exact E3|by apply C2]|done]].
    cbn [run_event]. unfold subscribe. rewrite M_bind_eq, Eop, bool_decide_eq_false_2 by done.
    by rewrite (Ca_core _ _ C3), (Ca_core _ _ C2), (Ca_core _ _ C1). }
  case_bool_decide as H1; [by eapply (Hrefuse _ SD_ERR_SUB_ALREADY_EXISTS); [..|exact E]|].
  case_bool_decide as H2; [by eapply (Hrefuse _ SD_ERR_INVALID_FILTER); [..|exact E]|]. clear Hrefuse.
  apply M_bind_Ok in E as ([] & w2 & E2 & E). unfold lift in E2.
  destruct (decide (rc = 0)%Z) as [->|Hne]; [|by rewrite bool_decide_eq_false_2 in E2].
  injection E2 as <-. apply M_bind_Ok in E as ([] & w2 & E2 & E).
  apply M_bind_Ok in E as (m & w3 & E3 & E). apply M_bind_Ok in E as ([] & w4 & E4 & E).
  apply sd_call_Ok in E as (st5 & Eop5 & C5 & _).
  pose proof (calm_map_add _ _ _ _ _ _ E2) as C2. pose proof (same_tas_map_add _ _ _ _ _ _ E2) as Et2.
  eapply (respond 0) in E3 as [C3 Hm]; [|apply Ar|by rewrite Et2|].
  2: { intros t'. unfold response_to. by rewrite Ety. }
  pose proof (calm_queue _ _ _ _ _ E4) as C4.
  assert (Ec4 : core w4 = st1).
  { by rewrite (Ca_core _ _ C4), (Ca_core _ _ C3), (Ca_core _ _ C2), (Ca_core _ _ C1). }
  exists 0%Z, m. split; [|split; [|done]].
  - cbn [run_event]. unfold subscribe. rewrite M_bind_eq, Eop, bool_decide_eq_true_2 by done.
    rewrite M_bind_eq, <-Ec4, Eop5. by rewrite (Ca_core _ _ C5).
  - eapply queued_calm; [exact C5|]. change (queued w4 conn q0 m). eapply queue_Ok_queued; [exact E4|]. by apply C3, C2.
Qed.

Lemma unsubscribe_caused w w' : rq_type rq = unsubscribe_ta → arrived w →
  handle_unsubscribe (json_t := json_t) conn ta w = Ok (tt, w') →
  caused (EUnsubscribe (pc_client_id c) (uint63_of rq 0)) w w'.
Proof.
  intros Ety Ar E. unfold handle_unsubscribe in E.
  reads E Ar Ety read_uint63. reads E Ar Ety read_conn.
  apply M_bind_Ok in E as (rc & w1 & E1 & E).
  apply sd_call_Ok in E1 as (st1 & Eop & C1 & Et).
  assert (Ht1 : tas w1 !! ta = Some t) by (rewrite Et; apply Ar).
  apply M_bind_Ok in E as ([m om] & w2 & E2 & E). apply M_bind_Ok in E as ([] & w3 & E3 & E4).
  assert (calm w1 w2 ∧ responds rq rc m) as [C2 Hm].
  { assert (Hrefuse : ∀ reason, rc ≠ 0%Z → reason = reason_of rc →
      (m ← ta_fail (json_t := json_t) ta reason; mret (m, None)) w1 = Ok ((m, om), w2) →
      calm w1 w2 ∧ responds rq rc m).
    { intros reason Hne -> (m' & w2' & E & [= <- <- <-])%M_bind_Ok.
      eapply respond in E; [exact E|apply Ar|exact Ht1|].
      intros t'. unfold response_to. by rewrite bool_decide_eq_false_2. }
    case_bool_decide as H1; [by eapply Hrefuse; [subst|subst|exact E2]|].
    case_bool_decide as H2; [by eapply Hrefuse; [subst|subst|exact E2]|].
    case_bool_decide as H3; [subst rc|done]. clear Hrefuse.
    apply M_bind_Ok in E2 as (m' & w4 & E5 & E2).
    eapply (respond 0) in E5 as [C5 Hm]; [|apply Ar|exact Ht1|].
    2: { intros t'. unfold response_to. by rewrite Ety. }
    apply M_bind_Ok in E2 as (c' & w5 & [-> _]%load_pconn_Ok & E2).
    apply M_bind_Ok in E2 as ([] & w6 & E6%calm_map_del & E2).
    apply M_bind_Ok in E2 as (t2 & w7 & E7 & E2). unfold lift in E7.
    destruct (deref _); [|done]. injection E7 as -> <-.
    apply M_bind_Ok in E2 as (m2 & w8 & E8%calm_on_ta & E2).
    apply M_bind_Ok in E2 as ([] & w9 & E9%calm_destroy_ta & [= <- <- <-]).
    split; [|done]. by do 3 (etrans; [eassumption|]). }
  pose proof (calm_queue _ _ _ _ _ E3) as C3.
  assert (C4 : calm w3 w').
  { destruct om; [by eapply calm_queue|]. by injection E4 as <-. }
  exists rc, m. split; [|split; [|done]].
  - cbn [run_event]. rewrite Eop. by rewrite (Ca_core _ _ C4), (Ca_core _ _ C3), (Ca_core _ _ C2), (Ca_core _ _ C1).
  - eapply queued_calm; [exact C4|]. eapply queue_Ok_queued; [exact E3|]. apply C2, C1, Ar.
Qed.

(** What becomes of the core when the request is handled. *)
Definition handled_event (w w' : world) : Prop :=
  match request_event (xcm_remote_addr (sock c)) conn c rq with
  | Some e => caused e w w'
  | None => core w' = core w
  end.

Lemma version_fits_eq : version_fits rq =
  negb (bool_decide (PROTO_VERSION < uint63_of rq 1)%Z || bool_decide (uint63_of rq 2 < PROTO_VERSION)%Z).
Proof. unfold version_fits. repeat case_bool_decide; simpl; (done || lia). Qed.

Lemma hello_event w w' : rq_type rq = hello_ta → arrived w →
  handle_hello (json_t := json_t) xcm_remote_addr conn_handshake_cb conn ta w = Ok (tt, w') →
  handled_event w w'.
Proof.
  intros Ety Ar E. unfold handle_hello in E.
  reads E Ar Ety read_uint63. reads E Ar Ety read_uint63. reads E Ar Ety read_uint63.
  reads E Ar Ety read_conn. unfold handled_event, request_event. rewrite Ety, version_fits_eq.
  apply M_bind_Ok in E as (m & w1 & E1 & E2). pose proof (calm_queue _ _ _ _ _ E2) as C2.
  destruct (has_finished_handshake c); cbn [negb].
  { change (core w' = core w). rewrite (Ca_core _ _ C2).
    destruct (bool_decide _); by apply calm_on_ta, Ca_core in E1. }
  change (bool_decide (cmd hello_ta = PROTO_CMD_HELLO)) with true. cbn [andb].
  destruct (_ || _); cbn [negb].
  { rewrite (Ca_core _ _ C2). by apply calm_on_ta, Ca_core in E1. }
  apply M_bind_Ok in E1 as (rc & w3 & E3 & E1). apply sd_call_Ok in E3 as (st' & Eop & C3 & Et).
  assert (Ht3 : tas w3 !! ta = Some t) by (rewrite Et; apply Ar).
  assert (calm w3 w1 ∧ responds rq rc m) as [C1 Hm].
  { case_bool_decide as Hrc.
    - subst rc. eapply respond in E1; [exact E1|apply Ar|exact Ht3|]. intros t'.
      unfold response_to. by rewrite bool_decide_eq_false_2.
    - apply M_bind_Ok in E1 as ([] & w4 & E4 & E1). unfold lift in E4.
      destruct (decide (rc = 0)%Z) as [->|Hne]; [|by rewrite bool_decide_eq_false_2 in E4].
      injection E4 as <-. apply M_bind_Ok in E1 as ([] & w5 & E5 & E1).
      apply M_bind_Ok in E1 as ([] & w6 & [= <-] & E1). apply M_bind_Ok in E1 as ([] & w7 & E7 & E1).
      pose proof (calm_set_id _ _ _ _ _ E5) as [C5 Et5].
      pose proof (same_tas_handshake _ _ _ _ E7) as Et7.
      eapply (respond 0) in E1 as [C6 Hm]; [|apply Ar|rewrite Et7, Et5; exact Ht3|].
      + split; [|done]. etrans; [exact C5|]. etrans; [by eapply calm_handshake|done].
      + intros t'. unfold response_to. by rewrite Ety. }
  exists rc, m. split; [|split; [|done]].
  - cbn [run_event]. rewrite Eop. by rewrite (Ca_core _ _ C2), (Ca_core _ _ C1), (Ca_core _ _ C3).
  - eapply queue_Ok_queued; [exact E2|]. apply C1, C3, Ar.
Qed.
End request.

(** *** The handlers that do not *)

Lemma calm_forward f cb id l : (∀ id l, respects calm (cb id l)) →
  respects calm (forward_if_matches (@in_core) f cb id l).
Proof.
  intros Hcb. unfold forward_if_matches. apply respects_bind; [apply calm_preorder| |].
  - apply respects_in_core; [apply calm_preorder|]. intros s b s' E.
    destruct f as [f|]; [|by injection E as _ <-].
    apply M_bind_Ok in E as (p & s1 & E1%read_same & E). subst s1.
    apply M_bind_Ok in E as (p' & s1 & E1 & E). unfold lift in E1, E.
    destruct (deref p) as [q|]; [|done]. injection E1 as -> <-.
    destruct (filter_matches f p'); by simplify_eq.
  - intros b. destruct b; [apply Hcb|apply respects_ret, calm_preorder].
Qed.

Section lists.
Context (conn ta : loc).

Ltac handler := unfold ta_accept, ta_notify, ta_complete, ta_fail; calms.

Lemma calm_handle_ping : respects calm (handle_ping (json_t := json_t) conn ta).
Proof. unfold handle_ping. handler. Qed.

Lemma calm_handle_no_hello : respects calm (handle_no_hello (json_t := json_t) conn ta).
Proof. unfold handle_no_hello. handler. Qed.

Lemma calm_service_cb id l : respects calm (service_notify_cb (json_t := json_t) conn ta id l).
Proof. unfold service_notify_cb. handler. Qed.

Lemma calm_sub_cb id l : respects calm (sub_notify_cb (json_t := json_t) conn ta id l).
Proof. unfold sub_notify_cb. handler. Qed.

Lemma calm_client_cb id l : respects calm (client_notify_cb (json_t := json_t) conn ta id l).
Proof. unfold client_notify_cb. handler. Qed.

Lemma calm_foreach_service f :
  respects calm (sd_foreach_service (@in_core) f (service_notify_cb (json_t := json_t) conn ta)).
Proof. unfold sd_foreach_service. calms. apply calm_forward, calm_service_cb. Qed.

Lemma calm_foreach_sub :
  respects calm (sd_foreach_sub (@in_core) (sub_notify_cb (json_t := json_t) conn ta)).
Proof. unfold sd_foreach_sub. calms. apply calm_sub_cb. Qed.

Lemma calm_foreach_client :
  respects calm (sd_foreach_client (@in_core) (client_notify_cb (json_t := json_t) conn ta)).
Proof. unfold sd_foreach_client. calms. apply calm_client_cb. Qed.
#[local] Hint Resolve calm_foreach_service calm_foreach_sub calm_foreach_client : calm.

Lemma calm_handle_services : respects calm (handle_services (json_t := json_t) conn ta).
Proof. unfold handle_services. handler. Qed.

Lemma calm_handle_subscriptions : respects calm (handle_subscriptions (json_t := json_t) conn ta).
Proof. unfold handle_subscriptions. handler. Qed.

Lemma calm_handle_clients : respects calm (handle_clients (json_t := json_t) conn ta).
Proof. unfold handle_clients. handler. Qed.
End lists.

(** ** Every request *)

Section handle.
Context (conn : loc) (q0 : list msg) (rq : request) (c : proto_conn).
Abbreviation happened := (handled_event conn q0 rq c).

Lemma handled_event_calm w0 w w1 w' : core w0 = core w → happened w w1 → calm w1 w' →
  happened w0 w'.
Proof.
  intros E H C. unfold handled_event in *. destruct (request_event _ _ _ _) as [e|].
  - destruct H as (code & m & Er & Hq & Hm). exists code, m. rewrite E, (Ca_core _ _ C).
    split; [done|]. split; [by eapply queued_calm|done].
  - by rewrite (Ca_core _ _ C), E.
Qed.

Lemma no_event_calm w w' : request_event (xcm_remote_addr (sock c)) conn c rq = None → calm w w' →
  happened w w'.
Proof. intros E C. unfold handled_event. rewrite E. apply C. Qed.

Lemma dispatch_event ta t w w' : has_finished_handshake c = true → rq_type rq ≠ hello_ta →
  arrived conn ta q0 rq c t w →
  dispatch (json_t := json_t) (cmd (rq_type rq)) conn ta w = Ok (tt, w') → happened w w'.
Proof.
  intros Hf Hne Ar E. destruct (To_at _ _ _ _ (Ar_ok _ _ _ _ _ _ _ Ar)) as (_ & _ & Hty & _).
  remember (rq_type rq) as ty eqn:Ety. symmetry in Ety.
  assert (Hev : ∀ e, request_event (xcm_remote_addr (sock c)) conn c rq = Some e →
    caused conn q0 rq e w w' → happened w w').
  { intros e Ee Hc. unfold handled_event. by rewrite Ee. }
  unfold proto_ta_types in Hty.
  repeat (apply elem_of_cons in Hty as [->|Hty]; [try done|]); [..|by apply elem_of_nil in Hty].
  - eapply Hev; [unfold request_event; rewrite Hf, Ety; reflexivity|eapply publish_caused; [exact Ety|exact Ar|exact E]].
  - eapply Hev; [unfold request_event; rewrite Hf, Ety; reflexivity|eapply unpublish_caused; [exact Ety|exact Ar|exact E]].
  - eapply Hev; [unfold request_event; rewrite Hf, Ety; reflexivity|eapply subscribe_caused; [exact Ety|exact Ar|exact E]].
  - eapply Hev; [unfold request_event; rewrite Hf, Ety; reflexivity|eapply unsubscribe_caused; [exact Ety|exact Ar|exact E]].
  - eapply no_event_calm; [unfold request_event; rewrite Hf, Ety; reflexivity|eapply calm_handle_ping; exact E].
  - eapply no_event_calm; [unfold request_event; rewrite Hf, Ety; reflexivity|eapply calm_handle_services; exact E].
  - eapply no_event_calm; [unfold request_event; rewrite Hf, Ety; reflexivity|eapply calm_handle_subscriptions; exact E].
  - eapply no_event_calm; [unfold request_event; rewrite Hf, Ety; reflexivity|eapply calm_handle_clients; exact E].
Qed.

Lemma handle_req_event m w rc w' : pconns w !! conn = Some c → queue_from w conn q0 →
  request_in (json_t := json_t) (take (msg_len m) (msg_data m)) = Some rq →
  handle_req (json_t := json_t) xcm_remote_addr conn_handshake_cb conn m w = Ok (rc, w') →
  happened w w'.
Proof.
  intros Hc Hq Erq E. unfold handle_req in E. apply M_bind_Ok in E as (ta & w0 & [= <- <-] & E).
  set (ta := next_obj w) in *. set (w0 := set_next_obj _ _) in *.
  pose proof (proto_ta_req_spec (json_t := json_t) m) as Hreq.
  fold (request_in (json_t := json_t) (take (msg_len m) (msg_data m))) in Hreq. rewrite Erq in Hreq.
  apply M_bind_Ok in E as (rc' & w1 & (t0 & t & Ht0 & Er & ->)%on_ta_Ok & E).
  assert (t0 = proto_ta_create) as ->.
  { unfold w0 in Ht0. simpl in Ht0. rewrite lookup_insert_eq in Ht0. by injection Ht0. }
  rewrite Hreq in Er. injection Er as <- <-. cbn [bool_decide] in E.
  set (w1 := set_tas _ w0) in *.
  assert (Ar : arrived conn ta q0 rq c (requested rq) w1).
  { apply bind_Some in Erq as (j & Ej & Erq). split; [|eapply requested_ok; [by eapply loadb_valid|done]|done|done].
    unfold w1. simpl. apply lookup_insert_eq. }
  destruct (To_at _ _ _ _ (Ar_ok _ _ _ _ _ _ _ Ar)) as (Ety & _ & Hin & _).
  apply M_bind_Ok in E as (name & w2 & E1 & E).
  eapply with_ta_Ok in E1 as [-> E1]; [|apply Ar]. unfold proto_ta_get_cmd in E1. rewrite Ety in E1.
  injection E1 as <-. apply M_bind_Ok in E as ([] & w3 & E2 & E).
  assert (H3 : happened w1 w3).
  { destruct (hello_cmd _ Hin) as [[Eh Eq]|[Eh Eq]]; rewrite Eh in E2; [by eapply hello_event|].
    apply M_bind_Ok in E2 as (c' & w4 & E4 & E2). eapply read_conn in E4 as [Ew Ec]; [|exact Ar]. rewrite Ew, Ec in E2.
    destruct (has_finished_handshake c) eqn:Hf; cbn [negb] in E2; [by eapply dispatch_event|].
    eapply no_event_calm; [|by eapply calm_handle_no_hello]. unfold request_event. rewrite Hf. cbn [negb].
    rewrite bool_decide_eq_false_2; [done|]. intros E3. apply bool_decide_eq_false_1 in Eh. apply Eh.
    by rewrite E3. }
  apply M_bind_Ok in E as (b & w5 & E5 & E). pose proof (respects_with_ta calm _ _ _ _ _ E5) as C5.
  apply M_bind_Ok in E as ([] & w6 & E6 & [= _ <-]).
  eapply (handled_event_calm w w1 w3); [done|exact H3|]. etrans; [exact C5|].
  destruct b; [by eapply calm_destroy_ta|by injection E6 as <-].
Qed.

(** *** A message *)

Lemma receive_event data rc w w' : pconns w !! conn = Some c → queue_from w conn q0 →
  (0 < length data)%nat → request_in (json_t := json_t) data = Some rq →
  try_receive (json_t := json_t) xcm_remote_addr conn_handshake_cb conn_term_cb conn (Received data) w = Ok (rc, w') →
  rc = 0%Z → happened w w'.
Proof.
  intros Hc Hq Hn Erq E Hrc. unfold try_receive in E. apply M_bind_Ok in E as ([] & w1 & E1 & E).
  unfold lift in E1. destruct (bool_decide _) eqn:Hlen; [|done]. injection E1 as <-.
  rewrite bool_decide_eq_true_2 in E by done. apply M_bind_Ok in E as (r & w1 & E1 & E).
  assert (Edata : take (msg_len (msg_create data (length data)))
    (msg_data (msg_create data (length data))) = data).
  { cbn [msg_len msg_data msg_create]. by rewrite take_take, Nat.min_id, firstn_all. }
  assert (H1 : happened w w1) by (eapply handle_req_event; [exact Hc|exact Hq|by rewrite Edata|exact E1]).
  destruct (bool_decide (r < 0)%Z).
  - apply M_bind_Ok in E as ([] & w2 & _ & [= E _]). congruence.
  - apply M_bind_Ok in E as ([] & w2 & E2%calm_await & [= _ <-]).
    by eapply handled_event_calm.
Qed.
End handle.

(** ** Requests are admissible *)

Lemma type_of_cmd ty ty' : ty ∈ proto_ta_types → ty' ∈ proto_ta_types → cmd ty = cmd ty' → ty = ty'.
Proof.
  revert ty ty'. cut (Forall (λ ty, Forall (λ ty', cmd ty = cmd ty' → ty = ty') proto_ta_types) proto_ta_types).
  { intros H ty ty' H1 H2. rewrite Forall_forall in H. specialize (H _ H1).
    rewrite Forall_forall in H. by apply H. }
  unfold proto_ta_types. repeat (apply Forall_cons; split); try apply Forall_nil_2;
    intros E; try reflexivity; discriminate E.
Qed.

Lemma connected_caller st c : connected st c = true → caller_ok st c = true.
Proof. unfold connected, caller_ok. by destruct (client_at st c). Qed.

Section admissible.
Context (w : world) (W : winv None w) (conn : loc) (c : proto_conn) (Hc : pconns w !! conn = Some c).
Context (rq : request) (t : proto_ta) (Hok : ta_ok (rq_type rq) proto_ta_state_requested rq t).
Context (Hl : within_limits rq = true).

Lemma known_type : rq_type rq ∈ proto_ta_types.
Proof using Hok. by destruct (To_at _ _ _ _ Hok) as (_ & _ & Hin & _). Qed.

Lemma uint63_range i name :
  req_fields (rq_type rq) !! i = Some (Field name proto_field_type_uint63) →
  (0 ≤ uint63_of rq i ≤ int64_max)%Z ∧ rq_values rq !! i = Some (Some (FUint63 (uint63_of rq i))).
Proof using Hok.
  intros Hf. destruct (get_uint63_ok _ _ _ _ _ _ Hok Hf) as (z & Hz & Hr & _).
  unfold uint63_of. by rewrite Hz.
Qed.

Lemma caller_connected : has_finished_handshake c = true →
  connected (core w) (pc_client_id c) = true.
Proof using W Hc.
  intros H0%bool_decide_eq_true_1.
  destruct (P_connected _ _ _ _ (W_peers _ _ W) conn (peer_of c)) as [E _]; [|done|exact E].
  apply peers_lookup. by exists c.
Qed.

Lemma request_allowed addr e : request_event addr conn c rq = Some e → allowed (core w) e = true.
Proof using W Hc Hok Hl JanssonLaws0.
  unfold request_event. destruct (has_finished_handshake c) eqn:Hf; cbn [negb].
  - pose proof (connected_caller _ _ (caller_connected Hf)) as Hcon.
    assert (Hcmd : ∀ ty, ty ∈ proto_ta_types → cmd (rq_type rq) = cmd ty → rq_type rq = ty).
    { intros ty Hty. apply type_of_cmd; [apply known_type|done]. }
    case_bool_decide as H1; [|case_bool_decide as H2; [|case_bool_decide as H3; [|case_bool_decide as H4; [|done]]]];
      intros [= <-]; cbn [allowed]; rewrite Hcon.
    + pose proof (Hcmd subscribe_ta ltac:(set_solver) H1) as Ety.
      destruct (uint63_range 0 _ ltac:(rewrite Ety; reflexivity)) as [Hr _].
      destruct (get_opt_str_ok _ _ _ _ 0 _ Hok ltac:(rewrite Ety; reflexivity)) as (v & Hv & _).
      assert (Ev : opt_str_of rq 0 = v) by (unfold opt_str_of; rewrite Hv; by destruct v).
      pose proof (limits_filter _ _ _ Hl Hv) as Hs. rewrite Ev, bool_decide_eq_true_2 by lia. simpl.
      destruct (request_filter v) as [[f|]|]; [by apply simple_b_spec|done|done].
    + done.
    + pose proof (Hcmd publish_ta ltac:(set_solver) H3) as Ety.
      destruct (uint63_range 0 _ ltac:(rewrite Ety; reflexivity)) as [Hr0 _].
      destruct (uint63_range 1 _ ltac:(rewrite Ety; reflexivity)) as [Hr1 _].
      destruct (uint63_range 3 _ ltac:(rewrite Ety; reflexivity)) as [Hr3 Hv3].
      destruct (get_props_ok _ _ _ _ 2 _ Hok ltac:(rewrite Ety; reflexivity)) as (p & Hp & _).
      assert (Ep : props_of rq 2 = p) by (unfold props_of; by rewrite Hp).
      pose proof (limits_props _ _ _ Hl Hp) as Hfit. pose proof (limits_ttl _ _ Hl Ety Hv3) as Httl.
      rewrite Ep, !bool_decide_eq_true_2 by (done || lia). done.
    + done.
  - case_bool_decide as H1; cbn [andb]; [|done]. destruct (version_fits rq); [|done].
    intros [= <-]. cbn [allowed].
    pose proof (type_of_cmd _ hello_ta known_type ltac:(set_solver) H1) as Ety.
    destruct (uint63_range 0 _ ltac:(rewrite Ety; reflexivity)) as [Hr _].
    by rewrite bool_decide_eq_true_2 by lia.
Qed.
End admissible.

(** ** A request is a step of the directory *)

(** What the handling of a request does, by the directory. *)
Definition as_directory (w : world) (d : directory) (conn : loc) (c : proto_conn) (rq : request) (w' : world)
    : Prop :=
  match request_event (xcm_remote_addr (sock c)) conn c rq with
  | None => core w' = core w
  | Some e => ∃ code d' n calls m,
      dir_step (abstract_event (core w) e) d = Some (code, d', n) ∧ represents (core w') d' ∧
      match_calls (core w') = match_calls (core w) ++ calls ∧ delivered (core w') calls n ∧
      queued w' conn (out_queue c) m ∧ responds rq code m
  end.

Lemma event_directory w d e code st' : good (core w) → represents (core w) d →
  allowed (core w) e = true → run_event e (core w) = Ok (code, st') →
  ∃ d' n calls, dir_step (abstract_event (core w) e) d = Some (code, d', n) ∧ represents st' d' ∧
    match_calls st' = match_calls (core w) ++ calls ∧ delivered st' calls n.
Proof.
  intros G R Ha E. pose proof (event_simulates _ d e (Good_inv _ G) R Ha) as Hw.
  unfold wp in Hw. rewrite E in Hw. destruct Hw as ([[r d'] n] & Es & -> & R' & calls & E1 & E2).
  by exists d', n, calls.
Qed.

Lemma request_directory w d conn c data rq : winv None w → represents (core w) d →
  pconns w !! conn = Some c → (0 < length data)%nat →
  receivable_ok (json_t := json_t) (Received data) = true →
  request_in (json_t := json_t) data = Some rq →
  ∃ w', try_receive (json_t := json_t) xcm_remote_addr conn_handshake_cb conn_term_cb conn
      (Received data) w = Ok (0%Z, w') ∧ as_directory w d conn c rq w'.
Proof.
  intros W R Hc Hn Hr Erq.
  pose proof (wp_receive_message xcm_remote_addr conn c data w W Hc Hn Hr) as Hw. unfold wp in Hw.
  destruct (try_receive _ _ _ _ _ w) as [[r w']|] eqn:E; [|done]. rewrite Erq in Hw.
  destruct Hw as [_ [-> _]]. exists w'. split; [done|].
  assert (Hq : queue_from w conn (out_queue c)) by (by exists c).
  pose proof (receive_event conn (out_queue c) rq c data 0 w w' Hc Hq Hn Erq E eq_refl) as H.
  unfold handled_event in H. unfold as_directory. destruct (request_event _ _ _ _) as [e|] eqn:Ee; [|done].
  destruct H as (code & m & Er & Hm & Hresp). apply bind_Some in Erq as (j & Ej & Erq).
  apply andb_true_iff in Hr as [_ Hl]. unfold request_in in Hl. rewrite Ej in Hl. simpl in Hl. rewrite Erq in Hl.
  assert (Ha : allowed (core w) e = true).
  { eapply request_allowed; [exact W|exact Hc| |exact Hl|exact Ee].
    eapply requested_ok; [by eapply loadb_valid|done]. }
  destruct (event_directory w d e code (core w') (W_good _ _ W) R Ha Er)
    as (d' & n & calls & H1 & H2 & H3 & H4).
  by exists code, d', n, calls, m.
Qed.

(** ** Every event of the server *)

Definition in_directory (w : world) : Prop := ∃ d, represents (core w) d ∧ reached d.

(** The directory stays as it is. *)
Definition unmoved (w w' : world) : Prop := ∀ d, represents (core w) d → represents (core w') d.

#[local] Instance unmoved_preorder : PreOrder unmoved.
Proof. split; [by intros w d|]. intros w1 w2 w3 H1 H2 d H. by apply H2, H1. Qed.

Lemma unmoved_in w w' : unmoved w w' → in_directory w → in_directory w'.
Proof. intros H (d & R & Hr). exists d. split; [by apply H|done]. Qed.

Lemma unmoved_core w w' : core w' = core w → unmoved w w'.
Proof. intros E d. by rewrite E. Qed.

Lemma unmoved_calm w w' : calm w w' → unmoved w w'.
Proof. intros C. by apply unmoved_core, C. Qed.

Lemma unmoved_modify f : (∀ w, core (f w) = core w) → respects unmoved (modify f).
Proof. intros E w [] w' [= <-]. by apply unmoved_core. Qed.

Lemma unmoved_update l f : respects unmoved (update_pconn l f).
Proof. intros w a w' (c & w1 & [-> _]%load_pconn_Ok & [= _ <-])%M_bind_Ok. by apply unmoved_core. Qed.

Lemma unmoved_clock : respects unmoved (in_core ut_ftime).
Proof. intros w a w' [= _ <-] d []. by split. Qed.

Lemma unmoved_destroy_ta l : respects unmoved (destroy_ta l).
Proof. intros w a w' E%calm_destroy_ta. by apply unmoved_calm. Qed.

Lemma unmoved_free l : respects unmoved (free_pconn l).
Proof. intros w a w' (c & w1 & [-> _]%load_pconn_Ok & [= _ <-])%M_bind_Ok. by apply unmoved_core. Qed.

Lemma unmoved_clientless_del l : respects unmoved (clientless_del l).
Proof. intros w a w' E%calm_clientless_del. by apply unmoved_calm. Qed.

Lemma unmoved_client_conns_del l : respects unmoved (client_conns_del l).
Proof.
  intros w a w' E. unfold client_conns_del in E. destruct (list_del_first _ _); [|done].
  injection E as _ <-. by apply unmoved_core.
Qed.
#[local] Hint Resolve unmoved_update unmoved_clock unmoved_destroy_ta unmoved_free
  unmoved_clientless_del unmoved_client_conns_del : calm.

Lemma unmoved_destroy conn : respects unmoved (proto_conn_destroy conn).
Proof. unfold proto_conn_destroy. calms. Qed.
#[local] Hint Resolve unmoved_destroy : calm.

Lemma unmoved_term_cb conn : respects unmoved (conn_term_cb conn).
Proof. unfold conn_term_cb. calms. Qed.

Lemma unmoved_accept s : respects unmoved (accept_cb s).
Proof.
  unfold accept_cb, proto_conn_create. calms; [|by apply unmoved_modify].
  intros w1 x w2 [= _ <-]. by apply unmoved_core.
Qed.

Lemma unmoved_expired l : respects unmoved (expired_conns l).
Proof. induction l as [|x l IH]; cbn [expired_conns]; unfold consider_disconnect; calms; exact IH. Qed.

Lemma unmoved_clean_out : respects unmoved clean_out_cb.
Proof. unfold clean_out_cb, do_disconnect. calms. apply unmoved_expired. Qed.

(** The core does what an event asks for. *)
Lemma event_in w w' e code st' : good (core w) → in_directory w → allowed (core w) e = true →
  run_event e (core w) = Ok (code, st') → core w' = st' → in_directory w'.
Proof.
  intros G (d & R & Hr) Ha E Ec.
  destruct (event_directory w d e code st' G R Ha E) as (d' & n & calls & Es & R' & _).
  exists d'. rewrite Ec. split; [done|]. by econstructor.
Qed.

(** The clients of connections are connected to the core. *)
Definition peers_known (w : world) : Prop := good (core w) ∧
  ∀ conn c, pconns w !! conn = Some c → has_finished_handshake c = true →
    connected (core w) (pc_client_id c) = true.

Lemma winv_known w : winv None w → peers_known w.
Proof. intros W. split; [apply W|]. intros conn c Hc. by eapply caller_connected. Qed.

Lemma term_in conn w a w' : peers_known w → in_directory w →
  term (json_t := json_t) conn_term_cb conn w = Ok (a, w') → in_directory w'.
Proof.
  intros [G Hk] Hd E. unfold term in E. apply M_bind_Ok in E as (c & w1 & [-> Hc]%load_pconn_Ok & E).
  apply M_bind_Ok in E as ([] & w1 & E1 & E). pose proof (respects_lift calm _ _ _ _ E1) as C1.
  unfold lift in E1. destruct (ut_assert _); [|done]. injection E1 as _ <-.
  apply M_bind_Ok in E as ([] & w2 & E2 & E).
  assert (Hd2 : in_directory w2).
  { destruct (has_finished_handshake c) eqn:Hf; [|by injection E2 as <-].
    apply M_bind_Ok in E2 as (r & w3 & E3 & [= <-]). apply sd_call_Ok in E3 as (st' & Eop & C3 & _).
    eapply (event_in w _ (EDisconnect (pc_client_id c))); [done|done| |exact Eop|by apply (Ca_core _ _ C3)].
    cbn [allowed]. by eapply connected_caller, Hk. }
  apply M_bind_Ok in E as ([] & w3 & E3%unmoved_update & E).
  apply M_bind_Ok in E as ([] & w4 & E4%unmoved_update & E%unmoved_term_cb).
  eapply unmoved_in; [|exact Hd2]. by do 2 (etrans; [eassumption|]).
Qed.

Lemma send_loop_in conn n : ∀ answers w a w', peers_known w → in_directory w →
  send_loop (json_t := json_t) conn_term_cb n conn answers w = Ok (a, w') → in_directory w'.
Proof.
  induction n as [|n IH]; intros answers w a w' Hk Hd E; cbn [send_loop] in E.
  - apply M_bind_Ok in E as ([] & w1 & E%unmoved_update & [= _ <-]). by eapply unmoved_in.
  - apply M_bind_Ok in E as (c & w1 & [-> Hc]%load_pconn_Ok & E).
    destruct (msg_queue_peek _) as [m|]; [|by injection E as _ <-].
    destruct answers as [|[|[]] answers]; [by injection E as _ <-| |by injection E as _ <-|].
    + apply M_bind_Ok in E as ([] & w1 & [= <-] & E).
      apply M_bind_Ok in E as ([] & w2 & (c2 & w3 & [-> Hc2]%load_pconn_Ok & [= <-])%M_bind_Ok & E).
      eapply IH; [| |exact E]; [|exact Hd]. destruct Hk as [G Hk]. split; [done|]. simpl.
      intros x cx [[<- <-]|[_ Hx]]%lookup_insert_Some Hf; [|by eapply Hk].
      simpl in Hc2. by apply (Hk _ _ Hc2).
    + apply M_bind_Ok in E as ([] & w1 & E & [= _ <-]). by eapply term_in.
Qed.

(** A message that is no request leaves the core to the termination. *)
Lemma handle_req_none conn m w rc w' :
  request_in (json_t := json_t) (take (msg_len m) (msg_data m)) = None →
  handle_req (json_t := json_t) xcm_remote_addr conn_handshake_cb conn m w = Ok (rc, w') →
  rc = (-1)%Z ∧ core w' = core w ∧ pconns w' = pconns w.
Proof.
  intros Erq E. unfold handle_req in E. apply M_bind_Ok in E as (ta & w0 & [= <- <-] & E).
  pose proof (proto_ta_req_spec (json_t := json_t) m) as Hreq.
  fold (request_in (json_t := json_t) (take (msg_len m) (msg_data m))) in Hreq. rewrite Erq in Hreq.
  destruct Hreq as (t & Er & _).
  apply M_bind_Ok in E as (rc' & w1 & (t0 & t1 & Ht0 & Er' & ->)%on_ta_Ok & E).
  simpl in Ht0. rewrite lookup_insert_eq in Ht0. injection Ht0 as <-. rewrite Er in Er'.
  injection Er' as <- <-. cbn [bool_decide] in E. rewrite bool_decide_eq_true_2 in E by lia.
  apply M_bind_Ok in E as ([] & w2 & E2 & [= <- <-]). split; [done|].
  by apply M_bind_Ok in E2 as ([] & w3 & (x & w4 & [-> _]%load_ta_Ok & E3)%M_bind_Ok & [= <-]);
    unfold lift in E3; destruct (proto_ta_destroy x); simplify_eq.
Qed.

Lemma receive_in conn r w rc w' : winv None w → is_Some (pconns w !! conn) → in_directory w →
  receivable_ok (json_t := json_t) r = true →
  try_receive (json_t := json_t) xcm_remote_addr conn_handshake_cb conn_term_cb conn r w = Ok (rc, w') →
  in_directory w'.
Proof.
  intros W [c Hc] Hd Hr E. pose proof (winv_known _ W) as Hk.
  destruct r as [data|[]]; cycle 1.
  - cbn [try_receive negb] in E.
    apply M_bind_Ok in E as ([] & w1 & E%unmoved_update & [= _ <-]). by eapply unmoved_in.
  - cbn [try_receive negb] in E. apply M_bind_Ok in E as ([] & w1 & E & [= _ <-]). by eapply term_in.
  - destruct (decide (0 < length data)%nat) as [Hn|Hn].
    2: { unfold try_receive in E. apply M_bind_Ok in E as ([] & w1 & E1 & E). unfold lift in E1.
      destruct (bool_decide _) eqn:Hlen; [|done]. injection E1 as <-.
      rewrite bool_decide_eq_false_2 in E by done.
      apply M_bind_Ok in E as ([] & w2 & E & [= _ <-]). by eapply term_in. }
    destruct (request_in (json_t := json_t) data) as [rq|] eqn:Erq.
    + destruct Hd as (d & R & Hreach).
      destruct (request_directory w d conn c data rq W R Hc Hn Hr Erq) as (w2 & E2 & H).
      assert (w2 = w') as -> by congruence. unfold as_directory in H.
      destruct (request_event _ _ _ _) as [e|].
      * destruct H as (code & d' & n & calls & m & Hs & R' & _). exists d'. split; [done|]. by econstructor.
      * exists d. by rewrite H.
    + unfold try_receive in E. apply M_bind_Ok in E as ([] & w1 & E1 & E). unfold lift in E1.
      destruct (bool_decide _) eqn:Hlen; [|done]. injection E1 as <-.
      rewrite bool_decide_eq_true_2 in E by done. apply M_bind_Ok in E as (r & w1 & E1 & E).
      apply handle_req_none in E1 as (-> & Ec & Ep).
      2: { cbn [msg_len msg_data msg_create]. by rewrite take_take, Nat.min_id, firstn_all. }
      rewrite bool_decide_eq_true_2 in E by lia.
      apply M_bind_Ok in E as ([] & w2 & E & [= _ <-]). eapply term_in; [|by eapply unmoved_in, Hd; apply unmoved_core|exact E].
      unfold peers_known. by rewrite Ec, Ep.
Qed.

Lemma server_event_in e w w' : winv None w → in_directory w →
  server_allowed (json_t := json_t) w e = true →
  run_server_event (json_t := json_t) xcm_remote_addr e w = Ok (tt, w') → in_directory w'.
Proof.
  intros W Hd Ha E. destruct e as [s|conn r answers| |t]; cbn [run_server_event server_allowed] in *.
  - by eapply unmoved_in; [eapply unmoved_accept|].
  - apply andb_true_iff in Ha as [Hc%bool_decide_eq_true_1 Hr]. unfold conn_process in E.
    apply M_bind_Ok in E as (rc & w1 & E1 & E).
    pose proof (receive_in conn r w rc w1 W Hc Hd Hr E1) as Hd1.
    assert (Hal : alive conn w).
    { destruct Hc as [c Hc]. exists (peer_of c). apply peers_lookup. by exists c. }
    pose proof (wp_try_receive xcm_remote_addr conn r w W Hal Hr) as Hw. unfold wp in Hw. rewrite E1 in Hw.
    destruct (bool_decide _); [by injection E as <-|].
    apply M_bind_Ok in E as (rc2 & w2 & E2 & E).
    assert (Hd2 : in_directory w2) by (eapply send_loop_in; [apply winv_known, Hw|exact Hd1|exact E2]).
    destruct (bool_decide _); by injection E as <-.
  - by eapply unmoved_in; [eapply unmoved_clean_out|].
  - apply sd_call_Ok in E as (st' & Eop & C & _).
    eapply (event_in w w' (ETimeout t) 0); [apply W|done|exact Ha| |by apply (Ca_core _ _ C)].
    cbn [run_event]. by rewrite M_bind_eq, Eop.
Qed.

Lemma run_in_directory evs : ∀ w w', winv None w → in_directory w →
  server_admissible (json_t := json_t) xcm_remote_addr w evs = true →
  run_server (json_t := json_t) xcm_remote_addr evs w = Ok (tt, w') → in_directory w'.
Proof.
  induction evs as [|e evs IH]; intros w w' W Hd Ha E; [by injection E as <-|].
  simpl in Ha. apply andb_true_iff in Ha as [Ha Hrest].
  apply M_bind_Ok in E as ([] & w1 & E1 & E2). rewrite E1 in Hrest.
  pose proof (server_event_ok xcm_remote_addr e w W Ha) as W1. unfold wp in W1. rewrite E1 in W1.
  eapply IH; [exact W1|eapply server_event_in; [exact W|exact Hd|exact Ha|exact E1]|exact Hrest|exact E2].
Qed.

Lemma served_in_directory w : served (json_t := json_t) xcm_remote_addr w → in_directory w.
Proof.
  intros (clk & s & w0 & evs & Hclk & E0 & Ha & E).
  eapply run_in_directory; [exact (winv_create _ _ _ Hclk E0)| |exact Ha|exact E].
  exists empty_directory. split; [|constructor]. injection E0 as <-. apply represents_create.
Qed.

(** C5: the server is a directory.  Whatever has happened to it, what its core
    holds is what the directory of SdAbs.v holds after some sequence of its
    steps: nothing in it is held by a client that is not attached.  And a request
    that a client sends next does to it what that step of the directory does: the
    code of the step is the one that the response reports (success, or the
    failure with the reason for it), the match calls that the core makes are the
    directory's news, and a request that the directory has no step for (a ping, a
    query, one that precedes the handshake) leaves the core alone. *)
Theorem server_refines_directory w : served (json_t := json_t) xcm_remote_addr w →
  ∃ d, represents (core w) d ∧ reached d ∧ directory_ok d ∧
    ∀ conn c data rq, pconns w !! conn = Some c → (0 < length data)%nat →
      receivable_ok (json_t := json_t) (Received data) = true →
      request_in (json_t := json_t) data = Some rq →
      ∃ w', try_receive (json_t := json_t) xcm_remote_addr conn_handshake_cb conn_term_cb conn
          (Received data) w = Ok (0%Z, w') ∧ as_directory w d conn c rq w'.
Proof using JanssonLaws0.
  intros Sv. destruct (served_in_directory w Sv) as (d & R & Hd). exists d.
  split; [done|]. split; [done|]. split; [by apply reached_ok|].
  intros conn c data rq. by apply request_directory; [apply (served_winv xcm_remote_addr)|].
Qed.
End dir.

(** ** Witness *)

(** The first client of the story withdraws the service it published. *)
Definition withdrawal : string :=
  "{'ta-cmd': 'unpublish', 'ta-id': 4, 'msg-type': 'request', 'service-id': 5}".

Lemma server_refines_directory_witness : ∃ d c rq w',
  represents (core after_story) d ∧ directory_ok d ∧ pconns after_story !! 1%positive = Some c ∧
  request_event (peer_addr (sock c)) 1 c rq = Some (EUnpublish 17 5) ∧
  try_receive (json_t := json) peer_addr conn_handshake_cb conn_term_cb 1 (Received (Q withdrawal))
    after_story = Ok (0%Z, w') ∧
  as_directory (json_t := json) peer_addr after_story d 1 c rq w'.
Proof.
  destruct (pconns after_story !! 1%positive) as [c|] eqn:Hc; [|by vm_compute in Hc].
  destruct (request_in (json_t := json) (Q withdrawal)) as [rq|] eqn:Erq; [|by vm_compute in Erq].
  destruct (server_refines_directory (json_t := json) peer_addr after_story served_story)
    as (d & R & _ & Ok & H).
  destruct (H 1%positive c (Q withdrawal) rq Hc) as (w' & E & A).
  - vm_compute. lia.
  - vm_compute. reflexivity.
  - exact Erq.
  - exists d, c, rq, w'. split; [exact R|]. split; [exact Ok|]. split; [reflexivity|].
    split; [|split; [exact E|exact A]].
    vm_compute in Hc. injection Hc as <-. vm_compute in Erq. injection Erq as <-. vm_compute. reflexivity.
Defined.
