(* ===== verification/Daemon.v ===== *)
(** * The process (src/daemon/main.c)

    The daemon reads its options, sets up logging, creates and starts a server
    for each address it is given, lets the event loop run until a signal comes,
    and destroys the servers.  What [getopt] finds, the sockets, and the events
    are inputs.  The servers' own log lines are left out. *)

From S2P Require Import Prelude CLib Log Double Heap Sd Json ProtoConn Server.

(** ** Printing *)

Definition EXIT_SUCCESS : Z := 0.
Definition EXIT_FAILURE : Z := 1.

Definition DEFAULT_LOG_LEVEL : Z := LOG_INFO.
Definition DEFAULT_LOG_FACILITY : Z := LOG_DAEMON.
Definition DEFAULT_LOG_FLAGS : Z := LOG_USE_SYSLOG.

Inductive printed := Stdout (text : cstr) | StderrText (text : cstr).

Definition nl : cstr := ["010"%char].
Definition quoted (s : cstr) : cstr := ["034"%char] ++ s ++ ["034"%char].

(** What [%s] prints of a pointer. *)
Definition print_str (s : outcome (option cstr)) : outcome cstr := s ≫= deref.

Definition usage (name : cstr) : outcome cstr :=
  facility ← print_str (log_facility_to_str DEFAULT_LOG_FACILITY);
  level ← print_str (log_level_to_str DEFAULT_LOG_LEVEL);
  mret (name ++ C " [options] [<domain-addr> ...]" ++ nl ++
    C "Options:" ++ nl ++
    C "  -s             Enable logging to standard error." ++ nl ++
    C "  -n             Disable logging to syslog." ++ nl ++
    C "  -y <facility>  Set syslog facility to use. Default is " ++ quoted facility ++ C "." ++ nl ++
    C "  -l <level>     Filter levels below <level>. Default is " ++ quoted level ++ C "." ++ nl ++
    C "  -v             Print version information." ++ nl ++
    C "  -h             Print this text." ++ nl).

Definition NAME_PER_LINE : nat := 8.

(** [%-9s] *)
Definition left_adjusted (width : nat) (s : cstr) : cstr :=
  s ++ replicate (width - length s) " "%char.

(** The state: the count, and what has been printed. *)
Definition print_name (value : Z) (name : cstr) : M (nat * cstr) unit := λ '(count, out),
  let out := out ++ left_adjusted 9 name in
  let count := S count in
  Ok (tt, (count, if bool_decide (count `mod` NAME_PER_LINE = 0) then out ++ nl else out)).

Definition print_names (foreach_fun : (Z → cstr → M (nat * cstr) unit) → M (nat * cstr) unit)
    : outcome cstr :=
  match foreach_fun print_name (0, []) with
  | Ok (_, (count, out)) =>
      Ok (if bool_decide (count `mod` NAME_PER_LINE = 0) then out else out ++ nl)
  | Fail e => Fail e
  end.

(** The part of a path behind its last slash ([strrchr]). *)
Fixpoint get_prg_name (prg_path : cstr) : cstr :=
  match prg_path with
  | [] => []
  | c :: path' =>
      if bool_decide ("/"%char ∈ path') then get_prg_name path'
      else if bool_decide (c = "/"%char) then path' else prg_path
  end.

(** ** The state of the process *)

Record daemon := Daemon {
  d_log : log_state;
  d_servers : list world;
  d_printed : list printed
}.

Definition daemon_0 : daemon := Daemon log_0 [] [].

Definition print_out (p : printed) : M daemon unit := λ d,
  Ok (tt, Daemon (d_log d) (d_servers d) (d_printed d ++ [p])).

Definition in_log {A} (m : M log_state A) : M daemon A := λ d,
  match m (d_log d) with
  | Ok (a, l) => Ok (a, Daemon l (d_servers d) (d_printed d))
  | Fail e => Fail e
  end.

Definition add_server (w : world) : M daemon unit := λ d,
  Ok (tt, Daemon (d_log d) (d_servers d ++ [w]) (d_printed d)).

Definition on_server {A} (i : nat) (m : M world A) : M daemon A := λ d,
  match d_servers d !! i with
  | Some w =>
      match m w with
      | Ok (a, w') => Ok (a, Daemon (d_log d) (<[i := w']> (d_servers d)) (d_printed d))
      | Fail e => Fail e
      end
  | None => Fail Undefined
  end.

(** ** Options *)

(** What [getopt] returns, with [optarg] for the options that have one. *)
Record opt := Opt { opt_char : ascii; optarg : cstr }.

Record settings := Settings { log_facility : Z; log_filter : Z; log_flags : Z }.

Definition default_settings : settings :=
  Settings DEFAULT_LOG_FACILITY DEFAULT_LOG_LEVEL DEFAULT_LOG_FLAGS.

Section main.
Context {json_t : Type} `{!Jansson json_t}.
Context (xcm_remote_addr : Z → option cstr) (getpid : Z) (TPAF_VERSION : cstr).

(** One turn of the loop: new settings, or the exit status. *)
Definition handle_opt (argv0 : cstr) (s : settings) (o : opt) : M daemon (settings + Z) :=
  let c := opt_char o in
  if decide (c = "s"%char) then
    mret (inl (Settings (log_facility s) (log_filter s) (Z.lor (log_flags s) LOG_USE_STDERR)))
  else if decide (c = "n"%char) then
    mret (inl (Settings (log_facility s) (log_filter s) (Z.ldiff (log_flags s) LOG_USE_SYSLOG)))
  else if decide (c = "y"%char) then
    facility ← lift (log_str_to_facility (optarg o));
    if bool_decide (facility < 0)%Z then
      _ ← print_out (StderrText (C "Unknown facility " ++ quoted (optarg o) ++
                                 C ". Valid facilities are:" ++ nl));
      names ← lift (print_names log_facility_foreach);
      _ ← print_out (Stdout names);
      mret (inr EXIT_FAILURE)
    else mret (inl (Settings facility (log_filter s) (log_flags s)))
  else if decide (c = "l"%char) then
    level ← lift (log_str_to_level (optarg o));
    if bool_decide (level < 0)%Z then
      _ ← print_out (StderrText (C "Unknown filter level " ++ quoted (optarg o) ++
                                 C ". Valid levels are:" ++ nl));
      names ← lift (print_names log_level_foreach);
      _ ← print_out (Stdout names);
      mret (inr EXIT_FAILURE)
    else mret (inl (Settings (log_facility s) level (log_flags s)))
  else if decide (c = "v"%char) then
    _ ← print_out (Stdout (TPAF_VERSION ++ nl));
    mret (inr EXIT_SUCCESS)
  else if decide (c = "h"%char) then
    text ← lift (usage argv0);
    _ ← print_out (Stdout text);
    mret (inr EXIT_SUCCESS)
  else if decide (c = "?"%char) then mret (inr EXIT_FAILURE)
  else mret (inl s).

Fixpoint handle_opts (argv0 : cstr) (s : settings) (opts : list opt) : M daemon (settings + Z) :=
  match opts with
  | [] => mret (inl s)
  | o :: opts' =>
      r ← handle_opt argv0 s o;
      match r with
      | inl s' => handle_opts argv0 s' opts'
      | inr code => mret (inr code)
      end
  end.

(** [die], with the text of [errno]; the exit status. *)
Definition die (strerror message : cstr) : M daemon Z :=
  _ ← print_out (StderrText (message ++ C ": " ++ strerror ++ C "." ++ nl));
  mret EXIT_FAILURE.

(** ** Servers *)

(** What the calls for one server's socket and timer return. *)
Record server_setup := ServerSetup {
  su_clock : nat → timespec;
  su_sock : option Z;
  su_set_blocking : Z;
  su_await : Z;
  su_fd : Z
}.

(** The loops that create and start the servers: an exit status when one of
    them fails. *)
Fixpoint create_servers (strerror : cstr) (addrs : list (cstr * server_setup)) : M daemon (option Z) :=
  match addrs with
  | [] => mret None
  | (server_addr, su) :: addrs' =>
      match server_create (su_clock su) (su_sock su) with
      | None =>
          code ← die strerror (C "Unable to create server bound to " ++ quoted server_addr);
          mret (Some code)
      | Some w => _ ← add_server w; create_servers strerror addrs'
      end
  end.

Fixpoint start_servers (strerror : cstr) (i : nat) (addrs : list (cstr * server_setup))
    : M daemon (option Z) :=
  match addrs with
  | [] => mret None
  | (server_addr, su) :: addrs' =>
      rc ← on_server i (server_start (su_set_blocking su) (su_await su) (su_fd su));
      if bool_decide (rc < 0)%Z then
        code ← die strerror (C "Unable to start server bound to " ++ quoted server_addr);
        mret (Some code)
      else start_servers strerror (S i) addrs'
  end.

(** What the event loop calls back for: a signal, or an event of a server. *)
Inductive daemon_event := Signal | ServerEvent (i : nat) (e : server_event).

(** [event_base_dispatch]: whether a signal has ended it. *)
Fixpoint event_base_dispatch (evs : list daemon_event) : M daemon bool :=
  match evs with
  | [] => mret false
  | Signal :: _ => mret true
  | ServerEvent i e :: evs' =>
      _ ← on_server i (run_server_event (json_t := json_t) xcm_remote_addr e);
      event_base_dispatch evs'
  end.

(** [main]: the exit status, or none while the event loop waits. *)
Definition main (argv0 : cstr) (opts : list opt) (addrs : list (cstr * server_setup))
    (event_base_new : bool) (strerror : cstr) (evs : list daemon_event) : M daemon (option Z) :=
  r ← handle_opts argv0 default_settings opts;
  match r with
  | inr code => mret (Some code)
  | inl s =>
      _ ← in_log (log_init (get_prg_name argv0) (log_filter s) (log_facility s) (log_flags s));
      if bool_decide (length addrs = 0) then
        text ← lift (usage argv0);
        _ ← print_out (Stdout text);
        mret (Some EXIT_FAILURE)
      else if negb event_base_new then
        code ← die strerror (C "Unable to create event_base");
        mret (Some code)
      else
        _ ← in_log (log_info getpid (C "tpafd version " ++ TPAF_VERSION ++ C " started."));
        created ← create_servers strerror addrs;
        match created with
        | Some code => mret (Some code)
        | None =>
            started ← start_servers strerror 0 addrs;
            match started with
            | Some code => mret (Some code)
            | None =>
                ended ← event_base_dispatch evs;
                if (ended : bool) then
                  _ ← mforeach (λ i, on_server i server_destroy) (seq 0 (length addrs));
                  _ ← in_log log_deinit;
                  mret (Some EXIT_SUCCESS)
                else mret None
            end
        end
  end.
End main.
