(* ===== verification/DaemonSpec.v ===== *)
(** * What the daemon guarantees

    Which command lines and circumstances make the process of
    src/daemon/main.c end, and how; that its servers run as if each were alone,
    whatever the order of their events; and that a signal takes all of them
    down. *)

From S2P Require Import Prelude CLib Log Double Heap Sd SdRun SdSpec Json JsonTree ProtoTa ProtoConn Server ServerInv ServerRun ServerLive ServerSpec Daemon.

Section spec.
Context {json_t : Type} `{!Jansson json_t, !JanssonLaws json_t}.
Context (xcm_remote_addr : Z → option cstr) (getpid : Z) (TPAF_VERSION : cstr).
Abbreviation winv := (winv (json_t := json_t)).
Abbreviation run_server := (run_server (json_t := json_t) xcm_remote_addr).
Abbreviation server_admissible := (server_admissible (json_t := json_t) xcm_remote_addr).
Abbreviation dispatch := (event_base_dispatch (json_t := json_t) xcm_remote_addr).

(** ** Events of many servers *)

(** The events of one server, until the first signal. *)
Fixpoint events_of (i : nat) (evs : list daemon_event) : list server_event :=
  match evs with
  | [] | Signal :: _ => []
  | ServerEvent j e :: evs' => if decide (i = j) then e :: events_of i evs' else events_of i evs'
  end.

Fixpoint signalled (evs : list daemon_event) : bool :=
  match evs with
  | [] => false
  | Signal :: _ => true
  | ServerEvent _ _ :: evs' => signalled evs'
  end.

Definition event_of_one (n : nat) (e : daemon_event) : Prop :=
  match e with Signal => True | ServerEvent i _ => (i < n)%nat end.

(** Each server is in a good state, and can have its events. *)
Definition servers_ready (ws : list world) (evs : list daemon_event) : Prop :=
  ∀ i w, ws !! i = Some w → winv None w ∧ server_admissible w (events_of i evs) = true.

(** Each server has got from its state in [ws] to that in [ws'] by its events. *)
Definition each_ran (ws : list world) (evs : list daemon_event) (ws' : list world) : Prop :=
  length ws' = length ws ∧
  ∀ i w w', ws !! i = Some w → ws' !! i = Some w' →
    winv None w' ∧ run_server (events_of i evs) w = Ok (tt, w').

Lemma dispatch_runs_each evs : ∀ d, Forall (event_of_one (length (d_servers d))) evs →
  servers_ready (d_servers d) evs →
  ∃ d', dispatch evs d = Ok (signalled evs, d') ∧ each_ran (d_servers d) evs (d_servers d') ∧
    d_log d' = d_log d ∧ d_printed d' = d_printed d.
Proof.
  assert (Hstop : ∀ d evs, servers_ready (d_servers d) evs → (∀ i, events_of i evs = []) →
    each_ran (d_servers d) evs (d_servers d)).
  { intros d evs' Hr Hno. split; [done|]. intros i w w' Hw Hw'. simplify_eq.
    rewrite Hno. split; [apply (Hr _ _ Hw)|done]. }
  induction evs as [|[|j e] evs IH]; intros d Hin Hr; [|by exists d; split_and!; try apply Hstop..|].
  { exists d. split_and!; try done. by apply Hstop. }
  apply Forall_cons in Hin as [Hj Hin]. simpl in Hj.
  destruct (lookup_lt_is_Some_2 _ _ Hj) as [w Hw]. destruct (Hr _ _ Hw) as [W Ha].
  simpl in Ha. rewrite decide_True in Ha by done. apply andb_true_iff in Ha as [Hal Ha].
  pose proof (server_event_ok xcm_remote_addr e w W Hal) as He. unfold wp in He.
  destruct (run_server_event _ e w) as [[[] w1]|] eqn:Ee; [|done].
  set (d1 := Daemon (d_log d) (<[j := w1]> (d_servers d)) (d_printed d)).
  assert (E1 : on_server j (run_server_event xcm_remote_addr e) d = Ok (tt, d1))
    by (unfold on_server; by rewrite Hw, Ee).
  destruct (IH d1) as (d' & E & [Hlen Hran] & El & Ep).
  { simpl. by rewrite length_insert. }
  { intros i w' [(-> & <- & _)|[Hne Hw']]%list_lookup_insert_Some; [done|].
    destruct (Hr _ _ Hw') as [W' Ha']. simpl in Ha'. by rewrite decide_False in Ha'. }
  exists d'. split; [cbn [event_base_dispatch]; unfold mbind, M_bind; by rewrite E1|].
  simpl in Hlen. rewrite length_insert in Hlen. split; [|done]. split; [done|].
  intros i w0 w' Hw0 Hw'. simpl in Hran |- *. case_decide as Hij.
  - subst i. simplify_eq.
    destruct (Hran j w1 w') as [W' Er]; [by rewrite list_lookup_insert_eq|done|].
    split; [done|]. cbn [Server.run_server]. unfold mbind, M_bind. by rewrite Ee.
  - apply (Hran i w0 w'); [by rewrite list_lookup_insert_ne|done].
Qed.

(** ** Options *)

(** The status with which an option ends the process. *)
Definition opt_exit (o : opt) : option Z :=
  if decide (opt_char o = "y"%char) then
    if decide (optarg o ∈ facilities.*2) then None else Some EXIT_FAILURE
  else if decide (opt_char o = "l"%char) then
    if decide (optarg o ∈ levels.*2) then None else Some EXIT_FAILURE
  else if decide (opt_char o = "v"%char ∨ opt_char o = "h"%char) then Some EXIT_SUCCESS
  else if decide (opt_char o = "?"%char) then Some EXIT_FAILURE
  else None.

(** What an option sets. *)
Definition opt_sets (o : opt) (s s' : settings) : Prop :=
  if decide (opt_char o = "s"%char) then
    s' = Settings (log_facility s) (log_filter s) (Z.lor (log_flags s) LOG_USE_STDERR)
  else if decide (opt_char o = "n"%char) then
    s' = Settings (log_facility s) (log_filter s) (Z.ldiff (log_flags s) LOG_USE_SYSLOG)
  else if decide (opt_char o = "y"%char) then
    (log_facility s', optarg o) ∈ facilities ∧
    s' = Settings (log_facility s') (log_filter s) (log_flags s)
  else if decide (opt_char o = "l"%char) then
    (log_filter s', optarg o) ∈ levels ∧ s' = Settings (log_facility s) (log_filter s') (log_flags s)
  else s' = s.

(** The first option that ends the process does so; else the settings are made
    in order. *)
Fixpoint opts_exit (opts : list opt) : option Z :=
  match opts with
  | [] => None
  | o :: opts' => match opt_exit o with Some code => Some code | None => opts_exit opts' end
  end.

Fixpoint opts_set (opts : list opt) (s s' : settings) : Prop :=
  match opts with
  | [] => s' = s
  | o :: opts' => ∃ s1, opt_sets o s s1 ∧ opts_set opts' s1 s'
  end.

(** Only printing has happened. *)
Definition only_printed (d d' : daemon) : Prop :=
  d_log d' = d_log d ∧ d_servers d' = d_servers d.

Lemma table_lookup values s : table_ok values → nul_free s →
  ((s ∈ values.*2) ∧ ∃ v, value_lookup values s = Ok v ∧ (v, s) ∈ values ∧ (v <? 0)%Z = false) ∨
  ((s ∉ values.*2) ∧ value_lookup values s = Ok (-1)%Z).
Proof.
  intros Hok Hs. destruct (value_lookup_ok values s Hok Hs) as (v & E & [Hin|[-> Hn]]);
    [left|by right]. split; [apply list_elem_of_fmap; by exists (v, s)|].
  exists v. split_and!; [done|done|]. destruct Hok as (_ & _ & Hall).
  rewrite Forall_forall in Hall. apply Z.ltb_ge, (Hall _ Hin).
Qed.

Lemma tables_ok : table_ok facilities ∧ table_ok levels.
Proof. split; apply (bool_decide_unpack _); vm_compute; exact I. Qed.

Lemma names_foreach_ok values : ∀ st,
  ∃ st', named_values_foreach values print_name st = Ok (tt, st').
Proof.
  induction values as [|nv values IH]; intros [count out]; [by eexists|]. apply IH.
Qed.

Lemma names_printed :
  (∃ t, print_names log_facility_foreach = Ok t) ∧ (∃ t, print_names log_level_foreach = Ok t).
Proof.
  unfold print_names, log_facility_foreach, log_level_foreach.
  destruct (names_foreach_ok facilities (0, [])) as [[n t] ->].
  destruct (names_foreach_ok levels (0, [])) as [[n' t'] ->]. split; by eexists.
Qed.

Lemma usage_printed name : ∃ t, usage name = Ok t.
Proof.
  unfold usage.
  assert (E : print_str (log_facility_to_str DEFAULT_LOG_FACILITY) = Ok (C "daemon"))
    by (vm_compute; reflexivity).
  assert (E' : print_str (log_level_to_str DEFAULT_LOG_LEVEL) = Ok (C "info"))
    by (vm_compute; reflexivity).
  rewrite E, E'. unfold mbind, outcome_bind, mret, outcome_ret. by eexists.
Qed.

(** The branch of the option at hand. *)
Ltac this_opt :=
  repeat match goal with
  | |- context [decide (?a = ?b)] =>
      first [rewrite (decide_True (P := a = b)) by reflexivity
            |rewrite (decide_False (P := a = b)) by first [discriminate|assumption]]
  | |- context [decide (?a = ?b ∨ ?c = ?d)] =>
      first [rewrite (decide_True (P := a = b ∨ c = d)) by first [left; reflexivity|right; reflexivity]
            |rewrite (decide_False (P := a = b ∨ c = d)) by (intros [|]; discriminate)]
  end.

Ltac opt_done := eexists _, _; split; [reflexivity|]; split; [split; reflexivity|]; eauto.

Lemma handle_opt_ok argv0 s o d : nul_free (optarg o) →
  ∃ r d', handle_opt TPAF_VERSION argv0 s o d = Ok (r, d') ∧ only_printed d d' ∧
    match opt_exit o with
    | Some code => r = inr code
    | None => ∃ s', r = inl s' ∧ opt_sets o s s' ∧ d' = d
    end.
Proof.
  intros Hs. destruct o as [c arg]. unfold handle_opt, opt_exit, opt_sets. cbn [opt_char optarg] in *.
  destruct tables_ok as [Hf Hl], names_printed as [[tf Etf] [tl Etl]], (usage_printed argv0) as [tu Etu].
  unfold mbind, M_bind, lift, log_str_to_facility, log_str_to_level.
  destruct (decide (c = "s"%char)) as [->|Hns]; [this_opt; opt_done|].
  destruct (decide (c = "n"%char)) as [->|Hnn]; [this_opt; opt_done|].
  destruct (decide (c = "y"%char)) as [->|Hny].
  { destruct (table_lookup _ arg Hf Hs) as [[Hin (v & E & Hv & Hneg)]|[Hn E]]; rewrite E; this_opt.
    - rewrite decide_True by exact Hin. rewrite bool_decide_eq_false_2 by lia. opt_done.
    - rewrite decide_False by exact Hn. cbn. rewrite Etf. opt_done. }
  destruct (decide (c = "l"%char)) as [->|Hnl].
  { destruct (table_lookup _ arg Hl Hs) as [[Hin (v & E & Hv & Hneg)]|[Hn E]]; rewrite E; this_opt.
    - rewrite decide_True by exact Hin. rewrite bool_decide_eq_false_2 by lia. opt_done.
    - rewrite decide_False by exact Hn. cbn. rewrite Etl. opt_done. }
  destruct (decide (c = "v"%char)) as [->|Hnv]; [this_opt; opt_done|].
  destruct (decide (c = "h"%char)) as [->|Hnh]; [this_opt; rewrite Etu; opt_done|].
  rewrite (decide_False (P := c = "v"%char ∨ _)) by (intros [Ec|Ec]; [exact (Hnv Ec)|exact (Hnh Ec)]).
  destruct (decide (c = "?"%char)) as [->|Hnq]; this_opt; opt_done.
Qed.

Lemma handle_opts_ok argv0 opts : Forall (λ o, nul_free (optarg o)) opts → ∀ s d,
  ∃ r d', handle_opts TPAF_VERSION argv0 s opts d = Ok (r, d') ∧ only_printed d d' ∧
    match opts_exit opts with
    | Some code => r = inr code
    | None => ∃ s', r = inl s' ∧ opts_set opts s s' ∧ d' = d
    end.
Proof.
  induction 1 as [|o opts Ho _ IH]; intros s d.
  { exists (inl s), d. split; [done|]. split; [done|]. by exists s. }
  cbn [handle_opts opts_exit opts_set].
  destruct (handle_opt_ok argv0 s o d Ho) as (r & d1 & E & [El1 Es1] & Hr).
  unfold mbind, M_bind at 1. rewrite E. destruct (opt_exit o) as [code|].
  { subst r. by exists (inr code), d1. }
  destruct Hr as (s1 & -> & Hs1 & ->). destruct (IH s1 d) as (r & d2 & E2 & [El2 Es2] & Hr).
  exists r, d2. split; [done|]. split; [split; congruence|].
  destruct (opts_exit opts); [done|]. destruct Hr as (s' & -> & Hs' & ->). exists s'. eauto.
Qed.

(** ** Creating, starting and destroying servers *)

Definition new_server (su : server_setup) : world :=
  World (sd_create (su_clock su)) ∅ ∅ 1 [] [] false [].

Definition started (su : server_setup) : world := set_running true (new_server su).

Definition no_socket (su : server_setup) : bool := bool_decide (su_sock su = None).

Definition start_fails (su : server_setup) : bool :=
  bool_decide (su_set_blocking su < 0)%Z || bool_decide (su_await su < 0)%Z ||
  bool_decide (su_fd su < 0)%Z.

Lemma create_servers_ok strerror addrs : ∀ d,
  if existsb (no_socket ∘ snd) addrs
  then ∃ d', create_servers strerror addrs d = Ok (Some EXIT_FAILURE, d')
  else create_servers strerror addrs d =
    Ok (None, Daemon (d_log d) (d_servers d ++ (new_server ∘ snd <$> addrs)) (d_printed d)).
Proof.
  induction addrs as [|[a su] addrs IH]; intros d.
  { simpl. rewrite app_nil_r. by destruct d. }
  cbn [existsb create_servers compose snd]. unfold no_socket at 1. unfold compose at 1. simpl.
  destruct (su_sock su) as [s|] eqn:Es.
  - rewrite bool_decide_eq_false_2 by done. cbn [orb server_create].
    unfold mbind, M_bind, add_server at 1. specialize (IH (Daemon (d_log d)
      (d_servers d ++ [new_server su]) (d_printed d))).
    destruct (existsb _ addrs); [exact IH|]. simpl in IH. unfold add_server.
    rewrite <-app_assoc in IH. exact IH.
  - rewrite bool_decide_eq_true_2 by done. cbn. by eexists.
Qed.

Lemma server_start_ok su : ∃ rc w,
  server_start (su_set_blocking su) (su_await su) (su_fd su) (new_server su) = Ok (rc, w) ∧
  if start_fails su then (rc < 0)%Z else rc = 0%Z ∧ w = started su.
Proof.
  unfold server_start, start_fails, mbind, M_bind, gets, lift. simpl.
  repeat (case_bool_decide; [by eexists _, _|]). simpl.
  by eexists _, _.
Qed.

Lemma on_server_app {A} pre w ws d (m : M world A) : d_servers d = pre ++ w :: ws →
  on_server (length pre) m d =
    match m w with
    | Ok (a, w') => Ok (a, Daemon (d_log d) ((pre ++ [w']) ++ ws) (d_printed d))
    | Fail e => Fail e
    end.
Proof.
  intros E. unfold on_server. rewrite E, list_lookup_middle by done.
  destruct (m w) as [[a w']|]; [|done]. rewrite <-app_assoc. simpl.
  by rewrite insert_app_r_alt, Nat.sub_diag by lia.
Qed.

Lemma start_servers_ok strerror addrs : ∀ pre d,
  d_servers d = pre ++ (new_server ∘ snd <$> addrs) →
  if existsb (start_fails ∘ snd) addrs
  then ∃ d', start_servers strerror (length pre) addrs d = Ok (Some EXIT_FAILURE, d')
  else start_servers strerror (length pre) addrs d =
    Ok (None, Daemon (d_log d) (pre ++ (started ∘ snd <$> addrs)) (d_printed d)).
Proof.
  induction addrs as [|[a su] addrs IH]; intros pre d E.
  { simpl in *. rewrite <-E. by destruct d. }
  cbn [existsb start_servers]. unfold compose at 1. csimpl. csimpl in E.
  unfold mbind at 1, M_bind at 1. unfold mbind at 2, M_bind at 2. rewrite (on_server_app _ _ _ _ _ E).
  destruct (server_start_ok su) as (rc & w & Es & Hrc). rewrite Es.
  destruct (start_fails su); cbn [orb].
  - rewrite bool_decide_eq_true_2 by done. cbn. by eexists.
  - destruct Hrc as [-> ->]. cbn [bool_decide].
    specialize (IH (pre ++ [started su]) (Daemon (d_log d)
      ((pre ++ [started su]) ++ (new_server ∘ snd <$> addrs)) (d_printed d)) eq_refl).
    rewrite length_app in IH. simpl in IH. rewrite Nat.add_1_r in IH.
    destruct (existsb _ addrs); [exact IH|].
    rewrite <-(app_assoc pre [_] (started ∘ snd <$> addrs)) in IH. exact IH.
Qed.

Lemma destroy_servers_ok ws : ∀ pre d, d_servers d = pre ++ ws → Forall (winv None) ws →
  ∃ ws', mforeach (λ i, on_server i server_destroy) (seq (length pre) (length ws)) d =
    Ok (tt, Daemon (d_log d) (pre ++ ws') (d_printed d)) ∧
    length ws' = length ws ∧ Forall server_freed ws'.
Proof.
  induction ws as [|w ws IH]; intros pre d E Hws.
  { exists []. rewrite <-E. split_and!; [by destruct d|done|done]. }
  apply Forall_cons in Hws as [W Hws]. cbn [length seq mforeach]. unfold mbind, M_bind at 1.
  rewrite (on_server_app _ _ _ _ _ E). pose proof (wp_server_destroy xcm_remote_addr w W) as Hd. unfold wp in Hd.
  destruct (server_destroy w) as [[[] w1]|]; [|done].
  destruct (IH (pre ++ [w1]) (Daemon (d_log d) ((pre ++ [w1]) ++ ws) (d_printed d)) eq_refl Hws)
    as (ws' & Er & Hlen & Hf).
  exists (w1 :: ws'). rewrite length_app in Er. simpl in Er. rewrite Nat.add_1_r in Er.
  rewrite Er, <-app_assoc. split_and!; [done|by simpl; rewrite Hlen|by apply Forall_cons].
Qed.

(** ** The whole process *)

(** The status with which the process ends before its event loop, if it does. *)
Definition early_exit (opts : list opt) (addrs : list (cstr * server_setup)) (event_base_new : bool)
    : option Z :=
  match opts_exit opts with
  | Some code => Some code
  | None =>
      if bool_decide (length addrs = 0) || negb event_base_new ||
        existsb (no_socket ∘ snd) addrs || existsb (start_fails ∘ snd) addrs
      then Some EXIT_FAILURE else None
  end.

(** The event loop makes only events that its servers can have. *)
Definition setups_ok (addrs : list (cstr * server_setup)) (evs : list daemon_event) : Prop :=
  ∀ i a su, addrs !! i = Some (a, su) →
    clock_fine (su_clock su) ∧ server_admissible (started su) (events_of i evs) = true.

(** What the log module is set to. *)
Definition logs_as (s : settings) (d : daemon) : Prop :=
  log_filter_level (d_log d) = log_filter s ∧ Log.log_flags (d_log d) = log_flags s.

Lemma winv_started su : clock_fine (su_clock su) → winv None (started su).
Proof.
  intros Hclk. apply (winv_same None (new_server su)); try done.
  by eapply (winv_create (su_clock su) 0).
Qed.

Lemma started_ready addrs evs : setups_ok addrs evs →
  servers_ready (started ∘ snd <$> addrs) evs.
Proof.
  intros H i w Hw. apply list_lookup_fmap_Some in Hw as ([a su] & -> & Ha).
  destruct (H i a su Ha) as [Hclk Hadm]. split; [by apply winv_started|done].
Qed.

(** Setting up the log, and the first line. *)
Lemma log_set_up argv0 s d : d_log d = log_0 →
  ∃ l, in_log (log_init argv0 (log_filter s) (log_facility s) (log_flags s)) d =
      Ok (tt, Daemon l (d_servers d) (d_printed d)) ∧
    log_filter_level l = log_filter s ∧ Log.log_flags l = log_flags s ∧
    ∃ l', is_Some (log_ident l') ∧ log_info getpid (C "tpafd version " ++ TPAF_VERSION ++ C " started.") l = Ok (tt, l') ∧
      log_filter_level l' = log_filter s ∧ Log.log_flags l' = log_flags s.
Proof.
  intros E. unfold in_log, log_init, mbind, M_bind, modify. rewrite E.
  set (l0 := set_log_vars _ _ _ log_0).
  assert (∃ os, (if has_flag (log_flags s) LOG_USE_SYSLOG
    then λ st, Ok (tt, log_put (Openlog argv0 (log_facility s)) st) else mret tt) l0 =
    Ok (tt, with_outputs os l0)) as [os ->].
  { destruct (has_flag _ _); [by exists [Openlog argv0 (log_facility s)]|by exists []]. }
  eexists. split; [reflexivity|]. split; [done|]. split; [done|].
  destruct (vlog_event_ok getpid (with_outputs os l0) LOG_INFO None
    (C "tpafd version " ++ TPAF_VERSION ++ C " started.")) as (t & _ & Ev).
  - apply (ctxs_ok_same log_0); [done|done|apply ctxs_ok_0].
  - done.
  - by intros _; eexists.
  - eexists. split; [|split; [exact Ev|by split]]. by eexists.
Qed.

(** The event loop and what follows it. *)
Lemma daemon_loop addrs evs d : setups_ok addrs evs →
  Forall (event_of_one (length addrs)) evs → d_servers d = (started ∘ snd <$> addrs) →
  is_Some (log_ident (d_log d)) →
  ∃ code d', (ended ← dispatch evs;
      if (ended : bool) then
        _ ← mforeach (λ i, on_server i server_destroy) (seq 0 (length addrs));
        _ ← in_log log_deinit;
        mret (Some EXIT_SUCCESS)
      else mret None) d = Ok (code, d') ∧
    d_printed d' = d_printed d ∧ length (d_servers d') = length addrs ∧
    (∀ s, logs_as s d → logs_as s d') ∧
    if signalled evs then code = Some EXIT_SUCCESS ∧ Forall server_freed (d_servers d')
    else code = None ∧ ∀ i a su w, addrs !! i = Some (a, su) → d_servers d' !! i = Some w →
      run_server (events_of i evs) (started su) = Ok (tt, w).
Proof.
  intros Hs Hin Es [id Hid]. destruct (dispatch_runs_each evs d) as (d1 & E & [Hlen Hran] & El & Ep).
  { by rewrite Es, length_fmap. }
  { rewrite Es. by apply started_ready. }
  unfold mbind, M_bind. rewrite E. rewrite Es, length_fmap in Hlen.
  destruct (signalled evs).
  - destruct (destroy_servers_ok (d_servers d1) [] d1 eq_refl) as (ws' & Ed & Hlen' & Hf).
    { apply Forall_lookup. intros i w Hw. assert (i < length addrs)%nat as Hi
        by (rewrite <-Hlen; by eapply lookup_lt_Some).
      rewrite Es in Hran. destruct (lookup_lt_is_Some_2 (started ∘ snd <$> addrs) i) as [w0 Hw0];
        [by rewrite length_fmap|]. apply (Hran i w0 w Hw0 Hw). }
    rewrite Hlen in Ed. change (length (A := world) []) with 0 in Ed. rewrite Ed.
    unfold in_log, log_deinit. cbn [d_log]. rewrite El. unfold log_ident in Hid.
    destruct (log_ident_ptr (d_log d)); [done..|].
    eexists _, _. split; [reflexivity|]. simpl. split; [done|]. split; [congruence|].
    split; [|done]. done.
  - eexists _, d1. split; [reflexivity|]. split; [done|]. split; [done|].
    split; [unfold logs_as; by rewrite El|]. split; [done|]. intros i a su w Ha Hw.
    apply (Hran i); [|done]. rewrite Es. by apply list_lookup_fmap_Some_2 with (x := (a, su)).
Qed.

(** C9: the process.  It ends before its event loop exactly when an option ends
    it, there is no address, or a call for the event base, a socket or a server's
    start fails, with the status that goes with it.  Otherwise it logs as its
    options say, prints nothing, and lets its servers run: whatever the order of
    their events, each gets where it would get alone; and when a signal comes,
    all of them are torn down, nothing of them is left in memory, and the
    process ends with success. *)
Theorem daemon_correct argv0 opts addrs event_base_new strerror evs :
  Forall (λ o, nul_free (optarg o)) opts → setups_ok addrs evs →
  Forall (event_of_one (length addrs)) evs →
  ∃ code d, main (json_t := json_t) xcm_remote_addr getpid TPAF_VERSION argv0 opts addrs event_base_new
      strerror evs daemon_0 = Ok (code, d) ∧
    match early_exit opts addrs event_base_new with
    | Some status => code = Some status
    | None =>
        d_printed d = [] ∧ length (d_servers d) = length addrs ∧
        (∃ s, opts_set opts default_settings s ∧ logs_as s d) ∧
        if signalled evs then code = Some EXIT_SUCCESS ∧ Forall server_freed (d_servers d)
        else code = None ∧ ∀ i a su w, addrs !! i = Some (a, su) → d_servers d !! i = Some w →
          run_server (events_of i evs) (started su) = Ok (tt, w)
    end.
Proof.
  intros Hopts Hs Hin. unfold main, early_exit. unfold mbind at 1, M_bind at 1.
  destruct (handle_opts_ok argv0 opts Hopts default_settings daemon_0) as (r & d0 & Eo & [El0 Es0] & Hr).
  rewrite Eo. destruct (opts_exit opts) as [code|]; [subst r; by eexists _, d0|].
  destruct Hr as (s & -> & Hset & ->). unfold mbind at 1, M_bind at 1.
  destruct (log_set_up (get_prg_name argv0) s daemon_0 eq_refl)
    as (l & Ei & Hl1 & Hl2 & l' & Hid & Ei' & Hl1' & Hl2').
  rewrite Ei. case_bool_decide as Hn; cbn [orb].
  { destruct (usage_printed argv0) as [t Et]. unfold mbind, M_bind, lift. rewrite Et. clear Et.
    eexists _, _. split; reflexivity. }
  destruct event_base_new; cbn [negb orb]; [|by eexists _, _].
  unfold mbind at 1, M_bind at 1. unfold in_log at 1. cbn [d_log d_servers d_printed]. rewrite Ei'.
  unfold mbind at 1, M_bind at 1. set (d1 := Daemon l' _ _).
  pose proof (create_servers_ok strerror addrs d1) as Hc.
  destruct (existsb _ addrs); cbn [orb]; [destruct Hc as [d2 ->]; by eexists _, d2|].
  rewrite Hc. unfold mbind at 1, M_bind at 1.
  pose proof (start_servers_ok strerror addrs [] (Daemon l' (new_server ∘ snd <$> addrs) (d_printed daemon_0))
    eq_refl) as Hst. unfold d1. cbn [d_log d_servers d_printed]. simpl app in *.
  change (length (A := world) []) with 0 in Hst.
  destruct (existsb _ addrs); [destruct Hst as [d2 ->]; by eexists _, d2|]. rewrite Hst.
  set (d2 := Daemon l' (started ∘ snd <$> addrs) (d_printed daemon_0)).
  destruct (daemon_loop addrs evs d2 Hs Hin eq_refl Hid) as (code & d & E & Hp & Hlen & Hlog & Hend).
  exists code, d. split; [exact E|]. split; [exact Hp|]. split; [exact Hlen|]. split; [|exact Hend].
  exists s. split; [exact Hset|]. apply Hlog. by split.
Qed.
End spec.

(** ** Witness *)

(** Two servers, whose events mingle until a signal comes. *)
Definition two_setups : list (cstr * server_setup) :=
  [(C "ux:one", ServerSetup clk0 (Some 7%Z) 0 0 8); (C "ux:two", ServerSetup clk0 (Some 9%Z) 0 0 10)].

Definition two_stories : list daemon_event :=
  (ServerEvent 0 <$> take 3 story) ++ (ServerEvent 1 <$> story) ++ (ServerEvent 0 <$> drop 3 story) ++
  [Signal].

Definition some_opts : list opt := [Opt "s" []; Opt "l" (C "debug")].

Lemma daemon_correct_witness : ∃ d,
  main (json_t := json) peer_addr 17 (C "1.0") (C "/usr/sbin/tpafd") some_opts two_setups true
    (C "Success") two_stories daemon_0 = Ok (Some EXIT_SUCCESS, d) ∧
  length (d_servers d) = 2 ∧ Forall server_freed (d_servers d).
Proof.
  destruct (daemon_correct (json_t := json) peer_addr 17 (C "1.0") (C "/usr/sbin/tpafd") some_opts
    two_setups true (C "Success") two_stories) as (code & d & E & H).
  - apply (bool_decide_unpack _). vm_compute. exact I.
  - intros [|[|i]] a su Ha; [..|by destruct i]; injection Ha as <- <-;
      (split; [exact clk0_fine|]); vm_compute; reflexivity.
  - apply Forall_forall. intros e He. vm_compute in He.
    repeat (apply elem_of_cons in He as [->|He]; [simpl; lia || exact I|]). by apply elem_of_nil in He.
  - change (early_exit some_opts two_setups true) with (None (A := Z)) in H.
    destruct H as (_ & Hlen & _ & -> & Hf). exists d. split; [exact E|]. split; [exact Hlen|exact Hf].
Defined.
